(* ===== verification/_CoqProject ===== *)
-Q . S2P
Prelude.v
JsString.v
Sql.v
Platform.v
JsInt.v
SeenNonces.v
LeaseCounters.v
Attestations.v
PendingAttestations.v
Registry.v
Receipts.v
TrustStore.v
BlobRefStore.v
Codec.v
WireMessages.v
Base64.v
Json.v
JsonText.v
ReceiptsCbor.v
JsConvert.v
Antichain.v
Canonical.v
Bead.v
BeadStore.v
TypedCid.v
ConfinementJson.v
Confinement.v
Origin.v
BeadCreate.v
Framing.v
WasmBridge.v
Matchmaker.v
CaBundle.v
Lease.v
ReceiptWire.v
ReceiptVerify.v
ReceiptEmit.v
ReceiptStream.v
Disclosure.v
OciRegistry.v
Edge.v
McpRoute.v
McpProxy.v
RateBucket.v
Vault.v
VaultStore.v
Tenant.v
Backends.v
VaultProxy.v
Gateway.v
Zod.v
ClusterToml.v
ClusterRoundtrip.v
VaultKey.v
VaultHandler.v
BundleAuth.v
Discovery.v
UriText.v
IdentityBridge.v
McpRegistry.v
