(* ===== verification/Prelude.v ===== *)
(** * Cloister: a verification development

    Cloister is a gateway written in TypeScript for Cloudflare workers: it admits
    requests that carry a signed lease, keeps the evidence of who did what in
    Durable Objects, stores content-addressed blobs and an OCI registry over them,
    runs tools on behalf of its callers, signs receipts for what it answers, and
    proxies calls to third-party services with credentials its callers never see.
    This library models the parts that carry those promises and proves them.  Paths
    are relative to src/ of the repository's TypeScript unless they start with vault/
    or cli/.

    ** How the program's parts interact

    A request enters a lease-gated route.  The route asks the gate ([CaBundle],
    routes/lease-gate.ts), which resolves the CA bundle from a per-isolate cache or
    from the authority; the pipeline ([Lease], routes/lease-middleware.ts) checks
    headers, clock, certificate, epoch, signature and scope, and ends in one call to
    the singleton TrustStore object ([TrustStore], trust-store.ts) that records the
    nonce and advances the peer's hash chain.  The same object keeps the attestation
    log, the queue of attestations to retry, the registry's tags and memberships, the
    receipts and the CA bundle epochs.  Blobs live in a second object
    ([BlobRefStore]), credentials in a third ([VaultStore] over [Vault] and
    [RateBucket]), work items in one object per repository ([BeadStore]).  The
    bead_create handoff ([BeadCreate]) crosses three of them; the registry route
    ([OciRegistry]) two; the disclosure route ([Disclosure]) reads the attestation log.
    The manifest ([Gateway]) becomes the route table of the edge ([Edge]), whose MCP
    route ([McpRoute]) lists and calls the tools of its backends ([McpProxy] for an
    upstream server, [Backends] for the others); the vault's route ([VaultProxy]) adds a
    stored credential to what it forwards, and a gateway of several tenants hands a
    request to its tenant's worker ([Tenant]).
    What a route answers gets a receipt ([ReceiptEmit], [ReceiptStream]) in the formats
    of [ReceiptWire], which the caller checks with [ReceiptVerify].  Content is named by
    digests of canonical forms ([Canonical], [Bead], [TypedCid], [ConfinementJson],
    [Framing]).  The command line tool narrows the confinement of what it launches
    ([Confinement]) and matches the capabilities of cluster inputs ([Matchmaker]).

    ** Files, in dependency order

    - Prelude.v: outcomes, the monad of a Durable Object method with its triples
      ([hoare]) and the fate of a cross-object call ([rpc]), bytes.
    - JsString.v: JavaScript strings as UTF-16 units, UTF-8 both ways, splitting and
      searching, decimal rendering.
    - Sql.v: the statements the program runs against SQLite, over finite maps keyed
      by the primary key: INSERT with its three conflict rules, UPDATE, DELETE,
      SELECT with ORDER BY and LIMIT, and their laws.
    - Platform.v: the platform's primitives (SHA-256, BLAKE3, Ed25519) as operational
      type classes, and the hex codec of storage/canonical.ts.
    - JsInt.v: the 32-bit bitwise operators.
    - SeenNonces.v, LeaseCounters.v, Attestations.v, PendingAttestations.v,
      Registry.v, Receipts.v: the storage helpers of the same names in storage/, one
      table each: row type, one definition per exported function, and the abstract
      specification the table refines (a log of observations, a log of rows, a map).
    - TrustStore.v: the object over those tables ([TrustStore.T]); one definition per
      RPC method and the alarm; calls in flight as a step relation ([node_step]),
      where a call reads and digests in one step and commits in another, and the
      input gate ([blockConcurrencyWhile]) forbids a second call in between.
    - BlobRefStore.v: storage/workerd.ts and blob-store.ts: chunked blobs refine a
      map from digests to bytes; refs are compare-and-swap registers, listed by a
      LIKE pattern.
    - Codec.v, WireMessages.v: wire/codec.ts and the three messages of wire/.  The
      builder is a state monad; [builds] and [triple] state what a run of it leaves in
      the buffer, and the round trips are proved through them.
    - ReceiptsCbor.v: wire/receipts-cbor.ts, encoder and strict decoder.
    - Base64.v, Json.v, JsonText.v, JsConvert.v: btoa, atob and the program's base64
      codecs; JSON values; JSON.parse and JSON.stringify with their round trip; the
      language's conversions and Array#sort.
    - Antichain.v: maximal elements under a preorder, as the lattice and the matchmaker
      need them.
    - Canonical.v, Bead.v, TypedCid.v, ConfinementJson.v, Framing.v, Origin.v: the
      canonical forms of storage/canonical.ts, storage/bead-canonical.ts,
      storage/typed-cid.ts, wire/confinement-digest.ts, wire/run-id.ts with
      wire/partition.ts, and wire/origin.ts, each with what its digest commits to.
    - BeadStore.v: beads.ts, every JSON-RPC method over two tables.
    - Confinement.v: cli/lib/harness/confinement-lattice.mjs, the meet, the order and
      the ratchet.
    - BeadCreate.v: routes/bead-create-orchestrator.ts over the three objects, each
      call with a fate.
    - WasmBridge.v: wire/cas-hash.ts and the fold call of wire/partition.ts.
    - Matchmaker.v: cli/lib/cluster/capability-matchmaker.mjs.
    - CaBundle.v: the gate, the bundle cache, the signing bytes and the fetcher.
    - Lease.v: the pipeline ([verifyAndUpsertLease]) as a program over
      [TrustStore.T], and the gate flow ([gateAndVerify]) over that and the cache.
    - ReceiptWire.v, ReceiptVerify.v, ReceiptEmit.v, ReceiptStream.v: the commitments
      and envelopes of wire/receipts.ts; the verifiers and the compromise notices; the
      delegated signer, the emitter and the guard of audit rows; the hash chain around
      an event stream.
    - Disclosure.v: routes/disclosure.ts with the signed cursors of
      storage/disclosure-cursor.ts.
    - OciRegistry.v: routes/oci-registry.ts over the blob store, the registry tables
      and the gate.
    - Edge.v, McpRoute.v: router.ts, cors.ts and routes/health.ts; routes/mcp.ts, every
      method over backends that are a record of operations.
    - McpProxy.v, Backends.v: the backends of manifest/backends/ with backends.ts and
      manifest/spec.ts; the far side is a function of what it was sent.
    - RateBucket.v: token buckets of the vault and of the pre-authentication budget.
    - Vault.v: vault/src/vault.ts.
    - VaultStore.v: vault-store.ts over an [Envelope] interface for the encryption.
    - VaultProxy.v: routes/vault-proxy.ts, routes/vault-proxy-route.ts and both of its
      credential stores, over the gate and [VaultStore].
    - Tenant.v: routes/tenant-dispatch.ts.
    - Gateway.v: manifest/runtime.ts and manifest/vault-proxy-services.ts: validation,
      the route table, the registry of services, the generic proxy.
    - Zod.v, ClusterToml.v, ClusterRoundtrip.v: the schemas of generated/cluster.zod.ts with
      their parse; cli/lib/cluster/toml-to-cluster.mjs and cluster-to-toml.mjs, both legs of
      the cluster manifest's pipeline, with validateCluster of manifest/cluster-types.ts; and
      their round trip.
    - VaultKey.v, VaultHandler.v: vault/src/kek-source.ts, kek-scope.ts and crypto.ts, which
      implement the interface of [VaultStore]; the standalone worker of vault/src/handler.ts.
    - BundleAuth.v: routes/bundle-auth.ts over the SDK's verifier.
    - Discovery.v, UriText.v, IdentityBridge.v, McpRegistry.v: routes/well-known.ts with
      actor-fingerprint.ts and ca-bundle.ts; percent encoding; routes/well-known-identity.ts;
      routes/well-known-mcp-registry.ts.

    ** What the theorems show

    Admission: the pipeline accepts exactly the admissible requests whose call to the store
    arrives and is answered, and the store changes only then or when the answer gets lost; an
    accepted envelope is accepted once for ever, by the ledger within its retention and by the
    clock after it, as long as nothing prunes the ledger closer than the alarm does; the signed
    bytes determine the request; outside development the gate fails closed, and a cached bundle
    was signed by the pinned root and is at most four minutes old.

    Evidence: the replay check and the chain step are one transaction; under the
    input gate concurrent calls linearize to one hash chain (and without it they
    fork); the attestation table refines an append-only log, which a client of the
    disclosure route reads whole and in order; the queue of retries keeps its
    invariant, follows its schedule, and a drain commits what it claims; a bead that is
    created leaves an attestation or a queued one, whatever call gets lost; sweeps
    reschedule whatever fails and prune exactly what is expired.

    Receipts: a verifier accepts exactly what the specification asks for; what the
    emitter attaches the client's verifier accepts, with the local signer and with the
    authority, whose key and epoch may change at every call (for nonces of 16 bytes at least);
    the chain around an event stream whose chunks hold whole characters and no byte-order mark
    ends in the hash that a reader computes from the blocks; no signature serves two messages.

    Storage: the chunked blob store refines a map and authenticates what it stores;
    refs are linearizable; every entry of the registry names content that is there,
    pushed content is what a pull answers unless its media type can be in no header, and only a
    granted request writes.

    Credentials: subjects are isolated from one another, a stored credential is what
    the proxy sends, denials are uniform on the wire, calls in flight are bounded
    per subject, the key source is pinned by its first use, a token bucket bounds the
    rate, and the glob matcher decides the glob language; a proxied call is authorized
    in every step, its credential appears where the service's declaration puts it and
    nowhere else, and refusals share one body.  A sealed credential is opened by every later
    instance whose key source answers alike, tenants of one root have keys of their own, and
    the key helper is asked three times at most.  A bundle is granted its object exactly when
    its token clears every check, and one proof is granted once.

    Gateway: validation accepts exactly the sound manifests, a tool's name reaches the
    backend that asserts it or one declared in front of it, a session's requests to an
    upstream are well formed and a call is sent three times at most, a stream's events do
    not depend on how its bytes are cut, and a request reaches its own tenant alone.

    Published documents: a token that is issued by a signer that serves its own key is verified
    by the key that the key set of the same origin publishes, and with such a signer the key set
    never falls back (with one that does not it publishes another key); every archived epoch is
    found and only those; the registry lists what is outside the cluster, and finds each
    entry under the name a client writes.

    Confinement and composition: in the five blocks that the algebra knows (listener lists and
    connectLocal are none of them, and a document that has them does not survive it) the meet
    grants nothing but what both sides grant, and all of it where no document lists a socket
    twice, is independent of order and closed on documents; the matchmaker finds providers and
    cycles exactly when there are some; a cluster manifest that is written out reads back,
    but for what the writer leaves out and the schema restores.

    Encodings: the messages, the receipts' CBOR, JSON, base64 and the signed cursors
    round-trip, within the bounds the statements give; the decoders terminate on every
    input; the digests commit to what they are meant to.

    ** Modelling choices

    A JavaScript string is a list of UTF-16 units ([jsstr]); a [Uint8Array] a list of
    bytes; an integral number a [Z], with the 32-bit operators of [JsInt] where the
    source uses them.  A table is a finite map from its primary key to its row; each
    SQL statement commits by itself, so an exception keeps earlier writes, and only
    [transactionSync] undoes them.  Exceptions are values ([result], [M]).  A call to
    another object takes an [rpc] fate: it arrives, gets lost on the way there, or its
    reply gets lost on the way back; the theorems are about every fate, and one that needs a
    reply says so.  The requests of a route run one at a time.  Primitives that the repository only calls are parameters
    with the laws they are used under: SHA-256, BLAKE3, Ed25519, HMAC, the wasm
    certificate verifier and content addresses, cbor-x, the URL parser and URL patterns,
    the receipt authority.  A JSON number that is no safe integer is outside the model,
    and the functions that meet one say so.  Token buckets count thousandths of a token
    exactly, where the source uses floats.

    Fuel occurs in the CBOR decoder (one unit per byte and one more: [decode_terminates]),
    in the JSON parser (two units per character and two more: [json_parse_terminates]), in
    the chunk loop of [put] (one unit per byte and one more), in the search of the
    matchmaker (two units per binding and two more) and in the block loops of the event
    stream (one unit per character of the text).

    ** Not modelled

    The wording of most messages and logs, schema text and migrations, the wasm modules and
    the key import of the platform; of the command line tool, the resolution and fetching of
    inputs, the launcher, the lints and the emitters, which are file system and process
    work around the parts above. *)
From Stdlib Require Export ZArith Lia.
From stdpp Require Export base gmap strings list fin_maps sorting pretty.
From coqutil Require Byte Word.LittleEndianList.

#[export] Set Default Goal Selector "1".
#[global] Open Scope Z_scope.

Declare Scope cloister_scope.
Delimit Scope cloister_scope with cloister.
#[global] Open Scope cloister_scope.

(** ** Outcomes: a returned value or a thrown exception *)

Inductive result (E A : Type) : Type :=
  | Ok (a : A)
  | Throw (e : E).
Arguments Ok {E A} a.
Arguments Throw {E A} e.

#[export] Instance result_eq_dec `{EqDecision E, EqDecision A} : EqDecision (result E A).
Proof. solve_decision. Defined.

#[export] Instance Ok_inj {E A} : Inj (=) (=) (@Ok E A).
Proof. intros x y [= E1]. exact E1. Qed.

Definition rbind {E A B} (m : result E A) (k : A -> result E B) : result E B :=
  match m with Ok a => k a | Throw e => Throw e end.

Notation "'let?' x := m 'in' k" := (rbind m (fun x => k))
  (at level 10, x name, m at level 100, k at level 200) : cloister_scope.
Notation "'let?' ' p := m 'in' k" := (rbind m (fun p => k))
  (at level 10, p pattern, m at level 100, k at level 200) : cloister_scope.

(** [guard b e k]: the source's [if (!b) throw e; k]. *)
Definition check {E A} (b : bool) (e : E) (k : result E A) : result E A :=
  if b then k else Throw e.

Lemma rbind_ok {E A B} (m : result E A) (k : A -> result E B) b :
  rbind m k = Ok b <-> exists a, m = Ok a /\ k a = Ok b.
Proof. destruct m; simpl; split; naive_solver. Qed.

Lemma check_ok {E A} (b : bool) (e : E) (k : result E A) a :
  check b e k = Ok a <-> b = true /\ k = Ok a.
Proof. destruct b; simpl; split; naive_solver. Qed.

(** Text split at the first separator. *)
Lemma app_sep_inj {A} (c : A) (a a' b b' : list A) :
  c ∉ a -> c ∉ a' -> a ++ c :: b = a' ++ c :: b' -> a = a' /\ b = b'.
Proof.
  revert a'. induction a as [|x a IH]; intros [|y a'] Ha Ha' E; simplify_eq/=; [done|..].
  - by destruct Ha'; apply list_elem_of_here.
  - by destruct Ha; apply list_elem_of_here.
  - rewrite not_elem_of_cons in Ha, Ha'. destruct Ha, Ha'.
    match goal with H : a ++ _ = _ |- _ => apply IH in H as [-> ->] end; done.
Qed.

Lemma pair_snd {A B} (p : A * B) b : p.2 = b -> p = (p.1, b).
Proof. by destruct p as [x y]; intros <-. Qed.

(** ** The monad of a Durable Object method

    A method runs against the object's storage.  [SqlStorage.exec] commits each
    statement as it runs, so a JavaScript exception does not undo the writes that
    went before it: the storage is returned on both outcomes.  Only
    [transactionSync] restores it. *)

Definition M (S E A : Type) : Type := S -> S * result E A.

Definition ret {S E A} (a : A) : M S E A := fun s => (s, Ok a).
Definition throw {S E A} (e : E) : M S E A := fun s => (s, Throw e).
Definition bind {S E A B} (m : M S E A) (k : A -> M S E B) : M S E B :=
  fun s => match m s with
           | (s', Ok a) => k a s'
           | (s', Throw e) => (s', Throw e)
           end.
Definition read {S E A} (f : S -> A) : M S E A := fun s => (s, Ok (f s)).
Definition exec {S E A} (f : S -> S * A) : M S E A :=
  fun s => let '(s', a) := f s in (s', Ok a).
Definition catch {S E A} (m : M S E A) (h : E -> M S E A) : M S E A :=
  fun s => match m s with
           | (s', Throw e) => h e s'
           | r => r
           end.

(** [ctx.storage.transactionSync]: a throw rolls the storage back. *)
Definition transactionSync {S E A} (m : M S E A) : M S E A :=
  fun s => match m s with
           | (_, Throw e) => (s, Throw e)
           | r => r
           end.

Notation "'let*' x := m 'in' k" := (bind m (fun x => k))
  (at level 10, x name, m at level 100, k at level 200) : cloister_scope.
Notation "'let*' ' p := m 'in' k" := (bind m (fun p => k))
  (at level 10, p pattern, m at level 100, k at level 200) : cloister_scope.
Notation "'do*' m 'in' k" := (bind m (fun _ => k))
  (at level 10, m at level 100, k at level 200) : cloister_scope.

Lemma transactionSync_throw {S E A} (m : M S E A) s s' e :
  transactionSync m s = (s', Throw e) -> s' = s.
Proof. unfold transactionSync. destruct (m s) as [? [?|?]]; naive_solver. Qed.

Lemma transactionSync_ok {S E A} (m : M S E A) s s' a :
  transactionSync m s = (s', Ok a) <-> m s = (s', Ok a).
Proof. unfold transactionSync. destruct (m s) as [? [?|?]]; naive_solver. Qed.

(** [mrun] runs the monadic code in the goal and in the hypotheses one layer. *)
Ltac mrun :=
  cbv beta delta [bind ret throw read exec catch transactionSync] in *; simpl in *.

(** A run that returns has run its parts. *)
Lemma bind_Ok {S E A B} (m : M S E A) (k : A -> M S E B) s s2 b :
  bind m k s = (s2, Ok b) -> exists s1 a, m s = (s1, Ok a) /\ k a s1 = (s2, Ok b).
Proof. unfold bind. destruct (m s) as [s1 [a|e]]; [|done]. eauto. Qed.

Lemma bind_Throw {S E A B} (m : M S E A) (k : A -> M S E B) s s2 e :
  bind m k s = (s2, Throw e) ->
  m s = (s2, Throw e) \/ exists s1 a, m s = (s1, Ok a) /\ k a s1 = (s2, Throw e).
Proof. unfold bind. destruct (m s) as [s1 [a|e']]; [right; eauto|]. intros [= <- <-]. by left. Qed.

(** Triples: from a state that satisfies [P], a method that returns leaves [Q], and one that
    throws leaves [X]. *)
Definition hoare {S E A} (P : S -> Prop) (m : M S E A) (Q : A -> S -> Prop) (X : S -> Prop) : Prop :=
  forall s, P s -> match m s with (s', Ok a) => Q a s' | (s', Throw _) => X s' end.

Section triples.
Context {S E : Type}.
Implicit Types P X : S -> Prop.

Lemma hoare_bind {A B} P (m : M S E A) R (k : A -> M S E B) Q X :
  hoare P m R X -> (forall a, hoare (R a) (k a) Q X) -> hoare P (bind m k) Q X.
Proof.
  intros Hm Hk s Hs. unfold bind. specialize (Hm s Hs). destruct (m s) as [s' [a|e]]; [|done]. by apply Hk.
Qed.

Lemma hoare_ret {A} (a : A) (Q : A -> S -> Prop) X : hoare (Q a) (ret a : M S E A) Q X.
Proof. by intros s Hs. Qed.
Lemma hoare_throw {A} e (Q : A -> S -> Prop) X : hoare X (throw e : M S E A) Q X.
Proof. by intros s Hs. Qed.
Lemma hoare_read {A} (f : S -> A) P X : hoare P (read f : M S E A) (fun a s => P s /\ a = f s) X.
Proof. by intros s Hs. Qed.

Lemma hoare_pre {A} P P' (m : M S E A) Q X : (forall s, P s -> P' s) -> hoare P' m Q X -> hoare P m Q X.
Proof. intros Hp Hm s Hs. by apply Hm, Hp. Qed.

Lemma hoare_post {A} P (m : M S E A) Q Q' X :
  (forall a s, Q' a s -> Q a s) -> hoare P m Q' X -> hoare P m Q X.
Proof. intros Hq Hm s Hs. specialize (Hm s Hs). destruct (m s) as [s' [a|e]]; auto. Qed.

(** A fact that does not depend on the state. *)
Lemma hoare_pure {A} (F : Prop) P (m : M S E A) Q X : (F -> hoare P m Q X) -> hoare (fun s => F /\ P s) m Q X.
Proof. intros Hm s [HF Hs]. by apply Hm. Qed.
End triples.

(** A call to another object: it arrives and its answer comes back, or it is lost on the way
    there, or the answer is lost on the way back; the caller then sees an exception. *)
Inductive rpc := Delivered | CallLost | ReplyLost.

Definition remote {S E A} (lost : E) (fate : rpc) (run : M S E A) : M S E A := fun s =>
  match fate with
  | Delivered => run s
  | CallLost => (s, Throw lost)
  | ReplyLost => ((run s).1, Throw lost)
  end.

Lemma hoare_remote {S E A} P (lost : E) fate (m : M S E A) Q X :
  hoare P m Q X -> (forall s, P s -> X s) -> (forall a s, Q a s -> X s) -> hoare P (remote lost fate m) Q X.
Proof.
  intros Hm HP HQ s Hs. unfold remote. specialize (Hm s Hs).
  destruct fate; [done|by apply HP|]. destruct (m s) as [s' [a|e]]; cbn; eauto.
Qed.

(** Facts about a method's effect, as a preorder between its initial and final state. *)
Definition keeps {S E A} (R : relation S) (m : M S E A) : Prop := forall s, R s (m s).1.

Section effects.
Context {S E : Type} (R : relation S) `{!PreOrder R}.

Lemma keeps_bind {A B} (m : M S E A) (k : A -> M S E B) :
  keeps R m -> (forall a, keeps R (k a)) -> keeps R (bind m k).
Proof.
  intros Hm Hk s. unfold bind. specialize (Hm s). destruct (m s) as [s' [a|e]]; [|exact Hm].
  simpl in Hm. etransitivity; [exact Hm|apply Hk].
Qed.

Lemma keeps_catch {A} (m : M S E A) h :
  keeps R m -> (forall e, keeps R (h e)) -> keeps R (catch m h).
Proof.
  intros Hm Hh s. unfold catch. specialize (Hm s). destruct (m s) as [s' [a|e]]; [exact Hm|].
  simpl in Hm. etransitivity; [exact Hm|apply Hh].
Qed.

Lemma keeps_ret {A} (a : A) : keeps R (ret a : M S E A).
Proof. intros s. reflexivity. Qed.
Lemma keeps_throw {A} e : keeps R (throw e : M S E A).
Proof. intros s. reflexivity. Qed.
Lemma keeps_read {A} (f : S -> A) : keeps R (read f : M S E A).
Proof. intros s. reflexivity. Qed.
End effects.

(** What a method can throw. *)
Definition raises {S E A} (P : E -> Prop) (m : M S E A) : Prop :=
  forall s s' e, m s = (s', Throw e) -> P e.

Lemma raises_bind {S E A B} (P : E -> Prop) (m : M S E A) (k : A -> M S E B) :
  raises P m -> (forall a, raises P (k a)) -> raises P (bind m k).
Proof. intros Hm Hk s s' e [H|(s1 & a & _ & H)]%bind_Throw; [by eapply Hm|by eapply Hk]. Qed.
Lemma raises_ret {S E A} (P : E -> Prop) (a : A) : raises P (ret a : M S E A).
Proof. by intros s s' e. Qed.
Lemma raises_throw {S E A} (P : E -> Prop) e : P e -> raises P (throw e : M S E A).
Proof. by intros H s s' e' [= _ <-]. Qed.
Lemma raises_catch {S E A} (P : E -> Prop) (m : M S E A) h :
  (forall e, raises P (h e)) -> raises P (catch m h).
Proof. intros Hh s s' e. unfold catch. destruct (m s) as [s1 [a|e1]]; [done|]. apply Hh. Qed.

Ltac walk_raises :=
  repeat lazymatch goal with
  | |- raises _ (bind _ _) => apply raises_bind; [|intros ?]
  | |- raises _ (catch _ _) => apply raises_catch; intros ?
  | |- raises _ (ret _) => apply raises_ret
  | |- raises _ (throw _) => apply raises_throw
  | |- raises _ (match ?x with _ => _ end) => destruct x
  end.

(** Walk through a method with the rules above, and the facts of its parts in [keeps]. *)
Create HintDb keeps.
#[export] Hint Resolve keeps_ret keeps_throw keeps_read : keeps.
Ltac walk :=
  repeat lazymatch goal with
  | |- keeps _ (bind _ _) => apply keeps_bind; [apply _| |intros ?]
  | |- keeps _ (catch _ _) => apply keeps_catch; [apply _| |intros ?]
  | |- keeps _ (ret _) => apply keeps_ret; apply _
  | |- keeps _ (throw _) => apply keeps_throw; apply _
  | |- keeps _ (read _) => apply keeps_read; apply _
  | |- keeps _ (match ?x with _ => _ end) => destruct x
  end; try solve [auto with keeps typeclass_instances].

(** ** Bytes

    A [Uint8Array] is a list of bytes; [byte] is the Standard Library's
    256-constructor type, so that a byte is in range by construction. *)

Abbreviation byte := (Corelib.Init.Byte.byte) (only parsing).
Abbreviation bytes := (list Corelib.Init.Byte.byte) (only parsing).

Definition b2z : byte -> Z := coqutil.Byte.byte.unsigned.
Definition z2b : Z -> byte := coqutil.Byte.byte.of_Z.

#[export] Instance byte_eq_dec : EqDecision Corelib.Init.Byte.byte.
Proof. intros x y. destruct (Byte.byte_eq_dec x y); [left|right]; assumption. Defined.

Lemma b2z_range b : 0 <= b2z b < 256.
Proof. apply coqutil.Byte.byte.unsigned_range. Qed.

Lemma b2z_z2b z : b2z (z2b z) = z mod 256.
Proof. apply coqutil.Byte.byte.unsigned_of_Z. Qed.

Lemma b2z_z2b_small z : 0 <= z < 256 -> b2z (z2b z) = z.
Proof. intros. rewrite b2z_z2b. apply Z.mod_small. lia. Qed.

Lemma z2b_b2z b : z2b (b2z b) = b.
Proof. apply coqutil.Byte.byte.of_Z_unsigned. Qed.

#[export] Instance b2z_inj : Inj (=) (=) b2z.
Proof. intros x y. apply coqutil.Byte.byte.unsigned_inj. Qed.

#[global] Opaque b2z z2b.

(** A little-endian field of [n] bytes, and its value. *)
Definition le_bytes (n : nat) (v : Z) : bytes := LittleEndianList.le_split n v.
Definition le_val (bs : bytes) : Z := LittleEndianList.le_combine bs.

Lemma length_le_bytes n v : length (le_bytes n v) = n.
Proof. apply LittleEndianList.length_le_split. Qed.

Lemma le_val_bytes n v : le_val (le_bytes n v) = v mod 2 ^ (Z.of_nat n * 8).
Proof. apply LittleEndianList.le_combine_split. Qed.

Lemma le_val_range bs : 0 <= le_val bs < 2 ^ (8 * Z.of_nat (length bs)).
Proof. apply LittleEndianList.le_combine_bound. Qed.
