(* ===== verification/JsString.v ===== *)
(** * JavaScript strings

    A JavaScript string is the sequence of its UTF-16 code units, here a list of
    integers in [0, 65535].  The file models the part of the string library the
    sources use ([startsWith], [endsWith], [indexOf], [split], ...) and the
    platform's UTF-8 codecs: [TextEncoder.encode], which writes a lone surrogate
    as U+FFFD, and the WHATWG decoder behind [TextDecoder], in its fatal and in
    its replacement mode, both of which drop a leading byte order mark. *)
From S2P Require Import Prelude.

Abbreviation jsstr := (list Z) (only parsing).

(** A literal of the sources (they are all ASCII). *)
Definition js (s : string) : jsstr :=
  map (fun a => Z.of_N (Ascii.N_of_ascii a)) (String.list_ascii_of_string s).

(** [String(n)] of an integer number below 10^21. *)
Definition js_dec (n : Z) : jsstr := js (pretty n).

(** ** The string library *)

Definition starts_with (pre s : jsstr) : bool := bool_decide (take (length pre) s = pre).
Definition ends_with (suf s : jsstr) : bool :=
  bool_decide (drop (length s - length suf) s = suf) && (length suf <=? length s)%nat.

(** [s.indexOf(seg, pos)] for [pos <= s.length]; [None] is the source's -1. *)
Fixpoint index_of (seg s : jsstr) : option nat :=
  if starts_with seg s then Some 0%nat
  else match s with
       | [] => None
       | _ :: s' => S <$> index_of seg s'
       end.
Definition index_of_from (seg s : jsstr) (pos : nat) : option nat :=
  (fun i => (pos + i)%nat) <$> index_of seg (drop pos s).

Definition includes (c : Z) (s : jsstr) : bool := existsb (Z.eqb c) s.

(** [s.includes(t)] for a string [t]. *)
Definition includes_str (t s : jsstr) : bool := bool_decide (is_Some (index_of t s)).

(** [s.split(c)] on a one-unit separator. *)
Fixpoint split_on (c : Z) (s : jsstr) : list jsstr :=
  match s with
  | [] => [[]]
  | x :: s' =>
      if x =? c then [] :: split_on c s'
      else match split_on c s' with
           | seg :: segs => (x :: seg) :: segs
           | [] => [[x]]
           end
  end.

Fixpoint join (sep : jsstr) (segs : list jsstr) : jsstr :=
  match segs with
  | [] => []
  | [seg] => seg
  | seg :: segs' => seg ++ sep ++ join sep segs'
  end.

(** [toLowerCase] on ASCII (the sources apply it to header and host names). *)
Definition lower_unit (c : Z) : Z := if (65 <=? c) && (c <=? 90) then c + 32 else c.
Definition to_lower (s : jsstr) : jsstr := map lower_unit s.

(** ** UTF-16 and UTF-8 *)

Definition is_high (u : Z) : bool := (55296 <=? u) && (u <=? 56319).
Definition is_low (u : Z) : bool := (56320 <=? u) && (u <=? 57343).
Definition is_surrogate (u : Z) : bool := (55296 <=? u) && (u <=? 57343).
Definition REPLACEMENT : Z := 65533.

(** The scalar values of a string: a lone surrogate reads as U+FFFD. *)
Fixpoint scalars (s : jsstr) : list Z :=
  match s with
  | [] => []
  | u :: s' =>
      if is_high u then
        match s' with
        | v :: s'' =>
            if is_low v then (65536 + (u - 55296) * 1024 + (v - 56320)) :: scalars s''
            else REPLACEMENT :: scalars s'
        | [] => [REPLACEMENT]
        end
      else (if is_low u then REPLACEMENT else u) :: scalars s'
  end.

Definition utf16_of (c : Z) : jsstr :=
  if c <? 65536 then [c]
  else [55296 + (c - 65536) / 1024; 56320 + (c - 65536) mod 1024].

Definition utf8_of (c : Z) : bytes :=
  if c <? 128 then [z2b c]
  else if c <? 2048 then [z2b (192 + c / 64); z2b (128 + c mod 64)]
  else if c <? 65536 then
    [z2b (224 + c / 4096); z2b (128 + c / 64 mod 64); z2b (128 + c mod 64)]
  else
    [z2b (240 + c / 262144); z2b (128 + c / 4096 mod 64);
     z2b (128 + c / 64 mod 64); z2b (128 + c mod 64)].

Definition utf8_encode (s : jsstr) : bytes := concat (map utf8_of (scalars s)).

(** The decoder's state: idle, or inside a sequence with the number of bytes it
    still needs, the value so far and the bounds of the next byte. *)
Inductive dec_state : Type :=
  | Idle
  | Inside (needed : nat) (cp lower upper : Z).

(** An event is a scalar value, or [None] for an error. *)
Definition dec_start (b : Z) : list (option Z) * dec_state :=
  if b <=? 127 then ([Some b], Idle)
  else if (194 <=? b) && (b <=? 223) then ([], Inside 1 (b - 192) 128 191)
  else if (224 <=? b) && (b <=? 239) then
    ([], Inside 2 (b - 224) (if b =? 224 then 160 else 128) (if b =? 237 then 159 else 191))
  else if (240 <=? b) && (b <=? 244) then
    ([], Inside 3 (b - 240) (if b =? 240 then 144 else 128) (if b =? 244 then 143 else 191))
  else ([None], Idle).

Definition dec_step (st : dec_state) (b : Z) : list (option Z) * dec_state :=
  match st with
  | Idle => dec_start b
  | Inside n cp lo hi =>
      if (lo <=? b) && (b <=? hi) then
        let cp' := cp * 64 + (b - 128) in
        match n with
        | S (S n') => ([], Inside (S n') cp' 128 191)
        | _ => ([Some cp'], Idle)
        end
      else let '(ev, st') := dec_start b in (None :: ev, st')
  end.

Fixpoint dec_events (st : dec_state) (bs : bytes) : list (option Z) :=
  match bs with
  | [] => match st with Idle => [] | Inside _ _ _ _ => [None] end
  | b :: bs' => let '(ev, st') := dec_step st (b2z b) in ev ++ dec_events st' bs'
  end.

#[global] Arguments dec_events : simpl never.

Definition BOM : Z := 65279.
Definition strip_bom (cs : list Z) : list Z :=
  match cs with c :: cs' => if c =? BOM then cs' else cs | [] => [] end.

Definition utf16_all (cs : list Z) : jsstr := concat (map utf16_of cs).

(** [new TextDecoder("utf-8", { fatal: true }).decode(bs)]; [None] is the throw. *)
Definition utf8_decode_fatal (bs : bytes) : option jsstr :=
  (fun cs => utf16_all (strip_bom cs)) <$> mapM id (dec_events Idle bs).

(** [new TextDecoder().decode(bs)]: an error becomes U+FFFD. *)
Definition utf8_decode_lossy (bs : bytes) : jsstr :=
  utf16_all (strip_bom (map (default REPLACEMENT) (dec_events Idle bs))).

(** [s.isWellFormed()]: no lone surrogate, and every unit is in range. *)
Fixpoint well_formed (s : jsstr) : bool :=
  match s with
  | [] => true
  | u :: s' =>
      if is_high u then
        match s' with
        | v :: s'' => is_low v && well_formed s''
        | [] => false
        end
      else negb (is_low u) && (0 <=? u) && (u <? 65536) && well_formed s'
  end.

Definition is_scalar (c : Z) : Prop := 0 <= c < 1114112 /\ ~ (55296 <= c <= 57343).

(** Whether the decoded form of [s] loses a byte order mark. *)
Definition has_bom (s : jsstr) : bool :=
  match s with u :: _ => u =? BOM | [] => false end.

(** ** The round trip *)

Ltac z_bool :=
  repeat match goal with
  | H : (_ && _) = true |- _ => apply andb_true_iff in H; destruct H
  | H : (_ || _) = false |- _ => apply orb_false_iff in H; destruct H
  | H : negb _ = true |- _ => apply negb_true_iff in H
  | H : negb _ = false |- _ => apply negb_false_iff in H
  | H : (_ <=? _) = true |- _ => apply Z.leb_le in H
  | H : (_ <=? _) = false |- _ => apply Z.leb_gt in H
  | H : (_ <? _) = true |- _ => apply Z.ltb_lt in H
  | H : (_ <? _) = false |- _ => apply Z.ltb_ge in H
  | H : (_ =? _) = true |- _ => apply Z.eqb_eq in H
  | H : (_ =? _) = false |- _ => apply Z.eqb_neq in H
  end.

(** Decide every integer comparison of the goal, by [lia] where it can. *)
Ltac z_case :=
  repeat match goal with
  | |- context [?a <=? ?b] => destruct (Z.leb_spec a b); try lia
  | |- context [?a <? ?b] => destruct (Z.ltb_spec a b); try lia
  | |- context [?a =? ?b] => destruct (Z.eqb_spec a b); try lia
  end; simpl.

Lemma dec_events_cons st b bs :
  dec_events st (b :: bs) =
  let '(ev, st') := dec_step st (b2z b) in ev ++ dec_events st' bs.
Proof. reflexivity. Qed.

Lemma div64_split c n :
  0 <= c -> 0 < n -> c / n = 64 * (c / (64 * n)) + (c / n) mod 64.
Proof.
  intros. rewrite (Z.mul_comm 64 n), <- Z.div_div by lia.
  apply Z.div_mod. lia.
Qed.

(** One byte of a sequence through the decoder. *)
Ltac dec_byte :=
  rewrite dec_events_cons, b2z_z2b_small by lia;
  unfold dec_step, dec_start; z_case; simpl.

Lemma dec_utf8_of c bs :
  is_scalar c -> dec_events Idle (utf8_of c ++ bs) = Some c :: dec_events Idle bs.
Proof.
  intros [Hr Hs]. unfold utf8_of.
  pose proof (div64_split c 1 ltac:(lia) ltac:(lia)) as H1.
  pose proof (div64_split c 64 ltac:(lia) ltac:(lia)) as H2.
  pose proof (div64_split c 4096 ltac:(lia) ltac:(lia)) as H3.
  rewrite Z.div_1_r in H1.
  change (64 * 1) with 64 in *. change (64 * 64) with 4096 in *.
  change (64 * 4096) with 262144 in *.
  pose proof (Z.mod_pos_bound c 64 ltac:(lia)).
  pose proof (Z.mod_pos_bound (c / 64) 64 ltac:(lia)).
  pose proof (Z.mod_pos_bound (c / 4096) 64 ltac:(lia)).
  destruct (Z.ltb_spec c 128).
  { cbn [app]. dec_byte. done. }
  destruct (Z.ltb_spec c 2048).
  { cbn [app]. dec_byte. dec_byte. do 2 f_equal. lia. }
  destruct (Z.ltb_spec c 65536); cbn [app].
  { dec_byte; dec_byte; dec_byte; do 2 f_equal; lia. }
  dec_byte; dec_byte; dec_byte; dec_byte; do 2 f_equal; lia.
Qed.

Lemma dec_utf8_all cs :
  Forall is_scalar cs -> dec_events Idle (concat (map utf8_of cs)) = map Some cs.
Proof.
  induction 1 as [|c cs Hc _ IH]; [done|]. simpl. by rewrite dec_utf8_of, IH.
Qed.

Lemma utf16_of_scalars_low u :
  0 <= u < 65536 -> utf16_of u = [u].
Proof. intros. unfold utf16_of. by rewrite (proj2 (Z.ltb_lt _ _)) by lia. Qed.

Lemma utf16_of_pair u v :
  is_high u = true -> is_low v = true ->
  utf16_of (65536 + (u - 55296) * 1024 + (v - 56320)) = [u; v].
Proof.
  unfold is_high, is_low, utf16_of. intros. z_bool.
  rewrite (proj2 (Z.ltb_ge _ _)) by lia.
  replace (65536 + (u - 55296) * 1024 + (v - 56320) - 65536)
    with ((v - 56320) + (u - 55296) * 1024) by lia.
  rewrite Z.div_add, Z.mod_add, Z.div_small, Z.mod_small by lia.
  f_equal; [lia|f_equal; lia].
Qed.

Lemma well_formed_scalars_strong n s :
  (length s <= n)%nat -> well_formed s = true ->
  Forall is_scalar (scalars s) /\ utf16_all (scalars s) = s.
Proof.
  revert s. induction n as [|n IH]; intros [|u s] Hn Hw;
    try (simpl in Hn; lia); try (split; [constructor|done]).
  simpl in *. destruct (is_high u) eqn:Hu.
  - destruct s as [|v s]; [done|].
    apply andb_true_iff in Hw as [Hv Hw]. rewrite Hv.
    destruct (IH s) as [HF HE]; [simpl in Hn; lia|done|].
    split.
    + constructor; [|done]. unfold is_high, is_low in *. z_bool.
      split; lia.
    + unfold utf16_all in *. simpl. by rewrite utf16_of_pair, HE.
  - apply andb_true_iff in Hw as [[[Hl%negb_true_iff H0]%andb_true_iff H1]%andb_true_iff Hw].
    z_bool. destruct (IH s) as [HF HE]; [lia|done|].
    rewrite Hl. split.
    + constructor; [|done].
      unfold is_high, is_low in *. split; [lia|].
      intros ?. apply andb_false_iff in Hu as [?|?], Hl as [?|?]; z_bool; lia.
    + unfold utf16_all in *. simpl. by rewrite utf16_of_scalars_low, HE by lia.
Qed.

Lemma well_formed_scalars s :
  well_formed s = true -> Forall is_scalar (scalars s) /\ utf16_all (scalars s) = s.
Proof. by apply well_formed_scalars_strong with (n := length s). Qed.

Lemma strip_bom_cons c cs : c <> BOM -> strip_bom (c :: cs) = c :: cs.
Proof. intros. simpl. by rewrite (proj2 (Z.eqb_neq _ _)). Qed.

Lemma strip_bom_scalars s : has_bom s = false -> strip_bom (scalars s) = scalars s.
Proof.
  destruct s as [|u s]; [done|]. cbn [has_bom scalars]. intros Hb%Z.eqb_neq.
  destruct (is_high u) eqn:Hu; [destruct s as [|v s]; [done|]; destruct (is_low v) eqn:Hv|];
    apply strip_bom_cons; unfold is_high, is_low, BOM, REPLACEMENT in *; z_bool; try lia.
  case_match; lia.
Qed.

(** The two decoders invert the encoder on a string without lone surrogates, as
    long as it does not start with a byte order mark. *)
Lemma utf8_fatal_encode s :
  well_formed s = true -> has_bom s = false ->
  utf8_decode_fatal (utf8_encode s) = Some s.
Proof.
  intros Hw Hb. destruct (well_formed_scalars s Hw) as [HF HE].
  unfold utf8_decode_fatal, utf8_encode. rewrite dec_utf8_all by done.
  replace (mapM id (map Some (scalars s))) with (Some (scalars s)).
  - simpl. by rewrite strip_bom_scalars, HE.
  - symmetry. clear. induction (scalars s) as [|c cs IH]; [done|]. simpl. by rewrite IH.
Qed.

Lemma utf8_lossy_encode s :
  well_formed s = true -> has_bom s = false ->
  utf8_decode_lossy (utf8_encode s) = s.
Proof.
  intros Hw Hb. destruct (well_formed_scalars s Hw) as [HF HE].
  unfold utf8_decode_lossy, utf8_encode. rewrite dec_utf8_all, map_map by done.
  simpl. by rewrite map_id, strip_bom_scalars, HE.
Qed.

Lemma utf8_encode_inj s t :
  well_formed s = true -> well_formed t = true ->
  utf8_encode s = utf8_encode t -> s = t.
Proof.
  intros Hs Ht He. destruct (well_formed_scalars s Hs) as [HF HE].
  destruct (well_formed_scalars t Ht) as [HF' HE'].
  apply (f_equal (dec_events Idle)) in He. unfold utf8_encode in He.
  rewrite !dec_utf8_all in He by done.
  apply (inj (fmap Some)) in He. by rewrite <- HE, <- HE', He.
Qed.

(** ASCII strings, to which every literal of the sources belongs. *)
Definition is_ascii (s : jsstr) : Prop := Forall (fun u => 0 <= u < 128) s.

Lemma js_app a b : js (a +:+ b) = js a ++ js b.
Proof. unfold js. induction a as [|x a IH]; [done|]. simpl in *. by f_equal. Qed.

#[export] Instance js_inj : Inj (=) (=) js.
Proof.
  intros a b. unfold js. revert b. induction a as [|x a IH]; intros [|y b] H; try done.
  simpl in H. injection H as Hx Hab. f_equal; [|by apply IH].
  rewrite <- (Ascii.ascii_N_embedding x), <- (Ascii.ascii_N_embedding y). f_equal. lia.
Qed.

#[export] Instance js_dec_inj : Inj (=) (=) js_dec.
Proof. intros a b H. by apply (inj pretty), (inj js). Qed.

Lemma ascii_utf8 s : is_ascii s -> utf8_encode s = map z2b s.
Proof.
  intros Hs. unfold utf8_encode.
  enough (scalars s = s /\ map utf8_of s = map (fun u => [z2b u]) s) as [-> ->].
  { clear Hs. induction s as [|u s IH]; [done|]. simpl. by rewrite IH. }
  induction Hs as [|u s Hu _ [IH1 IH2]]; [done|]. simpl.
  rewrite IH2. unfold is_high, is_low, utf8_of. replace (55296 <=? u) with false by lia.
  replace (56320 <=? u) with false by lia. replace (u <? 128) with true by lia.
  simpl. by rewrite IH1.
Qed.

Lemma well_formed_app s t : well_formed s = true -> well_formed t = true -> well_formed (s ++ t) = true.
Proof.
  remember (length s) as n eqn:Hn. revert s Hn. induction (lt_wf n) as [n _ IH]; intros s -> Hs Ht.
  destruct s as [|u s]; [done|]. cbn [well_formed app] in *.
  destruct (is_high u).
  - destruct s as [|v s]; [done|]. cbn [app]. apply andb_true_iff in Hs as [-> Hs].
    by apply (IH (length s)); simpl; try lia.
  - apply andb_true_iff in Hs as [-> Hs]. by apply (IH (length s)); simpl; try lia.
Qed.

(** Units of plain ASCII text are no surrogates. *)
Lemma ascii_well_formed s : is_ascii s -> well_formed s = true.
Proof.
  induction 1 as [|u s Hu _ IH]; [done|]. cbn [well_formed].
  unfold is_high, is_low. rewrite IH.
  replace (55296 <=? u) with false by lia. replace (56320 <=? u) with false by lia.
  replace (0 <=? u) with true by lia. by replace (u <? 65536) with true by lia.
Qed.

(** A decimal rendering has digits and a sign only. *)
Definition dec_unit (c : Z) : Prop := c = 45 \/ 48 <= c <= 57.

Lemma pretty_digit d : 48 <= Z.of_N (Ascii.N_of_ascii (pretty_N_char d)) <= 57.
Proof.
  assert (H : let n := Z.of_N (Ascii.N_of_ascii (pretty_N_char d)) in
              (48 <=? n) && (n <=? 57) = true); [|cbv zeta in H; z_bool; lia].
  unfold pretty_N_char. repeat case_match; reflexivity.
Qed.

Lemma pretty_N_go_units x s : Forall dec_unit (js s) -> Forall dec_unit (js (pretty_N_go x s)).
Proof.
  revert s. induction (N.lt_wf_0 x) as [x _ IH]; intros s Hs.
  destruct (decide (x = 0)%N) as [-> |Hx]; [by rewrite pretty_N_go_0|].
  rewrite pretty_N_go_step by lia. apply IH; [apply N.div_lt; lia|].
  constructor; [|done].
  right. apply pretty_digit.
Qed.

Lemma js_dec_units z : Forall dec_unit (js_dec z).
Proof.
  assert (HN : forall n : N, Forall dec_unit (js (pretty n))).
  { intros n. unfold pretty, pretty_N. case_decide; [apply Forall_singleton; right; vm_compute; split; discriminate|].
    by apply pretty_N_go_units. }
  unfold js_dec. destruct z as [|p|p]; [apply (HN 0%N)|apply (HN (N.pos p))|].
  change (js (pretty (Z.neg p))) with (45 :: js (pretty (N.pos p))).
  constructor; [by left|]. apply HN.
Qed.

Lemma js_dec_ascii z : is_ascii (js_dec z).
Proof.
  unfold is_ascii. eapply Forall_impl; [apply js_dec_units|]. intros c [-> |?]; lia.
Qed.

Lemma starts_with_iff p s : starts_with p s = true <-> exists t, s = p ++ t.
Proof.
  unfold starts_with. rewrite bool_decide_eq_true. split.
  - intros E. exists (drop (length p) s). by rewrite <- E at 1; rewrite take_drop.
  - intros [t ->]. by rewrite take_app_length.
Qed.

Lemma ends_with_iff q s : ends_with q s = true <-> exists t, s = t ++ q.
Proof.
  unfold ends_with. rewrite andb_true_iff, bool_decide_eq_true, Nat.leb_le. split.
  - intros [E _]. exists (take (length s - length q) s). by rewrite <- E at 2; rewrite take_drop.
  - intros [t ->]. rewrite length_app. split; [|lia].
    replace (length t + length q - length q)%nat with (length t) by lia. by rewrite drop_app_length.
Qed.

(** [indexOf] finds an occurrence, and the first one. *)
Lemma index_of_Some seg s i :
  index_of seg s = Some i -> exists g w, s = g ++ seg ++ w /\ length g = i.
Proof.
  revert i. induction s as [|c s IH]; intros i; cbn [index_of];
    destruct (starts_with seg _) eqn:E.
  - intros [= <-]. apply starts_with_iff in E as [t E]. by exists [], t.
  - done.
  - intros [= <-]. apply starts_with_iff in E as [t E]. by exists [], t.
  - intros (j & Hj & ->)%fmap_Some. apply IH in Hj as (g & w & -> & <-). by exists (c :: g), w.
Qed.

Lemma index_of_first seg g w :
  exists i, index_of seg (g ++ seg ++ w) = Some i /\ (i <= length g)%nat.
Proof.
  induction g as [|c g (i & Hi & Hle)]; cbn [app length].
  - exists 0%nat. split; [|done]. assert (E : starts_with seg (seg ++ w) = true)
      by (apply starts_with_iff; by exists w). destruct (seg ++ w); cbn [index_of]; by rewrite E.
  - cbn [index_of]. destruct (starts_with seg (c :: g ++ seg ++ w)); [exists 0%nat; split; [done|lia]|].
    exists (S i). rewrite Hi. split; [done|lia].
Qed.

(** [split] undoes [join]; no piece has the separator. *)
Lemma split_on_spec c s :
  join [c] (split_on c s) = s /\ Forall (fun seg => c ∉ seg) (split_on c s) /\ split_on c s <> [].
Proof.
  induction s as [|x s (Hj & Hf & Hn)]; [split; [done|]; split; [|done]; constructor; [set_solver|done]|].
  cbn [split_on]. destruct (Z.eqb_spec x c) as [-> |Hx].
  - split; [|split; [constructor; [set_solver|done]|done]].
    destruct (split_on c s) as [|seg segs]; [done|]. cbn [join app]. by rewrite <- Hj.
  - destruct (split_on c s) as [|seg segs]; [done|]. apply Forall_cons in Hf as [H1 H2].
    split; [|split; [constructor; [rewrite elem_of_cons; naive_solver|done]|done]].
    rewrite <- Hj. by destruct segs.
Qed.
