(* ===== verification/Sql.v ===== *)
(** * The SQLite fragment of the Durable Objects

    A table with a primary key is a finite map from the key to the row.  The file
    has the statements the storage helpers issue ([INSERT ... ON CONFLICT DO
    NOTHING RETURNING], the upsert, [DELETE ... RETURNING], [SELECT ... WHERE ...
    ORDER BY ... LIMIT]) with the lemmas that hold of them, and the bytewise
    order of TEXT columns.  [ORDER BY] leaves the order of equal keys to the
    query plan; the model breaks ties by the enumeration order of the map, and
    no theorem depends on it. *)
From S2P Require Import Prelude.
From S2P Require Import JsString.

(** ** Lexicographic order on integer lists *)

Fixpoint lex_compare (a b : list Z) : comparison :=
  match a, b with
  | [], [] => Eq
  | [], _ :: _ => Lt
  | _ :: _, [] => Gt
  | x :: a', y :: b' =>
      match x ?= y with Eq => lex_compare a' b' | c => c end
  end.

Definition lex_le (a b : list Z) : Prop := lex_compare a b <> Gt.

#[export] Instance lex_le_dec a b : Decision (lex_le a b).
Proof. unfold lex_le. destruct (lex_compare a b); [left|left|right]; congruence. Defined.

(** [memcmp] on TEXT values: SQLite's BINARY collation. *)
Definition text_key (s : jsstr) : list Z := map b2z (utf8_encode s).
Definition text_le (a b : jsstr) : Prop := lex_le (text_key a) (text_key b).

#[export] Instance text_le_dec a b : Decision (text_le a b).
Proof. apply lex_le_dec. Defined.

(** ** Statements *)

Inductive SqliteError := SQLITE_CONSTRAINT_PRIMARYKEY.

#[export] Instance SqliteError_eq_dec : EqDecision SqliteError.
Proof. solve_decision. Defined.

Section statements.
Context {K R : Type} `{Countable K}.
Implicit Types (t : gmap K R) (k : K) (r : R).

(** [INSERT ... ON CONFLICT(k) DO NOTHING RETURNING ...]: the flag says whether
    a row came back. *)
Definition insert_or_nothing k r t : gmap K R * bool :=
  match t !! k with
  | Some _ => (t, false)
  | None => (<[k := r]> t, true)
  end.

(** [INSERT ... ON CONFLICT(k) DO UPDATE SET (every column)]. *)
Definition upsert k r t : gmap K R := <[k := r]> t.

(** A plain [INSERT]: the statement throws on a PRIMARY KEY conflict. *)
Definition insert_strict k r t : result SqliteError (gmap K R) :=
  match t !! k with
  | Some _ => Throw SQLITE_CONSTRAINT_PRIMARYKEY
  | None => Ok (<[k := r]> t)
  end.

(** [UPDATE t SET ... WHERE pk = k]. *)
Definition update_row (f : R -> R) k t : gmap K R :=
  match t !! k with Some r => <[k := f r]> t | None => t end.

(** [DELETE FROM t WHERE p RETURNING ...]: the number of rows that came back. *)
Definition delete_where (p : K -> R -> bool) t : gmap K R * Z :=
  (filter (fun kr => p kr.1 kr.2 = false) t,
   Z.of_nat (size (filter (fun kr => p kr.1 kr.2 = true) t))).

(** [SELECT * FROM t WHERE p]. *)
Definition select_where (p : K -> R -> bool) t : list R :=
  map snd (map_to_list (filter (fun kr => p kr.1 kr.2 = true) t)).
End statements.

(** [ORDER BY]. *)
Definition order_by {A} (le : relation A) `{forall x y, Decision (le x y)} (l : list A) : list A :=
  merge_sort le l.

(** [LIMIT n]; SQLite reads a negative limit as none. *)
Definition limit {A} (n : Z) (l : list A) : list A :=
  if n <? 0 then l else take (Z.to_nat n) l.

(** [SELECT DISTINCT]. *)
Fixpoint distinct {A} `{EqDecision A} (l : list A) : list A :=
  match l with
  | [] => []
  | x :: l' => if decide (x ∈ l') then distinct l' else x :: distinct l'
  end.

(** ** The order *)

Lemma lex_compare_refl a : lex_compare a a = Eq.
Proof. induction a; simpl; [done|]. by rewrite Z.compare_refl. Qed.

Lemma lex_compare_eq a b : lex_compare a b = Eq <-> a = b.
Proof.
  split; [|intros ->; apply lex_compare_refl].
  revert b. induction a as [|x a IH]; intros [|y b]; simpl; try done.
  destruct (Z.compare_spec x y); try done. subst. intros. f_equal. auto.
Qed.

Lemma lex_compare_antisym a b : lex_compare b a = CompOpp (lex_compare a b).
Proof.
  revert b. induction a as [|x a IH]; intros [|y b]; simpl; try done.
  rewrite (Z.compare_antisym x y). destruct (x ?= y); simpl; auto.
Qed.

Lemma lex_le_trans a b c : lex_le a b -> lex_le b c -> lex_le a c.
Proof.
  unfold lex_le. revert b c. induction a as [|x a IH]; intros [|y b] [|z c]; simpl; try done.
  destruct (Z.compare_spec x y), (Z.compare_spec y z); subst; try done.
  - destruct (Z.compare_spec z z); try lia. eauto.
  - destruct (Z.compare_spec y z); try lia. done.
  - destruct (Z.compare_spec x z); try lia. done.
  - destruct (Z.compare_spec x z); try lia. done.
Qed.

#[export] Instance lex_le_transitive : Transitive lex_le.
Proof. intros a b c. apply lex_le_trans. Qed.

#[export] Instance lex_le_total : Total lex_le.
Proof.
  intros a b. unfold lex_le. rewrite (lex_compare_antisym a b).
  destruct (lex_compare a b); simpl; auto.
Qed.

#[export] Instance text_le_transitive : Transitive text_le.
Proof. intros a b c. unfold text_le. apply lex_le_trans. Qed.

#[export] Instance text_le_total : Total text_le.
Proof. intros a b. apply (lex_le_total (text_key a) (text_key b)). Qed.

Lemma lex_le_antisym a b : lex_le a b -> lex_le b a -> a = b.
Proof.
  unfold lex_le. rewrite (lex_compare_antisym a b).
  destruct (lex_compare a b) eqn:E; simpl; try done. by intros; apply lex_compare_eq.
Qed.

(** ** Laws of the statements *)

Section laws.
Context {K R : Type} `{Countable K}.
Implicit Types (t : gmap K R) (k : K) (r : R) (p : K -> R -> bool).

Lemma insert_or_nothing_fresh k r t t' b :
  insert_or_nothing k r t = (t', b) -> b = true -> t !! k = None /\ t' = <[k := r]> t.
Proof. unfold insert_or_nothing. destruct (t !! k); naive_solver. Qed.

Lemma insert_or_nothing_dup k r t t' b :
  insert_or_nothing k r t = (t', b) -> b = false -> is_Some (t !! k) /\ t' = t.
Proof. unfold insert_or_nothing. destruct (t !! k); naive_solver. Qed.

Lemma insert_or_nothing_lookup k r t :
  is_Some ((insert_or_nothing k r t).1 !! k).
Proof.
  unfold insert_or_nothing. destruct (t !! k) eqn:E; simpl; rewrite ?E; [eauto|].
  rewrite lookup_insert_eq. eauto.
Qed.

Lemma insert_or_nothing_eq k r t :
  t !! k = None \/ t !! k = Some r -> (insert_or_nothing k r t).1 !! k = Some r.
Proof.
  unfold insert_or_nothing. intros [E|E]; rewrite E; simpl; [apply lookup_insert_eq|done].
Qed.

Lemma insert_or_nothing_ne k r t k' :
  k' <> k -> (insert_or_nothing k r t).1 !! k' = t !! k'.
Proof.
  intros. unfold insert_or_nothing. destruct (t !! k); simpl; [done|].
  by apply lookup_insert_ne.
Qed.

Lemma insert_or_nothing_mono k r t k' r' :
  t !! k' = Some r' -> (insert_or_nothing k r t).1 !! k' = Some r'.
Proof.
  unfold insert_or_nothing. destruct (t !! k) eqn:E; simpl; [done|].
  intros. rewrite lookup_insert_ne; [done|]. congruence.
Qed.

Lemma delete_where_lookup p t k r :
  (delete_where p t).1 !! k = Some r <-> t !! k = Some r /\ p k r = false.
Proof. unfold delete_where. simpl. rewrite map_lookup_filter_Some. done. Qed.

Lemma delete_where_count p t :
  (delete_where p t).2 + Z.of_nat (size (delete_where p t).1) = Z.of_nat (size t).
Proof.
  unfold delete_where. simpl.
  rewrite <- (map_filter_union_complement (fun kr => p kr.1 kr.2 = true) t) at 3.
  rewrite map_size_disj_union by apply map_disjoint_filter_complement.
  rewrite Nat2Z.inj_add. f_equal. f_equal. f_equal.
  apply map_filter_ext. intros k x _. simpl. by rewrite not_true_iff_false.
Qed.

Lemma elem_of_select_where p t r :
  r ∈ select_where p t <-> exists k, t !! k = Some r /\ p k r = true.
Proof.
  unfold select_where. rewrite list_elem_of_fmap. split.
  - intros ([k r'] & -> & Hin). apply elem_of_map_to_list in Hin.
    apply map_lookup_filter_Some in Hin. eauto.
  - intros (k & Hk & Hp). exists (k, r). split; [done|].
    apply elem_of_map_to_list, map_lookup_filter_Some. done.
Qed.
End laws.

Section select_laws.
Context {K R : Type} `{Countable K}.
Implicit Types (t : gmap K R).

(** The rows of a table whose columns determine the key are distinct. *)
(** [SELECT ... WHERE pk = k]. *)
Lemma select_key k t :
  select_where (fun k' _ => bool_decide (k' = k)) t = match t !! k with Some r => [r] | None => [] end.
Proof.
  unfold select_where. destruct (t !! k) as [r|] eqn:E.
  - replace (filter _ t) with ({[k := r]} : gmap K R); [by rewrite map_to_list_singleton|].
    apply map_eq. intros k'. apply option_eq. intros r'. rewrite map_lookup_filter_Some, lookup_singleton_Some.
    cbn [fst]. rewrite bool_decide_eq_true. naive_solver.
  - replace (filter _ t) with (∅ : gmap K R); [by rewrite map_to_list_empty|].
    apply map_eq. intros k'. apply option_eq. intros r'. rewrite map_lookup_filter_Some, lookup_empty.
    cbn [fst]. rewrite bool_decide_eq_true. naive_solver.
Qed.

Lemma NoDup_select_where (key : R -> K) (p : K -> R -> bool) t :
  (forall k r, t !! k = Some r -> key r = k) -> NoDup (select_where p t).
Proof.
  intros Hk. unfold select_where. apply NoDup_fmap_2_strong; [|apply NoDup_map_to_list].
  intros [k r] [k' r'] H1%elem_of_map_to_list H2%elem_of_map_to_list E. simpl in E. subst.
  apply map_lookup_filter_Some in H1 as [H1 _], H2 as [H2 _].
  by rewrite <- (Hk _ _ H1), <- (Hk _ _ H2).
Qed.

(** A query is determined, up to order, by the rows it returns. *)
Lemma select_where_permutation (key : R -> K) (p : K -> R -> bool) t l :
  (forall k r, t !! k = Some r -> key r = k) ->
  NoDup l -> (forall r, r ∈ l <-> exists k, t !! k = Some r /\ p k r = true) ->
  select_where p t ≡ₚ l.
Proof.
  intros Hk Hl Hin. apply NoDup_Permutation; [by eapply NoDup_select_where|done|].
  intros r. by rewrite elem_of_select_where, Hin.
Qed.
End select_laws.

(** [ORDER BY] on keys without ties has one answer. *)
Lemma order_by_unique {A} (le : relation A) `{forall x y, Decision (le x y)}
    `{!Transitive le, !Total le} l l' :
  (forall x y, x ∈ l' -> y ∈ l' -> le x y -> le y x -> x = y) ->
  StronglySorted le l' -> l ≡ₚ l' -> order_by le l = l'.
Proof.
  intros Ha Hs Hp. unfold order_by.
  assert (Hm : merge_sort le l ≡ₚ l') by by rewrite merge_sort_Permutation.
  apply (StronglySorted_unique_strong le); [|by apply StronglySorted_merge_sort|done..].
  intros x y Hx Hy. apply Ha; [by rewrite <- Hm|done].
Qed.

(** Ordering commutes with a map that respects the keys. *)
Lemma order_by_map {A B} (leA : relation A) (leB : relation B) (g : A -> B) (l : list A)
    `{forall x y, Decision (leA x y)} `{forall x y, Decision (leB x y)}
    `{!Transitive leA, !Total leA, !Transitive leB, !Total leB} :
  (forall x y, leA x y -> leB (g x) (g y)) ->
  (forall x y, x ∈ l -> y ∈ l -> leB (g x) (g y) -> leB (g y) (g x) -> x = y) ->
  order_by leB (map g l) = map g (order_by leA l).
Proof.
  intros Hg Ha.
  assert (Hp : order_by leA l ≡ₚ l) by (unfold order_by; apply merge_sort_Permutation).
  apply (order_by_unique leB).
  - intros x y (a & -> & Hx)%list_elem_of_fmap (b & -> & Hy)%list_elem_of_fmap H1 H2.
    rewrite Hp in Hx, Hy. f_equal. by apply Ha.
  - assert (Hs : StronglySorted leA (order_by leA l)).
    { unfold order_by. by apply StronglySorted_merge_sort. }
    clear Hp. induction Hs as [|x l' Hs IH Hx]; simpl; [constructor|]. constructor; [done|].
    apply Forall_fmap. eapply Forall_impl; [exact Hx|]. intros y. apply Hg.
  - by rewrite Hp.
Qed.

Lemma elem_of_order_by {A} (le : relation A) `{forall x y, Decision (le x y)} l x :
  x ∈ order_by le l <-> x ∈ l.
Proof. unfold order_by. by rewrite merge_sort_Permutation. Qed.

Lemma length_order_by {A} (le : relation A) `{forall x y, Decision (le x y)} l :
  length (order_by le l) = length l.
Proof. unfold order_by. by rewrite merge_sort_Permutation. Qed.

Lemma order_by_sorted {A} (le : relation A) `{forall x y, Decision (le x y)}
    `{!Transitive le, !Total le} l :
  StronglySorted le (order_by le l).
Proof. apply StronglySorted_merge_sort; done. Qed.

Lemma elem_of_limit {A} n (l : list A) x : x ∈ limit n l -> x ∈ l.
Proof.
  unfold limit. case_match; [done|]. intros Hx.
  rewrite <- (take_drop (Z.to_nat n) l), elem_of_app. by left.
Qed.

Lemma limit_sorted {A} (le : relation A) n (l : list A) :
  StronglySorted le l -> StronglySorted le (limit n l).
Proof.
  unfold limit. case_match; [done|]. generalize (Z.to_nat n) as m. clear.
  intros m Hs. revert m.
  induction Hs as [|x l Hs IH Hx]; intros [|m]; simpl; constructor; auto.
  eapply Forall_take, Hx.
Qed.

Lemma length_limit {A} n (l : list A) :
  0 <= n -> Z.of_nat (length (limit n l)) = Z.min n (Z.of_nat (length l)).
Proof.
  intros. unfold limit. rewrite (proj2 (Z.ltb_ge _ _)) by lia. rewrite length_take. lia.
Qed.

Lemma elem_of_distinct {A} `{EqDecision A} (l : list A) x : x ∈ distinct l <-> x ∈ l.
Proof.
  induction l as [|y l IH]; simpl; [done|].
  case_decide; rewrite ?elem_of_cons, IH; naive_solver.
Qed.

Lemma NoDup_distinct {A} `{EqDecision A} (l : list A) : NoDup (distinct l).
Proof.
  induction l as [|y l IH]; simpl; [constructor|].
  case_decide; [done|]. constructor; [by rewrite elem_of_distinct|done].
Qed.

(** What a bounded, ordered query leaves out is not smaller than what it returns,
    and it leaves something out only when the batch is full. *)
Lemma limit_order_complete {A} (le : relation A) `{forall x y, Decision (le x y)}
    `{!Transitive le, !Total le} n l x :
  0 <= n -> x ∈ l -> x ∉ limit n (order_by le l) ->
  Z.of_nat (length (limit n (order_by le l))) = n /\
  forall y, y ∈ limit n (order_by le l) -> le y x.
Proof.
  intros Hn Hx Hout. unfold limit in *. rewrite (proj2 (Z.ltb_ge _ _)) in * by done.
  pose proof (order_by_sorted le l) as Hs.
  rewrite <- (elem_of_order_by le) in Hx.
  rewrite <- (take_drop (Z.to_nat n) (order_by le l)) in Hx, Hs.
  apply elem_of_app in Hx as [Hx|Hx]; [done|]. split.
  - rewrite length_take. apply list_elem_of_lookup in Hx as [i Hi].
    apply lookup_lt_Some in Hi. rewrite length_drop in Hi. lia.
  - intros y Hy. by eapply StronglySorted_app_1_elem_of.
Qed.

Create HintDb sql.
#[export] Hint Resolve order_by_sorted limit_sorted NoDup_distinct : sql.
#[export] Hint Rewrite @elem_of_order_by @elem_of_distinct @elem_of_select_where
  @delete_where_lookup : sql.
