(* ===== verification/Platform.v ===== *)
(** * Platform primitives and encodings

    What the sources call but do not contain is a parameter: each primitive is an
    operational type class, passed implicitly to the definitions that use it.
    The file also has the encodings every component shares, which the sources do
    contain: lower-case hex and the digest alphabet check. *)
From S2P Require Import Prelude.
From S2P Require Import JsString.

(** [crypto.subtle.digest("SHA-256", bytes)]. *)
Class Sha256 := sha256 : bytes -> bytes.
(** SHA-256 returns 32 bytes. *)
Class Sha256Len `{Sha256} : Prop := sha256_length : forall bs, length (sha256 bs) = 32%nat.

(** BLAKE3-256 of the cloister-cas wasm bridge ([wire/cas-hash.ts] calls it), as
    lower-case hex. *)
Class Blake3 := blake3_hex : bytes -> jsstr.

(** [crypto.subtle.importKey("raw", key)] followed by [crypto.subtle.verify("Ed25519",
    key, sig, data)]; [None] is a throw. *)
Class Ed25519 := ed25519_verify : bytes -> bytes -> bytes -> option bool.

(** ** Hex (src/storage/canonical.ts, src/storage/peer-lease-counters.ts) *)

Definition hex_digit (n : Z) : Z := if n <? 10 then 48 + n else 87 + n.
Definition hex_byte (b : byte) : jsstr := [hex_digit (b2z b / 16); hex_digit (b2z b mod 16)].
Definition toHex (bs : bytes) : jsstr := concat (map hex_byte bs).

Definition is_hex_unit (c : Z) : bool :=
  ((48 <=? c) && (c <=? 57)) || ((97 <=? c) && (c <=? 102)).

(** [isDigest]: /^[0-9a-f]{64}$/. *)
Definition isDigest (value : jsstr) : bool :=
  (length value =? 64)%nat && forallb is_hex_unit value.

Lemma hex_digit_inj m n :
  0 <= m < 16 -> 0 <= n < 16 -> hex_digit m = hex_digit n -> m = n.
Proof. unfold hex_digit. intros. destruct (Z.ltb_spec m 10), (Z.ltb_spec n 10); lia. Qed.

Lemma hex_digit_is_hex n : 0 <= n < 16 -> is_hex_unit (hex_digit n) = true.
Proof.
  unfold hex_digit, is_hex_unit. intros. destruct (Z.ltb_spec n 10).
  - replace (48 <=? 48 + n) with true by lia. by replace (48 + n <=? 57) with true by lia.
  - replace (97 <=? 87 + n) with true by lia. replace (87 + n <=? 102) with true by lia.
    apply orb_true_r.
Qed.

Lemma toHex_cons b bs :
  toHex (b :: bs) = hex_digit (b2z b / 16) :: hex_digit (b2z b mod 16) :: toHex bs.
Proof. reflexivity. Qed.

Lemma length_toHex bs : length (toHex bs) = (2 * length bs)%nat.
Proof. induction bs as [|b bs IH]; [done|]. rewrite toHex_cons. simpl. rewrite IH. lia. Qed.

Lemma hex_nibbles b : 0 <= b2z b / 16 < 16 /\ 0 <= b2z b mod 16 < 16.
Proof.
  pose proof (b2z_range b). split; [|apply Z.mod_pos_bound; lia].
  split; [apply Z.div_pos; lia|apply Z.div_lt_upper_bound; lia].
Qed.

#[export] Instance toHex_inj : Inj (=) (=) toHex.
Proof.
  intros xs. induction xs as [|x xs IH]; intros [|y ys] H; [done..|].
  rewrite !toHex_cons in H. injection H as H1 H2 H3.
  pose proof (hex_nibbles x) as [Hx1 Hx2]. pose proof (hex_nibbles y) as [Hy1 Hy2].
  apply hex_digit_inj in H1, H2; try done. f_equal; [|by apply IH].
  apply (inj b2z). rewrite (Z.div_mod (b2z x) 16), (Z.div_mod (b2z y) 16) by lia.
  by rewrite H1, H2.
Qed.

Lemma toHex_units bs : forallb is_hex_unit (toHex bs) = true.
Proof.
  induction bs as [|b bs IH]; [done|]. rewrite toHex_cons. simpl.
  destruct (hex_nibbles b). by rewrite !hex_digit_is_hex, IH.
Qed.

Lemma toHex_ascii bs : is_ascii (toHex bs).
Proof.
  unfold is_ascii. apply Forall_forall. intros c Hc.
  pose proof (toHex_units bs) as Hu. rewrite forallb_forall in Hu.
  specialize (Hu c (proj1 (list_elem_of_In _ _) Hc)).
  unfold is_hex_unit in Hu. apply orb_true_iff in Hu as [?|?]; z_bool; lia.
Qed.

(** A SHA-256 digest in hex passes the alphabet check. *)
Lemma isDigest_sha256 `{Sha256Len} bs : isDigest (toHex (sha256 bs)) = true.
Proof. unfold isDigest. by rewrite length_toHex, sha256_length, toHex_units. Qed.

(** A stand-in digest for closed examples: the first 32 bytes, zero-padded. *)
Definition demo_sha256 : Sha256 :=
  fun bs => take 32 (bs ++ replicate 32 Corelib.Init.Byte.x00).

Lemma demo_sha256_len : @Sha256Len demo_sha256.
Proof. intros bs. unfold sha256, demo_sha256. rewrite length_take, length_app, length_replicate. lia. Qed.

(** A stand-in signature check for closed examples: a signature is the key followed
    by the digest of the message. *)
Definition demo_ed25519 : Ed25519 :=
  fun key sig msg => Some (bool_decide (sig = key ++ @sha256 demo_sha256 msg)).
