(* ===== verification/JsInt.v ===== *)
(** * JavaScript's 32-bit operators

    Bitwise operators convert their operands to 32 bits and give a signed result
    ([>>>]: an unsigned one).  Operands are integers; conversion is reduction modulo
    2^32. *)
From S2P Require Import Prelude.

Definition u32 (z : Z) : Z := z mod 2 ^ 32.
Definition i32 (z : Z) : Z := let u := u32 z in if u <? 2 ^ 31 then u else u - 2 ^ 32.

Definition js_and (a b : Z) : Z := i32 (Z.land a b).
Definition js_or (a b : Z) : Z := i32 (Z.lor a b).
Definition js_xor (a b : Z) : Z := i32 (Z.lxor a b).
Definition js_not (a : Z) : Z := i32 (Z.lnot a).
Definition js_shl (a k : Z) : Z := i32 (Z.shiftl a k).
Definition js_shr (a k : Z) : Z := Z.shiftr (i32 a) k.
Definition js_ushr (a k : Z) : Z := Z.shiftr (u32 a) k.

Lemma u32_range z : 0 <= u32 z < 2 ^ 32.
Proof. apply Z.mod_pos_bound. lia. Qed.

Lemma u32_small z : 0 <= z < 2 ^ 32 -> u32 z = z.
Proof. apply Z.mod_small. Qed.

Lemma u32_i32 z : u32 (i32 z) = u32 z.
Proof.
  unfold i32, u32. destruct (z mod 2 ^ 32 <? 2 ^ 31).
  - by rewrite Z.mod_mod.
  - rewrite <- (Z.mod_add (z mod 2 ^ 32 - 2 ^ 32) 1) by lia.
    replace (z mod 2 ^ 32 - 2 ^ 32 + 1 * 2 ^ 32) with (z mod 2 ^ 32) by lia.
    by rewrite Z.mod_mod.
Qed.

Lemma i32_small z : - 2 ^ 31 <= z < 2 ^ 31 -> i32 z = z.
Proof.
  intros Hz. unfold i32, u32. destruct (Z.lt_ge_cases z 0).
  - rewrite <- (Z.mod_add z 1), Z.mod_small by lia. destruct (Z.ltb_spec (z + 1 * 2 ^ 32) (2 ^ 31)); lia.
  - rewrite Z.mod_small by lia. destruct (Z.ltb_spec z (2 ^ 31)); lia.
Qed.

Lemma i32_ext z z' : u32 z = u32 z' -> i32 z = i32 z'.
Proof. unfold i32. by intros ->. Qed.

Lemma u32_ext a b : u32 a = u32 b <-> forall k, 0 <= k < 32 -> Z.testbit a k = Z.testbit b k.
Proof.
  unfold u32. split.
  - intros E k Hk. rewrite <- (Z.mod_pow2_bits_low a 32), <- (Z.mod_pow2_bits_low b 32) by lia.
    by rewrite E.
  - intros Hb. apply Z.bits_inj'. intros k Hk. destruct (Z.lt_ge_cases k 32).
    + rewrite !Z.mod_pow2_bits_low by lia. by apply Hb.
    + by rewrite !Z.mod_pow2_bits_high by lia.
Qed.

(** The operators commute with the reduction of their operands. *)
Lemma u32_lor a b a' b' : u32 a = u32 a' -> u32 b = u32 b' -> u32 (Z.lor a b) = u32 (Z.lor a' b').
Proof.
  rewrite !u32_ext. intros Ha Hb k Hk. by rewrite !Z.lor_spec, Ha, Hb.
Qed.

(** A value is 0 in 32 bits when all its bits are. *)
Lemma u32_lor_0 a b : u32 (Z.lor a b) = 0 <-> u32 a = 0 /\ u32 b = 0.
Proof.
  change 0 with (u32 0). rewrite !u32_ext. setoid_rewrite Z.bits_0. setoid_rewrite Z.lor_spec.
  setoid_rewrite orb_false_iff. naive_solver.
Qed.

Lemma u32_lxor_0 a b : u32 (Z.lxor a b) = 0 <-> u32 a = u32 b.
Proof.
  change 0 with (u32 0). rewrite !u32_ext. setoid_rewrite Z.bits_0. setoid_rewrite Z.lxor_spec.
  split; intros Hk k Hr; specialize (Hk k Hr); destruct (Z.testbit a k), (Z.testbit b k); done.
Qed.

Lemma land_ones_mod a n : 0 <= n -> Z.land a (2 ^ n - 1) = a mod 2 ^ n.
Proof. intros. rewrite <- Z.land_ones, Z.ones_equiv by done. f_equal. Qed.

(** Disjoint fields: [or] is addition. *)
Lemma lor_add_field a b n : 0 <= n -> 0 <= b < 2 ^ n -> Z.lor (Z.shiftl a n) b = a * 2 ^ n + b.
Proof.
  intros Hn Hb. rewrite Z.shiftl_mul_pow2 by done.
  symmetry. rewrite Z.add_nocarry_lxor, Z.lxor_lor; [done| |].
  all: apply Z.bits_inj'; intros k Hk; rewrite Z.land_spec, Z.bits_0;
    rewrite <- Z.shiftl_mul_pow2 by done; destruct (Z.lt_ge_cases k n);
    [by rewrite Z.shiftl_spec_low|].
  all: rewrite <- (Z.mod_small b (2 ^ n)), Z.mod_pow2_bits_high by lia; apply andb_false_r.
Qed.

Lemma lor_mul_field a b n : 0 <= n -> 0 <= b < 2 ^ n -> Z.lor (a * 2 ^ n) b = a * 2 ^ n + b.
Proof. intros. rewrite <- (lor_add_field a b n) by done. by rewrite Z.shiftl_mul_pow2. Qed.

Lemma js_and_mask a n : 0 <= n <= 31 -> js_and a (2 ^ n - 1) = a mod 2 ^ n.
Proof.
  intros Hn. unfold js_and. rewrite land_ones_mod by lia. apply i32_small.
  pose proof (Z.mod_pos_bound a (2 ^ n) ltac:(lia)).
  assert (2 ^ n <= 2 ^ 31) by (apply Z.pow_le_mono_r; lia). lia.
Qed.

Lemma js_shr_div v k : 0 <= k -> 0 <= v < 2 ^ 31 -> js_shr v k = v / 2 ^ k.
Proof. intros. unfold js_shr. by rewrite i32_small, Z.shiftr_div_pow2 by lia. Qed.

Lemma js_ushr_div v k : 0 <= k -> 0 <= v < 2 ^ 32 -> js_ushr v k = v / 2 ^ k.
Proof. intros. unfold js_ushr. by rewrite u32_small, Z.shiftr_div_pow2. Qed.

(** Four bytes joined with [<<] and [|]: the value as a signed 32-bit integer. *)
Lemma join4 b3 b2 b1 b0 :
  0 <= b3 < 256 -> 0 <= b2 < 256 -> 0 <= b1 < 256 -> 0 <= b0 < 256 ->
  js_or (js_or (js_or (js_ushr (js_shl b3 24) 0) (js_shl b2 16)) (js_shl b1 8)) b0 =
  i32 (b3 * 2 ^ 24 + b2 * 2 ^ 16 + b1 * 2 ^ 8 + b0).
Proof.
  intros H3 H2 H1 H0. unfold js_or at 1. apply i32_ext.
  transitivity (u32 (Z.lor (Z.lor (Z.lor (b3 * 2 ^ 24) (b2 * 2 ^ 16)) (b1 * 2 ^ 8)) b0)).
  - apply u32_lor; [|done]. unfold js_or at 1. rewrite u32_i32. apply u32_lor.
    + unfold js_or. rewrite u32_i32. apply u32_lor.
      * unfold js_ushr. rewrite Z.shiftr_0_r, u32_small by apply u32_range.
        unfold js_shl. by rewrite u32_i32, Z.shiftl_mul_pow2.
      * unfold js_shl. by rewrite u32_i32, Z.shiftl_mul_pow2.
    + unfold js_shl. by rewrite u32_i32, Z.shiftl_mul_pow2.
  - f_equal. rewrite (lor_mul_field b3) by lia.
    replace (b3 * 2 ^ 24 + b2 * 2 ^ 16) with ((b3 * 256 + b2) * 2 ^ 16) by lia.
    rewrite lor_mul_field by lia.
    replace ((b3 * 256 + b2) * 2 ^ 16 + b1 * 2 ^ 8) with (((b3 * 256 + b2) * 256 + b1) * 2 ^ 8) by lia.
    rewrite lor_mul_field by lia. lia.
Qed.

#[local] Transparent b2z.
Lemma le_val_cons b bs : le_val (b :: bs) = b2z b + 256 * le_val bs.
Proof.
  change (Z.lor (coqutil.Byte.byte.unsigned b) (Z.shiftl (le_val bs) 8) = coqutil.Byte.byte.unsigned b + 256 * le_val bs).
  rewrite Z.lor_comm, lor_add_field.
  - change (2 ^ 8) with 256. lia.
  - lia.
  - apply coqutil.Byte.byte.unsigned_range.
Qed.
