(* ===== verification/SeenNonces.v ===== *)
(** * The replay ledger (src/storage/seen-nonces.ts)

    The table [seen_nonces] maps a pair of certificate fingerprint and nonce to
    the time it was first seen.  [recordSeenNonce] is one [INSERT ... ON CONFLICT
    DO NOTHING RETURNING]; [pruneSeenNoncesBefore] is the retention sweep. *)
From S2P Require Import Prelude.
From S2P Require Import JsString.
From S2P Require Import Sql.

Module SeenNonces.

(** The table: PRIMARY KEY (cert_fp, nonce), value ts_ms. *)
Abbreviation table := (gmap (list Z * list Z) Z).

Definition recordSeenNonce (t : table) (certFp nonce : jsstr) (tsMs : Z) : table * bool :=
  insert_or_nothing (certFp, nonce) tsMs t.

Definition pruneSeenNoncesBefore (t : table) (beforeTsMs : Z) : table * Z :=
  delete_where (fun _ ts_ms => ts_ms <? beforeTsMs) t.

Implicit Types (t : table).

Lemma record_fresh t c n ts t' :
  recordSeenNonce t c n ts = (t', true) <->
  t !! (c, n) = None /\ t' = <[(c, n) := ts]> t.
Proof.
  unfold recordSeenNonce, insert_or_nothing.
  destruct (t !! (c, n)) eqn:E; split; naive_solver.
Qed.

Lemma record_dup t c n ts t' :
  recordSeenNonce t c n ts = (t', false) <-> is_Some (t !! (c, n)) /\ t' = t.
Proof.
  unfold recordSeenNonce, insert_or_nothing.
  destruct (t !! (c, n)) eqn:E; split; naive_solver.
Qed.

Lemma record_present t c n ts : is_Some ((recordSeenNonce t c n ts).1 !! (c, n)).
Proof. apply insert_or_nothing_lookup. Qed.

Lemma record_keeps t c n ts k v :
  t !! k = Some v -> (recordSeenNonce t c n ts).1 !! k = Some v.
Proof. apply insert_or_nothing_mono. Qed.

(** A pair recorded at or after the cutoff survives the sweep. *)
Lemma prune_keeps t b k ts :
  t !! k = Some ts -> b <= ts -> (pruneSeenNoncesBefore t b).1 !! k = Some ts.
Proof. intros. apply delete_where_lookup. split; [done|]. by apply Z.ltb_ge. Qed.

Lemma prune_drops t b k ts :
  (pruneSeenNoncesBefore t b).1 !! k = Some ts -> t !! k = Some ts /\ b <= ts.
Proof. intros [? ?%Z.ltb_ge]%delete_where_lookup. done. Qed.
End SeenNonces.

#[export] Hint Resolve SeenNonces.record_present SeenNonces.record_keeps
  SeenNonces.prune_keeps : sql.
