(* ===== verification/LeaseCounters.v ===== *)
(** * Per-peer lease counters (src/storage/peer-lease-counters.ts)

    One row per peer: a sequence number and the head of a SHA-256 hash chain over
    (certificate fingerprint, nonce, time) of every authenticated request.  The
    file has the chain step, its defensive check, the split
    [computeNextLeaseStep] / [writeLeaseCounterRow] and their composition
    [applyLeaseCounter], and the specification of a row: the head of the chain
    that a verifier rebuilds from the list of the peer's observations. *)
From S2P Require Import Prelude.
From S2P Require Import JsString.
From S2P Require Import Sql.
From S2P Require Import Platform.

Module LeaseCounters.

(** ["0".repeat(64)]. *)
Definition ZERO_HASH : jsstr := replicate 64 48.

Record PeerLeaseCounter := mkCounter {
  peer_fingerprint : jsstr;
  seq : Z;
  last_chain_hash : jsstr;
  last_cert_fp : jsstr;
  updated_at : Z;
}.

(** PRIMARY KEY peer_fingerprint. *)
Abbreviation table := (gmap (list Z) PeerLeaseCounter).

Inductive ChainIntegrityError :=
  | NonMonotonicSeq (expected got : Z)
  | ChainHashSkip (expected got : jsstr).

Record step := mkStep {
  step_prevSeq : Z;
  step_prevHash : jsstr;
  step_seq : Z;
  step_hash : jsstr;
}.

Section ops.
Context `{Sha256}.

(** The transcript the chain hashes: the template string of the source. *)
Definition transcript (prevHash certFp nonce : jsstr) (ts : Z) : jsstr :=
  prevHash ++ certFp ++ nonce ++ js_dec ts.

Definition nextChainHash (prevHash certFp nonce : jsstr) (ts : Z) : jsstr :=
  toHex (sha256 (utf8_encode (transcript prevHash certFp nonce ts))).

Definition readLeaseCounter (t : table) (peerFp : jsstr) : option PeerLeaseCounter :=
  t !! peerFp.

Definition assertChainStep (prevSeq : Z) (prevHash : jsstr) (nextSeq : Z)
    (nextHash certFp nonce : jsstr) (ts : Z) : result ChainIntegrityError unit :=
  if nextSeq =? prevSeq + 1 then
    let expected := nextChainHash prevHash certFp nonce ts in
    if decide (nextHash = expected) then Ok tt
    else Throw (ChainHashSkip expected nextHash)
  else Throw (NonMonotonicSeq (prevSeq + 1) nextSeq).

Definition computeNextLeaseStep (t : table) (peerFp certFp nonce : jsstr) (ts : Z)
    : result ChainIntegrityError step :=
  let existing := readLeaseCounter t peerFp in
  let prevHash := default ZERO_HASH (last_chain_hash <$> existing) in
  let prevSeq := default 0 (seq <$> existing) in
  let h := nextChainHash prevHash certFp nonce ts in
  let s := prevSeq + 1 in
  let? _ := assertChainStep prevSeq prevHash s h certFp nonce ts in
  Ok (mkStep prevSeq prevHash s h).

Definition writeLeaseCounterRow (t : table) (peerFp certFp : jsstr) (ts s : Z)
    (h : jsstr) : table :=
  upsert peerFp (mkCounter peerFp s h certFp ts) t.

Definition applyLeaseCounter (t : table) (peerFp certFp nonce : jsstr) (ts : Z)
    : result ChainIntegrityError (table * (Z * jsstr)) :=
  let? st := computeNextLeaseStep t peerFp certFp nonce ts in
  Ok (writeLeaseCounterRow t peerFp certFp ts (step_seq st) (step_hash st),
      (step_seq st, step_hash st)).

(** ** Specification: the chain of a list of observations *)

(** An authenticated request, as it enters the chain. *)
Record observation := mkObs { obs_certFp : jsstr; obs_nonce : jsstr; obs_ts : Z }.

Definition chain_next (h : jsstr) (o : observation) : jsstr :=
  nextChainHash h (obs_certFp o) (obs_nonce o) (obs_ts o).

(** The head of the chain over the observations, oldest first. *)
Definition chain_head (obs : list observation) : jsstr := foldl chain_next ZERO_HASH obs.

(** The row a verifier expects after [obs]. *)
Definition spec_row (peerFp : jsstr) (obs : list observation) : option PeerLeaseCounter :=
  match last obs with
  | None => None
  | Some o => Some (mkCounter peerFp (Z.of_nat (length obs)) (chain_head obs)
                      (obs_certFp o) (obs_ts o))
  end.

(** The table agrees with a log of observations per peer. *)
Definition represents (t : table) (log : jsstr -> list observation) : Prop :=
  forall peer, t !! peer = spec_row peer (log peer).

Definition log_add (log : jsstr -> list observation) (peer : jsstr) (o : observation)
    : jsstr -> list observation :=
  fun p => if decide (p = peer) then log p ++ [o] else log p.

Lemma spec_row_snoc peer obs o :
  spec_row peer (obs ++ [o]) =
  Some (mkCounter peer (Z.of_nat (length obs) + 1) (chain_next (chain_head obs) o)
          (obs_certFp o) (obs_ts o)).
Proof.
  unfold spec_row, chain_head. rewrite last_snoc, foldl_snoc, length_app. simpl.
  do 2 f_equal. lia.
Qed.

Lemma spec_row_none peer obs : spec_row peer obs = None -> obs = [].
Proof. unfold spec_row. destruct (last obs) eqn:E; [done|]. by apply last_None in E. Qed.

Lemma spec_row_some peer obs c :
  spec_row peer obs = Some c ->
  seq c = Z.of_nat (length obs) /\ last_chain_hash c = chain_head obs.
Proof. unfold spec_row. destruct (last obs); naive_solver. Qed.

(** The defensive check of [computeNextLeaseStep] never fires. *)
Lemma computeNextLeaseStep_ok t peer c n ts :
  computeNextLeaseStep t peer c n ts =
  Ok (mkStep (default 0 (seq <$> t !! peer))
             (default ZERO_HASH (last_chain_hash <$> t !! peer))
             (default 0 (seq <$> t !! peer) + 1)
             (nextChainHash (default ZERO_HASH (last_chain_hash <$> t !! peer)) c n ts)).
Proof.
  unfold computeNextLeaseStep, assertChainStep, readLeaseCounter.
  rewrite Z.eqb_refl. by rewrite decide_True.
Qed.

Lemma represents_step t log peer c n ts :
  represents t log ->
  computeNextLeaseStep t peer c n ts =
  Ok (mkStep (Z.of_nat (length (log peer))) (chain_head (log peer))
             (Z.of_nat (length (log peer)) + 1)
             (nextChainHash (chain_head (log peer)) c n ts)).
Proof.
  intros Hr. rewrite computeNextLeaseStep_ok, (Hr peer).
  destruct (spec_row peer (log peer)) as [r|] eqn:E; simpl.
  - apply spec_row_some in E as [-> ->]. done.
  - by rewrite (spec_row_none _ _ E).
Qed.

Lemma represents_write t log peer c n ts :
  represents t log ->
  represents
    (writeLeaseCounterRow t peer c ts (Z.of_nat (length (log peer)) + 1)
       (nextChainHash (chain_head (log peer)) c n ts))
    (log_add log peer (mkObs c n ts)).
Proof.
  intros Hr p. unfold writeLeaseCounterRow, upsert, log_add.
  case_decide as Hp; subst.
  - by rewrite lookup_insert_eq, spec_row_snoc.
  - by rewrite lookup_insert_ne.
Qed.

Lemma lease_represents_empty : represents (∅ : table) (fun _ => []).
Proof. intros p. by rewrite lookup_empty. Qed.

(** With the other fields fixed, the transcript determines the nonce. *)
Lemma transcript_nonce_inj prev c n n' ts :
  transcript prev c n ts = transcript prev c n' ts -> n = n'.
Proof.
  unfold transcript. intros E%(inj (app prev))%(inj (app c)).
  by apply (inj (fun x => x ++ js_dec ts)) in E.
Qed.

(** The fields are not delimited: a digit can move from the nonce to the timestamp. *)
Lemma transcript_not_injective prev c :
  transcript prev c (js "ab1") 23 = transcript prev c (js "ab") 123.
Proof. reflexivity. Qed.

End ops.
End LeaseCounters.

#[export] Hint Resolve LeaseCounters.represents_write LeaseCounters.lease_represents_empty : sql.
#[export] Hint Rewrite @LeaseCounters.represents_step using done : sql.
