(* ===== verification/Attestations.v ===== *)
(** * Bilateral chain entries (src/storage/peer-attestations.ts)

    One row per state-boundary write of a peer, keyed by (peer_fingerprint, seq).
    Each row carries the content hash of the row before it, so that the rows of
    one peer form a chain.  The specification is a log per peer: an append-only
    list of rows, and [represents] says that the table is that log. *)
From S2P Require Import Prelude.
From S2P Require Import JsString.
From S2P Require Import Sql.

Module Attestations.

Record PeerAttestation := mkAttestation {
  peer_fingerprint : jsstr;
  seq : Z;
  prev_self_ref : option jsstr;
  prev_peer_ref : option jsstr;
  content_hash : jsstr;
  content_type : jsstr;
  scope : jsstr;
  cert : bytes;
  sig : bytes;
  created_at : Z;
  bead_id : option jsstr;
  origins : option jsstr;
}.

#[global] Instance PeerAttestation_eq_dec : EqDecision PeerAttestation.
Proof. solve_decision. Defined.

(** PRIMARY KEY (peer_fingerprint, seq). *)
Abbreviation table := (gmap (list Z * Z) PeerAttestation).

(** The named arguments of [applyAttestation]; [beadId] and [origins] fold
    [undefined] into [null]. *)
Record args := mkArgs {
  a_peerFingerprint : jsstr;
  a_contentHash : jsstr;
  a_contentType : jsstr;
  a_scope : jsstr;
  a_cert : bytes;
  a_sig : bytes;
  a_prevSelfRef : option jsstr;
  a_prevPeerRef : option jsstr;
  a_nowMs : Z;
  a_beadId : option jsstr;
  a_origins : option jsstr;
}.

Inductive ApplyAttestationResult :=
  | Applied (seq : Z) (row : PeerAttestation)
  | PrevSelfRefMismatch (expected got : option jsstr).

(** ORDER BY seq ASC / DESC, created_at ASC. *)
Definition seq_asc (a b : PeerAttestation) : Prop := seq a <= seq b.
Definition seq_desc (a b : PeerAttestation) : Prop := seq b <= seq a.
Definition created_asc (a b : PeerAttestation) : Prop := created_at a <= created_at b.
#[global] Instance seq_asc_dec a b : Decision (seq_asc a b).
Proof. unfold seq_asc. apply _. Defined.
#[global] Instance seq_desc_dec a b : Decision (seq_desc a b).
Proof. unfold seq_desc. apply _. Defined.
#[global] Instance created_asc_dec a b : Decision (created_asc a b).
Proof. unfold created_asc. apply _. Defined.

Definition lastAttestationForPeer (t : table) (peer : jsstr) : option PeerAttestation :=
  head (limit 1 (order_by seq_desc
    (select_where (fun _ r => bool_decide (peer_fingerprint r = peer)) t))).

Definition attestationsForBead (t : table) (beadId : jsstr) : list PeerAttestation :=
  order_by created_asc
    (select_where (fun _ r => bool_decide (bead_id r = Some beadId)) t).

Definition listAttestationsForPeer (t : table) (peer : jsstr) (fromSeq lim : option Z)
    : list PeerAttestation :=
  limit (default 1000 lim) (order_by seq_asc
    (select_where (fun _ r => bool_decide (peer_fingerprint r = peer)
                              && (default 0 fromSeq <=? seq r)) t)).

Definition findAttestationByContent (t : table) (peer contentHash : jsstr)
    : option PeerAttestation :=
  head (limit 1 (order_by seq_desc
    (select_where (fun _ r => bool_decide (peer_fingerprint r = peer)
                              && bool_decide (content_hash r = contentHash)) t))).

(** The row [applyAttestation] inserts, and returns. *)
Definition new_row (a : args) (s : Z) : PeerAttestation :=
  mkAttestation (a_peerFingerprint a) s (a_prevSelfRef a) (a_prevPeerRef a)
    (a_contentHash a) (a_contentType a) (a_scope a) (a_cert a) (a_sig a)
    (a_nowMs a) (a_beadId a) (a_origins a).

Definition applyAttestation (t : table) (a : args)
    : result SqliteError (table * ApplyAttestationResult) :=
  let last := lastAttestationForPeer t (a_peerFingerprint a) in
  let expectedPrevSelfRef := content_hash <$> last in
  if decide (a_prevSelfRef a = expectedPrevSelfRef) then
    let s := default 0 (seq <$> last) + 1 in
    let? t' := insert_strict (a_peerFingerprint a, s) (new_row a s) t in
    Ok (t', Applied s (new_row a s))
  else Ok (t, PrevSelfRefMismatch expectedPrevSelfRef (a_prevSelfRef a)).

(** ** Specification *)

(** Row [i] of the log of [peer] (counting from 0). *)
Definition row_ok (peer : jsstr) (log : list PeerAttestation) (i : nat)
    (r : PeerAttestation) : Prop :=
  peer_fingerprint r = peer /\ seq r = Z.of_nat i + 1 /\
  prev_self_ref r = content_hash <$> last (take i log).

(** The rows of one peer are an unbroken chain from genesis. *)
Definition chain_ok (peer : jsstr) (log : list PeerAttestation) : Prop :=
  forall i r, log !! i = Some r -> row_ok peer log i r.

(** The table holds exactly the logs. *)
Record represents (t : table) (log : jsstr -> list PeerAttestation) : Prop := {
  rep_chain : forall peer, chain_ok peer (log peer);
  rep_rows : forall k r,
    t !! k = Some r <-> exists i, log k.1 !! i = Some r /\ k.2 = Z.of_nat i + 1;
}.

Definition log_add (log : jsstr -> list PeerAttestation) (r : PeerAttestation)
    : jsstr -> list PeerAttestation :=
  fun p => if decide (p = peer_fingerprint r) then log p ++ [r] else log p.

#[global] Instance seq_asc_trans : Transitive seq_asc.
Proof. intros a b c. unfold seq_asc. lia. Qed.
#[global] Instance seq_asc_total : Total seq_asc.
Proof. intros a b. unfold seq_asc. lia. Qed.
#[global] Instance seq_desc_trans : Transitive seq_desc.
Proof. intros a b c. unfold seq_desc. lia. Qed.
#[global] Instance seq_desc_total : Total seq_desc.
Proof. intros a b. unfold seq_desc. lia. Qed.
#[global] Instance created_asc_trans : Transitive created_asc.
Proof. intros a b c. unfold created_asc. lia. Qed.
#[global] Instance created_asc_total : Total created_asc.
Proof. intros a b. unfold created_asc. lia. Qed.

Implicit Types (t : table) (r : PeerAttestation).

Lemma chain_seq peer l i r : chain_ok peer l -> l !! i = Some r -> seq r = Z.of_nat i + 1.
Proof. intros Hc Hi. by destruct (Hc _ _ Hi) as (_ & ? & _). Qed.

Lemma chain_peer peer l r : chain_ok peer l -> r ∈ l -> peer_fingerprint r = peer.
Proof. intros Hc [i Hi]%list_elem_of_lookup. by destruct (Hc _ _ Hi). Qed.

(** Sequence numbers are distinct, and sorted, along a chain. *)
Lemma chain_seq_inj peer l r r' :
  chain_ok peer l -> r ∈ l -> r' ∈ l -> seq r = seq r' -> r = r'.
Proof.
  intros Hc [i Hi]%list_elem_of_lookup [j Hj]%list_elem_of_lookup E.
  rewrite (chain_seq _ _ _ _ Hc Hi), (chain_seq _ _ _ _ Hc Hj) in E.
  assert (i = j) by lia. congruence.
Qed.

Lemma chain_take peer l n : chain_ok peer l -> chain_ok peer (take n l).
Proof.
  intros Hc i r Hi. apply lookup_take_Some in Hi as [Hi Hlt].
  destruct (Hc _ _ Hi) as (? & ? & ?). repeat split; try done.
  by rewrite take_take, Nat.min_l by lia.
Qed.

Lemma chain_snoc peer l r :
  chain_ok peer l -> row_ok peer l (length l) r -> chain_ok peer (l ++ [r]).
Proof.
  intros Hc Hr i x Hi. apply lookup_app_Some in Hi as [Hi|[Hlen Hi]].
  - pose proof (lookup_lt_Some _ _ _ Hi). destruct (Hc _ _ Hi) as (? & ? & ?).
    repeat split; try done. by rewrite take_app_le by lia.
  - apply list_lookup_singleton_Some in Hi as [? <-].
    replace i with (length l) by lia. destruct Hr as (? & ? & E).
    repeat split; try done. rewrite E, take_ge by done. by rewrite take_app_length.
Qed.

Lemma chain_sorted peer l : chain_ok peer l -> StronglySorted seq_asc l.
Proof.
  induction l as [|x l IH] using rev_ind; intros Hc; [constructor|].
  assert (Hc' : chain_ok peer l).
  { pose proof (chain_take peer _ (length l) Hc) as H. by rewrite take_app_length in H. }
  apply StronglySorted_app_2; [|auto|repeat constructor].
  intros a b [i Hi]%list_elem_of_lookup Hb%list_elem_of_singleton. subst b.
  unfold seq_asc. rewrite (chain_seq _ _ _ _ Hc' Hi).
  rewrite (chain_seq peer _ (length l) x Hc) by by rewrite lookup_app_r, Nat.sub_diag.
  pose proof (lookup_lt_Some _ _ _ Hi). lia.
Qed.

Lemma chain_NoDup peer l : chain_ok peer l -> NoDup l.
Proof.
  intros Hc. apply NoDup_alt. intros i j x Hi Hj.
  pose proof (chain_seq _ _ _ _ Hc Hi). pose proof (chain_seq _ _ _ _ Hc Hj). lia.
Qed.

Definition row_key (r : PeerAttestation) : jsstr * Z := (peer_fingerprint r, seq r).

Lemma rep_key t log k r : represents t log -> t !! k = Some r -> row_key r = k.
Proof.
  intros Hr (i & Hi & Hk)%(rep_rows _ _ Hr). destruct k as [p s]. simpl in *. subst.
  unfold row_key. destruct (rep_chain _ _ Hr p _ _ Hi) as (-> & -> & _). done.
Qed.

Lemma rep_elem t log peer r :
  represents t log ->
  r ∈ log peer <-> exists k, t !! k = Some r /\ peer_fingerprint r = peer.
Proof.
  intros Hr. split.
  - intros Hin. pose proof (chain_peer _ _ _ (rep_chain _ _ Hr peer) Hin) as Hp.
    apply list_elem_of_lookup in Hin as [i Hi].
    exists (peer, Z.of_nat i + 1). rewrite (rep_rows _ _ Hr). eauto.
  - intros (k & Hk & <-). pose proof (rep_key _ _ _ _ Hr Hk) as <-.
    apply (rep_rows _ _ Hr) in Hk as (i & Hi & _). by eapply list_elem_of_lookup_2.
Qed.

(** A query about one peer sees the rows of its log that satisfy the rest of the
    condition. *)
Lemma select_peer t log peer (q : PeerAttestation -> bool) :
  represents t log ->
  select_where (fun _ r => bool_decide (peer_fingerprint r = peer) && q r) t
  ≡ₚ filter (fun r => q r = true) (log peer).
Proof.
  intros Hr. apply (select_where_permutation row_key); [intros; by eapply rep_key| |].
  - apply NoDup_filter. by eapply chain_NoDup, rep_chain.
  - intros r. rewrite list_elem_of_filter, (rep_elem _ _ _ _ Hr).
    split; [intros (Hq & k & Hk & Hp)|intros (k & Hk & Hb)].
    + exists k. split; [done|]. by rewrite bool_decide_true, Hq.
    + apply andb_true_iff in Hb as [Hp%bool_decide_eq_true Hq]. eauto.
Qed.

Lemma StronglySorted_filter {A} (R : relation A) (P : A -> Prop) `{forall x, Decision (P x)} l :
  StronglySorted R l -> StronglySorted R (filter P l).
Proof.
  induction 1 as [|x l Hs IH Hx]; [constructor|]. rewrite filter_cons.
  case_decide; [|done]. constructor; [done|].
  apply Forall_forall. intros y [_ Hy]%list_elem_of_filter.
  rewrite Forall_forall in Hx. auto.
Qed.

Lemma StronglySorted_reverse peer (l : list PeerAttestation) :
  chain_ok peer l -> StronglySorted seq_desc (reverse l).
Proof.
  intros Hc%chain_sorted. induction Hc as [|x l Hs IH Hx]; [constructor|].
  rewrite reverse_cons. apply StronglySorted_app_2; [|done|repeat constructor].
  intros a b Ha Hb%list_elem_of_singleton. subst. rewrite elem_of_reverse in Ha.
  rewrite Forall_forall in Hx. apply Hx, Ha.
Qed.

Lemma order_asc peer (l : list PeerAttestation) (P : PeerAttestation -> Prop)
    `{forall x, Decision (P x)} l' :
  chain_ok peer l -> l' ≡ₚ filter P l -> order_by seq_asc l' = filter P l.
Proof.
  intros Hc Hp. apply (order_by_unique seq_asc); [|by eapply StronglySorted_filter, chain_sorted|done].
  intros x y [_ Hx]%list_elem_of_filter [_ Hy]%list_elem_of_filter.
  unfold seq_asc. intros. eapply chain_seq_inj; eauto. lia.
Qed.

Lemma order_desc peer (l : list PeerAttestation) (P : PeerAttestation -> Prop)
    `{forall x, Decision (P x)} l' :
  chain_ok peer l -> l' ≡ₚ filter P l -> order_by seq_desc l' = filter P (reverse l).
Proof.
  intros Hc Hp. apply (order_by_unique seq_desc).
  - intros x y [_ Hx]%list_elem_of_filter [_ Hy]%list_elem_of_filter.
    rewrite elem_of_reverse in Hx, Hy. unfold seq_desc. intros. eapply chain_seq_inj; eauto. lia.
  - by eapply StronglySorted_filter, StronglySorted_reverse.
  - rewrite Hp. apply filter_Permutation. by rewrite reverse_Permutation.
Qed.

(** The last row by sequence number that satisfies a condition. *)
Lemma query_last t log peer (q : PeerAttestation -> bool) :
  represents t log ->
  head (limit 1 (order_by seq_desc
    (select_where (fun _ r => bool_decide (peer_fingerprint r = peer) && q r) t)))
  = head (filter (fun r => q r = true) (reverse (log peer))).
Proof.
  intros Hr. erewrite order_desc; [|by apply (rep_chain _ _ Hr)|by apply select_peer].
  unfold limit. simpl. by destruct (filter _ _).
Qed.

Lemma lastAttestationForPeer_log t log peer :
  represents t log -> lastAttestationForPeer t peer = last (log peer).
Proof.
  intros Hr. rewrite <- head_reverse.
  transitivity (head (filter (fun _ => true = true) (reverse (log peer)))).
  - rewrite <- (query_last t log peer (fun _ => true) Hr).
    unfold lastAttestationForPeer, select_where. do 5 f_equal.
    apply map_filter_ext. intros. by rewrite andb_true_r.
  - f_equal. induction (reverse (log peer)) as [|x l IH]; [done|].
    by rewrite filter_cons_True, IH.
Qed.

Lemma findAttestationByContent_log t log peer c :
  represents t log ->
  findAttestationByContent t peer c =
  head (filter (fun r => bool_decide (content_hash r = c) = true) (reverse (log peer))).
Proof. apply (query_last t log peer). Qed.

Lemma filter_from_drop peer l n :
  chain_ok peer l ->
  filter (fun r => (n <=? seq r) = true) l = drop (Z.to_nat (n - 1)) l.
Proof.
  induction l as [|x l IH] using rev_ind; intros Hc; [by rewrite drop_nil|].
  assert (Hc' : chain_ok peer l).
  { pose proof (chain_take peer _ (length l) Hc) as H. by rewrite take_app_length in H. }
  assert (Hx : seq x = Z.of_nat (length l) + 1).
  { apply (chain_seq peer (l ++ [x])); [done|]. by rewrite lookup_app_r, Nat.sub_diag. }
  rewrite filter_app, (IH Hc'), filter_cons, filter_nil, Hx.
  case_decide as Hd; rewrite Z.leb_le in Hd.
  - by rewrite drop_app_le by lia.
  - rewrite app_nil_r, !drop_ge; [done|rewrite length_app; simpl; lia|lia].
Qed.

(** The list query returns a window of the log. *)
Lemma listAttestationsForPeer_log t log peer from lim :
  represents t log ->
  listAttestationsForPeer t peer from lim =
  limit (default 1000 lim) (drop (Z.to_nat (default 0 from - 1)) (log peer)).
Proof.
  intros Hr. unfold listAttestationsForPeer. f_equal.
  rewrite <- (filter_from_drop peer) by apply (rep_chain _ _ Hr).
  apply (order_asc peer); [by apply (rep_chain _ _ Hr)|].
  by apply (select_peer t log peer (fun r => default 0 from <=? seq r)).
Qed.

Lemma chain_last_seq peer l :
  chain_ok peer l -> default 0 (seq <$> last l) = Z.of_nat (length l).
Proof.
  intros Hc. destruct (last l) as [x|] eqn:E; simpl.
  - rewrite last_lookup in E. rewrite (chain_seq _ _ _ _ Hc E).
    pose proof (lookup_lt_Some _ _ _ E). lia.
  - apply last_None in E. by subst.
Qed.

(** A row that extends its peer's chain can be inserted, and extends the log. *)
Lemma represents_insert t log r :
  represents t log ->
  row_ok (peer_fingerprint r) (log (peer_fingerprint r)) (length (log (peer_fingerprint r))) r ->
  insert_strict (row_key r) r t = Ok (<[row_key r := r]> t) /\
  represents (<[row_key r := r]> t) (log_add log r).
Proof.
  intros Hr Hrow. set (peer := peer_fingerprint r) in *.
  assert (Hseq : seq r = Z.of_nat (length (log peer)) + 1) by apply Hrow.
  assert (Hfresh : t !! row_key r = None).
  { apply eq_None_not_Some. intros [x (i & Hi & Hk)%(rep_rows _ _ Hr)].
    pose proof (lookup_lt_Some _ _ _ Hi). simpl in *. fold peer in H. lia. }
  split; [unfold insert_strict; by rewrite Hfresh|]. constructor.
  - intros p. unfold log_add. case_decide as Hp; [subst p|by apply (rep_chain _ _ Hr)].
    apply chain_snoc; [by apply (rep_chain _ _ Hr)|done].
  - intros [p s] x. unfold log_add. simpl. case_decide as Hp.
    + fold peer in Hp. subst p. destruct (decide (s = seq r)) as [->|Hs].
      * change (peer, seq r) with (row_key r). rewrite lookup_insert_eq. split.
        -- intros [= <-]. exists (length (log peer)). split; [|done].
           by rewrite lookup_app_r, Nat.sub_diag.
        -- intros (i & Hi & Hk). assert (i = length (log peer)) as -> by lia.
           rewrite lookup_app_r, Nat.sub_diag in Hi by done. by injection Hi as ->.
      * rewrite lookup_insert_ne by (unfold row_key; congruence).
        rewrite (rep_rows _ _ Hr). simpl. split; intros (i & Hi & Hk).
        -- exists i. by rewrite lookup_app_l by (by eapply lookup_lt_Some).
        -- exists i. rewrite lookup_app_l in Hi; [done|].
           apply lookup_lt_Some in Hi. rewrite length_app in Hi. simpl in Hi. lia.
    + rewrite lookup_insert_ne by (intros [= <- _]; by apply Hp).
      by rewrite (rep_rows _ _ Hr).
Qed.

(** [applyAttestation] on a table that represents a log: exactly the two outcomes
    of its type, never the PRIMARY KEY exception. *)
Lemma applyAttestation_log t log a :
  represents t log ->
  let peer := a_peerFingerprint a in
  let s := Z.of_nat (length (log peer)) + 1 in
  let head := content_hash <$> last (log peer) in
  (a_prevSelfRef a = head ->
     exists t', applyAttestation t a = Ok (t', Applied s (new_row a s)) /\
                represents t' (log_add log (new_row a s))) /\
  (a_prevSelfRef a <> head ->
     applyAttestation t a = Ok (t, PrevSelfRefMismatch head (a_prevSelfRef a))).
Proof.
  intros Hr peer s head. unfold applyAttestation. fold peer.
  rewrite (lastAttestationForPeer_log _ _ peer Hr).
  rewrite (chain_last_seq peer) by apply (rep_chain _ _ Hr). fold s head.
  split; intros Hh; [rewrite decide_True by done|by rewrite decide_False].
  destruct (represents_insert t log (new_row a s) Hr) as [Hi Hr'].
  - repeat split. simpl. by rewrite firstn_all.
  - change (a_peerFingerprint a, s) with (row_key (new_row a s)).
    unfold row_key in Hi. simpl in Hi. unfold row_key. simpl. fold peer in Hi |- *.
    rewrite Hi. simpl. eauto.
Qed.

Lemma attest_represents_empty : represents (∅ : table) (fun _ => []).
Proof.
  constructor; [by intros peer i r Hi; rewrite lookup_nil in Hi|].
  intros k r. rewrite lookup_empty. split; [done|].
  intros (i & Hi & _). by rewrite lookup_nil in Hi.
Qed.
(** ** Properties *)

(** C4: appending refines the append-only log.  On a table that holds the logs,
    [applyAttestation] either appends the one row that extends the peer's chain
    (when the caller's prev_self_ref is the chain head) or leaves the table alone
    and reports head and claim; it never throws the PRIMARY KEY exception. *)
Theorem applyAttestation_refines_log t log a :
  represents t log ->
  let peer := a_peerFingerprint a in
  let s := Z.of_nat (length (log peer)) + 1 in
  let head := content_hash <$> last (log peer) in
  (a_prevSelfRef a = head ->
     exists t', applyAttestation t a = Ok (t', Applied s (new_row a s)) /\
                represents t' (log_add log (new_row a s))) /\
  (a_prevSelfRef a <> head ->
     applyAttestation t a = Ok (t, PrevSelfRefMismatch head (a_prevSelfRef a))).
Proof. apply applyAttestation_log. Qed.

Definition demo_args (prev : option jsstr) (c : jsstr) : args :=
  mkArgs (js "peer") c (js "application/json") (js "bead_create") [] [] prev None 7 None None.

Lemma applyAttestation_refines_log_witness :
  represents ∅ (fun _ => []) /\
  exists t', applyAttestation ∅ (demo_args None (js "h1")) =
    Ok (t', Applied 1 (new_row (demo_args None (js "h1")) 1)) /\
    represents t' (log_add (fun _ => []) (new_row (demo_args None (js "h1")) 1)).
Proof.
  split; [apply attest_represents_empty|].
  apply (applyAttestation_refines_log ∅ (fun _ => []) (demo_args None (js "h1"))
           attest_represents_empty). reflexivity.
Defined.

(** The read queries are windows of the log.  On a table that holds the logs the
    head is the last entry, a listing is the window that starts at [fromSeq] and is
    at most [limit] long (1000 by default), and a lookup by content is the most
    recent entry with that content. *)
Theorem attestation_queries t log peer from lim c :
  represents t log ->
  lastAttestationForPeer t peer = last (log peer) /\
  listAttestationsForPeer t peer from lim =
    limit (default 1000 lim) (drop (Z.to_nat (default 0 from - 1)) (log peer)) /\
  findAttestationByContent t peer c =
    head (filter (fun r => bool_decide (content_hash r = c) = true) (reverse (log peer))).
Proof.
  intros Hr. split; [by apply lastAttestationForPeer_log|].
  split; [by apply listAttestationsForPeer_log|by apply findAttestationByContent_log].
Qed.

Lemma attestation_queries_witness :
  exists t', applyAttestation ∅ (demo_args None (js "h1")) =
      Ok (t', Applied 1 (new_row (demo_args None (js "h1")) 1)) /\
    lastAttestationForPeer t' (js "peer") = Some (new_row (demo_args None (js "h1")) 1).
Proof.
  destruct (applyAttestation_log ∅ (fun _ => []) (demo_args None (js "h1"))
             attest_represents_empty) as [H _].
  destruct (H eq_refl) as (t' & E & Hr). exists t'. split; [exact E|].
  destruct (attestation_queries t' _ (js "peer") None None [] Hr) as [Hl _].
  rewrite Hl. reflexivity.
Defined.
End Attestations.

#[export] Hint Resolve Attestations.attest_represents_empty : sql.
