(* ===== verification/PendingAttestations.v ===== *)
(** * The attestation retry queue (src/storage/pending-attestations.ts)

    One row per (peer, content hash) whose attestation write did not reach the
    chain.  A row is claimed when its retry time has come, deleted on success, and
    pushed back along a fixed schedule on failure; after the last slot of the
    schedule it stays in the table and is never claimed again. *)
From S2P Require Import Prelude.
From S2P Require Import JsString.
From S2P Require Import Sql.

Module PendingAttestations.

Definition RETRY_BACKOFF_MS : list Z := [30000; 60000; 120000; 300000; 600000].
Definition MAX_RETRY_ATTEMPTS : nat := length RETRY_BACKOFF_MS.
(** [Number.MAX_SAFE_INTEGER]. *)
Definition MAX_SAFE_INTEGER : Z := 2 ^ 53 - 1.

Record PendingAttestation := mkPending {
  peer_fp : jsstr;
  content_hash : jsstr;
  scope : jsstr;
  cert : bytes;
  sig : bytes;
  attempts : nat;
  next_retry_at : Z;
  created_at : Z;
  last_attempt_at : option Z;
}.

#[global] Instance PendingAttestation_eq_dec : EqDecision PendingAttestation.
Proof. solve_decision. Defined.

(** PRIMARY KEY (peer_fp, content_hash). *)
Abbreviation table := (gmap (list Z * list Z) PendingAttestation).

Record enqueue_args := mkEnqueue {
  e_peerFp : jsstr;
  e_contentHash : jsstr;
  e_scope : jsstr;
  e_cert : bytes;
  e_sig : bytes;
  e_nowMs : Z;
}.

Definition backoffNextRetry (attempts : nat) (nowMs : Z) : option Z :=
  if (MAX_RETRY_ATTEMPTS <=? attempts)%nat then None
  else (fun d => nowMs + d) <$> RETRY_BACKOFF_MS !! attempts.

(** The row of a first failure.  [backoffNextRetry 0] is not null. *)
Definition enqueue_row (a : enqueue_args) : PendingAttestation :=
  mkPending (e_peerFp a) (e_contentHash a) (e_scope a) (e_cert a) (e_sig a) 0
    (default 0 (backoffNextRetry 0 (e_nowMs a))) (e_nowMs a) None.

Definition enqueuePending (t : table) (a : enqueue_args) : table * bool :=
  insert_or_nothing (e_peerFp a, e_contentHash a) (enqueue_row a) t.

Definition due (nowMs : Z) (r : PendingAttestation) : bool :=
  (next_retry_at r <=? nowMs) && (attempts r <? MAX_RETRY_ATTEMPTS)%nat.

Definition retry_asc (a b : PendingAttestation) : Prop := next_retry_at a <= next_retry_at b.
Definition created_asc (a b : PendingAttestation) : Prop := created_at a <= created_at b.
#[global] Instance retry_asc_dec a b : Decision (retry_asc a b).
Proof. unfold retry_asc. apply _. Defined.
#[global] Instance created_asc_dec a b : Decision (created_asc a b).
Proof. unfold created_asc. apply _. Defined.

(** [lim] defaults to 32. *)
Definition claimRetryBatch (t : table) (nowMs : Z) (lim : option Z) : list PendingAttestation :=
  limit (default 32 lim) (order_by retry_asc (select_where (fun _ r => due nowMs r) t)).

Definition commitPending (t : table) (peerFp contentHash : jsstr) : table * bool :=
  let '(t', n) := delete_where
    (fun _ r => bool_decide (peer_fp r = peerFp) && bool_decide (content_hash r = contentHash)) t in
  (t', n =? 1).

Definition failed_row (newAttempts : nat) (stored nowMs : Z) (r : PendingAttestation)
    : PendingAttestation :=
  mkPending (peer_fp r) (content_hash r) (scope r) (cert r) (sig r) newAttempts stored
    (created_at r) (Some nowMs).

(** Returns [{ newAttempts, nextRetryAt }]. *)
Definition recordFailedAttempt (t : table) (peerFp contentHash : jsstr) (nowMs : Z)
    : table * (nat * option Z) :=
  match t !! (peerFp, contentHash) with
  | None => (t, (0%nat, None))
  | Some current =>
      let newAttempts := S (attempts current) in
      let next := backoffNextRetry newAttempts nowMs in
      let stored := default MAX_SAFE_INTEGER next in
      (update_row (failed_row newAttempts stored nowMs) (peerFp, contentHash) t,
       (newAttempts, next))
  end.

Definition listPendingForPeer (t : table) (peerFp : jsstr) : list PendingAttestation :=
  order_by created_asc (select_where (fun _ r => bool_decide (peer_fp r = peerFp)) t).

(** ** Well-formed tables *)

Definition row_key (r : PendingAttestation) : jsstr * jsstr := (peer_fp r, content_hash r).

(** A row sits under its key, and its retry time is the slot its count of failures
    gives, counted from the last attempt (from the creation, before any). *)
Record row_wf (k : list Z * list Z) (r : PendingAttestation) : Prop := {
  wf_key : row_key r = k;
  wf_bound : (attempts r <= MAX_RETRY_ATTEMPTS)%nat;
  wf_slot : next_retry_at r =
    default MAX_SAFE_INTEGER
      (backoffNextRetry (attempts r) (default (created_at r) (last_attempt_at r)));
}.

Definition wf (t : table) : Prop := forall k r, t !! k = Some r -> row_wf k r.

#[global] Instance retry_asc_trans : Transitive retry_asc.
Proof. intros a b c. unfold retry_asc. lia. Qed.
#[global] Instance retry_asc_total : Total retry_asc.
Proof. intros a b. unfold retry_asc. lia. Qed.
#[global] Instance created_asc_trans : Transitive created_asc.
Proof. intros a b c. unfold created_asc. lia. Qed.
#[global] Instance created_asc_total : Total created_asc.
Proof. intros a b. unfold created_asc. lia. Qed.

Implicit Types (t : table) (r : PendingAttestation).

Lemma pending_wf_empty : wf ∅.
Proof. intros k r Hk. by rewrite lookup_empty in Hk. Qed.

Lemma wf_enqueue t a : wf t -> wf (enqueuePending t a).1.
Proof.
  intros Hw k r. unfold enqueuePending, insert_or_nothing.
  destruct (t !! _) eqn:E; simpl; [apply Hw|].
  rewrite lookup_insert_Some. intros [[<- <-]|[_ H]]; [|by apply Hw].
  constructor; simpl; [done|unfold MAX_RETRY_ATTEMPTS; simpl; lia|done].
Qed.

Lemma commit_lookup t p c k r :
  (commitPending t p c).1 !! k = Some r <-> t !! k = Some r /\ row_key r <> (p, c).
Proof.
  unfold commitPending. destruct (delete_where _ _) as [t' n] eqn:E. simpl.
  replace t' with (delete_where
    (fun _ r => bool_decide (peer_fp r = p) && bool_decide (content_hash r = c)) t).1
    by by rewrite E.
  rewrite delete_where_lookup. unfold row_key.
  case_bool_decide; case_bool_decide; simpl; naive_solver.
Qed.

Lemma wf_commit t p c : wf t -> wf (commitPending t p c).1.
Proof. intros Hw k r [? _]%commit_lookup. auto. Qed.

Lemma wf_fail t p c now :
  wf t ->
  (forall r, t !! (p, c) = Some r -> (attempts r < MAX_RETRY_ATTEMPTS)%nat) ->
  wf (recordFailedAttempt t p c now).1.
Proof.
  intros Hw Hlt k r. unfold recordFailedAttempt, update_row.
  destruct (t !! (p, c)) as [x|] eqn:E; simpl; [|apply Hw].
  rewrite lookup_insert_Some. intros [[<- <-]|[_ H]]; [|by apply Hw].
  pose proof (Hw _ _ E) as [Hk _ _]. specialize (Hlt _ eq_refl).
  constructor; simpl; [done|lia|done].
Qed.

Lemma elem_of_claim t now lim r :
  r ∈ claimRetryBatch t now lim -> due now r = true /\ exists k, t !! k = Some r.
Proof.
  intros Hin%elem_of_limit. rewrite elem_of_order_by, elem_of_select_where in Hin.
  naive_solver.
Qed.

Lemma claim_sorted t now lim : StronglySorted retry_asc (claimRetryBatch t now lim).
Proof. apply limit_sorted, (order_by_sorted retry_asc). Qed.

Lemma claim_complete t now lim k r :
  0 <= lim -> t !! k = Some r -> due now r = true -> r ∉ claimRetryBatch t now (Some lim) ->
  Z.of_nat (length (claimRetryBatch t now (Some lim))) = lim /\
  forall y, y ∈ claimRetryBatch t now (Some lim) -> next_retry_at y <= next_retry_at r.
Proof.
  intros Hl Hk Hd Hout. apply (limit_order_complete retry_asc); [done| |done].
  apply elem_of_select_where. eauto.
Qed.

Lemma backoff_exhausted n now : backoffNextRetry n now = None <-> (MAX_RETRY_ATTEMPTS <= n)%nat.
Proof.
  unfold backoffNextRetry, MAX_RETRY_ATTEMPTS.
  destruct (Nat.leb_spec (length RETRY_BACKOFF_MS) n) as [Hle|Hlt]; [done|].
  split; [|lia]. rewrite fmap_None, lookup_ge_None. lia.
Qed.

(** ** Runs of failures of one row *)

(** The row after it failed at each of the times [ts]. *)
Definition fail_run (t : table) (p c : jsstr) (ts : list Z) : table :=
  foldl (fun t now => (recordFailedAttempt t p c now).1) t ts.

Lemma fail_run_lookup t p c ts r :
  t !! (p, c) = Some r ->
  exists r', fail_run t p c ts !! (p, c) = Some r' /\
    attempts r' = (attempts r + length ts)%nat /\
    (forall l, last ts = Some l ->
      next_retry_at r' = default MAX_SAFE_INTEGER (backoffNextRetry (attempts r') l)) /\
    peer_fp r' = peer_fp r.
Proof.
  intros Hr. induction ts as [|now ts IH] using rev_ind.
  - exists r. simpl. split; [done|]. split; [lia|done].
  - destruct IH as (r1 & H1 & Ha & _ & Hp). unfold fail_run in *. rewrite foldl_snoc.
    unfold recordFailedAttempt at 1, update_row. rewrite H1. simpl.
    exists (failed_row (S (attempts r1)) (default MAX_SAFE_INTEGER
      (backoffNextRetry (S (attempts r1)) now)) now r1).
    rewrite lookup_insert_eq, last_snoc, length_app. simpl.
    split; [done|]. split; [lia|]. split; [|done]. by intros l [= <-].
Qed.


(** ** Properties *)

(** A claimed batch is exactly what the pump should try.  Every claimed row is
    stored, due and not exhausted; the batch is sorted by retry time and at most
    [lim] long; and a due row is left out only when the batch is full of rows whose
    retry time is no later. *)
Theorem claimRetryBatch_spec t now lim :
  0 <= lim ->
  let batch := claimRetryBatch t now (Some lim) in
  (forall r, r ∈ batch -> (exists k, t !! k = Some r) /\ next_retry_at r <= now /\
                          (attempts r < MAX_RETRY_ATTEMPTS)%nat) /\
  StronglySorted retry_asc batch /\ Z.of_nat (length batch) <= lim /\
  (forall k r, t !! k = Some r -> due now r = true -> r ∉ batch ->
     Z.of_nat (length batch) = lim /\ forall y, y ∈ batch -> next_retry_at y <= next_retry_at r).
Proof.
  intros Hl batch. split; [|split; [apply claim_sorted|split]].
  - intros r [Hd Hk]%elem_of_claim. unfold due in Hd.
    apply andb_true_iff in Hd as [?%Z.leb_le ?%Nat.ltb_lt]. auto.
  - unfold batch, claimRetryBatch. simpl. rewrite length_limit by done. lia.
  - intros k r. by apply claim_complete.
Qed.

Definition demo_enqueue : enqueue_args := mkEnqueue (js "peer") (js "h") (js "s") [] [] 1000.

Lemma claimRetryBatch_spec_witness :
  claimRetryBatch (enqueuePending ∅ demo_enqueue).1 31000 (Some 32) = [enqueue_row demo_enqueue] /\
  Z.of_nat (length (claimRetryBatch (enqueuePending ∅ demo_enqueue).1 31000 (Some 32))) <= 32.
Proof.
  split; [vm_compute; reflexivity|].
  apply (claimRetryBatch_spec (enqueuePending ∅ demo_enqueue).1 31000 32). lia.
Defined.

(** The schedule of one queued row.  After it failed at the times [ts], at least
    once, it is due at [now] exactly when the slot of that many failures has passed
    since the last one; from the fifth failure on it is due at no time, and it is
    never claimed; it is listed for its peer throughout. *)
Theorem retry_schedule t p c r ts l now :
  wf t -> t !! (p, c) = Some r -> attempts r = 0%nat -> last ts = Some l ->
  exists r', fail_run t p c ts !! (p, c) = Some r' /\
    r' ∈ listPendingForPeer (fail_run t p c ts) p /\
    match RETRY_BACKOFF_MS !! length ts with
    | Some d => due now r' = (l + d <=? now)
    | None => due now r' = false /\ forall lim, r' ∉ claimRetryBatch (fail_run t p c ts) now lim
    end.
Proof.
  intros Hw Hr H0 Hl. destruct (fail_run_lookup t p c ts r Hr) as (r' & Hr' & Ha & Hn & Hp).
  specialize (Hn l Hl). rewrite H0 in Ha. simpl in Ha. exists r'. split; [done|]. split.
  { unfold listPendingForPeer. rewrite elem_of_order_by, elem_of_select_where.
    eexists. split; [done|]. apply bool_decide_eq_true. rewrite Hp.
    by destruct (Hw _ _ Hr) as [[= -> _] _ _]. }
  unfold backoffNextRetry in Hn. rewrite Ha in Hn. unfold due. rewrite Ha.
  destruct (RETRY_BACKOFF_MS !! length ts) as [d|] eqn:E.
  - pose proof (lookup_lt_Some _ _ _ E) as Hlt. change (length RETRY_BACKOFF_MS)
      with MAX_RETRY_ATTEMPTS in Hlt. rewrite (proj2 (Nat.leb_gt _ _)) in Hn by done.
    rewrite Hn. simpl. rewrite (proj2 (Nat.ltb_lt _ _)) by done. apply andb_true_r.
  - apply lookup_ge_None in E. change (length RETRY_BACKOFF_MS) with MAX_RETRY_ATTEMPTS in E.
    assert (Hf : (length ts <? MAX_RETRY_ATTEMPTS)%nat = false) by by apply Nat.ltb_ge.
    rewrite Hf, andb_false_r. split; [done|]. intros lim [Hd _]%elem_of_claim.
    unfold due in Hd. by rewrite Ha, Hf, andb_false_r in Hd.
Qed.

Lemma retry_schedule_witness :
  wf (enqueuePending ∅ demo_enqueue).1 /\
  exists r', fail_run (enqueuePending ∅ demo_enqueue).1 (js "peer") (js "h") [31000; 91000; 211000; 511000; 1111000]
               !! (js "peer", js "h") = Some r' /\ due (2 ^ 60) r' = false.
Proof.
  split; [apply wf_enqueue, pending_wf_empty|].
  destruct (retry_schedule (enqueuePending ∅ demo_enqueue).1 (js "peer") (js "h")
    (enqueue_row demo_enqueue) [31000; 91000; 211000; 511000; 1111000] 1111000 (2 ^ 60)
    (wf_enqueue _ _ pending_wf_empty) eq_refl eq_refl eq_refl) as (r' & H1 & _ & H2).
  exists r'. split; [exact H1|]. exact (proj1 H2).
Defined.

(** Queue rows stay well-formed and enqueueing is idempotent.  Enqueue, commit and
    a failure of a row that is not exhausted keep every row in its slot of the
    schedule, and enqueueing a write already queued changes nothing: it cannot reset
    the attempt counter. *)
Theorem queue_invariant t a p c now :
  wf t ->
  wf (enqueuePending t a).1 /\ wf (commitPending t p c).1 /\
  ((forall r, t !! (p, c) = Some r -> (attempts r < MAX_RETRY_ATTEMPTS)%nat) ->
   wf (recordFailedAttempt t p c now).1) /\
  (is_Some (t !! (e_peerFp a, e_contentHash a)) -> enqueuePending t a = (t, false)).
Proof.
  intros Hw. split; [by apply wf_enqueue|]. split; [by apply wf_commit|].
  split; [by apply wf_fail|]. intros [r Hr]. unfold enqueuePending, insert_or_nothing.
  by rewrite Hr.
Qed.

Lemma queue_invariant_witness :
  wf (recordFailedAttempt (enqueuePending ∅ demo_enqueue).1 (js "peer") (js "h") 31000).1.
Proof.
  apply (queue_invariant (enqueuePending ∅ demo_enqueue).1 demo_enqueue (js "peer") (js "h") 31000
           (wf_enqueue _ _ pending_wf_empty)).
  intros r Hr. vm_compute in Hr. injection Hr as <-. unfold MAX_RETRY_ATTEMPTS. simpl. lia.
Defined.

End PendingAttestations.
