(* ===== verification/Registry.v ===== *)
(** * The OCI registry indexes (src/storage/registry-tags.ts,
    src/storage/registry-membership.ts)

    Two tables of TrustStore: the mutable pointers (repo, tag) to a manifest digest,
    and the per-repository membership of a digest that gates every read of the
    content-addressed store. *)
From S2P Require Import Prelude.
From S2P Require Import JsString.
From S2P Require Import Sql.

Module Registry.

Record RegistryTag := mkTag {
  repo : jsstr;
  tag : jsstr;
  manifest_digest : jsstr;
  tag_created_at : Z;
}.

(** PRIMARY KEY (repo, tag). *)
Abbreviation tags := (gmap (list Z * list Z) RegistryTag).

Definition upsertTag (t : tags) (r tg digest : jsstr) (nowMs : Z) : tags :=
  upsert (r, tg) (mkTag r tg digest nowMs) t.

Definition getManifestDigestForTag (t : tags) (r tg : jsstr) : option jsstr :=
  manifest_digest <$> t !! (r, tg).

Definition listTagsForRepo (t : tags) (r : jsstr) : list jsstr :=
  order_by text_le (map tag (select_where (fun _ x => bool_decide (repo x = r)) t)).

Definition listRepos (t : tags) : list jsstr :=
  order_by text_le (distinct (map repo (select_where (fun _ _ => true) t))).

Inductive MembershipKind := blob | manifest.

#[global] Instance MembershipKind_eq_dec : EqDecision MembershipKind.
Proof. solve_decision. Defined.
#[global] Instance MembershipKind_countable : Countable MembershipKind.
Proof.
  refine (inj_countable' (fun k => match k with blob => true | manifest => false end)
    (fun b => if b : bool then blob else manifest) _). by intros [].
Defined.

Record Membership := mkMembership {
  m_repo : jsstr;
  m_digest : jsstr;
  m_kind : MembershipKind;
  recorded_at : Z;
  recorded_by : option jsstr;
}.

(** PRIMARY KEY (repo, digest, kind). *)
Abbreviation memberships := (gmap (list Z * list Z * MembershipKind) Membership).

Definition recordMembership (t : memberships) (r digest : jsstr) (kind : MembershipKind)
    (nowMs : Z) (peerFp : option jsstr) : memberships :=
  upsert (r, digest, kind) (mkMembership r digest kind nowMs peerFp) t.

Definition hasMembership (t : memberships) (r digest : jsstr) (kind : MembershipKind) : bool :=
  match t !! (r, digest, kind) with Some _ => true | None => false end.

Definition listReposWithMembership (t : memberships) (digest : jsstr) : list jsstr :=
  order_by text_le
    (distinct (map m_repo (select_where (fun _ x => bool_decide (m_digest x = digest)) t))).

(** ** Rows sit under their keys *)

Definition tags_wf (t : tags) : Prop :=
  forall k x, t !! k = Some x -> k = (repo x, tag x).
Definition memberships_wf (t : memberships) : Prop :=
  forall k x, t !! k = Some x -> k = (m_repo x, m_digest x, m_kind x).

Lemma tags_wf_upsert t r tg d now : tags_wf t -> tags_wf (upsertTag t r tg d now).
Proof. intros Hw k x. unfold upsertTag, upsert. rewrite lookup_insert_Some. naive_solver. Qed.

Lemma memberships_wf_record t r d kd now p :
  memberships_wf t -> memberships_wf (recordMembership t r d kd now p).
Proof.
  intros Hw k x. unfold recordMembership, upsert. rewrite lookup_insert_Some. naive_solver.
Qed.

Lemma elem_of_listTags t r tg :
  tags_wf t -> tg ∈ listTagsForRepo t r <-> is_Some (getManifestDigestForTag t r tg).
Proof.
  intros Hw. unfold listTagsForRepo, getManifestDigestForTag.
  rewrite elem_of_order_by, list_elem_of_fmap, fmap_is_Some. split.
  - intros (x & -> & Hx). apply elem_of_select_where in Hx as (k & Hk & Hb%bool_decide_eq_true).
    rewrite (Hw _ _ Hk) in Hk. subst r. eauto.
  - intros [x Hx]. pose proof (Hw _ _ Hx) as [= -> ->]. exists x. split; [done|].
    apply elem_of_select_where. eexists. split; [done|]. by apply bool_decide_eq_true.
Qed.

Lemma NoDup_listTags t r : tags_wf t -> NoDup (listTagsForRepo t r).
Proof.
  intros Hw. unfold listTagsForRepo, order_by. rewrite merge_sort_Permutation.
  apply NoDup_fmap_2_strong.
  - intros x y (k & Hk & Hx%bool_decide_eq_true)%elem_of_select_where
      (k' & Hk' & Hy%bool_decide_eq_true)%elem_of_select_where E.
    pose proof (Hw _ _ Hk). pose proof (Hw _ _ Hk'). assert (k = k') by congruence. congruence.
  - apply (NoDup_select_where (fun x => (repo x, tag x))). intros. symmetry. by apply Hw.
Qed.

Lemma elem_of_listRepos t r :
  tags_wf t -> r ∈ listRepos t <-> exists tg, is_Some (getManifestDigestForTag t r tg).
Proof.
  intros Hw. unfold listRepos, getManifestDigestForTag.
  rewrite elem_of_order_by, elem_of_distinct, list_elem_of_fmap. split.
  - intros (x & -> & (k & Hk & _)%elem_of_select_where). pose proof (Hw _ _ Hk) as ->.
    exists (tag x). rewrite Hk. eauto.
  - intros [tg [x Hx]%fmap_is_Some]. pose proof (Hw _ _ Hx) as [= -> ->].
    exists x. split; [done|]. apply elem_of_select_where. eauto.
Qed.

Lemma elem_of_listReposWithMembership t d r :
  memberships_wf t ->
  r ∈ listReposWithMembership t d <-> exists kd, hasMembership t r d kd = true.
Proof.
  intros Hw. unfold listReposWithMembership, hasMembership.
  rewrite elem_of_order_by, elem_of_distinct, list_elem_of_fmap. split.
  - intros (x & -> & (k & Hk & Hb%bool_decide_eq_true)%elem_of_select_where).
    pose proof (Hw _ _ Hk) as ->. subst d. exists (m_kind x). by rewrite Hk.
  - intros [kd Hkd]. destruct (t !! (r, d, kd)) as [x|] eqn:E; [|done].
    pose proof (Hw _ _ E) as [= -> -> ->]. exists x. split; [done|].
    apply elem_of_select_where. eexists. split; [done|]. by apply bool_decide_eq_true.
Qed.

Lemma hasMembership_record t r d kd now p r' d' kd' :
  hasMembership (recordMembership t r d kd now p) r' d' kd' =
  bool_decide ((r', d', kd') = (r, d, kd)) || hasMembership t r' d' kd'.
Proof.
  unfold hasMembership, recordMembership, upsert. case_bool_decide as E.
  - injection E as -> -> ->. by rewrite lookup_insert_eq.
  - by rewrite lookup_insert_ne.
Qed.

Lemma getManifestDigestForTag_upsert t r tg d now r' tg' :
  getManifestDigestForTag (upsertTag t r tg d now) r' tg' =
  if bool_decide ((r', tg') = (r, tg)) then Some d else getManifestDigestForTag t r' tg'.
Proof.
  unfold getManifestDigestForTag, upsertTag, upsert. case_bool_decide as E.
  - injection E as -> ->. by rewrite lookup_insert_eq.
  - by rewrite lookup_insert_ne.
Qed.

(** ** Properties *)

(** One successful push of a blob or a manifest. *)
Record push := mkPush {
  p_repo : jsstr; p_digest : jsstr; p_kind : MembershipKind; p_now : Z; p_peer : option jsstr;
}.
Definition push_key (p : push) := (p_repo p, p_digest p, p_kind p).
Definition record_push (t : memberships) (p : push) : memberships :=
  recordMembership t (p_repo p) (p_digest p) (p_kind p) (p_now p) (p_peer p).

(** The pull gate isolates repositories.  After any sequence of pushes the gate
    opens for a repository, a digest and a kind exactly when that very triple was
    pushed: content pushed to another repository, or as the other kind, does not
    open it. *)
Theorem membership_gate pushes r d kd :
  hasMembership (foldl record_push ∅ pushes) r d kd = true <->
  exists p, p ∈ pushes /\ push_key p = (r, d, kd).
Proof.
  induction pushes as [|p ps IH] using rev_ind.
  - unfold hasMembership. simpl. rewrite lookup_empty. split; [done|].
    intros (p & Hp & _). by apply not_elem_of_nil in Hp.
  - rewrite foldl_snoc. unfold record_push at 1. rewrite hasMembership_record, orb_true_iff, IH.
    rewrite bool_decide_eq_true. split.
    + intros [E|(q & Hq & E)]; [exists p|exists q]; (split; [apply elem_of_app|done]).
      * right. apply list_elem_of_here.
      * by left.
    + intros (q & [Hq|Hq%list_elem_of_singleton]%elem_of_app & E); [right; eauto|left].
      by subst q.
Qed.

(** One tag write. *)
Record tagging := mkTagging { g_repo : jsstr; g_tag : jsstr; g_digest : jsstr; g_now : Z }.
Definition tag_one (t : tags) (g : tagging) : tags :=
  upsertTag t (g_repo g) (g_tag g) (g_digest g) (g_now g).

Lemma tags_wf_fold gs : tags_wf (foldl tag_one ∅ gs).
Proof.
  induction gs as [|g gs IH] using rev_ind; [intros k x Hk; by simplify_map_eq|].
  rewrite foldl_snoc. by apply tags_wf_upsert.
Qed.

Lemma tags_last_write gs r tg :
  getManifestDigestForTag (foldl tag_one ∅ gs) r tg =
  g_digest <$> last (filter (fun g => (g_repo g, g_tag g) = (r, tg)) gs).
Proof.
  induction gs as [|g gs IH] using rev_ind; [done|].
  rewrite foldl_snoc. unfold tag_one at 1. rewrite getManifestDigestForTag_upsert, IH.
  rewrite filter_app, filter_cons, filter_nil.
  case_bool_decide as E; case_decide; try congruence.
  - by rewrite last_snoc.
  - by rewrite app_nil_r.
Qed.

(** Tags are last-writer-wins pointers and the listings agree with them.  After
    any sequence of tag writes a lookup returns the digest of the last write of that
    tag; the tags of a repository are listed in byte order, once each, exactly those
    that resolve; the catalogue lists, in order and once, exactly the repositories
    with a tag. *)
Theorem tag_index_spec gs r tg :
  let t := foldl tag_one ∅ gs in
  getManifestDigestForTag t r tg =
    g_digest <$> last (filter (fun g => (g_repo g, g_tag g) = (r, tg)) gs) /\
  StronglySorted text_le (listTagsForRepo t r) /\ NoDup (listTagsForRepo t r) /\
  (tg ∈ listTagsForRepo t r <-> is_Some (getManifestDigestForTag t r tg)) /\
  StronglySorted text_le (listRepos t) /\ NoDup (listRepos t) /\
  (r ∈ listRepos t <-> exists tg', is_Some (getManifestDigestForTag t r tg')).
Proof.
  intros t. pose proof (tags_wf_fold gs) as Hw. split; [apply tags_last_write|].
  split; [apply (order_by_sorted text_le)|]. split; [by apply NoDup_listTags|].
  split; [by apply elem_of_listTags|]. split; [apply (order_by_sorted text_le)|].
  split; [|by apply elem_of_listRepos].
  unfold listRepos, order_by. rewrite merge_sort_Permutation. apply NoDup_distinct.
Qed.

End Registry.
