(* ===== verification/Receipts.v ===== *)
(** * Receipts and the actor's CA bundle archive (src/storage/peer-receipts.ts,
    src/storage/actor-ca-bundle.ts)

    [peer_receipts] stores receipt envelopes in both directions; [actor_ca_bundle]
    stores the actor's signing key of every epoch.  The retention sweep joins the
    two: only outgoing receipts of an epoch retired long enough ago are deleted. *)
From S2P Require Import Prelude.
From S2P Require Import JsString.
From S2P Require Import Sql.

Module Receipts.

Inductive Direction := dir_in | dir_out.
#[global] Instance Direction_eq_dec : EqDecision Direction.
Proof. solve_decision. Defined.
#[global] Instance Direction_countable : Countable Direction.
Proof.
  refine (inj_countable' (fun k => match k with dir_in => true | dir_out => false end)
    (fun b => if b : bool then dir_in else dir_out) _). by intros [].
Defined.

Record PeerReceiptRow := mkReceipt {
  actor_fp : jsstr;
  request_hash : jsstr;
  direction : Direction;
  r_epoch : Z;
  peer_fp : option jsstr;
  status : Z;
  timestamp_ms : Z;
  envelope_b64u : jsstr;
  observed_at_ms : Z;
}.

(** PRIMARY KEY (actor_fp, request_hash, direction). *)
Abbreviation receipts := (gmap (list Z * list Z * Direction) PeerReceiptRow).

Inductive BundleStatus := active | retired.
#[global] Instance BundleStatus_eq_dec : EqDecision BundleStatus.
Proof. solve_decision. Defined.

Record ActorCaBundleEntry := mkBundle {
  epoch : Z;
  signing_key_pubkey_b64u : jsstr;
  cert_der_b64u : option jsstr;
  issued_at_ms : Z;
  retired_at_ms : option Z;
  bundle_status : BundleStatus;
  compromise_notice_b64u : option jsstr;
  external_anchor_uri : option jsstr;
}.

(** epoch INTEGER PRIMARY KEY. *)
Abbreviation bundles := (gmap Z ActorCaBundleEntry).

Definition upsertPeerReceipt (t : receipts) (row : PeerReceiptRow) : receipts :=
  upsert (actor_fp row, request_hash row, direction row) row t.

Definition findPeerReceipt (t : receipts) (actorFp requestHash : jsstr) (dir : Direction)
    : option PeerReceiptRow := t !! (actorFp, requestHash, dir).

Definition DEFAULT_RECEIPT_RETENTION_MS : Z := 7 * 365 * 24 * 60 * 60 * 1000.

Definition ts_asc (a b : PeerReceiptRow) : Prop := timestamp_ms a <= timestamp_ms b.
#[global] Instance ts_asc_dec a b : Decision (ts_asc a b).
Proof. unfold ts_asc. apply _. Defined.

(** [lim] defaults to 100. *)
Definition listReceiptsForActorEpoch (t : receipts) (actorFp : jsstr) (e : Z)
    (lim : option Z) : list PeerReceiptRow :=
  limit (default 100 lim) (order_by ts_asc
    (select_where (fun _ r => bool_decide (actor_fp r = actorFp) && (r_epoch r =? e)) t)).

(** The subquery: [SELECT epoch FROM actor_ca_bundle WHERE status = 'retired' AND
    retired_at_ms IS NOT NULL AND (retired_at_ms + ?) < ?]. *)
Definition expired_epochs (b : bundles) (retentionMs nowMs : Z) : list Z :=
  map epoch (select_where (fun _ x =>
    bool_decide (bundle_status x = retired) &&
    match retired_at_ms x with Some at_ => at_ + retentionMs <? nowMs | None => false end) b).

(** [SELECT MIN(timestamp_ms)]. *)
Definition min_timestamp (t : receipts) : option Z :=
  foldr (fun r acc => Some (match acc with Some m => Z.min (timestamp_ms r) m
                                         | None => timestamp_ms r end))
    None (select_where (fun _ _ => true) t).

(** Returns [{ deleted, oldestRemainingMs }]. *)
Definition pruneExpiredReceipts (t : receipts) (b : bundles) (nowMs : Z)
    (retentionMs : option Z) : receipts * (Z * option Z) :=
  let eps := expired_epochs b (default DEFAULT_RECEIPT_RETENTION_MS retentionMs) nowMs in
  let '(t', deleted) := delete_where (fun _ r =>
      bool_decide (direction r = dir_out) && bool_decide (r_epoch r ∈ eps)) t in
  (t', (deleted, min_timestamp t')).

Definition upsertActorCaBundle (b : bundles) (row : ActorCaBundleEntry) : bundles :=
  upsert (epoch row) row b.

Definition getActorCaBundle (b : bundles) (e : Z) : option ActorCaBundleEntry := b !! e.

Definition epoch_desc (x y : ActorCaBundleEntry) : Prop := epoch y <= epoch x.
#[global] Instance epoch_desc_dec a b : Decision (epoch_desc a b).
Proof. unfold epoch_desc. apply _. Defined.

Definition listActorCaBundleEpochs (b : bundles) : list ActorCaBundleEntry :=
  order_by epoch_desc (select_where (fun _ _ => true) b).

Definition with_notice (notice : jsstr) (x : ActorCaBundleEntry) : ActorCaBundleEntry :=
  mkBundle (epoch x) (signing_key_pubkey_b64u x) (cert_der_b64u x) (issued_at_ms x)
    (retired_at_ms x) (bundle_status x) (Some notice) (external_anchor_uri x).

Definition attachCompromiseNotice (b : bundles) (compromisedEpoch : Z) (noticeB64u : jsstr)
    : bundles * bool :=
  match getActorCaBundle b compromisedEpoch with
  | None => (b, false)
  | Some _ => (update_row (with_notice noticeB64u) compromisedEpoch b, true)
  end.

(** ** Facts *)

Definition bundles_wf (b : bundles) : Prop := forall k x, b !! k = Some x -> epoch x = k.

#[global] Instance ts_asc_trans : Transitive ts_asc.
Proof. intros a b c. unfold ts_asc. lia. Qed.
#[global] Instance ts_asc_total : Total ts_asc.
Proof. intros a b. unfold ts_asc. lia. Qed.
#[global] Instance epoch_desc_trans : Transitive epoch_desc.
Proof. intros a b c. unfold epoch_desc. lia. Qed.
#[global] Instance epoch_desc_total : Total epoch_desc.
Proof. intros a b. unfold epoch_desc. lia. Qed.

(** An epoch is expired when it was retired more than the retention ago. *)
Definition expired (b : bundles) (retentionMs nowMs e : Z) : Prop :=
  exists x at_, b !! e = Some x /\ bundle_status x = retired /\
    retired_at_ms x = Some at_ /\ at_ + retentionMs < nowMs.

Lemma elem_of_expired_epochs b ret now e :
  bundles_wf b -> e ∈ expired_epochs b ret now <-> expired b ret now e.
Proof.
  intros Hw. unfold expired_epochs, expired. rewrite list_elem_of_fmap. split.
  - intros (x & -> & (k & Hk & Hb)%elem_of_select_where).
    apply andb_true_iff in Hb as [Hs%bool_decide_eq_true Ht].
    destruct (retired_at_ms x) as [a|] eqn:E; [|done]. apply Z.ltb_lt in Ht.
    rewrite (Hw _ _ Hk). eauto 6.
  - intros (x & a & Hk & Hs & Ha & Hlt). exists x. split; [symmetry; by apply Hw|].
    apply elem_of_select_where. exists e. split; [done|].
    rewrite bool_decide_true, Ha by done. by apply Z.ltb_lt.
Qed.

Lemma prune_lookup t b now ret k r :
  bundles_wf b ->
  (pruneExpiredReceipts t b now ret).1 !! k = Some r <->
  t !! k = Some r /\
  ~ (direction r = dir_out /\
     expired b (default DEFAULT_RECEIPT_RETENTION_MS ret) now (r_epoch r)).
Proof.
  intros Hw. unfold pruneExpiredReceipts.
  rewrite (surjective_pairing (delete_where _ t)). cbn [fst].
  rewrite delete_where_lookup, <- elem_of_expired_epochs by done.
  case_bool_decide; simpl; [case_bool_decide|]; naive_solver.
Qed.

Lemma prune_count t b now ret :
  (pruneExpiredReceipts t b now ret).2.1 +
  Z.of_nat (size (pruneExpiredReceipts t b now ret).1) = Z.of_nat (size t).
Proof.
  unfold pruneExpiredReceipts. rewrite (surjective_pairing (delete_where _ t)).
  cbn [fst snd]. apply delete_where_count.
Qed.

Lemma min_timestamp_spec t :
  match min_timestamp t with
  | None => t = ∅
  | Some m => (exists k r, t !! k = Some r /\ timestamp_ms r = m) /\
              forall k r, t !! k = Some r -> m <= timestamp_ms r
  end.
Proof.
  unfold min_timestamp.
  assert (Hin : forall r, r ∈ select_where (fun _ _ => true) t <-> exists k, t !! k = Some r).
  { intros r. rewrite elem_of_select_where. naive_solver. }
  assert (Hgen : forall l : list PeerReceiptRow,
    match foldr (fun r acc => Some (match acc with Some m => Z.min (timestamp_ms r) m
                                         | None => timestamp_ms r end)) None l with
    | None => l = []
    | Some m => (exists r, r ∈ l /\ timestamp_ms r = m) /\ forall r, r ∈ l -> m <= timestamp_ms r
    end).
  { induction l as [|x l IH]; [done|]. simpl.
    destruct (foldr _ None l) as [m|]; [destruct IH as [(r & Hr & Hm) Hall]|subst l].
    - split.
      + destruct (Z.min_spec (timestamp_ms x) m) as [[_ ->]|[_ ->]];
          [exists x|exists r]; rewrite elem_of_cons; auto.
      + intros y [->|Hy]%elem_of_cons; [lia|]. specialize (Hall y Hy). lia.
    - split; [exists x; rewrite elem_of_cons; auto|].
      intros y [->|Hy]%elem_of_cons; [lia|]. by apply not_elem_of_nil in Hy. }
  specialize (Hgen (select_where (fun _ _ => true) t)).
  destruct (foldr _ _ _) as [m|].
  - destruct Hgen as [(r & Hr & Hm) Hall]. apply Hin in Hr as [k Hk].
    split; [eauto|]. intros k' r' Hk'. apply Hall, Hin. eauto.
  - apply map_empty. intros k. destruct (t !! k) as [r|] eqn:E; [|done].
    exfalso. apply (not_elem_of_nil r). rewrite <- Hgen. apply Hin. eauto.
Qed.

Lemma bundles_wf_upsert b row : bundles_wf b -> bundles_wf (upsertActorCaBundle b row).
Proof.
  intros Hw k x. unfold upsertActorCaBundle, upsert. rewrite lookup_insert_Some. naive_solver.
Qed.

Lemma bundles_wf_attach b e n : bundles_wf b -> bundles_wf (attachCompromiseNotice b e n).1.
Proof.
  intros Hw k x. unfold attachCompromiseNotice, getActorCaBundle, update_row.
  destruct (b !! e) as [y|] eqn:E; simpl; [|apply Hw]. rewrite lookup_insert_Some.
  intros [[<- <-]|[_ H]]; [|by apply Hw]. simpl. by apply Hw.
Qed.


(** ** Properties *)

(** The retention sweep deletes exactly the expired receipts.  What remains is
    every incoming receipt and every outgoing one whose epoch is not in the archive
    as retired longer ago than the retention: an active or unknown epoch keeps its
    receipts at any age.  The count is exact and the reported horizon is the minimum
    timestamp left. *)
Theorem pruneExpiredReceipts_spec t b now ret :
  bundles_wf b ->
  let '(t', (deleted, oldest)) := pruneExpiredReceipts t b now ret in
  (forall k r, t' !! k = Some r <-> t !! k = Some r /\
     ~ (direction r = dir_out /\
        expired b (default DEFAULT_RECEIPT_RETENTION_MS ret) now (r_epoch r))) /\
  deleted + Z.of_nat (size t') = Z.of_nat (size t) /\
  match oldest with
  | None => t' = ∅
  | Some m => (exists k r, t' !! k = Some r /\ timestamp_ms r = m) /\
              forall k r, t' !! k = Some r -> m <= timestamp_ms r
  end.
Proof.
  intros Hw. destruct (pruneExpiredReceipts t b now ret) as [t' [d o]] eqn:E.
  split; [|split].
  - intros k r. pose proof (prune_lookup t b now ret k r Hw) as H. by rewrite E in H.
  - pose proof (prune_count t b now ret) as H. by rewrite E in H.
  - revert E. unfold pruneExpiredReceipts. rewrite (surjective_pairing (delete_where _ t)).
    intros [= <- <- <-]. apply min_timestamp_spec.
Qed.

Definition demo_bundle (e : Z) (s : BundleStatus) (at_ : option Z) : ActorCaBundleEntry :=
  mkBundle e [] None 0 at_ s None None.
Definition demo_receipt (h : jsstr) (e ts : Z) (d : Direction) : PeerReceiptRow :=
  mkReceipt (js "actor") h d e None 200 ts [] ts.

Lemma pruneExpiredReceipts_spec_witness :
  let b := upsertActorCaBundle (upsertActorCaBundle ∅ (demo_bundle 1 retired (Some 10)))
             (demo_bundle 2 active None) in
  let t := upsertPeerReceipt (upsertPeerReceipt ∅ (demo_receipt (js "a") 1 5 dir_out))
             (demo_receipt (js "b") 2 6 dir_out) in
  (pruneExpiredReceipts t b 200 (Some 100)).2 = (1, Some 6) /\
  (let '(t', (d, _)) := pruneExpiredReceipts t b 200 (Some 100) in
   d + Z.of_nat (size t') = Z.of_nat (size t)).
Proof.
  split; [vm_compute; reflexivity|].
  refine (proj1 (proj2 (pruneExpiredReceipts_spec _ _ 200 (Some 100) _))).
  apply bundles_wf_upsert, bundles_wf_upsert. intros k x Hk. by rewrite lookup_empty in Hk.
Defined.

(** Archive updates.  The archive keeps one entry per epoch; attaching a notice
    says whether the epoch exists, changes the notice of that epoch alone, and
    touches neither its status nor its retirement time; the listing is every entry,
    most recent epoch first. *)
Theorem attachCompromiseNotice_spec b e n :
  bundles_wf b ->
  let '(b', found) := attachCompromiseNotice b e n in
  (found = true <-> is_Some (b !! e)) /\
  (forall k, b' !! k = if decide (k = e) then with_notice n <$> b !! k else b !! k) /\
  bundles_wf b' /\ StronglySorted epoch_desc (listActorCaBundleEpochs b') /\
  (forall x, x ∈ listActorCaBundleEpochs b' <-> exists k, b' !! k = Some x).
Proof.
  intros Hw. pose proof (bundles_wf_attach b e n Hw) as Hw'.
  destruct (attachCompromiseNotice b e n) as [b' f] eqn:E. simpl in Hw'.
  revert E. unfold attachCompromiseNotice, getActorCaBundle, update_row.
  intros E. repeat split; try done.
  - destruct (b !! e); injection E as <- <-; naive_solver.
  - destruct (b !! e); injection E as <- <-; [done|]. by intros [? ?].
  - intros k. destruct (b !! e) as [x|] eqn:Eb; injection E as <- <-; case_decide; subst.
    + by rewrite lookup_insert_eq, Eb.
    + by rewrite lookup_insert_ne.
    + by rewrite Eb.
    + done.
  - apply (order_by_sorted epoch_desc).
  - unfold listActorCaBundleEpochs. rewrite elem_of_order_by, elem_of_select_where. naive_solver.
  - unfold listActorCaBundleEpochs. rewrite elem_of_order_by, elem_of_select_where. naive_solver.
Qed.

Lemma attachCompromiseNotice_spec_witness :
  let b := upsertActorCaBundle ∅ (demo_bundle 1 retired (Some 10)) in
  (attachCompromiseNotice b 1 (js "n")).2 = true /\
  bundles_wf (attachCompromiseNotice b 1 (js "n")).1.
Proof.
  split; [reflexivity|].
  assert (Hw : bundles_wf (upsertActorCaBundle ∅ (demo_bundle 1 retired (Some 10)))).
  { apply bundles_wf_upsert. intros k x Hk. by rewrite lookup_empty in Hk. }
  pose proof (attachCompromiseNotice_spec _ 1 (js "n") Hw) as H.
  exact (proj1 (proj2 (proj2 H))).
Defined.

End Receipts.
