(* ===== verification/TrustStore.v ===== *)
(** * TrustStore: the cluster-singleton Durable Object (src/trust-store.ts)

    The object's storage is the record of its eight tables, the alarm slot and the
    test-only fault map.  Every RPC method is a program over it in the monad of
    Prelude.v; the helpers of src/storage/ run on the table they own.  The last
    section models what two calls in flight do to each other, as a step relation:
    a call reads and digests first and writes later, and [blockConcurrencyWhile]
    is the gate that keeps other calls out in between. *)
From S2P Require Import Prelude.
From S2P Require Import JsString.
From S2P Require Import Sql.
From S2P Require Import Platform.
From S2P Require Import SeenNonces.
From S2P Require Import LeaseCounters.
From S2P Require Import Attestations.
From S2P Require Import PendingAttestations.
From S2P Require Import Registry.
From S2P Require Import Receipts.

Module TrustStore.

Inductive FaultKey := FK_applyAttestation | FK_blobStorePut | FK_beadStoreWrite.
#[global] Instance FaultKey_eq_dec : EqDecision FaultKey.
Proof. solve_decision. Defined.
#[global] Instance FaultKey_countable : Countable FaultKey.
Proof.
  refine (inj_countable' (fun k => match k with
      FK_applyAttestation => 0%nat | FK_blobStorePut => 1%nat | FK_beadStoreWrite => 2%nat end)
    (fun n => match n with O => FK_applyAttestation | 1%nat => FK_blobStorePut
                         | _ => FK_beadStoreWrite end) _). by intros [].
Defined.

(** [globalThis.__cloisterTestFaults]: absent in production; the flag is [failOnce]. *)
Abbreviation FaultInjectionMap := (option (gmap FaultKey bool)).

Record T := mkT {
  peer_lease_counters : LeaseCounters.table;
  seen_nonces : SeenNonces.table;
  pending_attestations : PendingAttestations.table;
  peer_attestations : Attestations.table;
  registry_tags : Registry.tags;
  registry_blob_membership : Registry.memberships;
  peer_receipts : Receipts.receipts;
  actor_ca_bundle : Receipts.bundles;
  alarm_at : option Z;
  faults : FaultInjectionMap;
}.

Definition empty : T := mkT ∅ ∅ ∅ ∅ ∅ ∅ ∅ ∅ None None.

Definition set_counters c (s : T) : T :=
  mkT c (seen_nonces s) (pending_attestations s) (peer_attestations s) (registry_tags s)
    (registry_blob_membership s) (peer_receipts s) (actor_ca_bundle s) (alarm_at s) (faults s).
Definition set_nonces n (s : T) : T :=
  mkT (peer_lease_counters s) n (pending_attestations s) (peer_attestations s) (registry_tags s)
    (registry_blob_membership s) (peer_receipts s) (actor_ca_bundle s) (alarm_at s) (faults s).
Definition set_pending p (s : T) : T :=
  mkT (peer_lease_counters s) (seen_nonces s) p (peer_attestations s) (registry_tags s)
    (registry_blob_membership s) (peer_receipts s) (actor_ca_bundle s) (alarm_at s) (faults s).
Definition set_attestations a (s : T) : T :=
  mkT (peer_lease_counters s) (seen_nonces s) (pending_attestations s) a (registry_tags s)
    (registry_blob_membership s) (peer_receipts s) (actor_ca_bundle s) (alarm_at s) (faults s).
Definition set_tags t (s : T) : T :=
  mkT (peer_lease_counters s) (seen_nonces s) (pending_attestations s) (peer_attestations s) t
    (registry_blob_membership s) (peer_receipts s) (actor_ca_bundle s) (alarm_at s) (faults s).
Definition set_memberships m (s : T) : T :=
  mkT (peer_lease_counters s) (seen_nonces s) (pending_attestations s) (peer_attestations s)
    (registry_tags s) m (peer_receipts s) (actor_ca_bundle s) (alarm_at s) (faults s).
Definition set_receipts r (s : T) : T :=
  mkT (peer_lease_counters s) (seen_nonces s) (pending_attestations s) (peer_attestations s)
    (registry_tags s) (registry_blob_membership s) r (actor_ca_bundle s) (alarm_at s) (faults s).
Definition set_bundles b (s : T) : T :=
  mkT (peer_lease_counters s) (seen_nonces s) (pending_attestations s) (peer_attestations s)
    (registry_tags s) (registry_blob_membership s) (peer_receipts s) b (alarm_at s) (faults s).
Definition set_alarm a (s : T) : T :=
  mkT (peer_lease_counters s) (seen_nonces s) (pending_attestations s) (peer_attestations s)
    (registry_tags s) (registry_blob_membership s) (peer_receipts s) (actor_ca_bundle s) a (faults s).
Definition set_faults f (s : T) : T :=
  mkT (peer_lease_counters s) (seen_nonces s) (pending_attestations s) (peer_attestations s)
    (registry_tags s) (registry_blob_membership s) (peer_receipts s) (actor_ca_bundle s)
    (alarm_at s) f.

(** What a method may throw. *)
Inductive exn :=
  | REPLAY_SENTINEL
  | SqlError (e : SqliteError)
  | SqlStatementFailed
  | ChainIntegrity (e : LeaseCounters.ChainIntegrityError).

Definition ALARM_INTERVAL_MS : Z := 60 * 60 * 1000.
Definition SEEN_NONCES_RETENTION_MS : Z := 60 * 60 * 1000.

(** Run a helper that returns a result against one table. *)
Definition lift {E A B} (err : E -> exn) (get : T -> A) (f : A -> result E B) : M T exn B :=
  fun s => match f (get s) with Ok b => (s, Ok b) | Throw e => (s, Throw (err e)) end.
Definition on {A B} (get : T -> A) (set : A -> T -> T) (f : A -> A * B) : M T exn B :=
  exec (fun s => let '(a, b) := f (get s) in (set a s, b)).

(** ** Alarm and sweeps *)

Definition checkAndConsumeFault (key : FaultKey) : M T exn bool :=
  exec (fun s =>
    match faults s with
    | None => (s, false)
    | Some m =>
        match m !! key with
        | None => (s, false)
        | Some failOnce =>
            if failOnce : bool then (set_faults (Some (delete key m)) s, true) else (s, false)
        end
    end).

Definition ensureAlarmScheduled (now : Z) : M T exn unit :=
  exec (fun s => match alarm_at s with
                 | Some _ => (s, tt)
                 | None => (set_alarm (Some (now + ALARM_INTERVAL_MS)) s, tt)
                 end).

(** Which statement of a sweep the storage engine fails, if any. *)
Record sweep_faults := mkSweepFaults {
  fail_prune_nonces : bool;
  fail_delete_receipts : bool;
  fail_min_timestamp : bool;
}.

Definition statement {A} (fails : bool) (m : M T exn A) : M T exn A :=
  if fails then throw SqlStatementFailed else m.

Definition pruneSeenNonces (fl : sweep_faults) (beforeTsMs : Z) : M T exn Z :=
  statement (fail_prune_nonces fl)
    (on seen_nonces set_nonces (fun t => SeenNonces.pruneSeenNoncesBefore t beforeTsMs)).

Definition pruneExpiredReceipts (fl : sweep_faults) (nowMs : Z) (retentionMs : option Z)
    : M T exn (Z * option Z) :=
  let* deleted := statement (fail_delete_receipts fl)
    (exec (fun s =>
       let '(t, (d, _)) := Receipts.pruneExpiredReceipts (peer_receipts s) (actor_ca_bundle s)
                             nowMs retentionMs in
       (set_receipts t s, d))) in
  let* oldest := statement (fail_min_timestamp fl)
    (read (fun s => Receipts.min_timestamp (peer_receipts s))) in
  ret (deleted, oldest).

(** What the handler logs: nonces deleted, receipts deleted, oldest remaining. *)
Definition alarm (fl : sweep_faults) (now now_end : Z) : M T exn (Z * Z * option Z) :=
  let* noncesDeleted := catch (pruneSeenNonces fl (now - SEEN_NONCES_RETENTION_MS))
                              (fun _ => ret 0) in
  let* '(receiptsDeleted, oldest) := catch (pruneExpiredReceipts fl now None)
                                           (fun _ => ret (0, None)) in
  do* exec (fun s => (set_alarm (Some (now_end + ALARM_INTERVAL_MS)) s, tt)) in
  ret (noncesDeleted, receiptsDeleted, oldest).

(** ** Lease counters and the replay ledger *)

Inductive VerifyResult :=
  | Replayed
  | Advanced (seq : Z) (last_chain_hash : jsstr).

Record lease_args := mkLease {
  la_peerFp : jsstr;
  la_certFp : jsstr;
  la_nonce : jsstr;
  la_ts : Z;
}.

Definition recordSeenNonce (certFp nonce : jsstr) (tsMs : Z) : M T exn bool :=
  on seen_nonces set_nonces (fun t => SeenNonces.recordSeenNonce t certFp nonce tsMs).

Section crypto.
Context `{Sha256}.

Definition upsertLeaseCounter (peerFp certFp nonce : jsstr) (ts : Z) : M T exn (Z * jsstr) :=
  let* r := lift ChainIntegrity peer_lease_counters
              (fun t => LeaseCounters.applyLeaseCounter t peerFp certFp nonce ts) in
  exec (fun s => (set_counters r.1 s, r.2)).

Definition getLeaseCounter (peerFp : jsstr) : M T exn (option LeaseCounters.PeerLeaseCounter) :=
  read (fun s => LeaseCounters.readLeaseCounter (peer_lease_counters s) peerFp).

(** The part before the transaction: one read, then the digest. *)
Definition computeStep (a : lease_args) : M T exn LeaseCounters.step :=
  lift ChainIntegrity peer_lease_counters (fun t =>
    LeaseCounters.computeNextLeaseStep t (la_peerFp a) (la_certFp a) (la_nonce a) (la_ts a)).

(** The transaction and the answer. *)
Definition commitStep (a : lease_args) (st : LeaseCounters.step) : M T exn VerifyResult :=
  let* replayed := catch
    (do* transactionSync
       (let* fresh := recordSeenNonce (la_certFp a) (la_nonce a) (la_ts a) in
        if fresh : bool then
          on peer_lease_counters set_counters (fun t =>
            (LeaseCounters.writeLeaseCounterRow t (la_peerFp a) (la_certFp a) (la_ts a)
               (LeaseCounters.step_seq st) (LeaseCounters.step_hash st), tt))
        else throw REPLAY_SENTINEL) in
     ret false)
    (fun err => match err with REPLAY_SENTINEL => ret true | _ => throw err end) in
  ret (if replayed : bool then Replayed
       else Advanced (LeaseCounters.step_seq st) (LeaseCounters.step_hash st)).

Definition verifyLeaseAndAdvanceChain (a : lease_args) : M T exn VerifyResult :=
  let* st := computeStep a in commitStep a st.

End crypto.

(** ** Attestations *)

Definition apply_helper (a : Attestations.args) : M T exn Attestations.ApplyAttestationResult :=
  let* r := lift SqlError peer_attestations (fun t => Attestations.applyAttestation t a) in
  exec (fun s => (set_attestations r.1 s, r.2)).

Definition applyAttestation (a : Attestations.args)
    : M T exn Attestations.ApplyAttestationResult :=
  let* fault := checkAndConsumeFault FK_applyAttestation in
  if fault : bool then ret (Attestations.PrevSelfRefMismatch None None)
  else apply_helper a.

Definition lastAttestationForPeer (p : jsstr) : M T exn (option Attestations.PeerAttestation) :=
  read (fun s => Attestations.lastAttestationForPeer (peer_attestations s) p).
Definition listAttestationsForPeer (p : jsstr) (fromSeq lim : option Z)
    : M T exn (list Attestations.PeerAttestation) :=
  read (fun s => Attestations.listAttestationsForPeer (peer_attestations s) p fromSeq lim).
Definition attestationsForBead (b : jsstr) : M T exn (list Attestations.PeerAttestation) :=
  read (fun s => Attestations.attestationsForBead (peer_attestations s) b).
Definition findAttestationByContent (p c : jsstr)
    : M T exn (option Attestations.PeerAttestation) :=
  read (fun s => Attestations.findAttestationByContent (peer_attestations s) p c).

(** [SELECT 1 ... LIMIT 1] on one table, then on the other. *)
Definition peerHasChain (p : jsstr) : M T exn bool :=
  let* attRow := read (fun s => limit 1 (select_where (fun _ r =>
    bool_decide (Attestations.peer_fingerprint r = p)) (peer_attestations s))) in
  if (0 <? length attRow)%nat then ret true else
  let* pendingRow := read (fun s => limit 1 (select_where (fun _ r =>
    bool_decide (PendingAttestations.peer_fp r = p)) (pending_attestations s))) in
  ret (0 <? length pendingRow)%nat.

(** ** The retry queue *)

Definition enqueuePendingAttestation (a : PendingAttestations.enqueue_args) : M T exn bool :=
  on pending_attestations set_pending (fun t => PendingAttestations.enqueuePending t a).
Definition commitPendingAttestation (p c : jsstr) : M T exn bool :=
  on pending_attestations set_pending (fun t => PendingAttestations.commitPending t p c).
Definition recordPendingFailedAttempt (p c : jsstr) (nowMs : Z) : M T exn (nat * option Z) :=
  on pending_attestations set_pending
    (fun t => PendingAttestations.recordFailedAttempt t p c nowMs).
Definition listPendingForPeer (p : jsstr) : M T exn (list PendingAttestations.PendingAttestation) :=
  read (fun s => PendingAttestations.listPendingForPeer (pending_attestations s) p).

(** The arguments of a retried write: [prevPeerRef] is null, and neither [beadId]
    nor [origins] is passed. *)
Definition retry_args (r : PendingAttestations.PendingAttestation) (contentType : jsstr)
    (prevSelfRef : option jsstr) (nowMs : Z) : Attestations.args :=
  Attestations.mkArgs (PendingAttestations.peer_fp r) (PendingAttestations.content_hash r)
    contentType (PendingAttestations.scope r) (PendingAttestations.cert r)
    (PendingAttestations.sig r) prevSelfRef None nowMs None None.

(** One turn of the loop; [true] counts as committed, [false] as failed. *)
Definition drain_row (contentType : jsstr) (nowMs : Z)
    (row : PendingAttestations.PendingAttestation) : M T exn bool :=
  let p := PendingAttestations.peer_fp row in
  let c := PendingAttestations.content_hash row in
  catch
    (let* head := lastAttestationForPeer p in
     let* result := apply_helper
       (retry_args row contentType (Attestations.content_hash <$> head) nowMs) in
     match result with
     | Attestations.Applied _ _ => do* commitPendingAttestation p c in ret true
     | Attestations.PrevSelfRefMismatch _ _ =>
         do* recordPendingFailedAttempt p c nowMs in ret false
     end)
    (fun _ => do* recordPendingFailedAttempt p c nowMs in ret false).

Fixpoint drain_rows (contentType : jsstr) (nowMs : Z)
    (batch : list PendingAttestations.PendingAttestation) : M T exn (Z * Z) :=
  match batch with
  | [] => ret (0, 0)
  | row :: batch' =>
      let* ok := drain_row contentType nowMs row in
      let* '(committed, failed) := drain_rows contentType nowMs batch' in
      ret (if ok : bool then (committed + 1, failed) else (committed, failed + 1))
  end.

(** Returns claimed, committed and failed. *)
Definition drainPendingRetries (nowMs : Z) (contentType : jsstr) (lim : option Z)
    : M T exn (Z * (Z * Z)) :=
  let* batch := read (fun s => PendingAttestations.claimRetryBatch (pending_attestations s) nowMs
                                 (Some (default 32 lim))) in
  let* counts := drain_rows contentType nowMs batch in
  ret (Z.of_nat (length batch), counts).

(** ** Registry, receipts and the bundle archive *)

Definition upsertRegistryTag (r tg d : jsstr) (nowMs : Z) : M T exn unit :=
  on registry_tags set_tags (fun t => (Registry.upsertTag t r tg d nowMs, tt)).
Definition getRegistryManifestDigestForTag (r tg : jsstr) : M T exn (option jsstr) :=
  read (fun s => Registry.getManifestDigestForTag (registry_tags s) r tg).
Definition listRegistryTagsForRepo (r : jsstr) : M T exn (list jsstr) :=
  read (fun s => Registry.listTagsForRepo (registry_tags s) r).
Definition listRegistryRepos : M T exn (list jsstr) :=
  read (fun s => Registry.listRepos (registry_tags s)).
Definition recordRegistryMembership (r d : jsstr) (kind : Registry.MembershipKind) (nowMs : Z)
    (peerFp : option jsstr) : M T exn unit :=
  on registry_blob_membership set_memberships
    (fun t => (Registry.recordMembership t r d kind nowMs peerFp, tt)).
Definition hasRegistryMembership (r d : jsstr) (kind : Registry.MembershipKind) : M T exn bool :=
  read (fun s => Registry.hasMembership (registry_blob_membership s) r d kind).
Definition listRegistryReposWithMembership (d : jsstr) : M T exn (list jsstr) :=
  read (fun s => Registry.listReposWithMembership (registry_blob_membership s) d).
Definition upsertReceipt (row : Receipts.PeerReceiptRow) : M T exn unit :=
  on peer_receipts set_receipts (fun t => (Receipts.upsertPeerReceipt t row, tt)).
Definition getReceipt (a h : jsstr) (dir : Receipts.Direction)
    : M T exn (option Receipts.PeerReceiptRow) :=
  read (fun s => Receipts.findPeerReceipt (peer_receipts s) a h dir).
Definition listReceiptsForActorEpoch (a : jsstr) (e : Z) (lim : option Z)
    : M T exn (list Receipts.PeerReceiptRow) :=
  read (fun s => Receipts.listReceiptsForActorEpoch (peer_receipts s) a e lim).
Definition upsertCaBundle (row : Receipts.ActorCaBundleEntry) : M T exn unit :=
  on actor_ca_bundle set_bundles (fun t => (Receipts.upsertActorCaBundle t row, tt)).
Definition getCaBundle (e : Z) : M T exn (option Receipts.ActorCaBundleEntry) :=
  read (fun s => Receipts.getActorCaBundle (actor_ca_bundle s) e).
Definition listCaBundleEpochs : M T exn (list Receipts.ActorCaBundleEntry) :=
  read (fun s => Receipts.listActorCaBundleEpochs (actor_ca_bundle s)).
Definition attachCompromiseNoticeToEpoch (e : Z) (n : jsstr) : M T exn bool :=
  on actor_ca_bundle set_bundles (fun t => Receipts.attachCompromiseNotice t e n).

(** ** Lemmas of the lease path *)

Section lease.
Context `{Sha256}.
Implicit Types (s : T) (a : lease_args).

Definition nonce_key (a : lease_args) : jsstr * jsstr := (la_certFp a, la_nonce a).

(** The storage after a fresh request. *)
Definition advanced a (st : LeaseCounters.step) s : T :=
  set_counters (LeaseCounters.writeLeaseCounterRow (peer_lease_counters s) (la_peerFp a)
                  (la_certFp a) (la_ts a) (LeaseCounters.step_seq st) (LeaseCounters.step_hash st))
    (set_nonces (<[nonce_key a := la_ts a]> (seen_nonces s)) s).

Lemma commitStep_spec a st s :
  commitStep a st s =
  match seen_nonces s !! nonce_key a with
  | Some _ => (s, Ok Replayed)
  | None => (advanced a st s, Ok (Advanced (LeaseCounters.step_seq st) (LeaseCounters.step_hash st)))
  end.
Proof.
  unfold commitStep, recordSeenNonce, on, SeenNonces.recordSeenNonce, insert_or_nothing,
    nonce_key. mrun. by destruct (seen_nonces s !! _).
Qed.

Lemma computeStep_spec a s :
  exists st, LeaseCounters.computeNextLeaseStep (peer_lease_counters s) (la_peerFp a)
               (la_certFp a) (la_nonce a) (la_ts a) = Ok st /\
             computeStep a s = (s, Ok st).
Proof.
  unfold computeStep, lift. rewrite LeaseCounters.computeNextLeaseStep_ok. eauto.
Qed.

Lemma verify_spec a s :
  exists st, verifyLeaseAndAdvanceChain a s =
    match seen_nonces s !! nonce_key a with
    | Some _ => (s, Ok Replayed)
    | None => (advanced a st s, Ok (Advanced (LeaseCounters.step_seq st) (LeaseCounters.step_hash st)))
    end.
Proof.
  destruct (computeStep_spec a s) as (sp & _ & E). exists sp.
  unfold verifyLeaseAndAdvanceChain, bind. by rewrite E, commitStep_spec.
Qed.

Definition obs_of a : LeaseCounters.observation :=
  LeaseCounters.mkObs (la_certFp a) (la_nonce a) (la_ts a).

(** ** Calls in flight *)

(** [inflight]: calls that have read and digested and wait to write, with the step
    they computed.  [answered]: the calls that returned, oldest first.  [sweeps]:
    the cutoffs of the replay-ledger sweeps so far. *)
Record node := mkNode {
  st : T;
  inflight : list (lease_args * LeaseCounters.step);
  answered : list (lease_args * VerifyResult);
  sweeps : list Z;
}.

Definition init : node := mkNode empty [] [] [].

(** [gated] is whether [blockConcurrencyWhile] keeps new calls out while one is in
    flight. *)
Inductive node_step (gated : bool) : node -> node -> Prop :=
  | step_begin n a sp :
      (gated = true -> inflight n = []) ->
      computeStep a (st n) = (st n, Ok sp) ->
      node_step gated n (mkNode (st n) (inflight n ++ [(a, sp)]) (answered n) (sweeps n))
  | step_finish n l1 l2 a sp s' res :
      inflight n = l1 ++ (a, sp) :: l2 ->
      commitStep a sp (st n) = (s', Ok res) ->
      node_step gated n (mkNode s' (l1 ++ l2) (answered n ++ [(a, res)]) (sweeps n))
  | step_sweep n cutoff s' d :
      pruneSeenNonces (mkSweepFaults false false false) cutoff (st n) = (s', Ok d) ->
      node_step gated n (mkNode s' (inflight n) (answered n) (cutoff :: sweeps n)).

Definition reachable (gated : bool) : node -> Prop := rtc (node_step gated) init.

(** The observations of [peer] among the accepted answers. *)
Definition accepted_log (l : list (lease_args * VerifyResult)) (peer : jsstr)
    : list LeaseCounters.observation :=
  omap (fun ar => match ar.2 with
                  | Advanced _ _ => if decide (la_peerFp ar.1 = peer) then Some (obs_of ar.1)
                                    else None
                  | Replayed => None
                  end) l.

Record linear (n : node) : Prop := {
  lin_counters :
    LeaseCounters.represents (peer_lease_counters (st n)) (accepted_log (answered n));
  lin_flight : forall a sp, (a, sp) ∈ inflight n ->
    inflight n = [(a, sp)] /\ computeStep a (st n) = (st n, Ok sp);
  lin_answers : forall i a q h, answered n !! i = Some (a, Advanced q h) ->
    let before := accepted_log (take i (answered n)) (la_peerFp a) in
    q = Z.of_nat (length before) + 1 /\ h = LeaseCounters.chain_head (before ++ [obs_of a]);
  lin_ledger : forall i a q h, answered n !! i = Some (a, Advanced q h) ->
    seen_nonces (st n) !! nonce_key a = Some (la_ts a) \/
    exists b, b ∈ sweeps n /\ la_ts a < b;
  lin_once : forall i j a a' q q' h h',
    (i < j)%nat -> answered n !! i = Some (a, Advanced q h) ->
    answered n !! j = Some (a', Advanced q' h') -> nonce_key a = nonce_key a' ->
    exists b, b ∈ sweeps n /\ la_ts a < b;
}.

Lemma accepted_log_snoc l a q h :
  forall p, accepted_log (l ++ [(a, Advanced q h)]) p =
            LeaseCounters.log_add (accepted_log l) (la_peerFp a) (obs_of a) p.
Proof.
  intros p. unfold accepted_log, LeaseCounters.log_add. rewrite omap_app. simpl.
  do 2 case_decide; subst; try done. by rewrite app_nil_r.
Qed.

Lemma accepted_log_replayed l a :
  forall p, accepted_log (l ++ [(a, Replayed)]) p = accepted_log l p.
Proof. intros p. unfold accepted_log. rewrite omap_app. simpl. by rewrite app_nil_r. Qed.

Lemma represents_ext (t : LeaseCounters.table) l l' :
  (forall p, l p = l' p) -> LeaseCounters.represents t l -> LeaseCounters.represents t l'.
Proof. intros E Hr p. rewrite <- E. apply Hr. Qed.

(** Looking up an answer after one more was added. *)
Lemma answered_snoc {A} (l : list A) x i y :
  (l ++ [x]) !! i = Some y -> (l !! i = Some y /\ take i (l ++ [x]) = take i l) \/
                               (i = length l /\ y = x /\ take i (l ++ [x]) = l).
Proof.
  intros [Hi|[Hlen Hi]]%lookup_app_Some.
  - left. pose proof (lookup_lt_Some _ _ _ Hi). by rewrite take_app_le by lia.
  - right. apply list_lookup_singleton_Some in Hi as [? <-].
    assert (i = length l) as -> by lia. by rewrite take_app_length.
Qed.

Lemma linear_init : linear init.
Proof.
  constructor; simpl.
  - apply LeaseCounters.lease_represents_empty.
  - by intros a sp Hin%not_elem_of_nil.
  - intros i a q h Hi. by rewrite lookup_nil in Hi.
  - intros i a q h Hi. by rewrite lookup_nil in Hi.
  - intros i j a a' q q' h h' _ Hi. by rewrite lookup_nil in Hi.
Qed.

Lemma linear_replayed n a sp l1 l2 :
  linear n -> inflight n = l1 ++ (a, sp) :: l2 ->
  linear (mkNode (st n) (l1 ++ l2) (answered n ++ [(a, Replayed)]) (sweeps n)).
Proof.
  intros [H1 H2 H3 H4 H5] E. assert (l1 ++ l2 = []) as ->.
  { destruct (H2 a sp) as [E' _]; [rewrite E; set_solver|].
    rewrite E in E'. destruct l1 as [|x [|]]; destruct l2; naive_solver. }
  constructor; simpl.
  - eapply represents_ext; [intros p; symmetry; apply accepted_log_replayed|done].
  - by intros ? ? Hin%not_elem_of_nil.
  - intros i b q h [[Hi ->]|(_ & [=] & _)]%answered_snoc. by apply H3.
  - intros i b q h [[Hi _]|(_ & [=] & _)]%answered_snoc. eauto.
  - intros i j b b' q q' h h' Hij [[Hi _]|(_ & [=] & _)]%answered_snoc
      [[Hj _]|(_ & [=] & _)]%answered_snoc. eauto.
Qed.

Lemma linear_advanced n a sp l1 l2 :
  linear n -> inflight n = l1 ++ (a, sp) :: l2 -> seen_nonces (st n) !! nonce_key a = None ->
  linear (mkNode (advanced a sp (st n)) (l1 ++ l2)
    (answered n ++ [(a, Advanced (LeaseCounters.step_seq sp) (LeaseCounters.step_hash sp))])
    (sweeps n)).
Proof.
  intros [H1 H2 H3 H4 H5] E Hfresh.
  destruct (H2 a sp) as [E' Hc]; [rewrite E; set_solver|].
  assert (l1 ++ l2 = []) as ->.
  { rewrite E in E'. destruct l1 as [|x [|]]; destruct l2; naive_solver. }
  unfold computeStep, lift in Hc. erewrite LeaseCounters.represents_step in Hc by done.
  injection Hc as <-. constructor; simpl.
  - eapply represents_ext; [intros p; symmetry; apply accepted_log_snoc|].
    by apply LeaseCounters.represents_write.
  - by intros ? ? Hin%not_elem_of_nil.
  - intros i b q h [[Hi ->]|(-> & [= <- -> ->] & ->)]%answered_snoc; [by apply H3|].
    split; [done|]. unfold LeaseCounters.chain_head at 2. by rewrite foldl_snoc.
  - intros i b q h [[Hi _]|(_ & [= <- _ _] & _)]%answered_snoc.
    + destruct (H4 _ _ _ _ Hi) as [Hs|?]; [left|by right].
      rewrite lookup_insert_ne; congruence.
    + left. by rewrite lookup_insert_eq.
  - intros i j b b' q q' h h' Hij [[Hi _]|(-> & _ & _)]%answered_snoc
      [[Hj _]|(-> & [= <- _ _] & _)]%answered_snoc Hk; [eauto| | |].
    + destruct (H4 _ _ _ _ Hi) as [Hs|?]; [congruence|done].
    + apply lookup_lt_Some in Hj. lia.
    + lia.
Qed.

Lemma linear_step n n' : node_step true n n' -> linear n -> linear n'.
Proof.
  intros Hs Hl. destruct Hs as [n a sp Hg Hc|n l1 l2 a sp s' res E Hc|n cut s' d Hc].
  - destruct Hl as [H1 H2 H3 H4 H5]. rewrite (Hg eq_refl). constructor; simpl; try done.
    intros b sb Hin%list_elem_of_singleton. by injection Hin as -> ->.
  - rewrite commitStep_spec in Hc. destruct (seen_nonces (st n) !! nonce_key a) eqn:En;
      injection Hc as <- <-; [by eapply linear_replayed|by eapply linear_advanced].
  - destruct Hl as [H1 H2 H3 H4 H5]. revert Hc. unfold pruneSeenNonces, on. mrun.
    intros [= <- _]. constructor; simpl; try done.
    + intros a sp Hin. destruct (H2 _ _ Hin) as [? Hc]. split; [done|]. revert Hc.
      unfold computeStep, lift. simpl. case_match; naive_solver.
    + intros i a q h Hi. destruct (H4 _ _ _ _ Hi) as [Hs|(b & ? & ?)].
      * destruct (Z.lt_ge_cases (la_ts a) cut); [right; exists cut; set_solver|left].
        by apply SeenNonces.prune_keeps.
      * right. exists b. set_solver.
    + intros i j a a' q q' h h' ? ? ? ?.
      destruct (H5 i j a a' q q' h h') as (b & ? & ?); [done..|]. exists b. set_solver.
Qed.

Lemma reachable_linear n : reachable true n -> linear n.
Proof.
  unfold reachable. intros Hn. pose proof linear_init as Hi.
  induction Hn as [|x y z Hs _ IH]; [done|]. eauto using linear_step.
Qed.

End lease.

(** ** Lemmas of the retry pump *)

Section drain.
Implicit Types (s : T) (r : PendingAttestations.PendingAttestation).
Abbreviation logs := (jsstr -> list Attestations.PeerAttestation).

(** The log after a retried write of [r]. *)
Definition retry_log (ct : jsstr) (now : Z) (log : logs) r : logs :=
  let p := PendingAttestations.peer_fp r in
  Attestations.log_add log
    (Attestations.new_row
       (retry_args r ct (Attestations.content_hash <$> last (log p)) now)
       (Z.of_nat (length (log p)) + 1)).

Lemma drain_row_spec ct now r s log :
  Attestations.represents (peer_attestations s) log ->
  exists t, drain_row ct now r s =
    (set_pending (PendingAttestations.commitPending (pending_attestations s)
       (PendingAttestations.peer_fp r) (PendingAttestations.content_hash r)).1
       (set_attestations t s), Ok true) /\
    Attestations.represents t (retry_log ct now log r).
Proof.
  intros Hr. set (p := PendingAttestations.peer_fp r).
  destruct (Attestations.applyAttestation_log _ _
    (retry_args r ct (Attestations.content_hash <$> last (log p)) now) Hr) as [Hok _].
  destruct (Hok eq_refl) as (t & Ht & Hrep). exists t. split; [|exact Hrep].
  unfold drain_row, lastAttestationForPeer, apply_helper, lift, commitPendingAttestation, on.
  mrun. fold p. rewrite (Attestations.lastAttestationForPeer_log _ _ p Hr), Ht. simpl.
  reflexivity.
Qed.

Lemma drain_rows_spec ct now batch s log :
  Attestations.represents (peer_attestations s) log ->
  exists s', drain_rows ct now batch s = (s', Ok (Z.of_nat (length batch), 0)) /\
    Attestations.represents (peer_attestations s') (foldl (retry_log ct now) log batch) /\
    (forall k x, pending_attestations s' !! k = Some x <->
       pending_attestations s !! k = Some x /\
       PendingAttestations.row_key x ∉ map PendingAttestations.row_key batch).
Proof.
  revert s log. induction batch as [|r batch IH]; intros s log Hr.
  - exists s. split; [done|]. split; [done|]. intros k x. simpl.
    split; [intros ?; split; [done|apply not_elem_of_nil]|by intros [? _]].
  - destruct (drain_row_spec ct now r s log Hr) as (t & Ht & Hrt).
    destruct (IH (set_pending (PendingAttestations.commitPending
      (pending_attestations s) (PendingAttestations.peer_fp r)
      (PendingAttestations.content_hash r)).1 (set_attestations t s)) _ Hrt)
      as (s' & Hs & Hlog & Hp).
    exists s'. cbn [drain_rows]. unfold bind. rewrite Ht, Hs. split; [|split; [done|]].
    + unfold ret. do 2 f_equal. f_equal. cbn [length]. lia.
    + intros k x. rewrite Hp. cbn [set_pending pending_attestations map].
      rewrite PendingAttestations.commit_lookup, not_elem_of_cons.
      change (PendingAttestations.peer_fp r, PendingAttestations.content_hash r)
        with (PendingAttestations.row_key r). tauto.
Qed.

(** Every row the pump appends makes no claim about a bead or about origins. *)
Lemma retry_log_rows ct now batch log p x :
  x ∈ foldl (retry_log ct now) log batch p -> x ∈ log p \/
    (Attestations.bead_id x = None /\ Attestations.origins x = None).
Proof.
  revert log. induction batch as [|r batch IH]; intros log Hx; [by left|].
  destruct (IH _ Hx) as [Hin|?]; [|by right].
  unfold retry_log, Attestations.log_add in Hin. case_decide; [|by left].
  apply elem_of_app in Hin as [?|Hin]; [by left|right].
  apply list_elem_of_singleton in Hin as ->. done.
Qed.

End drain.

(** ** Lemmas of the alarm *)

(** The storage as one method: the methods that never touch the alarm or a sweep
    leave the alarm slot alone, so the cadence only ever moves forward. *)
Lemma ensureAlarm_spec now s :
  ensureAlarmScheduled now s =
  (match alarm_at s with
   | Some _ => s
   | None => set_alarm (Some (now + ALARM_INTERVAL_MS)) s
   end, Ok tt).
Proof. unfold ensureAlarmScheduled. mrun. by destruct (alarm_at s). Qed.

Lemma alarm_effect fl now now_end s :
  exists s' out, alarm fl now now_end s = (s', Ok out) /\
    alarm_at s' = Some (now_end + ALARM_INTERVAL_MS) /\
    seen_nonces s' =
      (if fail_prune_nonces fl then seen_nonces s
       else (SeenNonces.pruneSeenNoncesBefore (seen_nonces s)
               (now - SEEN_NONCES_RETENTION_MS)).1) /\
    peer_receipts s' =
      (if fail_delete_receipts fl then peer_receipts s
       else (Receipts.pruneExpiredReceipts (peer_receipts s) (actor_ca_bundle s) now None).1) /\
    peer_lease_counters s' = peer_lease_counters s /\
    peer_attestations s' = peer_attestations s /\
    pending_attestations s' = pending_attestations s /\
    actor_ca_bundle s' = actor_ca_bundle s.
Proof.
  destruct fl as [[] [] []]; unfold alarm, pruneSeenNonces, pruneExpiredReceipts, on, statement;
    mrun; repeat (case_match; simplify_eq/=);
    do 2 eexists; repeat split.
Qed.

(** ** Runs of methods, for the retention window of the replay ledger *)

Section runs.
Context `{Sha256}.

(** Every method that can write, the alarm handler and the constructor's alarm. *)
Inductive op :=
  | op_verify (a : lease_args)
  | op_record (certFp nonce : jsstr) (ts : Z)
  | op_alarm (fl : sweep_faults) (now now_end : Z)
  | op_apply (a : Attestations.args)
  | op_drain (now : Z) (contentType : jsstr) (lim : option Z)
  | op_start (now : Z)
  | op_prune (fl : sweep_faults) (beforeTsMs : Z)
  | op_upsertLeaseCounter (peerFp certFp nonce : jsstr) (ts : Z)
  | op_enqueue (a : PendingAttestations.enqueue_args)
  | op_commitPending (peerFp contentHash : jsstr)
  | op_failedAttempt (peerFp contentHash : jsstr) (now : Z)
  | op_tag (repo tag digest : jsstr) (now : Z)
  | op_membership (repo digest : jsstr) (kind : Registry.MembershipKind) (now : Z) (peerFp : option jsstr)
  | op_receipt (row : Receipts.PeerReceiptRow)
  | op_pruneReceipts (fl : sweep_faults) (now : Z) (retentionMs : option Z)
  | op_bundle (row : Receipts.ActorCaBundleEntry)
  | op_notice (epoch : Z) (noticeB64u : jsstr).

Definition run_op (o : op) (s : T) : T :=
  match o with
  | op_verify a => (verifyLeaseAndAdvanceChain a s).1
  | op_record c n ts => (recordSeenNonce c n ts s).1
  | op_alarm fl now now_end => (alarm fl now now_end s).1
  | op_apply a => (applyAttestation a s).1
  | op_drain now ct lim => (drainPendingRetries now ct lim s).1
  | op_start now => (ensureAlarmScheduled now s).1
  | op_prune fl before => (pruneSeenNonces fl before s).1
  | op_upsertLeaseCounter p c n ts => (upsertLeaseCounter p c n ts s).1
  | op_enqueue a => (enqueuePendingAttestation a s).1
  | op_commitPending p c => (commitPendingAttestation p c s).1
  | op_failedAttempt p c now => (recordPendingFailedAttempt p c now s).1
  | op_tag r t d now => (upsertRegistryTag r t d now s).1
  | op_membership r d k now p => (recordRegistryMembership r d k now p s).1
  | op_receipt row => (upsertReceipt row s).1
  | op_pruneReceipts fl now ret => (pruneExpiredReceipts fl now ret s).1
  | op_bundle row => (upsertCaBundle row s).1
  | op_notice e n => (attachCompromiseNoticeToEpoch e n s).1
  end.

(** The cutoff of a sweep or a prune: pairs recorded before it are dropped. *)
Definition cutoff (o : op) : option Z :=
  match o with op_alarm _ now _ => Some (now - SEEN_NONCES_RETENTION_MS) | op_prune _ before => Some before | _ => None end.

(** An operation that keeps the pairs recorded at [ts]. *)
Definition sweeps_before (ts : Z) (o : op) : Prop := match cutoff o with Some before => before <= ts | None => True end.

Lemma apply_helper_nonces a s : seen_nonces (apply_helper a s).1 = seen_nonces s.
Proof. unfold apply_helper, lift. mrun. by repeat (case_match; simplify_eq/=). Qed.

Lemma drain_row_nonces ct now r s : seen_nonces (drain_row ct now r s).1 = seen_nonces s.
Proof.
  unfold drain_row, apply_helper, lift, lastAttestationForPeer, commitPendingAttestation,
    recordPendingFailedAttempt, on. mrun. by repeat (case_match; simplify_eq/=).
Qed.

Lemma drain_rows_nonces ct now batch s :
  seen_nonces (drain_rows ct now batch s).1 = seen_nonces s.
Proof.
  revert s. induction batch as [|r batch IH]; intros s; [done|]. cbn [drain_rows].
  unfold bind. pose proof (drain_row_nonces ct now r s) as Hr.
  destruct (drain_row ct now r s) as [s1 [ok|e]]; simpl in *; [|done].
  specialize (IH s1). destruct (drain_rows ct now batch s1) as [s2 [[c f]|e]];
    simpl in *; destruct (ok : bool); simpl; congruence.
Qed.

Lemma drain_nonces now ct lim s :
  seen_nonces (drainPendingRetries now ct lim s).1 = seen_nonces s.
Proof.
  unfold drainPendingRetries, bind, read, ret.
  set (b := PendingAttestations.claimRetryBatch _ _ _).
  pose proof (drain_rows_nonces ct now b s) as Hd.
  destruct (drain_rows ct now b s) as [s' [c|e]]; done.
Qed.

Lemma on_nonces {A B} (get : T -> A) set (f : A -> A * B) s :
  (forall x t, seen_nonces (set x t) = seen_nonces t) -> seen_nonces (on get set f s).1 = seen_nonces s.
Proof. intros Hs. unfold on, exec. destruct (f (get s)). apply Hs. Qed.

Lemma pruneReceipts_nonces fl now r s : seen_nonces (pruneExpiredReceipts fl now r s).1 = seen_nonces s.
Proof. unfold pruneExpiredReceipts, statement. mrun. by repeat (case_match; simplify_eq/=). Qed.

Lemma upsertLeaseCounter_nonces p c n ts s : seen_nonces (upsertLeaseCounter p c n ts s).1 = seen_nonces s.
Proof. unfold upsertLeaseCounter, lift. mrun. by repeat (case_match; simplify_eq/=). Qed.

Lemma prune_nonces fl before s :
  seen_nonces (pruneSeenNonces fl before s).1 =
    if fail_prune_nonces fl then seen_nonces s else (SeenNonces.pruneSeenNoncesBefore (seen_nonces s) before).1.
Proof. unfold pruneSeenNonces, statement, on. destruct (fail_prune_nonces fl); mrun; [done|done]. Qed.

(** No method but a sweep or a prune removes a recorded pair. *)
Lemma run_op_nonce o s c n ts :
  sweeps_before ts o -> seen_nonces s !! (c, n) = Some ts ->
  seen_nonces (run_op o s) !! (c, n) = Some ts.
Proof.
  intros Hb Hs. destruct o as [a|c' n' ts'|fl now now_end|a|now ct lim| |fl before|p' c' n' ts'| |p' c'|p' c' t'| | | |fl now r| |e x];
    cbn [run_op]; unfold sweeps_before in Hb; cbn [cutoff] in Hb.
  - unfold verifyLeaseAndAdvanceChain, bind.
    destruct (computeStep_spec a s) as (sp & _ & ->). rewrite commitStep_spec.
    destruct (seen_nonces s !! nonce_key a) eqn:E; [done|]. simpl.
    rewrite lookup_insert_ne; [done|]. congruence.
  - unfold recordSeenNonce, on. mrun. rewrite (surjective_pairing (SeenNonces.recordSeenNonce _ _ _ _)).
    by apply SeenNonces.record_keeps.
  - destruct (alarm_effect fl now now_end s) as (s' & out & -> & _ & En & _).
    simpl. rewrite En. case_match; [done|]. by apply SeenNonces.prune_keeps.
  - unfold applyAttestation, checkAndConsumeFault. mrun.
    repeat (case_match; simplify_eq/=; try done);
    rewrite apply_helper_nonces; done.
  - by rewrite drain_nonces.
  - unfold ensureAlarmScheduled, exec. by destruct (alarm_at s).
  - rewrite prune_nonces. case_match; [done|]. by apply SeenNonces.prune_keeps.
  - by rewrite upsertLeaseCounter_nonces.
  - etrans; [apply (f_equal (lookup _)), on_nonces; done|exact Hs].
  - etrans; [apply (f_equal (lookup _)), on_nonces; done|exact Hs].
  - etrans; [apply (f_equal (lookup _)), on_nonces; done|exact Hs].
  - done.
  - done.
  - done.
  - by rewrite pruneReceipts_nonces.
  - done.
  - etrans; [apply (f_equal (lookup _)), on_nonces; done|exact Hs].
Qed.

Lemma run_ops_nonce ops s c n ts :
  Forall (sweeps_before ts) ops -> seen_nonces s !! (c, n) = Some ts ->
  seen_nonces (foldl (fun s o => run_op o s) s ops) !! (c, n) = Some ts.
Proof.
  intros Hf. revert s. induction Hf as [|o ops Ho _ IH]; intros s Hs; simpl; [done|].
  by apply IH, run_op_nonce.
Qed.

End runs.

(** ** Properties *)

Section properties.
Context `{Sha256}.

(** The replay check and the chain step are one transaction.  When the pair
    (certificate, nonce) was seen, the call answers "replayed" and the whole storage
    is unchanged; otherwise the pair is recorded, and the peer's counter becomes the
    next link of the hash chain over the peer's observations. *)
Theorem verifyLease_atomic a s log :
  LeaseCounters.represents (peer_lease_counters s) log ->
  let n := Z.of_nat (length (log (la_peerFp a))) in
  let h := LeaseCounters.chain_next (LeaseCounters.chain_head (log (la_peerFp a))) (obs_of a) in
  match seen_nonces s !! nonce_key a with
  | Some _ => verifyLeaseAndAdvanceChain a s = (s, Ok Replayed)
  | None =>
      exists s', verifyLeaseAndAdvanceChain a s = (s', Ok (Advanced (n + 1) h)) /\
        seen_nonces s' = <[nonce_key a := la_ts a]> (seen_nonces s) /\
        LeaseCounters.represents (peer_lease_counters s')
          (LeaseCounters.log_add log (la_peerFp a) (obs_of a))
  end.
Proof.
  intros Hr n h. unfold verifyLeaseAndAdvanceChain, bind, computeStep, lift.
  rewrite (LeaseCounters.represents_step _ log) by done. rewrite commitStep_spec.
  destruct (seen_nonces s !! nonce_key a); [done|]. eexists. split; [reflexivity|].
  split; [reflexivity|]. by apply LeaseCounters.represents_write.
Qed.

(** C3: under [blockConcurrencyWhile] concurrent calls are linearizable.  Whatever
    the interleaving of calls and sweeps, the counter table is the hash chain of the
    accepted calls in the order they were answered, every accepted call got the
    sequence number and the head of its place in that order, and two accepted calls
    never carry the same (certificate, nonce) unless a sweep with a later cutoff ran. *)
Theorem gated_calls_linearizable n :
  reachable true n ->
  LeaseCounters.represents (peer_lease_counters (st n)) (accepted_log (answered n)) /\
  (forall i a q h, answered n !! i = Some (a, Advanced q h) ->
    let before := accepted_log (take i (answered n)) (la_peerFp a) in
    q = Z.of_nat (length before) + 1 /\ h = LeaseCounters.chain_head (before ++ [obs_of a])) /\
  (forall i j a a' q q' h h', (i < j)%nat ->
    answered n !! i = Some (a, Advanced q h) -> answered n !! j = Some (a', Advanced q' h') ->
    nonce_key a = nonce_key a' -> exists b, b ∈ sweeps n /\ la_ts a < b).
Proof. intros [H1 _ H3 _ H5]%reachable_linear. auto. Qed.

(** The gate is what prevents a fork.  Without it two calls of one peer with
    different nonces can both be accepted with sequence number 1, and the counter
    then stands at 1 after two accepted observations. *)
Theorem ungated_calls_fork (peer cert n1 n2 : jsstr) (t1 t2 : Z) :
  n1 <> n2 ->
  let a1 := mkLease peer cert n1 t1 in
  let a2 := mkLease peer cert n2 t2 in
  exists n h1 h2, reachable false n /\
    answered n = [(a1, Advanced 1 h1); (a2, Advanced 1 h2)] /\
    LeaseCounters.seq <$> peer_lease_counters (st n) !! peer = Some 1.
Proof.
  intros Hne a1 a2.
  destruct (computeStep_spec a1 empty) as (sp1 & E1 & C1).
  destruct (computeStep_spec a2 empty) as (sp2 & E2 & C2).
  rewrite LeaseCounters.computeNextLeaseStep_ok in E1, E2. simpl in E1, E2.
  rewrite lookup_empty in E1, E2. simpl in E1, E2.
  set (s1 := advanced a1 sp1 empty). set (s2 := advanced a2 sp2 s1).
  assert (F1 : commitStep a1 sp1 empty =
    (s1, Ok (Advanced (LeaseCounters.step_seq sp1) (LeaseCounters.step_hash sp1)))).
  { rewrite commitStep_spec. unfold empty at 1. simpl. by rewrite lookup_empty. }
  assert (F2 : commitStep a2 sp2 s1 =
    (s2, Ok (Advanced (LeaseCounters.step_seq sp2) (LeaseCounters.step_hash sp2)))).
  { rewrite commitStep_spec. unfold s1 at 1, advanced, nonce_key. simpl.
    rewrite lookup_insert_ne by congruence. by rewrite lookup_empty. }
  injection E1 as <-. injection E2 as <-. simpl in F1, F2.
  exists (mkNode s2 []
    [(a1, Advanced 1 (LeaseCounters.nextChainHash LeaseCounters.ZERO_HASH cert n1 t1));
     (a2, Advanced 1 (LeaseCounters.nextChainHash LeaseCounters.ZERO_HASH cert n2 t2))] []).
  do 2 eexists.
  split; [|split; [reflexivity|]].
  - unfold reachable.
    eapply rtc_l; [apply (step_begin false init a1 _ (fun e => match Bool.diff_false_true e with end) C1)|].
    eapply rtc_l; [eapply (step_begin false (mkNode empty [_] [] []) a2 _
      (fun e => match Bool.diff_false_true e with end) C2)|].
    eapply rtc_l; [eapply (step_finish false (mkNode empty [_; _] [] []) [] [_] a1 _ _ _ eq_refl F1)|].
    eapply rtc_l; [eapply (step_finish false (mkNode s1 [_] [_] []) [] [] a2 _ _ _ eq_refl F2)|].
    apply rtc_refl.
  - simpl. unfold LeaseCounters.writeLeaseCounterRow, upsert. by rewrite lookup_insert_eq.
Qed.

(** A nonce accepted at time [ts] is rejected as a replay for the whole retention
    hour.  After any run of methods whose alarms all fire at most an hour after [ts]
    (failing or not) and whose prunes ask for no later cutoff, presenting the pair
    again answers "replayed" and changes nothing. *)
Theorem replay_rejected_within_retention (a b : lease_args) (ops : list op) (s s' : T) q h :
  verifyLeaseAndAdvanceChain a s = (s', Ok (Advanced q h)) ->
  Forall (sweeps_before (la_ts a)) ops ->
  nonce_key b = nonce_key a ->
  let s'' := foldl (fun s o => run_op o s) s' ops in
  verifyLeaseAndAdvanceChain b s'' = (s'', Ok Replayed).
Proof.
  intros Hv Hops Hk s''.
  assert (Hs : seen_nonces s' !! nonce_key a = Some (la_ts a)).
  { revert Hv. unfold verifyLeaseAndAdvanceChain, bind.
    destruct (computeStep_spec a s) as (sp & _ & ->). rewrite commitStep_spec.
    case_match; intros [=]; subst. by apply lookup_insert_eq. }
  assert (Hs2 : seen_nonces s'' !! nonce_key a = Some (la_ts a)) by by apply run_ops_nonce.
  unfold verifyLeaseAndAdvanceChain, bind.
  destruct (computeStep_spec b s'') as (sp & _ & ->). rewrite commitStep_spec, Hk.
  by rewrite Hs2.
Qed.

End properties.

(** A failing sweep costs neither the other sweep nor the cadence.  Whichever
    statements the engine fails, the handler returns, the next alarm is set one
    interval ahead, each sweep whose own statement did not fail took effect, and no
    other table changed. *)
Theorem alarm_reschedules fl now now_end s :
  exists s' out, alarm fl now now_end s = (s', Ok out) /\
    alarm_at s' = Some (now_end + ALARM_INTERVAL_MS) /\
    seen_nonces s' =
      (if fail_prune_nonces fl then seen_nonces s
       else (SeenNonces.pruneSeenNoncesBefore (seen_nonces s)
               (now - SEEN_NONCES_RETENTION_MS)).1) /\
    peer_receipts s' =
      (if fail_delete_receipts fl then peer_receipts s
       else (Receipts.pruneExpiredReceipts (peer_receipts s) (actor_ca_bundle s) now None).1) /\
    peer_lease_counters s' = peer_lease_counters s /\
    peer_attestations s' = peer_attestations s /\
    pending_attestations s' = pending_attestations s /\
    actor_ca_bundle s' = actor_ca_bundle s.
Proof. apply alarm_effect. Qed.

(** C8: the retry pump commits everything it claims.  On a storage whose chains are
    intact, a drain reports claimed = committed and failed = 0; every claimed row is
    appended to its peer's chain in batch order, linked to the head at that moment;
    and exactly the claimed rows leave the queue. *)
Theorem drain_commits_batch now ct lim s log :
  Attestations.represents (peer_attestations s) log ->
  let batch := PendingAttestations.claimRetryBatch (pending_attestations s) now
                 (Some (default 32 lim)) in
  exists s', drainPendingRetries now ct lim s =
      (s', Ok (Z.of_nat (length batch), (Z.of_nat (length batch), 0))) /\
    Attestations.represents (peer_attestations s') (foldl (retry_log ct now) log batch) /\
    (forall k x, pending_attestations s' !! k = Some x <->
       pending_attestations s !! k = Some x /\
       PendingAttestations.row_key x ∉ map PendingAttestations.row_key batch).
Proof.
  intros Hr batch. destruct (drain_rows_spec ct now batch s log Hr) as (s' & Hs & Hrest).
  exists s'. split; [|done]. unfold drainPendingRetries, bind, read, ret. fold batch.
  by rewrite Hs.
Qed.

(** A retried attestation is lost to the bead audit.  The pump passes neither the
    bead id nor the origins, so no drain ever adds a row to what
    [attestationsForBead] returns for any bead. *)
Theorem drain_invisible_to_bead_audit now ct lim s log b x :
  Attestations.represents (peer_attestations s) log ->
  x ∈ Attestations.attestationsForBead
        (peer_attestations (drainPendingRetries now ct lim s).1) b ->
  x ∈ Attestations.attestationsForBead (peer_attestations s) b.
Proof.
  intros Hr. unfold Attestations.attestationsForBead. rewrite !elem_of_order_by.
  rewrite !elem_of_select_where. intros (k & Hk & Hb%bool_decide_eq_true).
  set (batch := PendingAttestations.claimRetryBatch (pending_attestations s) now
                  (Some (default 32 lim))).
  destruct (drain_rows_spec ct now batch s log Hr) as (s' & Hs & Hlog & _).
  unfold drainPendingRetries, bind, read, ret in Hk. fold batch in Hk. rewrite Hs in Hk.
  simpl in Hk. pose proof (proj2 (Attestations.rep_elem _ _ (Attestations.peer_fingerprint x)
    x Hlog) (ex_intro _ k (conj Hk eq_refl))) as Hin.
  apply retry_log_rows in Hin as [Hin|[Hn _]]; [|congruence].
  apply (Attestations.rep_elem _ _ _ _ Hr) in Hin as (k' & Hk' & _).
  exists k'. split; [done|]. by apply bool_decide_eq_true.
Qed.

(** The disclosure gate says exactly whether the peer has any evidence: a row of
    its chain, or a row waiting in the retry queue. *)
Theorem peerHasChain_iff s log p :
  Attestations.represents (peer_attestations s) log ->
  exists b, peerHasChain p s = (s, Ok b) /\
    (b = true <-> log p <> [] \/
       exists k r, pending_attestations s !! k = Some r /\ PendingAttestations.peer_fp r = p).
Proof.
  intros Hr. unfold peerHasChain. mrun.
  assert (Hlim : forall {A} (l : list A), (0 <? length (limit 1 l))%nat = true <-> exists x, x ∈ l).
  { intros A [|x l]; unfold limit; simpl; split; try done.
    - intros [x Hx]. by apply not_elem_of_nil in Hx.
    - intros _. exists x. set_solver. }
  assert (Hatt : forall x, x ∈ select_where (fun _ y => bool_decide
    (Attestations.peer_fingerprint y = p)) (peer_attestations s) <-> x ∈ log p).
  { intros x. rewrite elem_of_select_where, (Attestations.rep_elem _ _ _ _ Hr).
    split; intros (k & Hk & Hb); exists k; split; try done;
      by apply bool_decide_eq_true in Hb || by apply bool_decide_eq_true. }
  destruct (0 <? length (limit 1 (select_where (fun _ y => bool_decide
    (Attestations.peer_fingerprint y = p)) (peer_attestations s))))%nat eqn:E.
  - exists true. split; [done|]. apply Hlim in E as [x Hx%Hatt]. split; [|done].
    intros _. left. intros En. rewrite En in Hx. by apply not_elem_of_nil in Hx.
  - eexists. split; [reflexivity|]. rewrite Hlim. split.
    + intros [x (k & Hk & Hb%bool_decide_eq_true)%elem_of_select_where]. eauto.
    + intros [Hn|(k & x & Hk & Hp)].
      * exfalso. apply not_true_iff_false in E. apply E, Hlim.
        destruct (log p) as [|x l] eqn:El; [done|]. exists x. apply Hatt. rewrite ?El. apply list_elem_of_here.
      * exists x. apply elem_of_select_where. exists k. split; [done|].
        by apply bool_decide_eq_true.
Qed.


(** ** Witnesses *)

#[local] Existing Instance demo_sha256.

Definition demo_a (n : jsstr) (t : Z) : lease_args := mkLease (js "peer") (js "cert") n t.
(** The storage after one accepted request. *)
Definition demo_s : T := (verifyLeaseAndAdvanceChain (demo_a (js "n1") 5) empty).1.

Definition demo_result : VerifyResult :=
  match (verifyLeaseAndAdvanceChain (demo_a (js "n1") 5) empty).2 with
  | Ok r => r | Throw _ => Replayed end.

Lemma verifyLease_atomic_witness :
  LeaseCounters.represents (peer_lease_counters empty) (fun _ => []) /\
  exists s', verifyLeaseAndAdvanceChain (demo_a (js "n1") 5) empty =
    (s', Ok (Advanced 1 (LeaseCounters.chain_next (LeaseCounters.chain_head [])
                           (obs_of (demo_a (js "n1") 5))))).
Proof.
  split; [apply LeaseCounters.lease_represents_empty|].
  destruct (verifyLease_atomic (demo_a (js "n1") 5) empty (fun _ => [])
              LeaseCounters.lease_represents_empty) as (s' & E & _).
  exists s'. exact E.
Defined.

(** A node reached by one whole call. *)
Definition demo_node : node := mkNode demo_s [] [(demo_a (js "n1") 5, demo_result)] [].

Lemma demo_reachable : reachable true demo_node.
Proof.
  unfold reachable. destruct (computeStep_spec (demo_a (js "n1") 5) empty) as (sp & _ & C).
  eapply rtc_l; [apply (step_begin true init (demo_a (js "n1") 5) sp (fun _ => eq_refl) C)|].
  eapply rtc_l; [|apply rtc_refl].
  apply (step_finish true (mkNode empty [(demo_a (js "n1") 5, sp)] [] []) [] []
           (demo_a (js "n1") 5) sp demo_s demo_result eq_refl).
  unfold demo_s, demo_result, verifyLeaseAndAdvanceChain, bind. rewrite C.
  simpl. rewrite commitStep_spec. reflexivity.
Qed.

Lemma gated_calls_linearizable_witness :
  reachable true demo_node /\
  LeaseCounters.represents (peer_lease_counters (st demo_node)) (accepted_log (answered demo_node)).
Proof.
  split; [exact demo_reachable|].
  exact (proj1 (gated_calls_linearizable demo_node demo_reachable)).
Defined.

Lemma ungated_calls_fork_witness :
  js "n1" <> js "n2" /\
  exists n h1 h2, reachable false n /\
    answered n = [(demo_a (js "n1") 1, Advanced 1 h1); (demo_a (js "n2") 2, Advanced 1 h2)].
Proof.
  split; [discriminate|].
  destruct (ungated_calls_fork (js "peer") (js "cert") (js "n1") (js "n2") 1 2 ltac:(discriminate))
    as (n & h1 & h2 & Hr & Ha & _).
  exists n, h1, h2. split; [exact Hr|exact Ha].
Defined.

Lemma replay_rejected_within_retention_witness :
  let s := foldl (fun s o => run_op o s) demo_s
             [op_alarm (mkSweepFaults false false true) 3600005 3600006] in
  verifyLeaseAndAdvanceChain (demo_a (js "n1") 9) s = (s, Ok Replayed).
Proof.
  apply (replay_rejected_within_retention (demo_a (js "n1") 5) (demo_a (js "n1") 9)
    [op_alarm (mkSweepFaults false false true) 3600005 3600006] empty demo_s 1
    (LeaseCounters.chain_next LeaseCounters.ZERO_HASH (obs_of (demo_a (js "n1") 5)))).
  - reflexivity.
  - constructor; [|constructor]. vm_compute. discriminate.
  - reflexivity.
Defined.

Definition demo_pending : T :=
  (enqueuePendingAttestation (PendingAttestations.mkEnqueue (js "peer") (js "h1")
     (js "bead_create") [] [] 0) empty).1.

Lemma demo_pending_represents :
  Attestations.represents (peer_attestations demo_pending) (fun _ => []).
Proof. exact Attestations.attest_represents_empty. Qed.

Lemma drain_commits_batch_witness :
  exists s', drainPendingRetries 40000 (js "application/json") None demo_pending =
    (s', Ok (1, (1, 0))).
Proof.
  destruct (drain_commits_batch 40000 (js "application/json") None demo_pending (fun _ => [])
              demo_pending_represents) as (s' & E & _).
  exists s'. exact E.
Defined.

Lemma drain_invisible_to_bead_audit_witness :
  forall x, x ∈ Attestations.attestationsForBead
    (peer_attestations (drainPendingRetries 40000 (js "application/json") None demo_pending).1)
    (js "bead") -> False.
Proof.
  intros x Hx. apply (drain_invisible_to_bead_audit _ _ _ _ (fun _ => []) _ _
    demo_pending_represents) in Hx. by apply not_elem_of_nil in Hx.
Defined.

Lemma peerHasChain_iff_witness :
  exists b, peerHasChain (js "peer") demo_pending = (demo_pending, Ok b) /\ b = true.
Proof.
  destruct (peerHasChain_iff demo_pending (fun _ => []) (js "peer") demo_pending_represents)
    as (b & E & Hb).
  exists b. split; [exact E|]. apply Hb. right.
  exists (js "peer", js "h1"), (PendingAttestations.enqueue_row
    (PendingAttestations.mkEnqueue (js "peer") (js "h1") (js "bead_create") [] [] 0)).
  split; reflexivity.
Defined.

End TrustStore.
