(* ===== verification/BlobRefStore.v ===== *)
(** * The content-addressed store and the ref registers (src/storage/workerd.ts,
    src/storage/types.ts, src/blob-store.ts)

    [WorkerdBlobStore] keeps a blob of at most one chunk in a row of its own and
    splits a larger one over a second table; [WorkerdRefStore] keeps named registers
    updated by compare-and-swap.  The specification of the first is a map from
    digests to bytes; of the second, one register per name. *)
From S2P Require Import Prelude.
From S2P Require Import JsString.
From S2P Require Import Sql.
From S2P Require Import Platform.

Module BlobRefStore.

Definition BLOB_CHUNK_SIZE : Z := Z.shiftl 1 20.

Record chunk_row := mkChunk { c_digest : jsstr; c_seq : Z; c_bytes : bytes }.

Record BlobTables := mkBlobs {
  blobs : gmap (list Z) bytes;
  chunks : gmap (list Z * Z) chunk_row;
}.

Definition empty : BlobTables := mkBlobs ∅ ∅.

(** [/^[a-z][a-z0-9_]*$/]. *)
Definition assertSafePrefix (prefix : jsstr) : bool :=
  match prefix with
  | [] => false
  | c :: rest =>
      ((97 <=? c) && (c <=? 122)) &&
      forallb (fun x => ((97 <=? x) && (x <=? 122)) || ((48 <=? x) && (x <=? 57)) || (x =? 95)) rest
  end.

Section blobs.
Context `{Sha256} `{Blake3}.

Inductive put_error := DigestMismatch (key sha blake : jsstr).

Definition digestBytes (bs : bytes) : jsstr := toHex (sha256 bs).

(** The key under which [put] stores: the digest, or the caller's key when one of the
    two hashes gives it. *)
Definition put_key (bs : bytes) (key : option jsstr) : result put_error jsstr :=
  match key with
  | None => Ok (digestBytes bs)
  | Some k =>
      let sha := digestBytes bs in
      if decide (sha = k) then Ok k
      else
        let blake := blake3_hex bs in
        if decide (blake = k) then Ok k else Throw (DigestMismatch k sha blake)
  end.

(** [for (seq = 0, off = 0; off < bytes.length; seq++, off += CHUNK)]. *)
Fixpoint put_chunks (fuel : nat) (d : jsstr) (bs : bytes) (seq off : Z)
    (t : gmap (list Z * Z) chunk_row) : gmap (list Z * Z) chunk_row :=
  match fuel with
  | O => t
  | S fuel' =>
      if off <? Z.of_nat (length bs) then
        let chunk := take (Z.to_nat BLOB_CHUNK_SIZE) (drop (Z.to_nat off) bs) in
        put_chunks fuel' d bs (seq + 1) (off + BLOB_CHUNK_SIZE)
          (insert_or_nothing (d, seq) (mkChunk d seq chunk) t).1
      else t
  end.

Definition put (t : BlobTables) (bs : bytes) (key : option jsstr)
    : BlobTables * result put_error jsstr :=
  match put_key bs key with
  | Throw e => (t, Throw e)
  | Ok d =>
      if Z.of_nat (length bs) <=? BLOB_CHUNK_SIZE then
        (mkBlobs (insert_or_nothing d bs (blobs t)).1 (chunks t), Ok d)
      else (mkBlobs (blobs t) (put_chunks (S (length bs)) d bs 0 0 (chunks t)), Ok d)
  end.

Definition seq_asc (a b : chunk_row) : Prop := c_seq a <= c_seq b.
#[global] Instance seq_asc_dec a b : Decision (seq_asc a b).
Proof. unfold seq_asc. apply _. Defined.

Definition getChunked (t : BlobTables) (digest : jsstr) : option bytes :=
  let parts := map c_bytes (order_by seq_asc
    (select_where (fun _ r => bool_decide (c_digest r = digest)) (chunks t))) in
  match parts with [] => None | _ => Some (concat parts) end.

Definition get (t : BlobTables) (digest : jsstr) : option bytes :=
  match blobs t !! digest with
  | Some raw => Some raw
  | None => getChunked t digest
  end.

Definition has (t : BlobTables) (digest : jsstr) : bool :=
  match blobs t !! digest with
  | Some _ => true
  | None => (0 <? length (limit 1 (select_where
              (fun _ r => bool_decide (c_digest r = digest)) (chunks t))))%nat
  end.

(** ** Specification: a map from digests to bytes *)

Definition CS : nat := Z.to_nat BLOB_CHUNK_SIZE.
Definition large (bs : bytes) : Prop := BLOB_CHUNK_SIZE < Z.of_nat (length bs).
#[global] Instance large_dec bs : Decision (large bs).
Proof. unfold large. apply _. Defined.

Definition piece (bs : bytes) (i : nat) : bytes := take CS (drop (i * CS) bs).

(** The rows of a blob: one, or its pieces. *)
Definition small_row (m : gmap (list Z) bytes) (d : jsstr) : option bytes :=
  match m !! d with Some bs => if decide (large bs) then None else Some bs | None => None end.
Definition piece_row (m : gmap (list Z) bytes) (k : list Z * Z) : option chunk_row :=
  match m !! k.1 with
  | Some bs => if decide (large bs /\ 0 <= k.2 /\ k.2 * BLOB_CHUNK_SIZE < Z.of_nat (length bs))
               then Some (mkChunk k.1 k.2 (piece bs (Z.to_nat k.2))) else None
  | None => None
  end.

Record represents (t : BlobTables) (m : gmap (list Z) bytes) : Prop := {
  rep_small : forall d, blobs t !! d = small_row m d;
  rep_large : forall k, chunks t !! k = piece_row m k;
}.

#[global] Instance seq_asc_trans : Transitive seq_asc.
Proof. intros a b c. unfold seq_asc. lia. Qed.
#[global] Instance seq_asc_total : Total seq_asc.
Proof. intros a b. unfold seq_asc. lia. Qed.

Lemma chunk_size_pos : 0 < BLOB_CHUNK_SIZE.
Proof. reflexivity. Qed.

Lemma CS_Z : Z.of_nat CS = BLOB_CHUNK_SIZE.
Proof. unfold CS. rewrite Z2Nat.id; [done|]. pose proof chunk_size_pos. lia. Qed.

Lemma CS_eq : CS = Z.to_nat BLOB_CHUNK_SIZE.
Proof. reflexivity. Qed.

#[local] Opaque BLOB_CHUNK_SIZE CS.

(** The number of pieces: the least [n] with [length bs <= n * CS]. *)
Definition npieces (bs : bytes) : nat :=
  Z.to_nat ((Z.of_nat (length bs) + BLOB_CHUNK_SIZE - 1) / BLOB_CHUNK_SIZE).

Lemma npieces_spec bs i :
  (i < npieces bs)%nat <-> Z.of_nat i * BLOB_CHUNK_SIZE < Z.of_nat (length bs).
Proof.
  pose proof chunk_size_pos as Hc. unfold npieces.
  set (L := Z.of_nat (length bs)). assert (0 <= L) by (unfold L; lia).
  set (q := (L + BLOB_CHUNK_SIZE - 1) / BLOB_CHUNK_SIZE).
  assert (Hq : BLOB_CHUNK_SIZE * q <= L + BLOB_CHUNK_SIZE - 1 < BLOB_CHUNK_SIZE * (q + 1)).
  { pose proof (Z.mod_pos_bound (L + BLOB_CHUNK_SIZE - 1) BLOB_CHUNK_SIZE Hc).
    pose proof (Z.div_mod (L + BLOB_CHUNK_SIZE - 1) BLOB_CHUNK_SIZE ltac:(lia)) as Hd.
    fold q in Hd. lia. }
  assert (0 <= q) by (unfold q; apply Z.div_pos; lia). nia.
Qed.

Lemma concat_pieces bs n k :
  (Z.of_nat (length bs) <= Z.of_nat (k + n) * BLOB_CHUNK_SIZE) ->
  concat (map (piece bs) (seq k n)) = drop (k * CS) bs.
Proof.
  pose proof CS_Z. revert k. induction n as [|n IH]; intros k Hl; simpl.
  - rewrite drop_ge; [done|]. rewrite Nat.add_0_r in Hl. nia.
  - rewrite IH by (rewrite <- Nat.add_succ_comm in *; done). unfold piece.
    replace (S k * CS)%nat with (k * CS + CS)%nat by lia.
    rewrite <- drop_drop. apply take_drop.
Qed.

(** The loop stores the pieces from [seq] on, without touching a row that is there. *)
Lemma put_chunks_lookup fuel d bs s t k :
  0 <= s -> Z.of_nat (length bs) - s * BLOB_CHUNK_SIZE < Z.of_nat fuel ->
  put_chunks fuel d bs s (s * BLOB_CHUNK_SIZE) t !! k =
  if decide (k.1 = d /\ s <= k.2 /\ k.2 * BLOB_CHUNK_SIZE < Z.of_nat (length bs))
  then match t !! k with
       | Some r => Some r
       | None => Some (mkChunk d k.2 (piece bs (Z.to_nat k.2)))
       end
  else t !! k.
Proof.
  pose proof chunk_size_pos as Hc. revert s t. induction fuel as [|fuel IH]; intros s t Hs Hf.
  { simpl. rewrite decide_False; [done|]. intros (_ & ? & ?). nia. }
  cbn [put_chunks]. destruct (Z.ltb_spec (s * BLOB_CHUNK_SIZE) (Z.of_nat (length bs))) as [Hlt|Hge].
  2:{ rewrite decide_False; [done|]. intros (_ & ? & ?). nia. }
  replace (s * BLOB_CHUNK_SIZE + BLOB_CHUNK_SIZE) with ((s + 1) * BLOB_CHUNK_SIZE) by lia.
  rewrite IH by lia. unfold insert_or_nothing. destruct k as [d' s']; simpl.
  assert (Hp : take (Z.to_nat BLOB_CHUNK_SIZE) (drop (Z.to_nat (s * BLOB_CHUNK_SIZE)) bs)
               = piece bs (Z.to_nat s)).
  { unfold piece. rewrite CS_eq, Z2Nat.inj_mul by lia. reflexivity. }
  rewrite Hp. destruct (decide (d' = d /\ s' = s)) as [[-> ->]|Hne].
  - rewrite decide_False by (intros (_ & ? & _); lia).
    rewrite decide_True by (repeat split; try done; lia).
    destruct (t !! (d, s)) eqn:E; simpl; [done|]. by rewrite lookup_insert_eq.
  - assert (Ht : (match t !! (d, s) with Some _ => (t, false) | None =>
        (<[(d, s):=mkChunk d s (piece bs (Z.to_nat s))]> t, true) end).1 !! (d', s') = t !! (d', s')).
    { destruct (t !! (d, s)); simpl; [done|]. rewrite lookup_insert_ne; [done|].
      intros [= -> ->]. by apply Hne. }
    rewrite Ht. destruct (decide (d' = d)) as [->|Hd].
    + assert (Hiff : (d = d /\ s + 1 <= s' /\ s' * BLOB_CHUNK_SIZE < Z.of_nat (length bs)) <->
                     (d = d /\ s <= s' /\ s' * BLOB_CHUNK_SIZE < Z.of_nat (length bs))).
      { split; intros (? & ? & ?); repeat split; try done; [lia|].
        assert (s' <> s) by (intros ->; by apply Hne). lia. }
      by rewrite (decide_ext _ _ _ _ Hiff).
    + rewrite !decide_False by tauto. done.
Qed.

Definition chunk_key (r : chunk_row) : jsstr * Z := (c_digest r, c_seq r).

Lemma chunk_rows t m d bs :
  represents t m -> m !! d = Some bs -> large bs ->
  order_by seq_asc (select_where (fun _ r => bool_decide (c_digest r = d)) (chunks t)) =
  map (fun i => mkChunk d (Z.of_nat i) (piece bs i)) (seq 0 (npieces bs)).
Proof.
  intros Hr Hm Hl. apply (order_by_unique seq_asc).
  - intros x y (i & -> & _)%list_elem_of_fmap (j & -> & _)%list_elem_of_fmap.
    unfold seq_asc. simpl. intros. assert (i = j) by lia. by subst.
  - generalize 0%nat (npieces bs). intros k n. revert k.
    induction n as [|n IH]; intros k; simpl; constructor; [done|].
    apply Forall_fmap, Forall_forall. intros j Hj%elem_of_seq. unfold seq_asc. simpl. lia.
  - apply (select_where_permutation chunk_key).
    + intros [d' s] r. rewrite (rep_large _ _ Hr). unfold piece_row. simpl.
      repeat case_match; try done. by intros [= <-].
    + apply NoDup_fmap_2_strong; [|apply NoDup_seq]. intros i j _ _ [= ?]. lia.
    + intros r. rewrite list_elem_of_fmap. split.
      * intros (i & -> & Hi%elem_of_seq). exists (d, Z.of_nat i). rewrite (rep_large _ _ Hr).
        unfold piece_row. simpl. rewrite Hm, Nat2Z.id. destruct Hi as [_ Hi%npieces_spec].
        rewrite decide_True by (repeat split; try done; lia). split; [done|].
        by apply bool_decide_eq_true.
      * intros ([d' s] & Hk & Hb%bool_decide_eq_true). rewrite (rep_large _ _ Hr) in Hk.
        unfold piece_row in Hk. simpl in Hk. destruct (m !! d') as [bs'|] eqn:E; [|done].
        case_decide as Hc; [|done]. injection Hk as <-. simpl in Hb. subst d'.
        assert (bs' = bs) as -> by congruence. destruct Hc as (_ & Hs & Hlt).
        exists (Z.to_nat s). rewrite Z2Nat.id by done. split; [done|].
        apply elem_of_seq. split; [lia|]. apply npieces_spec. rewrite Z2Nat.id; done.
Qed.

Lemma chunk_rows_none t m d :
  represents t m -> (forall bs, m !! d = Some bs -> ~ large bs) ->
  select_where (fun _ r => bool_decide (c_digest r = d)) (chunks t) = [].
Proof.
  intros Hr Hm. apply elem_of_nil_inv. intros r ([d' s] & Hk & Hb%bool_decide_eq_true)%elem_of_select_where.
  rewrite (rep_large _ _ Hr) in Hk. unfold piece_row in Hk. simpl in Hk.
  destruct (m !! d') as [bs|] eqn:E; [|done]. case_decide as Hc; [|done].
  injection Hk as <-. simpl in Hb. subst d'. apply (Hm _ E), Hc.
Qed.

Lemma get_represents t m d : represents t m -> get t d = m !! d.
Proof.
  intros Hr. unfold get, getChunked. rewrite (rep_small _ _ Hr). unfold small_row.
  destruct (m !! d) as [bs|] eqn:E.
  - case_decide as Hl; [|done]. rewrite (chunk_rows t m d bs Hr E Hl), map_map.
    cbn [c_bytes]. change (fun x => piece bs x) with (piece bs).
    assert (Hcat : concat (map (piece bs) (seq 0 (npieces bs))) = bs).
    { rewrite concat_pieces; [apply drop_0|]. pose proof (npieces_spec bs (npieces bs)). lia. }
    destruct (map (piece bs) (seq 0 (npieces bs))) eqn:Ep; [|by rewrite Hcat].
    exfalso. simpl in Hcat. subst bs. unfold large in Hl. pose proof chunk_size_pos. simpl in Hl. lia.
  - rewrite (chunk_rows_none t m d Hr) by (intros ? [=]; congruence). done.
Qed.

Lemma has_represents t m d : represents t m -> has t d = bool_decide (is_Some (m !! d)).
Proof.
  intros Hr. unfold has. rewrite (rep_small _ _ Hr). unfold small_row.
  destruct (m !! d) as [bs|] eqn:E.
  - rewrite bool_decide_true by eauto. case_decide as Hl; [|done].
    pose proof (length_order_by seq_asc (select_where
      (fun _ r => bool_decide (c_digest r = d)) (chunks t))) as Hlen.
    rewrite (chunk_rows t m d bs Hr E Hl), length_map, length_seq in Hlen.
    assert (Hn : (0 < npieces bs)%nat).
    { apply npieces_spec. unfold large in Hl. pose proof chunk_size_pos. lia. }
    destruct (select_where _ (chunks t)); simpl in *; [lia|done].
  - rewrite bool_decide_false by (intros [? ?]; congruence).
    by rewrite (chunk_rows_none t m d Hr) by (intros ? [=]; congruence).
Qed.

Lemma small_row_ne m d bs d' : d' <> d -> small_row (<[d := bs]> m) d' = small_row m d'.
Proof. intros. unfold small_row. by rewrite lookup_insert_ne. Qed.

Lemma piece_row_ne m d bs k : k.1 <> d -> piece_row (<[d := bs]> m) k = piece_row m k.
Proof. intros. unfold piece_row. by rewrite lookup_insert_ne. Qed.

(** Storing bytes under a digest that is free, or that holds the same bytes. *)
Lemma put_represents t m bs key d :
  represents t m -> put_key bs key = Ok d -> (m !! d = None \/ m !! d = Some bs) ->
  exists t', put t bs key = (t', Ok d) /\ represents t' (<[d := bs]> m).
Proof.
  intros Hr Hk Hm. unfold put. rewrite Hk.
  destruct (Z.leb_spec (Z.of_nat (length bs)) BLOB_CHUNK_SIZE) as [Hle|Hgt];
    (eexists; split; [reflexivity|]); constructor; cbn [blobs chunks].
  - intros d'. destruct (decide (d' = d)) as [->|Hne].
    + rewrite insert_or_nothing_eq.
      * unfold small_row. by rewrite lookup_insert_eq, decide_False by (unfold large; lia).
      * rewrite (rep_small _ _ Hr). unfold small_row.
        destruct Hm as [-> | ->]; [by left|right]. by rewrite decide_False by (unfold large; lia).
    + by rewrite insert_or_nothing_ne, small_row_ne, (rep_small _ _ Hr).
  - intros k. rewrite (rep_large _ _ Hr). destruct (decide (k.1 = d)) as [<-|Hne];
      [|by rewrite piece_row_ne].
    unfold piece_row. rewrite lookup_insert_eq, decide_False by (unfold large; lia).
    destruct Hm as [-> | ->]; [done|]. by rewrite decide_False by (unfold large; lia).
  - intros d'. rewrite (rep_small _ _ Hr). destruct (decide (d' = d)) as [->|Hne];
      [|by rewrite small_row_ne].
    unfold small_row. rewrite lookup_insert_eq, decide_True by done.
    destruct Hm as [-> | ->]; [done|]. by rewrite decide_True by done.
  - intros k. rewrite (put_chunks_lookup _ d bs 0) by lia. rewrite (rep_large _ _ Hr).
    destruct (decide (k.1 = d)) as [<-|Hne].
    2:{ rewrite decide_False by tauto. by rewrite piece_row_ne. }
    unfold piece_row. rewrite lookup_insert_eq.
    destruct (decide (0 <= k.2 /\ k.2 * BLOB_CHUNK_SIZE < Z.of_nat (length bs))) as [Hin|Hout].
    + rewrite !(decide_True (P := _ = _ /\ _)) by tauto.
      rewrite (decide_True (P := large bs /\ _)) by (unfold large; tauto).
      destruct Hm as [-> | ->]; [done|]. by rewrite decide_True by (unfold large; tauto).
    + rewrite (decide_False (P := _ = _ /\ _)) by tauto.
      rewrite (decide_False (P := large bs /\ _)) by tauto.
      destruct Hm as [-> | ->]; [done|]. by rewrite decide_False by tauto.
Qed.

Lemma blob_represents_empty : represents empty ∅.
Proof.
  constructor; [intros d|intros k]; unfold small_row, piece_row; by rewrite !lookup_empty.
Qed.

Lemma put_rejected t bs key e : put_key bs key = Throw e -> put t bs key = (t, Throw e).
Proof. intros Hk. unfold put. by rewrite Hk. Qed.

(** ** Runs of puts against the abstract store *)

(** [put] on the abstract store: the first bytes under a digest stay. *)
Definition spec_put (m : gmap (list Z) bytes) (p : bytes * option jsstr) : gmap (list Z) bytes :=
  match put_key p.1 p.2 with
  | Ok d => match m !! d with Some _ => m | None => <[d := p.1]> m end
  | Throw _ => m
  end.

Definition put_one (t : BlobTables) (p : bytes * option jsstr) : BlobTables :=
  (put t p.1 p.2).1.

(** No two puts of the run store different bytes under one digest. *)
Definition collision_free (ps : list (bytes * option jsstr)) : Prop :=
  forall p q d, p ∈ ps -> q ∈ ps -> put_key p.1 p.2 = Ok d -> put_key q.1 q.2 = Ok d -> p.1 = q.1.

Lemma spec_put_elem ps d bs :
  foldl spec_put ∅ ps !! d = Some bs -> exists p, p ∈ ps /\ put_key p.1 p.2 = Ok d /\ p.1 = bs.
Proof.
  induction ps as [|p ps IH] using rev_ind; [cbn [foldl]; rewrite lookup_empty; done|].
  rewrite foldl_snoc. unfold spec_put at 1. intros Hl.
  assert (Hold : foldl spec_put ∅ ps !! d = Some bs ->
    exists q, q ∈ ps ++ [p] /\ put_key q.1 q.2 = Ok d /\ q.1 = bs).
  { intros (q & Hq & ?)%IH. exists q. split; [|done]. apply elem_of_app. by left. }
  destruct (put_key p.1 p.2) as [d'|e] eqn:Ek; [|auto].
  destruct (foldl spec_put ∅ ps !! d') eqn:Em; [auto|].
  apply lookup_insert_Some in Hl as [[<- <-]|[_ Hl]]; [|auto].
  exists p. split; [|done]. apply elem_of_app. right. apply list_elem_of_here.
Qed.

Lemma puts_represent ps :
  collision_free ps -> represents (foldl put_one empty ps) (foldl spec_put ∅ ps).
Proof.
  induction ps as [|p ps IH] using rev_ind; intros Hc; [apply blob_represents_empty|].
  assert (Hc' : collision_free ps).
  { intros q r d Hq Hr. apply Hc; apply elem_of_app; by left. }
  specialize (IH Hc'). rewrite !foldl_snoc. unfold put_one at 1, spec_put at 1.
  destruct (put_key p.1 p.2) as [d|e] eqn:Ek; [|by rewrite (put_rejected _ _ _ e)].
  destruct (foldl spec_put ∅ ps !! d) as [bs|] eqn:Em.
  - destruct (spec_put_elem _ _ _ Em) as (q & Hq & Eq & <-).
    assert (q.1 = p.1) as E.
    { apply (Hc q p d); [apply elem_of_app; by left|apply elem_of_app; right; apply list_elem_of_here|done..]. }
    rewrite E in Em. destruct (put_represents _ _ p.1 p.2 d IH Ek (or_intror Em)) as (t' & -> & Hr).
    simpl. by rewrite insert_id in Hr.
  - destruct (put_represents _ _ p.1 p.2 d IH Ek (or_introl Em)) as (t' & -> & Hr). done.
Qed.

(** ** Properties of the blob store *)

(** C30: the chunked store implements a map from digests to bytes.  After any run of
    puts, accepted and rejected, in which no two accepted puts bring different bytes
    for one digest, [get] and [has] answer as the map does in which the first bytes
    of each digest stay: splitting over chunks, rejoining, and repeated puts are
    invisible. *)
Theorem blobstore_refines_map ps d :
  collision_free ps ->
  get (foldl put_one empty ps) d = foldl spec_put ∅ ps !! d /\
  has (foldl put_one empty ps) d = bool_decide (is_Some (foldl spec_put ∅ ps !! d)).
Proof.
  intros Hc. pose proof (puts_represent ps Hc) as Hr.
  split; [by apply get_represents|by apply has_represents].
Qed.

(** Every stored byte string is authenticated.  [put] answers with the SHA-256
    digest or with the caller's key, and accepts a key only when it is the SHA-256 or
    the BLAKE3 hex of the bytes; otherwise it throws with the three digests and stores
    nothing. *)
Theorem put_authenticates t bs key :
  match put t bs key with
  | (_, Ok d) =>
      match key with
      | None => d = toHex (sha256 bs)
      | Some k => d = k /\ (k = toHex (sha256 bs) \/ k = blake3_hex bs)
      end
  | (t', Throw (DigestMismatch k s b)) =>
      t' = t /\ key = Some k /\ s = toHex (sha256 bs) /\ b = blake3_hex bs /\ k <> s /\ k <> b
  end.
Proof.
  unfold put, put_key, digestBytes. destruct key as [k|];
    [|by destruct (_ <=? _)].
  destruct (decide (toHex (sha256 bs) = k)) as [<-|E1];
    [destruct (_ <=? _); simpl; auto|].
  destruct (decide (blake3_hex bs = k)) as [<-|E2];
    [destruct (_ <=? _); simpl; auto|].
  repeat split; congruence.
Qed.

End blobs.

(** The witness puts a small blob twice. *)
Definition demo_blake3 : Blake3 := fun bs => toHex (take 32 (bs ++ replicate 32 Corelib.Init.Byte.xff)).
Definition demo_blob : bytes := [Corelib.Init.Byte.x01; Corelib.Init.Byte.x02].

Lemma blobstore_refines_map_witness :
  let ps := [(demo_blob, None); (demo_blob, Some (js "no such digest")); (demo_blob, None)] in
  @get (foldl (@put_one demo_sha256 demo_blake3) empty ps) (@digestBytes demo_sha256 demo_blob)
  = Some demo_blob.
Proof.
  intros ps. rewrite (proj1 (@blobstore_refines_map demo_sha256 demo_blake3 ps
    (@digestBytes demo_sha256 demo_blob) ltac:(unfold collision_free, ps; set_solver))).
  vm_compute. reflexivity.
Defined.

(** ** The ref registers *)

Module Refs.

Abbreviation table := (gmap (list Z) jsstr).

Inductive ref_error := NotADigest (next : jsstr).

Definition cas (t : table) (name : jsstr) (expected : option jsstr) (next : jsstr)
    : table * result ref_error bool :=
  if isDigest next then
    match expected with
    | None =>
        let '(t', inserted) := insert_or_nothing name next t in (t', Ok inserted)
    | Some e =>
        match t !! name with
        | Some cur => if decide (cur = e) then (<[name := next]> t, Ok true) else (t, Ok false)
        | None => (t, Ok false)
        end
    end
  else (t, Throw (NotADigest next)).

(** ** SQL LIKE

    A pattern is a list of literals, [%] and [_]; the parse of [ESCAPE '\'] takes the
    unit after a backslash literally.  Literals compare without regard to ASCII case,
    which is SQLite's default. *)
Inductive pat := Lit (c : Z) | AnyOne | AnyMany.

Fixpoint parse_like (p : jsstr) : option (list pat) :=
  match p with
  | [] => Some []
  | c :: p' =>
      if c =? 92 then
        match p' with
        | [] => None
        | d :: p'' => (cons (Lit d)) <$> parse_like p''
        end
      else (cons (if c =? 37 then AnyMany else if c =? 95 then AnyOne else Lit c)) <$> parse_like p'
  end.

Definition fold_case (c : Z) : Z := if (65 <=? c) && (c <=? 90) then c + 32 else c.

Fixpoint like (ps : list pat) : jsstr -> bool :=
  match ps with
  | [] => fun s => match s with [] => true | _ => false end
  | Lit c :: ps' => fun s =>
      match s with x :: s' => (fold_case x =? fold_case c) && like ps' s' | [] => false end
  | AnyOne :: ps' => fun s => match s with _ :: s' => like ps' s' | [] => false end
  | AnyMany :: ps' =>
      fix go (s : jsstr) : bool :=
        like ps' s || match s with [] => false | _ :: s' => go s' end
  end.

Definition sql_like (s pattern : jsstr) : bool :=
  match parse_like pattern with Some ps => like ps s | None => false end.

(** [prefix.replace(/[\\%_]/g, "\\$&")]. *)
Definition escape (prefix : jsstr) : jsstr :=
  concat (map (fun c => if (c =? 92) || (c =? 37) || (c =? 95) then [92; c] else [c]) prefix).

Definition name_le (a b : jsstr * jsstr) : Prop := text_le a.1 b.1.
#[global] Instance name_le_dec a b : Decision (name_le a b).
Proof. unfold name_le. apply _. Defined.

Definition list_refs (t : table) (prefix : jsstr) : list (jsstr * jsstr) :=
  order_by name_le
    (map_to_list (filter (fun kv => sql_like kv.1 (escape prefix ++ js "%") = true) t)).

Definition fold_string (s : jsstr) : jsstr := map fold_case s.

Lemma parse_escape prefix rest ps :
  parse_like rest = Some ps -> parse_like (escape prefix ++ rest) = Some (map Lit prefix ++ ps).
Proof.
  intros Hr. induction prefix as [|c p IH]; [done|]. unfold escape in *. simpl.
  destruct ((c =? 92) || (c =? 37) || (c =? 95)) eqn:E; simpl.
  - by rewrite IH.
  - apply orb_false_iff in E as [[-> ->]%orb_false_iff ->]. by rewrite IH.
Qed.

Lemma like_any s : like [AnyMany] s = true.
Proof. induction s as [|c s IH]; [done|]. exact IH. Qed.

Lemma like_prefix p s :
  like (map Lit p ++ [AnyMany]) s = bool_decide (fold_string p `prefix_of` fold_string s).
Proof.
  revert s. induction p as [|c p IH]; intros s.
  - rewrite bool_decide_true by apply prefix_nil. apply like_any.
  - destruct s as [|x s]; simpl.
    + done.
    + rewrite IH. destruct (Z.eqb_spec (fold_case x) (fold_case c)) as [E|E]; simpl.
      * apply bool_decide_ext. rewrite E. split; [apply prefix_cons|apply prefix_cons_inv_2].
      * rewrite bool_decide_false; [done|]. intros H%prefix_cons_inv_1. congruence.
Qed.

Lemma sql_like_prefix s prefix :
  sql_like s (escape prefix ++ js "%") =
  bool_decide (fold_string prefix `prefix_of` fold_string s).
Proof.
  unfold sql_like. rewrite (parse_escape prefix (js "%") [AnyMany]) by reflexivity.
  apply like_prefix.
Qed.

Lemma elem_of_list_refs t prefix n d :
  (n, d) ∈ list_refs t prefix <->
  t !! n = Some d /\ fold_string prefix `prefix_of` fold_string n.
Proof.
  unfold list_refs. rewrite elem_of_order_by, elem_of_map_to_list, map_lookup_filter_Some.
  cbn [fst]. by rewrite sql_like_prefix, bool_decide_eq_true.
Qed.

(** A run of compare-and-swaps. *)
Record swap := mkSwap { w_name : jsstr; w_expected : option jsstr; w_next : jsstr }.
Definition swap_one (t : table) (w : swap) : table * result ref_error bool :=
  cas t (w_name w) (w_expected w) (w_next w).

Lemma cas_effect t name expected next :
  isDigest next = true ->
  cas t name expected next =
  if decide (t !! name = expected) then (<[name := next]> t, Ok true) else (t, Ok false).
Proof.
  intros Hd. unfold cas. rewrite Hd. unfold insert_or_nothing.
  destruct expected as [e|], (t !! name) as [cur|]; repeat case_decide; simplify_eq/=; done.
Qed.

(** A ref is a linearizable register.  With a well-formed digest the swap happens
    exactly when the register holds the expected value (nothing, for a creation);
    then that register alone changes; otherwise the table is unchanged and the answer
    is false.  A malformed digest throws and changes nothing.  So of two swaps that
    expect the same value, tried one after the other, at most one succeeds unless the
    first wrote the expected value back. *)
Theorem cas_linearizable t name expected next next' :
  (isDigest next = false -> cas t name expected next = (t, Throw (NotADigest next))) /\
  (isDigest next = true ->
     exists t' ok, cas t name expected next = (t', Ok ok) /\
       (ok = true <-> t !! name = expected) /\
       (ok = false -> t' = t) /\
       (ok = true -> t' = <[name := next]> t) /\
       (ok = true -> isDigest next' = true -> Some next <> expected ->
          cas t' name expected next' = (t', Ok false))).
Proof.
  split; [intros Hd; unfold cas; by rewrite Hd|]. intros Hd.
  rewrite cas_effect by done. case_decide as E.
  - exists (<[name := next]> t), true. repeat split; try done.
    intros _ Hd' Hne. rewrite cas_effect by done. rewrite lookup_insert_eq.
    by rewrite decide_False.
  - exists t, false. repeat split; done.
Qed.

Lemma cas_linearizable_witness :
  isDigest (replicate 64 48) = true /\
  exists t' ok, cas ∅ (js "refs/a") None (replicate 64 48) = (t', Ok ok) /\ (ok = false -> t' = ∅).
Proof.
  split; [reflexivity|].
  destruct (proj2 (cas_linearizable ∅ (js "refs/a") None (replicate 64 48) []) eq_refl)
    as (t' & ok & E & _ & Hf & _).
  exists t', ok. split; [exact E|exact Hf].
Defined.

(** Listing by prefix ignores ASCII case.  The escaping keeps [%], [_] and the
    backslash literal, but LIKE compares ASCII letters without case, so the answer is
    every ref whose name starts with the prefix up to case: it contains every literal
    match, and also names outside the prefix such as "refs/Agents/x" for
    "refs/agents/". *)
Theorem list_refs_spec t prefix n d :
  ((n, d) ∈ list_refs t prefix <->
     t !! n = Some d /\ fold_string prefix `prefix_of` fold_string n) /\
  (t !! n = Some d -> prefix `prefix_of` n -> (n, d) ∈ list_refs t prefix) /\
  (exists t0 n0 d0 p0, (n0, d0) ∈ list_refs t0 p0 /\ ~ p0 `prefix_of` n0).
Proof.
  split; [apply elem_of_list_refs|]. split.
  - intros Hn [k ->]. apply elem_of_list_refs. split; [done|].
    unfold fold_string. rewrite map_app. by apply prefix_app_r.
  - exists {[js "refs/Agents/x" := js "d"]}, (js "refs/Agents/x"), (js "d"), (js "refs/agents/").
    split; [|by intros [k [=]]]. apply elem_of_list_refs.
    split; [apply lookup_singleton_eq|]. exists (js "x"). reflexivity.
Qed.

End Refs.

(** ** The Durable Object (src/blob-store.ts)

    A fault key armed by a test makes one put answer with a sentinel instead. *)

Definition BLOB_PUT_FAULT_DIGEST : jsstr := js "__fault:blobStorePut".

Record BlobStoreDO := mkDO { inner : BlobTables; fault_armed : option bool }.

(** [checkAndConsumeFault("blobStorePut")]: [None] is no entry; the flag is
    [failOnce]. *)
Definition consume_fault (f : option bool) : option bool * bool :=
  match f with Some true => (None, true) | _ => (f, false) end.

Definition do_put `{Sha256} `{Blake3} (s : BlobStoreDO) (bs : bytes) (key : option jsstr)
    : BlobStoreDO * result put_error jsstr :=
  let '(f, hit) := consume_fault (fault_armed s) in
  if hit : bool then (mkDO (inner s) f, Ok BLOB_PUT_FAULT_DIGEST)
  else let '(t, r) := put (inner s) bs key in (mkDO t f, r).

Definition do_get (s : BlobStoreDO) (digest : jsstr) : option bytes := get (inner s) digest.
Definition do_has (s : BlobStoreDO) (digest : jsstr) : bool := has (inner s) digest.

(** The sentinel is no digest, though it is 20 units long and not over 64. *)
Lemma fault_digest_shape :
  isDigest BLOB_PUT_FAULT_DIGEST = false /\ length BLOB_PUT_FAULT_DIGEST = 20%nat.
Proof. split; reflexivity. Qed.

End BlobRefStore.
