(* ===== verification/Codec.v ===== *)
(** * The Cap'n Proto wire codec (src/wire/codec.ts)

    [WireBuilder] is a growable buffer with a write position: its methods are
    programs in the monad of Prelude.v over the buffer.  [WireReader] reads a byte
    list.  The file shows that the growing buffer is an implementation detail (a
    method acts on the written prefix [content]), and that pointers written by the
    one are read back by the other. *)
From S2P Require Import Prelude.
From S2P Require Import JsInt.

Module Codec.

Definition WORD : Z := 8.
Definition KIND_STRUCT : Z := 0.
Definition KIND_LIST : Z := 1.
Definition ELEM_BYTE : Z := 2.

Inductive wire_error :=
  | RangeError
  | StructTargetNotAligned
  | ListTargetNotAligned
  | PayloadNotAligned
  | ShorterThanHeader
  | NotSingleSegment (n : Z)
  | SegmentTooLong (words len : Z)
  | ExpectedStruct (at_ kind : Z)
  | ExpectedList (at_ kind : Z)
  | ReadPastEnd (start len total : Z)
  | TagWrongKind (at_ kind : Z)
  | StructTooSmall (dataWords ptrWords : Z)
  | FieldShape (elementSize count : Z)
  | FieldLength (got : Z)
  | EmptyText
  | MissingNul
  | InvalidUtf8
  | WordCountMismatch (got expected : Z)
  | UnknownDiscriminant (d : Z).

Definition zeros (n : Z) : bytes := replicate (Z.to_nat n) Corelib.Init.Byte.x00.
Definition blen (bs : bytes) : Z := Z.of_nat (length bs).

(** A [DataView] write: [bs] over the buffer at [off]; past the end it throws. *)
Definition patch (buf : bytes) (off : Z) (bs : bytes) : bytes :=
  take (Z.to_nat off) buf ++ bs ++ drop (Z.to_nat off + length bs) buf.
Definition in_range (buf : bytes) (off n : Z) : bool := (0 <=? off) && (off + n <=? blen buf).

(** ** The builder *)

Record WireBuilder := mkBuilder { buf : bytes; len : Z }.

Definition W (A : Type) : Type := M WireBuilder wire_error A.

Definition newBuilder : WireBuilder := mkBuilder (zeros 64) 0.

Definition grow (needed : Z) : W unit :=
  exec (fun b =>
    if len b + needed <=? blen (buf b) then (b, tt)
    else
      let newSize := Z.max (blen (buf b) * 2) (len b + needed) in
      let written := take (Z.to_nat (len b)) (buf b) in
      (mkBuilder (written ++ zeros (newSize - blen written)) (len b), tt)).

Definition advance (n : Z) : W Z := exec (fun b => (mkBuilder (buf b) (len b + n), len b)).

Definition reserveWords (n : Z) : W Z :=
  do* grow (n * WORD) in advance (n * WORD).

Definition setBytes (off : Z) (bs : bytes) : W unit :=
  fun b => if in_range (buf b) off (blen bs) then (mkBuilder (patch (buf b) off bs) (len b), Ok tt)
           else (b, Throw RangeError).

Definition padded (n : Z) : Z := js_and (n + WORD - 1) (js_not (WORD - 1)).

Definition appendBytesPadded (bs : bytes) : W Z :=
  do* grow (padded (blen bs)) in
  let* off := read len in
  do* setBytes off bs in
  advance (padded (blen bs)).

Definition writeU8 (off v : Z) : W unit := setBytes off (le_bytes 1 (js_and v 255)).
Definition writeU16 (off v : Z) : W unit := setBytes off (le_bytes 2 (js_and v 65535)).
Definition writeU32 (off v : Z) : W unit := setBytes off (le_bytes 4 (js_ushr v 0)).
Definition writeU64 (off v : Z) : W unit := setBytes off (le_bytes 8 v).

Definition getUint8 (off : Z) : W Z :=
  fun b => if in_range (buf b) off 1
           then (b, Ok (le_val (take 1 (drop (Z.to_nat off) (buf b))))) else (b, Throw RangeError).

Definition writeBit (off bitIdx : Z) (value : bool) : W unit :=
  let* cur := getUint8 off in
  let mask := js_shl 1 (js_and bitIdx 7) in
  setBytes off (le_bytes 1 (if value then js_or cur mask else js_and cur (js_not mask))).

Definition struct_hi (dataWords ptrWords : Z) : Z :=
  js_or (js_and dataWords 65535) (js_shl (js_and ptrWords 65535) 16).
Definition ptr_lo (offsetWords kind : Z) : Z :=
  js_or (js_shl (js_and offsetWords 1073741823) 2) kind.
Definition list_hi (elementSize count : Z) : Z :=
  js_or (js_and elementSize 7) (js_shl (js_and count 536870911) 3).

Definition writeStructPointer (at_ target dataWords ptrWords : Z) : W unit :=
  if (target - (at_ + WORD)) mod WORD =? 0 then
    let offsetWords := (target - (at_ + WORD)) / WORD in
    do* writeU32 at_ (ptr_lo offsetWords KIND_STRUCT) in
    writeU32 (at_ + 4) (struct_hi dataWords ptrWords)
  else throw StructTargetNotAligned.

Definition writeListPointer (at_ target elementSize count : Z) : W unit :=
  if (target - (at_ + WORD)) mod WORD =? 0 then
    let offsetWords := (target - (at_ + WORD)) / WORD in
    do* writeU32 at_ (ptr_lo offsetWords KIND_LIST) in
    writeU32 (at_ + 4) (list_hi elementSize count)
  else throw ListTargetNotAligned.

Definition reserveCompositeList (count dataWords ptrWords : Z) : W Z :=
  let elemSize := dataWords + ptrWords in
  let totalBytes := (1 + count * elemSize) * WORD in
  do* grow totalBytes in
  let* tagOff := advance totalBytes in
  do* writeU32 tagOff (ptr_lo count KIND_STRUCT) in
  do* writeU32 (tagOff + 4) (struct_hi dataWords ptrWords) in
  ret tagOff.

Definition finalize : W bytes :=
  fun b =>
    if len b mod WORD =? 0 then
      (b, Ok (zeros 4 ++ le_bytes 4 (len b / WORD) ++ take (Z.to_nat (len b)) (buf b)))
    else (b, Throw PayloadNotAligned).

(** Run an encoder on a new builder. *)
Definition run_builder {A} (m : W A) : result wire_error A := (m newBuilder).2.

(** ** The reader *)

Record StructPtr := mkStructPtr { sp_target : Z; sp_dataWords : Z; sp_ptrWords : Z }.
Record ListPtr := mkListPtr { lp_target : Z; lp_elementSize : Z; lp_count : Z }.

Definition get (bs : bytes) (n off : Z) : result wire_error Z :=
  if in_range bs off n then Ok (le_val (take (Z.to_nat n) (drop (Z.to_nat off) bs)))
  else Throw RangeError.

Definition readU8 (bs : bytes) (off : Z) := get bs 1 off.
Definition readU16 (bs : bytes) (off : Z) := get bs 2 off.
Definition readU32 (bs : bytes) (off : Z) := get bs 4 off.
Definition readU64 (bs : bytes) (off : Z) := get bs 8 off.

Definition readSegmentStart (bs : bytes) : result wire_error Z :=
  if blen bs <? 8 then Throw ShorterThanHeader else
  let? numMinus1 := readU32 bs 0 in
  if numMinus1 =? 0 then
    let? seg0Words := readU32 bs 4 in
    if blen bs <? 8 + seg0Words * WORD then Throw (SegmentTooLong seg0Words (blen bs)) else Ok 8
  else Throw (NotSingleSegment (numMinus1 + 1)).

Definition readBit (bs : bytes) (off bitIdx : Z) : result wire_error Z :=
  let? v := readU8 bs off in
  Ok (js_and (js_shr v (js_and bitIdx 7)) 1).

(** [raw | ~0x3FFFFFFF] when bit 29 of [raw] is set. *)
Definition signExtend30 (raw : Z) : Z :=
  if js_and raw 536870912 =? 0 then raw else js_or raw (js_not 1073741823).

Definition isNullPointer (bs : bytes) (at_ : Z) : result wire_error bool :=
  let? v := readU64 bs at_ in Ok (v =? 0).

Definition readStructPointer (bs : bytes) (at_ : Z) : result wire_error StructPtr :=
  let? lo := readU32 bs at_ in
  let kind := js_and lo 3 in
  if kind =? KIND_STRUCT then
    let offsetWords := signExtend30 (js_ushr lo 2) in
    let? hi := readU32 bs (at_ + 4) in
    Ok (mkStructPtr (at_ + WORD + offsetWords * WORD) (js_and hi 65535)
          (js_and (js_ushr hi 16) 65535))
  else Throw (ExpectedStruct at_ kind).

Definition readListPointer (bs : bytes) (at_ : Z) : result wire_error ListPtr :=
  let? lo := readU32 bs at_ in
  let kind := js_and lo 3 in
  if kind =? KIND_LIST then
    let offsetWords := signExtend30 (js_ushr lo 2) in
    let? hi := readU32 bs (at_ + 4) in
    Ok (mkListPtr (at_ + WORD + offsetWords * WORD) (js_and hi 7)
          (js_and (js_ushr hi 3) 536870911))
  else Throw (ExpectedList at_ kind).

(** [Uint8Array.slice]: a negative index counts from the end. *)
Definition slice (bs : bytes) (start stop : Z) : bytes :=
  let norm i := if i <? 0 then Z.max 0 (blen bs + i) else Z.min i (blen bs) in
  take (Z.to_nat (norm stop - norm start)) (drop (Z.to_nat (norm start)) bs).

Definition readBytes (bs : bytes) (start length : Z) : result wire_error bytes :=
  if blen bs <? start + length then Throw (ReadPastEnd start length (blen bs))
  else Ok (slice bs start (start + length)).

(** Returns count, dataWords and ptrWords.  The sign test reads bit 29 of [lo], the
    whole word. *)
Definition readCompositeListTag (bs : bytes) (at_ : Z) : result wire_error (Z * Z * Z) :=
  let? lo := readU32 bs at_ in
  if js_and lo 3 =? KIND_STRUCT then
    let count := if js_and lo 536870912 =? 0 then js_ushr lo 2
                 else js_or (js_ushr lo 2) (js_not 1073741823) in
    let? hi := readU32 bs (at_ + 4) in
    Ok (count, js_and hi 65535, js_and (js_ushr hi 16) 65535)
  else Throw (TagWrongKind at_ (js_and lo 3)).

(** ** Byte ranges *)

(** The [n] bytes at [off]. *)
Definition sub (bs : bytes) (off n : Z) : bytes := take (Z.to_nat n) (drop (Z.to_nat off) bs).

Implicit Types (bs c d : bytes).

Lemma blen_nonneg bs : 0 <= blen bs.
Proof. unfold blen. lia. Qed.

Lemma blen_app bs c : blen (bs ++ c) = blen bs + blen c.
Proof. unfold blen. rewrite length_app. lia. Qed.

Lemma blen_zeros n : 0 <= n -> blen (zeros n) = n.
Proof. intros. unfold blen, zeros. rewrite length_replicate. lia. Qed.

Lemma blen_le_bytes n v : blen (le_bytes n v) = Z.of_nat n.
Proof. unfold blen. by rewrite length_le_bytes. Qed.

Lemma blen_patch c off bs :
  0 <= off -> off + blen bs <= blen c -> blen (patch c off bs) = blen c.
Proof.
  unfold blen, patch. intros. rewrite !length_app, length_take, length_drop. lia.
Qed.

Lemma sub_app_l c d off n : 0 <= off -> off + n <= blen c -> sub (c ++ d) off n = sub c off n.
Proof.
  intros Ho Hn. unfold sub, blen in *. destruct (Z.le_gt_cases n 0).
  - replace (Z.to_nat n) with 0%nat by lia. done.
  - rewrite drop_app_le by lia. rewrite take_app_le; [done|]. rewrite length_drop. lia.
Qed.

Lemma sub_app_r c d off n : blen c <= off -> sub (c ++ d) off n = sub d (off - blen c) n.
Proof.
  intros Ho. unfold sub, blen in *. rewrite drop_app_ge by lia. do 2 f_equal. lia.
Qed.

Lemma sub_full bs n : n = blen bs -> sub bs 0 n = bs.
Proof. intros ->. unfold sub, blen. simpl. by rewrite Nat2Z.id, firstn_all. Qed.

Lemma sub_patch_eq c off bs n :
  0 <= off -> off + blen bs <= blen c -> n = blen bs -> sub (patch c off bs) off n = bs.
Proof.
  intros Ho Hb ->. unfold patch.
  assert (El : blen (take (Z.to_nat off) c) = off).
  { unfold blen in *. rewrite length_take. lia. }
  rewrite sub_app_r by lia. rewrite El, Z.sub_diag, sub_app_l by lia. by apply sub_full.
Qed.

Lemma sub_patch_lt c o bs off n :
  0 <= off -> off + n <= o -> o + blen bs <= blen c -> sub (patch c o bs) off n = sub c off n.
Proof.
  intros Ho Hn Hb. pose proof (blen_nonneg bs). unfold patch.
  destruct (Z.le_gt_cases n 0).
  { unfold sub. by replace (Z.to_nat n) with 0%nat by lia. }
  rewrite sub_app_l; [|done|unfold blen in *; rewrite length_take; lia].
  rewrite <- (take_drop (Z.to_nat o) c) at 2. rewrite sub_app_l; [done..|].
  unfold blen in *. rewrite length_take. lia.
Qed.

Lemma sub_patch_gt c o bs off n :
  0 <= o -> o + blen bs <= off -> o + blen bs <= blen c -> sub (patch c o bs) off n = sub c off n.
Proof.
  intros Ho Hn Hb. pose proof (blen_nonneg bs). unfold patch.
  assert (El : blen (take (Z.to_nat o) c) = o).
  { unfold blen in *. rewrite length_take. lia. }
  rewrite app_assoc, sub_app_r by (rewrite blen_app; lia).
  rewrite blen_app, El. unfold sub, blen in *. rewrite drop_drop. do 2 f_equal. lia.
Qed.

Lemma in_range_ok bs off n : 0 <= off -> off + n <= blen bs -> in_range bs off n = true.
Proof. intros. unfold in_range. by rewrite (proj2 (Z.leb_le _ _)), (proj2 (Z.leb_le _ _)). Qed.

Lemma get_ok bs n off :
  0 <= off -> off + n <= blen bs -> get bs n off = Ok (le_val (sub bs off n)).
Proof. intros. unfold get. by rewrite in_range_ok. Qed.

Lemma readBytes_ok bs off n :
  0 <= off -> 0 <= n -> off + n <= blen bs -> readBytes bs off n = Ok (sub bs off n).
Proof.
  intros. unfold readBytes. rewrite (proj2 (Z.ltb_ge _ _)) by lia. f_equal.
  unfold slice, sub. rewrite !(proj2 (Z.ltb_ge _ _)) by lia. rewrite !Z.min_l by lia.
  do 2 f_equal. lia.
Qed.

Lemma le_val_app (a b : bytes) :
  le_val (a ++ b) = le_val a + le_val b * 2 ^ (8 * Z.of_nat (length a)).
Proof.
  unfold le_val at 1. rewrite LittleEndianList.le_combine_app, Z.lor_comm.
  rewrite (Z.mul_comm _ 8), lor_add_field; [unfold le_val; ring|lia|apply le_val_range].
Qed.

(** ** The builder on its content *)

Definition content (b : WireBuilder) : bytes := take (Z.to_nat (len b)) (buf b).

(** The position is inside the buffer, and the rest of the buffer is zero. *)
Record wf (b : WireBuilder) : Prop := {
  wf_len : 0 <= len b <= blen (buf b);
  wf_zero : drop (Z.to_nat (len b)) (buf b) = zeros (blen (buf b) - len b);
}.

(** [m] takes a builder with content [c] to one with content [c'] and returns [a]. *)
Definition builds {A} (m : W A) (c c' : bytes) (a : A) : Prop :=
  forall b, wf b -> content b = c ->
    exists b', m b = (b', Ok a) /\ wf b' /\ content b' = c'.

Lemma builds_bind {A B} (m : W A) (k : A -> W B) c c1 c2 a r :
  builds m c c1 a -> builds (k a) c1 c2 r -> builds (bind m k) c c2 r.
Proof.
  intros Hm Hk b Hw Hc. destruct (Hm b Hw Hc) as (b1 & E1 & Hw1 & Hc1).
  destruct (Hk b1 Hw1 Hc1) as (b2 & E2 & Hw2 & Hc2).
  exists b2. unfold bind. by rewrite E1.
Qed.

Lemma builds_ret {A} (a : A) c : builds (ret a) c c a.
Proof. intros b Hw Hc. exists b. done. Qed.

Lemma blen_content b : wf b -> blen (content b) = len b.
Proof. intros [? _]. unfold content, blen in *. rewrite length_take. lia. Qed.

Lemma wf_new : wf newBuilder /\ content newBuilder = [].
Proof. split; [constructor; [vm_compute; split; discriminate|reflexivity]|reflexivity]. Qed.

Lemma zeros_app m n : 0 <= m -> 0 <= n -> zeros (m + n) = zeros m ++ zeros n.
Proof. intros. unfold zeros. by rewrite Z2Nat.inj_add, replicate_add. Qed.

Lemma drop_zeros m n : 0 <= m <= n -> drop (Z.to_nat m) (zeros n) = zeros (n - m).
Proof. intros. unfold zeros. rewrite drop_replicate. f_equal. lia. Qed.

Lemma take_zeros m n : 0 <= m <= n -> take (Z.to_nat m) (zeros n) = zeros m.
Proof. intros. unfold zeros. rewrite take_replicate. f_equal. lia. Qed.

(** Growing keeps the content and makes room. *)
Lemma grow_ok n b :
  0 <= n -> wf b -> exists b', grow n b = (b', Ok tt) /\ wf b' /\ content b' = content b /\
    len b' = len b /\ len b + n <= blen (buf b').
Proof.
  intros Hn Hw. pose proof (wf_len b Hw) as Hl. unfold grow. mrun.
  destruct (Z.leb_spec (len b + n) (blen (buf b))); [by exists b|].
  set (w := take (Z.to_nat (len b)) (buf b)). set (ns := Z.max _ _).
  assert (Ew : blen w = len b) by (by apply blen_content).
  assert (Hns : len b + n <= ns) by (unfold ns; lia).
  eexists. split; [reflexivity|]. simpl. unfold content. simpl.
  assert (Et : take (Z.to_nat (len b)) (w ++ zeros (ns - blen w)) = w).
  { rewrite take_app_le by (unfold blen in Ew; lia).
    apply take_ge. unfold blen in Ew. lia. }
  repeat split; simpl.
  - lia.
  - rewrite blen_app, blen_zeros; lia.
  - rewrite drop_app_ge by (unfold blen in Ew; lia).
    replace (Z.to_nat (len b) - length w)%nat with 0%nat by (unfold blen in Ew; lia).
    rewrite blen_app, blen_zeros by lia. rewrite drop_0. f_equal. lia.
  - exact Et.
  - rewrite blen_app, blen_zeros; lia.
Qed.

Lemma take_content b n :
  wf b -> 0 <= n -> len b + n <= blen (buf b) ->
  take (Z.to_nat (len b + n)) (buf b) = content b ++ zeros n.
Proof.
  intros [Hl Hz] Hn Hle. rewrite Z2Nat.inj_add by lia.
  rewrite <- (take_drop (Z.to_nat (len b)) (buf b)) at 1.
  assert (El : length (take (Z.to_nat (len b)) (buf b)) = Z.to_nat (len b)).
  { rewrite length_take. unfold blen in *. lia. }
  rewrite take_app_ge by lia. rewrite El.
  replace (Z.to_nat (len b) + Z.to_nat n - Z.to_nat (len b))%nat with (Z.to_nat n) by lia.
  rewrite Hz, take_zeros by lia. done.
Qed.

Lemma advance_ok n b :
  wf b -> 0 <= n -> len b + n <= blen (buf b) ->
  exists b', advance n b = (b', Ok (len b)) /\ wf b' /\ content b' = content b ++ zeros n /\
    len b' = len b + n.
Proof.
  intros Hw Hn Hle. pose proof Hw as [Hl Hz]. unfold advance. mrun.
  eexists. split; [reflexivity|]. repeat split; simpl; try lia.
  - rewrite Z2Nat.inj_add by lia. rewrite <- drop_drop, Hz, drop_zeros by lia. f_equal. lia.
  - unfold content. simpl. by apply take_content.
Qed.

Lemma builds_reserve n c :
  0 <= n -> builds (reserveWords n) c (c ++ zeros (n * WORD)) (blen c).
Proof.
  intros Hn b Hw <-. unfold reserveWords, bind, WORD in *.
  destruct (grow_ok (n * 8) b ltac:(lia) Hw) as (b1 & -> & Hw1 & Hc1 & Hl1 & Hr1).
  destruct (advance_ok (n * 8) b1 Hw1 ltac:(lia) ltac:(lia)) as (b2 & -> & Hw2 & Hc2 & _).
  exists b2. rewrite Hl1, blen_content by done. rewrite <- Hc1. done.
Qed.

Lemma builds_set off bs c :
  0 <= off -> off + blen bs <= blen c -> builds (setBytes off bs) c (patch c off bs) tt.
Proof.
  intros Ho Hb b Hw <-. rewrite blen_content in Hb by done. pose proof Hw as [Hl Hz].
  unfold setBytes. rewrite in_range_ok by lia. eexists. split; [reflexivity|].
  assert (Hp : blen (patch (buf b) off bs) = blen (buf b)) by (apply blen_patch; lia).
  pose proof (blen_nonneg bs) as Hn.
  repeat split; simpl; rewrite ?Hp; try lia.
  - rewrite <- Hz. unfold patch, blen in *. rewrite drop_app_ge by (rewrite length_take; lia).
    rewrite drop_app_ge by (rewrite length_take; lia). rewrite drop_drop. f_equal.
    rewrite length_take. lia.
  - unfold content, patch, blen in *. simpl. rewrite take_app_ge by (rewrite length_take; lia).
    rewrite take_app_ge by (rewrite length_take; lia). rewrite take_take, Nat.min_l by lia.
    do 2 f_equal. rewrite length_take, skipn_firstn_comm. f_equal. lia.
Qed.

Lemma padded_spec n : 0 <= n -> n + 7 < 2 ^ 31 ->
  padded n mod 8 = 0 /\ n <= padded n < n + 8.
Proof.
  intros Hn Hm. unfold padded, js_and, js_not, WORD.
  change (i32 (Z.lnot (8 - 1))) with (Z.lnot (Z.ones 3)).
  rewrite <- Z.ldiff_land, Z.ldiff_ones_r by lia.
  rewrite Z.shiftr_div_pow2, Z.shiftl_mul_pow2 by lia. change (2 ^ 3) with 8.
  pose proof (Z.div_mod (n + 8 - 1) 8 ltac:(lia)). pose proof (Z.mod_pos_bound (n + 8 - 1) 8 ltac:(lia)).
  rewrite i32_small by lia. split; [apply Z.mod_mul; lia|lia].
Qed.

Lemma builds_append bs c :
  blen bs + 7 < 2 ^ 31 ->
  builds (appendBytesPadded bs) c (c ++ bs ++ zeros (padded (blen bs) - blen bs)) (blen c).
Proof.
  intros Hm b Hw <-. destruct (padded_spec (blen bs) (blen_nonneg bs) Hm) as [_ [Hp _]].
  pose proof (blen_nonneg bs) as Hn.
  unfold appendBytesPadded, bind, read.
  destruct (grow_ok (padded (blen bs)) b ltac:(lia) Hw) as (b1 & -> & Hw1 & Hc1 & Hl1 & Hr1).
  (* reserve first, then patch: the two orders give the same buffer *)
  destruct (advance_ok (padded (blen bs)) b1 Hw1 ltac:(lia) ltac:(lia))
    as (b2 & E2 & Hw2 & Hc2 & Hl2).
  destruct (builds_set (len b1) bs (content b2) ltac:(destruct Hw1; lia)
    ltac:(rewrite blen_content by done; lia) b2 Hw2 eq_refl) as (b3 & E3 & Hw3 & Hc3).
  exists b3. revert E2 E3. unfold advance, setBytes. mrun. intros [= <-]. simpl.
  rewrite !in_range_ok by (pose proof (wf_len _ Hw1); lia). intros [= <-]. simpl.
  split; [by rewrite Hl1, blen_content|]. split; [done|]. rewrite Hc3, Hc2, Hc1.
  pose proof (blen_content _ Hw) as Eb. rewrite Hl1 at 1. unfold patch, blen in *.
  rewrite take_app_le by lia. rewrite take_ge by lia. f_equal. f_equal.
  rewrite drop_app_ge by lia.
  replace (Z.to_nat (len b) + length bs - length (content b))%nat with (Z.to_nat (Z.of_nat (length bs))) by lia.
  rewrite drop_zeros by lia. done.
Qed.

Lemma builds_finalize c :
  blen c mod WORD = 0 ->
  builds finalize c c (zeros 4 ++ le_bytes 4 (blen c / WORD) ++ c).
Proof.
  intros Hm b Hw Hc. exists b. unfold finalize. pose proof (blen_content b Hw) as El.
  rewrite Hc in El. rewrite <- El, Hm. cbv iota beta. change (0 =? 0) with true. cbv iota.
  fold (content b) in *. rewrite El. unfold content in Hc at 1. rewrite Hc. done.
Qed.

Lemma run_builds {A} (m : W A) c a : builds m [] c a -> run_builder m = Ok a.
Proof.
  intros H. destruct wf_new as [Hw Hc]. destruct (H newBuilder Hw Hc) as (b & E & _).
  unfold run_builder. by rewrite E.
Qed.

(** ** Pointers *)

Lemma u32_js_or a b : u32 (js_or a b) = u32 (Z.lor a b).
Proof. apply u32_i32. Qed.

Lemma js_and_ones a n : 0 <= n <= 31 -> js_and a (2 ^ n - 1) = a mod 2 ^ n.
Proof.
  intros Hn. unfold js_and. rewrite land_ones_mod by lia. apply i32_small.
  pose proof (Z.mod_pos_bound a (2 ^ n) ltac:(lia)).
  assert (2 ^ n <= 2 ^ 31) by (apply Z.pow_le_mono_r; lia). lia.
Qed.

(** A field shifted over a low field, as an unsigned word. *)
Lemma u32_field hi lo n :
  0 <= n -> 0 <= hi -> 0 <= lo < 2 ^ n -> hi * 2 ^ n + lo < 2 ^ 32 ->
  u32 (js_or (js_shl hi n) lo) = hi * 2 ^ n + lo /\
  u32 (js_or lo (js_shl hi n)) = hi * 2 ^ n + lo.
Proof.
  intros Hn Hh Hl Hlt.
  assert (E : u32 (js_or (js_shl hi n) lo) = hi * 2 ^ n + lo).
  { rewrite u32_js_or. rewrite (u32_lor _ lo (Z.shiftl hi n) lo); [|apply u32_i32|done].
    rewrite lor_add_field by done. apply u32_small. lia. }
  split; [done|]. unfold js_or in *. by rewrite Z.lor_comm.
Qed.

Lemma ptr_lo_word ow kind :
  0 <= kind < 4 -> u32 (ptr_lo ow kind) = (ow mod 2 ^ 30) * 4 + kind.
Proof.
  intros Hk. unfold ptr_lo. change 1073741823 with (2 ^ 30 - 1). rewrite js_and_ones by lia.
  pose proof (Z.mod_pos_bound ow (2 ^ 30) ltac:(lia)).
  apply (proj1 (u32_field (ow mod 2 ^ 30) kind 2 ltac:(lia) ltac:(lia) ltac:(lia) ltac:(lia))).
Qed.

Lemma struct_hi_word dw pw :
  u32 (struct_hi dw pw) = (pw mod 2 ^ 16) * 2 ^ 16 + dw mod 2 ^ 16.
Proof.
  unfold struct_hi. change 65535 with (2 ^ 16 - 1). rewrite !js_and_ones by lia.
  pose proof (Z.mod_pos_bound dw (2 ^ 16) ltac:(lia)).
  pose proof (Z.mod_pos_bound pw (2 ^ 16) ltac:(lia)).
  apply (proj2 (u32_field (pw mod 2 ^ 16) (dw mod 2 ^ 16) 16 ltac:(lia) ltac:(lia) ltac:(lia) ltac:(lia))).
Qed.

Lemma list_hi_word es cnt :
  u32 (list_hi es cnt) = (cnt mod 2 ^ 29) * 8 + es mod 8.
Proof.
  unfold list_hi. change 536870911 with (2 ^ 29 - 1). change 7 with (2 ^ 3 - 1).
  rewrite !js_and_ones by lia. change (2 ^ 3) with 8.
  pose proof (Z.mod_pos_bound cnt (2 ^ 29) ltac:(lia)).
  pose proof (Z.mod_pos_bound es 8 ltac:(lia)).
  apply (proj2 (u32_field (cnt mod 2 ^ 29) (es mod 8) 3 ltac:(lia) ltac:(lia) ltac:(lia) ltac:(lia))).
Qed.

(** The 30-bit offset field is a signed field. *)
Lemma signExtend30_spec raw :
  0 <= raw < 2 ^ 30 ->
  signExtend30 raw = if raw <? 2 ^ 29 then raw else raw - 2 ^ 30.
Proof.
  intros Hr. unfold signExtend30.
  assert (E : js_and raw 536870912 = if raw <? 2 ^ 29 then 0 else 2 ^ 29).
  { unfold js_and. change 536870912 with (2 ^ 29).
    assert (Hl : Z.land raw (2 ^ 29) = if raw <? 2 ^ 29 then 0 else 2 ^ 29).
    { apply Z.bits_inj'. intros k Hk. rewrite Z.land_spec, Z.pow2_bits_eqb by lia.
      destruct (Z.eqb_spec 29 k) as [<-|Hne].
      - rewrite andb_true_r. destruct (Z.ltb_spec raw (2 ^ 29)).
        + rewrite Z.bits_0. rewrite <- (Z.mod_small raw (2 ^ 29)) by lia.
          by apply Z.mod_pow2_bits_high.
        + rewrite Z.pow2_bits_true by lia. apply Z.testbit_true; [lia|].
          replace (raw / 2 ^ 29) with 1; [done|].
          apply (Z.div_unique _ _ _ (raw - 2 ^ 29)); lia.
      - rewrite andb_false_r. destruct (raw <? 2 ^ 29);
          [by rewrite Z.bits_0|by rewrite Z.pow2_bits_false]. }
    rewrite Hl. apply i32_small. destruct (raw <? 2 ^ 29); lia. }
  rewrite E. destruct (Z.ltb_spec raw (2 ^ 29)); [done|].
  change (2 ^ 29 =? 0) with false. cbv iota. unfold js_or.
  change (js_not 1073741823) with (Z.shiftl (-1) 30).
  rewrite Z.lor_comm, lor_add_field by lia. rewrite i32_small by lia. lia.
Qed.

Lemma le_val_word v : le_val (le_bytes 4 (js_ushr v 0)) = u32 v.
Proof.
  rewrite le_val_bytes. unfold js_ushr. rewrite Z.shiftr_0_r.
  apply Z.mod_small, u32_range.
Qed.

(** A struct pointer as two words, and what the reader makes of it. *)
Definition pointer_words (lo hi : Z) : bytes :=
  le_bytes 4 (js_ushr lo 0) ++ le_bytes 4 (js_ushr hi 0).

Lemma blen_pointer_words lo hi : blen (pointer_words lo hi) = 8.
Proof. unfold pointer_words. by rewrite blen_app, !blen_le_bytes. Qed.

Lemma builds_pointer c at_ lo hi :
  0 <= at_ -> at_ + 8 <= blen c ->
  builds (do* writeU32 at_ lo in writeU32 (at_ + 4) hi) c (patch c at_ (pointer_words lo hi)) tt.
Proof.
  intros Ha Hl. eapply builds_bind.
  - apply builds_set; rewrite ?blen_le_bytes; lia.
  - assert (E : patch c at_ (pointer_words lo hi) =
      patch (patch c at_ (le_bytes 4 (js_ushr lo 0))) (at_ + 4) (le_bytes 4 (js_ushr hi 0))).
    { unfold pointer_words, patch. set (x := le_bytes 4 _). set (y := le_bytes 4 _).
      assert (Hx : length x = 4%nat) by apply length_le_bytes.
      assert (Hy : length y = 4%nat) by apply length_le_bytes.
      unfold blen in *. rewrite length_app, Hx, Hy.
      replace (Z.to_nat (at_ + 4)) with (Z.to_nat at_ + 4)%nat by lia.
      assert (Ht : length (take (Z.to_nat at_) c) = Z.to_nat at_) by (rewrite length_take; lia).
      rewrite (take_app_ge (take (Z.to_nat at_) c)) by lia. rewrite Ht.
      replace (Z.to_nat at_ + 4 - Z.to_nat at_)%nat with 4%nat by lia.
      rewrite (take_app_le x) by lia. rewrite (take_ge x) by lia.
      rewrite (drop_app_ge (take (Z.to_nat at_) c)) by lia. rewrite Ht.
      rewrite (drop_app_ge x) by lia. rewrite drop_drop, Hx, <- !app_assoc.
      do 4 f_equal. lia. }
    rewrite E. apply builds_set; [lia|]. rewrite blen_patch, blen_le_bytes; rewrite ?blen_le_bytes; lia.
Qed.

Lemma le_val_sub_pointer lo hi :
  le_val (sub (pointer_words lo hi) 0 4) = u32 lo /\ le_val (sub (pointer_words lo hi) 4 4) = u32 hi.
Proof.
  unfold pointer_words. split.
  - rewrite sub_app_l, sub_full; rewrite ?blen_le_bytes; [apply le_val_word|lia..].
  - rewrite sub_app_r; rewrite ?blen_le_bytes; [|lia]. rewrite sub_full; [apply le_val_word|].
    by rewrite blen_le_bytes.
Qed.

Lemma sub_sub c off n o m :
  0 <= off -> 0 <= o -> 0 <= m -> o + m <= n -> sub (sub c off n) o m = sub c (off + o) m.
Proof.
  intros. unfold sub. rewrite skipn_firstn_comm, take_take, drop_drop.
  f_equal; [lia|]. f_equal. lia.
Qed.

(** The two words at [at_]. *)
Lemma words_at bs at_ lo hi :
  0 <= at_ -> at_ + 8 <= blen bs -> sub bs at_ 8 = pointer_words lo hi ->
  readU32 bs at_ = Ok (u32 lo) /\ readU32 bs (at_ + 4) = Ok (u32 hi).
Proof.
  intros Ha Hl E. unfold readU32. rewrite !get_ok by lia.
  destruct (le_val_sub_pointer lo hi) as [E1 E2]. rewrite <- E in E1, E2.
  rewrite sub_sub in E1, E2 by lia. rewrite Z.add_0_r in E1. by rewrite E1, E2.
Qed.

Lemma readStructPointer_words bs at_ ow dw pw :
  0 <= at_ -> at_ + 8 <= blen bs -> - 2 ^ 29 <= ow < 2 ^ 29 -> 0 <= dw < 2 ^ 16 -> 0 <= pw < 2 ^ 16 ->
  sub bs at_ 8 = pointer_words (ptr_lo ow KIND_STRUCT) (struct_hi dw pw) ->
  readStructPointer bs at_ = Ok (mkStructPtr (at_ + WORD + ow * WORD) dw pw).
Proof.
  intros Ha Hl Ho Hd Hp E. destruct (words_at _ _ _ _ Ha Hl E) as [E1 E2].
  unfold readStructPointer. rewrite E1, E2. unfold rbind.
  rewrite ptr_lo_word, struct_hi_word by (unfold KIND_STRUCT; lia).
  pose proof (Z.mod_pos_bound ow (2 ^ 30) ltac:(lia)) as Hb.
  change 3 with (2 ^ 2 - 1) at 1. rewrite js_and_ones by lia. change (2 ^ 2) with 4.
  unfold KIND_STRUCT. rewrite Z.add_0_r, Z.mod_mul by lia. change (0 =? 0) with true. cbv iota.
  rewrite js_ushr_div by lia. change (2 ^ 2) with 4. rewrite Z.div_mul by lia.
  rewrite signExtend30_spec by lia. rewrite (Z.mod_small dw), (Z.mod_small pw) by lia.
  change 65535 with (2 ^ 16 - 1). rewrite js_ushr_div by lia.
  rewrite Z.div_add_l, (Z.div_small dw) by lia. rewrite !js_and_ones by lia.
  rewrite Z.add_0_r, (Z.mod_small pw) by lia.
  rewrite (Z.add_comm (pw * 2 ^ 16)), Z.mod_add, (Z.mod_small dw) by lia.
  f_equal. f_equal. destruct (Z.lt_ge_cases ow 0).
  - rewrite <- (Z.mod_add ow 1), Z.mod_small in * by lia.
    rewrite (proj2 (Z.ltb_ge _ _)) by lia. lia.
  - rewrite Z.mod_small by lia. rewrite (proj2 (Z.ltb_lt _ _)) by lia. lia.
Qed.

Lemma readListPointer_words bs at_ ow es cnt :
  0 <= at_ -> at_ + 8 <= blen bs -> - 2 ^ 29 <= ow < 2 ^ 29 -> 0 <= es < 8 -> 0 <= cnt < 2 ^ 29 ->
  sub bs at_ 8 = pointer_words (ptr_lo ow KIND_LIST) (list_hi es cnt) ->
  readListPointer bs at_ = Ok (mkListPtr (at_ + WORD + ow * WORD) es cnt).
Proof.
  intros Ha Hl Ho Hd Hp E. destruct (words_at _ _ _ _ Ha Hl E) as [E1 E2].
  unfold readListPointer. rewrite E1, E2. unfold rbind.
  rewrite ptr_lo_word, list_hi_word by (unfold KIND_LIST; lia).
  pose proof (Z.mod_pos_bound ow (2 ^ 30) ltac:(lia)) as Hb.
  change 3 with (2 ^ 2 - 1) at 1. rewrite js_and_ones by lia. change (2 ^ 2) with 4.
  unfold KIND_LIST. rewrite (Z.add_comm (ow mod 2 ^ 30 * 4)), Z.mod_add by lia. change (1 mod 4 =? 1) with true. cbv iota.
  rewrite js_ushr_div by lia. change (2 ^ 2) with 4. rewrite Z.div_add by lia. change (1 / 4) with 0.
  rewrite Z.add_0_l, signExtend30_spec by lia. rewrite (Z.mod_small cnt), (Z.mod_small es) by lia.
  change 536870911 with (2 ^ 29 - 1). rewrite js_ushr_div by lia. change (2 ^ 3) with 8.
  rewrite Z.div_add_l, (Z.div_small es) by lia. change 7 with (2 ^ 3 - 1). rewrite !js_and_ones by lia.
  change (2 ^ 3) with 8. rewrite Z.add_0_r, (Z.mod_small cnt) by lia.
  rewrite (Z.add_comm (cnt * 8)), Z.mod_add, (Z.mod_small es) by lia.
  f_equal. f_equal. destruct (Z.lt_ge_cases ow 0).
  - rewrite <- (Z.mod_add ow 1), Z.mod_small in * by lia.
    rewrite (proj2 (Z.ltb_ge _ _)) by lia. lia.
  - rewrite Z.mod_small by lia. rewrite (proj2 (Z.ltb_lt _ _)) by lia. lia.
Qed.

(** Writing a pointer is a patch of its word. *)
Lemma builds_struct_pointer c at_ target dw pw :
  0 <= at_ -> at_ + 8 <= blen c -> (target - (at_ + WORD)) mod WORD = 0 ->
  builds (writeStructPointer at_ target dw pw) c
    (patch c at_ (pointer_words (ptr_lo ((target - (at_ + WORD)) / WORD) KIND_STRUCT)
                                (struct_hi dw pw))) tt.
Proof.
  intros Ha Hl Hm. unfold writeStructPointer. rewrite Hm. change (0 =? 0) with true. cbv iota.
  by apply builds_pointer.
Qed.

Lemma builds_list_pointer c at_ target es cnt :
  0 <= at_ -> at_ + 8 <= blen c -> (target - (at_ + WORD)) mod WORD = 0 ->
  builds (writeListPointer at_ target es cnt) c
    (patch c at_ (pointer_words (ptr_lo ((target - (at_ + WORD)) / WORD) KIND_LIST)
                                (list_hi es cnt))) tt.
Proof.
  intros Ha Hl Hm. unfold writeListPointer. rewrite Hm. change (0 =? 0) with true. cbv iota.
  by apply builds_pointer.
Qed.

(** The framed message. *)
Definition framed (c : bytes) : bytes := zeros 4 ++ le_bytes 4 (blen c / WORD) ++ c.

Lemma blen_framed c : blen (framed c) = 8 + blen c.
Proof. unfold framed. rewrite !blen_app, blen_zeros, blen_le_bytes; lia. Qed.

Lemma sub_framed c off n : 0 <= off -> sub (framed c) (8 + off) n = sub c off n.
Proof.
  intros Ho. unfold framed. rewrite app_assoc, sub_app_r.
  - rewrite blen_app, blen_zeros, blen_le_bytes by lia. f_equal. lia.
  - rewrite blen_app, blen_zeros, blen_le_bytes; lia.
Qed.

Lemma readSegmentStart_framed c :
  blen c mod WORD = 0 -> blen c < 2 ^ 32 -> readSegmentStart (framed c) = Ok 8.
Proof.
  intros Hm Hl. pose proof (blen_nonneg c). unfold readSegmentStart, WORD in *.
  rewrite (proj2 (Z.ltb_ge _ _)) by (rewrite blen_framed; lia).
  unfold readU32. rewrite !get_ok by (rewrite ?blen_framed; lia).
  assert (E0 : sub (framed c) 0 4 = zeros 4).
  { unfold framed. rewrite sub_app_l, sub_full; rewrite ?blen_zeros; lia || done. }
  assert (E4 : sub (framed c) 4 4 = le_bytes 4 (blen c / 8)).
  { unfold framed. rewrite sub_app_r by (rewrite blen_zeros; lia). rewrite blen_zeros by lia.
    rewrite sub_app_l, sub_full; rewrite ?blen_le_bytes; lia || done. }
  rewrite E0, E4. change (le_val (zeros 4)) with 0. unfold rbind. change (0 =? 0) with true.
  cbv iota. rewrite le_val_bytes, Z.mod_small.
  - rewrite (proj2 (Z.ltb_ge _ _)); [done|]. rewrite blen_framed.
    pose proof (Z.div_mod (blen c) 8 ltac:(lia)). lia.
  - split; [apply Z.div_pos; lia|]. apply Z.div_lt_upper_bound; lia.
Qed.

(** ** The composite-list tag *)

Lemma js_and_bit29 x :
  0 <= x < 2 ^ 30 -> (js_and x 536870912 =? 0) = (x <? 2 ^ 29).
Proof.
  intros Hx. pose proof (signExtend30_spec x Hx) as Hs. unfold signExtend30 in Hs.
  destruct (js_and x 536870912 =? 0) eqn:E, (Z.ltb_spec x (2 ^ 29)); try done; exfalso.
  - lia.
  - unfold js_or in Hs. change (js_not 1073741823) with (Z.shiftl (-1) 30) in Hs.
    rewrite Z.lor_comm, lor_add_field, i32_small in Hs by lia. lia.
Qed.

(** What the reader returns for a tag word that was written for [count] elements. *)
Lemma readCompositeListTag_words bs at_ count dw pw :
  0 <= at_ -> at_ + 8 <= blen bs -> 0 <= count < 2 ^ 28 -> 0 <= dw < 2 ^ 16 -> 0 <= pw < 2 ^ 16 ->
  sub bs at_ 8 = pointer_words (ptr_lo count KIND_STRUCT) (struct_hi dw pw) ->
  readCompositeListTag bs at_ =
  Ok (if count <? 2 ^ 27 then count else count - 2 ^ 30, dw, pw).
Proof.
  intros Ha Hl Ho Hd Hp E. destruct (words_at _ _ _ _ Ha Hl E) as [E1 E2].
  unfold readCompositeListTag. rewrite E1, E2. unfold rbind.
  rewrite ptr_lo_word, struct_hi_word by (unfold KIND_STRUCT; lia).
  rewrite (Z.mod_small count) by lia. unfold KIND_STRUCT. rewrite Z.add_0_r.
  change 3 with (2 ^ 2 - 1) at 1. rewrite js_and_ones by lia. change (2 ^ 2) with 4.
  rewrite Z.mod_mul by lia. change (0 =? 0) with true. cbv iota.
  rewrite js_and_bit29 by lia. rewrite js_ushr_div by lia. change (2 ^ 2) with 4.
  rewrite Z.div_mul by lia. rewrite (Z.mod_small dw), (Z.mod_small pw) by lia.
  change 65535 with (2 ^ 16 - 1). rewrite js_ushr_div by lia.
  rewrite Z.div_add_l, (Z.div_small dw) by lia. rewrite !js_and_ones by lia.
  rewrite Z.add_0_r, (Z.mod_small pw) by lia.
  rewrite (Z.add_comm (pw * 2 ^ 16)), Z.mod_add, (Z.mod_small dw) by lia.
  do 3 f_equal. destruct (Z.ltb_spec (count * 4) (2 ^ 29)), (Z.ltb_spec count (2 ^ 27)); try lia.
  unfold js_or. change (js_not 1073741823) with (Z.shiftl (-1) 30).
  rewrite Z.lor_comm, lor_add_field, i32_small by lia. lia.
Qed.

(** The element count of a composite list is read correctly below 2^27 elements
    and comes out negative above.  The sign test looks at bit 29 of the whole tag
    word instead of bit 29 of the count field, so a tag written for [count] elements
    with 2^27 <= count < 2^28 reads as [count - 2^30]. *)
Theorem composite_tag_count c at_ count dw pw :
  0 <= at_ -> at_ + 8 <= blen c -> 0 <= count < 2 ^ 28 -> 0 <= dw < 2 ^ 16 -> 0 <= pw < 2 ^ 16 ->
  readCompositeListTag (patch c at_ (pointer_words (ptr_lo count KIND_STRUCT) (struct_hi dw pw))) at_
  = Ok (if count <? 2 ^ 27 then count else count - 2 ^ 30, dw, pw).
Proof.
  intros Ha Hl Hc Hd Hp. apply readCompositeListTag_words; try done.
  - rewrite blen_patch; rewrite ?blen_pointer_words; done.
  - apply sub_patch_eq; rewrite ?blen_pointer_words; done.
Qed.

Lemma composite_tag_count_witness :
  readCompositeListTag (patch (zeros 8) 0 (pointer_words (ptr_lo (2 ^ 27) KIND_STRUCT) (struct_hi 1 1))) 0
  = Ok (- 939524096, 1, 1).
Proof.
  exact (composite_tag_count (zeros 8) 0 (2 ^ 27) 1 1 ltac:(lia) ltac:(vm_compute; discriminate)
    ltac:(lia) ltac:(lia) ltac:(lia)).
Defined.

Lemma builds_ext {A} (m m' : W A) c c' a :
  (forall b, m b = m' b) -> builds m' c c' a -> builds m c c' a.
Proof.
  intros E Hm b Hw Hc. destruct (Hm b Hw Hc) as (b' & Eb & ?). exists b'. by rewrite E.
Qed.

Lemma bind_assoc {S E A B C} (m : M S E A) (k : A -> M S E B) (h : B -> M S E C) s :
  bind (bind m k) h s = bind m (fun x => bind (k x) h) s.
Proof. unfold bind. by destruct (m s) as [s' [a|e]]. Qed.

(** Reserving a composite list appends its zeroed body and writes the tag word. *)
Lemma builds_composite c count dw pw :
  0 <= count -> 0 <= dw -> 0 <= pw ->
  builds (reserveCompositeList count dw pw) c
    (patch (c ++ zeros ((1 + count * (dw + pw)) * WORD)) (blen c)
       (pointer_words (ptr_lo count KIND_STRUCT) (struct_hi dw pw))) (blen c).
Proof.
  intros Hc Hd Hp. set (k := 1 + count * (dw + pw)). assert (Hk : 1 <= k) by (unfold k; nia).
  apply (builds_ext _ (let* tagOff := reserveWords k in
    do* (do* writeU32 tagOff (ptr_lo count KIND_STRUCT) in
         writeU32 (tagOff + 4) (struct_hi dw pw)) in ret tagOff)).
  - intros b. unfold reserveCompositeList. fold k. unfold reserveWords. rewrite bind_assoc.
    unfold bind. destruct (grow (k * WORD) b) as [b1 [[]|]]; [|done].
    destruct (advance (k * WORD) b1) as [b2 [t|]]; [|done].
    by destruct (writeU32 t (ptr_lo count KIND_STRUCT) b2) as [b3 [[]|]].
  - eapply builds_bind; [apply builds_reserve; lia|]. eapply builds_bind; [|apply builds_ret].
    apply builds_pointer; [apply blen_nonneg|].
    rewrite blen_app, blen_zeros by (unfold WORD; lia). unfold WORD. lia.
Qed.

(** Setting bit 0 of a zero byte. *)
Lemma builds_bit0 c off v :
  0 <= off -> off + 1 <= blen c -> sub c off 1 = zeros 1 ->
  builds (writeBit off 0 v) c (patch c off (le_bytes 1 (if v : bool then 1 else 0))) tt.
Proof.
  intros Ho Hl Hs. unfold writeBit. eapply builds_bind.
  - intros b Hw Hc. exists b. unfold getUint8. pose proof (wf_len b Hw) as Hlen.
    assert (El : blen c = len b) by (rewrite <- Hc; by apply blen_content).
    rewrite in_range_ok by lia. split; [|done]. do 2 f_equal.
    assert (E : take 1 (drop (Z.to_nat off) (buf b)) = zeros 1).
    { rewrite <- Hs, <- Hc. unfold sub, content. unfold blen in *.
      rewrite skipn_firstn_comm, take_take. f_equal. lia. }
    by rewrite E.
  - destruct v; apply builds_set; rewrite ?blen_le_bytes; lia.
Qed.

End Codec.
