(* ===== verification/WireMessages.v ===== *)
(** * The wire messages (src/wire/manifest.ts, src/wire/tool-call.ts,
    src/wire/tool-result.ts)

    The encoders are builder programs and the decoders reader programs, as in the
    sources.  The proofs run the encoders in a small program logic: a triple
    [{n, fs} m {n', fs'}] says that from a content of [n] bytes that has the byte
    strings [fs] at their places, [m] ends in one of [n'] bytes that has [fs']. *)
From S2P Require Import Prelude.
From S2P Require Import JsString.
From S2P Require Import JsInt.
From S2P Require Import Codec.

Module WireMessages.
Import Codec.

(** ** Manifest *)

Definition MANIFEST_PUBKEY_BYTES : Z := 32.
Definition MANIFEST_SIG_BYTES : Z := 64.
Definition MANIFEST_HASH_BYTES : Z := 32.
Definition MANIFEST_ENCODED_BYTES : Z := 176.

Record Manifest := mkManifest {
  sequence : Z;
  publicKey : bytes;
  signature : bytes;
  contentHash : bytes;
}.

Definition encodeManifest (m : Manifest) : result wire_error bytes :=
  if blen (publicKey m) =? MANIFEST_PUBKEY_BYTES then
  if blen (signature m) =? MANIFEST_SIG_BYTES then
  if blen (contentHash m) =? MANIFEST_HASH_BYTES then
    run_builder (
      let* rootPtr := reserveWords 1 in
      let* dataOff := reserveWords 1 in
      let* p0Off := reserveWords 1 in
      let* p1Off := reserveWords 1 in
      let* p2Off := reserveWords 1 in
      do* writeStructPointer rootPtr dataOff 1 3 in
      do* writeU64 dataOff (sequence m) in
      let* pkOff := appendBytesPadded (publicKey m) in
      do* writeListPointer p0Off pkOff ELEM_BYTE MANIFEST_PUBKEY_BYTES in
      let* sigOff := appendBytesPadded (signature m) in
      do* writeListPointer p1Off sigOff ELEM_BYTE MANIFEST_SIG_BYTES in
      let* chOff := appendBytesPadded (contentHash m) in
      do* writeListPointer p2Off chOff ELEM_BYTE MANIFEST_HASH_BYTES in
      finalize)
  else Throw (FieldLength (blen (contentHash m)))
  else Throw (FieldLength (blen (signature m)))
  else Throw (FieldLength (blen (publicKey m))).

Definition shape_ok (p : ListPtr) (count : Z) : bool :=
  (lp_elementSize p =? ELEM_BYTE) && (lp_count p =? count).
Definition shape_error (p : ListPtr) : wire_error := FieldShape (lp_elementSize p) (lp_count p).

Definition decodeManifest (bs : bytes) : result wire_error Manifest :=
  let? segStart := readSegmentStart bs in
  let? root := readStructPointer bs segStart in
  if (sp_dataWords root <? 1) || (sp_ptrWords root <? 3)
  then Throw (StructTooSmall (sp_dataWords root) (sp_ptrWords root)) else
  let? sequence := readU64 bs (sp_target root) in
  let? ptr0 := readListPointer bs (sp_target root + 1 * WORD) in
  let? ptr1 := readListPointer bs (sp_target root + 2 * WORD) in
  let? ptr2 := readListPointer bs (sp_target root + 3 * WORD) in
  check (shape_ok ptr0 MANIFEST_PUBKEY_BYTES) (shape_error ptr0) (
  check (shape_ok ptr1 MANIFEST_SIG_BYTES) (shape_error ptr1) (
  check (shape_ok ptr2 MANIFEST_HASH_BYTES) (shape_error ptr2) (
  let? pk := readBytes bs (lp_target ptr0) MANIFEST_PUBKEY_BYTES in
  let? sg := readBytes bs (lp_target ptr1) MANIFEST_SIG_BYTES in
  let? ch := readBytes bs (lp_target ptr2) MANIFEST_HASH_BYTES in
  Ok (mkManifest sequence pk sg ch)))).

(** ** Text and data fields *)

Definition encodeTextWithNul (s : jsstr) : bytes := utf8_encode s ++ zeros 1.

Definition decodeTextWithNul (bs : bytes) : result wire_error jsstr :=
  match last bs with
  | None => Throw EmptyText
  | Some b =>
      if b2z b =? 0 then
        match utf8_decode_fatal (take (length bs - 1) bs) with
        | Some s => Ok s
        | None => Throw InvalidUtf8
        end
      else Throw MissingNul
  end.

Definition readData (bs : bytes) (at_ : Z) : result wire_error bytes :=
  let? ptr := readListPointer bs at_ in
  check (lp_elementSize ptr =? ELEM_BYTE) (shape_error ptr)
    (readBytes bs (lp_target ptr) (lp_count ptr)).

Definition readText (bs : bytes) (at_ : Z) : result wire_error jsstr :=
  let? ptr := readListPointer bs at_ in
  check (lp_elementSize ptr =? ELEM_BYTE) (shape_error ptr)
    (let? raw := readBytes bs (lp_target ptr) (lp_count ptr) in decodeTextWithNul raw).

(** ** ToolCall *)

Record ToolCall := mkToolCall {
  upstreamId : jsstr;
  toolName : jsstr;
  argumentsJson : bytes;
}.

Definition encodeToolCall (tc : ToolCall) : result wire_error bytes :=
  run_builder (
    let* rootPtr := reserveWords 1 in
    let* p0Off := reserveWords 1 in
    let* p1Off := reserveWords 1 in
    let* p2Off := reserveWords 1 in
    do* writeStructPointer rootPtr p0Off 0 3 in
    let idBytes := encodeTextWithNul (upstreamId tc) in
    let nameBytes := encodeTextWithNul (toolName tc) in
    let* idAt := appendBytesPadded idBytes in
    do* writeListPointer p0Off idAt ELEM_BYTE (blen idBytes) in
    let* nameAt := appendBytesPadded nameBytes in
    do* writeListPointer p1Off nameAt ELEM_BYTE (blen nameBytes) in
    let* argsAt := appendBytesPadded (argumentsJson tc) in
    do* writeListPointer p2Off argsAt ELEM_BYTE (blen (argumentsJson tc)) in
    finalize).

Definition decodeToolCall (bs : bytes) : result wire_error ToolCall :=
  let? segStart := readSegmentStart bs in
  let? root := readStructPointer bs segStart in
  if sp_ptrWords root <? 3
  then Throw (StructTooSmall (sp_dataWords root) (sp_ptrWords root)) else
  let ptrSection := sp_target root + sp_dataWords root * WORD in
  let idAt := ptrSection + 0 * WORD in
  let nameAt := ptrSection + 1 * WORD in
  let argsAt := ptrSection + 2 * WORD in
  let? n0 := isNullPointer bs idAt in
  let? id := if n0 : bool then Ok [] else readText bs idAt in
  let? n1 := isNullPointer bs nameAt in
  let? name := if n1 : bool then Ok [] else readText bs nameAt in
  let? n2 := isNullPointer bs argsAt in
  let? args := if n2 : bool then Ok [] else readData bs argsAt in
  Ok (mkToolCall id name args).

(** ** ToolResult *)

Definition ELEM_COMPOSITE : Z := 7.
Definition DISCRIM_TEXT : Z := 0.
Definition DISCRIM_BINARY : Z := 1.
Definition DISCRIM_RESOURCE : Z := 2.
Definition CONTENT_DATA_WORDS : Z := 1.
Definition CONTENT_PTR_WORDS : Z := 1.
Definition CONTENT_ELEM_WORDS : Z := CONTENT_DATA_WORDS + CONTENT_PTR_WORDS.

Record BinaryContent := mkBinary { bin_data : bytes; mimeType : jsstr }.
Inductive Content :=
  | CText (text : jsstr)
  | CBinary (binary : BinaryContent)
  | CResource (resource : bytes).

Record ToolResult := mkToolResult { tr_content : list Content; isError : bool }.

Definition encodeContentElement (c : Content) (elemDataOff elemPtrOff : Z) : W unit :=
  match c with
  | CText text =>
      do* writeU16 elemDataOff DISCRIM_TEXT in
      let textBytes := encodeTextWithNul text in
      let* at_ := appendBytesPadded textBytes in
      writeListPointer elemPtrOff at_ ELEM_BYTE (blen textBytes)
  | CBinary binary =>
      do* writeU16 elemDataOff DISCRIM_BINARY in
      let* bcSection := reserveWords 2 in
      do* writeStructPointer elemPtrOff bcSection 0 2 in
      let* dataAt := appendBytesPadded (bin_data binary) in
      do* writeListPointer (bcSection + 0 * WORD) dataAt ELEM_BYTE (blen (bin_data binary)) in
      let mtBytes := encodeTextWithNul (mimeType binary) in
      let* mtAt := appendBytesPadded mtBytes in
      writeListPointer (bcSection + 1 * WORD) mtAt ELEM_BYTE (blen mtBytes)
  | CResource resource =>
      do* writeU16 elemDataOff DISCRIM_RESOURCE in
      let* at_ := appendBytesPadded resource in
      writeListPointer elemPtrOff at_ ELEM_BYTE (blen resource)
  end.

(** The loop over the elements from [i] on. *)
Fixpoint encodeContents (tagOff i : Z) (cs : list Content) : W unit :=
  match cs with
  | [] => ret tt
  | c :: cs' =>
      let elemOff := tagOff + WORD + i * CONTENT_ELEM_WORDS * WORD in
      do* encodeContentElement c elemOff (elemOff + CONTENT_DATA_WORDS * WORD) in
      encodeContents tagOff (i + 1) cs'
  end.

Definition encodeToolResult (tr : ToolResult) : result wire_error bytes :=
  run_builder (
    let* rootPtr := reserveWords 1 in
    let* dataOff := reserveWords 1 in
    let* listPtrAt := reserveWords 1 in
    do* writeStructPointer rootPtr dataOff 1 1 in
    do* writeBit dataOff 0 (isError tr) in
    let count := Z.of_nat (length (tr_content tr)) in
    let* tagOff := reserveCompositeList count CONTENT_DATA_WORDS CONTENT_PTR_WORDS in
    do* writeListPointer listPtrAt tagOff ELEM_COMPOSITE (count * CONTENT_ELEM_WORDS) in
    do* encodeContents tagOff 0 (tr_content tr) in
    finalize).

Definition decodeContentElement (bs : bytes) (elemOff dataWords ptrWords : Z)
    : result wire_error Content :=
  if (dataWords <? 1) || (ptrWords <? 1) then Throw (StructTooSmall dataWords ptrWords) else
  let elemPtrOff := elemOff + dataWords * WORD in
  let? discriminant := readU16 bs elemOff in
  if discriminant =? DISCRIM_TEXT then
    let? text := readText bs elemPtrOff in Ok (CText text)
  else if discriminant =? DISCRIM_RESOURCE then
    let? raw := readData bs elemPtrOff in Ok (CResource raw)
  else if discriminant =? DISCRIM_BINARY then
    let? bc := readStructPointer bs elemPtrOff in
    if sp_ptrWords bc <? 2 then Throw (StructTooSmall (sp_dataWords bc) (sp_ptrWords bc)) else
    let bcPtrSection := sp_target bc + sp_dataWords bc * WORD in
    let? dataPtr := readListPointer bs (bcPtrSection + 0 * WORD) in
    let? mtPtr := readListPointer bs (bcPtrSection + 1 * WORD) in
    check (lp_elementSize dataPtr =? ELEM_BYTE) (shape_error dataPtr) (
    check (lp_elementSize mtPtr =? ELEM_BYTE) (shape_error mtPtr) (
    let? data := readBytes bs (lp_target dataPtr) (lp_count dataPtr) in
    let? raw := readBytes bs (lp_target mtPtr) (lp_count mtPtr) in
    let? mt := decodeTextWithNul raw in
    Ok (CBinary (mkBinary data mt))))
  else Throw (UnknownDiscriminant discriminant).

(** [for (i = 0; i < count; i++)]; [todo] is [count - i]. *)
Fixpoint decodeContents (bs : bytes) (base dataWords ptrWords i : Z) (todo : nat)
    : result wire_error (list Content) :=
  match todo with
  | O => Ok []
  | S todo' =>
      let elemOff := base + i * (dataWords + ptrWords) * WORD in
      let? c := decodeContentElement bs elemOff dataWords ptrWords in
      let? cs := decodeContents bs base dataWords ptrWords (i + 1) todo' in
      Ok (c :: cs)
  end.

Definition decodeToolResult (bs : bytes) : result wire_error ToolResult :=
  let? segStart := readSegmentStart bs in
  let? root := readStructPointer bs segStart in
  if (sp_dataWords root <? 1) || (sp_ptrWords root <? 1)
  then Throw (StructTooSmall (sp_dataWords root) (sp_ptrWords root)) else
  let? bit := readBit bs (sp_target root) 0 in
  let isError := bit =? 1 in
  let ptrSection := sp_target root + sp_dataWords root * WORD in
  let? listPtr := readListPointer bs ptrSection in
  check (lp_elementSize listPtr =? ELEM_COMPOSITE) (shape_error listPtr) (
  let? '(count, dataWords, ptrWords) := readCompositeListTag bs (lp_target listPtr) in
  let expectedWords := count * (dataWords + ptrWords) in
  check (lp_count listPtr =? expectedWords) (WordCountMismatch (lp_count listPtr) expectedWords) (
  let? content := decodeContents bs (lp_target listPtr + WORD) dataWords ptrWords 0
                    (Z.to_nat count) in
  Ok (mkToolResult content isError))).

(** ** The program logic *)

(** A byte string and where it is. *)
Abbreviation fact := (Z * bytes)%type.
Definition fact_end (f : fact) : Z := f.1 + blen f.2.
Definition holds (c : bytes) (f : fact) : Prop :=
  0 <= f.1 /\ fact_end f <= blen c /\ sub c f.1 (blen f.2) = f.2.

Definition sat (c : bytes) (n : Z) (fs : list fact) : Prop :=
  blen c = n /\ Forall (holds c) fs.

Definition triple {A} (n : Z) (fs : list fact) (m : W A) (n' : Z) (fs' : list fact) (a : A)
    : Prop :=
  forall c, sat c n fs -> exists c', builds m c c' a /\ sat c' n' fs'.

(** [f] lies outside [off, off + k). *)
Definition outside (off k : Z) (f : fact) : Prop := fact_end f <= off \/ off + k <= f.1.

Lemma holds_app c d f : holds c f -> holds (c ++ d) f.
Proof.
  intros (H0 & He & Hs). pose proof (blen_nonneg d). unfold holds, fact_end in *.
  rewrite blen_app. repeat split; try lia. by rewrite sub_app_l.
Qed.

Lemma holds_patch c off bs f :
  0 <= off -> off + blen bs <= blen c -> outside off (blen bs) f -> holds c f ->
  holds (patch c off bs) f.
Proof.
  intros Ho Hb Hout (H0 & He & Hs). unfold holds, outside, fact_end in *.
  rewrite blen_patch by done. repeat split; try done.
  destruct Hout; [rewrite sub_patch_lt|rewrite sub_patch_gt]; done || lia.
Qed.

Lemma holds_patched c off bs :
  0 <= off -> off + blen bs <= blen c -> holds (patch c off bs) (off, bs).
Proof.
  intros Ho Hb. unfold holds, fact_end. simpl. rewrite blen_patch by done.
  repeat split; try done. by apply sub_patch_eq.
Qed.

Lemma holds_appended c bs d : holds (c ++ bs ++ d) (blen c, bs).
Proof.
  pose proof (blen_nonneg c). pose proof (blen_nonneg d). unfold holds, fact_end. simpl.
  rewrite !blen_app. repeat split; try lia.
  rewrite sub_app_r, Z.sub_diag, sub_app_l by lia. by apply sub_full.
Qed.

Lemma t_bind {A B} n fs (m : W A) n1 fs1 a (k : A -> W B) n2 fs2 r :
  triple n fs m n1 fs1 a -> triple n1 fs1 (k a) n2 fs2 r -> triple n fs (bind m k) n2 fs2 r.
Proof.
  intros Hm Hk c Hc. destruct (Hm c Hc) as (c1 & B1 & S1).
  destruct (Hk c1 S1) as (c2 & B2 & S2). exists c2. split; [by eapply builds_bind|done].
Qed.

Lemma t_ret {A} n fs (a : A) : triple n fs (ret a) n fs a.
Proof. intros c Hc. exists c. split; [apply builds_ret|done]. Qed.

Lemma t_reserve n fs k :
  0 <= k -> triple n fs (reserveWords k) (n + k * 8) ((n, zeros (k * 8)) :: fs) n.
Proof.
  intros Hk c [<- Hf]. eexists. split; [by apply builds_reserve|]. split.
  - rewrite blen_app, blen_zeros; unfold WORD; lia.
  - constructor; [|eapply Forall_impl; [done|]; intros; by apply holds_app].
    rewrite <- (app_nil_r (zeros _)). apply holds_appended.
Qed.

Lemma t_reserve_at n n' fs k :
  0 <= k -> n' = n + k * 8 ->
  triple n fs (reserveWords k) n' ((n, zeros (k * 8)) :: fs) n.
Proof. intros ? ->. by apply t_reserve. Qed.

Lemma t_append n fs bs :
  blen bs + 7 < 2 ^ 31 ->
  triple n fs (appendBytesPadded bs) (n + padded (blen bs)) ((n, bs) :: fs) n.
Proof.
  intros Hb c [<- Hf]. destruct (padded_spec (blen bs) (blen_nonneg bs) Hb) as [_ [? _]].
  eexists. split; [by apply builds_append|]. split.
  - rewrite !blen_app, blen_zeros; lia.
  - constructor; [apply holds_appended|].
    eapply Forall_impl; [done|]; intros; by apply holds_app.
Qed.

Lemma sat_patch c n fs fs0 off bs :
  sat c n fs -> fs0 ⊆ fs -> Forall (outside off (blen bs)) fs0 -> 0 <= off -> off + blen bs <= n ->
  sat (patch c off bs) n ((off, bs) :: fs0).
Proof.
  intros [<- Hf] Hsub Hout Ho Hb. split; [by apply blen_patch|].
  constructor; [by apply holds_patched|]. rewrite Forall_forall in *.
  intros f Hin. apply holds_patch; auto.
Qed.

Lemma t_set n fs fs0 off bs :
  fs0 ⊆ fs -> Forall (outside off (blen bs)) fs0 -> 0 <= off -> off + blen bs <= n ->
  triple n fs (setBytes off bs) n ((off, bs) :: fs0) tt.
Proof.
  intros ? ? ? ? c Hc. eexists. split; [|by eapply sat_patch].
  destruct Hc as [<- _]. by apply builds_set.
Qed.

Definition list_ptr (at_ target es cnt : Z) : fact :=
  (at_, pointer_words (ptr_lo ((target - (at_ + WORD)) / WORD) KIND_LIST) (list_hi es cnt)).
Definition struct_ptr (at_ target dw pw : Z) : fact :=
  (at_, pointer_words (ptr_lo ((target - (at_ + WORD)) / WORD) KIND_STRUCT) (struct_hi dw pw)).

Lemma t_list_pointer n fs fs0 at_ target es cnt :
  fs0 ⊆ fs -> Forall (outside at_ 8) fs0 -> 0 <= at_ -> at_ + 8 <= n ->
  (target - at_) mod 8 = 0 ->
  triple n fs (writeListPointer at_ target es cnt) n (list_ptr at_ target es cnt :: fs0) tt.
Proof.
  intros Hs Hf Ha Hn Hm c Hc. eexists. split.
  - apply builds_list_pointer; [done|destruct Hc; lia|]. unfold WORD.
    replace (target - (at_ + 8)) with (target - at_ + (-1) * 8) by lia. by rewrite Z.mod_add.
  - unfold list_ptr. eapply sat_patch; rewrite ?blen_pointer_words; done.
Qed.

Lemma t_struct_pointer n fs fs0 at_ target dw pw :
  fs0 ⊆ fs -> Forall (outside at_ 8) fs0 -> 0 <= at_ -> at_ + 8 <= n ->
  (target - at_) mod 8 = 0 ->
  triple n fs (writeStructPointer at_ target dw pw) n (struct_ptr at_ target dw pw :: fs0) tt.
Proof.
  intros Hs Hf Ha Hn Hm c Hc. eexists. split.
  - apply builds_struct_pointer; [done|destruct Hc; lia|]. unfold WORD.
    replace (target - (at_ + 8)) with (target - at_ + (-1) * 8) by lia. by rewrite Z.mod_add.
  - unfold struct_ptr. eapply sat_patch; rewrite ?blen_pointer_words; done.
Qed.

(** A whole encoder: it ends by framing its content. *)
Definition fin (n : Z) (fs : list fact) (m : W bytes) (n' : Z) (fs' : list fact) : Prop :=
  forall c, sat c n fs -> exists c', builds m c c' (framed c') /\ sat c' n' fs'.

Lemma f_bind {A} n fs (m : W A) n1 fs1 a (k : A -> W bytes) n2 fs2 :
  triple n fs m n1 fs1 a -> fin n1 fs1 (k a) n2 fs2 -> fin n fs (bind m k) n2 fs2.
Proof.
  intros Hm Hk c Hc. destruct (Hm c Hc) as (c1 & B1 & S1).
  destruct (Hk c1 S1) as (c2 & B2 & S2). exists c2. split; [by eapply builds_bind|done].
Qed.

Lemma f_finalize n fs : n mod 8 = 0 -> fin n fs finalize n fs.
Proof.
  intros Hn c [<- Hf]. exists c. split; [|done]. by apply builds_finalize.
Qed.

Lemma run_fin m n fs :
  fin 0 [] m n fs -> exists c, run_builder m = Ok (framed c) /\ sat c n fs.
Proof.
  intros Hm. destruct (Hm [] ltac:(split; [done|constructor])) as (c & B & S).
  exists c. split; [|done]. by eapply run_builds.
Qed.

(** ** Reading facts back from the framed message *)

Lemma fact_list_ptr c n at_ target es cnt :
  holds c (list_ptr at_ target es cnt) -> blen c = n -> n < 2 ^ 31 ->
  0 <= target <= n -> (target - at_) mod 8 = 0 -> 0 <= es < 8 -> 0 <= cnt < 2 ^ 29 ->
  readListPointer (framed c) (8 + at_) = Ok (mkListPtr (8 + target) es cnt).
Proof.
  intros (H0 & He & Hs) Hn Hl Ht Hm Hes Hc. unfold list_ptr, fact_end in *. simpl in *.
  rewrite blen_pointer_words in *. set (ow := (target - (at_ + WORD)) / WORD) in *.
  assert (Ho : target - (at_ + WORD) = ow * WORD).
  { unfold ow, WORD. rewrite (Z.div_mod (target - (at_ + 8)) 8) at 1 by lia.
    replace (target - (at_ + 8)) with (target - at_ + (-1) * 8) at 2 by lia.
    rewrite Z.mod_add, Hm by lia. lia. }
  unfold WORD in Ho.
  rewrite (readListPointer_words _ _ ow es cnt); try done; try lia.
  - f_equal. f_equal. unfold WORD. lia.
  - rewrite blen_framed. lia.
  - by rewrite sub_framed.
Qed.

Lemma fact_struct_ptr c n at_ target dw pw :
  holds c (struct_ptr at_ target dw pw) -> blen c = n -> n < 2 ^ 31 ->
  0 <= target <= n -> (target - at_) mod 8 = 0 -> 0 <= dw < 2 ^ 16 -> 0 <= pw < 2 ^ 16 ->
  readStructPointer (framed c) (8 + at_) = Ok (mkStructPtr (8 + target) dw pw).
Proof.
  intros (H0 & He & Hs) Hn Hl Ht Hm Hes Hc. unfold struct_ptr, fact_end in *. simpl in *.
  rewrite blen_pointer_words in *. set (ow := (target - (at_ + WORD)) / WORD) in *.
  assert (Ho : target - (at_ + WORD) = ow * WORD).
  { unfold ow, WORD. rewrite (Z.div_mod (target - (at_ + 8)) 8) at 1 by lia.
    replace (target - (at_ + 8)) with (target - at_ + (-1) * 8) at 2 by lia.
    rewrite Z.mod_add, Hm by lia. lia. }
  unfold WORD in Ho.
  rewrite (readStructPointer_words _ _ ow dw pw); try done; try lia.
  - f_equal. f_equal. unfold WORD. lia.
  - rewrite blen_framed. lia.
  - by rewrite sub_framed.
Qed.

Lemma fact_bytes c at_ bs :
  holds c (at_, bs) -> readBytes (framed c) (8 + at_) (blen bs) = Ok bs.
Proof.
  intros (H0 & He & Hs). unfold fact_end in *. simpl in *. pose proof (blen_nonneg bs).
  rewrite readBytes_ok by (rewrite ?blen_framed; lia). by rewrite sub_framed, Hs.
Qed.

Lemma fact_get c at_ n v :
  holds c (at_, le_bytes n v) -> 0 <= v < 2 ^ (Z.of_nat n * 8) ->
  get (framed c) (Z.of_nat n) (8 + at_) = Ok v.
Proof.
  intros (H0 & He & Hs) Hv. unfold fact_end in *. simpl in *. rewrite blen_le_bytes in *.
  rewrite get_ok by (rewrite ?blen_framed; lia). rewrite sub_framed, Hs by done.
  by rewrite le_val_bytes, Z.mod_small.
Qed.

(** A list pointer is no null pointer. *)
Lemma fact_not_null c at_ target es cnt :
  holds c (list_ptr at_ target es cnt) -> isNullPointer (framed c) (8 + at_) = Ok false.
Proof.
  intros (H0 & He & Hs). unfold list_ptr, fact_end in *. simpl in *.
  rewrite blen_pointer_words in *. unfold isNullPointer, readU64.
  rewrite get_ok by (rewrite ?blen_framed; lia). rewrite sub_framed, Hs by done. unfold rbind.
  f_equal. apply Z.eqb_neq. unfold pointer_words. rewrite le_val_app, le_val_word.
  rewrite ptr_lo_word by (unfold KIND_LIST; lia). unfold KIND_LIST.
  pose proof (Z.mod_pos_bound ((target - (at_ + WORD)) / WORD) (2 ^ 30) ltac:(lia)).
  pose proof (proj1 (le_val_range (le_bytes 4 (js_ushr (list_hi es cnt) 0)))).
  rewrite length_le_bytes. lia.
Qed.

Lemma decode_text_nul s :
  well_formed s = true -> has_bom s = false ->
  decodeTextWithNul (encodeTextWithNul s) = Ok s.
Proof.
  intros Hw Hb. unfold decodeTextWithNul, encodeTextWithNul.
  change (zeros 1) with [Corelib.Init.Byte.x00]. rewrite last_snoc.
  change (b2z Corelib.Init.Byte.x00 =? 0) with true. cbv iota.
  rewrite length_app. simpl. replace (length (utf8_encode s) + 1 - 1)%nat with (length (utf8_encode s)) by lia.
  by rewrite take_app_length, utf8_fatal_encode.
Qed.

Lemma fact_text c n at_ target s :
  holds c (list_ptr at_ target ELEM_BYTE (blen (encodeTextWithNul s))) ->
  holds c (target, encodeTextWithNul s) -> blen c = n -> n < 2 ^ 29 ->
  (target - at_) mod 8 = 0 -> well_formed s = true -> has_bom s = false ->
  readText (framed c) (8 + at_) = Ok s.
Proof.
  intros Hp Ht Hn Hl Hm Hw Hb. pose proof Ht as (H0 & He & _). unfold fact_end in *. simpl in *.
  pose proof (blen_nonneg (encodeTextWithNul s)).
  unfold readText. erewrite fact_list_ptr by (done || (unfold ELEM_BYTE; lia)).
  unfold rbind, check. simpl lp_elementSize. change (ELEM_BYTE =? ELEM_BYTE) with true. cbv iota.
  simpl lp_target. simpl lp_count. rewrite fact_bytes by done. by apply decode_text_nul.
Qed.

Lemma fact_data c n at_ target bs :
  holds c (list_ptr at_ target ELEM_BYTE (blen bs)) ->
  holds c (target, bs) -> blen c = n -> n < 2 ^ 29 -> (target - at_) mod 8 = 0 ->
  readData (framed c) (8 + at_) = Ok bs.
Proof.
  intros Hp Ht Hn Hl Hm. pose proof Ht as (H0 & He & _). unfold fact_end in *. simpl in *.
  pose proof (blen_nonneg bs).
  unfold readData. erewrite fact_list_ptr by (done || (unfold ELEM_BYTE; lia)).
  unfold rbind, check. simpl lp_elementSize. change (ELEM_BYTE =? ELEM_BYTE) with true. cbv iota.
  simpl lp_target. simpl lp_count. by apply fact_bytes.
Qed.

(** The side conditions of the triples: facts outside a patched range. *)
Ltac facts_outside :=
  repeat (apply Forall_cons; split;
    [unfold outside, fact_end, list_ptr, struct_ptr; cbn [fst snd];
     rewrite ?blen_pointer_words, ?blen_le_bytes, ?blen_zeros by lia; lia|]);
  apply Forall_nil; exact I.
Ltac align8 := Z.div_mod_to_equations; lia.

(** ** The manifest *)

Definition manifest_facts (m : Manifest) : list fact :=
  [list_ptr 32 136 ELEM_BYTE 32; (136, contentHash m); list_ptr 24 72 ELEM_BYTE 64;
   (72, signature m); list_ptr 16 40 ELEM_BYTE 32; (40, publicKey m);
   (8, le_bytes 8 (sequence m)); struct_ptr 0 8 1 3].

Lemma encodeManifest_facts m :
  blen (publicKey m) = 32 -> blen (signature m) = 64 -> blen (contentHash m) = 32 ->
  exists c, encodeManifest m = Ok (framed c) /\ sat c 168 (manifest_facts m).
Proof.
  intros Hp Hs Hc. unfold encodeManifest. rewrite Hp, Hs, Hc. simpl Z.eqb. cbv iota.
  apply run_fin.
  eapply f_bind; [apply (t_reserve_at 0 8 [] 1); lia|].
  eapply f_bind; [apply (t_reserve_at 8 16 _ 1); lia|].
  eapply f_bind; [apply (t_reserve_at 16 24 _ 1); lia|].
  eapply f_bind; [apply (t_reserve_at 24 32 _ 1); lia|].
  eapply f_bind; [apply (t_reserve_at 32 40 _ 1); lia|]. cbv beta.
  eapply f_bind; [apply (t_struct_pointer _ _ []); [set_solver|constructor|lia|lia|reflexivity]|cbv beta].
  eapply f_bind; [eapply t_set; [reflexivity|facts_outside|lia|rewrite blen_le_bytes; lia]|cbv beta].
  eapply f_bind; [apply t_append; lia|cbv beta]. rewrite Hp. change (40 + padded 32) with 72.
  eapply f_bind; [eapply t_list_pointer; [reflexivity|facts_outside|lia|lia|reflexivity]|cbv beta].
  eapply f_bind; [apply t_append; lia|cbv beta]. rewrite Hs. change (72 + padded 64) with 136.
  eapply f_bind; [eapply t_list_pointer; [reflexivity|facts_outside|lia|lia|reflexivity]|cbv beta].
  eapply f_bind; [apply t_append; lia|cbv beta]. rewrite Hc. change (136 + padded 32) with 168.
  eapply f_bind; [eapply t_list_pointer; [reflexivity|facts_outside|lia|lia|reflexivity]|cbv beta].
  apply f_finalize. reflexivity.
Qed.


(** Two writes of an encoder, with their side conditions. *)
Ltac w_reserve n n' k := eapply f_bind; [apply (t_reserve_at n n' _ k); lia|cbv beta].
Ltac w_append := eapply f_bind; [apply t_append; lia|cbv beta].
Ltac w_list := eapply f_bind;
  [eapply t_list_pointer; [reflexivity|facts_outside|lia|lia|align8]|cbv beta].

(** All facts of a list, one hypothesis each. *)
Ltac split_facts H :=
  repeat (apply Forall_cons in H; let F := fresh "F" in destruct H as [F H]).

Lemma sat_facts c n fs : sat c n fs -> blen c = n /\ Forall (holds c) fs.
Proof. done. Qed.

Lemma decodeManifest_framed m c :
  blen (publicKey m) = 32 -> blen (signature m) = 64 -> blen (contentHash m) = 32 ->
  sat c 168 (manifest_facts m) ->
  decodeManifest (framed c) =
  Ok (mkManifest (sequence m mod 2 ^ 64) (publicKey m) (signature m) (contentHash m)).
Proof.
  intros Hp Hs Hc [Hn Hf]. unfold manifest_facts in Hf. split_facts Hf.
  unfold decodeManifest. rewrite readSegmentStart_framed by (rewrite Hn; reflexivity).
  unfold rbind at 1.
  change (readStructPointer (framed c) 8) with (readStructPointer (framed c) (8 + 0)).
  rewrite (fact_struct_ptr c 168 0 8 1 3) by (done || lia). unfold rbind at 1. cbn [sp_dataWords sp_ptrWords sp_target].
  change ((1 <? 1) || (3 <? 3)) with false. cbv iota.
  unfold readU64. pose proof (fact_get c 8 8 (sequence m mod 2 ^ 64)) as Hq.
  assert (Hle : le_bytes 8 (sequence m mod 2 ^ 64) = le_bytes 8 (sequence m)).
  { symmetry. exact (LittleEndianList.le_split_mod (sequence m) 8). }
  rewrite Hle in Hq. change (get (framed c) (Z.of_nat 8) (8 + 8)) with (get (framed c) 8 16) in Hq.
  change (8 + 8) with 16. rewrite Hq by (done || apply Z.mod_pos_bound; lia).
  unfold rbind at 1.
  change (16 + 1 * WORD) with (8 + 16). rewrite (fact_list_ptr c 168 16 40 ELEM_BYTE 32) by (done || unfold ELEM_BYTE; lia).
  unfold rbind at 1. change (16 + 2 * WORD) with (8 + 24).
  rewrite (fact_list_ptr c 168 24 72 ELEM_BYTE 64) by (done || unfold ELEM_BYTE; lia).
  unfold rbind at 1. change (16 + 3 * WORD) with (8 + 32).
  rewrite (fact_list_ptr c 168 32 136 ELEM_BYTE 32) by (done || unfold ELEM_BYTE; lia).
  unfold rbind at 1, check, shape_ok. cbn [lp_elementSize lp_count lp_target].
  cbn -[readBytes framed Z.pow Z.modulo Z.add].
  pose proof (fact_bytes c 40 (publicKey m) ltac:(done)) as H1. rewrite Hp in H1.
  pose proof (fact_bytes c 72 (signature m) ltac:(done)) as H2. rewrite Hs in H2.
  pose proof (fact_bytes c 136 (contentHash m) ltac:(done)) as H3. rewrite Hc in H3.
  unfold MANIFEST_PUBKEY_BYTES, MANIFEST_SIG_BYTES, MANIFEST_HASH_BYTES.
  rewrite H1. unfold rbind at 1. rewrite H2. unfold rbind at 1. by rewrite H3.
Qed.

(** A manifest survives the wire.  With keys, signature and hash of the right
    length the message is exactly 176 bytes and decodes to the same manifest, the
    sequence number modulo 2^64; with a wrong length the encoder throws. *)
Theorem manifest_roundtrip m :
  (blen (publicKey m) = 32 -> blen (signature m) = 64 -> blen (contentHash m) = 32 ->
     exists bs, encodeManifest m = Ok bs /\ blen bs = MANIFEST_ENCODED_BYTES /\
       decodeManifest bs = Ok (mkManifest (sequence m mod 2 ^ 64) (publicKey m) (signature m)
                                 (contentHash m))) /\
  (forall bs, encodeManifest m = Ok bs ->
     blen (publicKey m) = 32 /\ blen (signature m) = 64 /\ blen (contentHash m) = 32).
Proof.
  split.
  - intros Hp Hs Hc. destruct (encodeManifest_facts m Hp Hs Hc) as (c & E & Hf).
    exists (framed c). split; [done|]. split; [|by apply decodeManifest_framed].
    rewrite blen_framed. by destruct Hf as [-> _].
  - intros bs. unfold encodeManifest.
    destruct (Z.eqb_spec (blen (publicKey m)) MANIFEST_PUBKEY_BYTES); [|done].
    destruct (Z.eqb_spec (blen (signature m)) MANIFEST_SIG_BYTES); [|done].
    destruct (Z.eqb_spec (blen (contentHash m)) MANIFEST_HASH_BYTES); [|done]. auto.
Qed.

(** ** The tool call *)

Lemma padded_small bs n : blen bs < 2 ^ 30 -> n = padded (blen bs) ->
  n mod 8 = 0 /\ blen bs <= n < blen bs + 8.
Proof. intros H ->. apply padded_spec; [apply blen_nonneg|lia]. Qed.

Lemma toolcall_eta tc : mkToolCall (upstreamId tc) (toolName tc) (argumentsJson tc) = tc.
Proof. by destruct tc. Qed.

Section toolcall.
Variable tc : ToolCall.
Let a := encodeTextWithNul (upstreamId tc).
Let b := encodeTextWithNul (toolName tc).
Let d := argumentsJson tc.
Let o2 := 32 + padded (blen a).
Let o3 := o2 + padded (blen b).

(** The size of the encoded segment. *)
Definition toolcall_size : Z := o3 + padded (blen d).

Definition toolcall_facts : list fact :=
  [list_ptr 24 o3 ELEM_BYTE (blen d); (o3, d); list_ptr 16 o2 ELEM_BYTE (blen b); (o2, b);
   list_ptr 8 32 ELEM_BYTE (blen a); (32, a); struct_ptr 0 8 0 3].

Lemma encodeToolCall_facts :
  blen a < 2 ^ 30 -> blen b < 2 ^ 30 -> blen d < 2 ^ 30 ->
  exists c, encodeToolCall tc = Ok (framed c) /\ sat c toolcall_size toolcall_facts.
Proof.
  intros Ha Hb Hd. unfold encodeToolCall. fold a b d. apply run_fin.
  destruct (padded_small a _ Ha eq_refl) as [Ma Ba]. destruct (padded_small b _ Hb eq_refl) as [Mb Bb].
  destruct (padded_small d _ Hd eq_refl) as [Md Bd].
  pose proof (blen_nonneg a). pose proof (blen_nonneg b). pose proof (blen_nonneg d).
  w_reserve 0 8 1. w_reserve 8 16 1. w_reserve 16 24 1. w_reserve 24 32 1.
  eapply f_bind; [apply (t_struct_pointer _ _ []); [set_solver|constructor|lia|lia|reflexivity]|cbv beta].
  cbv zeta. w_append. fold o2. w_list. w_append. fold o3. w_list. w_append.
  change (o3 + padded (blen d)) with toolcall_size. unfold toolcall_size, o3, o2 in *. w_list.
  apply f_finalize. align8.
Qed.

Lemma decodeToolCall_framed c :
  toolcall_size < 2 ^ 29 -> sat c toolcall_size toolcall_facts ->
  well_formed (upstreamId tc) = true -> has_bom (upstreamId tc) = false ->
  well_formed (toolName tc) = true -> has_bom (toolName tc) = false ->
  decodeToolCall (framed c) = Ok tc.
Proof.
  intros Hl [Hn Hf] W1 B1 W2 B2.
  assert (HN : forall bs n, padded (blen bs) = n -> blen bs <= blen c -> n mod 8 = 0).
  { intros bs n <- Hb. apply padded_spec; [apply blen_nonneg|rewrite Hn in Hb; lia]. }
  unfold toolcall_facts in Hf. split_facts Hf.
  pose proof (blen_nonneg a). pose proof (blen_nonneg b). pose proof (blen_nonneg d).
  assert (Ba : 32 + blen a <= blen c) by apply F4.
  assert (Bb : o2 + blen b <= blen c) by apply F2.
  assert (Bd : o3 + blen d <= blen c) by apply F0.
  assert (B0 : 0 <= o2 /\ 0 <= o3) by (split; [apply F2|apply F0]).
  assert (Ma : padded (blen a) mod 8 = 0) by (apply (HN a _ eq_refl); lia).
  assert (Mb : padded (blen b) mod 8 = 0) by (apply (HN b _ eq_refl); lia).
  assert (Md : padded (blen d) mod 8 = 0) by (apply (HN d _ eq_refl); lia).
  assert (M2 : o2 mod 8 = 0) by (unfold o2; align8).
  assert (M3 : o3 mod 8 = 0) by (unfold o3; align8).
  assert (Hz : blen c mod WORD = 0) by (rewrite Hn; unfold toolcall_size, WORD; align8).
  unfold decodeToolCall. rewrite readSegmentStart_framed by (done || lia). unfold rbind at 1.
  change (readStructPointer (framed c) 8) with (readStructPointer (framed c) (8 + 0)).
  rewrite (fact_struct_ptr c _ 0 8 0 3) by (done || lia). unfold rbind at 1.
  cbn [sp_dataWords sp_ptrWords sp_target]. change (3 <? 3) with false. cbv iota zeta.
  change (8 + 8 + 0 * WORD + 0 * WORD) with (8 + 8).
  change (8 + 8 + 0 * WORD + 1 * WORD) with (8 + 16).
  change (8 + 8 + 0 * WORD + 2 * WORD) with (8 + 24).
  erewrite (fact_not_null c 8) by done. unfold rbind at 1. cbv iota.
  rewrite (fact_text c _ 8 32 (upstreamId tc)) by (done || lia). unfold rbind at 1.
  erewrite (fact_not_null c 16) by done. unfold rbind at 1. cbv iota.
  rewrite (fact_text c _ 16 o2 (toolName tc)) by (done || lia || align8). unfold rbind at 1.
  erewrite (fact_not_null c 24) by done. unfold rbind at 1. cbv iota.
  rewrite (fact_data c _ 24 o3 d) by (done || lia || align8). unfold rbind, d. f_equal. apply toolcall_eta.
Qed.

End toolcall.

Lemma padded_bound bs : blen bs < 2 ^ 30 -> blen bs <= padded (blen bs).
Proof. intros. apply padded_spec; [apply blen_nonneg|lia]. Qed.

(** A tool call survives the wire.  When the two names are well-formed strings
    that do not start with a byte-order mark and the three fields are below 128 MiB, the
    decoder returns the call that was encoded, whatever the argument bytes. *)
Theorem toolcall_roundtrip tc :
  well_formed (upstreamId tc) = true -> has_bom (upstreamId tc) = false ->
  well_formed (toolName tc) = true -> has_bom (toolName tc) = false ->
  blen (encodeTextWithNul (upstreamId tc)) < 2 ^ 27 ->
  blen (encodeTextWithNul (toolName tc)) < 2 ^ 27 -> blen (argumentsJson tc) < 2 ^ 27 ->
  exists bs, encodeToolCall tc = Ok bs /\ decodeToolCall bs = Ok tc.
Proof.
  intros W1 B1 W2 B2 L1 L2 L3.
  destruct (encodeToolCall_facts tc ltac:(lia) ltac:(lia) ltac:(lia)) as (c & E & Hf).
  exists (framed c). split; [done|]. apply decodeToolCall_framed; try done.
  unfold toolcall_size.
  destruct (padded_small (encodeTextWithNul (upstreamId tc)) _ ltac:(lia) eq_refl).
  destruct (padded_small (encodeTextWithNul (toolName tc)) _ ltac:(lia) eq_refl).
  destruct (padded_small (argumentsJson tc) _ ltac:(lia) eq_refl). lia.
Qed.

Lemma toolcall_roundtrip_witness :
  let tc := mkToolCall (js "rosary") (js "rsry_decompose") (utf8_encode (js "{}")) in
  exists bs, encodeToolCall tc = Ok bs /\ decodeToolCall bs = Ok tc.
Proof. apply toolcall_roundtrip; reflexivity. Defined.

(** A leading byte-order mark does not survive: the decoder drops it. *)
Lemma toolcall_loses_bom :
  let tc := mkToolCall (BOM :: js "x") (js "t") [] in
  exists bs, encodeToolCall tc = Ok bs /\ decodeToolCall bs = Ok (mkToolCall (js "x") (js "t") []).
Proof. eexists. split; [vm_compute; reflexivity|vm_compute; reflexivity]. Qed.

(** ** The tool result: sizes and facts of the elements *)

Definition elem_end (n : Z) (ct : Content) : Z :=
  match ct with
  | CText s => n + padded (blen (encodeTextWithNul s))
  | CResource b => n + padded (blen b)
  | CBinary b => n + 16 + padded (blen (bin_data b)) + padded (blen (encodeTextWithNul (mimeType b)))
  end.

Definition contents_end (n : Z) (cs : list Content) : Z := foldl elem_end n cs.

Definition elem_facts (off n : Z) (ct : Content) : list fact :=
  match ct with
  | CText s =>
      [list_ptr (off + 8) n ELEM_BYTE (blen (encodeTextWithNul s)); (n, encodeTextWithNul s);
       (off, le_bytes 2 0)]
  | CResource b =>
      [list_ptr (off + 8) n ELEM_BYTE (blen b); (n, b); (off, le_bytes 2 2)]
  | CBinary b =>
      let mt := encodeTextWithNul (mimeType b) in
      let at2 := n + 16 + padded (blen (bin_data b)) in
      [list_ptr (n + 8) at2 ELEM_BYTE (blen mt); (at2, mt);
       list_ptr n (n + 16) ELEM_BYTE (blen (bin_data b)); (n + 16, bin_data b);
       struct_ptr (off + 8) n 0 2; (off, le_bytes 2 1)]
  end.

Fixpoint all_facts (off n : Z) (cs : list Content) : list fact :=
  match cs with
  | [] => []
  | ct :: cs' => all_facts (off + 16) (elem_end n ct) cs' ++ elem_facts off n ct
  end.

(** Every field of an element is below 128 MiB. *)
Definition small (ct : Content) : Prop :=
  match ct with
  | CText s => blen (encodeTextWithNul s) < 2 ^ 27
  | CResource b => blen b < 2 ^ 27
  | CBinary b => blen (bin_data b) < 2 ^ 27 /\ blen (encodeTextWithNul (mimeType b)) < 2 ^ 27
  end.

Definition text_ok (s : jsstr) : Prop := well_formed s = true /\ has_bom s = false.
Definition content_ok (ct : Content) : Prop :=
  match ct with CText s => text_ok s | CResource _ => True | CBinary b => text_ok (mimeType b) end.

Lemma elem_end_bound n ct :
  small ct -> n mod 8 = 0 -> n <= elem_end n ct /\ elem_end n ct mod 8 = 0.
Proof.
  destruct ct as [s|b|b]; simpl; intros Hs Hn.
  - destruct (padded_small (encodeTextWithNul s) _ ltac:(lia) eq_refl) as [? ?].
    pose proof (blen_nonneg (encodeTextWithNul s)). split; [lia|align8].
  - destruct Hs as [Hd Hm].
    destruct (padded_small (bin_data b) _ ltac:(lia) eq_refl) as [? ?].
    destruct (padded_small (encodeTextWithNul (mimeType b)) _ ltac:(lia) eq_refl) as [? ?].
    pose proof (blen_nonneg (bin_data b)). pose proof (blen_nonneg (encodeTextWithNul (mimeType b))).
    split; [lia|align8].
  - destruct (padded_small b _ ltac:(lia) eq_refl) as [? ?].
    pose proof (blen_nonneg b). split; [lia|align8].
Qed.

(** The facts so far lie below [n] and outside the element area [off, off + k). *)
Definition clear (n off k : Z) (fs : list fact) : Prop :=
  Forall (fun f => fact_end f <= n /\ outside off k f) fs.

Lemma clear_outside n off k fs o m :
  clear n off k fs -> off <= o -> o + m <= off + k -> Forall (outside o m) fs.
Proof.
  intros Hc ? ?. eapply Forall_impl; [exact Hc|]. intros f [_ Hf].
  unfold outside, fact_end in *. lia.
Qed.

Lemma clear_below n off k fs o m : clear n off k fs -> n <= o -> Forall (outside o m) fs.
Proof.
  intros Hc ?. eapply Forall_impl; [exact Hc|]. intros f [Hf _].
  unfold outside, fact_end in *. lia.
Qed.

Ltac elem_outside Hc :=
  repeat (apply Forall_cons; split;
    [unfold outside, fact_end, list_ptr, struct_ptr; cbn [fst snd];
     rewrite ?blen_pointer_words, ?blen_le_bytes, ?blen_zeros by lia; lia|]);
  rewrite ?blen_le_bytes, ?blen_pointer_words;
  first [ eapply clear_outside; [exact Hc|lia|lia] | eapply clear_below; [exact Hc|lia] ].
Ltac e_list Hc := eapply t_list_pointer; [reflexivity|elem_outside Hc|lia|lia|align8].

Lemma encodeElement_facts n fs ct off :
  clear n off 16 fs -> 0 <= off -> off + 16 <= n -> n mod 8 = 0 -> off mod 8 = 0 -> small ct ->
  triple n fs (encodeContentElement ct off (off + 8)) (elem_end n ct)
    (elem_facts off n ct ++ fs) tt.
Proof.
  intros Hc Ho Hn Mn Mo Hs. destruct ct as [s|b|b]; cbn [encodeContentElement elem_end elem_facts app].
  - eapply t_bind; [eapply (t_set _ _ fs); [reflexivity|elem_outside Hc|lia|rewrite blen_le_bytes; lia]|].
    simpl in Hs. destruct (padded_small (encodeTextWithNul s) _ ltac:(lia) eq_refl) as [? ?].
    pose proof (blen_nonneg (encodeTextWithNul s)).
    cbv zeta. eapply t_bind; [apply t_append; lia|cbv beta]. e_list Hc.
  - destruct Hs as [Hd Hm].
    destruct (padded_small (bin_data b) _ ltac:(lia) eq_refl) as [? ?].
    destruct (padded_small (encodeTextWithNul (mimeType b)) _ ltac:(lia) eq_refl) as [? ?].
    pose proof (blen_nonneg (bin_data b)). pose proof (blen_nonneg (encodeTextWithNul (mimeType b))).
    eapply t_bind; [eapply (t_set _ _ fs); [reflexivity|elem_outside Hc|lia|rewrite blen_le_bytes; lia]|].
    eapply t_bind; [apply (t_reserve_at n (n + 16) _ 2); lia|cbv beta].
    eapply t_bind; [eapply (t_struct_pointer _ _ ((off, le_bytes 2 1) :: fs));
      [set_solver|elem_outside Hc|lia|lia|align8]|cbv beta].
    eapply t_bind; [apply t_append; lia|cbv beta zeta].
    replace (n + 0 * WORD) with n by (unfold WORD; lia).
    eapply t_bind; [e_list Hc|]. eapply t_bind; [apply t_append; lia|cbv beta].
    replace (n + 1 * WORD) with (n + 8) by (unfold WORD; lia). e_list Hc.
  - eapply t_bind; [eapply (t_set _ _ fs); [reflexivity|elem_outside Hc|lia|rewrite blen_le_bytes; lia]|].
    simpl in Hs. destruct (padded_small b _ ltac:(lia) eq_refl) as [? ?].
    pose proof (blen_nonneg b).
    eapply t_bind; [apply t_append; lia|cbv beta]. e_list Hc.
Qed.

(** An element's facts leave the next elements' area free. *)
Lemma elem_facts_clear n ct off k :
  small ct -> n mod 8 = 0 -> off + 16 + k <= n -> 0 <= k ->
  clear (elem_end n ct) (off + 16) k (elem_facts off n ct).
Proof.
  intros Hs Mn Hn Hk. unfold clear. destruct ct as [s|b|b]; simpl in *.
  - destruct (padded_small (encodeTextWithNul s) _ ltac:(lia) eq_refl) as [? ?].
    pose proof (blen_nonneg (encodeTextWithNul s)).
    repeat (apply Forall_cons; split; [unfold outside, fact_end, list_ptr; cbn [fst snd];
      rewrite ?blen_pointer_words, ?blen_le_bytes; lia|]). apply Forall_nil; exact I.
  - destruct Hs. destruct (padded_small (bin_data b) _ ltac:(lia) eq_refl) as [? ?].
    destruct (padded_small (encodeTextWithNul (mimeType b)) _ ltac:(lia) eq_refl) as [? ?].
    pose proof (blen_nonneg (bin_data b)). pose proof (blen_nonneg (encodeTextWithNul (mimeType b))).
    repeat (apply Forall_cons; split; [unfold outside, fact_end, list_ptr, struct_ptr; cbn [fst snd];
      rewrite ?blen_pointer_words, ?blen_le_bytes; lia|]). apply Forall_nil; exact I.
  - destruct (padded_small b _ ltac:(lia) eq_refl) as [? ?]. pose proof (blen_nonneg b).
    repeat (apply Forall_cons; split; [unfold outside, fact_end, list_ptr; cbn [fst snd];
      rewrite ?blen_pointer_words, ?blen_le_bytes; lia|]). apply Forall_nil; exact I.
Qed.

Lemma encodeContents_facts cs n fs tagOff i :
  let off := tagOff + 8 + i * 16 in
  let k := 16 * Z.of_nat (length cs) in
  clear n off k fs -> 0 <= off -> off + k <= n -> n mod 8 = 0 -> off mod 8 = 0 ->
  Forall small cs ->
  triple n fs (encodeContents tagOff i cs) (contents_end n cs) (all_facts off n cs ++ fs) tt.
Proof.
  revert n fs i. induction cs as [|ct cs IH]; intros n fs i off k Hc Ho Hn Mn Mo Hs;
    [apply t_ret|]. cbn [encodeContents all_facts length] in *.
  apply Forall_cons in Hs as [Hs Hss]. destruct (elem_end_bound n ct Hs Mn) as [He Me].
  unfold k in *. rewrite Nat2Z.inj_succ in *.
  replace (tagOff + WORD + i * CONTENT_ELEM_WORDS * WORD) with off
    by (unfold off, CONTENT_ELEM_WORDS, CONTENT_DATA_WORDS, CONTENT_PTR_WORDS, WORD; lia).
  eapply t_bind.
  - apply encodeElement_facts; try done; try lia.
    eapply Forall_impl; [exact Hc|]. intros f [? ?]. unfold outside, fact_end in *. lia.
  - specialize (IH (elem_end n ct) (elem_facts off n ct ++ fs) (i + 1)).
    replace (tagOff + 8 + (i + 1) * 16) with (off + 16) in IH by (unfold off; lia).
    rewrite <- app_assoc. apply IH; try done; try lia; [|align8].
    unfold clear in *. apply Forall_app. split.
    + apply elem_facts_clear; try done; lia.
    + eapply Forall_impl; [exact Hc|]. intros f [? ?]. unfold outside, fact_end in *. lia.
Qed.

Lemma t_bit0 n fs fs0 off v :
  (off, zeros 8) ∈ fs -> fs0 ⊆ fs -> Forall (outside off 1) fs0 -> 0 <= off -> off + 1 <= n ->
  triple n fs (writeBit off 0 v) n ((off, le_bytes 1 (if v : bool then 1 else 0)) :: fs0) tt.
Proof.
  intros Hin Hsub Hout Ho Hn c Hc. pose proof Hc as [Hl Hf]. eexists. split.
  - apply builds_bit0; [done|lia|]. rewrite Forall_forall in Hf.
    destruct (Hf _ Hin) as (_ & _ & Hs). simpl in Hs.
    transitivity (sub (sub c off 8) 0 1).
    + rewrite sub_sub by lia. by rewrite Z.add_0_r.
    + change (blen (zeros 8)) with 8 in Hs. by rewrite Hs.
  - eapply sat_patch; rewrite ?blen_le_bytes; done.
Qed.

Lemma t_composite n fs count dw pw :
  0 <= count -> 0 <= dw -> 0 <= pw -> Forall (fun f => fact_end f <= n) fs ->
  triple n fs (reserveCompositeList count dw pw) (n + (1 + count * (dw + pw)) * 8)
    ((n, pointer_words (ptr_lo count KIND_STRUCT) (struct_hi dw pw)) :: fs) n.
Proof.
  intros Hc Hd Hp Hb c [<- Hf]. assert (1 <= 1 + count * (dw + pw)) by nia.
  pose proof (blen_nonneg c). eexists. split; [by apply builds_composite|].
  eapply (sat_patch _ _ fs); [|reflexivity| |lia|].
  - split; [rewrite blen_app, blen_zeros; unfold WORD; lia|].
    eapply Forall_impl; [exact Hf|]. intros f. apply holds_app.
  - rewrite blen_pointer_words. eapply Forall_impl; [exact Hb|]. intros f Hfe. by left.
  - rewrite blen_pointer_words. lia.
Qed.

(** ** The tool result: the whole message *)

Section toolresult.
Variable tr : ToolResult.
Let cs := tr_content tr.
Let count := Z.of_nat (length cs).
Let base := 32 + count * 16.

Definition toolresult_size : Z := contents_end base cs.

Definition toolresult_facts : list fact :=
  all_facts 32 base cs ++
  [list_ptr 16 24 ELEM_COMPOSITE (count * 2);
   (24, pointer_words (ptr_lo count KIND_STRUCT) (struct_hi 1 1));
   (8, le_bytes 1 (if isError tr then 1 else 0)); struct_ptr 0 8 1 1].

Lemma encodeToolResult_facts :
  Forall small cs -> toolresult_size mod 8 = 0 ->
  exists r, encodeToolResult tr = Ok (framed r) /\ sat r toolresult_size toolresult_facts.
Proof.
  intros Hs Hm. unfold encodeToolResult. fold cs count. apply run_fin.
  assert (Hc : 0 <= count) by (unfold count; lia).
  w_reserve 0 8 1. w_reserve 8 16 1. w_reserve 16 24 1.
  eapply f_bind; [apply (t_struct_pointer _ _ [(8, zeros (1 * 8))]);
    [set_solver|facts_outside|lia|lia|reflexivity]|cbv beta].
  eapply f_bind; [apply (t_bit0 _ _ [struct_ptr 0 8 1 1]);
    [set_solver|set_solver|facts_outside|lia|lia]|cbv beta zeta].
  eapply f_bind; [apply t_composite; [done| | |]|cbv beta];
    [unfold CONTENT_DATA_WORDS; lia|unfold CONTENT_PTR_WORDS; lia| |].
  { repeat (apply Forall_cons; split; [unfold fact_end, struct_ptr; cbn [fst snd];
      rewrite ?blen_pointer_words, ?blen_le_bytes; lia|]). apply Forall_nil; exact I. }
  replace (24 + (1 + count * (CONTENT_DATA_WORDS + CONTENT_PTR_WORDS)) * 8) with base
    by (unfold base, CONTENT_DATA_WORDS, CONTENT_PTR_WORDS; lia).
  change (count * CONTENT_ELEM_WORDS) with (count * 2).
  assert (Hb : 32 <= base) by (unfold base; lia).
  eapply f_bind; [eapply t_list_pointer; [reflexivity|facts_outside|lia|lia|reflexivity]|cbv beta].
  eapply f_bind; [apply encodeContents_facts; fold count|cbv beta].
  - unfold clear. simpl (24 + 8 + 0 * 16).
    repeat (apply Forall_cons; split; [unfold outside, fact_end, list_ptr, struct_ptr; cbn [fst snd];
      rewrite ?blen_pointer_words, ?blen_le_bytes; lia|]). apply Forall_nil; exact I.
  - lia.
  - fold count. unfold base. lia.
  - unfold base. align8.
  - reflexivity.
  - done.
  - apply f_finalize. done.
Qed.

End toolresult.

(** ** Decoding *)

Ltac no_if := change (1 <? 1) with false; cbn [orb]; cbv iota.

Lemma decodeElement_facts c N off n ct :
  Forall (holds c) (elem_facts off n ct) -> blen c = N -> N < 2 ^ 29 ->
  off mod 8 = 0 -> n mod 8 = 0 -> content_ok ct ->
  decodeContentElement (framed c) (8 + off) 1 1 = Ok ct.
Proof.
  intros Hf Hn Hl Mo Mn Hok. unfold decodeContentElement. no_if.
  change (8 + off + 1 * WORD) with (8 + off + 8). rewrite <- (Z.add_assoc 8 off 8).
  unfold readU16. destruct ct as [s|b|b]; cbn [elem_facts] in Hf; cbv zeta in Hf; split_facts Hf.
  - change 2 with (Z.of_nat 2) at 1. rewrite (fact_get c off 2 0) by (done || lia).
    unfold rbind at 1. change (0 =? DISCRIM_TEXT) with true. cbv iota.
    destruct Hok. rewrite (fact_text c N (off + 8) n s) by (done || align8). done.
  - change 2 with (Z.of_nat 2) at 1. rewrite (fact_get c off 2 1) by (done || lia).
    unfold rbind at 1. change (1 =? DISCRIM_TEXT) with false. change (1 =? DISCRIM_RESOURCE) with false.
    change (1 =? DISCRIM_BINARY) with true. cbv iota. destruct Hok as [Hw Hb].
    set (mt := encodeTextWithNul (mimeType b)) in *. set (at2 := n + 16 + padded (blen (bin_data b))) in *.
    assert (Bd : n + 16 + blen (bin_data b) <= blen c) by apply F2.
    assert (Bm : at2 + blen mt <= blen c) by apply F0.
    assert (B0 : 0 <= n) by (destruct F1; done).
    pose proof (blen_nonneg (bin_data b)). pose proof (blen_nonneg mt).
    destruct (padded_small (bin_data b) _ ltac:(lia) eq_refl) as [Mp Bp].
    rewrite (fact_struct_ptr c N (off + 8) n 0 2) by (done || lia || align8).
    unfold rbind at 1. cbn [sp_ptrWords sp_dataWords sp_target]. change (2 <? 2) with false. cbv iota zeta.
    replace (8 + n + 0 * WORD + 0 * WORD) with (8 + n) by lia.
    replace (8 + n + 0 * WORD + 1 * WORD) with (8 + (n + 8)) by (unfold WORD; lia).
    rewrite (fact_list_ptr c N n (n + 16) ELEM_BYTE (blen (bin_data b)))
      by (done || lia || align8 || (unfold ELEM_BYTE; lia)).
    unfold rbind at 1.
    rewrite (fact_list_ptr c N (n + 8) at2 ELEM_BYTE (blen mt))
      by (done || lia || (unfold at2; align8) || (unfold ELEM_BYTE; lia)).
    unfold rbind at 1, check. cbn [lp_elementSize lp_target lp_count].
    change (ELEM_BYTE =? ELEM_BYTE) with true. cbv iota.
    rewrite (fact_bytes c (n + 16)) by done. unfold rbind at 1.
    rewrite (fact_bytes c at2) by done. unfold rbind at 1. unfold mt.
    rewrite decode_text_nul by done. unfold rbind. by destruct b.
  - change 2 with (Z.of_nat 2) at 1. rewrite (fact_get c off 2 2) by (done || lia).
    unfold rbind at 1. change (2 =? DISCRIM_TEXT) with false. change (2 =? DISCRIM_RESOURCE) with true.
    cbv iota. rewrite (fact_data c N (off + 8) n b) by (done || align8). done.
Qed.

Lemma decodeContents_facts c N cs base i off n :
  Forall (holds c) (all_facts off n cs) -> blen c = N -> N < 2 ^ 29 ->
  base + i * 16 = 8 + off -> off mod 8 = 0 -> n mod 8 = 0 ->
  Forall small cs -> Forall content_ok cs ->
  decodeContents (framed c) base 1 1 i (length cs) = Ok cs.
Proof.
  revert off n i. induction cs as [|ct cs IH]; intros off n i Hf Hn Hl Hb Mo Mn Hs Ho; [done|].
  cbn [all_facts decodeContents length] in *. apply Forall_app in Hf as [Hfs Hf].
  apply Forall_cons in Hs as [Hs Hss]. apply Forall_cons in Ho as [Ho Hos].
  destruct (elem_end_bound n ct Hs Mn) as [_ Me].
  replace (base + i * (1 + 1) * WORD) with (8 + off) by (unfold WORD; lia).
  rewrite (decodeElement_facts c N off n ct) by done. unfold rbind at 1.
  rewrite (IH (off + 16) (elem_end n ct) (i + 1)) by (done || lia || align8). done.
Qed.

Lemma contents_end_bound n cs :
  Forall small cs -> n mod 8 = 0 -> n <= contents_end n cs /\ contents_end n cs mod 8 = 0.
Proof.
  revert n. induction cs as [|ct cs IH]; intros n Hs Mn; simpl; [done|].
  apply Forall_cons in Hs as [Hs Hss]. destruct (elem_end_bound n ct Hs Mn) as [He Me].
  destruct (IH _ Hss Me). split; [lia|done].
Qed.

Lemma toolresult_eta tr : mkToolResult (tr_content tr) (isError tr) = tr.
Proof. by destruct tr. Qed.

(** A tool result survives the wire.  For any list of text, binary and resource
    items whose strings are well-formed and do not start with a byte-order mark, in a
    message below 512 MiB, the decoder returns the result that was encoded. *)
Theorem toolresult_roundtrip tr :
  Forall small (tr_content tr) -> Forall content_ok (tr_content tr) ->
  toolresult_size tr < 2 ^ 29 ->
  exists bs, encodeToolResult tr = Ok bs /\ decodeToolResult bs = Ok tr.
Proof.
  intros Hs Ho Hl. set (count := Z.of_nat (length (tr_content tr))).
  assert (Mb : (32 + count * 16) mod 8 = 0) by align8.
  destruct (contents_end_bound (32 + count * 16) (tr_content tr) Hs Mb) as [Hb Mz].
  change (contents_end _ _) with (toolresult_size tr) in *.
  destruct (encodeToolResult_facts tr Hs Mz) as (c & E & Hn & Hf).
  exists (framed c). split; [done|]. unfold toolresult_facts in Hf. fold count in Hf.
  apply Forall_app in Hf as [Hfs Hf]. split_facts Hf.
  assert (Hc : 0 <= count) by (unfold count; lia).
  unfold decodeToolResult. rewrite readSegmentStart_framed by (rewrite ?Hn; done || lia).
  unfold rbind at 1. change (readStructPointer (framed c) 8) with (readStructPointer (framed c) (8 + 0)).
  rewrite (fact_struct_ptr c _ 0 8 1 1) by (done || lia). unfold rbind at 1.
  cbn [sp_dataWords sp_ptrWords sp_target]. no_if. unfold readBit, readU8.
  change (get (framed c) 1) with (get (framed c) (Z.of_nat 1)).
  rewrite (fact_get c 8 1 (if isError tr then 1 else 0)) by (done || destruct (isError tr); lia).
  unfold rbind at 1 2. cbv zeta. change (8 + 8 + 1 * WORD) with (8 + 16).
  rewrite (fact_list_ptr c _ 16 24 ELEM_COMPOSITE (count * 2))
    by (done || lia || reflexivity || (unfold ELEM_COMPOSITE; lia)).
  unfold rbind at 1, check. cbn [lp_elementSize lp_target lp_count].
  change (ELEM_COMPOSITE =? ELEM_COMPOSITE) with true. cbv iota.
  rewrite (readCompositeListTag_words _ _ count 1 1);
    [|lia|rewrite blen_framed; lia|lia|lia|lia|].
  2:{ rewrite sub_framed by lia. destruct F0 as (_ & _ & E0). exact E0. }
  rewrite (proj2 (Z.ltb_lt count (2 ^ 27))) by lia. unfold rbind at 1.
  rewrite Z.eqb_refl. change (8 + 24 + WORD) with (8 + 32).
  assert (Hcn : Z.to_nat count = length (tr_content tr)) by (unfold count; lia). rewrite Hcn.
  rewrite (decodeContents_facts c _ (tr_content tr) (8 + 32) 0 32 (32 + count * 16)) by (done || lia).
  unfold rbind. rewrite <- (toolresult_eta tr) at 3. do 2 f_equal. by destruct (isError tr).
Qed.

Definition demo_toolresult : ToolResult :=
  mkToolResult [CText (js "ok"); CBinary (mkBinary [Corelib.Init.Byte.x01] (js "image/png"));
                CResource [Corelib.Init.Byte.x02]] true.

Lemma toolresult_roundtrip_witness :
  exists bs, encodeToolResult demo_toolresult = Ok bs /\ decodeToolResult bs = Ok demo_toolresult.
Proof.
  apply toolresult_roundtrip.
  - repeat constructor.
  - repeat constructor.
  - reflexivity.
Defined.

End WireMessages.
