(* ===== verification/Base64.v ===== *)
(** Base64: the platform's [btoa] and [atob] over byte strings, and the codecs the
    program builds from them: [b64encode] and [b64decode] of
    src/src/routes/lease-middleware.ts (base64url without padding), [b64StdDecode] of
    the same file and [b64Decode] of src/src/storage/bundle-canonical.ts. *)
From S2P Require Import Prelude JsString.

Module Base64.

(** ** The platform's codec *)

Definition char_of (n : Z) : Z :=
  if n <? 26 then 65 + n else if n <? 52 then 71 + n else if n <? 62 then n - 4
  else if n =? 62 then 43 else 47.

Definition val_of (c : Z) : option Z :=
  if (65 <=? c) && (c <=? 90) then Some (c - 65)
  else if (97 <=? c) && (c <=? 122) then Some (c - 71)
  else if (48 <=? c) && (c <=? 57) then Some (c + 4)
  else if c =? 43 then Some 62 else if c =? 47 then Some 63 else None.

Definition EQ : Z := 61.

Fixpoint btoa (bs : bytes) : jsstr :=
  match bs with
  | [] => []
  | [x] => let x := b2z x in
      [char_of (x / 4); char_of (x mod 4 * 16); EQ; EQ]
  | [x; y] => let x := b2z x in let y := b2z y in
      [char_of (x / 4); char_of (x mod 4 * 16 + y / 16); char_of (y mod 16 * 4); EQ]
  | x :: y :: z :: bs => let x := b2z x in let y := b2z y in let z := b2z z in
      char_of (x / 4) :: char_of (x mod 4 * 16 + y / 16) ::
      char_of (y mod 16 * 4 + z / 64) :: char_of (z mod 64) :: btoa bs
  end.

(** Sextets to bytes: a group of two or three leaves its low bits unused. *)
Fixpoint unsextet (vs : list Z) : option bytes :=
  match vs with
  | [] => Some []
  | [_] => None
  | [a; b] => Some [z2b (a * 4 + b / 16)]
  | [a; b; c] => Some [z2b (a * 4 + b / 16); z2b (b mod 16 * 16 + c / 4)]
  | a :: b :: c :: d :: vs =>
      bs ← unsextet vs;
      Some (z2b (a * 4 + b / 16) :: z2b (b mod 16 * 16 + c / 4) :: z2b (c mod 4 * 64 + d) :: bs)
  end.

Definition is_space (c : Z) : bool :=
  bool_decide (c ∈ [9; 10; 12; 13; 32]).

(** [str.replace(/=+$/, "")] *)
Definition strip_eq (s : jsstr) : jsstr :=
  reverse ((fix go r := match r with c :: r' => if c =? EQ then go r' else r | [] => [] end)
             (reverse s)).

(** One or two trailing padding units, taken only from a length divisible by four. *)
Definition drop_padding (s : jsstr) : jsstr :=
  if Z.of_nat (length s) mod 4 =? 0 then
    match reverse s with
    | c :: d :: r => if c =? EQ then (if d =? EQ then reverse r else reverse (d :: r)) else s
    | _ => s
    end
  else s.

(** [None] where the platform throws [InvalidCharacterError]. *)
Definition atob (s : jsstr) : option bytes :=
  vs ← mapM val_of (drop_padding (filter (fun c => is_space c = false) s));
  unsextet vs.

(** ** The program's codecs *)

Definition to_url (c : Z) : Z := if c =? 43 then 45 else if c =? 47 then 95 else c.
Definition to_std (c : Z) : Z := if c =? 45 then 43 else if c =? 95 then 47 else c.

Definition b64encode (bs : bytes) : jsstr := strip_eq (map to_url (btoa bs)).

Definition b64decode (s : jsstr) : option bytes :=
  let padded := map to_std s ++
                drop (Z.to_nat ((Z.of_nat (length s) + 3) mod 4)) [EQ; EQ; EQ] in
  atob padded.

Definition b64StdDecode (s : jsstr) : option bytes :=
  if bool_decide (s = []) then Some [] else atob s.

Definition b64Decode (s : jsstr) : option bytes :=
  let norm := map to_std s in
  let pad := (4 - Z.of_nat (length norm) mod 4) mod 4 in
  atob (norm ++ replicate (Z.to_nat pad) EQ).

(** ** The codec reads what it writes *)

Fixpoint sextets (bs : bytes) : list Z :=
  match bs with
  | [] => []
  | [x] => [b2z x / 4; b2z x mod 4 * 16]
  | [x; y] => [b2z x / 4; b2z x mod 4 * 16 + b2z y / 16; b2z y mod 16 * 4]
  | x :: y :: z :: bs => b2z x / 4 :: b2z x mod 4 * 16 + b2z y / 16 ::
      b2z y mod 16 * 4 + b2z z / 64 :: b2z z mod 64 :: sextets bs
  end.

Lemma bytes_ind3 (P : bytes -> Prop) :
  P [] -> (forall x, P [x]) -> (forall x y, P [x; y]) ->
  (forall x y z bs, P bs -> P (x :: y :: z :: bs)) -> forall bs, P bs.
Proof.
  intros H0 H1 H2 H3. fix IH 1. intros [|x [|y [|z bs]]]; [done|by apply H1|by apply H2|apply H3, IH].
Qed.

Ltac bytes_lia :=
  repeat match goal with x : Corelib.Init.Byte.byte |- _ =>
    lazymatch goal with H : 0 <= b2z x < 256 |- _ => fail | _ => pose proof (b2z_range x) end end;
  Z.div_mod_to_equations; lia.

Lemma byte_eq z x : z = b2z x -> z2b z = x.
Proof. intros ->. apply z2b_b2z. Qed.

Lemma unsextet_sextets bs : unsextet (sextets bs) = Some bs.
Proof.
  induction bs as [|x|x y|x y z bs IH] using bytes_ind3; [done|..];
    cbn [sextets unsextet]; [..|rewrite IH; cbn [mbind option_bind]];
    repeat f_equal; apply byte_eq; bytes_lia.
Qed.

Lemma sextets_range bs : Forall (fun n => 0 <= n < 64) (sextets bs).
Proof.
  induction bs as [|x|x y|x y z bs IH] using bytes_ind3; cbn [sextets];
    repeat apply Forall_cons_2; try done; bytes_lia.
Qed.

Lemma sextet_facts n :
  0 <= n < 64 ->
  val_of (char_of n) = Some n /\ is_space (char_of n) = false /\ char_of n <> EQ /\
  to_std (to_url (char_of n)) = char_of n /\ to_url (char_of n) <> EQ /\
  10 < to_url (char_of n) < 128.
Proof.
  intros Hn.
  assert (H : Forall (fun n => val_of (char_of n) = Some n /\ is_space (char_of n) = false /\
    char_of n <> EQ /\ to_std (to_url (char_of n)) = char_of n /\ to_url (char_of n) <> EQ /\
    10 < to_url (char_of n) < 128) (seqZ 0 64)).
  { apply (bool_decide_unpack _). vm_compute. exact I. }
  rewrite Forall_forall in H. apply H, elem_of_seqZ. lia.
Qed.

Definition core (bs : bytes) : jsstr := map char_of (sextets bs).
Definition npad (bs : bytes) : nat := Z.to_nat ((3 - Z.of_nat (length bs) mod 3) mod 3).

Lemma npad_step x y z bs : npad (x :: y :: z :: bs) = npad bs.
Proof. unfold npad. cbn [length]. f_equal. Z.div_mod_to_equations; lia. Qed.

Lemma btoa_core bs : btoa bs = core bs ++ replicate (npad bs) EQ.
Proof.
  induction bs as [|x|x y|x y z bs IH] using bytes_ind3; try reflexivity.
  rewrite npad_step. cbn [btoa]. rewrite IH. reflexivity.
Qed.

Lemma length_core bs :
  (Z.of_nat (length (core bs)) + Z.of_nat (npad bs)) mod 4 = 0 /\ (npad bs <= 2)%nat.
Proof.
  induction bs as [|x|x y|x y z bs IH] using bytes_ind3; try (split; reflexivity || (cbv; lia)).
  rewrite npad_step. unfold core in *. cbn [sextets map length] in *. split; [|lia].
  destruct IH as [IH _]. revert IH. Z.div_mod_to_equations; lia.
Qed.

Lemma core_units bs c : c ∈ core bs -> exists n, c = char_of n /\ 0 <= n < 64.
Proof.
  intros (n & -> & Hn)%list_elem_of_fmap. exists n. split; [done|].
  pose proof (sextets_range bs) as H. rewrite Forall_forall in H. auto.
Qed.

Lemma mapM_core bs : mapM val_of (core bs) = Some (sextets bs).
Proof.
  unfold core. pose proof (sextets_range bs) as H. induction H as [|n l Hn _ IH]; [done|].
  cbn [map mapM]. rewrite (proj1 (sextet_facts n Hn)). cbn. by rewrite IH.
Qed.

Lemma filter_true {A} (P : A -> Prop) `{forall x, Decision (P x)} (l : list A) :
  Forall P l -> filter P l = l.
Proof. induction 1; [done|]. rewrite filter_cons_True by done. congruence. Qed.

Lemma filter_core bs k :
  filter (fun c => is_space c = false) (core bs ++ replicate k EQ) = core bs ++ replicate k EQ.
Proof.
  apply filter_true. apply Forall_forall. intros c [Hc|Hc]%elem_of_app.
  - apply core_units in Hc as (n & -> & Hn). by apply sextet_facts.
  - by apply elem_of_replicate in Hc as [-> _].
Qed.

Lemma core_last bs : match reverse (core bs) with c :: _ => c =? EQ | [] => false end = false.
Proof.
  destruct (reverse (core bs)) as [|c r] eqn:E; [done|]. apply Z.eqb_neq.
  assert (Hc : c ∈ core bs) by (apply elem_of_reverse; rewrite E; apply list_elem_of_here).
  apply core_units in Hc as (n & -> & Hn). by apply sextet_facts.
Qed.

Lemma drop_padding_core bs :
  drop_padding (core bs ++ replicate (npad bs) EQ) = core bs.
Proof.
  destruct (length_core bs) as [Hl Hp]. unfold drop_padding.
  rewrite length_app, length_replicate, Nat2Z.inj_add, Hl. cbn [Z.eqb].
  rewrite reverse_app, reverse_replicate. pose proof (core_last bs) as Hc.
  pose proof (reverse_involutive (core bs)) as Hr.
  destruct (npad bs) as [|[|[|k]]]; [..|lia]; cbn [replicate app];
    try change (EQ =? EQ) with true; cbv iota.
  - rewrite app_nil_r. destruct (reverse (core bs)) as [|c [|d r]]; [done..|]. by rewrite Hc.
  - destruct (reverse (core bs)) as [|c r] eqn:E; [|by rewrite Hc].
    exfalso. assert (core bs = []) as E' by (by rewrite <- Hr). rewrite E' in Hl. discriminate.
  - done.
Qed.

Lemma atob_btoa bs : atob (btoa bs) = Some bs.
Proof.
  unfold atob. rewrite btoa_core, filter_core, drop_padding_core, mapM_core. cbn [mbind option_bind].
  apply unsextet_sextets.
Qed.

Lemma strip_eq_core bs k : strip_eq (map to_url (core bs) ++ replicate k EQ) = map to_url (core bs).
Proof.
  unfold strip_eq. rewrite reverse_app, reverse_replicate.
  induction k as [|k IH]; [|cbn [replicate app]; change (EQ =? EQ) with true; exact IH].
  cbn [replicate app]. destruct (reverse (map to_url (core bs))) as [|c r] eqn:E.
  - by rewrite <- (reverse_involutive (map to_url (core bs))), E.
  - rewrite (proj2 (Z.eqb_neq c EQ)).
    + by rewrite <- E, reverse_involutive.
    + assert (Hc : c ∈ map to_url (core bs)) by (apply elem_of_reverse; rewrite E; apply list_elem_of_here).
      apply list_elem_of_fmap in Hc as (u & -> & Hu).
      apply core_units in Hu as (n & -> & Hn). by apply sextet_facts.
Qed.

Lemma b64encode_core bs : b64encode bs = map to_url (core bs).
Proof.
  unfold b64encode. rewrite btoa_core, map_app.
  assert (E : map to_url (replicate (npad bs) EQ) = replicate (npad bs) EQ)
    by (induction (npad bs) as [|k IH]; [done|]; cbn [replicate map]; by rewrite IH).
  rewrite E. apply strip_eq_core.
Qed.

Lemma to_std_core bs : map to_std (b64encode bs) = core bs.
Proof.
  rewrite b64encode_core, map_map. rewrite <- (map_id (core bs)) at 2.
  apply map_ext_in. intros c Hc%list_elem_of_In.
  apply core_units in Hc as (n & -> & Hn). by apply sextet_facts.
Qed.

(** The two ways the source computes the missing padding agree. *)
Lemma padding_agrees n :
  drop (Z.to_nat ((Z.of_nat n + 3) mod 4)) [EQ; EQ; EQ] =
  replicate (Z.to_nat ((4 - Z.of_nat n mod 4) mod 4)) EQ.
Proof.
  assert (H : Z.of_nat n mod 4 = 0 \/ Z.of_nat n mod 4 = 1 \/ Z.of_nat n mod 4 = 2 \/
              Z.of_nat n mod 4 = 3) by (Z.div_mod_to_equations; lia).
  assert (E : (Z.of_nat n + 3) mod 4 = (Z.of_nat n mod 4 + 3) mod 4)
    by (Z.div_mod_to_equations; lia).
  rewrite E. by destruct H as [-> | [-> | [-> | ->]]].
Qed.

Lemma decoders_agree s : b64Decode s = b64decode s.
Proof. unfold b64Decode, b64decode. by rewrite padding_agrees, length_map. Qed.

Lemma b64decode_encode bs : b64decode (b64encode bs) = Some bs.
Proof.
  rewrite <- decoders_agree. unfold b64Decode. rewrite to_std_core.
  destruct (length_core bs) as [Hl Hp].
  replace (Z.to_nat _) with (npad bs).
  - rewrite <- btoa_core. apply atob_btoa.
  - revert Hl. Z.div_mod_to_equations; lia.
Qed.

#[global] Instance b64encode_inj : Inj (=) (=) b64encode.
Proof.
  intros x y E. assert (H : Some x = Some y) by (by rewrite <- !b64decode_encode, E). congruence.
Qed.

(** No unit of an encoding is a line feed or outside ASCII. *)
Lemma b64encode_units bs : Forall (fun c => 10 < c < 128) (b64encode bs).
Proof.
  rewrite b64encode_core. apply Forall_forall. intros c (u & -> & Hu)%list_elem_of_fmap.
  apply core_units in Hu as (n & -> & Hn). by apply sextet_facts.
Qed.

(** ** Properties *)

(** Base64url as the lease headers carry it is a lossless code.  Decoding what
    [b64encode] wrote gives the bytes back, with either of the program's two url-safe
    decoders; the encoding stays inside printable ASCII; and so two byte strings with
    the same encoding are equal. *)
Theorem base64url_roundtrip bs :
  b64decode (b64encode bs) = Some bs /\ b64Decode (b64encode bs) = Some bs /\
  b64StdDecode (btoa bs) = Some bs /\ Forall (fun c => 10 < c < 128) (b64encode bs).
Proof.
  rewrite decoders_agree. split; [apply b64decode_encode|]. split; [apply b64decode_encode|].
  split; [|apply b64encode_units]. unfold b64StdDecode. case_bool_decide as E; [|apply atob_btoa].
  rewrite btoa_core in E. apply app_eq_nil in E as [E _].
  destruct bs as [|x [|y [|z bs]]]; [done|discriminate E..].
Qed.

(** Decoding is not injective: padding and the unused low bits of a last group are
    ignored, so that one byte string has several spellings. *)
Lemma b64decode_malleable :
  b64decode (js "QQ") = b64decode (js "QR") /\ b64decode (js "QQ==") = b64decode (js "QQ").
Proof. split; vm_compute; reflexivity. Qed.

End Base64.
