(* ===== verification/Json.v ===== *)
(** JSON values as the program holds them after [JSON.parse], and the language
    operations the sources apply to them: property access, truthiness, conversion to
    string, and [Number.parseInt].

    A number is one of the integers that [Number::toString] prints in plain decimal
    (magnitude below 10^21); fractions are outside the model. *)
From S2P Require Import Prelude JsString.

Inductive Json : Type :=
  | JNull
  | JBool (b : bool)
  | JNum (z : Z)
  | JStr (s : jsstr)
  | JArr (l : list Json)
  | JObj (m : list (jsstr * Json)).

Fixpoint assoc {A} (k : jsstr) (m : list (jsstr * A)) : option A :=
  match m with
  | [] => None
  | (k', v) :: m => if decide (k = k') then Some v else assoc k m
  end.

(** [m.set(k, v)] of a JavaScript [Map] held in insertion order: a key that is there keeps
    its place. *)
Fixpoint assoc_set {A} (k : jsstr) (v : A) (m : list (jsstr * A)) : list (jsstr * A) :=
  match m with
  | [] => [(k, v)]
  | (k', v') :: m => if decide (k = k') then (k, v) :: m else (k', v') :: assoc_set k v m
  end.

(** [v.k] of a value that is neither [null] nor [undefined], for a key that no
    built-in prototype has; [None] is [undefined]. *)
Definition get_prop (v : Json) (k : jsstr) : option Json :=
  match v with JObj m => assoc k m | _ => None end.

(** [o?.k] *)
Definition opt_prop (o : option Json) (k : jsstr) : option Json :=
  match o with None | Some JNull => None | Some v => get_prop v k end.

Definition truthy (o : option Json) : bool :=
  match o with
  | None | Some JNull => false
  | Some (JBool b) => b
  | Some (JNum z) => negb (z =? 0)
  | Some (JStr s) => negb (bool_decide (s = []))
  | Some _ => true
  end.

(** A non-empty string, for values that are strings or [undefined]. *)
Definition nonempty (o : option jsstr) : bool :=
  match o with Some (_ :: _) => true | _ => false end.

(** [`${v}`]; [None] is a [TypeError], thrown for an object with an own [toString]. *)
Fixpoint to_string (v : Json) : option jsstr :=
  match v with
  | JNull => Some (js "null")
  | JBool true => Some (js "true")
  | JBool false => Some (js "false")
  | JNum z => Some (js_dec z)
  | JStr s => Some s
  | JArr l =>
      parts ← (fix go l := match l with
               | [] => Some []
               | v :: l =>
                   p ← match v with JNull => Some [] | _ => to_string v end;
                   ps ← go l; Some (p :: ps)
               end) l;
      Some (join (js ",") parts)
  | JObj m =>
      match assoc (js "toString") m with
      | Some _ => None
      | None => Some (js "[object Object]")
      end
  end.

(** ** [Number.parseInt(s, 10)] *)

Definition js_space (c : Z) : bool :=
  bool_decide (c ∈ [9; 10; 11; 12; 13; 32; 160; 5760; 8192; 8193; 8194; 8195; 8196; 8197;
    8198; 8199; 8200; 8201; 8202; 8232; 8233; 8239; 8287; 12288; 65279]).

Fixpoint trim_start (s : jsstr) : jsstr :=
  match s with c :: s' => if js_space c then trim_start s' else s | [] => [] end.
Definition trim (s : jsstr) : jsstr := reverse (trim_start (reverse (trim_start s))).

Definition is_digit (c : Z) : bool := (48 <=? c) && (c <=? 57).

(** The value of the leading digits of [s] after [acc]. *)
Fixpoint digits (acc : Z) (s : jsstr) : Z :=
  match s with
  | c :: s => if is_digit c then digits (acc * 10 + (c - 48)) s else acc
  | [] => acc
  end.

(** The first magnitude that rounds to [Infinity]. *)
Definition INFINITE : Z := 2 ^ 1024 - 2 ^ 970.

(** [NaN], an infinity, or an integer.  The integer is exact; a JavaScript number
    rounds it above 2^53. *)
Inductive parsed := NaN | Infinite (negative : bool) | Int (z : Z).

Definition parse_int (s : jsstr) : parsed :=
  let s := trim_start s in
  let '(neg, s) := match s with
                   | c :: r => if c =? 45 then (true, r) else if c =? 43 then (false, r) else (false, s)
                   | [] => (false, s)
                   end in
  match s with
  | c :: _ =>
      if is_digit c then
        let z := digits 0 s in
        if INFINITE <=? z then Infinite neg else Int (if neg then - z else z)
      else NaN
  | [] => NaN
  end.

Lemma trim_start_no_space s : forallb (fun c => negb (js_space c)) s = true -> trim_start s = s.
Proof.
  destruct s as [|c s]; [done|]. cbn [forallb trim_start]. by destruct (js_space c).
Qed.

Lemma assoc_assoc_set {A} k k' (v : A) m :
  assoc k (assoc_set k' v m) = if decide (k = k') then Some v else assoc k m.
Proof.
  induction m as [|[k1 v1] m IH]; cbn [assoc_set assoc]; [done|].
  destruct (decide (k' = k1)); cbn [assoc]; [|rewrite IH];
    destruct (decide (k = k1)), (decide (k = k')); congruence.
Qed.

Lemma elem_of_keys_assoc_set {A} k k' (v : A) m :
  k ∈ map fst (assoc_set k' v m) <-> k = k' \/ k ∈ map fst m.
Proof.
  induction m as [|[k1 v1] m IH]; cbn [assoc_set map fst]; [set_solver|].
  destruct (decide (k' = k1)) as [-> |]; cbn [map fst]; rewrite !elem_of_cons; [|rewrite IH]; naive_solver.
Qed.

Lemma NoDup_assoc_set {A} k (v : A) m : NoDup (map fst m) -> NoDup (map fst (assoc_set k v m)).
Proof.
  induction m as [|[k1 v1] m IH]; cbn [assoc_set map fst]; intros Hn.
  - apply NoDup_singleton.
  - destruct (decide (k = k1)) as [-> |]; [done|]. cbn [map fst]. apply NoDup_cons in Hn as [H1 H2].
    apply NoDup_cons. rewrite elem_of_keys_assoc_set. naive_solver.
Qed.

Lemma elem_of_assoc {A} k (v : A) m : NoDup (map fst m) -> (k, v) ∈ m <-> assoc k m = Some v.
Proof.
  induction m as [|[k1 v1] m IH]; cbn [map fst assoc]; intros Hn; [split; [intros H; by apply not_elem_of_nil in H|done]|].
  apply NoDup_cons in Hn as [H1 H2]. rewrite elem_of_cons, IH by done.
  destruct (decide (k = k1)) as [-> |Hne]; [|naive_solver]. split; [|naive_solver].
  intros [[= ->]|H]; [done|]. destruct H1. apply IH in H; [|done].
  apply list_elem_of_fmap. by exists (k1, v).
Qed.
