(* ===== verification/JsonText.v ===== *)
(** JSON text: [JSON.stringify] on the values of Json.v and [JSON.parse], by the
    ECMAScript grammar.

    [JSON.stringify] escapes the control characters, the quote, the backslash and every
    lone surrogate, so its output is always well-formed UTF-16.  [JSON.parse] builds an
    object property by property: a repeated key overwrites the value in place, and the
    keys that are array indices come first, in numeric order, whatever the text says.

    A number text with a fraction or an exponent, or above 2^53 - 1, is a JavaScript
    number this development has no value for: reading one answers [Unrepresentable], and
    no theorem speaks about it.  Negative zero is read as zero. *)
From S2P Require Import Prelude JsString Platform Json.

Module JsonText.

(** ** Printing *)

Definition hex4 (u : Z) : jsstr :=
  [hex_digit (u / 4096 mod 16); hex_digit (u / 256 mod 16); hex_digit (u / 16 mod 16);
   hex_digit (u mod 16)].

(** A unit written as a Unicode escape: backslash, u, four hex digits. *)
Definition unicode_escape (u : Z) : jsstr := 92 :: 117 :: hex4 u.

Definition escape_unit (u : Z) : jsstr :=
  if u =? 8 then [92; 98] else if u =? 9 then [92; 116] else if u =? 10 then [92; 110]
  else if u =? 12 then [92; 102] else if u =? 13 then [92; 114]
  else if u =? 34 then [92; 34] else if u =? 92 then [92; 92]
  else if u <? 32 then unicode_escape u else [u].

(** The units between the quotes. *)
Fixpoint quote_units (s : jsstr) : jsstr :=
  match s with
  | [] => []
  | u :: r =>
      if is_high u then
        match r with
        | v :: r' => if is_low v then u :: v :: quote_units r'
                     else unicode_escape u ++ quote_units r
        | [] => unicode_escape u
        end
      else if is_low u then unicode_escape u ++ quote_units r
      else escape_unit u ++ quote_units r
  end.

Definition quote (s : jsstr) : jsstr := 34 :: quote_units s ++ [34].

(** [JSON.stringify(v)] *)
Fixpoint json_stringify (v : Json) : jsstr :=
  match v with
  | JNull => js "null"
  | JBool true => js "true"
  | JBool false => js "false"
  | JNum z => js_dec z
  | JStr s => quote s
  | JArr l => 91 :: join [44] (map json_stringify l) ++ [93]
  | JObj m => 123 :: join [44] (map (fun kv => quote kv.1 ++ 58 :: json_stringify kv.2) m) ++ [125]
  end.

(** ** Parsing *)

Inductive json_error := SyntaxError | Unrepresentable | OutOfFuel.

#[global] Instance json_error_eq_dec : EqDecision json_error.
Proof. solve_decision. Defined.

Definition json_space (c : Z) : bool := (c =? 9) || (c =? 10) || (c =? 13) || (c =? 32).

Fixpoint skip_ws (s : jsstr) : jsstr :=
  match s with c :: r => if json_space c then skip_ws r else s | [] => [] end.

Definition hex_value (c : Z) : option Z :=
  if (48 <=? c) && (c <=? 57) then Some (c - 48)
  else if (97 <=? c) && (c <=? 102) then Some (c - 87)
  else if (65 <=? c) && (c <=? 70) then Some (c - 55)
  else None.

Definition hex4_value (a b c d : Z) : option Z :=
  x ← hex_value a; y ← hex_value b; z ← hex_value c; w ← hex_value d;
  Some (x * 4096 + y * 256 + z * 16 + w).

(** The unit a one-letter escape stands for. *)
Definition unescape (e : Z) : option Z :=
  if (e =? 34) || (e =? 92) || (e =? 47) then Some e
  else if e =? 98 then Some 8 else if e =? 102 then Some 12 else if e =? 110 then Some 10
  else if e =? 114 then Some 13 else if e =? 116 then Some 9 else None.

(** A string body after the opening quote: its units and the text after the closing one. *)
Fixpoint parse_chars (s : jsstr) : option (jsstr * jsstr) :=
  match s with
  | [] => None
  | u :: r =>
      if u =? 34 then Some ([], r)
      else if u =? 92 then
        match r with
        | e :: r1 =>
            match unescape e with
            | Some c => '(t, rest) ← parse_chars r1; Some (c :: t, rest)
            | None =>
                if e =? 117 then
                  match r1 with
                  | a :: b :: c :: d :: r2 =>
                      x ← hex4_value a b c d;
                      '(t, rest) ← parse_chars r2; Some (x :: t, rest)
                  | _ => None
                  end
                else None
            end
        | [] => None
        end
      else if u <? 32 then None
      else '(t, rest) ← parse_chars r; Some (u :: t, rest)
  end.

Fixpoint span_digits (s : jsstr) : jsstr * jsstr :=
  match s with
  | c :: r => if is_digit c then let '(ds, rest) := span_digits r in (c :: ds, rest) else ([], s)
  | [] => ([], [])
  end.

(** One digit or more. *)
Definition skip_digits (s : jsstr) : result json_error jsstr :=
  match span_digits s with ([], _) => Throw SyntaxError | (_, rest) => Ok rest end.

(** An optional fraction, and an optional exponent: was there one? *)
Definition read_fraction (s : jsstr) : result json_error (bool * jsstr) :=
  match s with
  | c :: r => if c =? 46 then let? rest := skip_digits r in Ok (true, rest) else Ok (false, s)
  | [] => Ok (false, [])
  end.
Definition read_exponent (s : jsstr) : result json_error (bool * jsstr) :=
  match s with
  | c :: r =>
      if (c =? 101) || (c =? 69) then
        let? rest := skip_digits (match r with
                                  | d :: r' => if (d =? 43) || (d =? 45) then r' else r
                                  | [] => []
                                  end) in
        Ok (true, rest)
      else Ok (false, s)
  | [] => Ok (false, [])
  end.

Definition MAX_SAFE_INTEGER : Z := 2 ^ 53 - 1.

(** A number after its sign. *)
Definition parse_magnitude (neg : bool) (s : jsstr) : result json_error (Json * jsstr) :=
  let '(ds, r) := span_digits s in
  if bool_decide (ds = []) then Throw SyntaxError
  else if bool_decide (head ds = Some 48) && (1 <? length ds)%nat then Throw SyntaxError
  else
    let? '(f, r) := read_fraction r in
    let? '(e, r) := read_exponent r in
    let z := digits 0 ds in
    if f || e || (MAX_SAFE_INTEGER <? z) then Throw Unrepresentable
    else Ok (JNum (if neg then - z else z), r).

Definition parse_number (s : jsstr) : result json_error (Json * jsstr) :=
  match s with
  | c :: r => if c =? 45 then parse_magnitude true r else parse_magnitude false s
  | [] => parse_magnitude false []
  end.

(** An array index: the canonical decimal text of an integer below 2^32 - 1. *)
Definition array_index (k : jsstr) : option Z :=
  if forallb is_digit k && bool_decide (js_dec (digits 0 k) = k) && (digits 0 k <? 4294967295)
  then Some (digits 0 k) else None.

(** Does a new property [k] go before the existing property [k']? *)
Definition own_before (k k' : jsstr) : bool :=
  match array_index k, array_index k' with
  | Some i, Some j => i <? j
  | Some _, None => true
  | None, _ => false
  end.

(** [CreateDataProperty(o, k, v)] *)
Fixpoint obj_set {A} (k : jsstr) (v : A) (m : list (jsstr * A)) : list (jsstr * A) :=
  match m with
  | [] => [(k, v)]
  | (k', v') :: m' =>
      if decide (k = k') then (k, v) :: m'
      else if own_before k k' then (k, v) :: m
      else (k', v') :: obj_set k v m'
  end.

Definition literal (w : jsstr) (v : Json) (s : jsstr) : result json_error (Json * jsstr) :=
  if starts_with w s then Ok (v, drop (length w) s) else Throw SyntaxError.

Fixpoint parse_value (n : nat) (s : jsstr) : result json_error (Json * jsstr) :=
  match n with
  | O => Throw OutOfFuel
  | S n =>
      match skip_ws s with
      | [] => Throw SyntaxError
      | c :: r =>
          if c =? 123 then
            match skip_ws r with
            | [] => Throw SyntaxError
            | d :: r' => if d =? 125 then Ok (JObj [], r') else parse_members n [] (d :: r')
            end
          else if c =? 91 then
            match skip_ws r with
            | [] => Throw SyntaxError
            | d :: r' => if d =? 93 then Ok (JArr [], r') else parse_elements n [] (d :: r')
            end
          else if c =? 34 then
            match parse_chars r with
            | Some (t, rest) => Ok (JStr t, rest)
            | None => Throw SyntaxError
            end
          else if c =? 116 then literal (js "true") (JBool true) (c :: r)
          else if c =? 102 then literal (js "false") (JBool false) (c :: r)
          else if c =? 110 then literal (js "null") JNull (c :: r)
          else parse_number (c :: r)
      end
  end
  with parse_elements (n : nat) (acc : list Json) (s : jsstr) : result json_error (Json * jsstr) :=
  match n with
  | O => Throw OutOfFuel
  | S n =>
      let? '(v, r) := parse_value n s in
      match skip_ws r with
      | [] => Throw SyntaxError
      | d :: r =>
          if d =? 44 then parse_elements n (acc ++ [v]) r
          else if d =? 93 then Ok (JArr (acc ++ [v]), r)
          else Throw SyntaxError
      end
  end
  with parse_members (n : nat) (acc : list (jsstr * Json)) (s : jsstr)
    : result json_error (Json * jsstr) :=
  match n with
  | O => Throw OutOfFuel
  | S n =>
      match skip_ws s with
      | [] => Throw SyntaxError
      | c :: r =>
          if negb (c =? 34) then Throw SyntaxError
          else match parse_chars r with
               | None => Throw SyntaxError
               | Some (k, r) =>
                   match skip_ws r with
                   | [] => Throw SyntaxError
                   | d :: r =>
                       if negb (d =? 58) then Throw SyntaxError
                       else
                         let? '(v, r) := parse_value n r in
                         match skip_ws r with
                         | [] => Throw SyntaxError
                         | d :: r =>
                             if d =? 44 then parse_members n (obj_set k v acc) r
                             else if d =? 125 then Ok (JObj (obj_set k v acc), r)
                             else Throw SyntaxError
                         end
                   end
               end
      end
  end.

(** [JSON.parse(text)] *)
Definition json_parse (text : jsstr) : result json_error Json :=
  let? '(v, rest) := parse_value (2 * length text + 2) text in
  if bool_decide (skip_ws rest = []) then Ok v else Throw SyntaxError.

Example parse_example :
  json_parse (js "{ " ++ quote (js "b") ++ js ": [1, -20, true], " ++ quote (js "7") ++ js " : null}") =
  Ok (JObj [(js "7", JNull); (js "b", JArr [JNum 1; JNum (-20); JBool true])]).
Proof. vm_compute. reflexivity. Qed.

(** ** Induction over a JSON tree *)

Section json_induction.
Context (P : Json -> Prop).
Context (Hnull : P JNull) (Hbool : forall b, P (JBool b)) (Hnum : forall z, P (JNum z))
  (Hstr : forall s, P (JStr s)) (Harr : forall l, Forall P l -> P (JArr l))
  (Hobj : forall m, Forall (fun kv => P kv.2) m -> P (JObj m)).

Fixpoint json_tree_ind (v : Json) : P v :=
  match v with
  | JNull => Hnull
  | JBool b => Hbool b
  | JNum z => Hnum z
  | JStr s => Hstr s
  | JArr l => Harr l ((fix go (l : list Json) : Forall P l :=
      match l with [] => @List.Forall_nil _ _ | v :: l => @List.Forall_cons _ _ v l (json_tree_ind v) (go l) end) l)
  | JObj m => Hobj m ((fix go (m : list (jsstr * Json)) : Forall (fun kv => P kv.2) m :=
      match m with
      | [] => @List.Forall_nil _ _
      | kv :: m => @List.Forall_cons _ _ kv m (json_tree_ind kv.2) (go m)
      end) m)
  end.
End json_induction.

(** ** Strings *)

Definition unit16 (u : Z) : bool := (0 <=? u) && (u <? 65536).

Lemma hex_value_digit n : 0 <= n < 16 -> hex_value (hex_digit n) = Some n.
Proof.
  intros Hn. unfold hex_digit, hex_value. destruct (Z.ltb_spec n 10).
  - replace ((48 <=? 48 + n) && (48 + n <=? 57)) with true by lia. f_equal. lia.
  - replace ((48 <=? 87 + n) && (87 + n <=? 57)) with false by lia.
    replace ((97 <=? 87 + n) && (87 + n <=? 102)) with true by lia. f_equal. lia.
Qed.

Lemma hex4_value_hex4 u :
  0 <= u < 65536 ->
  hex4_value (hex_digit (u / 4096 mod 16)) (hex_digit (u / 256 mod 16))
    (hex_digit (u / 16 mod 16)) (hex_digit (u mod 16)) = Some u.
Proof.
  intros Hu. unfold hex4_value. rewrite !hex_value_digit by (apply Z.mod_pos_bound; lia). simpl.
  f_equal.
  pose proof (Z.div_mod u 16 ltac:(lia)). pose proof (Z.div_mod (u / 16) 16 ltac:(lia)).
  pose proof (Z.div_mod (u / 256) 16 ltac:(lia)). rewrite !Z.div_div in * by lia.
  change (16 * 16) with 256 in *. change (256 * 16) with 4096 in *.
  assert (0 <= u / 4096 < 16) by (split; [apply Z.div_pos; lia|apply Z.div_lt_upper_bound; lia]).
  rewrite (Z.mod_small (u / 4096)) by lia. lia.
Qed.

Lemma parse_unicode_escape u s t rest :
  0 <= u < 65536 -> parse_chars s = Some (t, rest) ->
  parse_chars (unicode_escape u ++ s) = Some (u :: t, rest).
Proof.
  intros Hu Hs. unfold unicode_escape, hex4. cbn -[hex_digit hex4_value Z.div Z.modulo].
  by rewrite hex4_value_hex4, Hs by done.
Qed.

Lemma parse_raw u s t rest :
  32 <= u -> u <> 34 -> u <> 92 -> parse_chars s = Some (t, rest) ->
  parse_chars (u :: s) = Some (u :: t, rest).
Proof.
  intros H1 H2 H3 Hs. cbn [parse_chars]. rewrite (proj2 (Z.eqb_neq u 34)), (proj2 (Z.eqb_neq u 92)) by done.
  replace (u <? 32) with false by lia. by rewrite Hs.
Qed.

Lemma parse_escape_unit u s t rest :
  0 <= u < 65536 -> parse_chars s = Some (t, rest) ->
  parse_chars (escape_unit u ++ s) = Some (u :: t, rest).
Proof.
  intros Hu Hs. unfold escape_unit.
  repeat (case_match; z_bool; [subst u; cbn; by rewrite Hs|]).
  case_match; z_bool; [by apply parse_unicode_escape|]. by apply parse_raw.
Qed.

Lemma is_low_range v : is_low v = true -> 56320 <= v <= 57343.
Proof. unfold is_low. intros. z_bool. lia. Qed.

Lemma is_high_range v : is_high v = true -> 55296 <= v <= 56319.
Proof. unfold is_high. intros. z_bool. lia. Qed.

Lemma parse_quote_units s rest :
  forallb unit16 s = true -> parse_chars (quote_units s ++ 34 :: rest) = Some (s, rest).
Proof.
  remember (length s) as n eqn:Hn. revert s Hn.
  induction (lt_wf n) as [n _ IH]; intros [|u r] -> Hr; [done|].
  cbn [forallb] in Hr. apply andb_true_iff in Hr as [Hu Hr].
  assert (Hu' : 0 <= u < 65536) by (unfold unit16 in Hu; lia).
  assert (IHr := IH (length r) ltac:(simpl; lia) r eq_refl Hr).
  cbn [quote_units]. destruct (is_high u) eqn:Eh.
  - pose proof (is_high_range _ Eh). destruct r as [|v r'].
    + apply parse_unicode_escape; [done|]. exact IHr.
    + destruct (is_low v) eqn:El; [|rewrite <- app_assoc; by apply parse_unicode_escape].
      pose proof (is_low_range _ El). cbn [app]. apply parse_raw; [lia..|]. apply parse_raw; [lia..|].
      apply (IH (length r')); [simpl; lia|done|]. cbn [forallb] in Hr. by apply andb_true_iff in Hr as [_ ?].
  - destruct (is_low u) eqn:El; rewrite <- app_assoc;
      [by apply parse_unicode_escape|by apply parse_escape_unit].
Qed.

(** The printed form is well-formed UTF-16, lone surrogates included. *)
Lemma hex_digit_bound n : 0 <= n < 16 -> 48 <= hex_digit n < 128.
Proof. unfold hex_digit. intros. destruct (Z.ltb_spec n 10); lia. Qed.

Lemma unicode_escape_ascii u : is_ascii (unicode_escape u).
Proof.
  unfold is_ascii, unicode_escape, hex4.
  pose proof (hex_digit_bound (u / 4096 mod 16) ltac:(apply Z.mod_pos_bound; lia)).
  pose proof (hex_digit_bound (u / 256 mod 16) ltac:(apply Z.mod_pos_bound; lia)).
  pose proof (hex_digit_bound (u / 16 mod 16) ltac:(apply Z.mod_pos_bound; lia)).
  pose proof (hex_digit_bound (u mod 16) ltac:(apply Z.mod_pos_bound; lia)).
  repeat constructor; lia.
Qed.

Lemma well_formed_plain u s :
  0 <= u < 65536 -> is_high u = false -> is_low u = false ->
  well_formed s = true -> well_formed (u :: s) = true.
Proof. intros Hu H1 H2 Hs. cbn [well_formed]. rewrite H1, H2. rewrite Hs. z_bool. lia. Qed.

Lemma well_formed_escape_unit u :
  0 <= u < 65536 -> is_high u = false -> is_low u = false -> well_formed (escape_unit u) = true.
Proof.
  intros Hu H1 H2. unfold escape_unit.
  repeat (case_match; [done|]). case_match; [apply ascii_well_formed, unicode_escape_ascii|].
  by apply well_formed_plain.
Qed.

Lemma well_formed_quote_units s : forallb unit16 s = true -> well_formed (quote_units s) = true.
Proof.
  remember (length s) as n eqn:Hn. revert s Hn.
  induction (lt_wf n) as [n _ IH]; intros [|u r] -> Hr; [done|].
  cbn [forallb] in Hr. apply andb_true_iff in Hr as [Hu Hr].
  assert (Hu' : 0 <= u < 65536) by (unfold unit16 in Hu; lia).
  assert (IHr := IH (length r) ltac:(simpl; lia) r eq_refl Hr).
  cbn [quote_units]. destruct (is_high u) eqn:Eh; [|destruct (is_low u) eqn:El].
  - destruct r as [|v r']; [apply ascii_well_formed, unicode_escape_ascii|].
    destruct (is_low v) eqn:El.
    + cbn [well_formed]. rewrite Eh, El. cbn [forallb] in Hr. apply andb_true_iff in Hr as [_ Hr'].
      rewrite (IH (length r') ltac:(simpl; lia) r' eq_refl Hr'). by rewrite ?andb_true_r.
    + apply well_formed_app; [apply ascii_well_formed, unicode_escape_ascii|done].
  - apply well_formed_app; [apply ascii_well_formed, unicode_escape_ascii|done].
  - apply well_formed_app; [by apply well_formed_escape_unit|done].
Qed.

(** ** Numbers *)

(** The decimal text of a natural number: digits, no leading zero. *)
Definition decimal (ds : jsstr) (n : Z) : Prop :=
  forallb is_digit ds = true /\ ds <> [] /\ digits 0 ds = n /\
  (head ds = Some 48 -> length ds = 1%nat).

Lemma pretty_digit_value d :
  (d < 10)%N -> Z.of_N (Ascii.N_of_ascii (pretty_N_char d)) = 48 + Z.of_N d.
Proof.
  intros Hd. assert (Hin : d ∈ map N.of_nat (seq 0 10)).
  { apply list_elem_of_fmap. exists (N.to_nat d). rewrite N2Nat.id, elem_of_seq. split; [done|lia]. }
  clear Hd. revert d Hin. apply Forall_forall. vm_compute. repeat constructor.
Qed.

Lemma digits_acc acc ds rest :
  forallb is_digit ds = true -> digits acc (ds ++ rest) = digits (digits acc ds) rest.
Proof.
  revert acc. induction ds as [|c ds IH]; intros acc H; [done|]. cbn [forallb] in H.
  apply andb_true_iff in H as [Hc H]. cbn [app digits]. rewrite Hc. by apply IH.
Qed.

Lemma pretty_N_go_decimal x s :
  (0 < x)%N -> exists ds, js (pretty_N_go x s) = ds ++ js s /\
    forallb is_digit ds = true /\ ds <> [] /\ digits 0 ds = Z.of_N x /\ head ds <> Some 48.
Proof.
  revert s. induction (N.lt_wf_0 x) as [x _ IH]; intros s Hx. rewrite pretty_N_go_step by lia.
  set (c := pretty_N_char (x `mod` 10)).
  assert (Hm : (x `mod` 10 < 10)%N) by (apply N.mod_lt; lia).
  assert (Hc : Z.of_N (Ascii.N_of_ascii c) = 48 + Z.of_N (x `mod` 10)) by by apply pretty_digit_value.
  assert (Hd : is_digit (48 + Z.of_N (x `mod` 10)) = true) by (clear -Hm; revert Hm; generalize (x `mod` 10)%N; intros d Hm; unfold is_digit; z_bool; lia).
  pose proof (N.div_mod' x 10) as Hdm.
  destruct (decide (x `div` 10 = 0)%N) as [E|E].
  - rewrite E, pretty_N_go_0. exists [48 + Z.of_N (x `mod` 10)].
    split; [change (js (String c s)) with (Z.of_N (Ascii.N_of_ascii c) :: js s); by rewrite Hc|].
    cbn [forallb digits head]. rewrite Hd.
    split; [done|]. split; [done|]. split; [lia|]. intros [= ?]. lia.
  - destruct (IH (x `div` 10)%N ltac:(apply N.div_lt; lia) (String c s) ltac:(lia))
      as (ds & Hds & Hf & Hn & Hv & Hh).
    exists (ds ++ [48 + Z.of_N (x `mod` 10)]). split.
    { rewrite Hds, <- app_assoc. change (js (String c s)) with (Z.of_N (Ascii.N_of_ascii c) :: js s).
      by rewrite Hc. }
    rewrite forallb_app, Hf. split; [cbn [forallb]; by rewrite Hd|]. split; [by destruct ds|].
    split; [|by destruct ds]. rewrite digits_acc by done. cbn [digits]. rewrite Hd, Hv. lia.
Qed.

Lemma pretty_N_decimal n : decimal (js (pretty n)) (Z.of_N n).
Proof.
  unfold pretty, pretty_N. case_decide as E; [subst; by repeat split|].
  destruct (pretty_N_go_decimal n EmptyString ltac:(lia)) as (ds & -> & Hf & Hn & Hv & Hh).
  change (js EmptyString) with (@nil Z). rewrite app_nil_r. by split.
Qed.

Lemma js_dec_decimal z :
  exists ds, decimal ds (Z.abs z) /\ js_dec z = if z <? 0 then 45 :: ds else ds.
Proof.
  unfold js_dec. destruct z as [|p|p].
  - exists (js (pretty 0%N)). split; [apply (pretty_N_decimal 0)|done].
  - exists (js (pretty (N.pos p))). split; [apply (pretty_N_decimal (N.pos p))|done].
  - exists (js (pretty (N.pos p))). split; [apply (pretty_N_decimal (N.pos p))|done].
Qed.

(** What may follow a value inside a text: nothing, or a separator. *)
Definition ends_value (rest : jsstr) : bool :=
  match rest with [] => true | c :: _ => (c =? 44) || (c =? 93) || (c =? 125) end.

Lemma span_digits_app ds rest :
  forallb is_digit ds = true -> ends_value rest = true -> span_digits (ds ++ rest) = (ds, rest).
Proof.
  intros Hd Hr. induction ds as [|c ds IH].
  - destruct rest as [|c r]; [done|]. cbn [app span_digits]. cbn [ends_value] in Hr.
    replace (is_digit c) with false; [done|]. symmetry. unfold is_digit. lia.
  - cbn [forallb] in Hd. apply andb_true_iff in Hd as [Hc Hd]. cbn [app span_digits].
    by rewrite Hc, IH.
Qed.

Lemma read_fraction_end rest : ends_value rest = true -> read_fraction rest = Ok (false, rest).
Proof.
  destruct rest as [|c r]; [done|]. cbn [ends_value read_fraction]. intros H.
  by replace (c =? 46) with false by lia.
Qed.

Lemma read_exponent_end rest : ends_value rest = true -> read_exponent rest = Ok (false, rest).
Proof.
  destruct rest as [|c r]; [done|]. cbn [ends_value read_exponent]. intros H.
  by replace ((c =? 101) || (c =? 69)) with false by lia.
Qed.

Lemma parse_number_dec z rest :
  Z.abs z <= MAX_SAFE_INTEGER -> ends_value rest = true ->
  parse_number (js_dec z ++ rest) = Ok (JNum z, rest).
Proof.
  intros Hz Hr. destruct (js_dec_decimal z) as (ds & (Hf & Hn & Hv & Hh) & ->).
  assert (Htl : forall neg : bool, parse_magnitude neg (ds ++ rest) =
                  Ok (JNum (if neg then - Z.abs z else Z.abs z), rest)).
  { intros neg. unfold parse_magnitude. rewrite span_digits_app by done.
    rewrite bool_decide_false by done.
    replace (bool_decide (head ds = Some 48) && (1 <? length ds)%nat) with false.
    - rewrite read_fraction_end by done. cbn [rbind]. rewrite read_exponent_end by done.
      cbn [rbind]. rewrite Hv. by replace (MAX_SAFE_INTEGER <? Z.abs z) with false by lia.
    - symmetry. case_bool_decide as E; [|done]. by rewrite Hh. }
  unfold parse_number. destruct (Z.ltb_spec z 0) as [Hneg|Hpos].
  - cbn [app]. rewrite Z.eqb_refl, (Htl true). do 3 f_equal. lia.
  - assert (Hc : exists c r, ds ++ rest = c :: r /\ c <> 45).
    { destruct ds as [|c ds]; [done|]. exists c, (ds ++ rest). split; [done|].
      cbn [forallb] in Hf. unfold is_digit in Hf. lia. }
    destruct Hc as (c & r & Ec & Hc). specialize (Htl false). rewrite Ec in *.
    rewrite (proj2 (Z.eqb_neq c 45)) by done. rewrite Htl. do 3 f_equal. lia.
Qed.

(** ** The round trip *)

(** Values [JSON.stringify] can be inverted on: numbers within the safe integers, strings
    of 16-bit units. *)
Fixpoint representable (v : Json) : bool :=
  match v with
  | JNull | JBool _ => true
  | JNum z => Z.abs z <=? MAX_SAFE_INTEGER
  | JStr s => forallb unit16 s
  | JArr l => forallb representable l
  | JObj m => forallb (fun kv => forallb unit16 kv.1 && representable kv.2) m
  end.

Definition obj_build {A} (acc m : list (jsstr * A)) : list (jsstr * A) :=
  foldl (fun acc kv => obj_set kv.1 kv.2 acc) acc m.

(** What reading a printed value gives: every object rebuilt property by property. *)
Fixpoint as_parsed (v : Json) : Json :=
  match v with
  | JArr l => JArr (map as_parsed l)
  | JObj m => JObj (obj_build [] (map (fun kv => (kv.1, as_parsed kv.2)) m))
  | v => v
  end.

Lemma skip_ws_head c r : json_space c = false -> skip_ws (c :: r) = c :: r.
Proof. intros H. cbn [skip_ws]. by rewrite H. Qed.

Lemma stringify_head v :
  exists c r, json_stringify v = c :: r /\ json_space c = false /\ c <> 93 /\ c <> 125.
Proof.
  destruct v as [|[]|z|s|l|m]; try (eexists _, _; split; [reflexivity|]; repeat split; discriminate).
  cbn [json_stringify]. destruct (js_dec_decimal z) as (ds & (Hf & Hn & _) & ->).
  destruct (z <? 0); [by eexists _, _|]. destruct ds as [|c ds]; [done|]. exists c, ds.
  cbn [forallb] in Hf. apply andb_true_iff in Hf as [Hc _]. unfold is_digit in Hc. unfold json_space.
  repeat split; lia.
Qed.

Lemma skip_ws_stringify v rest : skip_ws (json_stringify v ++ rest) = json_stringify v ++ rest.
Proof. destruct (stringify_head v) as (c & r & -> & Hc & _). by apply skip_ws_head. Qed.

Lemma join_cons sep (x y : jsstr) l : join sep (x :: y :: l) = x ++ sep ++ join sep (y :: l).
Proof. reflexivity. Qed.

Section roundtrip.
Let items (l : list Json) (rest : jsstr) : jsstr := join [44] (map json_stringify l) ++ 93 :: rest.
Let member (kv : jsstr * Json) : jsstr := quote kv.1 ++ 58 :: json_stringify kv.2.
Let members (m : list (jsstr * Json)) (rest : jsstr) : jsstr :=
  join [44] (map member m) ++ 125 :: rest.

(** [v] reads back in every context, given fuel. *)
Definition reads (v : Json) : Prop := forall n rest,
  representable v = true -> ends_value rest = true ->
  (2 * length (json_stringify v ++ rest) + 2 <= n)%nat ->
  parse_value n (json_stringify v ++ rest) = Ok (as_parsed v, rest).

Lemma items_one v rest : items [v] rest = json_stringify v ++ 93 :: rest.
Proof. reflexivity. Qed.

Lemma items_cons v w l rest :
  items (v :: w :: l) rest = json_stringify v ++ 44 :: items (w :: l) rest.
Proof.
  unfold items. change (map json_stringify (v :: w :: l))
    with (json_stringify v :: json_stringify w :: map json_stringify l).
  by rewrite join_cons, <- !app_assoc.
Qed.

Lemma members_one k v rest :
  members [(k, v)] rest = quote k ++ 58 :: json_stringify v ++ 125 :: rest.
Proof. unfold members, member. cbn [map join fst snd]. by rewrite <- !app_assoc. Qed.

Lemma members_cons k v kv m rest :
  members ((k, v) :: kv :: m) rest = quote k ++ 58 :: json_stringify v ++ 44 :: members (kv :: m) rest.
Proof.
  unfold members. change (map member ((k, v) :: kv :: m))
    with (member (k, v) :: member kv :: map member m).
  rewrite join_cons, <- !app_assoc. unfold member at 1. cbn [fst snd]. by rewrite <- app_assoc.
Qed.

Lemma reads_elements l :
  Forall reads l -> l <> [] -> forall n acc rest,
  forallb representable l = true -> (2 * length (items l rest) + 3 <= n)%nat ->
  parse_elements n acc (items l rest) = Ok (JArr (acc ++ map as_parsed l), rest).
Proof.
  induction 1 as [|v l Hv Hl IH]; [done|]. intros _ n acc rest Hr Hn.
  cbn [forallb] in Hr. apply andb_true_iff in Hr as [Hrv Hrl].
  destruct n as [|n]; [lia|]. destruct l as [|w l].
  - rewrite items_one in *. cbn [parse_elements]. rewrite Hv; [|done|done|lia]. reflexivity.
  - rewrite items_cons in *. cbn [parse_elements]. rewrite Hv; [|done|done|lia].
    cbn [rbind]. rewrite skip_ws_head by done. change (44 =? 44) with true. cbv iota.
    rewrite IH; [|done|done|].
    + by rewrite <- app_assoc.
    + rewrite length_app in Hn. cbn [length] in Hn. lia.
Qed.

(** One member, up to its separator. *)
Lemma reads_member k v c n acc rest :
  reads v -> forallb unit16 k = true -> representable v = true ->
  (c =? 44) || (c =? 125) = true ->
  (2 * length (quote k ++ 58%Z :: json_stringify v ++ c :: rest) + 3 <= S n)%nat ->
  parse_members (S n) acc (quote k ++ 58 :: json_stringify v ++ c :: rest) =
  if c =? 44 then parse_members n (obj_set k (as_parsed v) acc) rest
  else Ok (JObj (obj_set k (as_parsed v) acc), rest).
Proof.
  intros Hv Hk Hrv Hc Hn. cbn [parse_members]. unfold quote. cbn [app].
  rewrite skip_ws_head by done. change (negb (34 =? 34)) with false. cbv iota.
  rewrite <- app_assoc. cbn [app]. rewrite parse_quote_units by done.
  rewrite skip_ws_head by done. change (negb (58 =? 58)) with false. cbv iota.
  rewrite !length_app in Hn. cbn [length] in Hn. rewrite length_app in Hn. cbn [length] in Hn.
  rewrite Hv; [|done|cbn [ends_value]; lia|rewrite length_app; cbn [length]; lia].
  cbn [rbind]. rewrite skip_ws_head by (unfold json_space; lia).
  destruct (Z.eqb_spec c 44); [done|]. by replace (c =? 125) with true by lia.
Qed.

Lemma reads_members m :
  Forall (fun kv => reads kv.2) m -> m <> [] -> forall n acc rest,
  forallb (fun kv => forallb unit16 kv.1 && representable kv.2) m = true ->
  (2 * length (members m rest) + 3 <= n)%nat ->
  parse_members n acc (members m rest) =
  Ok (JObj (obj_build acc (map (fun kv => (kv.1, as_parsed kv.2)) m)), rest).
Proof.
  induction 1 as [|[k v] m Hv Hm IH]; [done|]. intros _ n acc rest Hr Hn.
  cbn [forallb fst snd] in Hr, Hv. apply andb_true_iff in Hr as [[Hk Hrv]%andb_true_iff Hrm].
  destruct n as [|n]; [lia|]. destruct m as [|kv m].
  - rewrite members_one in *. by rewrite reads_member.
  - rewrite members_cons in *. rewrite reads_member by done. change (44 =? 44) with true. cbv iota.
    rewrite IH; [reflexivity|done|done|].
    rewrite length_app in Hn. cbn [length] in Hn. rewrite length_app in Hn. cbn [length] in Hn. lia.
Qed.

Lemma stringify_array l rest : json_stringify (JArr l) ++ rest = 91 :: items l rest.
Proof. cbn [json_stringify app]. by rewrite <- app_assoc. Qed.

Lemma stringify_object m rest : json_stringify (JObj m) ++ rest = 123 :: members m rest.
Proof. cbn [json_stringify app]. by rewrite <- app_assoc. Qed.

Lemma items_head v l rest :
  exists c r, items (v :: l) rest = c :: r /\ json_space c = false /\ c <> 93.
Proof.
  destruct (stringify_head v) as (c & r & E & Hs & Hc & _).
  destruct l as [|w l]; [rewrite items_one|rewrite items_cons]; rewrite E;
    eexists _, _; (split; [reflexivity|done]).
Qed.

Lemma members_head kv m rest : exists r, members (kv :: m) rest = 34 :: r.
Proof.
  destruct kv as [k v].
  destruct m as [|kv m]; [rewrite members_one|rewrite members_cons]; by eexists.
Qed.

Lemma reads_all v : reads v.
Proof.
  induction v as [|[]|z|s|l Hl|m Hm] using json_tree_ind; intros n rest Hr Hend Hn;
    destruct n as [|n]; try lia.
  - cbn [parse_value]. rewrite skip_ws_stringify. reflexivity.
  - cbn [parse_value]. rewrite skip_ws_stringify. reflexivity.
  - cbn [parse_value]. rewrite skip_ws_stringify. reflexivity.
  - cbn [parse_value]. rewrite skip_ws_stringify. cbn [json_stringify representable as_parsed] in *.
    rewrite <- (parse_number_dec z rest) by (done || lia).
    destruct (js_dec_decimal z) as (ds & (Hf & Hnn & _) & ->).
    assert (Hc : exists c r, (if z <? 0 then 45 :: ds else ds) ++ rest = c :: r /\ 45 <= c <= 57).
    { destruct (z <? 0); [eexists _, _; split; [reflexivity|lia]|].
      destruct ds as [|c ds]; [done|]. exists c, (ds ++ rest). split; [done|].
      cbn [forallb] in Hf. apply andb_true_iff in Hf as [Hc _]. unfold is_digit in Hc. lia. }
    destruct Hc as (c & r & -> & Hc).
    by rewrite !(proj2 (Z.eqb_neq c _)) by lia.
  - cbn [parse_value]. rewrite skip_ws_stringify. cbn [json_stringify representable as_parsed] in *.
    unfold quote. cbn [app]. rewrite <- app_assoc. cbn [app Z.eqb Pos.eqb].
    by rewrite parse_quote_units.
  - cbn [parse_value]. rewrite skip_ws_stringify. cbn [representable as_parsed] in *.
    destruct l as [|v l]; [reflexivity|].
    rewrite stringify_array in *. destruct (items_head v l rest) as (c & r & E & Hs & Hc).
    cbn [app]. change (91 =? 123) with false. change (91 =? 91) with true. cbv iota.
    rewrite E, skip_ws_head by done. rewrite (proj2 (Z.eqb_neq c 93)) by done. rewrite <- E.
    rewrite reads_elements; [done..|]. cbn [length] in Hn. lia.
  - cbn [parse_value]. rewrite skip_ws_stringify. cbn [representable as_parsed] in *.
    destruct m as [|[k v] m]; [reflexivity|].
    rewrite stringify_object in *. destruct (members_head (k, v) m rest) as (r & E).
    cbn [app]. change (123 =? 123) with true. cbv iota.
    rewrite E, skip_ws_head by done. change (34 =? 125) with false. cbv iota. rewrite <- E.
    rewrite reads_members; [done..|]. cbn [length] in Hn. lia.
Qed.
End roundtrip.

Theorem json_roundtrip v :
  representable v = true -> json_parse (json_stringify v) = Ok (as_parsed v).
Proof.
  intros Hr. unfold json_parse. rewrite <- (app_nil_r (json_stringify v)) at 2.
  rewrite reads_all; [done|done|done|]. by rewrite app_nil_r.
Qed.

(** ** Termination

    [eats s m]: reading [s] with [m] does not run out of fuel, and a success leaves a
    strictly shorter text. *)
Definition eats (s : jsstr) (m : result json_error (Json * jsstr)) : Prop :=
  match m with
  | Ok (_, r) => (length r < length s)%nat
  | Throw e => e <> OutOfFuel
  end.

Lemma length_skip_ws s : (length (skip_ws s) <= length s)%nat.
Proof. induction s as [|c s IH]; [done|]. cbn [skip_ws]. destruct (json_space c); simpl; lia. Qed.

Lemma skip_ws_cons s c r : skip_ws s = c :: r -> (S (length r) <= length s)%nat.
Proof. intros E. pose proof (length_skip_ws s) as H. by rewrite E in H. Qed.

Lemma length_parse_chars s t r : parse_chars s = Some (t, r) -> (length r < length s)%nat.
Proof.
  remember (length s) as n eqn:Hn. revert s Hn t r.
  induction (lt_wf n) as [n _ IH]; intros [|u s] -> t r E; [done|].
  assert (Hs : forall s' t' r', (length s' <= length s)%nat -> parse_chars s' = Some (t', r') ->
                 (length r' < length (u :: s))%nat).
  { intros s' t' r' Hle E'. specialize (IH (length s') ltac:(simpl; lia) s' eq_refl t' r' E').
    simpl. lia. }
  cbn [parse_chars] in E. destruct (u =? 34); [simplify_eq; simpl; lia|].
  destruct (u =? 92).
  - destruct s as [|e s1]; [done|]. destruct (unescape e).
    + apply bind_Some in E as ([t' r'] & E & ?). simplify_eq. eapply Hs; [|exact E]. simpl. lia.
    + destruct (e =? 117); [|done]. destruct s1 as [|a [|b [|c [|d s2]]]]; try done.
      apply bind_Some in E as (x & _ & E). apply bind_Some in E as ([t' r'] & E & ?). simplify_eq.
      eapply Hs; [|exact E]. simpl. lia.
  - destruct (u <? 32); [done|]. apply bind_Some in E as ([t' r'] & E & ?). simplify_eq.
    by eapply Hs; [|exact E].
Qed.

Lemma length_span_digits s ds r : span_digits s = (ds, r) -> (length ds + length r = length s)%nat.
Proof.
  revert ds r. induction s as [|c s IH]; intros ds r E; cbn [span_digits] in E; [by simplify_eq|].
  destruct (is_digit c); [|by simplify_eq]. destruct (span_digits s) as [ds' r'].
  simplify_eq. simpl. by rewrite (IH ds' r).
Qed.

(** A reader that does not loop and does not lengthen the text. *)
Definition trims {A} (s : jsstr) (m : result json_error (A * jsstr)) : Prop :=
  match m with
  | Ok (_, r) => (length r <= length s)%nat
  | Throw e => e <> OutOfFuel
  end.

Lemma skip_digits_trims s :
  match skip_digits s with Ok r => (length r <= length s)%nat | Throw e => e <> OutOfFuel end.
Proof.
  unfold skip_digits. destruct (span_digits s) as [[|d ds] r] eqn:E; [done|].
  apply length_span_digits in E. lia.
Qed.

Lemma read_fraction_trims s : trims s (read_fraction s).
Proof.
  unfold read_fraction. destruct s as [|c r]; [simpl; lia|].
  destruct (c =? 46); [|simpl; lia].
  pose proof (skip_digits_trims r). destruct (skip_digits r); simpl in *; [lia|done].
Qed.

Lemma read_exponent_trims s : trims s (read_exponent s).
Proof.
  unfold read_exponent. destruct s as [|c r]; [simpl; lia|].
  destruct ((c =? 101) || (c =? 69)); [|simpl; lia].
  set (r' := match r with [] => [] | _ => _ end).
  assert (Hle : (length r' <= length r)%nat)
    by (subst r'; destruct r as [|d r]; [done|]; destruct ((d =? 43) || (d =? 45)); simpl; lia).
  pose proof (skip_digits_trims r'). destruct (skip_digits r'); simpl in *; [lia|done].
Qed.

Lemma parse_magnitude_eats neg s : eats s (parse_magnitude neg s).
Proof.
  unfold parse_magnitude. destruct (span_digits s) as [ds r] eqn:E. apply length_span_digits in E.
  case_bool_decide as Hd; [done|]. destruct (bool_decide (head ds = Some 48) && _); [done|].
  pose proof (read_fraction_trims r) as H1. destruct (read_fraction r) as [[f r1]|e1]; [|exact H1].
  cbn [rbind]. pose proof (read_exponent_trims r1) as H2.
  destruct (read_exponent r1) as [[e r2]|e2]; [|exact H2]. cbn [rbind].
  destruct (f || e || _); [done|]. simpl in *. destruct ds; [done|]. simpl in *. lia.
Qed.

Lemma parse_number_eats s : eats s (parse_number s).
Proof.
  unfold parse_number. destruct s as [|c r]; [apply parse_magnitude_eats|].
  destruct (c =? 45); [|apply parse_magnitude_eats].
  pose proof (parse_magnitude_eats true r) as H.
  destruct (parse_magnitude true r) as [[v r']|e]; simpl in *; [lia|done].
Qed.

Lemma literal_eats w v s : w <> [] -> eats s (literal w v s).
Proof.
  intros Hw. unfold literal. destruct (starts_with w s) eqn:E; [|done].
  apply starts_with_iff in E as [t ->]. simpl. rewrite drop_app_length, length_app.
  destruct w; [done|]. simpl. lia.
Qed.

Lemma parse_eats n :
  (forall s, (2 * length s + 2 <= n)%nat -> eats s (parse_value n s)) /\
  (forall s acc, (2 * length s + 3 <= n)%nat -> eats s (parse_elements n acc s)) /\
  (forall s acc, (2 * length s + 3 <= n)%nat -> eats s (parse_members n acc s)).
Proof.
  induction n as [|n (IHv & IHe & IHm)]; [repeat split; intros; lia|]. split; [|split].
  - intros s Hn. cbn [parse_value]. destruct (skip_ws s) as [|c r] eqn:E; [done|].
    apply skip_ws_cons in E.
    assert (Hw : forall s' m, (length s' <= length s)%nat -> eats s' m -> eats s m)
      by (intros s' [[v r']|e] Hle He; cbn [eats] in *; [lia|exact He]).
    destruct (c =? 123).
    { destruct (skip_ws r) as [|d r'] eqn:E'; [done|]. apply skip_ws_cons in E'.
      destruct (d =? 125); [simpl; lia|].
      apply (Hw (d :: r')); [simpl; lia|]. apply IHm. simpl. lia. }
    destruct (c =? 91).
    { destruct (skip_ws r) as [|d r'] eqn:E'; [done|]. apply skip_ws_cons in E'.
      destruct (d =? 93); [simpl; lia|].
      apply (Hw (d :: r')); [simpl; lia|]. apply IHe. simpl. lia. }
    destruct (c =? 34).
    { destruct (parse_chars r) as [[t r']|] eqn:E'; [|done]. apply length_parse_chars in E'. simpl. lia. }
    repeat (case_match; [by apply (Hw (c :: r)), literal_eats|]).
    apply (Hw (c :: r)); [done|apply parse_number_eats].
  - intros s acc Hn. cbn [parse_elements]. specialize (IHv s ltac:(lia)).
    destruct (parse_value n s) as [[v r]|e]; [|exact IHv]. cbn [rbind]. cbn [eats] in IHv.
    destruct (skip_ws r) as [|d r'] eqn:E; [done|]. apply skip_ws_cons in E.
    destruct (d =? 44); [|destruct (d =? 93); [simpl; lia|done]].
    specialize (IHe r' (acc ++ [v]) ltac:(lia)).
    destruct (parse_elements n (acc ++ [v]) r') as [[w r2]|e]; simpl in *; [lia|done].
  - intros s acc Hn. cbn [parse_members]. destruct (skip_ws s) as [|c r] eqn:E; [done|].
    apply skip_ws_cons in E. destruct (negb (c =? 34)); [done|].
    destruct (parse_chars r) as [[k r1]|] eqn:E1; [|done]. apply length_parse_chars in E1.
    destruct (skip_ws r1) as [|d r2] eqn:E2; [done|]. apply skip_ws_cons in E2.
    destruct (negb (d =? 58)); [done|]. specialize (IHv r2 ltac:(lia)).
    destruct (parse_value n r2) as [[v r3]|e]; [|exact IHv]. cbn [rbind]. cbn [eats] in IHv.
    destruct (skip_ws r3) as [|d' r4] eqn:E4; [done|]. apply skip_ws_cons in E4.
    destruct (d' =? 44); [|destruct (d' =? 125); [simpl; lia|done]].
    specialize (IHm r4 (obj_set k v acc) ltac:(lia)).
    destruct (parse_members n (obj_set k v acc) r4) as [[w r5]|e]; simpl in *; [lia|done].
Qed.

(** [JSON.parse] ends on every text: the fuel, two units per text unit and two more, is
    enough. *)
Theorem json_parse_terminates text : json_parse text <> Throw OutOfFuel.
Proof.
  unfold json_parse. pose proof (proj1 (parse_eats (2 * length text + 2)) text ltac:(lia)) as H.
  destruct (parse_value _ text) as [[v r]|e]; cbn [rbind eats] in *; [|by intros [= ->]].
  by case_bool_decide.
Qed.

(** ** Properties of a built object *)

Lemma assoc_obj_set {A} k k' (v : A) m :
  assoc k (obj_set k' v m) = if decide (k = k') then Some v else assoc k m.
Proof.
  induction m as [|[k1 v1] m IH]; cbn [obj_set assoc]; [done|].
  destruct (decide (k' = k1)) as [<- |Hk]; cbn [assoc]; [by destruct (decide (k = k'))|].
  destruct (own_before k' k1); cbn [assoc]; [done|]. rewrite IH.
  destruct (decide (k = k1)), (decide (k = k')); congruence.
Qed.

Lemma elem_of_keys_obj_set {A} k k' (v : A) m :
  k ∈ map fst (obj_set k' v m) <-> k = k' \/ k ∈ map fst m.
Proof.
  induction m as [|[k1 v1] m IH]; cbn [obj_set map fst]; [set_solver|].
  destruct (decide (k' = k1)) as [<- |Hk]; cbn [map fst]; [set_solver|].
  destruct (own_before k' k1); cbn [map fst]; [set_solver|]. rewrite !elem_of_cons, IH. naive_solver.
Qed.

(** Setting a property that is not an array index keeps the keys distinct. *)
Lemma NoDup_obj_set {A} k (v : A) m :
  array_index k = None -> NoDup (map fst m) -> NoDup (map fst (obj_set k v m)).
Proof.
  intros Hk. induction m as [|[k1 v1] m IH]; cbn [obj_set map fst]; intros Hn; [apply NoDup_singleton|].
  destruct (decide (k = k1)) as [<- |Hne]; [done|]. unfold own_before. rewrite Hk. cbn [map fst].
  apply NoDup_cons in Hn as [H1 H2]. apply NoDup_cons. rewrite elem_of_keys_obj_set. naive_solver.
Qed.

Lemma assoc_obj_build {A} k (m acc : list (jsstr * A)) : NoDup (map fst m) ->
  assoc k (obj_build acc m) = match assoc k m with Some v => Some v | None => assoc k acc end.
Proof.
  revert acc. induction m as [|[k1 v1] m IH]; intros acc Hn; [done|].
  change (obj_build acc ((k1, v1) :: m)) with (obj_build (obj_set k1 v1 acc) m).
  cbn [map fst] in Hn. apply NoDup_cons in Hn as [H1 H2]. rewrite IH by done. cbn [assoc].
  rewrite assoc_obj_set. destruct (decide (k = k1)) as [-> |Hk]; [|done].
  destruct (assoc k1 m) as [w|] eqn:E; [|done]. destruct H1.
  apply elem_of_assoc in E; [|done]. apply list_elem_of_fmap. by exists (k1, w).
Qed.

(** Setting a new property, and building an object of distinct ones, only decides where they are listed. *)
Lemma obj_set_fresh {A} k (v : A) m : k ∉ map fst m -> obj_set k v m ≡ₚ (k, v) :: m.
Proof.
  induction m as [|[k1 v1] m IH]; [done|]. cbn [map fst obj_set]. rewrite not_elem_of_cons. intros [Hne Hn].
  rewrite decide_False by done. destruct (own_before k k1); [done|]. rewrite IH by done. apply Permutation_swap.
Qed.

Lemma obj_build_entries {A} (m acc : list (jsstr * A)) : NoDup (map fst acc ++ map fst m) -> obj_build acc m ≡ₚ acc ++ m.
Proof.
  revert acc. induction m as [|[k v] m IH]; intros acc Hn; [by rewrite app_nil_r|].
  change (obj_build acc ((k, v) :: m)) with (obj_build (obj_set k v acc) m). cbn [map fst] in Hn.
  assert (Hk : k ∉ map fst acc).
  { intros Hin. apply NoDup_app in Hn as (_ & Hn & _). apply (Hn k Hin). by left. }
  rewrite IH; rewrite obj_set_fresh by done; cbn [map fst app]; [apply Permutation_middle|].
  by rewrite Permutation_middle.
Qed.

(** Without array indices the properties are listed as they were set. *)
Lemma obj_build_in_order {A} (m acc : list (jsstr * A)) :
  Forall (fun kv => array_index kv.1 = None) m -> NoDup (map fst acc ++ map fst m) -> obj_build acc m = acc ++ m.
Proof.
  intros Hm. revert acc. induction Hm as [|[k v] m Hk Hm IH]; intros acc Hn; [by rewrite app_nil_r|].
  change (obj_build acc ((k, v) :: m)) with (obj_build (obj_set k v acc) m). cbn [map fst] in *.
  assert (Hkn : k ∉ map fst acc).
  { intros Hin. apply NoDup_app in Hn as (_ & Hn & _). apply (Hn k Hin). by left. }
  assert (E : obj_set k v acc = acc ++ [(k, v)]).
  { clear -Hk Hkn. induction acc as [|[k1 v1] acc IH]; [done|]. cbn [map fst obj_set app] in *.
    rewrite not_elem_of_cons in Hkn. destruct Hkn as [Hne Hkn]. rewrite decide_False by done.
    unfold own_before. rewrite Hk. by rewrite IH. }
  rewrite E, IH; [by rewrite <- app_assoc|]. by rewrite map_app, <- app_assoc.
Qed.

Lemma assoc_map {A B} (f : A -> B) k m : assoc k (map (fun kv => (kv.1, f kv.2)) m) = f <$> assoc k m.
Proof.
  induction m as [|[k1 v1] m IH]; cbn [map assoc fst snd]; [done|]. by destruct (decide (k = k1)).
Qed.

(** A property of an object that was printed and read back. *)
Lemma get_as_parsed k m : NoDup (map fst m) -> get_prop (as_parsed (JObj m)) k = as_parsed <$> assoc k m.
Proof.
  intros Hn. cbn [as_parsed get_prop]. rewrite assoc_obj_build.
  - rewrite assoc_map. by destruct (assoc k m).
  - by rewrite map_map.
Qed.

(** The text of a value is well-formed UTF-16. *)
Lemma well_formed_quote s : forallb unit16 s = true -> well_formed (quote s) = true.
Proof.
  intros Hs. unfold quote. change (34 :: quote_units s ++ [34]) with ([34] ++ quote_units s ++ [34]).
  apply well_formed_app; [done|]. apply well_formed_app; [by apply well_formed_quote_units|done].
Qed.

Lemma well_formed_join sep l :
  well_formed sep = true -> Forall (fun s => well_formed s = true) l -> well_formed (join sep l) = true.
Proof.
  intros Hs. induction 1 as [|x l Hx Hl IH]; [done|]. destruct l; [done|]. rewrite join_cons.
  auto using well_formed_app.
Qed.

Lemma stringify_well_formed v : representable v = true -> well_formed (json_stringify v) = true.
Proof.
  induction v as [|[]|z|s|l Hl|m Hm] using json_tree_ind; intros Hr; try done.
  - apply ascii_well_formed, js_dec_ascii.
  - by apply well_formed_quote.
  - cbn [json_stringify representable] in *. change (91 :: ?x ++ [93]) with ([91] ++ x ++ [93]).
    repeat apply well_formed_app; [done| |done]. apply well_formed_join; [done|].
    rewrite forallb_forall in Hr. apply Forall_fmap, Forall_forall. intros v Hv.
    rewrite Forall_forall in Hl. apply Hl; [done|]. by apply Hr, list_elem_of_In.
  - cbn [json_stringify representable] in *. change (123 :: ?x ++ [125]) with ([123] ++ x ++ [125]).
    repeat apply well_formed_app; [done| |done]. apply well_formed_join; [done|].
    rewrite forallb_forall in Hr. apply Forall_fmap, Forall_forall. intros [k v] Hv.
    pose proof (Hr _ (proj1 (list_elem_of_In _ _) Hv)) as [Hk Hrv]%andb_true_iff.
    rewrite Forall_forall in Hm. specialize (Hm _ Hv Hrv). cbn [fst snd compose] in *.
    apply well_formed_app; [by apply well_formed_quote|].
    by apply (well_formed_app [58]).
Qed.
End JsonText.
