(* ===== verification/ReceiptsCbor.v ===== *)
(** * Canonical CBOR for receipts (src/wire/receipts-cbor.ts)

    The encoder sorts map entries by their encoded keys and writes every head in its
    shortest form; the decoder rejects whatever it can tell is not canonical.  The
    decoder's recursion and its loops take fuel, one unit per byte of input being
    enough. *)
From S2P Require Import Prelude.
From S2P Require Import JsString.
From S2P Require Import Sql.
From S2P Require Import JsInt.
From S2P Require Import JsonText.

Module ReceiptsCbor.

(** A JavaScript number, as far as the encoder looks at it. *)
Inductive js_number := NInt (z : Z) | NFraction | NNotFinite.

(** Map entries are in the order in which the object lists its keys, which is that of insertion, but array
    indices first and by number; a JavaScript object has no duplicate keys.  An entry
    under [__proto__] is no property: it is the prototype an assignment to that name gave the
    object. *)
Inductive value :=
  | VNumber (n : js_number)
  | VBigint (z : Z)
  | VBytes (b : bytes)
  | VText (s : jsstr)
  | VArray (l : list value)
  | VMap (m : list (jsstr * value)).

Inductive cbor_error :=
  | NegativeHead (v : Z)
  | ExceedsU64 (v : Z)
  | NonFinite
  | NonInteger
  | NegativeUint (v : Z)
  | DuplicateKey
  | UnexpectedEnd
  | ShortRead (need : Z)
  | NonCanonicalLength (width : Z)
  | ForbiddenInfo (info : Z)
  | NegativeForbidden
  | NonTextKey
  | KeyOrder
  | TagForbidden
  | SimpleForbidden
  | TrailingBytes
  | BadReceiver
  | OutOfFuel.

Definition PROTO : jsstr := js "__proto__".

(** [v instanceof Uint8Array], along the prototypes. *)
Fixpoint is_bytes (v : value) : bool :=
  match v with
  | VBytes _ => true
  | VMap m =>
      (fix proto (m : list (jsstr * value)) : bool :=
         match m with
         | [] => false
         | (k, p) :: m' => if decide (k = PROTO) then is_bytes p else proto m'
         end) m
  | _ => false
  end.

Definition is_object (v : value) : bool :=
  match v with VBytes _ | VArray _ | VMap _ => true | _ => false end.

Definition blen (b : bytes) : Z := Z.of_nat (length b).
Definition be_bytes (n : nat) (v : Z) : bytes := rev (le_bytes n v).

(** ** Encoder *)

Definition writeHead (major v : Z) : result cbor_error bytes :=
  if v <? 0 then Throw (NegativeHead v) else
  let tag := js_shl (js_and major 7) 5 in
  if v <? 24 then Ok [z2b (js_or tag v)]
  else if v <? 2 ^ 8 then Ok [z2b (js_or tag 24); z2b v]
  else if v <? 2 ^ 16 then Ok [z2b (js_or tag 25); z2b (js_and (js_shr v 8) 255); z2b (js_and v 255)]
  else if v <? 2 ^ 32 then
    Ok [z2b (js_or tag 26); z2b (js_and (js_ushr v 24) 255); z2b (js_and (js_ushr v 16) 255);
        z2b (js_and (js_ushr v 8) 255); z2b (js_and v 255)]
  else if v <? 2 ^ 64 then Ok (z2b (js_or tag 27) :: be_bytes 8 v)
  else Throw (ExceedsU64 v).

Definition encodeUint (v : js_number + Z) : result cbor_error bytes :=
  let? big := match v with
              | inl NNotFinite => Throw NonFinite
              | inl NFraction => Throw NonInteger
              | inl (NInt z) => Ok z
              | inr z => Ok z
              end in
  if big <? 0 then Throw (NegativeUint big) else writeHead 0 big.

Definition encodeBytes (v : bytes) : result cbor_error bytes :=
  let? head := writeHead 2 (blen v) in Ok (head ++ v).

Definition encodeText (v : jsstr) : result cbor_error bytes :=
  let bs := utf8_encode v in
  let? head := writeHead 3 (blen bs) in Ok (head ++ bs).

(** The sign of the result is what the callers use. *)
Fixpoint compareBytes (a b : bytes) : Z :=
  match a, b with
  | x :: a', y :: b' => if decide (x = y) then compareBytes a' b' else b2z x - b2z y
  | _, _ => blen a - blen b
  end.

Definition entry : Type := bytes * bytes.
Definition entry_le (a b : entry) : Prop := compareBytes a.1 b.1 <= 0.
#[global] Instance entry_le_dec a b : Decision (entry_le a b).
Proof. unfold entry_le. apply _. Defined.

(** Two neighbours with equal keys. *)
Fixpoint has_adjacent_dup (es : list entry) : bool :=
  match es with
  | a :: (b :: _) as es' => (compareBytes a.1 b.1 =? 0) || has_adjacent_dup es'
  | _ => false
  end.

(** [for (const x of l) out.push(f(x))]: the first throw wins. *)
Definition collect {A B} (f : A -> result cbor_error B) : list A -> result cbor_error (list B) :=
  fix go (l : list A) : result cbor_error (list B) :=
    match l with
    | [] => Ok []
    | x :: l' => let? y := f x in let? ys := go l' in Ok (y :: ys)
    end.

Definition finishMap (entries : list entry) : result cbor_error bytes :=
  let sorted := order_by entry_le entries in
  if has_adjacent_dup sorted then Throw DuplicateKey else
  let? head := writeHead 5 (Z.of_nat (length sorted)) in
  Ok (head ++ concat (map (fun e => e.1 ++ e.2) sorted)).

Fixpoint encodeValue (v : value) : result cbor_error bytes :=
  match v with
  | VNumber n => encodeUint (inl n)
  | VBigint z => encodeUint (inr z)
  | VBytes b => encodeBytes b
  | VText s => encodeText s
  | VArray l =>
      let? head := writeHead 4 (Z.of_nat (length l)) in
      let? parts := collect encodeValue l in
      Ok (head ++ concat parts)
  | VMap m =>
      if is_bytes (VMap m) then Throw BadReceiver
      else
        let? entries := collect (fun kv =>
          if decide (kv.1 = PROTO) then Ok None
          else let? k := encodeText kv.1 in let? v := encodeValue kv.2 in Ok (Some (k, v))) m in
        finishMap (omap id entries)
  end.

Definition canonicalCbor (v : value) : result cbor_error bytes := encodeValue v.

(** ** Decoder: the cursor is the rest of the input *)

Definition D (A : Type) : Type := bytes -> result cbor_error (A * bytes).

Definition readByte : D Z :=
  fun c => match c with [] => Throw UnexpectedEnd | b :: c' => Ok (b2z b, c') end.

Definition readBytes (n : Z) : D bytes :=
  fun c => if blen c <? n then Throw (ShortRead n)
           else Ok (take (Z.to_nat n) c, drop (Z.to_nat n) c).

Fixpoint readBigEndian (n : nat) (acc : Z) : D Z :=
  match n with
  | O => fun c => Ok (acc, c)
  | S n' => fun c => let? '(b, c') := readByte c in readBigEndian n' (acc * 256 + b) c'
  end.

Definition readArgument (initial : Z) : D Z :=
  fun c =>
    let info := js_and initial 31 in
    if info <? 24 then Ok (info, c)
    else if info =? 24 then
      let? '(v, c) := readByte c in
      if v <? 24 then Throw (NonCanonicalLength 1) else Ok (v, c)
    else if info =? 25 then
      let? '(hi, c) := readByte c in
      let? '(lo, c) := readByte c in
      let v := js_or (js_shl hi 8) lo in
      if v <? 256 then Throw (NonCanonicalLength 2) else Ok (v, c)
    else if info =? 26 then
      let? '(b3, c) := readByte c in
      let? '(b2, c) := readByte c in
      let? '(b1, c) := readByte c in
      let? '(b0, c) := readByte c in
      let v := js_or (js_or (js_or (js_ushr (js_shl b3 24) 0) (js_shl b2 16)) (js_shl b1 8)) b0 in
      if v <? 65536 then Throw (NonCanonicalLength 4) else Ok (v, c)
    else if info =? 27 then
      let? '(v, c) := readBigEndian 8 0 c in
      if v <? 2 ^ 32 then Throw (NonCanonicalLength 8) else Ok (v, c)
    else Throw (ForbiddenInfo info).

(** [out[key] = v] on an object literal: an existing key keeps its place, a new array index goes before
    larger ones and other keys, and an assignment to [__proto__] sets the prototype, when it is given
    an object. *)
Definition set_own (k : jsstr) (v : value) (m : list (jsstr * value)) : list (jsstr * value) :=
  if bool_decide (k = PROTO) && negb (is_object v) then m else JsonText.obj_set k v m.

Fixpoint decodeItems (fuel : nat) (body : D value) (n : Z) : D (list value) :=
  fun c =>
    if n <=? 0 then Ok ([], c) else
    match fuel with
    | O => Throw OutOfFuel
    | S fuel' =>
        let? '(v, c) := body c in
        let? '(vs, c) := decodeItems fuel' body (n - 1) c in
        Ok (v :: vs, c)
    end.

Fixpoint decodeEntries (fuel : nat) (body : D value) (n : Z) (prevKeyBytes : option bytes)
    (out : list (jsstr * value)) : D (list (jsstr * value)) :=
  fun c =>
    if n <=? 0 then Ok (out, c) else
    match fuel with
    | O => Throw OutOfFuel
    | S fuel' =>
        let? '(key, c1) := body c in
        match key with
        | VText k =>
            let keyBytes := take (length c - length c1) c in
            if match prevKeyBytes with Some p => 0 <=? compareBytes p keyBytes | None => false end
            then Throw KeyOrder
            else
              let? '(v, c2) := body c1 in
              decodeEntries fuel' body (n - 1) (Some keyBytes) (set_own k v out) c2
        | _ => Throw NonTextKey
        end
    end.

Fixpoint decodeValue (fuel : nat) : D value :=
  fun c =>
    match fuel with
    | O => Throw OutOfFuel
    | S fuel' =>
        let? '(initial, c) := readByte c in
        let major := js_shr initial 5 in
        if major =? 0 then
          let? '(arg, c) := readArgument initial c in
          Ok (if arg <? 2 ^ 53 then VNumber (NInt arg) else VBigint arg, c)
        else if major =? 1 then Throw NegativeForbidden
        else if major =? 2 then
          let? '(len, c) := readArgument initial c in
          let? '(b, c) := readBytes len c in
          Ok (VBytes b, c)
        else if major =? 3 then
          let? '(len, c) := readArgument initial c in
          let? '(b, c) := readBytes len c in
          Ok (VText (utf8_decode_lossy b), c)
        else if major =? 4 then
          let? '(n, c) := readArgument initial c in
          let? '(l, c) := decodeItems fuel' (decodeValue fuel') n c in
          Ok (VArray l, c)
        else if major =? 5 then
          let? '(n, c) := readArgument initial c in
          let? '(m, c) := decodeEntries fuel' (decodeValue fuel') n None [] c in
          Ok (VMap m, c)
        else if major =? 6 then Throw TagForbidden
        else Throw SimpleForbidden
    end.

Definition decodeCanonicalCbor (bs : bytes) : result cbor_error value :=
  let? '(v, c) := decodeValue (S (length bs)) bs in
  match c with [] => Ok v | _ => Throw TrailingBytes end.

(** ** Termination: fuel above the length of the input is enough *)

Definition shrinks {A} (m : D A) : Prop :=
  forall c a c', m c = Ok (a, c') -> (length c' < length c)%nat.
Definition keeps {A} (m : D A) : Prop :=
  forall c a c', m c = Ok (a, c') -> (length c' <= length c)%nat.
Definition fueled {A} (n : nat) (m : D A) : Prop :=
  forall c, (length c < n)%nat -> m c <> Throw OutOfFuel.

Lemma readByte_shrinks : shrinks readByte.
Proof. intros [|b c] a c'; simpl; [done|]. intros [= _ <-]. simpl. lia. Qed.

Lemma readBytes_keeps n : keeps (readBytes n).
Proof.
  intros c a c'. unfold readBytes. destruct (blen c <? n); [done|]. intros [= _ <-].
  rewrite length_drop. lia.
Qed.

#[local] Opaque js_or js_and js_shl js_shr js_ushr Z.pow.

(** Take a successful run apart. *)
Ltac run_ok :=
  repeat match goal with
  | H : rbind ?m _ = Ok _ |- _ =>
      let E := fresh "E" in destruct m as [[? ?]|] eqn:E; cbn [rbind] in H; [|discriminate H]
  | H : (if ?b then _ else _) = Ok _ |- _ => destruct b; try discriminate H
  | H : (match ?v with VNumber _ => _ | _ => _ end) = Ok _ |- _ => destruct v; try discriminate H
  | H : Ok _ = Ok _ |- _ => injection H as ? ?; subst
  | H : readByte _ = Ok _ |- _ => apply readByte_shrinks in H
  end.

Lemma readBigEndian_keeps n acc : keeps (readBigEndian n acc).
Proof.
  revert acc. induction n as [|n IH]; intros acc c a c' H; simpl in H; run_ok; [lia|].
  apply IH in H. lia.
Qed.

Lemma readArgument_keeps i : keeps (readArgument i).
Proof.
  intros c a c' H. unfold readArgument in H. cbv zeta in H. run_ok; try lia.
  match goal with E : readBigEndian _ _ _ = _ |- _ => apply readBigEndian_keeps in E; lia end.
Qed.

Lemma decodeItems_keeps fuel body n : shrinks body -> keeps (decodeItems fuel body n).
Proof.
  intros Hb. revert n. induction fuel as [|fuel IH]; intros n c a c' H; simpl in H; run_ok; try lia.
  match goal with E : body _ = _ |- _ => apply Hb in E end.
  match goal with E : decodeItems _ _ _ _ = _ |- _ => apply IH in E end. lia.
Qed.

Lemma decodeEntries_keeps fuel body n prev out :
  shrinks body -> keeps (decodeEntries fuel body n prev out).
Proof.
  intros Hb. revert n prev out.
  induction fuel as [|fuel IH]; intros n prev out c a c' H; simpl in H; run_ok; try lia;
  repeat match goal with E : body _ = _ |- _ => apply Hb in E end; apply IH in H; lia.
Qed.

Lemma decodeValue_shrinks fuel : shrinks (decodeValue fuel).
Proof.
  induction fuel as [|fuel IH]; intros c v c' H; [done|]. cbn [decodeValue] in H. cbv zeta in H.
  run_ok;
  repeat match goal with
  | E : readArgument _ _ = _ |- _ => apply readArgument_keeps in E
  | E : readBytes _ _ = _ |- _ => apply readBytes_keeps in E
  | E : decodeItems _ _ _ _ = _ |- _ => apply (decodeItems_keeps _ _ _ IH) in E
  | E : decodeEntries _ _ _ _ _ _ = _ |- _ => apply (decodeEntries_keeps _ _ _ _ _ IH) in E
  end; lia.
Qed.

Lemma readByte_fuel c : readByte c <> Throw OutOfFuel.
Proof. by destruct c. Qed.

Lemma readBigEndian_fuel n acc c : readBigEndian n acc c <> Throw OutOfFuel.
Proof.
  revert acc c. induction n as [|n IH]; intros acc c; [done|]. simpl. unfold rbind.
  pose proof (readByte_fuel c). destruct (readByte c) as [[? ?]|e]; [apply IH|congruence].
Qed.

(** Split the goal [m <> Throw OutOfFuel] along the code. *)
Ltac fuel_step :=
  match goal with
  | |- (if ?b then _ else _) <> _ => destruct b
  | |- Ok _ <> _ => discriminate
  | |- Throw _ <> Throw OutOfFuel => discriminate
  | |- rbind (readByte ?c) _ <> _ =>
      let E := fresh "E" in
      pose proof (readByte_fuel c); destruct (readByte c) as [[? ?]|] eqn:E; cbn [rbind];
      [apply readByte_shrinks in E|congruence]
  end.

Lemma readArgument_fuel i c : readArgument i c <> Throw OutOfFuel.
Proof.
  unfold readArgument. cbv zeta. repeat fuel_step.
  pose proof (readBigEndian_fuel 8 0 c). destruct (readBigEndian 8 0 c) as [[? ?]|]; cbn [rbind];
    [repeat fuel_step|congruence].
Qed.

Lemma decodeItems_fuel fuel n body bound c :
  shrinks body -> fueled bound body -> (length c < bound)%nat -> (length c < fuel)%nat ->
  decodeItems fuel body n c <> Throw OutOfFuel.
Proof.
  intros Hs Hb. revert n c. induction fuel as [|fuel IH]; intros n c Hc Hf; [lia|].
  cbn [decodeItems]. fuel_step; [fuel_step|].
  pose proof (Hb c Hc) as H. destruct (body c) as [[v c1]|] eqn:E; cbn [rbind]; [|congruence].
  apply Hs in E. specialize (IH (n - 1) c1 ltac:(lia) ltac:(lia)).
  destruct (decodeItems fuel body (n - 1) c1) as [[? ?]|]; cbn [rbind]; [discriminate|congruence].
Qed.

Lemma decodeEntries_fuel fuel n body bound prev out c :
  shrinks body -> fueled bound body -> (length c < bound)%nat -> (length c < fuel)%nat ->
  decodeEntries fuel body n prev out c <> Throw OutOfFuel.
Proof.
  intros Hs Hb. revert n prev out c. induction fuel as [|fuel IH]; intros n prev out c Hc Hf; [lia|].
  cbn [decodeEntries]. fuel_step; [fuel_step|].
  pose proof (Hb c Hc) as H. destruct (body c) as [[v c1]|] eqn:E; cbn [rbind]; [|congruence].
  apply Hs in E. destruct v; try discriminate. cbv zeta. fuel_step; [discriminate|].
  pose proof (Hb c1 ltac:(lia)) as H1. destruct (body c1) as [[v2 c2]|] eqn:E2; cbn [rbind]; [|congruence].
  apply Hs in E2. apply IH; lia.
Qed.

Lemma decodeValue_fuel n : fueled n (decodeValue n).
Proof.
  induction n as [|n IH]; intros c Hc; [lia|]. cbn [decodeValue]. cbv zeta. fuel_step.
  match goal with |- (if _ then rbind (readArgument ?i ?c0) _ else _) <> _ =>
    pose proof (readArgument_fuel i c0) as Ha;
    destruct (readArgument i c0) as [[arg c1]|] eqn:E1; cbn [rbind] end.
  2:{ repeat fuel_step; congruence. }
  apply readArgument_keeps in E1. repeat fuel_step.
  - unfold readBytes. destruct (blen c1 <? arg); discriminate.
  - unfold readBytes. destruct (blen c1 <? arg); discriminate.
  - pose proof (decodeItems_fuel n arg (decodeValue n) n c1 (decodeValue_shrinks n) IH
      ltac:(lia) ltac:(lia)). destruct (decodeItems _ _ _ _) as [[? ?]|]; cbn [rbind]; congruence.
  - pose proof (decodeEntries_fuel n arg (decodeValue n) n None [] c1 (decodeValue_shrinks n) IH
      ltac:(lia) ltac:(lia)). destruct (decodeEntries _ _ _ _ _ _) as [[? ?]|]; cbn [rbind]; congruence.
Qed.

(** ** A longer input *)

(** What a run reads does not depend on what comes behind; the fuel may be larger. *)
Definition extends {A} (m m' : D A) : Prop :=
  forall c a c' rest, m c = Ok (a, c') -> m' (c ++ rest) = Ok (a, c' ++ rest).

Lemma readByte_extends : extends readByte readByte.
Proof. intros [|b c] a c' rest; [done|]. by intros [= <- <-]. Qed.

Lemma readBytes_extends n : extends (readBytes n) (readBytes n).
Proof.
  intros c a c' rest. unfold readBytes, blen. destruct (Z.ltb_spec (Z.of_nat (length c)) n) as [|Hn]; [done|]. intros [= <- <-].
  rewrite length_app, (proj2 (Z.ltb_ge _ _)) by lia. by rewrite take_app_le, drop_app_le by lia.
Qed.

(** Follow a successful run, and the same run on the longer input. *)
Ltac follow rest ext :=
  repeat match goal with
  | H : rbind ?m _ = Ok _ |- _ =>
      let E := fresh "E" in destruct m as [[? ?]|] eqn:E; cbn [rbind] in H; [|discriminate H];
      first [rewrite (readByte_extends _ _ _ rest E)|rewrite (readBytes_extends _ _ _ _ rest E)|ext E|idtac]; cbn [rbind]
  | H : (if ?b then _ else _) = Ok _ |- _ => destruct b; try discriminate H
  | H : Ok _ = Ok _ |- _ => injection H as ? ?; subst; reflexivity
  end.

Lemma readBigEndian_extends n acc : extends (readBigEndian n acc) (readBigEndian n acc).
Proof.
  revert acc. induction n as [|n IH]; intros acc c a c' rest H; cbn [readBigEndian] in *; follow rest ltac:(fun _ => fail). by apply IH.
Qed.

Lemma readArgument_extends i : extends (readArgument i) (readArgument i).
Proof.
  intros c a c' rest H. unfold readArgument in *. cbv zeta in *.
  follow rest ltac:(fun E => rewrite (readBigEndian_extends _ _ _ _ _ rest E)).
Qed.

Lemma decodeItems_extends fuel fuel' body body' n : (fuel <= fuel')%nat -> extends body body' ->
  extends (decodeItems fuel body n) (decodeItems fuel' body' n).
Proof.
  intros Hf Hb. revert fuel' n Hf. induction fuel as [|fuel IH]; intros fuel' n Hf c a c' rest H; cbn [decodeItems] in H.
  - destruct (n <=? 0) eqn:En; [|done]. injection H as <- <-. destruct fuel'; cbn [decodeItems]; by rewrite En.
  - destruct fuel' as [|fuel']; [lia|]. cbn [decodeItems]. destruct (n <=? 0); [by injection H as <- <-|].
    destruct (body c) as [[v c1]|] eqn:E; cbn [rbind] in H; [|done]. rewrite (Hb _ _ _ rest E). cbn [rbind].
    destruct (decodeItems fuel body (n - 1) c1) as [[vs c2]|] eqn:E2; cbn [rbind] in H; [|done].
    rewrite (IH fuel' (n - 1) ltac:(lia) _ _ _ rest E2). cbn [rbind]. by injection H as <- <-.
Qed.

Lemma decodeEntries_extends fuel fuel' body body' n prev out : (fuel <= fuel')%nat -> shrinks body -> extends body body' ->
  extends (decodeEntries fuel body n prev out) (decodeEntries fuel' body' n prev out).
Proof.
  intros Hf Hs Hb. revert fuel' n prev out Hf. induction fuel as [|fuel IH]; intros fuel' n prev out Hf c a c' rest H; cbn [decodeEntries] in H.
  - destruct (n <=? 0) eqn:En; [|done]. injection H as <- <-. destruct fuel'; cbn [decodeEntries]; by rewrite En.
  - destruct fuel' as [|fuel']; [lia|]. cbn [decodeEntries]. destruct (n <=? 0); [by injection H as <- <-|].
    destruct (body c) as [[key c1]|] eqn:E; cbn [rbind] in H; [|done]. rewrite (Hb _ _ _ rest E). cbn [rbind].
    destruct key as [| | |k| |]; try done. cbv zeta in *. apply Hs in E.
    replace (take (length (c ++ rest) - length (c1 ++ rest)) (c ++ rest)) with (take (length c - length c1) c)
      by (rewrite !length_app, take_app_le by lia; f_equal; lia).
    destruct (match prev with Some _ => _ | None => _ end); [done|].
    destruct (body c1) as [[v c2]|] eqn:E2; cbn [rbind] in H; [|done]. rewrite (Hb _ _ _ rest E2). cbn [rbind].
    apply (IH fuel'); [lia|done].
Qed.

Lemma decodeValue_extends fuel fuel' : (fuel <= fuel')%nat -> extends (decodeValue fuel) (decodeValue fuel').
Proof.
  revert fuel'. induction fuel as [|fuel IH]; intros fuel' Hf c a c' rest H; [done|]. destruct fuel' as [|fuel']; [lia|].
  cbn [decodeValue] in *. cbv zeta in *. destruct (readByte c) as [[i c1]|] eqn:E; cbn [rbind] in H; [|done].
  rewrite (readByte_extends _ _ _ rest E). cbn [rbind].
  repeat match goal with H : (if ?b then _ else _) = Ok _ |- _ => destruct b end; try done.
  all: destruct (readArgument i c1) as [[n c2]|] eqn:E1; cbn [rbind] in H; [|done];
    rewrite (readArgument_extends _ _ _ _ rest E1); cbn [rbind].
  - by injection H as <- <-.
  - destruct (readBytes n c2) as [[b c3]|] eqn:E2; cbn [rbind] in H; [|done]. rewrite (readBytes_extends _ _ _ _ rest E2).
    by injection H as <- <-.
  - destruct (readBytes n c2) as [[b c3]|] eqn:E2; cbn [rbind] in H; [|done]. rewrite (readBytes_extends _ _ _ _ rest E2).
    by injection H as <- <-.
  - destruct (decodeItems _ _ _ _) as [[l c3]|] eqn:E2; cbn [rbind] in H; [|done].
    rewrite (decodeItems_extends fuel fuel' _ _ _ ltac:(lia) (IH fuel' ltac:(lia)) _ _ _ rest E2). by injection H as <- <-.
  - destruct (decodeEntries _ _ _ _ _ _) as [[m c3]|] eqn:E2; cbn [rbind] in H; [|done].
    rewrite (decodeEntries_extends fuel fuel' _ _ _ _ _ ltac:(lia) (decodeValue_shrinks fuel) (IH fuel' ltac:(lia)) _ _ _ rest E2).
    by injection H as <- <-.
Qed.

(** C39: The decoder terminates on every input, and takes all of it.  Fuel of one unit per byte and one
    more is never exhausted, so that, on an engine with stack enough for the nesting of the input, the
    decoder returns a value or throws one of its own errors.  A value is only returned when no byte is
    left: an input that is accepted is refused, for its trailing bytes, with anything behind it, so that
    no accepted input is a proper prefix of another. *)
Theorem decode_terminates bs :
  decodeCanonicalCbor bs <> Throw OutOfFuel /\
  forall v rest, decodeCanonicalCbor bs = Ok v -> rest <> [] -> decodeCanonicalCbor (bs ++ rest) = Throw TrailingBytes.
Proof.
  unfold decodeCanonicalCbor. split.
  - pose proof (decodeValue_fuel (S (length bs)) bs ltac:(lia)).
    destruct (decodeValue _ bs) as [[v c]|]; cbn [rbind]; [by destruct c|congruence].
  - intros v rest H Hr. destruct (decodeValue _ bs) as [[v0 c]|] eqn:E; cbn [rbind] in H; [|done]. destruct c as [|b c]; [|done].
    assert (E' := decodeValue_extends (S (length bs)) (S (length (bs ++ rest))) ltac:(rewrite length_app; lia) _ _ _ rest E).
    rewrite E'. cbn [rbind app]. by destruct rest.
Qed.

Lemma decode_terminates_witness : decodeCanonicalCbor ([z2b 1] ++ [z2b 0]) = Throw TrailingBytes.
Proof. apply (proj2 (decode_terminates [z2b 1]) (VNumber (NInt 1))); [vm_compute; reflexivity|discriminate]. Defined.

#[local] Transparent Z.pow.

(** ** Heads *)

(** The arguments that survive: all but the 32-bit ones with the top bit set. *)
Definition arg_ok (v : Z) : Prop := 0 <= v < 2 ^ 31 \/ 2 ^ 32 <= v < 2 ^ 64.

Lemma tag_or major w :
  0 <= major < 8 -> 0 <= w < 32 -> js_or (js_shl (js_and major 7) 5) w = major * 32 + w.
Proof.
  intros Hm Hw. change 7 with (2 ^ 3 - 1). rewrite js_and_mask by lia.
  rewrite Z.mod_small by lia. Transparent js_or js_shl. unfold js_or, js_shl.
  rewrite (i32_small (Z.shiftl major 5)) by (rewrite Z.shiftl_mul_pow2; lia).
  rewrite lor_add_field by lia. rewrite i32_small; lia.
Qed.
#[local] Opaque js_or js_shl.

(** The first byte gives back the major type and the additional information. *)
Lemma initial_fields major w :
  0 <= major < 8 -> 0 <= w < 32 ->
  b2z (z2b (major * 32 + w)) = major * 32 + w /\
  js_shr (major * 32 + w) 5 = major /\ js_and (major * 32 + w) 31 = w.
Proof.
  intros Hm Hw. split; [apply b2z_z2b_small; lia|]. split.
  - rewrite js_shr_div by lia. change (2 ^ 5) with 32. rewrite Z.div_add_l, Z.div_small; lia.
  - change 31 with (2 ^ 5 - 1). rewrite js_and_mask by lia. change (2 ^ 5) with 32.
    rewrite Z.add_comm, Z.mod_add, Z.mod_small; lia.
Qed.

Lemma readBigEndian_fold l acc rest :
  readBigEndian (length l) acc (l ++ rest) = Ok (foldl (fun a b => a * 256 + b2z b) acc l, rest).
Proof. revert acc. induction l as [|b l IH]; intros acc; [done|]. simpl. apply IH. Qed.

Lemma foldl_be l acc :
  foldl (fun a b => a * 256 + b2z b) acc (rev l) = acc * 256 ^ Z.of_nat (length l) + le_val l.
Proof.
  revert acc. induction l as [|b l IH]; intros acc; [change (acc = acc * 1 + 0); lia|].
  cbn [rev]. rewrite foldl_app, IH. cbn [foldl]. rewrite le_val_cons. cbn [length].
  rewrite Nat2Z.inj_succ, Z.pow_succ_r by lia. lia.
Qed.

Lemma byte_of_and x k : 0 <= k -> 0 <= x < 2 ^ 32 ->
  b2z (z2b (js_and (js_ushr x k) 255)) = x / 2 ^ k mod 256.
Proof.
  intros Hk Hx. change 255 with (2 ^ 8 - 1). rewrite js_and_mask, js_ushr_div by lia.
  apply b2z_z2b_small, Z.mod_pos_bound. lia.
Qed.

Lemma byte_of_low x : b2z (z2b (js_and x 255)) = x mod 256.
Proof.
  change 255 with (2 ^ 8 - 1). rewrite js_and_mask by lia.
  apply b2z_z2b_small, Z.mod_pos_bound. lia.
Qed.

Lemma split4 v :
  0 <= v < 2 ^ 32 ->
  v / 2 ^ 24 mod 256 * 2 ^ 24 + v / 2 ^ 16 mod 256 * 2 ^ 16 + v / 2 ^ 8 mod 256 * 2 ^ 8 + v mod 256 = v.
Proof.
  intros Hv. change (2 ^ 24) with (256 * 256 * 256). change (2 ^ 16) with (256 * 256).
  change (2 ^ 8) with 256. change (2 ^ 32) with 4294967296 in Hv. Z.div_mod_to_equations. lia.
Qed.

(** What [readArgument] makes of the bytes [writeHead] wrote. *)
Definition reads_back (major v : Z) (r : result cbor_error Z) : Prop :=
  exists i t, writeHead major v = Ok (i :: t) /\ js_shr (b2z i) 5 = major /\
    forall rest, readArgument (b2z i) (t ++ rest) =
                 match r with Ok x => Ok (x, rest) | Throw e => Throw e end.

Lemma head_reads_back major v :
  0 <= major < 8 -> 0 <= v < 2 ^ 64 ->
  reads_back major v (if (2 ^ 31 <=? v) && (v <? 2 ^ 32) then Throw (NonCanonicalLength 4) else Ok v).
Proof.
  intros Hm Hv. unfold reads_back, writeHead. rewrite (proj2 (Z.ltb_ge _ _)) by lia. cbv zeta.
  destruct (Z.ltb_spec v 24).
  { rewrite tag_or by lia. destruct (initial_fields major v Hm ltac:(lia)) as (E1 & E2 & E3).
    do 2 eexists. split; [reflexivity|]. rewrite E1. split; [done|]. intros rest.
    unfold readArgument. rewrite E3. cbv zeta. rewrite (proj2 (Z.ltb_lt _ _)) by lia.
    rewrite (proj2 (Z.leb_gt (2 ^ 31) v)) by lia. done. }
  destruct (Z.ltb_spec v (2 ^ 8)).
  { rewrite tag_or by lia. destruct (initial_fields major 24 Hm ltac:(lia)) as (E1 & E2 & E3).
    do 2 eexists. split; [reflexivity|]. rewrite E1. split; [done|]. intros rest.
    unfold readArgument. rewrite E3. cbn -[b2z z2b]. rewrite b2z_z2b_small by lia.
    rewrite (proj2 (Z.ltb_ge v 24)) by lia. rewrite (proj2 (Z.leb_gt (2 ^ 31) v)) by lia. done. }
  destruct (Z.ltb_spec v (2 ^ 16)).
  { rewrite tag_or by lia. destruct (initial_fields major 25 Hm ltac:(lia)) as (E1 & E2 & E3).
    do 2 eexists. split; [reflexivity|]. rewrite E1. split; [done|]. intros rest.
    unfold readArgument. rewrite E3. cbn -[b2z z2b js_or js_shl js_and js_shr].
    rewrite !byte_of_low, js_shr_div by lia.
    assert (E : js_or (js_shl (v / 2 ^ 8 mod 256) 8) (v mod 256) = v).
    { Transparent js_or js_shl. unfold js_or, js_shl. pose proof (Z.mod_pos_bound v 256 ltac:(lia)).
      rewrite (Z.mod_small (v / 2 ^ 8)) by (split; [apply Z.div_pos; lia|apply Z.div_lt_upper_bound; lia]).
      rewrite (i32_small (Z.shiftl _ _)) by (rewrite Z.shiftl_mul_pow2 by lia; Z.div_mod_to_equations; lia).
      rewrite lor_add_field by lia. change (2 ^ 8) with 256.
      pose proof (Z.div_mod v 256 ltac:(lia)). rewrite i32_small; lia. }
    rewrite E. rewrite (proj2 (Z.ltb_ge v 256)) by lia.
    rewrite (proj2 (Z.leb_gt (2 ^ 31) v)) by lia. done. }
  destruct (Z.ltb_spec v (2 ^ 32)).
  { rewrite tag_or by lia. destruct (initial_fields major 26 Hm ltac:(lia)) as (E1 & E2 & E3).
    do 2 eexists. split; [reflexivity|]. rewrite E1. split; [done|]. intros rest.
    unfold readArgument. rewrite E3. cbn -[b2z z2b js_or js_shl js_and js_shr js_ushr Z.pow].
    rewrite join4 by apply b2z_range. rewrite !byte_of_and by lia. rewrite byte_of_low.
    rewrite split4 by lia.
    destruct (Z.leb_spec (2 ^ 31) v).
    - assert (E : i32 v = v - 2 ^ 32).
      { unfold i32. rewrite u32_small by lia. by rewrite (proj2 (Z.ltb_ge v (2 ^ 31))). }
      rewrite E, (proj2 (Z.ltb_lt _ 65536)) by lia. done.
    - rewrite i32_small by lia. rewrite (proj2 (Z.ltb_ge v 65536)) by lia. done. }
  rewrite (proj2 (Z.ltb_lt v (2 ^ 64))) by lia. rewrite tag_or by lia.
  destruct (initial_fields major 27 Hm ltac:(lia)) as (E1 & E2 & E3).
  do 2 eexists. split; [reflexivity|]. rewrite E1. split; [done|]. intros rest.
  unfold readArgument. rewrite E3. cbn -[b2z z2b be_bytes readBigEndian Z.pow].
  unfold be_bytes. pose proof (readBigEndian_fold (rev (le_bytes 8 v)) 0 rest) as Hr.
  rewrite length_rev, length_le_bytes in Hr. rewrite Hr, foldl_be, le_val_bytes. cbn [rbind].
  rewrite Z.mul_0_l, Z.add_0_l, Z.mod_small by lia.
  rewrite (proj2 (Z.ltb_ge v (2 ^ 32))) by lia. rewrite andb_false_r. done.
Qed.

(** ** The order of encoded keys *)

Lemma compareBytes_lex a b :
  (compareBytes a b ?= 0) = lex_compare (map b2z a) (map b2z b).
Proof.
  revert b. induction a as [|x a IH]; intros [|y b]; simpl; try done.
  case_decide as E.
  - subst. by rewrite Z.compare_refl, IH.
  - rewrite <- Z.compare_sub. destruct (Z.compare_spec (b2z x) (b2z y)) as [Hxy|Hxy|Hxy]; try done.
    by apply (inj b2z) in Hxy.
Qed.

Lemma compareBytes_le a b : compareBytes a b <= 0 <-> lex_le (map b2z a) (map b2z b).
Proof. unfold lex_le. rewrite <- compareBytes_lex. reflexivity. Qed.

Lemma compareBytes_eq a b : compareBytes a b = 0 <-> a = b.
Proof.
  rewrite <- Z.compare_eq_iff, compareBytes_lex, lex_compare_eq. split; [|by intros ->].
  by intros ?%(inj (map b2z)).
Qed.

#[global] Instance entry_le_trans : Transitive entry_le.
Proof. intros a b c. unfold entry_le. rewrite !compareBytes_le. apply lex_le_trans. Qed.
#[global] Instance entry_le_total : Total entry_le.
Proof. intros a b. unfold entry_le. rewrite !compareBytes_le. apply lex_le_total. Qed.

(** ** Values that survive *)

Definition unwrap (r : result cbor_error bytes) : bytes :=
  match r with Ok b => b | Throw _ => [] end.
Definition etext (k : jsstr) : bytes := unwrap (encodeText k).
Definition enc (v : value) : bytes := unwrap (encodeValue v).

Definition key_le (a b : jsstr * value) : Prop := compareBytes (etext a.1) (etext b.1) <= 0.
#[global] Instance key_le_dec a b : Decision (key_le a b).
Proof. unfold key_le. apply _. Defined.
#[global] Instance key_le_trans : Transitive key_le.
Proof. intros a b c. unfold key_le. rewrite !compareBytes_le. apply lex_le_trans. Qed.
#[global] Instance key_le_total : Total key_le.
Proof. intros a b. unfold key_le. rewrite !compareBytes_le. apply lex_le_total. Qed.

Definition text_ok (s : jsstr) : Prop :=
  well_formed s = true /\ has_bom s = false /\ blen (utf8_encode s) < 2 ^ 31.

Fixpoint ok (v : value) : Prop :=
  match v with
  | VNumber (NInt z) => arg_ok z
  | VNumber _ => False
  | VBigint z => arg_ok z
  | VBytes b => blen b < 2 ^ 31
  | VText s => text_ok s
  | VArray l => Z.of_nat (length l) < 2 ^ 31 /\
                (fix go l := match l with [] => True | x :: l' => ok x /\ go l' end) l
  | VMap m => Z.of_nat (length m) < 2 ^ 31 /\ NoDup (map fst m) /\
              (fix go m := match m with
                           | [] => True
                           | kv :: m' => (text_ok kv.1 /\ kv.1 <> PROTO /\ ok kv.2) /\ go m'
                           end) m
  end.

(** The form in which a value comes back: an integer as a number below 2^53 and as a bigint from there,
    whichever it was, and an object built from its entries in the order of their encoded keys. *)
Definition norm_int (z : Z) : value := if z <? 2 ^ 53 then VNumber (NInt z) else VBigint z.
Fixpoint norm (v : value) : value :=
  match v with
  | VNumber (NInt z) => norm_int z
  | VBigint z => norm_int z
  | VArray l => VArray (map norm l)
  | VMap m => VMap (JsonText.obj_build [] (order_by key_le (map (fun kv => (kv.1, norm kv.2)) m)))
  | _ => v
  end.

Lemma ok_array l : ok (VArray l) <-> Z.of_nat (length l) < 2 ^ 31 /\ Forall ok l.
Proof.
  simpl. apply and_iff_compat_l. induction l as [|x l IH]; [done|].
  rewrite Forall_cons, <- IH. done.
Qed.

Definition entry_ok (kv : jsstr * value) : Prop := text_ok kv.1 /\ kv.1 <> PROTO /\ ok kv.2.
Lemma ok_map m :
  ok (VMap m) <-> Z.of_nat (length m) < 2 ^ 31 /\ NoDup (map fst m) /\ Forall entry_ok m.
Proof.
  simpl. do 2 apply and_iff_compat_l. induction m as [|x m IH]; [done|].
  rewrite Forall_cons, <- IH. done.
Qed.

Lemma value_ind' (P : value -> Prop) :
  (forall n, P (VNumber n)) -> (forall z, P (VBigint z)) -> (forall b, P (VBytes b)) ->
  (forall s, P (VText s)) -> (forall l, Forall P l -> P (VArray l)) ->
  (forall m, Forall (fun kv => P kv.2) m -> P (VMap m)) -> forall v, P v.
Proof.
  intros H1 H2 H3 H4 H5 H6. fix IH 1. intros [n|z|b|s|l|m]; [auto..| |].
  - apply H5. induction l as [|x l IHl]; constructor; [apply IH|exact IHl].
  - apply H6. induction m as [|x m IHm]; constructor; [apply IH|exact IHm].
Qed.

(** ** The round trip *)

(** [e] encodes [v], is not empty, and decodes to the normal form. *)
Definition decodes (e : bytes) (v : value) : Prop :=
  (1 <= length e)%nat /\
  forall fuel rest, (length e <= fuel)%nat -> decodeValue fuel (e ++ rest) = Ok (norm v, rest).

Lemma decode_head major v i t fuel rest :
  js_shr (b2z i) 5 = major -> 
  (forall rest, readArgument (b2z i) (t ++ rest) = Ok (v, rest)) ->
  decodeValue (S fuel) ((i :: t) ++ rest) =
  (if major =? 0 then Ok (norm_int v, rest)
   else if major =? 1 then Throw NegativeForbidden
   else if major =? 2 then let? '(b, c) := readBytes v rest in Ok (VBytes b, c)
   else if major =? 3 then let? '(b, c) := readBytes v rest in Ok (VText (utf8_decode_lossy b), c)
   else if major =? 4 then let? '(l, c) := decodeItems fuel (decodeValue fuel) v rest in Ok (VArray l, c)
   else if major =? 5 then
     let? '(m, c) := decodeEntries fuel (decodeValue fuel) v None [] rest in Ok (VMap m, c)
   else if major =? 6 then Throw TagForbidden else Throw SimpleForbidden).
Proof.
  intros Hm Ha. cbn [decodeValue app readByte rbind]. cbv zeta. rewrite Hm, Ha. reflexivity.
Qed.

Lemma arg_ok_head major v :
  0 <= major < 8 -> arg_ok v ->
  exists i t, writeHead major v = Ok (i :: t) /\ js_shr (b2z i) 5 = major /\
    forall rest, readArgument (b2z i) (t ++ rest) = Ok (v, rest).
Proof.
  intros Hm Hv. destruct (head_reads_back major v Hm ltac:(unfold arg_ok in Hv; lia)) as (i & t & E & E1 & E2).
  exists i, t. split; [done|]. split; [done|]. intros rest. rewrite E2.
  replace ((2 ^ 31 <=? v) && (v <? 2 ^ 32)) with false; [done|].
  symmetry. apply andb_false_iff. unfold arg_ok in Hv. rewrite Z.leb_gt, Z.ltb_ge. lia.
Qed.

Lemma readBytes_app b rest : readBytes (blen b) (b ++ rest) = Ok (b, rest).
Proof.
  unfold readBytes, blen. rewrite length_app, (proj2 (Z.ltb_ge _ _)) by lia.
  by rewrite Nat2Z.id, take_app_length, drop_app_length.
Qed.

Lemma text_decodes s : text_ok s -> encodeText s = Ok (etext s) /\ decodes (etext s) (VText s).
Proof.
  intros (Hw & Hb & Hl).
  destruct (arg_ok_head 3 (blen (utf8_encode s)) ltac:(lia) ltac:(left; unfold blen in *; lia))
    as (i & t & E & E1 & E2).
  unfold etext, encodeText. rewrite E. cbn [rbind unwrap]. split; [done|].
  split; [simpl; lia|]. intros [|fuel] rest Hf; [simpl in Hf; lia|].
  rewrite <- app_assoc, (decode_head 3 (blen (utf8_encode s)) i t) by done.
  change (3 =? 0) with false. change (3 =? 1) with false. change (3 =? 2) with false.
  change (3 =? 3) with true. cbv iota. rewrite readBytes_app. cbn [rbind].
  by rewrite utf8_lossy_encode.
Qed.

Lemma etext_inj k k' : text_ok k -> text_ok k' -> etext k = etext k' -> k = k'.
Proof.
  intros [_ [_ H]]%text_decodes [_ [_ H']]%text_decodes E.
  specialize (H (length (etext k)) [] ltac:(lia)). specialize (H' (length (etext k')) [] ltac:(lia)).
  rewrite E in H. rewrite H in H'. by injection H'.
Qed.

Lemma collect_ok {A B} (f : A -> result cbor_error B) (g : A -> B) l :
  Forall (fun x => f x = Ok (g x)) l -> collect f l = Ok (map g l).
Proof.
  induction 1 as [|x l Hx _ IH]; [done|]. cbn [collect]. rewrite Hx. cbn [rbind].
  change ((fix go (l : list A) : result cbor_error (list B) := match l with
    | [] => Ok [] | x :: l' => let? y := f x in let? ys := go l' in Ok (y :: ys) end) l)
    with (collect f l). by rewrite IH.
Qed.

Lemma decodeItems_ok F l fuel rest :
  Forall (fun v => decodes (enc v) v /\ (length (enc v) <= F)%nat) l -> (length l <= fuel)%nat ->
  decodeItems fuel (decodeValue F) (Z.of_nat (length l)) (concat (map enc l) ++ rest) =
  Ok (map norm l, rest).
Proof.
  intros Hl. revert fuel. induction Hl as [|v l [[_ Hd] Hv] _ IH]; intros fuel Hf; [by destruct fuel|].
  destruct fuel as [|fuel]; [simpl in Hf; lia|]. cbn [decodeItems map concat length].
  rewrite (proj2 (Z.leb_gt _ 0)) by lia. rewrite <- app_assoc, Hd by done. cbn [rbind].
  replace (Z.of_nat (S (length l)) - 1) with (Z.of_nat (length l)) by lia.
  rewrite IH by (simpl in Hf; lia). done.
Qed.

(** The entries from one key on: below the previous key, in strict order. *)
Definition below (prev : option bytes) (kv : jsstr * value) : Prop :=
  match prev with Some p => compareBytes p (etext kv.1) < 0 | None => True end.

Lemma decodeEntries_ok F m fuel prev out rest :
  Forall (fun kv => entry_ok kv /\ decodes (enc kv.2) kv.2 /\
                    (length (etext kv.1) <= F)%nat /\ (length (enc kv.2) <= F)%nat) m ->
  StronglySorted (fun a b => compareBytes (etext a.1) (etext b.1) < 0) m ->
  Forall (below prev) m -> (length m <= fuel)%nat ->
  decodeEntries fuel (decodeValue F) (Z.of_nat (length m)) prev out
    (concat (map (fun kv => etext kv.1 ++ enc kv.2) m) ++ rest) =
  Ok (JsonText.obj_build out (map (fun kv => (kv.1, norm kv.2)) m), rest).
Proof.
  intros Hm Hs. revert fuel prev out. induction Hs as [|[k v] m Hs IH Hlt]; intros fuel prev out Hp Hf.
  { by destruct fuel. }
  destruct fuel as [|fuel]; [simpl in Hf; lia|].
  apply Forall_cons in Hm as [((Hk & Hproto & Hv) & [_ Hd] & Lk & Lv) Hm].
  apply Forall_cons in Hp as [Hp _]. cbn [fst snd] in *.
  destruct (text_decodes k Hk) as [_ [_ Hdk]].
  cbn [decodeEntries map concat length]. rewrite (proj2 (Z.leb_gt _ 0)) by lia.
  cbn [fst snd]. rewrite <- !app_assoc, Hdk by done. cbn [rbind norm].
  set (tail := concat _ ++ rest). cbv zeta.
  assert (Hkb : take (length (etext k ++ enc v ++ tail) - length (enc v ++ tail)) (etext k ++ enc v ++ tail)
                = etext k).
  { rewrite length_app. replace (_ + _ - _)%nat with (length (etext k)) by lia. apply take_app_length. }
  rewrite Hkb.
  assert (Hord : match prev with Some p => 0 <=? compareBytes p (etext k) | None => false end = false).
  { destruct prev as [p|]; [|done]. unfold below in Hp. cbn [fst] in Hp. by apply Z.leb_gt. }
  rewrite Hord, Hd by done. cbn [rbind].
  replace (Z.of_nat (S (length m)) - 1) with (Z.of_nat (length m)) by lia.
  unfold set_own. rewrite bool_decide_false by done. cbn [andb]. unfold tail.
  rewrite IH; [done|done| |simpl in Hf; lia].
  eapply Forall_impl; [exact Hlt|]. by intros x.
Qed.

Lemma has_adjacent_dup_sorted (m : list (jsstr * value)) :
  StronglySorted (fun a b => compareBytes (etext a.1) (etext b.1) < 0) m ->
  has_adjacent_dup (map (fun kv => (etext kv.1, enc kv.2)) m) = false.
Proof.
  induction 1 as [|x m Hs IH Hx]; [done|]. destruct m as [|y m]; [done|].
  apply Forall_cons in Hx as [Hxy _]. cbn [map has_adjacent_dup] in *. rewrite IH.
  cbn [fst]. by rewrite (proj2 (Z.eqb_neq _ _)) by lia.
Qed.

Lemma length_concat_ge {A} (f : A -> bytes) l :
  Forall (fun x => (1 <= length (f x))%nat) l -> (length l <= length (concat (map f l)))%nat.
Proof. induction 1; simpl; [lia|]. rewrite length_app. lia. Qed.

Lemma length_concat_elem {A} (f : A -> bytes) l x :
  x ∈ l -> (length (f x) <= length (concat (map f l)))%nat.
Proof.
  induction l as [|y l IH]; [by intros ?%not_elem_of_nil|].
  intros [->|Hx]%elem_of_cons; simpl; rewrite length_app; [lia|]. specialize (IH Hx). lia.
Qed.

Definition survives (v : value) : Prop := encodeValue v = Ok (enc v) /\ decodes (enc v) v.

Lemma int_survives v z : arg_ok z ->
  encodeValue v = writeHead 0 z -> norm v = norm_int z -> survives v.
Proof.
  intros Hz He Hn. destruct (arg_ok_head 0 z ltac:(lia) Hz) as (i & t & E & E1 & E2).
  unfold survives, enc. rewrite He, E. cbn [unwrap]. split; [done|]. split; [simpl; lia|].
  intros [|fuel] rest Hf; [simpl in Hf; lia|].
  rewrite (decode_head 0 z i t) by done. by rewrite Hn.
Qed.

Lemma array_survives l :
  Z.of_nat (length l) < 2 ^ 31 -> Forall survives l -> survives (VArray l).
Proof.
  intros Hl Hs.
  destruct (arg_ok_head 4 (Z.of_nat (length l)) ltac:(lia) ltac:(left; lia)) as (i & t & E & E1 & E2).
  assert (Hc : collect encodeValue l = Ok (map enc l)).
  { apply collect_ok. eapply Forall_impl; [exact Hs|]. by intros v [? _]. }
  assert (Hv : encodeValue (VArray l) = Ok ((i :: t) ++ concat (map enc l))).
  { cbn [encodeValue]. rewrite E. cbn [rbind]. by rewrite Hc. }
  unfold survives. unfold enc at 1 2. rewrite Hv. cbn [unwrap]. split; [done|].
  split; [simpl; lia|]. intros [|fuel] rest Hf; [simpl in Hf; lia|].
  rewrite <- app_assoc, (decode_head 4 (Z.of_nat (length l)) i t) by done.
  change (4 =? 0) with false. change (4 =? 1) with false. change (4 =? 2) with false.
  change (4 =? 3) with false. change (4 =? 4) with true. cbv iota.
  rewrite length_app in Hf. cbn [length] in Hf.
  rewrite decodeItems_ok; [done| |].
  - apply Forall_forall. intros v Hin. rewrite Forall_forall in Hs. destruct (Hs v Hin) as [_ Hd].
    split; [done|]. pose proof (length_concat_elem enc l v Hin). lia.
  - assert (length l <= length (concat (map enc l)))%nat; [|lia].
    apply length_concat_ge. eapply Forall_impl; [exact Hs|]. by intros v [_ [? _]].
Qed.

(** Sorting the entries by key is sorting the pairs of encodings. *)
Lemma keys_antisym m x y :
  NoDup (map fst m) -> Forall entry_ok m -> x ∈ m -> y ∈ m ->
  compareBytes (etext x.1) (etext y.1) <= 0 -> compareBytes (etext y.1) (etext x.1) <= 0 -> x = y.
Proof.
  intros Hn Ho Hx Hy H1 H2. rewrite Forall_forall in Ho.
  destruct (Ho x Hx) as (Hkx & _), (Ho y Hy) as (Hky & _).
  assert (E : etext x.1 = etext y.1).
  { rewrite compareBytes_le in H1, H2. apply (inj (map b2z)). by apply lex_le_antisym. }
  apply etext_inj in E; [|done..].
  apply list_elem_of_lookup in Hx as [i Hi], Hy as [j Hj].
  assert (i = j); [|subst; congruence].
  apply (NoDup_lookup (map fst m) i j x.1 Hn).
  - apply list_lookup_fmap_Some. eauto.
  - rewrite E. apply list_lookup_fmap_Some. eauto.
Qed.

Lemma sorted_strict m :
  NoDup (map fst m) -> Forall entry_ok m -> StronglySorted key_le m ->
  StronglySorted (fun a b => compareBytes (etext a.1) (etext b.1) < 0) m.
Proof.
  intros Hn Ho Hs. induction Hs as [|x m Hs IH Hx]; constructor.
  - cbn [map] in Hn. apply NoDup_cons in Hn as [_ Hn]. apply Forall_cons in Ho as [_ Ho]. auto.
  - apply Forall_forall. intros y Hy. rewrite Forall_forall in Hx. specialize (Hx y Hy).
    unfold key_le in Hx. destruct (Z.eq_dec (compareBytes (etext x.1) (etext y.1)) 0) as [E|]; [|lia].
    exfalso. apply compareBytes_eq in E. rewrite Forall_forall in Ho.
    destruct (Ho x (list_elem_of_here _ _)) as (Hkx & _).
    destruct (Ho y (list_elem_of_further _ _ _ Hy)) as (Hky & _).
    apply etext_inj in E; [|done..]. cbn [map] in Hn. apply NoDup_cons in Hn as [Hn _].
    apply Hn. rewrite E. apply list_elem_of_fmap. eauto.
Qed.

Lemma no_prototype m : Forall (fun kv => kv.1 <> PROTO) m -> is_bytes (VMap m) = false.
Proof. induction 1 as [|[k v] m Hk _ IH]; [done|]. cbn in *. rewrite decide_False by done. exact IH. Qed.

Lemma omap_Some {A B} (g : A -> B) l : omap id (map (fun x => Some (g x)) l) = map g l.
Proof. induction l as [|x l IH]; [done|]. cbn. f_equal. exact IH. Qed.

Lemma map_survives m :
  Z.of_nat (length m) < 2 ^ 31 -> NoDup (map fst m) -> Forall entry_ok m ->
  Forall (fun kv => survives kv.2) m -> survives (VMap m).
Proof.
  intros Hl Hn Ho Hs. set (sm := order_by key_le m).
  assert (Hp : sm ≡ₚ m) by (unfold sm, order_by; apply merge_sort_Permutation).
  assert (Hlen : length sm = length m) by (by rewrite Hp).
  destruct (arg_ok_head 5 (Z.of_nat (length sm)) ltac:(lia) ltac:(left; lia)) as (i & t & E & E1 & E2).
  assert (Hn' : NoDup (map fst sm)) by (by rewrite Hp).
  assert (Ho' : Forall entry_ok sm) by (by rewrite Hp).
  assert (Hs' : Forall (fun kv => survives kv.2) sm) by (by rewrite Hp).
  assert (Hstrict := sorted_strict sm Hn' Ho' (order_by_sorted key_le m)).
  set (g := fun kv : jsstr * value => (etext kv.1, enc kv.2)).
  assert (Hv : encodeValue (VMap m) =
    Ok ((i :: t) ++ concat (map (fun kv => etext kv.1 ++ enc kv.2) sm))).
  { cbn [encodeValue]. fold (is_bytes (VMap m)). rewrite no_prototype, (collect_ok _ (fun kv => Some (g kv))).
    3:{ eapply Forall_impl; [exact Ho|]. by intros kv (_ & ? & _). }
    2:{ rewrite Forall_forall in *. intros kv Hkv. destruct (Ho kv Hkv) as (Hk & Hp' & _). rewrite decide_False by done.
        destruct (text_decodes _ Hk) as [-> _]. destruct (Hs kv Hkv) as [-> _]. done. }
    cbn [rbind]. rewrite omap_Some. unfold finishMap.
    rewrite (order_by_map key_le entry_le g m) by
      (intros x y; try (unfold key_le, entry_le; done); intros; by apply (keys_antisym m)).
    fold sm. unfold g. rewrite has_adjacent_dup_sorted by done.
    rewrite length_map, E. cbn [rbind]. by rewrite map_map. }
  assert (Hnorm : norm (VMap m) = VMap (JsonText.obj_build [] (map (fun kv => (kv.1, norm kv.2)) sm))).
  { cbn [norm]. do 2 f_equal. refine (order_by_map key_le key_le (fun kv => (kv.1, norm kv.2)) m _ _);
      [intros x y Hxy; exact Hxy|].
    intros x y Hx Hy H1 H2. exact (keys_antisym m x y Hn Ho Hx Hy H1 H2). }
  unfold survives. unfold enc at 1 2. rewrite Hv. cbn [unwrap]. split; [done|].
  split; [simpl; lia|]. intros [|fuel] rest Hf; [simpl in Hf; lia|].
  rewrite <- app_assoc, (decode_head 5 (Z.of_nat (length sm)) i t) by done.
  change (5 =? 0) with false. change (5 =? 1) with false. change (5 =? 2) with false.
  change (5 =? 3) with false. change (5 =? 4) with false. change (5 =? 5) with true. cbv iota.
  rewrite length_app in Hf. cbn [length] in Hf.
  rewrite decodeEntries_ok; [by rewrite Hnorm| |done| |].
  - apply Forall_forall. intros kv Hin. rewrite Forall_forall in Ho', Hs'.
    destruct (Hs' kv Hin) as [_ Hd].
    pose proof (length_concat_elem (fun kv => etext kv.1 ++ enc kv.2) sm kv Hin) as Hc.
    cbn beta in Hc. rewrite length_app in Hc. split; [by apply Ho'|]. split; [done|]. lia.
  - apply Forall_forall. done.
  - assert (length sm <= length (concat (map (fun kv => etext kv.1 ++ enc kv.2) sm)))%nat; [|lia].
    apply length_concat_ge. eapply Forall_impl; [exact Hs'|]. intros kv [_ [? _]].
    rewrite length_app. lia.
Qed.

Lemma bytes_survive b : blen b < 2 ^ 31 -> survives (VBytes b).
Proof.
  intros Hl. destruct (arg_ok_head 2 (blen b) ltac:(lia) ltac:(left; unfold blen in *; lia))
    as (i & t & E & E1 & E2).
  unfold survives, enc. cbn [encodeValue]. unfold encodeBytes. rewrite E. cbn [rbind unwrap].
  split; [done|]. split; [simpl; lia|]. intros [|fuel] rest Hf; [simpl in Hf; lia|].
  rewrite <- app_assoc, (decode_head 2 (blen b) i t) by done.
  change (2 =? 0) with false. change (2 =? 1) with false. change (2 =? 2) with true. cbv iota.
  by rewrite readBytes_app.
Qed.

Lemma ok_survives v : ok v -> survives v.
Proof.
  induction v as [n|z|b|s|l IH|m IH] using value_ind'; intros Ho.
  - destruct n as [z| |]; [|done..]. apply (int_survives _ z); [done| |done].
    cbn [encodeValue encodeUint rbind]. unfold encodeUint. cbn [rbind].
    rewrite (proj2 (Z.ltb_ge _ _)); [done|]. simpl in Ho. unfold arg_ok in Ho. lia.
  - apply (int_survives _ z); [done| |done]. cbn [encodeValue]. unfold encodeUint. cbn [rbind].
    rewrite (proj2 (Z.ltb_ge _ _)); [done|]. simpl in Ho. unfold arg_ok in Ho. lia.
  - by apply bytes_survive.
  - apply text_decodes in Ho as [E Hd]. split; [exact E|exact Hd].
  - apply ok_array in Ho as [Hl Ho]. apply array_survives; [done|].
    rewrite Forall_forall in *. auto.
  - apply ok_map in Ho as (Hl & Hn & Ho). apply map_survives; try done.
    rewrite Forall_forall in *. intros kv Hkv. apply IH; [done|]. by apply Ho.
Qed.

Lemma encode_ok v : ok v -> canonicalCbor v = Ok (enc v).
Proof. by intros [He _]%ok_survives. Qed.

Lemma decode_enc v : ok v -> decodeCanonicalCbor (enc v) = Ok (norm v).
Proof.
  intros [_ [_ Hd]]%ok_survives. unfold decodeCanonicalCbor.
  specialize (Hd (S (length (enc v))) [] ltac:(lia)). rewrite app_nil_r in Hd. by rewrite Hd.
Qed.

(** ** Properties *)

(** C33: What the encoder writes, the decoder reads back.  For a value whose integers, numbers or bigints, are
    in [0, 2^31) or [2^32, 2^64), whose strings are well-formed without a leading byte-order mark, whose
    lengths are below 2^31, and whose objects have distinct keys other than [__proto__], the encoder
    succeeds and the decoder returns the same value up to three things ([norm]): an integer comes back as a
    number when it is below 2^53 and as a bigint otherwise, whichever it was; the keys of an object are
    set in canonical order; and the object lists those that are array indices first, by number. *)
Theorem cbor_roundtrip v :
  ok v -> exists bs, canonicalCbor v = Ok bs /\ decodeCanonicalCbor bs = Ok (norm v).
Proof. intros Hv. exists (enc v). split; [by apply encode_ok|by apply decode_enc]. Qed.

Definition demo_receipt : value :=
  VMap [(js "ts", VNumber (NInt (2 ^ 40))); (js "epoch", VNumber (NInt 3));
        (js "sig", VBytes [Corelib.Init.Byte.x01]); (js "l", VArray [VText (js "a")])].

Lemma cbor_roundtrip_witness :
  exists bs, canonicalCbor demo_receipt = Ok bs /\ decodeCanonicalCbor bs = Ok (norm demo_receipt).
Proof.
  apply cbor_roundtrip. cbn -[Z.pow]. unfold arg_ok, text_ok.
  repeat split; try reflexivity; try discriminate; try (right; split; reflexivity || discriminate);
    try (left; split; reflexivity || discriminate); try (right; lia); try (left; lia).
  apply (bool_decide_unpack _). vm_compute. exact I.
Defined.

(** Keys are written in canonical order, [10] behind [9] and [b], and listed with the array indices first. *)
Example index_keys_are_listed_first :
  let one := VNumber (NInt 1) in
  let v := VMap [(js "9", one); (js "10", VBigint 2); (js "b", one)] in
  norm v = VMap [(js "9", one); (js "10", VNumber (NInt 2)); (js "b", one)] /\
  enc v = map z2b [163; 97; 57; 1; 97; 98; 1; 98; 49; 48; 2] /\ decodeCanonicalCbor (enc v) = Ok (norm v).
Proof. vm_compute. repeat split. Qed.

(** 32-bit arguments with the top bit set are written and then rejected.  The
    decoder joins the four bytes with [|], which makes the result a negative signed
    integer; it is below 65536, so the canonical-form check throws.  Every integer in
    [2^31, 2^32) that the encoder accepts fails to decode. *)
Theorem cbor_u32_rejected z :
  2 ^ 31 <= z < 2 ^ 32 ->
  exists bs, canonicalCbor (VNumber (NInt z)) = Ok bs /\
             decodeCanonicalCbor bs = Throw (NonCanonicalLength 4).
Proof.
  intros Hz. destruct (head_reads_back 0 z ltac:(lia) ltac:(lia)) as (i & t & E & E1 & E2).
  rewrite (proj2 (Z.leb_le (2 ^ 31) z)), (proj2 (Z.ltb_lt z (2 ^ 32))) in E2 by lia.
  exists (i :: t). split.
  - unfold canonicalCbor. cbn [encodeValue]. unfold encodeUint. cbn [rbind].
    rewrite (proj2 (Z.ltb_ge z 0)) by lia. exact E.
  - unfold decodeCanonicalCbor. cbn [decodeValue readByte rbind]. cbv zeta. rewrite E1.
    specialize (E2 []). rewrite app_nil_r in E2. cbn [andb] in E2. change (0 =? 0) with true. cbv iota.
    by rewrite E2.
Qed.

Lemma cbor_u32_rejected_witness :
  exists bs, canonicalCbor (VNumber (NInt 4000000000)) = Ok bs /\
             decodeCanonicalCbor bs = Throw (NonCanonicalLength 4).
Proof. apply cbor_u32_rejected. lia. Defined.

(** The strict decoder is not injective: a text string that is not UTF-8 decodes to
    U+FFFD and re-encodes to other bytes. *)
Lemma cbor_lossy_text :
  let bs := [z2b 97; z2b 255] in
  exists v bs', decodeCanonicalCbor bs = Ok v /\ canonicalCbor v = Ok bs' /\ bs' <> bs.
Proof. do 2 eexists. split; [vm_compute; reflexivity|]. split; [vm_compute; reflexivity|]. discriminate. Qed.

End ReceiptsCbor.
