(* ===== verification/JsConvert.v ===== *)
(** Conversions of the language that several components share: [Number(v)] of a JSON value,
    [String(v ?? d)] of a property, and the stable [Array.prototype.sort].

    [Number(v)] is exact on the integers of [Json] and on the values that are not finite; a
    string that denotes a fraction, an exponent or an unsafe integer is outside the model
    and is reported as such. *)
From S2P Require Import Prelude JsString Sql Json JsonText.

Module JsConvert.
Import JsonText.

Inductive conversion_error := TypeError | OutsideModel.

(** A number: an integer, or [NaN], [Infinity], [-Infinity] by its text. *)
Inductive number := Finite (z : Z) | NonFinite (text : jsstr).
#[global] Instance number_eq_dec : EqDecision number.
Proof. solve_decision. Defined.

Definition is_radix_digit (base c : Z) : bool :=
  match hex_value c with Some v => v <? base | None => false end.

Definition radix_value (base : Z) (s : jsstr) : Z :=
  fold_left (fun acc c => acc * base + default 0 (hex_value c)) s 0.

Definition safe (z : Z) : result conversion_error number :=
  if Z.abs z <=? MAX_SAFE_INTEGER then Ok (Finite z) else Throw OutsideModel.

(** An unsigned decimal literal: digits with a fraction or an exponent are outside. *)
Definition decimal_number (neg : bool) (s : jsstr) : result conversion_error number :=
  let '(ds, r) := span_digits s in
  match r with
  | [] => if bool_decide (ds = []) then Ok (NonFinite (js "NaN"))
          else safe (if neg then - digits 0 ds else digits 0 ds)
  | _ =>
      let '(fraction, r1) := match r with
                             | c :: r' => if c =? 46 then let '(fs, r'') := span_digits r' in (fs, r'') else ([], r)
                             | [] => ([], [])
                             end in
      if bool_decide (ds = []) && bool_decide (fraction = []) then Ok (NonFinite (js "NaN"))
      else match read_exponent r1 with
           | Ok (_, []) => Throw OutsideModel
           | _ => Ok (NonFinite (js "NaN"))
           end
  end.

(** [StringToNumber] *)
Definition string_to_number (s : jsstr) : result conversion_error number :=
  let s := trim s in
  let radix (base : Z) (ds : jsstr) :=
    if negb (bool_decide (ds = [])) && forallb (is_radix_digit base) ds then safe (radix_value base ds)
    else Ok (NonFinite (js "NaN")) in
  match s with
  | [] => Ok (Finite 0)
  | 48 :: c :: ds =>
      if (c =? 120) || (c =? 88) then radix 16 ds
      else if (c =? 111) || (c =? 79) then radix 8 ds
      else if (c =? 98) || (c =? 66) then radix 2 ds
      else decimal_number false s
  | c :: r =>
      let '(neg, body) := if c =? 45 then (true, r) else if c =? 43 then (false, r) else (false, s) in
      if bool_decide (body = js "Infinity")
      then Ok (NonFinite (if neg then js "-Infinity" else js "Infinity"))
      else decimal_number neg body
  end.

(** [Number(v)]; an array or object goes through its string. *)
Definition to_number (v : Json) : result conversion_error number :=
  match v with
  | JNull => Ok (Finite 0)
  | JBool b => Ok (Finite (if b then 1 else 0))
  | JNum z => Ok (Finite z)
  | JStr s => string_to_number s
  | JArr _ | JObj _ =>
      match to_string v with Some s => string_to_number s | None => Throw TypeError end
  end.

(** [String(v)] *)
Definition String_of (v : Json) : result conversion_error jsstr :=
  match to_string v with Some s => Ok s | None => Throw TypeError end.

(** [v ?? d] of an optional property. *)
Definition nullish (o : option Json) (d : Json) : Json :=
  match o with None | Some JNull => d | Some v => v end.

(** [v != null] *)
Definition present (o : option Json) : option Json :=
  match o with None | Some JNull => None | Some v => Some v end.

Definition is_null (v : Json) : bool := match v with JNull => true | _ => false end.

(** [v != null ? f(v) : undefined] *)
Definition opt_conv {A} (f : Json -> result conversion_error A) (o : option Json)
    : result conversion_error (option A) :=
  match present o with None => Ok None | Some v => let? x := f v in Ok (Some x) end.

(** A string property that is not empty: [typeof v === "string" && v.length > 0 ? v : ...]. *)
Definition nonempty_str (o : option Json) : option jsstr :=
  match o with Some (JStr ((_ :: _) as s)) => Some s | _ => None end.

(** A stable sort. *)
Fixpoint insert_by {A} (le : A -> A -> bool) (x : A) (l : list A) : list A :=
  match l with [] => [x] | y :: l' => if le x y then x :: l else y :: insert_by le x l' end.
Definition sort_by {A} (le : A -> A -> bool) (l : list A) : list A := foldr (insert_by le) [] l.

(** The default order of [sort] on strings: by UTF-16 code units. *)
Definition unit_le (a b : jsstr) : bool := bool_decide (lex_le a b).

(** The UTC calendar of [Date]: year, month (1 to 12) and day of a day number. *)
Definition civil_of_day (day : Z) : Z * Z * Z :=
  let z := day + 719468 in
  let era := z / 146097 in
  let doe := z mod 146097 in
  let yoe := (doe - doe / 1460 + doe / 36524 - doe / 146096) / 365 in
  let doy := doe - (365 * yoe + yoe / 4 - yoe / 100) in
  let mp := (5 * doy + 2) / 153 in
  let d := doy - (153 * mp + 2) / 5 + 1 in
  let m := if mp <? 10 then mp + 3 else mp - 9 in
  (yoe + era * 400 + (if m <=? 2 then 1 else 0), m, d).

(** Time values beyond this are invalid dates. *)
Definition MAX_TIME : Z := 8640000000000000.

Example number_of_decimal : string_to_number (js " -12 ") = Ok (Finite (-12)).
Proof. vm_compute. reflexivity. Qed.
Example number_of_hex : string_to_number (js "0x1F") = Ok (Finite 31).
Proof. vm_compute. reflexivity. Qed.
Example number_of_word : string_to_number (js "p1") = Ok (NonFinite (js "NaN")).
Proof. vm_compute. reflexivity. Qed.
Example number_of_fraction : string_to_number (js ".5e3") = Throw OutsideModel.
Proof. vm_compute. reflexivity. Qed.

Example civil_epoch : civil_of_day 0 = (1970, 1, 1).
Proof. reflexivity. Qed.
Example civil_leap_day : civil_of_day 11016 = (2000, 2, 29).
Proof. reflexivity. Qed.
Example civil_century : civil_of_day (-25509) = (1900, 2, 28).
Proof. reflexivity. Qed.

Section sorting.
Context {A : Type} (le : A -> A -> bool).

Lemma insert_by_perm x l : insert_by le x l ≡ₚ x :: l.
Proof.
  induction l as [|y l IH]; cbn [insert_by]; [done|]. destruct (le x y); [done|].
  rewrite IH. apply Permutation_swap.
Qed.

Lemma sort_by_perm l : sort_by le l ≡ₚ l.
Proof.
  induction l as [|x l IH]; [done|]. change (sort_by le (x :: l)) with (insert_by le x (sort_by le l)).
  rewrite insert_by_perm. by constructor.
Qed.

Context (total : forall x y, le x y = true \/ le y x = true)
  (trans : forall x y z, le x y = true -> le y z = true -> le x z = true).

Lemma insert_by_sorted x l :
  StronglySorted (fun x y => le x y = true) l ->
  StronglySorted (fun x y => le x y = true) (insert_by le x l).
Proof.
  induction 1 as [|y l Hs IH Hy]; cbn [insert_by]; [repeat constructor|].
  destruct (le x y) eqn:E.
  - constructor; [by constructor|]. constructor; [done|].
    eapply Forall_impl; [exact Hy|]. intros z. by apply trans.
  - constructor; [done|]. rewrite insert_by_perm. constructor; [|done].
    destruct (total x y); congruence.
Qed.

Lemma sort_by_sorted l : StronglySorted (fun x y => le x y = true) (sort_by le l).
Proof. induction l as [|x l IH]; [constructor|]. by apply insert_by_sorted. Qed.

(** Lists with the same elements sort alike when only equal elements tie. *)
Lemma sort_by_unique (antisym : forall x y, le x y = true -> le y x = true -> x = y) l l' :
  sort_by le l = sort_by le l' <-> l ≡ₚ l'.
Proof.
  split; [intros E; rewrite <- (sort_by_perm l), E; apply sort_by_perm|]. intros Hp.
  assert (Ha : AntiSymm (=) (fun x y => le x y = true)) by exact antisym.
  apply (StronglySorted_unique (fun x y => le x y = true)); try apply sort_by_sorted.
  by rewrite !sort_by_perm.
Qed.
End sorting.

Lemma unit_le_total a b : unit_le a b = true \/ unit_le b a = true.
Proof.
  unfold unit_le. destruct (lex_le_total a b) as [H|H]; [left|right]; by apply bool_decide_eq_true.
Qed.
Lemma unit_le_trans a b c : unit_le a b = true -> unit_le b c = true -> unit_le a c = true.
Proof. unfold unit_le. rewrite !bool_decide_eq_true. apply lex_le_trans. Qed.
Lemma unit_le_antisym a b : unit_le a b = true -> unit_le b a = true -> a = b.
Proof. unfold unit_le. rewrite !bool_decide_eq_true. apply lex_le_antisym. Qed.

End JsConvert.
