(* ===== verification/Antichain.v ===== *)
(** Down-sets of finite sets of grants, and their normal form.

    A grant is an element of a poset; a list of grants permits whatever lies below one of
    them.  If two grants below which something lies have a greatest lower bound, the
    pairwise bounds of two lists permit exactly what both lists permit, and the maximal
    elements of a list, sorted by a key that tells them apart, are determined by what the
    list permits.  The dimensions of a confinement document are instances. *)
From S2P Require Import Prelude JsString Sql JsConvert.

Module Antichain.

(** [above y x]: the grant [y] permits all that [x] permits. *)
Class GrantOrder (P : Type) `{EqDecision P} (above : P -> P -> bool) : Prop := {
  above_refl : forall x, above x x = true;
  above_trans : forall x y z, above x y = true -> above y z = true -> above x z = true;
  above_antisym : forall x y, above x y = true -> above y x = true -> x = y;
}.

(** [glb] gives the greatest lower bound, or nothing when no point lies below both. *)
Class GrantMeet (P : Type) `{GrantOrder P above} (point : P -> Prop) (glb : P -> P -> option P) : Prop :=
  glb_spec : forall a b x, point x ->
    (above a x = true /\ above b x = true) <-> exists c, glb a b = Some c /\ above c x = true.

Lemma filter_length_le {A} (p q : A -> bool) l :
  (forall z, q z = true -> p z = true) -> (length (List.filter q l) <= length (List.filter p l))%nat.
Proof.
  intros Hi. induction l as [|x l IH]; [done|]. cbn [List.filter]. specialize (Hi x).
  destruct (q x); [rewrite Hi by done; cbn; lia|]. destruct (p x); cbn; lia.
Qed.

Lemma filter_length_lt {A} (p q : A -> bool) l y :
  (forall z, q z = true -> p z = true) -> In y l -> p y = true -> q y = false ->
  (length (List.filter q l) < length (List.filter p l))%nat.
Proof.
  intros Hi Hy Hp Hq. induction l as [|x l IH]; [done|]. cbn [List.filter].
  destruct Hy as [-> |Hy].
  - rewrite Hp, Hq. cbn. pose proof (filter_length_le p q l Hi). lia.
  - specialize (IH Hy). specialize (Hi x). destruct (q x); [rewrite Hi by done; cbn; lia|].
    destruct (p x); cbn; lia.
Qed.

Section grants.
Context `{GrantOrder P above}.

Definition down (l : list P) (x : P) : Prop := exists y, y ∈ l /\ above y x = true.

Definition antichain (l : list P) : Prop := forall x y, x ∈ l -> y ∈ l -> above y x = true -> y = x.

(** Nothing in [l] is strictly above [x]. *)
Definition maximal (l : list P) (x : P) : bool := forallb (fun y => implb (above y x) (bool_decide (y = x))) l.

Lemma maximal_iff l x : maximal l x = true <-> forall y, y ∈ l -> above y x = true -> y = x.
Proof.
  unfold maximal. rewrite forallb_forall. split.
  - intros Hm y Hy Ha. apply list_elem_of_In, Hm in Hy. rewrite Ha in Hy. by apply bool_decide_eq_true in Hy.
  - intros Hm y Hy%list_elem_of_In. destruct (above y x) eqn:E; [|done]. cbn [implb].
    apply bool_decide_eq_true. by apply Hm.
Qed.

(** Every element lies below a maximal one. *)
Lemma maximal_above l x : x ∈ l -> exists y, y ∈ l /\ above y x = true /\ maximal l y = true.
Proof.
  (* By induction on the number of elements strictly above [x]. *)
  set (strict (z : P) := List.filter (fun y => above y z && negb (bool_decide (y = z))) l).
  remember (length (strict x)) as n eqn:En. revert x En.
  induction n as [n IH] using lt_wf_ind. intros x -> Hx.
  destruct (maximal l x) eqn:Em; [exists x; split; [done|]; split; [apply above_refl|done]|].
  apply not_true_iff_false in Em. rewrite maximal_iff in Em.
  assert (Hy : exists y, y ∈ strict x).
  { destruct (strict x) as [|y s] eqn:Es; [|exists y; left]. destruct Em. intros y Hy Ha.
    destruct (decide (y = x)) as [?|Hne]; [done|]. exfalso.
    assert (Hin : y ∈ strict x).
    { unfold strict. apply list_elem_of_In, filter_In. split; [by apply list_elem_of_In|].
      rewrite Ha. by rewrite bool_decide_eq_false_2. }
    rewrite Es in Hin. by apply not_elem_of_nil in Hin. }
  destruct Hy as (y & Hy). unfold strict in Hy. apply list_elem_of_In, filter_In in Hy as [Hl Hy].
  apply andb_true_iff in Hy as [Ha Hne]. apply negb_true_iff, bool_decide_eq_false in Hne.
  assert (Hlt : (length (strict y) < length (strict x))%nat).
  { apply filter_length_lt with y; [|done|by rewrite Ha, bool_decide_eq_false_2|by rewrite bool_decide_eq_true_2, andb_false_r].
    intros z [Hza Hzn]%andb_true_iff. rewrite (above_trans _ _ _ Hza Ha).
    apply negb_true_iff, bool_decide_eq_false. apply negb_true_iff, bool_decide_eq_false in Hzn.
    intros ->. apply Hne. by apply above_antisym. }
  destruct (IH _ Hlt y eq_refl) as (z & Hz & Hza & Hzm); [by apply list_elem_of_In|].
  exists z. split; [done|]. split; [by apply (above_trans _ y)|done].
Qed.

(** The maximal elements permit what the list permits. *)
Lemma down_maximal l l' x : (forall y, y ∈ l' <-> y ∈ l /\ maximal l y = true) -> down l' x <-> down l x.
Proof.
  intros Hl. split; intros (y & Hy & Hx).
  - exists y. split; [by apply Hl|done].
  - destruct (maximal_above l y Hy) as (z & Hz & Hzy & Hm). exists z.
    split; [by apply Hl|]. by apply (above_trans _ y).
Qed.

Lemma antichain_maximal l l' : (forall y, y ∈ l' <-> y ∈ l /\ maximal l y = true) -> antichain l'.
Proof.
  intros Hl x y [_ Hm]%Hl [Hy _]%Hl Ha. rewrite maximal_iff in Hm. by apply Hm.
Qed.

Context (point : P -> Prop).

(** An antichain of points is determined by the points it permits. *)
Lemma antichain_down l l' :
  antichain l -> antichain l' -> Forall point l -> Forall point l' ->
  (forall x, point x -> down l x <-> down l' x) -> forall x, x ∈ l <-> x ∈ l'.
Proof.
  assert (Hone : forall l l', antichain l -> antichain l' -> Forall point l -> Forall point l' ->
    (forall x, point x -> down l x <-> down l' x) -> forall x, x ∈ l -> x ∈ l').
  { intros k k' Hk Hk' Hp Hp' Hd x Hx. rewrite Forall_forall in Hp, Hp'.
    assert (Hdx : down k x) by (exists x; split; [done|apply above_refl]).
    apply Hd in Hdx as (y & Hy & Hyx); [|by apply Hp].
    assert (Hdy : down k' y) by (exists y; split; [done|apply above_refl]).
    apply Hd in Hdy as (z & Hz & Hzy); [|by apply Hp'].
    assert (z = x) as -> by (apply (Hk x z Hx Hz); by apply (above_trans _ y)).
    rewrite <- (above_antisym y x); done. }
  intros Hl Hl' Hp Hp' Hd x. split; [by apply (Hone l l')|]. apply (Hone l' l); [done..|].
  intros z Hz. by rewrite Hd.
Qed.

Context (glb : P -> P -> option P) `{!GrantMeet P point glb}.

(** The pairwise bounds permit what both lists permit. *)
Lemma down_pairs l r m x :
  (forall c, c ∈ m <-> exists a b, a ∈ l /\ b ∈ r /\ glb a b = Some c) -> point x ->
  down m x <-> down l x /\ down r x.
Proof.
  intros Hm Hp. split.
  - intros (c & (a & b & Ha & Hb & Hc)%Hm & Hx).
    destruct (proj2 (glb_spec a b x Hp)) as [H1 H2]; [by exists c|].
    split; [by exists a|by exists b].
  - intros [(a & Ha & Hax) (b & Hb & Hbx)]. destruct (proj1 (glb_spec a b x Hp)) as (c & Hc & Hx); [done|].
    exists c. split; [|done]. apply Hm. by exists a, b.
Qed.
End grants.

(** ** Sorting by a key *)

Section keyed.
Context {A : Type} (key : A -> jsstr).
Definition key_order (x y : A) : bool := JsConvert.unit_le (key x) (key y).

Lemma keyed_sorted_unique l l' :
  StronglySorted (fun x y => key_order x y = true) l -> StronglySorted (fun x y => key_order x y = true) l' ->
  NoDup (map key l) -> l ≡ₚ l' -> l = l'.
Proof.
  intros Hs. revert l'. induction Hs as [|x l Hs IH Hx]; intros l' Hs' Hn Hp.
  { by apply Permutation_nil in Hp as ->. }
  destruct Hs' as [|y l' Hs' Hy]; [symmetry in Hp; by apply Permutation_nil_cons in Hp|].
  apply NoDup_cons in Hn as [Hk Hn]. assert (y = x) as ->; [|by rewrite (IH l') by (done || by eapply Permutation_cons_inv)].
  assert (Hyl : y ∈ x :: l) by (rewrite Hp; apply list_elem_of_here).
  assert (Hxl : x ∈ y :: l') by (rewrite <- Hp; apply list_elem_of_here).
  apply elem_of_cons in Hyl as [|Hyl]; [done|]. apply elem_of_cons in Hxl as [|Hxl]; [done|].
  rewrite Forall_forall in Hx, Hy. specialize (Hx y Hyl). specialize (Hy x Hxl).
  exfalso. apply Hk. rewrite (JsConvert.unit_le_antisym (key x) (key y)) by done.
  by apply (list_elem_of_fmap_2 key).
Qed.

Lemma key_sort_sorted l :
  StronglySorted (fun x y => key_order x y = true) (JsConvert.sort_by (key_order) l).
Proof.
  apply JsConvert.sort_by_sorted; unfold key_order; intros; [apply JsConvert.unit_le_total|].
  by eapply JsConvert.unit_le_trans.
Qed.

(** Lists with the same elements, told apart by their keys, sort alike. *)
Lemma keyed_sort_unique l l' :
  (forall x, x ∈ l <-> x ∈ l') -> NoDup (map key l) -> NoDup (map key l') ->
  JsConvert.sort_by key_order l = JsConvert.sort_by key_order l'.
Proof.
  intros Hl Hn Hn'. assert (Hp : l ≡ₚ l').
  { apply NoDup_Permutation; [by apply (NoDup_fmap_1 key)..|done]. }
  apply keyed_sorted_unique; try apply key_sort_sorted.
  - by rewrite JsConvert.sort_by_perm.
  - by rewrite !JsConvert.sort_by_perm.
Qed.
End keyed.

Lemma elem_of_sort_by {A} (le : A -> A -> bool) l x : x ∈ JsConvert.sort_by le l <-> x ∈ l.
Proof. by rewrite JsConvert.sort_by_perm. Qed.

Lemma sublist_filter {A} (p : A -> bool) l : sublist (List.filter p l) l.
Proof. induction l as [|x l IH]; cbn [List.filter]; [constructor|]. destruct (p x); by constructor. Qed.
End Antichain.
