(* ===== verification/Canonical.v ===== *)
(** Canonical JSON (src/storage/canonical.ts) and the canonical bytes of a bead
    (src/storage/bead-canonical.ts).

    [stringify] runs on JavaScript values, the ones it refuses included; [to_json] is the
    data of a value it accepts.  The main results are that its output is the JSON text of
    the data with every object sorted by key, and that two accepted values have the same
    bytes exactly when their data is the same up to key order, so that a digest of the
    bytes commits to the data. *)
From S2P Require Import Prelude JsString Sql Platform Json JsonText BlobRefStore.

Module Canonical.
Import JsonText.

(** ** Values and the serialiser *)

(** A JavaScript value, by what [stringify] can tell of it.  [VNonFinite] is a number that
    is not finite, with its text; [VOther] has the [typeof] of a function, symbol or
    bigint.  An object is its own enumerable string-keyed properties. *)
Inductive Value :=
  | VUndefined
  | VNull
  | VBool (b : bool)
  | VNum (z : Z)
  | VNonFinite (text : jsstr)
  | VStr (s : jsstr)
  | VArr (l : list Value)
  | VObj (m : list (jsstr * Value))
  | VOther (typeof : jsstr).

Inductive canonical_error :=
  | NonFinite (text : jsstr)
  | Unsupported (typeof : jsstr).

(** [Object.keys(value).sort()]: by UTF-16 code units. *)
Definition key_le {A} (a b : jsstr * A) : Prop := lex_le a.1 b.1.
#[global] Instance key_le_dec {A} (a b : jsstr * A) : Decision (key_le a b).
Proof. unfold key_le. apply _. Defined.

Fixpoint collect {E A} (l : list (result E A)) : result E (list A) :=
  match l with
  | [] => Ok []
  | r :: l => let? x := r in let? xs := collect l in Ok (x :: xs)
  end.

(** One property of an object: nothing when it is [undefined]. *)
Definition property (kr : jsstr * option (result canonical_error jsstr))
    : option (result canonical_error jsstr) :=
  match kr.2 with
  | None => None
  | Some r => Some (let? t := r in Ok (quote kr.1 ++ 58 :: t))
  end.

Definition is_undefined (v : Value) : bool := match v with VUndefined => true | _ => false end.

Fixpoint stringify (value : Value) : result canonical_error jsstr :=
  match value with
  | VNull => Ok (js "null")
  | VBool b => Ok (if b then js "true" else js "false")
  | VNonFinite t => Throw (NonFinite t)
  | VNum z => Ok (js_dec z)
  | VStr s => Ok (quote s)
  | VArr l => let? parts := collect (map stringify l) in Ok (91 :: join [44] parts ++ [93])
  | VObj m =>
      let entries := order_by key_le
        (map (fun kv => (kv.1, if is_undefined kv.2 then None else Some (stringify kv.2))) m) in
      let? parts := collect (omap property entries) in
      Ok (123 :: join [44] parts ++ [125])
  | VUndefined => Throw (Unsupported (js "undefined"))
  | VOther t => Throw (Unsupported t)
  end.

Definition canonical (value : Value) : result canonical_error bytes :=
  let? s := stringify value in Ok (utf8_encode s).

Section digest.
Context `{Sha256}.
Definition digestValue (value : Value) : result canonical_error jsstr :=
  let? bs := canonical value in Ok (BlobRefStore.digestBytes bs).
End digest.

Definition blake3HexBytes `{Blake3} (bs : bytes) : jsstr := blake3_hex bs.

(** ** The specification: the data of a value, with sorted keys *)

Fixpoint sort_keys (v : Json) : Json :=
  match v with
  | JArr l => JArr (map sort_keys l)
  | JObj m => JObj (order_by key_le (map (fun kv => (kv.1, sort_keys kv.2)) m))
  | v => v
  end.

(** Own properties have distinct keys, at every level. *)
Fixpoint distinct_keys (v : Json) : bool :=
  match v with
  | JArr l => forallb distinct_keys l
  | JObj m => bool_decide (NoDup (map fst m)) && forallb (fun kv => distinct_keys kv.2) m
  | _ => true
  end.

Fixpoint all_some {A} (l : list (option A)) : option (list A) :=
  match l with
  | [] => Some []
  | o :: l => x ← o; xs ← all_some l; Some (x :: xs)
  end.

(** A property that is not [undefined], with the data of its value if it has one. *)
Definition data_property (kr : jsstr * option (option Json)) : option (option (jsstr * Json)) :=
  match kr.2 with
  | None => None
  | Some r => Some (x ← r; Some (kr.1, x))
  end.

(** The data [stringify] accepts: [undefined] properties are dropped. *)
Fixpoint to_json (v : Value) : option Json :=
  match v with
  | VNull => Some JNull
  | VBool b => Some (JBool b)
  | VNum z => Some (JNum z)
  | VStr s => Some (JStr s)
  | VArr l => xs ← all_some (map to_json l); Some (JArr xs)
  | VObj m =>
      xs ← all_some (omap data_property
        (map (fun kv => (kv.1, if is_undefined kv.2 then None else Some (to_json kv.2))) m));
      Some (JObj xs)
  | VUndefined | VNonFinite _ | VOther _ => None
  end.

Example stringify_example :
  stringify (VObj [(js "b", VNum 1); (js "a", VArr [VNull; VBool true]); (js "z", VUndefined)]) =
  Ok (123 :: quote (js "a") ++ js ":[null,true]," ++ quote (js "b") ++ js ":1}").
Proof. vm_compute. reflexivity. Qed.

(** ** The serialiser prints the sorted data *)

Section value_induction.
Context (P : Value -> Prop).
Context (Hundef : P VUndefined) (Hnull : P VNull) (Hbool : forall b, P (VBool b))
  (Hnum : forall z, P (VNum z)) (Hnf : forall t, P (VNonFinite t)) (Hstr : forall s, P (VStr s))
  (Harr : forall l, Forall P l -> P (VArr l))
  (Hobj : forall m, Forall (fun kv => P kv.2) m -> P (VObj m)) (Hother : forall t, P (VOther t)).

Fixpoint value_tree_ind (v : Value) : P v :=
  match v with
  | VUndefined => Hundef
  | VNull => Hnull
  | VBool b => Hbool b
  | VNum z => Hnum z
  | VNonFinite t => Hnf t
  | VStr s => Hstr s
  | VArr l => Harr l ((fix go (l : list Value) : Forall P l :=
      match l with
      | [] => @List.Forall_nil _ _
      | v :: l => @List.Forall_cons _ _ v l (value_tree_ind v) (go l)
      end) l)
  | VObj m => Hobj m ((fix go (m : list (jsstr * Value)) : Forall (fun kv => P kv.2) m :=
      match m with
      | [] => @List.Forall_nil _ _
      | kv :: m => @List.Forall_cons _ _ kv m (value_tree_ind kv.2) (go m)
      end) m)
  | VOther t => Hother t
  end.
End value_induction.

(** Every object has distinct keys. *)
Fixpoint value_keys (v : Value) : bool :=
  match v with
  | VArr l => forallb value_keys l
  | VObj m => bool_decide (NoDup (map fst m)) && forallb (fun kv => value_keys kv.2) m
  | _ => true
  end.

#[global] Instance key_le_trans {A} : Transitive (@key_le A).
Proof. intros x y z. unfold key_le. apply lex_le_trans. Qed.
#[global] Instance key_le_total {A} : Total (@key_le A).
Proof. intros x y. unfold key_le. apply lex_le_total. Qed.

(** Distinct keys leave no ties. *)
Lemma key_le_tie {A} (l : list (jsstr * A)) x y :
  NoDup (map fst l) -> x ∈ l -> y ∈ l -> key_le x y -> key_le y x -> x = y.
Proof.
  intros Hn Hx Hy H1 H2. pose proof (lex_le_antisym _ _ H1 H2) as E.
  destruct x as [k v], y as [k' v']. cbn [fst] in E. subst k'. f_equal.
  induction l as [|[k1 v1] l IH]; [by apply not_elem_of_nil in Hx|].
  cbn [map fst] in Hn. apply NoDup_cons in Hn as [Hk Hn].
  assert (Hnot : forall v, (k, v) ∈ l -> k = k1 -> False).
  { intros w Hw ->. apply Hk. apply list_elem_of_fmap. by exists (k1, w). }
  apply elem_of_cons in Hx as [Ex|Hx], Hy as [Ey|Hy].
  - congruence.
  - exfalso. eapply Hnot; [exact Hy|congruence].
  - exfalso. eapply Hnot; [exact Hx|congruence].
  - by apply IH.
Qed.

Lemma sort_unique {A} (l l' : list (jsstr * A)) :
  NoDup (map fst l) -> StronglySorted key_le l' -> l ≡ₚ l' -> order_by key_le l = l'.
Proof.
  intros Hn Hs Hp. apply (order_by_unique key_le); [|done..].
  intros x y Hx Hy. apply (key_le_tie l'); [by rewrite <- Hp|done..].
Qed.

Lemma all_some_map {A} (l : list (option A)) xs : all_some l = Some xs <-> l = map Some xs.
Proof.
  split.
  - revert xs. induction l as [|[x|] l IH]; intros xs E; cbn in E; [by simplify_eq| |done].
    destruct (all_some l) as [ys|]; cbn in E; [|done]. injection E as <-. cbn. f_equal. by apply IH.
  - intros ->. induction xs as [|x xs IH]; [done|]. cbn. by rewrite IH.
Qed.

Lemma all_some_perm {A} (l l' : list (option A)) xs :
  all_some l = Some xs -> l ≡ₚ l' -> exists xs', all_some l' = Some xs' /\ xs ≡ₚ xs'.
Proof.
  rewrite all_some_map. intros -> Hp. symmetry in Hp. apply Permutation_map_inv in Hp as (xs' & -> & Hp).
  exists xs'. split; [by apply all_some_map|done].
Qed.

(** [stringify v] answers for the data of [v]. *)
Definition serial (v : Value) : Prop :=
  match to_json v with
  | Some j => stringify v = Ok (json_stringify (sort_keys j))
  | None => exists e, stringify v = Throw e
  end.

Lemma serial_items l :
  Forall serial l ->
  match all_some (map to_json l) with
  | Some xs => collect (map stringify l) = Ok (map json_stringify (map sort_keys xs))
  | None => exists e, collect (map stringify l) = Throw e
  end.
Proof.
  induction 1 as [|v l Hv Hl IH]; [done|]. cbn [map all_some collect]. unfold serial in Hv.
  destruct (to_json v) as [j|]; cbn; [|destruct Hv as [e ->]; by exists e].
  rewrite Hv. cbn [rbind]. destruct (all_some (map to_json l)) as [xs|]; cbn.
  - by rewrite IH.
  - destruct IH as [e ->]. by exists e.
Qed.

Definition text_of (kv : jsstr * Value) : jsstr * option (result canonical_error jsstr) :=
  (kv.1, if is_undefined kv.2 then None else Some (stringify kv.2)).
Definition data_of (kv : jsstr * Value) : jsstr * option (option Json) :=
  (kv.1, if is_undefined kv.2 then None else Some (to_json kv.2)).

Lemma serial_members m :
  Forall (fun kv => serial kv.2) m ->
  match all_some (omap data_property (map data_of m)) with
  | Some xs => collect (omap property (map text_of m)) =
      Ok (map (fun kj => quote kj.1 ++ 58 :: json_stringify (sort_keys kj.2)) xs)
  | None => exists e, collect (omap property (map text_of m)) = Throw e
  end.
Proof.
  induction 1 as [|[k v] m Hv Hm IH]; [done|]. cbn [snd] in Hv.
  cbn [map]. unfold text_of at 1 3, data_of at 1. cbn [fst snd].
  destruct (is_undefined v) eqn:Eu; [exact IH|]. unfold serial in Hv.
  destruct (to_json v) as [j|]; cbn; [|destruct Hv as [e ->]; by exists e].
  rewrite Hv. cbn. destruct (all_some (omap data_property (map data_of m))) as [xs|]; cbn.
  - by rewrite IH.
  - destruct IH as [e ->]. by exists e.
Qed.

(** The data of an object's properties keeps their keys, in order. *)
Lemma data_keys m xs :
  all_some (omap data_property (map data_of m)) = Some xs ->
  map fst xs `sublist_of` map fst m /\
  (forall kj, kj ∈ xs -> exists v, (kj.1, v) ∈ m /\ to_json v = Some kj.2).
Proof.
  revert xs. induction m as [|[k v] m IH]; intros xs E; [cbn in E; simplify_eq; split; [done|set_solver]|].
  cbn [map] in E. unfold data_of at 1 in E. cbn [fst snd] in E. destruct (is_undefined v).
  - cbn in E. apply IH in E as [Hs Hk]. split; [by constructor|]. intros kj Hkj.
    destruct (Hk kj Hkj) as (w & Hw & ?). exists w. split; [by right|done].
  - cbn in E. destruct (to_json v) as [j|] eqn:Ej; [|done]. cbn in E.
    destruct (all_some (omap data_property (map data_of m))) as [ys|] eqn:Ey; [|done].
    cbn in E. injection E as <-. destruct (IH ys eq_refl) as [Hs Hk]. split; [by constructor|].
    intros kj [-> |Hkj]%elem_of_cons; [exists v; split; [left|done]|].
    destruct (Hk kj Hkj) as (w & Hw & ?). exists w. split; [by right|done].
Qed.

Lemma sorted_sublist {A B} (l : list (jsstr * A)) (l' : list (jsstr * B)) :
  map fst l' `sublist_of` map fst l -> StronglySorted key_le l -> StronglySorted key_le l'.
Proof.
  intros Hs Hl.
  assert (Hk : forall C (x : list (jsstr * C)), StronglySorted key_le x <-> StronglySorted lex_le (map fst x)).
  { intros C x. induction x as [|c x IH]; cbn [map]; [split; constructor|].
    split; intros [H1 H2]%StronglySorted_inv; constructor; try (by apply IH).
    - rewrite Forall_fmap. exact H2.
    - rewrite Forall_fmap in H2. exact H2. }
  apply Hk in Hl. apply Hk. revert Hs Hl. generalize (map fst l) as a, (map fst l') as b.
  clear. intros a b Hs. induction Hs as [|x b a Hs IH|x b a Hs IH]; intros Hl; [done|..];
    apply StronglySorted_inv in Hl as [Hl Hx].
  - constructor; [auto|]. rewrite Forall_forall in *. intros y Hy. apply Hx.
    eapply elem_of_submseteq; [exact Hy|by apply sublist_submseteq].
  - auto.
Qed.

Lemma sort_perm {A} (l l' : list (jsstr * A)) :
  NoDup (map fst l) -> l ≡ₚ l' -> order_by key_le l = order_by key_le l'.
Proof.
  intros Hn Hp. apply sort_unique; [done|apply (order_by_sorted key_le)|].
  rewrite Hp. symmetry. unfold order_by. apply merge_sort_Permutation.
Qed.

Lemma omap_perm {A B} (f : A -> option B) (l l' : list A) : l ≡ₚ l' -> omap f l ≡ₚ omap f l'.
Proof. intros Hp. by rewrite Hp. Qed.

Lemma serial_object m :
  NoDup (map fst m) -> Forall (fun kv => serial kv.2) m -> serial (VObj m).
Proof.
  intros Hn Hm. unfold serial. cbn [to_json stringify]. fold text_of data_of.
  change (map (fun kv => (kv.1, if is_undefined kv.2 then None else Some (stringify kv.2))) m)
    with (map text_of m).
  change (map (fun kv => (kv.1, if is_undefined kv.2 then None else Some (to_json kv.2))) m)
    with (map data_of m).
  assert (Hp : order_by key_le m ≡ₚ m) by (unfold order_by; apply merge_sort_Permutation).
  replace (order_by key_le (map text_of m)) with (map text_of (order_by key_le m)).
  2: { symmetry. apply order_by_map; [apply _..|intros x y Hxy; exact Hxy|].
       intros x y Hx Hy H1 H2. by apply (key_le_tie m). }
  set (m' := order_by key_le m) in *.
  assert (Hm' : Forall (fun kv => serial kv.2) m') by by rewrite Hp.
  pose proof (serial_members m' Hm') as Hs.
  assert (Hd : omap data_property (map data_of m') ≡ₚ omap data_property (map data_of m))
    by by rewrite Hp.
  destruct (all_some (omap data_property (map data_of m))) as [xs|] eqn:Ex; cbn [mbind option_bind].
  - symmetry in Hd. destruct (all_some_perm _ _ _ Ex Hd) as (xs' & Ex' & Hx). rewrite Ex' in Hs.
    rewrite Hs. cbn [rbind]. cbn [sort_keys json_stringify]. do 4 f_equal.
    apply data_keys in Ex' as [Hsub _].
    rewrite (sort_unique _ (map (fun kv => (kv.1, sort_keys kv.2)) xs')).
    + by rewrite map_map.
    + rewrite map_map. cbn [fst]. apply data_keys in Ex as [Hsub' _].
      eapply sublist_NoDup; [exact Hn|exact Hsub'].
    + eapply (sorted_sublist m'); [|apply (order_by_sorted key_le)]. rewrite map_map. done.
    + by rewrite Hx.
  - destruct (all_some (omap data_property (map data_of m'))) as [xs'|] eqn:Ex'.
    + destruct (all_some_perm _ _ _ Ex' Hd) as (xs & E & _). congruence.
    + destruct Hs as [e ->]. by exists e.
Qed.

Lemma serial_value v : value_keys v = true -> serial v.
Proof.
  induction v as [| | | | | |l Hl|m Hm|] using value_tree_ind; intros Hk; try (by eexists); try done.
  - cbn [value_keys] in Hk. rewrite forallb_forall in Hk.
    assert (Hs : Forall serial l).
    { rewrite Forall_forall in *. intros v Hv. apply Hl; [done|]. by apply Hk, list_elem_of_In. }
    unfold serial. cbn [to_json stringify]. pose proof (serial_items l Hs) as H.
    destruct (all_some (map to_json l)) as [xs|]; cbn [mbind option_bind].
    + rewrite H. reflexivity.
    + destruct H as [e ->]. by exists e.
  - cbn [value_keys] in Hk. apply andb_true_iff in Hk as [Hn Hk]. rewrite forallb_forall in Hk.
    apply bool_decide_eq_true in Hn. apply serial_object; [done|].
    rewrite Forall_forall in *. intros kv Hv. apply Hm; [done|]. by apply Hk, list_elem_of_In.
Qed.

(** ** Reading it back *)

Lemma obj_set_perm {A} k (v : A) m : k ∉ map fst m -> obj_set k v m ≡ₚ (k, v) :: m.
Proof.
  induction m as [|[k' v'] m IH]; intros Hk; [done|]. cbn [map fst] in Hk.
  apply not_elem_of_cons in Hk as [Hne Hk]. cbn [obj_set]. rewrite decide_False by done.
  destruct (own_before k k'); [done|]. rewrite IH by done. by apply perm_swap.
Qed.

Lemma obj_build_perm {A} (m acc : list (jsstr * A)) :
  NoDup (map fst (acc ++ m)) -> obj_build acc m ≡ₚ acc ++ m.
Proof.
  revert acc. induction m as [|[k v] m IH]; intros acc Hn; [by rewrite app_nil_r|].
  change (obj_build acc ((k, v) :: m)) with (obj_build (obj_set k v acc) m).
  rewrite map_app in Hn. cbn [map fst] in Hn.
  assert (Hk : k ∉ map fst acc).
  { apply NoDup_app in Hn as (_ & Hd & _). intros Hk. apply (Hd k Hk). left. }
  rewrite IH.
  - rewrite obj_set_perm by done. cbn [app]. by rewrite Permutation_middle.
  - rewrite map_app. rewrite obj_set_perm by done. cbn [map fst app].
    by rewrite Permutation_middle.
Qed.

Lemma map_ext_Forall {A B} (f g : A -> B) l : Forall (fun x => f x = g x) l -> map f l = map g l.
Proof. induction 1 as [|x l Hx Hl IH]; [done|]. cbn. by rewrite Hx, IH. Qed.

Lemma fst_map {A B} (f : A -> B) (m : list (jsstr * A)) :
  map fst (map (fun kv => (kv.1, f kv.2)) m) = map fst m.
Proof. by rewrite map_map. Qed.

Lemma sort_keys_as_parsed v : distinct_keys v = true -> sort_keys (as_parsed v) = sort_keys v.
Proof.
  induction v as [| | | |l Hl|m Hm] using json_tree_ind; intros Hd; try done;
    cbn [distinct_keys as_parsed sort_keys] in *.
  - rewrite forallb_forall in Hd. f_equal. rewrite map_map. apply map_ext_Forall.
    rewrite Forall_forall in *. intros v Hv. apply Hl; [done|]. by apply Hd, list_elem_of_In.
  - apply andb_true_iff in Hd as [Hn Hd]. apply bool_decide_eq_true in Hn.
    rewrite forallb_forall in Hd. f_equal.
    assert (Hb : obj_build [] (map (fun kv => (kv.1, as_parsed kv.2)) m)
                 ≡ₚ map (fun kv => (kv.1, as_parsed kv.2)) m).
    { apply obj_build_perm. cbn [app]. by rewrite fst_map. }
    rewrite (sort_perm _ (map (fun kv => (kv.1, sort_keys kv.2)) m)); [done|..].
    + rewrite fst_map, Hb. by rewrite fst_map.
    + rewrite Hb, map_map. cbn [fst snd]. erewrite map_ext_Forall; [reflexivity|].
      rewrite Forall_forall in *. intros kv Hv. f_equal. apply Hm; [done|].
      by apply Hd, list_elem_of_In.
Qed.

Lemma sort_keys_idem v : distinct_keys v = true -> sort_keys (sort_keys v) = sort_keys v.
Proof.
  induction v as [| | | |l Hl|m Hm] using json_tree_ind; intros Hd; try done;
    cbn [distinct_keys sort_keys] in *.
  - rewrite forallb_forall in Hd. f_equal. rewrite map_map. apply map_ext_Forall.
    rewrite Forall_forall in *. intros v Hv. apply Hl; [done|]. by apply Hd, list_elem_of_In.
  - apply andb_true_iff in Hd as [Hn Hd]. apply bool_decide_eq_true in Hn.
    rewrite forallb_forall in Hd. f_equal.
    assert (Hb : order_by key_le (map (fun kv => (kv.1, sort_keys kv.2)) m)
                 ≡ₚ map (fun kv => (kv.1, sort_keys kv.2)) m).
    { unfold order_by. apply merge_sort_Permutation. }
    apply sort_perm.
    + rewrite fst_map, Hb. by rewrite fst_map.
    + rewrite Hb, map_map. cbn [fst snd]. erewrite map_ext_Forall; [reflexivity|].
      rewrite Forall_forall in *. intros kv Hv. f_equal. apply Hm; [done|].
      by apply Hd, list_elem_of_In.
Qed.

(** Sorting keeps an object's properties, so it keeps what holds of each of them. *)
Lemma forallb_sorted {A} (P : jsstr * A -> bool) m :
  forallb P (order_by key_le m) = forallb P m.
Proof.
  assert (Hp : order_by key_le m ≡ₚ m) by (unfold order_by; apply merge_sort_Permutation).
  apply eq_true_iff_eq. rewrite !forallb_forall.
  split; intros H x Hx; apply H; apply list_elem_of_In; apply list_elem_of_In in Hx;
    [by rewrite Hp|by rewrite Hp in Hx].
Qed.

Lemma forallb_map_eq {A B} (f : A -> B) (P : B -> bool) (Q : A -> bool) l :
  Forall (fun x => P (f x) = Q x) l -> forallb P (map f l) = forallb Q l.
Proof. induction 1 as [|x l Hx Hl IH]; [done|]. cbn. by rewrite Hx, IH. Qed.

Lemma sort_keys_representable v : representable (sort_keys v) = representable v.
Proof.
  induction v as [| | | |l Hl|m Hm] using json_tree_ind; try done; cbn [sort_keys representable].
  - by apply forallb_map_eq.
  - rewrite forallb_sorted. apply forallb_map_eq. eapply Forall_impl; [exact Hm|].
    intros [k v] E. cbn [fst snd] in *. by rewrite E.
Qed.

Lemma sort_keys_distinct v : distinct_keys v = true -> distinct_keys (sort_keys v) = true.
Proof.
  induction v as [| | | |l Hl|m Hm] using json_tree_ind; intros Hd; try done;
    cbn [distinct_keys sort_keys] in *.
  - rewrite forallb_forall in *. intros w Hw. apply in_map_iff in Hw as (v & <- & Hv).
    rewrite Forall_forall in Hl. apply Hl; [by apply list_elem_of_In|by apply Hd].
  - apply andb_true_iff in Hd as [Hn Hd]. apply bool_decide_eq_true in Hn.
    apply andb_true_iff. split.
    + apply bool_decide_eq_true. unfold order_by. rewrite merge_sort_Permutation. by rewrite fst_map.
    + rewrite forallb_sorted. rewrite forallb_forall in *. intros w Hw.
      apply in_map_iff in Hw as (v & <- & Hv). cbn [snd]. rewrite Forall_forall in Hm.
      apply Hm; [by apply list_elem_of_In|by apply Hd].
Qed.

(** The text of sorted data determines it. *)
Lemma sorted_text_inj v w :
  representable v = true -> representable w = true ->
  distinct_keys v = true -> distinct_keys w = true ->
  json_stringify (sort_keys v) = json_stringify (sort_keys w) -> sort_keys v = sort_keys w.
Proof.
  intros Rv Rw Dv Dw E.
  assert (H : as_parsed (sort_keys v) = as_parsed (sort_keys w)).
  { assert (H : json_parse (json_stringify (sort_keys v)) = json_parse (json_stringify (sort_keys w)))
      by by rewrite E.
    rewrite !json_roundtrip in H by by rewrite sort_keys_representable. by injection H. }
  apply (f_equal sort_keys) in H.
  by rewrite !sort_keys_as_parsed, !sort_keys_idem in H by auto using sort_keys_distinct.
Qed.

Lemma to_json_distinct v j : value_keys v = true -> to_json v = Some j -> distinct_keys j = true.
Proof.
  revert j. induction v as [| | | | | |l Hl|m Hm|] using value_tree_ind; intros j Hk Hj;
    try (by simplify_eq/=); cbn [value_keys to_json] in *.
  - apply bind_Some in Hj as (xs & E & [= <-]). apply all_some_map in E. cbn [distinct_keys].
    rewrite forallb_forall in *. intros x Hx.
    assert (Hin : Some x ∈ map to_json l)
      by (rewrite E; apply list_elem_of_fmap; exists x; by rewrite list_elem_of_In).
    apply list_elem_of_fmap in Hin as (v & Hv & Hin). rewrite Forall_forall in Hl.
    apply (Hl v Hin); [by apply Hk, list_elem_of_In|done].
  - change (map (fun kv => (kv.1, if is_undefined kv.2 then None else Some (to_json kv.2))) m)
      with (map data_of m) in Hj.
    apply bind_Some in Hj as (xs & E & [= <-]). apply data_keys in E as [Hsub Hx].
    apply andb_true_iff in Hk as [Hn Hk]. apply bool_decide_eq_true in Hn. cbn [distinct_keys].
    apply andb_true_iff. split; [apply bool_decide_eq_true; eapply sublist_NoDup; [exact Hn|exact Hsub]|].
    rewrite forallb_forall in *. intros kj Hkj%list_elem_of_In.
    destruct (Hx kj Hkj) as (v & Hv & Ej). rewrite Forall_forall in Hm.
    apply (Hm _ Hv); [|done]. by apply (Hk (kj.1, v)), list_elem_of_In.
Qed.

Lemma canonical_json v j :
  value_keys v = true -> to_json v = Some j ->
  canonical v = Ok (utf8_encode (json_stringify (sort_keys j))).
Proof.
  intros Hk Hj. pose proof (serial_value v Hk) as H. unfold serial in H. rewrite Hj in H.
  unfold canonical. by rewrite H.
Qed.

(** The bytes of two accepted values are equal exactly when their data is. *)
Lemma canonical_inj v w j k :
  value_keys v = true -> value_keys w = true -> to_json v = Some j -> to_json w = Some k ->
  representable j = true -> representable k = true ->
  canonical v = canonical w <-> sort_keys j = sort_keys k.
Proof.
  intros Hv Hw Ej Ek Rj Rk. rewrite (canonical_json v j), (canonical_json w k) by done.
  split; [|by intros ->]. intros [= E].
  apply utf8_encode_inj in E; try (apply stringify_well_formed; by rewrite sort_keys_representable).
  apply sorted_text_inj; [done|done|exact (to_json_distinct v j Hv Ej)|exact (to_json_distinct w k Hw Ek)|done].
Qed.

(** Canonical bytes commit to the value: for two JavaScript values whose objects have
    distinct keys and whose data is [j] and [k] ([undefined] properties dropped), [canonical]
    gives the UTF-8 text of the data with every object sorted by key, and the two byte strings
    are equal exactly when the data is equal up to the order of properties. *)
Theorem canonical_commits v w j k :
  value_keys v = true -> value_keys w = true -> to_json v = Some j -> to_json w = Some k ->
  representable j = true -> representable k = true ->
  canonical v = Ok (utf8_encode (json_stringify (sort_keys j))) /\
  (canonical v = canonical w <-> sort_keys j = sort_keys k).
Proof.
  intros Hv Hw Ej Ek Rj Rk. split; [by apply canonical_json|]. by apply canonical_inj.
Qed.

Lemma canonical_commits_witness :
  let v := VObj [(js "b", VNum 1); (js "x", VUndefined); (js "a", VStr [55296])] in
  let w := VObj [(js "a", VStr [55296]); (js "b", VNum 1)] in
  to_json v = Some (JObj [(js "b", JNum 1); (js "a", JStr [55296])]) /\ canonical v = canonical w.
Proof.
  split; [vm_compute; reflexivity|].
  apply (canonical_commits _ _ (JObj [(js "b", JNum 1); (js "a", JStr [55296])])
           (JObj [(js "a", JStr [55296]); (js "b", JNum 1)])); vm_compute; reflexivity.
Defined.

(** The header says the keys are sorted by code point; [Array.prototype.sort] compares
    UTF-16 code units, so U+1F600 (a surrogate pair) goes before U+FB01. *)
Lemma key_order_is_utf16 :
  let emoji := utf16_of 128512 in let ligature := utf16_of 64257 in
  sort_keys (JObj [(ligature, JNum 1); (emoji, JNum 2)]) = JObj [(emoji, JNum 2); (ligature, JNum 1)] /\
  ~ lex_le (scalars emoji) (scalars ligature).
Proof. split; [vm_compute; reflexivity|]. vm_compute. by intros []. Qed.

(** What is refused: a number that is not finite, and what has no JSON text. *)
Lemma canonical_refuses v : value_keys v = true -> to_json v = None -> exists e, canonical v = Throw e.
Proof.
  intros Hk Hj. pose proof (serial_value v Hk) as H. unfold serial in H. rewrite Hj in H.
  destruct H as [e H]. exists e. unfold canonical. by rewrite H.
Qed.
End Canonical.
