(* ===== verification/Bead.v ===== *)
(** Beads, the program's work items, and their canonical bytes
    (src/storage/bead-canonical.ts; the struct of src/types.ts).

    The result is that the bytes, and so the digest an attestation carries, commit to every
    field of the bead and to its labels as a multiset. *)
From S2P Require Import Prelude JsString Sql Platform Json JsonText JsConvert BlobRefStore Canonical.

Module Bead.
Import JsonText JsConvert.

(** [notes], [created_by] and [content_hash] are [None] when [undefined].  A label is a
    string by its type; the orchestrator does not check that, so it is a JSON value here. *)
Record Bead := mkBead {
  id : jsstr;
  title : jsstr;
  description : jsstr;
  state : jsstr;
  priority : number;
  labels : list Json;
  created_at : jsstr;
  updated_at : jsstr;
  created_by : option jsstr;
  repo : jsstr;
  notes : option jsstr;
  content_hash : option jsstr;
}.

Definition BEAD_CANONICAL_VERSION : Z := 1.

(** JSON data as a value of the language. *)
Fixpoint of_json (v : Json) : Canonical.Value :=
  match v with
  | JNull => Canonical.VNull
  | JBool b => Canonical.VBool b
  | JNum z => Canonical.VNum z
  | JStr s => Canonical.VStr s
  | JArr l => Canonical.VArr (map of_json l)
  | JObj m => Canonical.VObj (map (fun kv => (kv.1, of_json kv.2)) m)
  end.

Definition of_number (n : number) : Canonical.Value :=
  match n with Finite z => Canonical.VNum z | NonFinite t => Canonical.VNonFinite t end.
Definition of_option (o : option jsstr) : Canonical.Value :=
  match o with Some s => Canonical.VStr s | None => Canonical.VNull end.

(** [[...labels].sort()]: by the string of each element, which is not asked for when there
    is nothing to compare. *)
Definition sort_labels (l : list Json) : result conversion_error (list Json) :=
  if (length l <? 2)%nat then Ok l
  else
    let? keys := Canonical.collect (map String_of l) in
    Ok (map snd (sort_by (fun a b => unit_le a.1 b.1) (zip keys l))).

Inductive bead_error := Labels (e : conversion_error) | Canon (e : Canonical.canonical_error).

Definition body (bead : Bead) (sorted : list Json) : Canonical.Value :=
  Canonical.VObj [
    (js "v", Canonical.VNum BEAD_CANONICAL_VERSION);
    (js "type", Canonical.VStr (js "bead"));
    (js "id", Canonical.VStr (id bead));
    (js "title", Canonical.VStr (title bead));
    (js "description", Canonical.VStr (description bead));
    (js "state", Canonical.VStr (state bead));
    (js "priority", of_number (priority bead));
    (js "labels", Canonical.VArr (map of_json sorted));
    (js "created_at", Canonical.VStr (created_at bead));
    (js "updated_at", Canonical.VStr (updated_at bead));
    (js "created_by", of_option (created_by bead));
    (js "repo", Canonical.VStr (repo bead));
    (js "notes", of_option (notes bead))].

Definition beadCanonicalBytesV1 (bead : Bead) : result bead_error bytes :=
  match sort_labels (labels bead) with
  | Throw e => Throw (Labels e)
  | Ok sorted =>
      match Canonical.canonical (body bead sorted) with
      | Throw e => Throw (Canon e)
      | Ok bs => Ok bs
      end
  end.

Definition beadCanonicalDigestV1 `{Sha256} (bead : Bead) : result bead_error jsstr :=
  let? bs := beadCanonicalBytesV1 bead in Ok (BlobRefStore.digestBytes bs).

(** ** What the bytes commit to *)

(** A bead of the declared type: an integral priority, string labels. *)
Definition typed (b : Bead) (prio : Z) (ls : list jsstr) : Prop :=
  priority b = Finite prio /\ labels b = map JStr ls.

(** Its data, with the labels in order. *)
Definition opt_json (o : option jsstr) : Json := match o with Some s => JStr s | None => JNull end.
Definition body_json (b : Bead) (prio : Z) (sorted : list jsstr) : list (jsstr * Json) :=
  [(js "v", JNum 1); (js "type", JStr (js "bead")); (js "id", JStr (id b)); (js "title", JStr (title b));
   (js "description", JStr (description b)); (js "state", JStr (state b)); (js "priority", JNum prio);
   (js "labels", JArr (map JStr sorted)); (js "created_at", JStr (created_at b));
   (js "updated_at", JStr (updated_at b)); (js "created_by", opt_json (created_by b));
   (js "repo", JStr (repo b)); (js "notes", opt_json (notes b))].

(** Every unit is a UTF-16 unit and the number is safe: true of every JavaScript string. *)
Definition storable (b : Bead) (prio : Z) (ls : list jsstr) : bool :=
  representable (JObj (body_json b prio ls)).

Lemma collect_strings ls : Canonical.collect (map String_of (map JStr ls)) = Ok ls.
Proof. induction ls as [|s ls IH]; [done|]. cbn [map Canonical.collect]. by rewrite IH. Qed.

Lemma insert_by_map {A B} (leA : A -> A -> bool) (leB : B -> B -> bool) (f : A -> B)
    (Hle : forall x y, leB (f x) (f y) = leA x y) x l :
  insert_by leB (f x) (map f l) = map f (insert_by leA x l).
Proof.
  induction l as [|y l IH]; [done|]. cbn [map insert_by]. rewrite Hle, IH. by destruct (leA x y).
Qed.

Lemma sort_by_map {A B} (leA : A -> A -> bool) (leB : B -> B -> bool) (f : A -> B)
    (Hle : forall x y, leB (f x) (f y) = leA x y) l :
  sort_by leB (map f l) = map f (sort_by leA l).
Proof.
  induction l as [|x l IH]; [done|].
  change (insert_by leB (f x) (sort_by leB (map f l)) = map f (insert_by leA x (sort_by leA l))).
  rewrite IH. by apply insert_by_map.
Qed.

Lemma sort_labels_strings ls : sort_labels (map JStr ls) = Ok (map JStr (sort_by unit_le ls)).
Proof.
  unfold sort_labels. rewrite length_map. destruct (Nat.ltb_spec (length ls) 2) as [Hl|_].
  - destruct ls as [|a [|b ls]]; [done|done|cbn in Hl; lia].
  - rewrite collect_strings. cbn [rbind]. f_equal.
    assert (Hz : zip ls (map JStr ls) = map (fun s => (s, JStr s)) ls).
    { clear. induction ls as [|s ls IH]; [done|]. cbn. by rewrite IH. }
    rewrite Hz, (sort_by_map unit_le _ (fun s => (s, JStr s))) by done.
    rewrite map_map. done.
Qed.

Lemma sorted_labels_iff ls ls' : sort_by unit_le ls = sort_by unit_le ls' <-> ls ≡ₚ ls'.
Proof.
  apply sort_by_unique; [apply unit_le_total|apply unit_le_trans|apply unit_le_antisym].
Qed.

(** A field of sorted data. *)
Lemma assoc_sort_keys k m :
  NoDup (map fst m) ->
  match Canonical.sort_keys (JObj m) with JObj m' => assoc k m' | _ => None end =
  Canonical.sort_keys <$> assoc k m.
Proof.
  intros Hn. cbn [Canonical.sort_keys].
  set (l := map (fun kv => (kv.1, Canonical.sort_keys kv.2)) m).
  assert (Hl : map fst l = map fst m) by apply Canonical.fst_map.
  assert (Hnl : NoDup (map fst l)) by by rewrite Hl.
  assert (Hno : NoDup (map fst (order_by Canonical.key_le l))).
  { unfold order_by. by rewrite (merge_sort_Permutation _ l). }
  assert (Hiff : forall w, assoc k (order_by Canonical.key_le l) = Some w <-> (Canonical.sort_keys <$> assoc k m) = Some w).
  { intros w. rewrite <- elem_of_assoc by done. rewrite elem_of_order_by. unfold l.
    rewrite list_elem_of_fmap, fmap_Some. split.
    - intros ([k1 v1] & [= -> ->] & H). apply (elem_of_assoc k1 v1 m) in H; [|done]. eauto.
    - intros (v & Hv & ->). exists (k, v). split; [done|]. by apply elem_of_assoc. }
  destruct (assoc k (order_by _ l)) as [w|] eqn:E.
  - symmetry. by apply Hiff.
  - destruct (Canonical.sort_keys <$> assoc k m) as [w|] eqn:E'; [|done].
    by pose proof (proj2 (Hiff w) eq_refl).
Qed.

Lemma body_to_json b p ls ss :
  typed b p ls -> Canonical.to_json (body b (map JStr ss)) = Some (JObj (body_json b p ss)).
Proof.
  intros [Hp _]. unfold body, body_json, of_option, opt_json. rewrite Hp.
  assert (Hs : Canonical.all_some (map Canonical.to_json (map of_json (map JStr ss))) = Some (map JStr ss)).
  { induction ss as [|s ss IH]; [done|]. cbn [map of_json Canonical.to_json Canonical.all_some].
    by rewrite IH. }
  destruct (created_by b), (notes b); cbn -[js BEAD_CANONICAL_VERSION]; rewrite Hs; reflexivity.
Qed.

Lemma body_value_keys b ss : Canonical.value_keys (body b (map JStr ss)) = true.
Proof.
  unfold body, of_option, of_number. cbn [Canonical.value_keys map fst snd forallb].
  apply andb_true_iff. split; [by vm_compute|].
  assert (Hs : forallb Canonical.value_keys (map of_json (map JStr ss)) = true).
  { by induction ss. }
  rewrite Hs. by destruct (priority b), (created_by b), (notes b).
Qed.

Lemma storable_sorted b p ls ls' : ls ≡ₚ ls' -> storable b p ls = storable b p ls'.
Proof.
  intros Hp. unfold storable. cbn -[js unit16 MAX_SAFE_INTEGER].
  assert (Hf : forallb representable (map JStr ls) = forallb representable (map JStr ls')).
  { apply eq_iff_eq_true. rewrite !forallb_forall. setoid_rewrite <- list_elem_of_In.
    split; intros H x Hx; apply H; [by rewrite Hp|by rewrite <- Hp]. }
  by rewrite Hf.
Qed.

Lemma bead_bytes b p ls :
  typed b p ls -> beadCanonicalBytesV1 b =
    Ok (utf8_encode (json_stringify (Canonical.sort_keys (JObj (body_json b p (sort_by unit_le ls)))))).
Proof.
  intros H. pose proof (body_to_json b p ls (sort_by unit_le ls) H) as Hj. unfold beadCanonicalBytesV1.
  destruct H as [_ ->]. rewrite sort_labels_strings.
  by rewrite (Canonical.canonical_json _ _ (body_value_keys b _) Hj).
Qed.

(** The content of a bead, as far as its bytes go. *)
Record same_content (b b' : Bead) : Prop := {
  same_id : id b = id b';
  same_title : title b = title b';
  same_description : description b = description b';
  same_state : state b = state b';
  same_created_at : created_at b = created_at b';
  same_updated_at : updated_at b = updated_at b';
  same_created_by : created_by b = created_by b';
  same_repo : repo b = repo b';
  same_notes : notes b = notes b';
}.

Lemma opt_json_inj o o' : Canonical.sort_keys (opt_json o) = Canonical.sort_keys (opt_json o') -> o = o'.
Proof. destruct o, o'; cbn; congruence. Qed.

Lemma sort_keys_strings ss : map Canonical.sort_keys (map JStr ss) = map JStr ss.
Proof. rewrite map_map. by apply map_ext. Qed.

Lemma body_keys b p ss : NoDup (map fst (body_json b p ss)).
Proof. apply (bool_decide_unpack _). vm_compute. exact I. Qed.

Lemma body_json_inj b b' p p' ss ss' :
  Canonical.sort_keys (JObj (body_json b p ss)) = Canonical.sort_keys (JObj (body_json b' p' ss')) <->
  same_content b b' /\ p = p' /\ ss = ss'.
Proof.
  split.
  - intros E.
    assert (Hf : forall k, Canonical.sort_keys <$> assoc k (body_json b p ss) =
                           Canonical.sort_keys <$> assoc k (body_json b' p' ss')).
    { intros k. rewrite <- !assoc_sort_keys by apply body_keys. by rewrite E. }
    clear E. split_and!.
    + split; [pose proof (Hf (js "id")) as H|pose proof (Hf (js "title")) as H
             |pose proof (Hf (js "description")) as H|pose proof (Hf (js "state")) as H
             |pose proof (Hf (js "created_at")) as H|pose proof (Hf (js "updated_at")) as H
             |pose proof (Hf (js "created_by")) as H|pose proof (Hf (js "repo")) as H
             |pose proof (Hf (js "notes")) as H];
        cbn -[Canonical.sort_keys opt_json] in H; injection H as H;
        first [exact H|by apply opt_json_inj].
    + pose proof (Hf (js "priority")) as H. cbn -[Canonical.sort_keys] in H. by injection H.
    + pose proof (Hf (js "labels")) as H. cbn -[Canonical.sort_keys] in H. injection H as H.
      cbn [Canonical.sort_keys] in H. rewrite !sort_keys_strings in H.
      apply (list_fmap_eq_inj JStr) in H; [done|]. by intros x y [= ->].
  - intros ([H1 H2 H3 H4 H5 H6 H7 H8 H9] & -> & ->). unfold body_json.
    by rewrite H1, H2, H3, H4, H5, H6, H7, H8, H9.
Qed.

(** The canonical bytes of two beads of the declared type are equal exactly when the beads
    agree on every field and have the same labels up to order; so, unless SHA-256 collides on
    the two byte strings, the digest an attestation carries names one bead state. *)
Theorem bead_digest_commits `{Sha256} b b' p p' ls ls' :
  typed b p ls -> typed b' p' ls' -> storable b p ls = true -> storable b' p' ls' = true ->
  (forall x y, beadCanonicalBytesV1 b = Ok x -> beadCanonicalBytesV1 b' = Ok y ->
     sha256 x = sha256 y -> x = y) ->
  (beadCanonicalBytesV1 b = beadCanonicalBytesV1 b' <-> same_content b b' /\ p = p' /\ ls ≡ₚ ls') /\
  (beadCanonicalDigestV1 b = beadCanonicalDigestV1 b' <-> same_content b b' /\ p = p' /\ ls ≡ₚ ls').
Proof.
  intros Hb Hb' Sb Sb' Hcol.
  assert (Hbytes : beadCanonicalBytesV1 b = beadCanonicalBytesV1 b' <-> same_content b b' /\ p = p' /\ ls ≡ₚ ls').
  { rewrite (bead_bytes b p ls Hb), (bead_bytes b' p' ls' Hb'), <- sorted_labels_iff, <- body_json_inj.
    rewrite (storable_sorted b p ls (sort_by unit_le ls)) in Sb by (symmetry; apply sort_by_perm).
    rewrite (storable_sorted b' p' ls' (sort_by unit_le ls')) in Sb' by (symmetry; apply sort_by_perm).
    split; [|by intros ->]. intros E%(inj Ok).
    apply utf8_encode_inj in E; [|apply stringify_well_formed; by rewrite Canonical.sort_keys_representable..].
    apply Canonical.sorted_text_inj in E; [done|exact Sb|exact Sb'| |].
    - exact (Canonical.to_json_distinct _ _ (body_value_keys b _) (body_to_json b p ls _ Hb)).
    - exact (Canonical.to_json_distinct _ _ (body_value_keys b' _) (body_to_json b' p' ls' _ Hb')). }
  split; [done|]. rewrite <- Hbytes. unfold beadCanonicalDigestV1.
  pose proof (bead_bytes b p ls Hb) as E. pose proof (bead_bytes b' p' ls' Hb') as E'.
  revert Hcol. rewrite E, E'. generalize (utf8_encode (json_stringify (Canonical.sort_keys (JObj (body_json b p (sort_by unit_le ls)))))).
  generalize (utf8_encode (json_stringify (Canonical.sort_keys (JObj (body_json b' p' (sort_by unit_le ls')))))).
  intros y x Hcol. cbn [rbind]. split; [|by intros [= ->]].
  intros Hd%(inj Ok). f_equal. apply Hcol; [done|done|]. by apply (inj toHex) in Hd.
Qed.

Definition demo_bead (p : Z) (ls : list Json) : Bead :=
  mkBead (js "a1") (js "t") [] (js "open") (Finite p) ls (js "2026-01-01 00:00:00")
    (js "2026-01-01 00:00:00") None (js "r") None None.

Lemma bead_digest_commits_witness :
  let x := demo_bead 1 [JStr (js "b"); JStr (js "a")] in
  let y := demo_bead 1 [JStr (js "a"); JStr (js "b")] in
  labels x <> labels y /\
  @beadCanonicalDigestV1 demo_sha256 x = @beadCanonicalDigestV1 demo_sha256 y.
Proof.
  intros x y. split; [by vm_compute|].
  assert (Hcol : beadCanonicalBytesV1 x = beadCanonicalBytesV1 y) by (vm_compute; reflexivity).
  apply (@bead_digest_commits demo_sha256 x y 1 1 [js "b"; js "a"] [js "a"; js "b"]);
    [by split|by split|vm_compute; reflexivity|vm_compute; reflexivity| |].
  - intros u v Hu Hv _. congruence.
  - split; [by split|]. split; [done|]. apply Permutation_swap.
Defined.

(** What the encoder refuses, before anything is written: a priority that is not finite. *)
Lemma bead_refuses_nan b t ss :
  priority b = NonFinite t -> sort_labels (labels b) = Ok (map JStr ss) ->
  exists e, beadCanonicalBytesV1 b = Throw e.
Proof.
  intros Hp Hs. unfold beadCanonicalBytesV1. rewrite Hs.
  destruct (Canonical.canonical_refuses (body b (map JStr ss)) (body_value_keys b ss)) as [e ->]; [|eauto].
  unfold body. rewrite Hp. cbn -[js BEAD_CANONICAL_VERSION map].
  destruct (Canonical.all_some (map Canonical.to_json (map of_json (map JStr ss)))); [|done].
  by destruct (created_by b), (notes b).
Qed.
End Bead.
