(* ===== verification/BeadStore.v ===== *)
(** The per-repository bead store (src/beads.ts): a Durable Object with the tables beads and
    comments, called over JSON-RPC.

    The clock ([datetime('now')]), the random bytes of a generated id and whether SQLite
    enforces foreign keys are arguments.  What the object promises its clients is that a row
    is created once and keeps its identity: no operation removes it or changes its digest. *)
From S2P Require Import Prelude JsString Sql Platform Json JsonText JsConvert BlobRefStore Bead.

Module BeadStore.
Import JsonText JsConvert.

(** ** State *)

(** A row of beads; [labels] is the JSON text of the column. *)
Record row := mkRow {
  id : jsstr;
  title : jsstr;
  description : jsstr;
  state : jsstr;
  priority : number;
  labels : jsstr;
  created_at : jsstr;
  updated_at : jsstr;
  created_by : option jsstr;
  repo : jsstr;
  notes : option jsstr;
  content_hash : option jsstr;
}.

#[global] Instance row_eq_dec : EqDecision row.
Proof. solve_decision. Defined.

Record comment := mkComment {
  c_id : Z; bead_id : jsstr; c_body : jsstr; author : jsstr; c_created_at : jsstr;
}.

(** The AUTOINCREMENT counter is the last id given out; [fault] is the test seam. *)
Record T := mkT {
  beads : gmap (list Z) row;
  comments : list comment;
  last_comment : Z;
  fault : option bool;
}.
Definition empty : T := mkT ∅ [] 0 None.

Inductive exn :=
  | Injected
  | Convert (e : conversion_error)
  | Constraint (e : SqliteError)
  | NotNull
  | ForeignKey
  | BadLabels (e : json_error).

Definition lift {E A} (f : E -> exn) (r : result E A) : M T exn A := fun s =>
  match r with Ok a => (s, Ok a) | Throw e => (s, Throw (f e)) end.

(** ** The wire *)

(** [method] is matched by [===]; [params] is [None] when absent. *)
Record request := mkReq { r_id : Json; r_method : Json; r_params : option Json }.

Inductive response :=
  | okResponse (i : Json) (r : list (jsstr * Json))
  | unknown_method (i : Json)
  | bead_not_found (i : Json) (bead : jsstr)
  | failed (i : Json) (e : exn).

(** The [code] of an error response. *)
Definition error_code (r : response) : option Z :=
  match r with
  | okResponse _ _ => None
  | unknown_method _ => Some (-32601)
  | bead_not_found _ _ => Some 404
  | failed _ _ => Some (-32603)
  end.

(** The first property read of [req.params] throws when it is [null] or [undefined]. *)
Definition params_of (r : request) : M T exn Json :=
  match present (r_params r) with Some p => ret p | None => throw (Convert TypeError) end.

Definition str_or (p : Json) (k d : jsstr) : M T exn jsstr :=
  lift Convert (String_of (nullish (get_prop p k) (JStr d))).

(** ** Statements *)

Definition set_beads (b : gmap (list Z) row) (s : T) : T := mkT b (comments s) (last_comment s) (fault s).

(** A NaN is bound as NULL, which the NOT NULL column refuses. *)
Definition storable_priority (n : number) : bool := negb (bool_decide (n = NonFinite (js "NaN"))).

Definition insert_bead (r : row) : M T exn unit := fun s =>
  if storable_priority (priority r) then
    match insert_strict (id r) r (beads s) with
    | Ok b => (set_beads b s, Ok tt)
    | Throw e => (s, Throw (Constraint e))
    end
  else (s, Throw NotNull).

Definition update_bead (k : jsstr) (f : row -> row) : M T exn unit := fun s =>
  match beads s !! k with
  | Some r => if storable_priority (priority (f r)) then (set_beads (<[k := f r]> (beads s)) s, Ok tt)
              else (s, Throw NotNull)
  | None => (s, Ok tt)
  end.

Definition insert_comment (fk : bool) (b body who now : jsstr) : M T exn unit := fun s =>
  if fk && bool_decide (beads s !! b = None) then (s, Throw ForeignKey)
  else
    let n := last_comment s + 1 in
    (mkT (beads s) (comments s ++ [mkComment n b body who now]) n (fault s), Ok tt).

(** ORDER BY updated_at DESC *)
Definition updated_desc (a b : row) : Prop := text_le (updated_at b) (updated_at a).
#[global] Instance updated_desc_dec a b : Decision (updated_desc a b).
Proof. unfold updated_desc. apply _. Defined.

(** [LOWER(s) LIKE pattern] without ESCAPE; it compares code points. *)
Definition like_pattern (p : jsstr) : list BlobRefStore.Refs.pat :=
  map (fun c => if c =? 37 then BlobRefStore.Refs.AnyMany
                else if c =? 95 then BlobRefStore.Refs.AnyOne else BlobRefStore.Refs.Lit c) (scalars p).
Definition sql_like (s pattern : jsstr) : bool :=
  BlobRefStore.Refs.like (like_pattern pattern) (scalars s).

(** ** Reading rows *)

Definition number_json (n : number) : Json := match n with Finite z => JNum z | NonFinite _ => JNull end.

(** One entry of [cursorToBeads], as the response body shows it: [undefined] is left out. *)
Definition bead_record (r : row) : result exn Json :=
  match json_parse (labels r) with
  | Throw e => Throw (BadLabels e)
  | Ok ls =>
      let field (k : string) (o : option jsstr) := match o with Some v => [(js k, JStr v)] | None => [] end in
      Ok (JObj ([(js "id", JStr (id r)); (js "title", JStr (title r));
                 (js "description", JStr (description r)); (js "state", JStr (state r));
                 (js "priority", number_json (priority r)); (js "labels", ls);
                 (js "created_at", JStr (created_at r)); (js "updated_at", JStr (updated_at r))]
                ++ field "created_by"%string (created_by r) ++ [(js "repo", JStr (repo r))]
                ++ field "notes"%string (notes r) ++ field "content_hash"%string (content_hash r)))
  end.

Fixpoint cursorToBeads (l : list row) : result exn (list Json) :=
  match l with
  | [] => Ok []
  | r :: l => let? b := bead_record r in let? bs := cursorToBeads l in Ok (b :: bs)
  end.

Definition rows (l : T -> list row) : M T exn (list Json) := fun s => (s, cursorToBeads (l s)).

(** ** Operations *)

Definition generateId (rnd : bytes) : jsstr := toHex rnd.

Definition checkAndConsumeFault : M T exn bool := fun s =>
  match fault s with
  | Some true => (mkT (beads s) (comments s) (last_comment s) None, Ok true)
  | _ => (s, Ok false)
  end.

(** The row [create] inserts; [now] is the database clock at the statement. *)
Definition new_row (now : jsstr) (rnd : bytes) (p : Json) : M T exn row :=
  let k := default (generateId rnd) (nonempty_str (get_prop p (js "id"))) in
  let* t := str_or p (js "title") [] in
  let* d := str_or p (js "description") [] in
  let* prio := lift Convert (to_number (nullish (get_prop p (js "priority")) (JNum 0))) in
  let ls := json_stringify (nullish (get_prop p (js "labels")) (JArr [])) in
  let* by_ := lift Convert (opt_conv String_of (get_prop p (js "created_by"))) in
  let* rp := str_or p (js "repo") [] in
  ret (mkRow k t d (js "open") prio ls now now by_ rp None (nonempty_str (get_prop p (js "content_hash")))).

Definition create (now : jsstr) (rnd : bytes) (req : request) : M T exn response :=
  let* hit := checkAndConsumeFault in
  if hit : bool then throw Injected
  else
    let* p := params_of req in
    let* r := new_row now rnd p in
    do* insert_bead r in
    ret (okResponse (r_id req)
      [(js "id", JStr (id r)); (js "title", JStr (title r)); (js "state", JStr (js "open"));
       (js "content_hash", Bead.opt_json (content_hash r))]).

(** The column assignments of [update], for the properties that are there. *)
Record changes := mkChanges {
  ch_title : option jsstr; ch_description : option jsstr; ch_state : option jsstr;
  ch_priority : option number; ch_labels : option jsstr; ch_notes : option jsstr;
}.

Definition apply_changes (now : jsstr) (c : changes) (r : row) : row :=
  mkRow (id r) (default (title r) (ch_title c)) (default (description r) (ch_description c))
    (default (state r) (ch_state c)) (default (priority r) (ch_priority c))
    (default (labels r) (ch_labels c)) (created_at r) now (created_by r) (repo r)
    (match ch_notes c with Some n => Some n | None => notes r end) (content_hash r).

Definition read_changes (p : Json) : M T exn changes :=
  let* t := lift Convert (opt_conv String_of (get_prop p (js "title"))) in
  let* d := lift Convert (opt_conv String_of (get_prop p (js "description"))) in
  let* st := lift Convert (opt_conv String_of (get_prop p (js "state"))) in
  let* prio := lift Convert (opt_conv to_number (get_prop p (js "priority"))) in
  let* n := lift Convert (opt_conv String_of (get_prop p (js "notes"))) in
  ret (mkChanges t d st prio (json_stringify <$> present (get_prop p (js "labels"))) n).

Definition update (now : jsstr) (req : request) : M T exn response :=
  let* p := params_of req in
  let* k := str_or p (js "id") [] in
  let* c := read_changes p in
  do* update_bead k (apply_changes now c) in
  ret (okResponse (r_id req) [(js "updated", JBool true)]).

Definition search (req : request) : M T exn response :=
  let* p := params_of req in
  let* q := str_or p (js "query") [] in
  let pattern := [37] ++ to_lower q ++ [37] in
  let* found := rows (fun s => limit 50 (order_by updated_desc (select_where (fun _ r =>
    sql_like (to_lower (title r)) pattern || sql_like (to_lower (description r)) pattern) (beads s)))) in
  ret (okResponse (r_id req) [(js "beads", JArr found)]).

Definition list_beads (req : request) : M T exn response :=
  let* p := params_of req in
  let* st := lift Convert (opt_conv String_of (get_prop p (js "state"))) in
  let* found := rows (fun s => limit 100 (order_by updated_desc (select_where (fun _ r =>
    match st with Some v => bool_decide (state r = v) | None => true end) (beads s)))) in
  ret (okResponse (r_id req) [(js "beads", JArr found)]).

Definition get (req : request) : M T exn response :=
  let* p := params_of req in
  let* k := str_or p (js "id") [] in
  let* found := rows (fun s => select_where (fun k' _ => bool_decide (k' = k)) (beads s)) in
  match found with
  | [] => ret (bead_not_found (r_id req) k)
  | b :: _ => ret (okResponse (r_id req) [(js "bead", b)])
  end.

Definition close (now : jsstr) (req : request) : M T exn response :=
  let* p := params_of req in
  let* k := str_or p (js "id") [] in
  do* update_bead k (apply_changes now (mkChanges None None (Some (js "done")) None None None)) in
  ret (okResponse (r_id req) [(js "closed", JBool true)]).

Definition addComment (fk : bool) (now : jsstr) (req : request) : M T exn response :=
  let* p := params_of req in
  let* k := str_or p (js "id") [] in
  let* body := str_or p (js "body") [] in
  let* who := str_or p (js "author") (js "unknown") in
  do* insert_comment fk k body who now in
  do* update_bead k (apply_changes now (mkChanges None None None None None None)) in
  ret (okResponse (r_id req) [(js "commented", JBool true)]).

(** ** Dispatch *)

Definition handler (fk : bool) (now : jsstr) (rnd : bytes) (req : request) : M T exn response :=
  let named (n : string) := match r_method req with JStr m => bool_decide (m = js n) | _ => false end in
  if named "bead_create"%string then create now rnd req
  else if named "bead_update"%string then update now req
  else if named "bead_search"%string then search req
  else if named "bead_list"%string then list_beads req
  else if named "bead_get"%string then get req
  else if named "bead_close"%string then close now req
  else if named "bead_comment"%string then addComment fk now req
  else ret (unknown_method (r_id req)).

Definition dispatch (fk : bool) (now : jsstr) (rnd : bytes) (req : request) (s : T) : T * response :=
  match handler fk now rnd req s with
  | (s', Ok r) => (s', r)
  | (s', Throw e) => (s', failed (r_id req) e)
  end.

(** ** A row keeps its identity *)

(** Rows are filed under their id, hold no NaN, and comment ids are 1, 2, 3, ... *)
Record wf (s : T) : Prop := {
  wf_id : forall k r, beads s !! k = Some r -> id r = k;
  wf_priority : forall k r, beads s !! k = Some r -> storable_priority (priority r) = true;
  wf_comments : map c_id (comments s) = map Z.of_nat (seq 1 (length (comments s)));
  wf_last : last_comment s = Z.of_nat (length (comments s));
}.

Definition same_identity (r r' : row) : Prop :=
  id r' = id r /\ created_at r' = created_at r /\ created_by r' = created_by r /\
  repo r' = repo r /\ content_hash r' = content_hash r.

(** What a step may do to the rows: add some, change the columns outside the identity of a
    row whose id is in [named]; and to the comments: append. *)
Record grows (named : jsstr -> Prop) (s s' : T) : Prop := {
  grows_wf : wf s -> wf s';
  grows_row : forall k r, beads s !! k = Some r ->
    exists r', beads s' !! k = Some r' /\ same_identity r r' /\ (r' <> r -> named k);
  grows_comments : comments s `prefix_of` comments s';
}.

#[local] Instance grows_preorder named : PreOrder (grows named).
Proof.
  split.
  - intros s. split; [done| |done]. intros k r H. exists r. by repeat split.
  - intros s t u [W1 H1 P1] [W2 H2 P2]. split; [auto| |by etransitivity].
    intros k r H. destruct (H1 k r H) as (r1 & E1 & (a1 & b1 & c1 & d1 & e1) & N1).
    destruct (H2 k r1 E1) as (r2 & E2 & (a2 & b2 & c2 & d2 & e2) & N2). exists r2. split; [done|].
    split; [repeat split; congruence|]. intros Hne.
    destruct (decide (r1 = r)) as [-> |Hn]; [by apply N2|by apply N1].
Qed.

Section effects.
Context (named : jsstr -> Prop).

Lemma lift_grows {E A} (f : E -> exn) (r : result E A) : keeps (grows named) (lift f r).
Proof. intros s. unfold lift. by destruct r. Qed.
Hint Resolve lift_grows : keeps.

Lemma params_grows r : keeps (grows named) (params_of r).
Proof. unfold params_of. walk. Qed.
Lemma str_grows p k d : keeps (grows named) (str_or p k d).
Proof. unfold str_or. walk. Qed.
Lemma rows_grows l : keeps (grows named) (rows l).
Proof. intros s. unfold rows. reflexivity. Qed.
Lemma fault_grows : keeps (grows named) checkAndConsumeFault.
Proof.
  intros s. unfold checkAndConsumeFault. destruct (fault s) as [[]|]; try reflexivity.
  split; [by intros []| |done]. intros k r H. exists r. by repeat split.
Qed.
Hint Resolve params_grows str_grows rows_grows fault_grows : keeps.

Lemma insert_bead_grows r : keeps (grows named) (insert_bead r).
Proof.
  intros s. unfold insert_bead, insert_strict. destruct (storable_priority _) eqn:Ep; [|reflexivity].
  destruct (beads s !! id r) as [r0|] eqn:E; [reflexivity|]. cbn [fst].
  split; [|intros k r0 H; exists r0; split; [|by repeat split]|done].
  - intros [W1 W2 W3 W4]. split; [| |done|done]; cbn [beads set_beads]; intros k r0 H;
      destruct (decide (k = id r)) as [-> |Hk]; rewrite ?lookup_insert_eq, ?lookup_insert_ne in H by done;
      [by injection H as <-|by apply W1|by injection H as <-|by apply (W2 k)].
  - cbn [beads set_beads]. by rewrite lookup_insert_ne by congruence.
Qed.

Lemma update_bead_grows k f :
  named k -> (forall r, same_identity r (f r)) -> keeps (grows named) (update_bead k f).
Proof.
  intros Hk Hf s. unfold update_bead. destruct (beads s !! k) as [r|] eqn:E; [|reflexivity].
  destruct (storable_priority _) eqn:Ep; [|reflexivity]. cbn [fst]. split; [| |done].
  - intros [W1 W2 W3 W4]. split; [| |done|done]; cbn [beads set_beads]; intros k' r0 H;
      destruct (decide (k' = k)) as [-> |Hk']; rewrite ?lookup_insert_eq, ?lookup_insert_ne in H by done.
    + injection H as <-. destruct (Hf r) as [-> _]. by apply W1.
    + by apply W1.
    + by injection H as <-.
    + by apply (W2 k').
  - intros k' r0 H. cbn [beads set_beads]. destruct (decide (k' = k)) as [-> |Hk'].
    + assert (r0 = r) as -> by congruence. exists (f r). by rewrite lookup_insert_eq.
    + exists r0. rewrite lookup_insert_ne by done. by repeat split.
Qed.

Lemma apply_changes_identity now c r : same_identity r (apply_changes now c r).
Proof. by repeat split. Qed.
Hint Resolve update_bead_grows insert_bead_grows apply_changes_identity : keeps.

Lemma insert_comment_grows fk b body who now : keeps (grows named) (insert_comment fk b body who now).
Proof.
  intros s. unfold insert_comment. destruct (fk && _); [reflexivity|]. cbn [fst].
  split; [|intros k r H; exists r; by repeat split|by eexists]. intros [W1 W2 W3 W4]. split; [done|done| |]; cbn [comments last_comment].
  - rewrite map_app, W3, length_app, Nat.add_1_r, seq_S, map_app. cbn [map c_id]. do 2 f_equal. lia.
  - rewrite length_app. cbn [length]. lia.
Qed.
Hint Resolve insert_comment_grows : keeps.

Lemma create_grows now rnd req : keeps (grows named) (create now rnd req).
Proof. unfold create, new_row. walk. Qed.
Lemma read_changes_grows p : keeps (grows named) (read_changes p).
Proof. unfold read_changes. walk. Qed.
Lemma search_grows req : keeps (grows named) (search req).
Proof. unfold search. walk. Qed.
Lemma list_grows req : keeps (grows named) (list_beads req).
Proof. unfold list_beads. walk. Qed.
Lemma get_grows req : keeps (grows named) (get req).
Proof. unfold get. walk. Qed.
End effects.
#[local] Hint Resolve lift_grows params_grows str_grows rows_grows fault_grows insert_comment_grows
  update_bead_grows insert_bead_grows apply_changes_identity create_grows read_changes_grows
  search_grows list_grows get_grows : keeps.

(** The bead a request names: [String(params.id ?? "")]. *)
Definition names (req : request) (k : jsstr) : Prop :=
  exists p, present (r_params req) = Some p /\ String_of (nullish (get_prop p (js "id")) (JStr [])) = Ok k.

(** A method that asks for the id first touches only that bead. *)
Lemma named_grows req (f : Json -> jsstr -> M T exn response) :
  (forall p k, names req k -> keeps (grows (names req)) (f p k)) ->
  keeps (grows (names req)) (let* p := params_of req in let* k := str_or p (js "id") [] in f p k).
Proof.
  intros Hf s. unfold params_of. destruct (present (r_params req)) as [p|] eqn:Ep; [|reflexivity].
  unfold str_or, lift. mrun.
  destruct (String_of (nullish (get_prop p (js "id")) (JStr []))) as [k|] eqn:Ek; [|reflexivity].
  apply Hf. by exists p.
Qed.

Lemma handler_grows fk now rnd req : keeps (grows (names req)) (handler fk now rnd req).
Proof.
  unfold handler. walk.
  - apply named_grows. intros p k Hk. walk.
  - apply named_grows. intros p k Hk. walk.
  - apply named_grows. intros p k Hk. walk.
Qed.

(** Every request, whatever it holds and however it ends, keeps the tables well formed; a row,
    once there, is there for ever with the same id, creation data, repository and content
    digest; only the row the request names may change in its other columns; and comments are
    only ever appended. *)
Theorem bead_rows_persist fk now rnd req s s' resp :
  dispatch fk now rnd req s = (s', resp) ->
  (wf s -> wf s') /\
  (forall k r, beads s !! k = Some r -> exists r', beads s' !! k = Some r' /\ same_identity r r' /\
     (~ names req k -> r' = r)) /\
  comments s `prefix_of` comments s'.
Proof.
  intros E. destruct (handler_grows fk now rnd req s) as [H1 H2 H3].
  assert (Es : (handler fk now rnd req s).1 = s').
  { unfold dispatch in E. destruct (handler fk now rnd req s) as [s1 [r|e]]; by injection E as <- _. }
  rewrite Es in *. split; [done|]. split; [|done].
  intros k r Hk. destruct (H2 k r Hk) as (r' & Hr & Hi & Hn). exists r'. split; [done|]. split; [done|].
  intros Hnot. destruct (decide (r' = r)) as [?|Hne]; [done|]. by apply Hn in Hne.
Qed.

Definition create_request (i p : Json) : request := mkReq i (JStr (js "bead_create")) (Some p).
Definition get_request (i : Json) (k : jsstr) : request :=
  mkReq i (JStr (js "bead_get")) (Some (JObj [(js "id", JStr k)])).

(** The labels a request gives. *)
Definition given_labels (p : Json) : Json := nullish (get_prop p (js "labels")) (JArr []).

(** The record a reader sees for a row created from [p]. *)
Definition seen (r : row) (ls : Json) : list (jsstr * Json) :=
  let field (k : string) (o : option jsstr) := match o with Some v => [(js k, JStr v)] | None => [] end in
  [(js "id", JStr (id r)); (js "title", JStr (title r)); (js "description", JStr (description r));
   (js "state", JStr (state r)); (js "priority", number_json (priority r)); (js "labels", ls);
   (js "created_at", JStr (created_at r)); (js "updated_at", JStr (updated_at r))]
  ++ field "created_by"%string (created_by r) ++ [(js "repo", JStr (repo r))]
  ++ field "notes"%string (notes r) ++ field "content_hash"%string (content_hash r).

Lemma new_row_labels now rnd p s s' r :
  new_row now rnd p s = (s', Ok r) -> s' = s /\ labels r = json_stringify (given_labels p).
Proof.
  unfold new_row, str_or, lift. mrun.
  repeat match goal with |- context [match ?x with Ok _ => _ | Throw _ => _ end] => destruct x; [|done] end.
  by intros [= <- <-].
Qed.

(** A successful [bead_create] inserted the row its parameters describe. *)
Lemma create_Ok fk now rnd i p s s' j fields :
  dispatch fk now rnd (create_request i p) s = (s', okResponse j fields) ->
  exists s1 r, present (Some p) = Some p /\ new_row now rnd p s1 = (s1, Ok r) /\ beads s !! id r = None /\
    beads s' = <[id r := r]> (beads s) /\
    fields = [(js "id", JStr (id r)); (js "title", JStr (title r)); (js "state", JStr (js "open"));
              (js "content_hash", Bead.opt_json (content_hash r))].
Proof.
  unfold dispatch. change (handler fk now rnd (create_request i p)) with (create now rnd (create_request i p)).
  destruct (create _ _ _ s) as [s2 [resp|e]] eqn:E; [|done]. intros [= <- ->].
  unfold create in E. apply bind_Ok in E as (s1 & hit & Hf & E).
  assert (Hb : beads s1 = beads s).
  { unfold checkAndConsumeFault in Hf. destruct (fault s) as [[]|]; by injection Hf as <- _. }
  destruct hit; [done|]. apply bind_Ok in E as (s3 & p' & Hp & E).
  unfold params_of, create_request in Hp. cbn [r_params] in Hp.
  assert (Hpp : present (Some p) = Some p) by by destruct p. rewrite Hpp in Hp. injection Hp as <- <-.
  apply bind_Ok in E as (s4 & r & Hr & E). destruct (new_row_labels _ _ _ _ _ _ Hr) as [-> _].
  apply bind_Ok in E as (s5 & [] & Hi & E). injection E as <- <- <-.
  unfold insert_bead, insert_strict in Hi. destruct (storable_priority _); [|done].
  destruct (beads s1 !! id r) eqn:El; [done|]. injection Hi as <-. exists s1, r. rewrite <- Hb. by split_and!.
Qed.

(** A [bead_create] that answers with an error wrote no row. *)
Lemma create_failed fk now rnd req s s' r :
  r_method req = JStr (js "bead_create") -> dispatch fk now rnd req s = (s', r) ->
  error_code r <> None -> beads s' = beads s.
Proof.
  intros Hm. unfold dispatch. assert (Hh : handler fk now rnd req = create now rnd req) by (unfold handler; by rewrite Hm).
  rewrite Hh. clear Hh.
  assert (Hf : forall x s1 r1, checkAndConsumeFault x = (s1, r1) -> beads s1 = beads x).
  { intros x s1 r1. unfold checkAndConsumeFault. by destruct (fault x) as [[]|]; intros [= <- _]. }
  assert (Hp : forall x s1 r1, params_of req x = (s1, r1) -> s1 = x).
  { intros x s1 r1. unfold params_of. by destruct (present _); intros [= <- _]. }
  assert (Hr : forall p, keeps eq (new_row now rnd p)).
  { intros p. unfold new_row, str_or. walk; intros x; unfold lift; by destruct (_ : result conversion_error _). }
  destruct (create now rnd req s) as [s2 [resp|e]] eqn:E; intros [= <- <-] He.
  - unfold create in E. apply bind_Ok in E as (s1 & [] & _ & E); [done|].
    apply bind_Ok in E as (s3 & p & _ & E). apply bind_Ok in E as (s4 & r & _ & E).
    apply bind_Ok in E as (s5 & [] & _ & E). by injection E as <- <-.
  - unfold create in E. apply bind_Throw in E as [E|(s1 & hit & E1 & E)]; [by eapply Hf|].
    rewrite <- (Hf _ _ _ E1). destruct hit; [by injection E as <- _|].
    apply bind_Throw in E as [E|(s3 & p & E2 & E)]; [by rewrite (Hp _ _ _ E)|].
    rewrite <- (Hp _ _ _ E2).
    apply bind_Throw in E as [E|(s4 & r & E3 & E)]; [specialize (Hr p s3); rewrite E in Hr; cbn [fst] in Hr; by subst|].
    specialize (Hr p s3). rewrite E3 in Hr. cbn [fst] in Hr. subst s4.
    apply bind_Throw in E as [E|(s5 & [] & _ & E)]; [|done].
    unfold insert_bead in E. destruct (storable_priority _); [|by injection E as <- _].
    destruct (insert_strict _ _ _); [done|by injection E as <- _].
Qed.

Lemma new_row_keys now rnd p s s' r : new_row now rnd p s = (s', Ok r) ->
  id r = default (generateId rnd) (nonempty_str (get_prop p (js "id"))) /\
  content_hash r = nonempty_str (get_prop p (js "content_hash")) /\
  created_at r = now /\ updated_at r = now.
Proof.
  unfold new_row, str_or, lift. mrun.
  repeat match goal with |- context [match ?x with Ok _ => _ | Throw _ => _ end] => destruct x; [|done] end.
  by intros [= <- <-].
Qed.

(** A bead created is the bead read: when its id is free, [bead_create] inserts exactly the row
    the parameters describe and [bead_get] answers it, the labels as JSON would re-read them;
    when the id is taken, or the priority is NaN, it fails and nothing is written. *)
Theorem bead_create_then_get fk now now' rnd rnd' i p s r :
  fault s = None -> p <> JNull -> new_row now rnd p s = (s, Ok r) ->
  representable (given_labels p) = true ->
  (beads s !! id r = None -> storable_priority (priority r) = true ->
     exists s', dispatch fk now rnd (create_request i p) s =
         (s', okResponse i [(js "id", JStr (id r)); (js "title", JStr (title r));
                            (js "state", JStr (js "open")); (js "content_hash", Bead.opt_json (content_hash r))]) /\
       beads s' = <[id r := r]> (beads s) /\
       dispatch fk now' rnd' (get_request i (id r)) s' =
         (s', okResponse i [(js "bead", JObj (seen r (as_parsed (given_labels p))))])) /\
  (is_Some (beads s !! id r) \/ storable_priority (priority r) = false ->
     exists e, dispatch fk now rnd (create_request i p) s = (s, failed i e)).
Proof.
  intros Hf Hp Hr Hl. destruct (new_row_labels _ _ _ _ _ _ Hr) as [_ Hlab].
  assert (Hc : handler fk now rnd (create_request i p) s =
    (let* _ := insert_bead r in ret (okResponse i
      [(js "id", JStr (id r)); (js "title", JStr (title r)); (js "state", JStr (js "open"));
       (js "content_hash", Bead.opt_json (content_hash r))])) s).
  { unfold handler, create_request. cbn [r_method r_params r_id].
    rewrite (bool_decide_eq_true_2 (_ = _)) by done. unfold create, checkAndConsumeFault, params_of.
    cbn [r_params r_id]. unfold bind at 1. rewrite Hf. unfold bind at 1.
    assert (Hpp : present (Some p) = Some p) by by destruct p. rewrite Hpp. cbn [ret].
    unfold ret at 1. unfold bind at 1. rewrite Hr. done. }
  split.
  - intros Hn Hs. eexists. split_and!.
    + unfold dispatch. rewrite Hc. unfold bind, insert_bead, insert_strict. rewrite Hs, Hn. reflexivity.
    + done.
    + unfold dispatch. change (handler fk now' rnd' (get_request i (id r))) with (get (get_request i (id r))).
      unfold get_request, get, params_of, str_or, lift, rows.
      assert (Hg : get_prop (JObj [(js "id", JStr (id r))]) (js "id") = Some (JStr (id r)))
        by (cbn [get_prop assoc]; by rewrite decide_True).
      cbn [r_params r_id present]. unfold bind, ret. rewrite Hg. cbn -[js bead_record select_where]. rewrite select_key, lookup_insert_eq.
      unfold cursorToBeads, bead_record. rewrite Hlab, json_roundtrip by done. done.
  - intros Hbad. unfold dispatch. rewrite Hc. unfold insert_bead, insert_strict, bind.
    destruct Hbad as [[r0 ->]| ->]; [|by eexists]. destruct (storable_priority _); by eexists.
Qed.

Definition demo_params : Json :=
  JObj [(js "id", JStr (js "b1")); (js "title", JStr (js "t")); (js "labels", JArr [JStr (js "x")]);
        (js "content_hash", JStr (js "d"))].
Definition demo_now : jsstr := js "2026-01-01 00:00:00".
Definition demo_row : row :=
  mkRow (js "b1") (js "t") [] (js "open") (Finite 0) (js "[" ++ quote (js "x") ++ js "]") demo_now demo_now
    None [] None (Some (js "d")).
Definition demo_store : T := mkT {[js "b1" := demo_row]} [] 0 None.

Lemma bead_rows_persist_witness :
  exists s' resp, dispatch true (js "later") [] (mkReq JNull (JStr (js "bead_close")) (Some demo_params)) demo_store
      = (s', resp) /\
    exists r', beads s' !! js "b1" = Some r' /\ state r' = js "done" /\ content_hash r' = Some (js "d").
Proof.
  destruct (dispatch true (js "later") [] (mkReq JNull (JStr (js "bead_close")) (Some demo_params)) demo_store)
    as [s' resp] eqn:E.
  exists s', resp. split; [done|].
  destruct (bead_rows_persist _ _ _ _ _ _ _ E) as (_ & Hr & _).
  destruct (Hr (js "b1") demo_row) as (r' & Hr' & (_ & _ & _ & _ & Hc) & _); [by vm_compute|].
  exists r'. split; [done|]. split; [|by rewrite Hc].
  assert (Hs : state <$> beads (dispatch true (js "later") []
    (mkReq JNull (JStr (js "bead_close")) (Some demo_params)) demo_store).1 !! js "b1" = Some (js "done"))
    by (vm_compute; reflexivity).
  rewrite E in Hs. cbn [fst] in Hs. rewrite Hr' in Hs. by injection Hs.
Defined.

Lemma bead_create_then_get_witness :
  beads empty !! js "b1" = None /\
  exists s', dispatch true demo_now [] (create_request JNull demo_params) empty =
      (s', okResponse JNull [(js "id", JStr (js "b1")); (js "title", JStr (js "t"));
                             (js "state", JStr (js "open")); (js "content_hash", JStr (js "d"))]) /\
    beads s' !! js "b1" = Some demo_row.
Proof.
  split; [done|].
  destruct (bead_create_then_get true demo_now demo_now [] [] JNull demo_params empty demo_row) as [H _];
    [done|done|vm_compute; reflexivity|vm_compute; reflexivity|].
  destruct H as (s' & E & Hb & _); [done|done|]. exists s'. split; [exact E|].
  rewrite Hb. apply lookup_insert_eq.
Defined.
End BeadStore.
