(* ===== verification/TypedCid.v ===== *)
(** Typed content identifiers (src/storage/typed-cid.ts): a codec byte, a fingerprint of the
    port signature and the digest of canonical bytes, with their hex text and the two ways
    of referring to a chunk. *)
From S2P Require Import Prelude JsString Platform Json JsonText Canonical BlobRefStore.

Module TypedCid.

Definition FINGERPRINT_BYTES : nat := 8.
Definition CONTENT_HASH_BYTES : nat := 32.
Definition CID_BYTES : nat := 1 + FINGERPRINT_BYTES + CONTENT_HASH_BYTES.
Definition CID_HEX_CHARS : nat := CID_BYTES * 2.

Record Cid := mkCid { codec : Z; typeFingerprint : bytes; contentHash : bytes }.
Record InterfaceRef := mkRef { ref_codec : Z; ref_fingerprint : bytes }.
Record PortSignature := mkPorts { inputs : list jsstr; outputs : list jsstr }.
#[global] Instance Cid_eq_dec : EqDecision Cid.
Proof. solve_decision. Defined.

Inductive cid_error :=
  | BadLength (len : nat)
  | NonHex
  | OddLength (len : nat)
  | NotHexPair
  | Canon (e : Canonical.canonical_error).

(** [parseInt(pair, 16)] of two hex digits; no caller passes another pair. *)
Definition hex_pair (a b : Z) : option Z :=
  x ← JsonText.hex_value a; y ← JsonText.hex_value b; Some (x * 16 + y).

Fixpoint hex_pairs (hex : jsstr) : result cid_error bytes :=
  match hex with
  | a :: b :: rest =>
      match hex_pair a b with
      | Some v => let? bs := hex_pairs rest in Ok (z2b v :: bs)
      | None => Throw NotHexPair
      end
  | _ => Ok []
  end.

Definition hexToBytes (hex : jsstr) : result cid_error bytes :=
  if negb (Nat.even (length hex)) then Throw (OddLength (length hex)) else hex_pairs hex.

(** [n.toString(16)] of a non-negative integer, with fuel for the digits. *)
Fixpoint hex_of (fuel : nat) (n : Z) : jsstr :=
  match fuel with
  | O => []
  | S fuel => if n <? 16 then [hex_digit n] else hex_of fuel (n / 16) ++ [hex_digit (n mod 16)]
  end.
Definition pad2 (s : jsstr) : jsstr := replicate (2 - length s) 48 ++ s.
Definition codec_hex (c : Z) : jsstr := pad2 (hex_of (S (Z.to_nat (Z.log2 c))) c).

Definition encodeCidHex (cid : Cid) : jsstr :=
  codec_hex (codec cid) ++ toHex (typeFingerprint cid) ++ toHex (contentHash cid).

(** [/^[0-9a-f]+$/i] *)
Definition is_hex (hex : jsstr) : bool :=
  negb (bool_decide (hex = [])) && forallb (fun c => bool_decide (is_Some (JsonText.hex_value c))) hex.

Definition decodeCidHex (hex : jsstr) : result cid_error Cid :=
  if negb (bool_decide (length hex = CID_HEX_CHARS)) then Throw (BadLength (length hex))
  else if negb (is_hex hex) then Throw NonHex
  else
    match hex_pairs (take 2 hex) with
    | Ok [c] =>
        let? fp := hexToBytes (take (FINGERPRINT_BYTES * 2) (drop 2 hex)) in
        let? h := hexToBytes (drop (2 + FINGERPRINT_BYTES * 2) hex) in
        Ok (mkCid (b2z c) fp h)
    | Ok _ => Throw NotHexPair
    | Throw e => Throw e
    end.

Section construction.
Context `{Sha256}.

Definition signature_value (sig : PortSignature) : Canonical.Value :=
  Canonical.VObj [(js "inputs", Canonical.VArr (map Canonical.VStr (inputs sig)));
                  (js "outputs", Canonical.VArr (map Canonical.VStr (outputs sig)))].

Definition fingerprintOf (sig : PortSignature) : result cid_error bytes :=
  match Canonical.canonical (signature_value sig) with
  | Ok bs => Ok (take FINGERPRINT_BYTES (sha256 bs))
  | Throw e => Throw (Canon e)
  end.

Definition digestTyped (value : Canonical.Value) (c : Z) (sig : PortSignature) : result cid_error Cid :=
  match Canonical.canonical value with
  | Throw e => Throw (Canon e)
  | Ok bs =>
      let? fp := fingerprintOf sig in
      let? h := hexToBytes (BlobRefStore.digestBytes bs) in
      Ok (mkCid c fp h)
  end.
End construction.

Definition asInterfaceRef (cid : Cid) : InterfaceRef := mkRef (codec cid) (typeFingerprint cid).

Fixpoint bytes_equal_from (a b : bytes) : bool :=
  match a, b with
  | [], _ => true
  | x :: a, y :: b => if negb (Byte.eqb x y) then false else bytes_equal_from a b
  | _ :: _, [] => false
  end.
Definition bytesEqual (a b : bytes) : bool :=
  if negb (length a =? length b)%nat then false else bytes_equal_from a b.

Definition cidEqual (a b : Cid) : bool :=
  (codec a =? codec b) && bytesEqual (typeFingerprint a) (typeFingerprint b) &&
  bytesEqual (contentHash a) (contentHash b).

Definition interfaceRefMatches (ref : InterfaceRef) (cid : Cid) : bool :=
  (ref_codec ref =? codec cid) && bytesEqual (ref_fingerprint ref) (typeFingerprint cid).

(** ** Hex both ways *)

Definition wf (c : Cid) : Prop :=
  0 <= codec c < 256 /\ length (typeFingerprint c) = FINGERPRINT_BYTES /\
  length (contentHash c) = CONTENT_HASH_BYTES.

Definition lower_hex (c : Z) : Z := if (65 <=? c) && (c <=? 70) then c + 32 else c.

Lemma hex_pair_byte b : hex_pair (hex_digit (b2z b / 16)) (hex_digit (b2z b mod 16)) = Some (b2z b).
Proof.
  destruct (hex_nibbles b) as [H1 H2]. unfold hex_pair.
  rewrite (JsonText.hex_value_digit _ H1), (JsonText.hex_value_digit _ H2). cbn. f_equal.
  pose proof (Z.div_mod (b2z b) 16 ltac:(lia)). lia.
Qed.

Lemma hex_pairs_toHex bs : hex_pairs (toHex bs) = Ok bs.
Proof.
  induction bs as [|b bs IH]; [done|]. rewrite toHex_cons. unfold hex_byte. cbn [app hex_pairs].
  rewrite hex_pair_byte, IH. cbn [rbind]. by rewrite z2b_b2z.
Qed.

Lemma hexToBytes_toHex bs : hexToBytes (toHex bs) = Ok bs.
Proof.
  unfold hexToBytes. rewrite length_toHex, Nat.even_mul. cbn [Nat.even orb negb]. apply hex_pairs_toHex.
Qed.

Lemma codec_hex_byte c : 0 <= c < 256 -> codec_hex c = hex_byte (z2b c).
Proof.
  intros Hc. unfold hex_byte. rewrite b2z_z2b_small by done.
  assert (E : forallb (fun n => bool_decide (codec_hex (Z.of_nat n) = [hex_digit (Z.of_nat n / 16); hex_digit (Z.of_nat n mod 16)])) (seq 0 256) = true)
    by (vm_compute; reflexivity).
  rewrite forallb_forall in E. specialize (E (Z.to_nat c)). rewrite Z2Nat.id in E by lia.
  apply bool_decide_eq_true in E; [done|]. apply in_seq. lia.
Qed.

Lemma encode_toHex c : 0 <= codec c < 256 ->
  encodeCidHex c = toHex (z2b (codec c) :: typeFingerprint c ++ contentHash c).
Proof.
  intros Hc. unfold encodeCidHex. rewrite codec_hex_byte by done. unfold toHex.
  cbn [map concat]. by rewrite map_app, concat_app.
Qed.

Lemma toHex_is_hex bs : bs <> [] -> is_hex (toHex bs) = true.
Proof.
  intros Hb. unfold is_hex. apply andb_true_iff. split.
  - apply negb_true_iff, bool_decide_eq_false. intros E. apply (f_equal length) in E.
    rewrite length_toHex in E. destruct bs; cbn in E; lia || done.
  - clear Hb. induction bs as [|b bs IH]; [done|]. rewrite toHex_cons. unfold hex_byte.
    destruct (hex_nibbles b) as [H1 H2]. cbn [app forallb].
    rewrite (JsonText.hex_value_digit _ H1), (JsonText.hex_value_digit _ H2), IH.
    rewrite !bool_decide_eq_true_2 by eauto. done.
Qed.

Lemma hex_pairs_app a b : Nat.even (length a) = true ->
  hex_pairs (a ++ b) = (let? x := hex_pairs a in let? y := hex_pairs b in Ok (x ++ y)).
Proof.
  remember (length a) as n eqn:En. revert a En.
  induction n as [n IH] using lt_wf_ind. intros [|u [|v a]] -> He; cbn [app hex_pairs rbind].
  - by destruct (hex_pairs b).
  - done.
  - destruct (hex_pair u v) as [w|]; [|done]. cbn [rbind].
    rewrite (IH (length a)) by (cbn in *; done || lia).
    destruct (hex_pairs a); [|done]. cbn [rbind]. by destruct (hex_pairs b).
Qed.

Lemma hex_value_lower c v : JsonText.hex_value c = Some v -> 0 <= v < 16 /\ hex_digit v = lower_hex c.
Proof.
  unfold JsonText.hex_value, hex_digit, lower_hex.
  destruct ((48 <=? c) && (c <=? 57)) eqn:E1; [|destruct ((97 <=? c) && (c <=? 102)) eqn:E2;
    [|destruct ((65 <=? c) && (c <=? 70)) eqn:E3; [|done]]]; intros [= <-]; z_bool; (split; [lia|]);
    repeat match goal with |- context [if ?b then _ else _] => destruct b eqn:? end; z_bool; lia.
Qed.

Lemma hex_pairs_Ok hex bs : hex_pairs hex = Ok bs -> Nat.even (length hex) = true ->
  toHex bs = map lower_hex hex /\ (length hex = 2 * length bs)%nat.
Proof.
  remember (length hex) as n eqn:En. revert hex bs En.
  induction n as [n IH] using lt_wf_ind. intros [|u [|v hex]] bs -> E He; cbn [hex_pairs] in E.
  - by injection E as <-.
  - done.
  - unfold hex_pair in E. destruct (JsonText.hex_value u) as [x|] eqn:Ex; [|done].
    destruct (JsonText.hex_value v) as [y|] eqn:Ey; [|done]. cbn in E.
    destruct (hex_pairs hex) as [bs'|] eqn:Eh; [|done]. cbn [rbind] in E. apply (inj Ok) in E as <-.
    destruct (IH (length hex) ltac:(cbn; lia) hex bs' eq_refl Eh ltac:(done)) as [Ht Hl].
    apply hex_value_lower in Ex as [Hx Lx], Ey as [Hy Ly].
    assert (Hv : 0 <= x * 16 + y < 256) by lia.
    rewrite toHex_cons, (b2z_z2b_small _ Hv). cbn [map length].
    replace ((x * 16 + y) / 16) with x by (apply (Z.div_unique _ _ _ y); lia).
    replace ((x * 16 + y) mod 16) with y by (apply (Z.mod_unique _ _ x); lia).
    rewrite Lx, Ly, Ht. split; [done|]. lia.
Qed.

Lemma decode_ok h c : decodeCidHex h = Ok c ->
  length h = CID_HEX_CHARS /\ exists b fp ch, c = mkCid (b2z b) fp ch /\
    hex_pairs h = Ok (b :: fp ++ ch) /\ length fp = FINGERPRINT_BYTES.
Proof.
  unfold decodeCidHex. case_bool_decide as Hl; [|done]. cbn [negb].
  destruct (is_hex h); [|done]. cbn [negb]. intros E. split; [done|].
  set (fpx := take (FINGERPRINT_BYTES * 2) (drop 2 h)) in *.
  set (chx := drop (2 + FINGERPRINT_BYTES * 2) h) in *.
  assert (Lh : length h = 82%nat) by exact Hl.
  assert (Hs : h = take 2 h ++ fpx ++ chx).
  { unfold fpx, chx. change (FINGERPRINT_BYTES * 2)%nat with 16%nat.
    by rewrite <- drop_drop, !take_drop. }
  assert (L1 : length (take 2 h) = 2%nat) by (rewrite length_take; lia).
  assert (L2 : length fpx = 16%nat) by (unfold fpx; by rewrite length_take, length_drop, Lh).
  assert (L3 : length chx = 64%nat) by (unfold chx; by rewrite length_drop, Lh).
  unfold hexToBytes in E. rewrite L2, L3 in E. cbn [Nat.even negb] in E.
  destruct (hex_pairs (take 2 h)) as [[|b [|]]|] eqn:E1; try done.
  destruct (hex_pairs fpx) as [fp|] eqn:E2; [|done]. cbn [rbind] in E.
  destruct (hex_pairs chx) as [ch|] eqn:E3; [|done]. cbn [rbind] in E. apply (inj Ok) in E as <-.
  exists b, fp, ch. split; [done|]. split.
  - rewrite Hs, hex_pairs_app, hex_pairs_app by by rewrite ?L1, ?L2. by rewrite E1, E2, E3.
  - apply hex_pairs_Ok in E2 as [_ E2]; [|by rewrite L2]. unfold FINGERPRINT_BYTES. lia.
Qed.

(** The hex text of an identifier decodes to it, and a text that decodes is, up to the case of
    its digits, the text of the identifier it decodes to, which has the declared widths: a
    text of another length or with another character is refused. *)
Theorem typed_cid_roundtrip c h :
  (wf c -> decodeCidHex (encodeCidHex c) = Ok c) /\
  (decodeCidHex h = Ok c -> wf c /\ encodeCidHex c = map lower_hex h).
Proof.
  split.
  - intros (Hc & Hf & Hh). rewrite encode_toHex by done.
    set (bs := z2b (codec c) :: typeFingerprint c ++ contentHash c).
    assert (Hl : length (toHex bs) = CID_HEX_CHARS).
    { rewrite length_toHex. unfold bs. cbn [length]. rewrite length_app, Hf, Hh. done. }
    unfold decodeCidHex. rewrite bool_decide_eq_true_2 by done.
    rewrite toHex_is_hex by done. cbn [negb].
    assert (Ht : toHex bs = hex_byte (z2b (codec c)) ++ toHex (typeFingerprint c) ++ toHex (contentHash c)).
    { unfold bs, toHex. cbn [map concat]. by rewrite map_app, concat_app. }
    rewrite Ht. unfold hex_byte. cbn [app take drop Nat.add]. cbn [hex_pairs].
    rewrite hex_pair_byte. cbn [rbind].
    assert (Hlf : length (toHex (typeFingerprint c)) = (FINGERPRINT_BYTES * 2)%nat) by (rewrite length_toHex, Hf; done).
    rewrite take_0. cbn [hex_pairs rbind]. rewrite <- Hlf, drop_0, take_app_length, drop_app_length,
      !hexToBytes_toHex. cbn [rbind].
    rewrite z2b_b2z, b2z_z2b_small by done. by destruct c.
  - intros E. apply decode_ok in E as (Hl & b & fp & ch & -> & E & Hf).
    pose proof E as E'. apply hex_pairs_Ok in E' as [Ht Hlen]; [|by rewrite Hl].
    split.
    + split; [apply b2z_range|]. split; [done|]. cbn [contentHash]. rewrite Hl in Hlen. cbn [length] in Hlen.
      rewrite length_app, Hf in Hlen. unfold CID_HEX_CHARS, CID_BYTES, FINGERPRINT_BYTES, CONTENT_HASH_BYTES in *. lia.
    + rewrite <- Ht. rewrite encode_toHex by apply b2z_range. cbn [codec typeFingerprint contentHash].
      by rewrite z2b_b2z.
Qed.

Lemma typed_cid_roundtrip_witness :
  let c := mkCid 4 (replicate 8 (z2b 171)) (replicate 32 (z2b 9)) in
  wf c /\ decodeCidHex (encodeCidHex c) = Ok c.
Proof.
  intros c. assert (Hc : wf c) by (by repeat split).
  split; [exact Hc|]. exact (proj1 (typed_cid_roundtrip c []) Hc).
Defined.

(** ** Interface-bound and content-bound references *)

Lemma bytesEqual_iff a b : bytesEqual a b = true <-> a = b.
Proof.
  unfold bytesEqual. destruct (Nat.eqb_spec (length a) (length b)) as [Hl|Hl]; cbn [negb].
  - revert b Hl. induction a as [|x a IH]; intros [|y b] Hl; cbn [bytes_equal_from length] in *; try lia; [done|].
    destruct (Byte.eqb x y) eqn:E; cbn [negb].
    + apply Byte.byte_dec_bl in E as ->. rewrite IH by lia. split; congruence.
    + split; [done|]. intros [= -> _]. by rewrite Byte.byte_dec_lb in E.
  - split; [done|]. by intros ->.
Qed.

Lemma digestTyped_Ok `{Sha256} v c sig x : digestTyped v c sig = Ok x <->
  exists bs fp, Canonical.canonical v = Ok bs /\ fingerprintOf sig = Ok fp /\ x = mkCid c fp (sha256 bs).
Proof.
  unfold digestTyped. destruct (Canonical.canonical v) as [bs|e]; [|naive_solver].
  destruct (fingerprintOf sig) as [fp|e]; [|naive_solver]. unfold BlobRefStore.digestBytes.
  rewrite hexToBytes_toHex. cbn [rbind]. naive_solver.
Qed.

(** Two values hashed under one codec and one port signature can stand in for each other: the
    interface reference of either matches both.  Their full identifiers are equal exactly when
    their canonical bytes are, unless SHA-256 collides on those two byte strings. *)
Theorem interface_substitution `{Sha256} v w c sig a b :
  digestTyped v c sig = Ok a -> digestTyped w c sig = Ok b ->
  (forall x y, Canonical.canonical v = Ok x -> Canonical.canonical w = Ok y -> sha256 x = sha256 y -> x = y) ->
  interfaceRefMatches (asInterfaceRef a) b = true /\
  (cidEqual a b = true <-> Canonical.canonical v = Canonical.canonical w).
Proof.
  rewrite !digestTyped_Ok. intros (x & fp & Hx & Hf & ->) (y & fp' & Hy & Hf' & ->) Hcol.
  assert (fp' = fp) as -> by congruence. unfold interfaceRefMatches, cidEqual, asInterfaceRef.
  cbn [codec typeFingerprint contentHash ref_codec ref_fingerprint].
  rewrite Z.eqb_refl, (proj2 (bytesEqual_iff fp fp)) by done. split; [done|]. cbn [andb].
  rewrite bytesEqual_iff, Hx, Hy. split; [intros E; f_equal; by apply Hcol|by intros [= ->]].
Qed.

Lemma interface_substitution_witness :
  let sig := mkPorts [js "a"] [js "b"] in
  match @digestTyped demo_sha256 (Canonical.VNum 1) 2 sig, @digestTyped demo_sha256 (Canonical.VNum 2) 2 sig with
  | Ok a, Ok b => interfaceRefMatches (asInterfaceRef a) b = true /\ cidEqual a b = false
  | _, _ => False
  end.
Proof.
  intros sig.
  destruct (@digestTyped demo_sha256 (Canonical.VNum 1) 2 sig) as [a|] eqn:Ea; [|by vm_compute in Ea].
  destruct (@digestTyped demo_sha256 (Canonical.VNum 2) 2 sig) as [b|] eqn:Eb; [|by vm_compute in Eb].
  destruct (@interface_substitution demo_sha256 _ _ _ _ _ _ Ea Eb) as [H1 H2].
  { intros x y Hx Hy. vm_compute in Hx, Hy. injection Hx as <-. injection Hy as <-. by vm_compute. }
  split; [exact H1|]. destruct (cidEqual a b); [|done]. by pose proof (proj1 H2 eq_refl) as H.
Defined.
End TypedCid.
