(* ===== verification/ConfinementJson.v ===== *)
(** The canonical text and the digest of a confinement document
    (src/wire/confinement-digest.ts, and its copy in cli/lib/harness/confinement-lattice.mjs):
    [JSON.stringify(sortKeysDeep(v), null, 2)].

    The result is that the bytes commit to the document up to the order of keys and to
    fields that are [null]. *)
From S2P Require Import Prelude JsString Sql Platform Json JsonText Canonical.

Module ConfinementJson.
Import JsonText.
Import Canonical (distinct_keys).

(** ** [JSON.stringify(v, null, 2)] *)

Definition newline (indent : nat) : jsstr := 10 :: replicate (2 * indent) 32.

(** The items of an array or object between its brackets. *)
Definition block (indent : nat) (items : list jsstr) : jsstr :=
  match items with
  | [] => []
  | _ => newline (S indent) ++ join (44 :: newline (S indent)) items ++ newline indent
  end.

Fixpoint pretty (indent : nat) (v : Json) : jsstr :=
  match v with
  | JArr l => 91 :: block indent (map (pretty (S indent)) l) ++ [93]
  | JObj m => 123 :: block indent (map (fun kv => quote kv.1 ++ [58; 32] ++ pretty (S indent) kv.2) m) ++ [125]
  | v => json_stringify v
  end.

(** ** Sorting keys *)

Definition is_null (v : Json) : bool := match v with JNull => true | _ => false end.

(** The properties of a rebuilt object, in the order they are assigned: a [null] is skipped,
    and an assignment to [__proto__] makes no property. *)
Definition kept (kv : jsstr * Json) : bool :=
  negb (is_null kv.2) && negb (bool_decide (kv.1 = js "__proto__")).

Definition assigned (m : list (jsstr * Json)) : list (jsstr * Json) :=
  List.filter kept (order_by Canonical.key_le m).

Fixpoint sortKeysDeep (v : Json) : Json :=
  match v with
  | JArr l => JArr (map sortKeysDeep l)
  | JObj m => JObj (obj_build [] (assigned (map (fun kv => (kv.1, sortKeysDeep kv.2)) m)))
  | v => v
  end.

Definition canonicalJson (v : Json) : jsstr := pretty 0 (sortKeysDeep v).
Definition canonicalizeConfinement (manifest : Json) : bytes := utf8_encode (canonicalJson manifest).
Definition confinementDigest `{Blake3} (manifest : Json) : jsstr := blake3_hex (canonicalizeConfinement manifest).

Example canonical_example :
  canonicalJson (JObj [(js "b", JArr [JNum 1; JArr []]); (js "a", JNull); (js "Z", JObj [])]) =
  js "{" ++ [10] ++ js "  " ++ quote (js "Z") ++ js ": {}," ++ [10] ++ js "  " ++ quote (js "b") ++ js ": [" ++ [10] ++
  js "    1," ++ [10] ++ js "    []" ++ [10] ++ js "  ]" ++ [10] ++ js "}".
Proof. vm_compute. reflexivity. Qed.

(** ** The data a document denotes *)

(** The document without its null fields, with sorted keys. *)
Fixpoint denoted (v : Json) : Json :=
  match v with
  | JArr l => JArr (map denoted l)
  | JObj m => JObj (assigned (map (fun kv => (kv.1, denoted kv.2)) m))
  | v => v
  end.

(** ** Whitespace outside strings

    [minify] drops the whitespace [pretty] adds; what is left is the compact text. *)

Inductive mode := Outside | Inside | Escaped.

Fixpoint minify (st : mode) (s : jsstr) : jsstr :=
  match s with
  | [] => []
  | c :: r =>
      match st with
      | Outside => if json_space c then minify Outside r
                   else c :: minify (if c =? 34 then Inside else Outside) r
      | Inside => c :: minify (if c =? 34 then Outside else if c =? 92 then Escaped else Inside) r
      | Escaped => c :: minify Inside r
      end
  end.

(** [t] passes through unchanged, and leaves the state as it was. *)
Definition passes (st : mode) (t : jsstr) : Prop := forall s, minify st (t ++ s) = t ++ minify st s.

Lemma passes_app st a b : passes st a -> passes st b -> passes st (a ++ b).
Proof. intros Ha Hb s. by rewrite <- !app_assoc, Ha, Hb. Qed.

Lemma passes_raw u : u <> 34 -> u <> 92 -> passes Inside [u].
Proof.
  intros H1 H2 s. cbn [app minify]. by rewrite (proj2 (Z.eqb_neq u 34)), (proj2 (Z.eqb_neq u 92)).
Qed.

Lemma passes_escape e : passes Inside [92; e].
Proof. done. Qed.

Lemma passes_hex4 u : passes Inside (hex4 u).
Proof.
  assert (Hd : forall n, passes Inside [hex_digit (n mod 16)]).
  { intros n. pose proof (Z.mod_pos_bound n 16 ltac:(lia)).
    apply passes_raw; unfold hex_digit; destruct (Z.ltb_spec (n mod 16) 10); lia. }
  unfold hex4. change (passes Inside ([hex_digit (u / 4096 mod 16)] ++ [hex_digit (u / 256 mod 16)] ++
    [hex_digit (u / 16 mod 16)] ++ [hex_digit (u mod 16)])).
  repeat apply passes_app; apply Hd.
Qed.

Lemma passes_unicode u : passes Inside (unicode_escape u).
Proof. apply (passes_app Inside [92; 117]); [apply passes_escape|apply passes_hex4]. Qed.

Lemma passes_escape_unit u : passes Inside (escape_unit u).
Proof.
  unfold escape_unit.
  repeat match goal with |- context [if ?b then _ else _] => destruct b eqn:? end;
    try apply passes_escape; try apply passes_unicode. z_bool. by apply passes_raw.
Qed.

Lemma passes_quote_units s : passes Inside (quote_units s).
Proof.
  remember (length s) as n eqn:En. revert s En.
  induction n as [n IH] using lt_wf_ind. intros [|u s] ->; cbn [quote_units]; [by intros s|].
  destruct (is_high u) eqn:Eh.
  - apply is_high_range in Eh. destruct s as [|v s]; [apply passes_unicode|].
    destruct (is_low v) eqn:El.
    + apply is_low_range in El. apply (passes_app Inside [u]); [apply passes_raw; lia|].
      apply (passes_app Inside [v]); [apply passes_raw; lia|]. apply (IH (length s)); [cbn; lia|done].
    + apply passes_app; [apply passes_unicode|]. apply (IH (length (v :: s))); [cbn; lia|done].
  - destruct (is_low u); (apply passes_app; [apply passes_unicode || apply passes_escape_unit|]);
      (apply (IH (length s)); [cbn; lia|done]).
Qed.

Lemma passes_quote q : passes Outside (quote q).
Proof.
  intros s. unfold quote. cbn [app minify]. change (json_space 34) with false. change (34 =? 34) with true.
  cbv iota. rewrite <- !app_assoc, passes_quote_units. reflexivity.
Qed.

(** No whitespace and no quote. *)
Definition dense (t : jsstr) : bool := forallb (fun c => negb (json_space c) && negb (c =? 34)) t.

Lemma passes_dense t : dense t = true -> passes Outside t.
Proof.
  intros H s. induction t as [|c t IH]; [done|]. cbn [dense forallb] in H.
  apply andb_true_iff in H as [[H1 H2]%andb_true_iff H]. cbn [app minify].
  apply negb_true_iff in H1, H2. rewrite H1, H2. f_equal. by apply IH.
Qed.

Lemma dense_dec z : dense (js_dec z) = true.
Proof.
  apply forallb_forall. intros c Hc. apply list_elem_of_In in Hc.
  pose proof (js_dec_units z) as Hu. rewrite Forall_forall in Hu. specialize (Hu c Hc).
  unfold json_space. destruct Hu as [-> |Hu]; [done|].
  rewrite !(proj2 (Z.eqb_neq _ _)) by lia. done.
Qed.

Lemma minify_newline n s : minify Outside (newline n ++ s) = minify Outside s.
Proof.
  unfold newline. cbn [app minify]. change (json_space 10) with true. cbv iota.
  induction (2 * n)%nat as [|k IH]; [done|]. cbn [replicate app minify].
  change (json_space 32) with true. done.
Qed.

(** [t] is [u] with whitespace. *)
Definition minifies (t u : jsstr) : Prop := forall s, minify Outside (t ++ s) = u ++ minify Outside s.

Lemma minifies_join n ts us :
  Forall2 minifies ts us -> minifies (join (44 :: newline n) ts) (join [44] us).
Proof.
  induction 1 as [|t u ts us Ht Hts IH]; [by intros s|]. destruct Hts as [|t' u' ts us Ht' Hts].
  - intros s. apply Ht.
  - rewrite !join_cons. intros s. rewrite <- !app_assoc, Ht. f_equal. cbn [app minify].
    change (json_space 44) with false. change (44 =? 34) with false. cbv iota. f_equal.
    rewrite minify_newline. apply IH.
Qed.

Lemma minifies_block n ts us :
  Forall2 minifies ts us -> minifies (block n ts) (join [44] us).
Proof.
  intros H. destruct H as [|t u ts us Ht Hts]; [by intros s|].
  intros s. unfold block. rewrite <- !app_assoc, minify_newline.
  rewrite (minifies_join _ _ (u :: us)) by by constructor. by rewrite minify_newline.
Qed.

Lemma minifies_pretty v : forall n, minifies (pretty n v) (json_stringify v).
Proof.
  induction v as [|[]|z|q|l Hl|m Hm] using json_tree_ind; intros n s;
    try (apply (passes_dense (js _)); reflexivity).
  - apply passes_dense, dense_dec.
  - apply passes_quote.
  - cbn [pretty json_stringify]. change (91 :: ?x ++ [93]) with ([91] ++ x ++ [93]).
    rewrite <- !app_assoc. rewrite (passes_dense [91]) by done. f_equal.
    rewrite (minifies_block n _ (map json_stringify l)).
    + done.
    + induction Hl as [|v l Hv Hl IH]; constructor; [apply Hv|apply IH].
  - cbn [pretty json_stringify]. change (123 :: ?x ++ [125]) with ([123] ++ x ++ [125]).
    rewrite <- !app_assoc. rewrite (passes_dense [123]) by done. f_equal.
    rewrite (minifies_block n _ (map (fun kv => quote kv.1 ++ 58 :: json_stringify kv.2) m)).
    + done.
    + induction Hm as [|[k v] m Hv Hm IH]; constructor; [|apply IH]. intros s'. cbn [fst snd].
      rewrite <- !app_assoc, passes_quote. f_equal. cbn [app minify].
      change (json_space 58) with false. change (58 =? 34) with false. change (json_space 32) with true. cbv iota.
      f_equal. apply Hv.
Qed.

Lemma pretty_inj v w : pretty 0 v = pretty 0 w -> json_stringify v = json_stringify w.
Proof.
  intros E. pose proof (minifies_pretty v 0 []) as Hv. pose proof (minifies_pretty w 0 []) as Hw.
  rewrite E, Hw in Hv. cbn [minify] in Hv. by rewrite !app_nil_r in Hv.
Qed.

(** ** The bytes commit to the data *)

Definition on_values (f : Json -> Json) (m : list (jsstr * Json)) : list (jsstr * Json) :=
  map (fun kv => (kv.1, f kv.2)) m.

Lemma keys_on_values f m : map fst (on_values f m) = map fst m.
Proof. apply Canonical.fst_map. Qed.

Lemma sorted_on_values f m : NoDup (map fst m) ->
  order_by Canonical.key_le (on_values f m) = on_values f (order_by Canonical.key_le m).
Proof.
  intros Hn. apply (order_by_map Canonical.key_le Canonical.key_le); try apply _.
  - intros x y H. exact H.
  - intros x y Hx Hy H1 H2. by apply (Canonical.key_le_tie m).
Qed.

Lemma filter_on_values f m : (forall v, is_null (f v) = is_null v) ->
  List.filter kept (on_values f m) = on_values f (List.filter kept m).
Proof.
  intros Hf. induction m as [|[k v] m IH]; [done|].
  assert (Hk : kept (k, f v) = kept (k, v)) by (unfold kept; cbn [fst snd]; by rewrite Hf).
  change (on_values f ((k, v) :: m)) with ((k, f v) :: on_values f m). cbn [List.filter].
  rewrite Hk, IH. by destruct (kept (k, v)).
Qed.

Lemma assigned_on_values f m : (forall v, is_null (f v) = is_null v) -> NoDup (map fst m) ->
  assigned (on_values f m) = on_values f (assigned m).
Proof. intros Hf Hn. unfold assigned. by rewrite sorted_on_values, filter_on_values. Qed.

Lemma elem_of_assigned kv m : kv ∈ assigned m -> kv ∈ m.
Proof.
  unfold assigned. rewrite list_elem_of_In, filter_In, <- list_elem_of_In. intros [H _].
  by apply elem_of_order_by in H.
Qed.

Lemma assigned_sublist m : exists l, l ≡ₚ m /\ sublist (assigned m) l.
Proof.
  exists (order_by Canonical.key_le m). split; [unfold order_by; apply merge_sort_Permutation|].
  unfold assigned. generalize (order_by Canonical.key_le m). intros l.
  induction l as [|kv l IH]; cbn [List.filter]; [constructor|]. destruct (kept kv); by constructor.
Qed.

Lemma NoDup_assigned m : NoDup (map fst m) -> NoDup (map fst (assigned m)).
Proof.
  destruct (assigned_sublist m) as (l & Hl & Hs). intros Hn.
  assert (Hnl : NoDup (map fst l)) by by rewrite Hl.
  eapply sublist_NoDup; [exact Hnl|]. by apply (fmap_sublist fst).
Qed.

Lemma assigned_sorted m : StronglySorted Canonical.key_le (assigned m).
Proof.
  unfold assigned. assert (Hs : StronglySorted Canonical.key_le (order_by Canonical.key_le m))
    by apply (order_by_sorted Canonical.key_le).
  induction Hs as [|kv l Hs IH Hk]; cbn [List.filter]; [constructor|]. destruct (kept kv); [|done].
  constructor; [done|]. rewrite Forall_forall in *. intros x Hx. apply Hk.
  by apply list_elem_of_In, filter_In in Hx as [Hx%list_elem_of_In _].
Qed.

Lemma is_null_sortKeysDeep v : is_null (sortKeysDeep v) = is_null v.
Proof. by destruct v. Qed.
Lemma is_null_denoted v : is_null (denoted v) = is_null v.
Proof. by destruct v. Qed.

Lemma forallb_assigned (P : Json -> bool) f m :
  forallb (fun kv => P kv.2) m = true -> Forall (fun kv => P kv.2 = true -> P (f kv.2) = true) m ->
  forallb (fun kv => P kv.2) (assigned (on_values f m)) = true.
Proof.
  intros HP Hf. apply forallb_forall. intros kv Hkv%list_elem_of_In%elem_of_assigned.
  apply list_elem_of_fmap in Hkv as (x & -> & Hx). cbn [snd].
  rewrite forallb_forall in HP. rewrite Forall_forall in Hf. apply Hf; [done|]. by apply HP, list_elem_of_In.
Qed.

Lemma denoted_distinct v : distinct_keys v = true -> distinct_keys (denoted v) = true.
Proof.
  induction v as [| | | |l Hl|m Hm] using json_tree_ind; intros Hd; try done;
    cbn [distinct_keys denoted] in *.
  - rewrite forallb_forall in *. intros w Hw. apply in_map_iff in Hw as (v & <- & Hv).
    rewrite Forall_forall in Hl. apply Hl; [by apply list_elem_of_In|by apply Hd].
  - apply andb_true_iff in Hd as [Hn%bool_decide_eq_true Hd]. apply andb_true_iff. split.
    + apply bool_decide_eq_true, NoDup_assigned. by rewrite Canonical.fst_map.
    + by apply (forallb_assigned distinct_keys denoted).
Qed.

Lemma denoted_representable v : representable v = true -> representable (denoted v) = true.
Proof.
  induction v as [| | | |l Hl|m Hm] using json_tree_ind; intros Hr; try done; cbn [representable denoted] in *.
  - rewrite forallb_forall in *. intros w Hw. apply in_map_iff in Hw as (v & <- & Hv).
    rewrite Forall_forall in Hl. apply Hl; [by apply list_elem_of_In|by apply Hr].
  - rewrite forallb_forall in *. intros kv Hkv%list_elem_of_In%elem_of_assigned.
    apply list_elem_of_fmap in Hkv as (x & -> & Hx). cbn [fst snd].
    pose proof (Hr x (proj1 (list_elem_of_In _ _) Hx)) as [H1 H2]%andb_true_iff.
    rewrite Forall_forall in Hm. by rewrite H1, (Hm x Hx H2).
Qed.

(** The data is sorted already. *)
Lemma denoted_sorted v : distinct_keys v = true -> Canonical.sort_keys (denoted v) = denoted v.
Proof.
  induction v as [| | | |l Hl|m Hm] using json_tree_ind; intros Hd; try done;
    cbn [distinct_keys denoted Canonical.sort_keys] in *.
  - rewrite forallb_forall in Hd. f_equal. rewrite map_map. apply Canonical.map_ext_Forall.
    rewrite Forall_forall in *. intros v Hv. apply Hl; [done|]. by apply Hd, list_elem_of_In.
  - apply andb_true_iff in Hd as [Hn%bool_decide_eq_true Hd]. rewrite forallb_forall in Hd. f_equal.
    set (a := assigned (map (fun kv => (kv.1, denoted kv.2)) m)).
    assert (Hna : NoDup (map fst a)) by (apply NoDup_assigned; by rewrite Canonical.fst_map).
    assert (Ha : map (fun kv => (kv.1, Canonical.sort_keys kv.2)) a = a).
    { rewrite <- (map_id a) at 2. apply Canonical.map_ext_Forall, Forall_forall. intros kv Hkv.
      apply elem_of_assigned, list_elem_of_fmap in Hkv as (x & -> & Hx). cbn [fst snd]. f_equal.
      rewrite Forall_forall in Hm. apply Hm; [done|]. by apply Hd, list_elem_of_In. }
    rewrite Ha. apply Canonical.sort_unique; [done|apply assigned_sorted|done].
Qed.

(** [sortKeysDeep] builds an object out of its data property by property, as a reader does. *)
Lemma sortKeysDeep_as_parsed v : distinct_keys v = true -> sortKeysDeep v = as_parsed (denoted v).
Proof.
  induction v as [| | | |l Hl|m Hm] using json_tree_ind; intros Hd; try done;
    cbn [distinct_keys denoted sortKeysDeep as_parsed] in *.
  - rewrite forallb_forall in Hd. f_equal. rewrite map_map. apply Canonical.map_ext_Forall.
    rewrite Forall_forall in *. intros v Hv. apply Hl; [done|]. by apply Hd, list_elem_of_In.
  - apply andb_true_iff in Hd as [Hn%bool_decide_eq_true Hd]. rewrite forallb_forall in Hd. do 2 f_equal.
    change (map (fun kv => (kv.1, as_parsed kv.2)) ?l) with (on_values as_parsed l).
    rewrite <- (assigned_on_values as_parsed); [|by intros []|by rewrite Canonical.fst_map].
    f_equal. unfold on_values. rewrite map_map. apply Canonical.map_ext_Forall.
    rewrite Forall_forall in *. intros kv Hkv. cbn [fst snd]. f_equal. apply Hm; [done|].
    by apply Hd, list_elem_of_In.
Qed.

Lemma as_parsed_perm (m : list (jsstr * Json)) : NoDup (map fst m) ->
  obj_build [] (on_values as_parsed m) ≡ₚ on_values as_parsed m.
Proof. intros Hn. apply Canonical.obj_build_perm. cbn [app]. by rewrite keys_on_values. Qed.

Lemma as_parsed_distinct v : distinct_keys v = true -> distinct_keys (as_parsed v) = true.
Proof.
  induction v as [| | | |l Hl|m Hm] using json_tree_ind; intros Hd; try done;
    cbn [distinct_keys as_parsed] in *.
  - rewrite forallb_forall in *. intros w Hw. apply in_map_iff in Hw as (v & <- & Hv).
    rewrite Forall_forall in Hl. apply Hl; [by apply list_elem_of_In|by apply Hd].
  - apply andb_true_iff in Hd as [Hn%bool_decide_eq_true Hd]. rewrite forallb_forall in Hd.
    pose proof (as_parsed_perm m Hn) as Hp. unfold on_values in Hp. apply andb_true_iff. split.
    + apply bool_decide_eq_true. rewrite Hp. by rewrite Canonical.fst_map.
    + apply forallb_forall. intros kv Hkv%list_elem_of_In. rewrite Hp in Hkv.
      apply list_elem_of_fmap in Hkv as (x & -> & Hx). cbn [snd]. rewrite Forall_forall in Hm.
      apply Hm; [done|]. by apply Hd, list_elem_of_In.
Qed.

Lemma as_parsed_representable v :
  distinct_keys v = true -> representable v = true -> representable (as_parsed v) = true.
Proof.
  induction v as [| | | |l Hl|m Hm] using json_tree_ind; intros Hd Hr; try done;
    cbn [distinct_keys representable as_parsed] in *.
  - rewrite forallb_forall in *. intros w Hw. apply in_map_iff in Hw as (v & <- & Hv).
    rewrite Forall_forall in Hl. apply Hl; [by apply list_elem_of_In|by apply Hd|by apply Hr].
  - apply andb_true_iff in Hd as [Hn%bool_decide_eq_true Hd]. rewrite forallb_forall in Hd, Hr.
    pose proof (as_parsed_perm m Hn) as Hp. unfold on_values in Hp.
    apply forallb_forall. intros kv Hkv%list_elem_of_In. rewrite Hp in Hkv.
    apply list_elem_of_fmap in Hkv as (x & -> & Hx). cbn [fst snd].
    pose proof (proj1 (list_elem_of_In _ _) Hx) as Hin. pose proof (Hr x Hin) as [H1 H2]%andb_true_iff.
    rewrite Forall_forall in Hm. rewrite H1, (Hm x Hx); [done|by apply Hd|done].
Qed.

Lemma well_formed_newline n : well_formed (newline n) = true.
Proof.
  apply ascii_well_formed. unfold newline. constructor; [lia|]. apply Forall_replicate. lia.
Qed.

Lemma well_formed_block n l : Forall (fun s => well_formed s = true) l -> well_formed (block n l) = true.
Proof.
  intros Hl. unfold block. destruct l; [done|].
  apply well_formed_app; [apply well_formed_newline|]. apply well_formed_app; [|apply well_formed_newline].
  apply well_formed_join; [|done]. apply (well_formed_app [44]); [done|apply well_formed_newline].
Qed.

Lemma pretty_well_formed v : representable v = true -> forall n, well_formed (pretty n v) = true.
Proof.
  induction v as [| | | |l Hl|m Hm] using json_tree_ind; intros Hr n; try (by apply stringify_well_formed);
    cbn [pretty representable] in *; rewrite forallb_forall in Hr.
  - change (91 :: ?x ++ [93]) with ([91] ++ x ++ [93]). repeat apply well_formed_app; [done| |done].
    apply well_formed_block, Forall_fmap, Forall_forall. intros v Hv. rewrite Forall_forall in Hl.
    apply Hl; [done|]. by apply Hr, list_elem_of_In.
  - change (123 :: ?x ++ [125]) with ([123] ++ x ++ [125]). repeat apply well_formed_app; [done| |done].
    apply well_formed_block, Forall_fmap, Forall_forall. intros kv Hkv.
    pose proof (Hr kv (proj1 (list_elem_of_In _ _) Hkv)) as [H1 H2]%andb_true_iff.
    rewrite Forall_forall in Hm. unfold compose. apply well_formed_app; [by apply well_formed_quote|].
    apply (well_formed_app [58; 32]); [done|]. by apply Hm.
Qed.

Lemma canonicalJson_inj v w :
  distinct_keys v = true -> distinct_keys w = true -> representable v = true -> representable w = true ->
  canonicalJson v = canonicalJson w <-> denoted v = denoted w.
Proof.
  intros Dv Dw Rv Rw. unfold canonicalJson. rewrite !sortKeysDeep_as_parsed by done.
  split; [|by intros ->]. intros E%pretty_inj.
  assert (H : as_parsed (as_parsed (denoted v)) = as_parsed (as_parsed (denoted w))).
  { assert (H : json_parse (json_stringify (as_parsed (denoted v))) =
                json_parse (json_stringify (as_parsed (denoted w)))) by by rewrite E.
    rewrite !json_roundtrip in H
      by (apply as_parsed_representable; [by apply denoted_distinct|by apply denoted_representable]).
    by injection H. }
  apply (f_equal Canonical.sort_keys) in H.
  rewrite !Canonical.sort_keys_as_parsed in H by auto using as_parsed_distinct, denoted_distinct.
  by rewrite !denoted_sorted in H.
Qed.

Lemma elem_of_assigned_iff kv m : kv ∈ assigned m <-> kv ∈ m /\ kept kv = true.
Proof. unfold assigned. by rewrite list_elem_of_In, filter_In, <- list_elem_of_In, elem_of_order_by. Qed.

Definition no_null (m : list (jsstr * Json)) : bool := forallb (fun kv => negb (is_null kv.2)) m.

(** What an object denotes determines what each of its fields denotes. *)
Lemma denoted_field m k w : NoDup (map fst m) -> no_null m = true -> k <> js "__proto__" ->
  denoted <$> assoc k m = Some w <-> (k, w) ∈ assigned (on_values denoted m).
Proof.
  intros Hn Hz Hk. rewrite elem_of_assigned_iff, fmap_Some. unfold on_values. rewrite list_elem_of_fmap.
  setoid_rewrite <- elem_of_assoc; [|done]. unfold kept. cbn [fst snd].
  rewrite (bool_decide_eq_false_2 _ Hk), andb_true_r, negb_true_iff. split.
  - intros (v & Hv & ->). split; [by exists (k, v)|]. rewrite is_null_denoted. unfold no_null in Hz.
    rewrite forallb_forall in Hz. apply negb_true_iff, (Hz (k, v)), list_elem_of_In, Hv.
  - intros [([k' v] & [= -> ->] & Hv) _]. by exists v.
Qed.

Lemma denoted_object_fields m m' k : NoDup (map fst m) -> NoDup (map fst m') ->
  no_null m = true -> no_null m' = true -> k <> js "__proto__" ->
  denoted (JObj m) = denoted (JObj m') -> denoted <$> assoc k m = denoted <$> assoc k m'.
Proof.
  intros Hn Hn' Hz Hz' Hk [= E]. apply option_eq. intros w. rewrite !denoted_field by done.
  unfold on_values. by rewrite E.
Qed.

(** The bytes that are hashed for two documents (with distinct keys at every level, safe
    numbers and 16-bit units) are equal exactly when the documents have the same fields with
    the same values, whatever the order of the fields and whether absent ones are left out
    or [null]; so, unless BLAKE3 collides on the two byte strings, so are the digests. *)
Theorem confinement_digest_commits `{Blake3} v w :
  distinct_keys v = true -> distinct_keys w = true -> representable v = true -> representable w = true ->
  (blake3_hex (canonicalizeConfinement v) = blake3_hex (canonicalizeConfinement w) ->
     canonicalizeConfinement v = canonicalizeConfinement w) ->
  (canonicalizeConfinement v = canonicalizeConfinement w <-> denoted v = denoted w) /\
  (confinementDigest v = confinementDigest w <-> denoted v = denoted w).
Proof.
  intros Dv Dw Rv Rw Hcol.
  assert (Hb : canonicalizeConfinement v = canonicalizeConfinement w <-> denoted v = denoted w).
  { rewrite <- canonicalJson_inj by done. unfold canonicalizeConfinement. split; [|by intros ->].
    intros E. apply utf8_encode_inj in E; [done|..]; apply pretty_well_formed;
      rewrite sortKeysDeep_as_parsed by done; apply as_parsed_representable;
      auto using denoted_distinct, denoted_representable. }
  split; [done|]. rewrite <- Hb. unfold confinementDigest. split; [done|]. by intros ->.
Qed.

Lemma confinement_digest_commits_witness :
  let v := JObj [(js "b", JNum 1); (js "a", JNull)] in
  let w := JObj [(js "b", JNum 1)] in
  canonicalizeConfinement v = canonicalizeConfinement w.
Proof.
  intros v w.
  apply (@confinement_digest_commits (fun bs => toHex bs) v w); try (vm_compute; reflexivity).
Defined.

(** The keys are documented as ASCII-sorted at every level; an object lists the keys that are
    array indices first, in numeric order, whatever the order they are assigned in. *)
Lemma integer_keys_not_sorted :
  sortKeysDeep (JObj [(js "10", JNum 1); (js "9", JNum 2)]) = JObj [(js "9", JNum 2); (js "10", JNum 1)] /\
  ~ lex_le (js "9") (js "10").
Proof. split; [vm_compute; reflexivity|]. vm_compute. by intros []. Qed.
End ConfinementJson.
