(* ===== verification/Confinement.v ===== *)
(** The lattice of confinement documents (cli/lib/harness/confinement-lattice.mjs).

    The reach of a document is the set of points it grants: a right on a path, a host
    pattern, a listener, a right on a socket, a credential source.  [meet] is shown to be the
    intersection of reaches, in a normal form that is determined by the reach; the laws of
    the ratchet follow from these two facts. *)
From S2P Require Import Prelude JsString Sql Json JsonText JsConvert Antichain Canonical ConfinementJson.

Module Confinement.
Import JsonText JsConvert Antichain.

(** ** Documents *)

Inductive right := Read | Write | Connect | Bind.
#[global] Instance right_eq_dec : EqDecision right.
Proof. solve_decision. Defined.
#[global] Instance right_countable : Countable right.
Proof.
  refine (inj_countable' (fun r => match r with Read => 0 | Write => 1 | Connect => 2 | Bind => 3 end)%nat
    (fun n => match n with 0 => Read | 1 => Write | 2 => Connect | _ => Bind end)%nat _).
  by intros [].
Defined.

(** An entry of [fs.allow] or [unixSocket.allow]: a path, or a path with a mode. *)
Inductive entry := Bare (path : jsstr) | Moded (path mode : jsstr).
#[global] Instance entry_eq_dec : EqDecision entry.
Proof. solve_decision. Defined.

Record Port := { bind : Z; address : option jsstr }.
#[global] Instance Port_eq_dec : EqDecision Port.
Proof. solve_decision. Defined.

(** A block is absent, present without its list, or present with it. *)
Record Confinement := {
  version : jsstr;
  fs : option (option (list entry));
  network : option (option (list jsstr));
  port : option Port;
  unixSocket : option (option (list entry));
  credentialSource : option jsstr;
}.
#[global] Instance Confinement_eq_dec : EqDecision Confinement.
Proof. solve_decision. Defined.

Definition CONFINEMENT_VERSION : jsstr := js "cloister/confinement/v1".

Definition bottom : Confinement :=
  {| version := CONFINEMENT_VERSION; fs := None; network := None; port := None;
     unixSocket := None; credentialSource := None |}.

Inductive meet_error := UnknownMode (mode : jsstr) | VersionMismatch (left right : jsstr).

(** ** Paths and grants *)

Definition covers (parent child : jsstr) : bool :=
  bool_decide (parent = child) ||
  starts_with (if ends_with [47] parent then parent else parent ++ [47]) child.

Record grant := { path : jsstr; rights : gset right }.
#[global] Instance grant_eq_dec : EqDecision grant.
Proof. solve_decision. Defined.

Definition normalizeEntry (e : entry) (bareRights : list right) : result meet_error grant :=
  match e with
  | Bare p => Ok {| path := p; rights := list_to_set bareRights |}
  | Moded p m =>
      if bool_decide (m = js "rw") then Ok {| path := p; rights := {[Read; Write]} |}
      else if bool_decide (m = js "bind") then Ok {| path := p; rights := {[Bind]} |}
      else if bool_decide (m = js "connect-bind") then Ok {| path := p; rights := {[Connect; Bind]} |}
      else Throw (UnknownMode m)
  end.

(** [entries.map((e) => normalizeEntry(e, bareRights))] *)
Fixpoint normalizeEntries (es : list entry) (bareRights : list right) : result meet_error (list grant) :=
  match es with
  | [] => Ok []
  | e :: es' =>
      let? g := normalizeEntry e bareRights in
      let? gs := normalizeEntries es' bareRights in
      Ok (g :: gs)
  end.

Definition renderFsEntry (g : grant) : entry :=
  if bool_decide (Write ∈ rights g) then Moded (path g) (js "rw") else Bare (path g).

Definition renderSocketEntry (g : grant) : entry :=
  let connect := bool_decide (Connect ∈ rights g) in
  let bind := bool_decide (Bind ∈ rights g) in
  if connect && bind then Moded (path g) (js "connect-bind")
  else if bind then Moded (path g) (js "bind")
  else Bare (path g).

(** Whether the entry [y] at [j] makes the entry [x] at [i] redundant. *)
Definition subsumes (i : nat) (x : grant) (j : nat) (y : grant) : bool :=
  negb (bool_decide (j = i))
  && covers (path y) (path x)
  && bool_decide (rights x ⊆ rights y)
  && negb (bool_decide (path y = path x) && bool_decide (size (rights y) = size (rights x)) && (i <? j)%nat).

Definition dropSubsumed (entries : list grant) : list grant :=
  let indexed := imap pair entries in
  map snd (List.filter (fun ix => negb (existsb (fun jy => subsumes ix.1 ix.2 jy.1 jy.2) indexed)) indexed).

Definition by_path : grant -> grant -> bool := key_order path.

Definition narrower (a b : jsstr) : option jsstr :=
  if covers a b then Some b else if covers b a then Some a else None.

Definition common (path : jsstr) (a b : grant) : option grant :=
  let rights := rights a ∩ rights b in
  if bool_decide (rights = ∅) then None else Some {| path := path; rights := rights |}.

Definition meetGrants (left right : list grant) : list grant :=
  let out := a ← left; omap (fun b => path ← narrower (path a) (path b); common path a b) right in
  sort_by by_path (dropSubsumed out).

Definition meetExactGrants (left right : list grant) : list grant :=
  let out := omap (fun a => b ← find (fun r => bool_decide (path r = path a)) right; common (path a) a b) left in
  sort_by by_path out.

(** ** Hosts *)

Definition wild (s : jsstr) : bool := starts_with (js "*.") s.

Definition hostCovers (outer inner : jsstr) : bool :=
  if bool_decide (outer = inner) then true
  else if negb (wild outer) then false
  else
    let suffix := drop 1 outer in
    let bare := if wild inner then drop 1 inner else inner in
    ends_with suffix bare.

Definition narrower_host (a b : jsstr) : option jsstr :=
  if hostCovers a b then Some b else if hostCovers b a then Some a else None.

Definition meetHosts (left right : list jsstr) : list jsstr :=
  let push (a : jsstr) (out : list jsstr) (b : jsstr) :=
    match narrower_host a b with
    | Some kept => if bool_decide (kept ∈ out) then out else out ++ [kept]
    | None => out
    end in
  let out := fold_left (fun out a => fold_left (push a) right out) left [] in
  sort_by unit_le
    (List.filter (fun x => negb (existsb (fun y => negb (bool_decide (y = x)) && hostCovers y x) out)) out).

(** ** Listeners *)

Definition LOOPBACK : jsstr := js "127.0.0.1".
Definition EVERY_INTERFACE : jsstr := js "0.0.0.0".

Definition meetAddress (a b : jsstr) : option jsstr :=
  if bool_decide (a = b) then Some a
  else if bool_decide (a = EVERY_INTERFACE) then Some b
  else if bool_decide (b = EVERY_INTERFACE) then Some a
  else None.

Definition meetPort (left right : option Port) : option Port :=
  match left, right with
  | Some l, Some r =>
      if negb (bind l =? bind r) then None
      else
        address ← meetAddress (default LOOPBACK (address l)) (default LOOPBACK (address r));
        Some {| bind := bind l; address := if bool_decide (address = LOOPBACK) then None else Some address |}
  | _, _ => None
  end.

(** ** Documents *)

(** [block?.allow ?? []] *)
Definition listed {A} (block : option (option (list A))) : list A := default [] (default None block).

(** [if (l.length > 0) out.block = { allow: l }] *)
Definition block_of {A} (l : list A) : option (option (list A)) :=
  match l with [] => None | _ => Some (Some l) end.

Definition meet (left right : Confinement) : result meet_error Confinement :=
  check (bool_decide (version left = CONFINEMENT_VERSION) && bool_decide (version right = CONFINEMENT_VERSION))
    (VersionMismatch (version left) (version right))
  (let? l := normalizeEntries (listed (fs left)) [Read] in
   let? r := normalizeEntries (listed (fs right)) [Read] in
   let fs := meetGrants l r in
   let hosts := meetHosts (listed (network left)) (listed (network right)) in
   let port := meetPort (port left) (port right) in
   let? l := normalizeEntries (listed (unixSocket left)) [Connect] in
   let? r := normalizeEntries (listed (unixSocket right)) [Connect] in
   let sockets := meetExactGrants l r in
   Ok {| version := CONFINEMENT_VERSION;
         fs := block_of (map renderFsEntry fs);
         network := block_of hosts;
         port := port;
         unixSocket := block_of (map renderSocketEntry sockets);
         credentialSource :=
           if bool_decide (credentialSource left = None) then None
           else if bool_decide (credentialSource left = credentialSource right)
           then credentialSource left else None |}).

Definition ratchet (initial : Confinement) (restrictions : list Confinement) : result meet_error Confinement :=
  fold_left (fun acc r => let? d := acc in meet d r) restrictions (Ok initial).

Definition normalize (d : Confinement) : result meet_error Confinement := meet d d.

(** The document as the object [canonicalJson] is given. *)
Definition entry_json (e : entry) : Json :=
  match e with Bare p => JStr p | Moded p m => JObj [(js "path", JStr p); (js "mode", JStr m)] end.

Definition field (k : jsstr) (o : option Json) : list (jsstr * Json) :=
  match o with Some v => [(k, v)] | None => [] end.

Definition block_json {A} (name : jsstr) (f : A -> Json) (b : option (list A)) : Json :=
  JObj (field name (JArr ∘ map f <$> b)).

Definition port_json (p : Port) : Json :=
  JObj ((js "bind", JNum (bind p)) :: field (js "address") (JStr <$> address p)).

Definition fields (d : Confinement) : list (jsstr * Json) :=
  (js "version", JStr (version d))
    :: field (js "fs") (block_json (js "allow") entry_json <$> fs d)
    ++ field (js "network") (block_json (js "allowHosts") JStr <$> network d)
    ++ field (js "port") (port_json <$> port d)
    ++ field (js "unixSocket") (block_json (js "allow") entry_json <$> unixSocket d)
    ++ field (js "credentialSource") (JStr <$> credentialSource d).

Definition to_json (d : Confinement) : Json := JObj (fields d).

Definition leq (a b : Confinement) : result meet_error bool :=
  let? m := meet a b in
  let? n := normalize a in
  Ok (bool_decide (ConfinementJson.canonicalJson (to_json m) = ConfinementJson.canonicalJson (to_json n))).

(** The cases of the source's own examples. *)
Definition doc_fs (l : list entry) : Confinement :=
  {| version := CONFINEMENT_VERSION; fs := Some (Some l); network := None; port := None;
     unixSocket := None; credentialSource := None |}.

Example narrows_to_read :
  meet (doc_fs [Moded (js "/run/cloister/workspace/") (js "rw")]) (doc_fs [Bare (js "/run/cloister/")]) =
  Ok (doc_fs [Bare (js "/run/cloister/workspace/")]).
Proof. vm_compute. reflexivity. Qed.

Example escalation_survives :
  normalize (doc_fs [Bare (js "/r/"); Moded (js "/r/w/") (js "rw"); Bare (js "/r/")]) =
  Ok (doc_fs [Bare (js "/r/"); Moded (js "/r/w/") (js "rw")]).
Proof. vm_compute. reflexivity. Qed.

Example segments : meet (doc_fs [Bare (js "/opt/tool")]) (doc_fs [Bare (js "/opt/toolkit/data")]) = Ok bottom.
Proof. vm_compute. reflexivity. Qed.

(** ** The orders *)

Definition dir (p : jsstr) : jsstr := if ends_with [47] p then p else p ++ [47].

Lemma covers_iff p c : covers p c = true <-> p = c \/ exists t, c = dir p ++ t.
Proof. unfold covers. by rewrite orb_true_iff, bool_decide_eq_true, starts_with_iff. Qed.

Lemma dir_app p : exists t, dir p = p ++ t.
Proof. unfold dir. destruct (ends_with [47] p); [exists []; by rewrite app_nil_r|by eexists]. Qed.

(** Text whose start is the directory [p] names a directory that starts so. *)
Lemma dir_covered p c : (exists t, c = dir p ++ t) -> exists t, dir c = dir p ++ t.
Proof. intros [t ->]. destruct (dir_app (dir p ++ t)) as [u ->]. exists (t ++ u). by rewrite app_assoc. Qed.

#[global] Instance covers_order : GrantOrder jsstr covers.
Proof.
  split.
  - intros p. apply covers_iff. by left.
  - intros c b a Hcb Hba. rewrite covers_iff in *. destruct Hcb as [-> |Hcb]; [done|].
    right. destruct Hba as [<- |[u ->]]; [done|].
    destruct (dir_covered c b Hcb) as [t ->]. exists (t ++ u). by rewrite app_assoc.
  - intros a b Hab Hba. rewrite covers_iff in *. destruct Hab as [-> |[t Ht]]; [done|].
    destruct Hba as [-> |[u Hu]]; [done|].
    destruct (dir_app a) as [v Hv], (dir_app b) as [w Hw]. rewrite Hv in Ht. rewrite Hw in Hu.
    assert (length b = length a + length v + length t)%nat by (rewrite Ht; rewrite !length_app; lia).
    assert (length a = length b + length w + length u)%nat by (rewrite Hu; rewrite !length_app; lia).
    rewrite Ht. destruct v; [|cbn in *; lia]. destruct t; [|cbn in *; lia]. by rewrite !app_nil_r.
Qed.

(** Two starts of a text are comparable. *)
Lemma starts_comparable (a b t u : jsstr) : a ++ t = b ++ u -> (exists v, b = a ++ v) \/ (exists v, a = b ++ v).
Proof. intros (v & [[-> _]|[-> _]])%app_eq_app; eauto. Qed.

Lemma ends_comparable (a b t u : jsstr) : t ++ a = u ++ b -> (exists v, b = v ++ a) \/ (exists v, a = v ++ b).
Proof. intros (v & [[_ ->]|[_ ->]])%app_eq_app; eauto. Qed.

Lemma dir_start p q v : dir q = dir p ++ v -> covers p q = true \/ covers q p = true.
Proof.
  rewrite !covers_iff. intros E. unfold dir in E at 1. destruct (ends_with [47] q) eqn:Eq; [eauto|].
  destruct v as [|x v _] using rev_ind.
  - rewrite app_nil_r in E. unfold dir in E. destruct (ends_with [47] p) eqn:Ep.
    + right. right. exists []. unfold dir. by rewrite Eq, app_nil_r.
    + apply app_inj_tail in E as [-> _]. eauto.
  - rewrite app_assoc in E. apply app_inj_tail in E as [-> _]. eauto.
Qed.

Lemma covers_dir p c : covers p c = true -> exists t, dir c = dir p ++ t.
Proof. intros [-> |H]%covers_iff; [exists []; by rewrite app_nil_r|by apply dir_covered]. Qed.

Lemma narrower_spec a b x :
  covers a x = true /\ covers b x = true <-> exists c, narrower a b = Some c /\ covers c x = true.
Proof.
  unfold narrower. split.
  - intros [Ha Hb]. assert (Hc : covers a b = true \/ covers b a = true).
    { destruct (covers_dir _ _ Ha) as [t Ht], (covers_dir _ _ Hb) as [u Hu].
      rewrite Ht in Hu. apply starts_comparable in Hu as [[v Hv]|[v Hv]];
        apply dir_start in Hv; tauto. }
    destruct (covers a b); [by exists b|]. destruct Hc as [|Hc]; [done|]. rewrite Hc. by exists a.
  - intros (c & Hc & Hx). destruct (covers a b) eqn:Eab; [|destruct (covers b a) eqn:Eba; [|done]];
      injection Hc as <-; split; first [exact Hx | by eapply above_trans; [eassumption|]].
Qed.

Lemma wild_drop s : wild s = true -> s = 42 :: drop 1 s.
Proof. unfold wild. rewrite starts_with_iff. intros [t ->]. reflexivity. Qed.

Definition bare (s : jsstr) : jsstr := if wild s then drop 1 s else s.

Lemma hostCovers_iff o i :
  hostCovers o i = true <-> o = i \/ wild o = true /\ exists t, bare i = t ++ bare o.
Proof.
  unfold hostCovers, bare. case_bool_decide as E; [subst; naive_solver|].
  destruct (wild o) eqn:Ew; cbn [negb]; [rewrite ends_with_iff|]; naive_solver.
Qed.

#[global] Instance hostCovers_order : GrantOrder jsstr hostCovers.
Proof.
  split.
  - intros x. apply hostCovers_iff. by left.
  - intros x y z Hyx Hzy. rewrite hostCovers_iff in *. destruct Hyx as [-> |(Hw & t & Ht)]; [done|].
    destruct Hzy as [-> |(Hz & u & Hu)]; [eauto|]. right. split; [done|]. exists (u ++ t).
    by rewrite Hu, Ht, app_assoc.
  - intros x y Hxy Hyx. rewrite hostCovers_iff in *. destruct Hxy as [-> |(Hx & t & Ht)]; [done|].
    destruct Hyx as [-> |(Hy & u & Hu)]; [done|]. rewrite (wild_drop x Hx), (wild_drop y Hy). f_equal.
    unfold bare in Ht, Hu. rewrite Hx, Hy in *.
    assert (length (drop 1 y) = length t + length (drop 1 x))%nat by by rewrite Ht, length_app.
    assert (length (drop 1 x) = length u + length (drop 1 y))%nat by by rewrite Hu, length_app.
    rewrite Ht. destruct t; [done|cbn [length] in *; lia].
Qed.

#[global] Instance hostCovers_meet : GrantMeet (above := hostCovers) jsstr (fun _ => True) narrower_host.
Proof.
  intros a b x _. unfold narrower_host. split.
  - intros [Ha Hb]. assert (Hc : hostCovers a b = true \/ hostCovers b a = true).
    { pose proof Ha as Ha'. pose proof Hb as Hb'. rewrite hostCovers_iff in Ha', Hb'.
      destruct Ha' as [-> |(Hwa & t & Ht)]; [by right|]. destruct Hb' as [-> |(Hwb & u & Hu)]; [by left|].
      rewrite Ht in Hu. rewrite !hostCovers_iff. apply ends_comparable in Hu as [|]; eauto. }
    destruct (hostCovers a b); [by exists b|]. destruct Hc as [|Hc]; [done|]. rewrite Hc. by exists a.
  - intros (c & Hc & Hx). destruct (hostCovers a b) eqn:Eab; [|destruct (hostCovers b a) eqn:Eba; [|done]];
      injection Hc as <-; split; first [exact Hx | by eapply above_trans; [eassumption|]].
Qed.

(** ** Grants *)

Definition implies (y x : grant) : bool := covers (path y) (path x) && bool_decide (rights x ⊆ rights y).

Lemma grant_eq (x y : grant) : path x = path y -> rights x = rights y -> x = y.
Proof. destruct x, y. cbn. congruence. Qed.

#[global] Instance implies_order : GrantOrder grant implies.
Proof.
  split.
  - intros x. unfold implies. by rewrite above_refl, bool_decide_eq_true_2.
  - intros x y z. unfold implies. rewrite !andb_true_iff, !bool_decide_eq_true.
    intros [H1 H2] [H3 H4]. split; [by eapply above_trans|set_solver].
  - intros x y. unfold implies. rewrite !andb_true_iff, !bool_decide_eq_true.
    intros [H1 H2] [H3 H4]. apply grant_eq; [by apply (above_antisym (above := covers))|set_solver].
Qed.

Definition grants_something (x : grant) : Prop := rights x <> ∅.

Definition meet_grant (a b : grant) : option grant := path ← narrower (path a) (path b); common path a b.

Lemma common_Some p a b c :
  common p a b = Some c <-> path c = p /\ rights c = rights a ∩ rights b /\ grants_something c.
Proof.
  unfold common, grants_something. case_bool_decide as E; split; try done.
  - intros (_ & -> & Hn). done.
  - by intros [= <-].
  - intros (Hp & Hr & _). f_equal. by apply grant_eq.
Qed.

#[global] Instance implies_meet : GrantMeet (above := implies) grant grants_something meet_grant.
Proof.
  intros a b x Hx. unfold implies, meet_grant. setoid_rewrite andb_true_iff.
  setoid_rewrite bool_decide_eq_true. split.
  - intros [[Ha Hra] [Hb Hrb]]. destruct (proj1 (narrower_spec _ _ _) (conj Ha Hb)) as (p & Hp & Hpx).
    exists {| path := p; rights := rights a ∩ rights b |}. split; [|split; [done|cbn; set_solver]].
    rewrite Hp. cbn [mbind option_bind]. apply common_Some. split; [done|]. split; [done|].
    unfold grants_something in *. cbn. set_solver.
  - intros (c & (p & Hp & (Hc & Hr & Hn)%common_Some)%bind_Some & Hcx & Hrx).
    destruct (proj2 (narrower_spec (path a) (path b) (path x))) as [Ha Hb]; [exists p; split; [done|by rewrite <- Hc]|].
    set_solver.
Qed.

(** ** Redundant entries *)

Lemma subsumes_iff i x j y :
  subsumes i x j y = true <-> j <> i /\ implies y x = true /\ ~ (y = x /\ (i < j)%nat).
Proof.
  unfold subsumes, implies. rewrite !andb_true_iff, !negb_true_iff, !andb_false_iff, !bool_decide_eq_false,
    !bool_decide_eq_true, Nat.ltb_ge.
  assert (E : rights x ⊆ rights y -> (y = x <-> path y = path x /\ size (rights y) = size (rights x))).
  { intros Hs. split; [by intros ->|]. intros [Hp Hz]. apply grant_eq; [done|]. symmetry.
    apply set_subseteq_size_eq; [done|lia]. }
  split.
  - intros [[[Hj Hc] Hr] Hn]. split; [done|]. split; [done|]. rewrite E by done. intros [[? ?] ?].
    destruct Hn as [[?|?]|?]; try done. lia.
  - intros (Hj & [Hc Hr] & Hn). rewrite E in Hn by done. split; [done|].
    destruct (decide (path y = path x)); [|by left; left].
    destruct (decide (size (rights y) = size (rights x))); [|by left; right].
    right. destruct (decide (i < j)%nat); [|lia]. by destruct Hn.
Qed.

Lemma elem_of_indexed {A} (l : list A) ix : ix ∈ imap pair l <-> l !! ix.1 = Some ix.2.
Proof.
  rewrite elem_of_lookup_imap. destruct ix as [i x]. split; [by intros (? & ? & [= <- <-] & ?)|]. by exists i, x.
Qed.

Lemma NoDup_indexed {A} (l : list A) : NoDup (imap pair l).
Proof.
  apply NoDup_alt. intros i j [k x]. rewrite !list_lookup_imap. intros (? & _ & [= -> _])%fmap_Some (? & _ & [= -> _])%fmap_Some.
  done.
Qed.

Lemma existsb_false {A} (p : A -> bool) l : existsb p l = false <-> forall x, x ∈ l -> p x = false.
Proof.
  rewrite <- not_true_iff_false, existsb_exists. split.
  - intros Hn x Hx. destruct (p x) eqn:E; [|done]. destruct Hn. exists x. by rewrite <- list_elem_of_In.
  - intros Hn (x & Hx%list_elem_of_In & Hp). by rewrite Hn in Hp.
Qed.

(** An entry is kept when nothing implies it, at its first place. *)
Lemma kept_iff l i x :
  (i, x) ∈ List.filter (fun ix => negb (existsb (fun jy => subsumes ix.1 ix.2 jy.1 jy.2) (imap pair l))) (imap pair l) <->
  l !! i = Some x /\ maximal (above := implies) l x = true /\ forall j, (j < i)%nat -> l !! j <> Some x.
Proof.
  rewrite list_elem_of_In, filter_In, <- list_elem_of_In, elem_of_indexed, negb_true_iff, existsb_false, maximal_iff.
  cbn [fst snd]. split.
  - intros [Hi Hn]. assert (Hm : forall j y, l !! j = Some y -> j <> i -> implies y x = true -> y = x /\ (i < j)%nat).
    { intros j y Hj Hji Hyx. apply dec_stable. intros Hne. specialize (Hn (j, y)).
      rewrite elem_of_indexed in Hn. specialize (Hn Hj). apply not_true_iff_false in Hn. apply Hn.
      by apply subsumes_iff. }
    split; [done|]. split.
    + intros y [j Hj]%list_elem_of_lookup Hyx. destruct (decide (j = i)) as [-> |]; [congruence|]. by apply (Hm j).
    + intros j Hlt Hj. destruct (Hm j x Hj) as [_ ?]; [lia|apply above_refl|lia].
  - intros (Hi & Hm & Hf). split; [done|]. intros [j y] Hj%elem_of_indexed. cbn [fst snd] in *.
    apply not_true_iff_false. rewrite subsumes_iff. intros (Hji & Hyx & Hn).
    assert (y = x) as -> by (apply Hm; [by eapply list_elem_of_lookup_2|done]).
    destruct (decide (j < i)%nat) as [Hlt|Hge]; [by apply (Hf j)|]. apply Hn. split; [done|lia].
Qed.

Lemma dropSubsumed_elem l x : x ∈ dropSubsumed l <-> x ∈ l /\ maximal (above := implies) l x = true.
Proof.
  unfold dropSubsumed. rewrite (list_elem_of_fmap snd). split.
  - intros ([i y] & -> & (Hi & Hm & _)%kept_iff). split; [by eapply list_elem_of_lookup_2|done].
  - intros [Hx Hm]. destruct (list_find (x =.) l) as [[i y]|] eqn:E.
    + apply list_find_Some in E as (Hi & <- & Hf). exists (i, x). split; [done|]. apply kept_iff.
      split; [done|]. split; [done|]. intros j Hlt Hj. by apply (Hf j x).
    + apply list_find_None in E. rewrite Forall_forall in E. by destruct (E x Hx).
Qed.

Lemma NoDup_dropSubsumed l : NoDup (dropSubsumed l).
Proof.
  apply NoDup_fmap_2_strong; [|eapply sublist_NoDup; [apply NoDup_indexed|apply sublist_filter]].
  intros [i x] [j y] (Hi & _ & Hfi)%kept_iff (Hj & _ & Hfj)%kept_iff [= <-].
  f_equal. destruct (lt_eq_lt_dec i j) as [[Hlt|]|Hlt]; [|done|].
  - by destruct (Hfj i Hlt).
  - by destruct (Hfi j Hlt).
Qed.

(** ** The meet of path grants *)

Definition pairs (l r : list grant) : list grant := a ← l; omap (meet_grant a) r.

Lemma elem_of_pairs l r c :
  c ∈ pairs l r <-> exists a b, a ∈ l /\ b ∈ r /\ meet_grant a b = Some c.
Proof.
  unfold pairs. rewrite list_elem_of_bind. setoid_rewrite list_elem_of_omap. naive_solver.
Qed.

Lemma elem_of_meetGrants l r x :
  x ∈ meetGrants l r <->
  x ∈ pairs l r /\ maximal (above := implies) (pairs l r) x = true.
Proof. unfold meetGrants. rewrite (elem_of_sort_by by_path). apply dropSubsumed_elem. Qed.

Lemma down_meetGrants l r x : grants_something x ->
  down (above := implies) (meetGrants l r) x <-> down (above := implies) l x /\ down (above := implies) r x.
Proof.
  intros Hx. rewrite (down_maximal _ _ x (elem_of_meetGrants l r)).
  by apply (down_pairs grants_something meet_grant), Hx; apply elem_of_pairs.
Qed.

(** [r] is granted on [p]. *)
Definition permits (gs : list grant) (p : jsstr) (r : right) : Prop :=
  exists g, g ∈ gs /\ covers (path g) p = true /\ r ∈ rights g.

Lemma permits_down gs p r : permits gs p r <-> down (above := implies) gs {| path := p; rights := {[r]} |}.
Proof.
  unfold permits, down, implies. cbn [path rights]. setoid_rewrite andb_true_iff.
  setoid_rewrite bool_decide_eq_true. by setoid_rewrite singleton_subseteq_l.
Qed.

Lemma permits_meetGrants l r p q : permits (meetGrants l r) p q <-> permits l p q /\ permits r p q.
Proof. rewrite !permits_down. apply down_meetGrants. unfold grants_something. cbn. set_solver. Qed.

(** The rights of an entry of [fs]. *)
Definition fs_rights (g : grant) : Prop := rights g = {[Read]} \/ rights g = {[Read; Write]}.

Record fs_normal (gs : list grant) : Prop := {
  fn_rights : Forall fs_rights gs;
  fn_antichain : antichain (above := implies) gs;
  fn_sorted : StronglySorted (fun x y => by_path x y = true) gs;
  fn_keys : NoDup (map path gs);
}.

Lemma fs_rights_point g : fs_rights g -> grants_something g.
Proof. unfold grants_something. intros [-> | ->]; set_solver. Qed.

Lemma fs_rights_chain x y : fs_rights x -> fs_rights y -> path x = path y -> implies x y = true \/ implies y x = true.
Proof.
  intros Hx Hy E. unfold implies. rewrite !andb_true_iff, !bool_decide_eq_true, E, (above_refl (above := covers)).
  destruct Hx as [-> | ->], Hy as [-> | ->]; set_solver.
Qed.

Lemma meet_grant_fs a b c : fs_rights a -> fs_rights b -> meet_grant a b = Some c -> fs_rights c.
Proof.
  intros Ha Hb (p & _ & (_ & Hr & _)%common_Some)%bind_Some. unfold fs_rights. rewrite Hr.
  destruct Ha as [-> | ->], Hb as [-> | ->]; [left|left|left|right]; set_solver.
Qed.

Lemma meetGrants_normal l r : Forall fs_rights l -> Forall fs_rights r -> fs_normal (meetGrants l r).
Proof.
  rewrite !Forall_forall. intros Hl Hr.
  assert (Hf : forall x, x ∈ meetGrants l r -> fs_rights x).
  { intros x [(a & b & Ha & Hb & Hc)%elem_of_pairs _]%elem_of_meetGrants. eapply meet_grant_fs, Hc; auto. }
  assert (Ha : antichain (above := implies) (meetGrants l r)) by apply (antichain_maximal _ _ (elem_of_meetGrants l r)).
  split; [by apply Forall_forall|done|apply key_sort_sorted|].
  apply NoDup_fmap_2_strong; [|unfold meetGrants; rewrite sort_by_perm; apply NoDup_dropSubsumed].
  intros x y Hx Hy E. destruct (fs_rights_chain x y (Hf x Hx) (Hf y Hy) E) as [Hi|Hi].
  - by apply Ha.
  - symmetry. by apply Ha.
Qed.

(** A point is permitted when its largest right is. *)
Lemma down_permits gs x : Forall fs_rights gs -> grants_something x ->
  down (above := implies) gs x <->
  rights x ⊆ {[Read; Write]} /\ permits gs (path x) (if bool_decide (Write ∈ rights x) then Write else Read).
Proof.
  rewrite Forall_forall. unfold down, permits, implies, grants_something. intros Hg Hx. split.
  - intros (g & Hgs & [Hc Hr%bool_decide_eq_true]%andb_true_iff). specialize (Hg g Hgs).
    split; [destruct Hg as [Hg|Hg]; rewrite Hg in Hr; set_solver|]. exists g. split; [done|]. split; [done|].
    case_bool_decide; [set_solver|]. destruct Hg as [-> | ->]; set_solver.
  - intros (Hs & g & Hgs & Hc & Hr). exists g. split; [done|]. rewrite Hc. apply bool_decide_eq_true.
    specialize (Hg g Hgs). intros q Hq. specialize (Hs q Hq). case_bool_decide; destruct Hg as [Hg|Hg]; rewrite Hg in *;
      set_unfold; destruct q; naive_solver.
Qed.

Lemma fs_normal_unique gs gs' :
  fs_normal gs -> fs_normal gs' -> (forall p r, permits gs p r <-> permits gs' p r) -> gs = gs'.
Proof.
  intros [Hr Ha Hs Hk] [Hr' Ha' Hs' Hk'] Hp. apply (keyed_sorted_unique path); try done.
  apply NoDup_Permutation; [by apply (NoDup_fmap_1 path)..|].
  apply (antichain_down (above := implies) grants_something); try done.
  - eapply Forall_impl; [exact Hr|apply fs_rights_point].
  - eapply Forall_impl; [exact Hr'|apply fs_rights_point].
  - intros x Hx. rewrite !down_permits by done. by rewrite Hp.
Qed.

Lemma fs_entries_roundtrip gs : Forall fs_rights gs -> normalizeEntries (map renderFsEntry gs) [Read] = Ok gs.
Proof.
  induction 1 as [|g gs Hg Hgs IH]; [done|]. cbn [map normalizeEntries]. rewrite IH.
  assert (E : normalizeEntry (renderFsEntry g) [Read] = Ok g); [|by rewrite E].
  unfold renderFsEntry. destruct g as [p rs]. unfold fs_rights in Hg. cbn [rights path] in *.
  destruct Hg as [-> | ->]; case_bool_decide; set_solver || done.
Qed.

(** ** Sockets *)

Definition permits_exact (gs : list grant) (p : jsstr) (r : right) : Prop :=
  exists g, g ∈ gs /\ path g = p /\ r ∈ rights g.

Definition socket_rights (g : grant) : Prop := rights g ⊆ {[Connect; Bind]} /\ rights g <> ∅.

Record sockets_normal (gs : list grant) : Prop := {
  sn_rights : Forall socket_rights gs;
  sn_sorted : StronglySorted (fun x y => by_path x y = true) gs;
  sn_keys : NoDup (map path gs);
}.

Lemma same_key {A} (key : A -> jsstr) l x y : NoDup (map key l) -> x ∈ l -> y ∈ l -> key x = key y -> x = y.
Proof.
  intros Hn Hx Hy E. induction l as [|z l IH]; [by apply not_elem_of_nil in Hx|]. cbn in Hn.
  apply NoDup_cons in Hn as [Hz Hn]. rewrite elem_of_cons in Hx, Hy.
  destruct Hx as [-> |Hx], Hy as [-> |Hy]; [done|..|by apply IH]; exfalso; apply Hz.
  - rewrite E. by apply (list_elem_of_fmap_2 key).
  - rewrite <- E. by apply (list_elem_of_fmap_2 key).
Qed.

(** With one entry per path the first entry found is the entry. *)
Lemma find_by_path gs p g : NoDup (map path gs) ->
  find (fun r => bool_decide (path r = p)) gs = Some g <-> g ∈ gs /\ path g = p.
Proof.
  intros Hn. split.
  - intros [Hg Hp%bool_decide_eq_true]%find_some. by rewrite list_elem_of_In.
  - intros [Hg Hp]. destruct (find (fun r => bool_decide (path r = p)) gs) as [h|] eqn:E.
    + apply find_some in E as [Hh%list_elem_of_In Hhp%bool_decide_eq_true]. f_equal.
      apply (same_key path gs); congruence.
    + exfalso. eapply find_none in E; [|by apply list_elem_of_In]. by rewrite bool_decide_eq_true_2 in E.
Qed.

Lemma elem_of_meetExactGrants l r c : NoDup (map path r) ->
  c ∈ meetExactGrants l r <->
  exists a b, a ∈ l /\ b ∈ r /\ path a = path c /\ path b = path c /\
    rights c = rights a ∩ rights b /\ grants_something c.
Proof.
  intros Hn. unfold meetExactGrants. rewrite (elem_of_sort_by by_path), list_elem_of_omap.
  setoid_rewrite bind_Some. setoid_rewrite common_Some. setoid_rewrite find_by_path; [|done].
  split.
  - intros (a & Ha & b & [Hb Hp] & Hc & Hr & Hs). exists a, b. by rewrite Hc.
  - intros (a & b & Ha & Hb & Hpa & Hpb & Hr & Hs). exists a. split; [done|]. exists b. by rewrite Hpa.
Qed.

(** Whatever is listed, a grant of the meet is a part of a grant of each side. *)
Lemma meetExactGrants_within l r c : c ∈ meetExactGrants l r ->
  exists a b, a ∈ l /\ b ∈ r /\ path a = path c /\ path b = path c /\ rights c = rights a ∩ rights b /\ grants_something c.
Proof.
  unfold meetExactGrants. rewrite (elem_of_sort_by by_path), list_elem_of_omap.
  intros (a & Ha & (b & [Hb Hp%bool_decide_eq_true]%find_some & (Hc & Hr & Hs)%common_Some)%bind_Some).
  exists a, b. split; [done|]. split; [by apply list_elem_of_In|]. by rewrite Hc.
Qed.

Lemma meetExactGrants_rights l r : Forall socket_rights l -> Forall socket_rights (meetExactGrants l r).
Proof.
  rewrite !Forall_forall. intros Hs c (a & b & Ha & _ & _ & _ & Hc & Hn)%meetExactGrants_within.
  specialize (Hs a Ha) as [Hs _]. split; [rewrite Hc; set_solver|done].
Qed.

Lemma permits_within l r p q : permits_exact (meetExactGrants l r) p q -> permits_exact l p q /\ permits_exact r p q.
Proof.
  intros (c & (a & b & Ha & Hb & Hpa & Hpb & Hrc & _)%meetExactGrants_within & <- & Hq). rewrite Hrc in Hq.
  split; [exists a|exists b]; set_solver.
Qed.

Lemma permits_both l r p q : NoDup (map path r) -> permits_exact l p q -> permits_exact r p q -> permits_exact (meetExactGrants l r) p q.
Proof.
  intros Hr (a & Ha & Hpa & Hqa) (b & Hb & Hpb & Hqb).
  exists {| path := p; rights := rights a ∩ rights b |}. split; [|cbn; set_solver].
  apply elem_of_meetExactGrants; [done|]. exists a, b. unfold grants_something. cbn. set_solver.
Qed.

Lemma permits_meetExactGrants l r p q : NoDup (map path l) -> NoDup (map path r) ->
  permits_exact (meetExactGrants l r) p q <-> permits_exact l p q /\ permits_exact r p q.
Proof.
  intros Hl Hr. split; [apply permits_within|]. intros [??]. by apply permits_both.
Qed.

Lemma NoDup_omap_key {A B} (key : A -> jsstr) (key' : B -> jsstr) (f : A -> option B) l :
  (forall x y, f x = Some y -> key' y = key x) -> NoDup (map key l) -> NoDup (map key' (omap f l)).
Proof.
  intros Hf. induction l as [|x l IH]; [constructor|]. cbn. intros [Hx Hn]%NoDup_cons.
  destruct (f x) as [y|] eqn:E; [|by apply IH]. cbn. apply NoDup_cons. split; [|by apply IH].
  intros (z & Hz & (w & Hw & Hwz)%list_elem_of_omap)%list_elem_of_fmap. apply Hx.
  apply Hf in E, Hwz. rewrite <- E, Hz, Hwz. by apply (list_elem_of_fmap_2 key).
Qed.

Lemma meetExactGrants_normal l r :
  Forall socket_rights l -> NoDup (map path l) -> NoDup (map path r) -> sockets_normal (meetExactGrants l r).
Proof.
  intros Hs Hl Hr. split.
  - by apply meetExactGrants_rights.
  - apply key_sort_sorted.
  - unfold meetExactGrants. rewrite sort_by_perm. apply (NoDup_omap_key path path); [|done].
    by intros x y (b & _ & (Hp & _)%common_Some)%bind_Some.
Qed.

Lemma sockets_normal_unique gs gs' :
  sockets_normal gs -> sockets_normal gs' -> (forall p r, permits_exact gs p r <-> permits_exact gs' p r) -> gs = gs'.
Proof.
  intros [Hr Hs Hk] [Hr' Hs' Hk'] Hp. apply (keyed_sorted_unique path); try done.
  apply NoDup_Permutation; [by apply (NoDup_fmap_1 path)..|].
  assert (Hone : forall gs gs', NoDup (map path gs) -> NoDup (map path gs') -> Forall socket_rights gs ->
    (forall p r, permits_exact gs p r <-> permits_exact gs' p r) -> forall g, g ∈ gs -> g ∈ gs').
  { clear. intros gs gs' Hk Hk' Hr Hp g Hg. rewrite Forall_forall in Hr.
    assert (Hx : exists r, r ∈ rights g) by (apply set_choose_L, Hr, Hg). destruct Hx as [r Hgr].
    destruct (proj1 (Hp (path g) r)) as (h & Hh & Hhp & _); [by exists g|].
    replace g with h; [done|]. apply grant_eq; [done|]. apply set_eq. intros q.
    assert (Hq : forall gs g, NoDup (map path gs) -> g ∈ gs -> q ∈ rights g <-> permits_exact gs (path g) q).
    { intros ks k Hks Hki. split; [by exists k|]. intros (k' & Hk'i & E & Hkq).
      by rewrite <- (same_key path ks k' k). }
    rewrite (Hq gs g), (Hq gs' h), Hhp by done. by rewrite Hp. }
  intros g. split; [by apply (Hone gs gs')|by apply (Hone gs' gs)].
Qed.

Lemma socket_entries_roundtrip gs :
  Forall socket_rights gs -> normalizeEntries (map renderSocketEntry gs) [Connect] = Ok gs.
Proof.
  induction 1 as [|[p rs] gs [Hs Hn] Hgs IH]; [done|]. cbn [map normalizeEntries]. rewrite IH.
  cbn [rights path] in *.
  assert (Hc : rs = {[Connect; Bind]} \/ rs = {[Bind]} \/ rs = {[Connect]}).
  { destruct (decide (Connect ∈ rs)), (decide (Bind ∈ rs)).
    - left. set_solver.
    - right. right. apply set_eq. intros x. specialize (Hs x). set_unfold. naive_solver.
    - right. left. apply set_eq. intros x. specialize (Hs x). set_unfold. naive_solver.
    - destruct Hn. apply set_eq. intros x. specialize (Hs x). set_unfold. naive_solver. }
  unfold renderSocketEntry. cbn [rights path].
  destruct Hc as [-> |[-> | ->]]; repeat case_bool_decide; set_solver || done.
Qed.

(** ** Hosts *)

Definition host_order (l : list jsstr) : Prop := StronglySorted (fun x y => unit_le x y = true) l.

Record hosts_normal (l : list jsstr) : Prop := {
  hn_antichain : antichain (above := hostCovers) l;
  hn_sorted : host_order l;
  hn_distinct : NoDup l;
}.

Definition push (a : jsstr) (out : list jsstr) (b : jsstr) : list jsstr :=
  match narrower_host a b with
  | Some kept => if bool_decide (kept ∈ out) then out else out ++ [kept]
  | None => out
  end.

Definition host_pairs (l r : list jsstr) : list jsstr := fold_left (fun out a => fold_left (push a) r out) l [].

Lemma push_spec a b out c :
  (c ∈ push a out b <-> c ∈ out \/ narrower_host a b = Some c) /\ (NoDup out -> NoDup (push a out b)).
Proof.
  unfold push. destruct (narrower_host a b) as [k|]; [|naive_solver].
  case_bool_decide as Hk; [naive_solver|]. split; [set_solver|].
  intros Hn. apply NoDup_app. split; [done|]. split; [set_solver|apply NoDup_singleton].
Qed.

Lemma row_spec a r out c :
  (c ∈ fold_left (push a) r out <-> c ∈ out \/ exists b, b ∈ r /\ narrower_host a b = Some c) /\
  (NoDup out -> NoDup (fold_left (push a) r out)).
Proof.
  revert out. induction r as [|b r IH]; intros out; cbn [fold_left]; [set_solver|].
  destruct (IH (push a out b)) as [H1 H2], (push_spec a b out c) as [H3 H4]. split; [|tauto].
  rewrite H1, H3. set_solver.
Qed.

Lemma host_pairs_spec l r c :
  (c ∈ host_pairs l r <-> exists a b, a ∈ l /\ b ∈ r /\ narrower_host a b = Some c) /\ NoDup (host_pairs l r).
Proof.
  assert (H : forall out, (c ∈ fold_left (fun out a => fold_left (push a) r out) l out <->
    c ∈ out \/ exists a b, a ∈ l /\ b ∈ r /\ narrower_host a b = Some c) /\
    (NoDup out -> NoDup (fold_left (fun out a => fold_left (push a) r out) l out))).
  { induction l as [|a l IH]; intros out; cbn [fold_left]; [set_solver|].
    destruct (IH (fold_left (push a) r out)) as [H1 H2], (row_spec a r out c) as [H3 H4].
    split; [|tauto]. rewrite H1, H3. set_solver. }
  destruct (H []) as [H1 H2]. unfold host_pairs. split; [rewrite H1; set_solver|]. by apply H2, NoDup_nil.
Qed.

Lemma elem_of_meetHosts l r x :
  x ∈ meetHosts l r <-> x ∈ host_pairs l r /\ maximal (above := hostCovers) (host_pairs l r) x = true.
Proof.
  unfold meetHosts. rewrite (elem_of_sort_by unit_le), list_elem_of_In, filter_In, <- list_elem_of_In.
  change (fold_left _ l []) with (host_pairs l r). apply and_iff_compat_l.
  rewrite negb_true_iff, existsb_false, maximal_iff. apply forall_proper. intros y.
  rewrite andb_false_iff, negb_false_iff, bool_decide_eq_true. destruct (hostCovers y x); naive_solver.
Qed.

Lemma meetHosts_normal l r : hosts_normal (meetHosts l r).
Proof.
  split.
  - apply (antichain_maximal _ _ (elem_of_meetHosts l r)).
  - apply sort_by_sorted; [apply unit_le_total|apply unit_le_trans].
  - unfold meetHosts. rewrite sort_by_perm. eapply sublist_NoDup, sublist_filter.
    apply (proj2 (host_pairs_spec l r [])).
Qed.

Lemma down_meetHosts l r x :
  down (above := hostCovers) (meetHosts l r) x <-> down (above := hostCovers) l x /\ down (above := hostCovers) r x.
Proof.
  rewrite (down_maximal _ _ x (elem_of_meetHosts l r)).
  apply (down_pairs (fun _ => True) narrower_host); [|done]. intros c. apply host_pairs_spec.
Qed.

Lemma hosts_normal_unique l l' : hosts_normal l -> hosts_normal l' ->
  (forall x, down (above := hostCovers) l x <-> down (above := hostCovers) l' x) -> l = l'.
Proof.
  intros [Ha Hs Hn] [Ha' Hs' Hn'] Hd.
  assert (Hp : l ≡ₚ l').
  { apply NoDup_Permutation; [done..|]. apply (antichain_down (above := hostCovers) (fun _ => True)); try done;
      by apply Forall_forall. }
  assert (Hu : AntiSymm (=) (fun x y => unit_le x y = true)) by exact unit_le_antisym.
  by apply (StronglySorted_unique (fun x y => unit_le x y = true)).
Qed.

(** ** Listeners *)

(** The addresses a listener may use. *)
Definition listens (p : option Port) (n : Z) (a : jsstr) : Prop :=
  exists q, p = Some q /\ bind q = n /\
    (default LOOPBACK (address q) = a \/ default LOOPBACK (address q) = EVERY_INTERFACE).

Definition port_normal (p : option Port) : Prop :=
  match p with Some q => address q <> Some LOOPBACK | None => True end.

Lemma meetAddress_spec a b c :
  (exists m, meetAddress a b = Some m /\ (m = c \/ m = EVERY_INTERFACE)) <->
  (a = c \/ a = EVERY_INTERFACE) /\ (b = c \/ b = EVERY_INTERFACE).
Proof. unfold meetAddress. repeat case_bool_decide; naive_solver. Qed.

Lemma default_loopback m :
  default LOOPBACK (if bool_decide (m = LOOPBACK) then None else Some m) = m.
Proof. by case_bool_decide. Qed.

Lemma listens_meetPort l r n a : listens (meetPort l r) n a <-> listens l n a /\ listens r n a.
Proof.
  unfold listens, meetPort. destruct l as [l|], r as [r|]; try naive_solver.
  pose proof (meetAddress_spec (default LOOPBACK (address l)) (default LOOPBACK (address r)) a) as Hm.
  destruct (Z.eqb_spec (bind l) (bind r)) as [E|E]; cbn [negb]; [|naive_solver]. split.
  - intros (q & (m & Hq & [= <-])%bind_Some & Hn & Ha). cbn [address bind] in *. rewrite default_loopback in Ha.
    destruct (proj1 Hm) as [H1 H2]; [by exists m|]. split; [exists l|exists r]; (split; [done|]; split; [congruence|done]).
  - intros [(q & [= <-] & Hn & Ha) (q' & [= <-] & Hn' & Ha')].
    destruct (proj2 Hm (conj Ha Ha')) as (m & Hq & Hc). rewrite Hq. eexists. split; [reflexivity|].
    cbn [address bind]. by rewrite default_loopback.
Qed.

Lemma meetPort_normal l r : port_normal (meetPort l r).
Proof.
  unfold meetPort. destruct l as [l|], r as [r|]; try done. destruct (negb _); [done|].
  destruct (meetAddress _ _) as [m|]; [|done]. cbn. case_bool_decide; [done|]. naive_solver.
Qed.

Lemma port_normal_unique p q : port_normal p -> port_normal q ->
  (forall n a, listens p n a <-> listens q n a) -> p = q.
Proof.
  assert (Hself : forall p, listens (Some p) (bind p) (default LOOPBACK (address p))) by (intros x; exists x; eauto).
  intros Hp Hq Hl. destruct p as [[n a]|], q as [[m b]|]; try done.
  - pose proof (proj1 (Hl _ _) (Hself _)) as (? & [= <-] & H1 & H2).
    pose proof (proj2 (Hl _ _) (Hself _)) as (? & [= <-] & H3 & H4).
    cbn [bind address] in *. subst n.
    assert (E : default LOOPBACK a = default LOOPBACK b) by (destruct H2, H4; congruence).
    do 2 f_equal. cbn in Hp, Hq. destruct a, b; cbn in E; congruence.
  - by destruct (proj1 (Hl _ _) (Hself _)) as (? & ? & _).
  - by destruct (proj2 (Hl _ _) (Hself _)) as (? & ? & _).
Qed.

(** ** The reach of a document *)

Inductive point :=
  | OnPath (p : jsstr) (r : right)
  | OnHost (h : jsstr)
  | OnPort (n : Z) (address : jsstr)
  | OnSocket (p : jsstr) (r : right)
  | FromSource (s : jsstr).

Definition grants_of (bare : right) (block : option (option (list entry))) : list grant :=
  match normalizeEntries (listed block) [bare] with Ok gs => gs | Throw _ => [] end.

Definition reach (d : Confinement) (x : point) : Prop :=
  match x with
  | OnPath p r => permits (grants_of Read (fs d)) p r
  | OnHost h => down (above := hostCovers) (listed (network d)) h
  | OnPort n a => listens (port d) n a
  | OnSocket p r => permits_exact (grants_of Connect (unixSocket d)) p r
  | FromSource s => credentialSource d = Some s
  end.

Definition mode_ok (modes : list jsstr) (e : entry) : bool :=
  match e with Bare _ => true | Moded _ m => bool_decide (m ∈ modes) end.
Definition entry_path (e : entry) : jsstr := match e with Bare p | Moded p _ => p end.

(** What the schema says of a document, with a test for each kind of string. *)
Record strings_ok := { path_ok : jsstr -> bool; host_ok : jsstr -> bool; address_ok : jsstr -> bool; source_ok : jsstr -> bool }.

Definition entry_ok (k : strings_ok) (modes : list jsstr) (e : entry) : bool := mode_ok modes e && path_ok k (entry_path e).

Definition port_ok (k : strings_ok) (p : Port) : bool :=
  (1024 <=? bind p) && (bind p <=? 65535) && default true (address_ok k <$> address p).

Definition valid (k : strings_ok) (d : Confinement) : bool :=
  bool_decide (version d = CONFINEMENT_VERSION)
  && forallb (entry_ok k [js "rw"]) (listed (fs d))
  && forallb (host_ok k) (listed (network d))
  && default true (port_ok k <$> port d)
  && forallb (entry_ok k [js "bind"; js "connect-bind"]) (listed (unixSocket d))
  && default true (source_ok k <$> credentialSource d).

(** No socket is listed twice. *)
Definition sockets_distinct (d : Confinement) : bool :=
  bool_decide (NoDup (map entry_path (listed (unixSocket d)))).

(** ** Valid documents *)

Lemma listed_block_of {A} (l : list A) : listed (block_of l) = l.
Proof. by destruct l. Qed.

Lemma valid_iff k d : valid k d = true <->
  version d = CONFINEMENT_VERSION /\ forallb (entry_ok k [js "rw"]) (listed (fs d)) = true /\
  forallb (host_ok k) (listed (network d)) = true /\ default true (port_ok k <$> port d) = true /\
  forallb (entry_ok k [js "bind"; js "connect-bind"]) (listed (unixSocket d)) = true /\
  default true (source_ok k <$> credentialSource d) = true.
Proof. unfold valid. rewrite !andb_true_iff, bool_decide_eq_true. tauto. Qed.

Lemma normalizeEntries_paths es bare gs : normalizeEntries es bare = Ok gs -> map path gs = map entry_path es.
Proof.
  revert gs. induction es as [|e es IH]; intros gs; [by intros [= <-]|]. cbn [normalizeEntries].
  intros (g & Hg & (gs' & Hgs & [= <-])%rbind_ok)%rbind_ok. cbn [map]. rewrite (IH gs') by done. f_equal.
  destruct e as [p|p m]; cbn in Hg; repeat case_bool_decide; first [by injection Hg as <- | discriminate Hg].
Qed.

(** The entries of a valid block, as grants. *)
Lemma fs_entries k es : forallb (entry_ok k [js "rw"]) es = true ->
  exists gs, normalizeEntries es [Read] = Ok gs /\ Forall fs_rights gs.
Proof.
  induction es as [|e es IH]; cbn [forallb normalizeEntries]; [by exists []|].
  intros [[Hm _]%andb_true_iff (gs & -> & Hgs)%IH]%andb_true_iff.
  assert (Hg : exists g, normalizeEntry e [Read] = Ok g /\ fs_rights g).
  { destruct e as [p|p m]; cbn [mode_ok normalizeEntry] in *.
    - eexists. split; [reflexivity|]. left. cbn. by rewrite right_id_L by apply _.
    - apply bool_decide_eq_true, list_elem_of_singleton in Hm as ->. eexists. split; [reflexivity|]. by right. }
  destruct Hg as (g & -> & Hg). exists (g :: gs). split; [done|by constructor].
Qed.

Lemma socket_entries k es : forallb (entry_ok k [js "bind"; js "connect-bind"]) es = true ->
  exists gs, normalizeEntries es [Connect] = Ok gs /\ Forall socket_rights gs.
Proof.
  induction es as [|e es IH]; cbn [forallb normalizeEntries]; [by exists []|].
  intros [[Hm _]%andb_true_iff (gs & -> & Hgs)%IH]%andb_true_iff.
  assert (Hg : exists g, normalizeEntry e [Connect] = Ok g /\ socket_rights g).
  { unfold socket_rights. destruct e as [p|p m]; cbn [mode_ok normalizeEntry] in *.
    - eexists. split; [reflexivity|]. cbn. set_solver.
    - apply bool_decide_eq_true in Hm. rewrite !elem_of_cons in Hm.
      destruct Hm as [-> |[-> |Hm%not_elem_of_nil]]; [eexists; (split; [reflexivity|]); cbn; set_solver..|done]. }
  destruct Hg as (g & -> & Hg). exists (g :: gs). split; [done|by constructor].
Qed.

(** What [meet] computes on valid documents. *)
Lemma meet_valid k a b : valid k a = true -> valid k b = true ->
  let fl := grants_of Read (fs a) in let fr := grants_of Read (fs b) in
  let sl := grants_of Connect (unixSocket a) in let sr := grants_of Connect (unixSocket b) in
  meet a b = Ok
    {| version := CONFINEMENT_VERSION;
       fs := block_of (map renderFsEntry (meetGrants fl fr));
       network := block_of (meetHosts (listed (network a)) (listed (network b)));
       port := meetPort (port a) (port b);
       unixSocket := block_of (map renderSocketEntry (meetExactGrants sl sr));
       credentialSource :=
         if bool_decide (credentialSource a = None) then None
         else if bool_decide (credentialSource a = credentialSource b) then credentialSource a else None |} /\
  Forall fs_rights fl /\ Forall fs_rights fr /\ Forall socket_rights sl /\ Forall socket_rights sr /\
  map path sl = map entry_path (listed (unixSocket a)) /\ map path sr = map entry_path (listed (unixSocket b)).
Proof.
  intros (Va & Fa & _ & _ & Sa & _)%valid_iff (Vb & Fb & _ & _ & Sb & _)%valid_iff.
  unfold meet, grants_of. rewrite Va, Vb, bool_decide_eq_true_2 by done.
  destruct (fs_entries _ _ Fa) as (fl & Efl & Hfl), (fs_entries _ _ Fb) as (fr & Efr & Hfr).
  destruct (socket_entries _ _ Sa) as (sl & Esl & Hsl), (socket_entries _ _ Sb) as (sr & Esr & Hsr).
  rewrite Efl, Efr, Esl, Esr. apply normalizeEntries_paths in Esl, Esr. done.
Qed.

(** The form of the documents [meet] returns. *)
Record normal (d : Confinement) : Prop := {
  n_version : version d = CONFINEMENT_VERSION;
  n_fs : exists gs, fs d = block_of (map renderFsEntry gs) /\ fs_normal gs;
  n_network : exists hs, network d = block_of hs /\ hosts_normal hs;
  n_port : port_normal (port d);
  n_sockets : exists gs, unixSocket d = block_of (map renderSocketEntry gs) /\ sockets_normal gs;
}.

Lemma normal_unique c d : normal c -> normal d -> (forall x, reach c x <-> reach d x) -> c = d.
Proof.
  destruct c as [vc fc nc pc uc cc], d as [vd fd nd pd ud cd].
  intros [Hv (gc & Hf & Hgc) (hc & Hn & Hhc) Hp (sc & Hs & Hsc)] [Hv' (gd & Hf' & Hgd) (hd & Hn' & Hhd) Hp' (sd & Hs' & Hsd)] Hr.
  cbn [version fs network port unixSocket credentialSource] in *. subst.
  assert (Efs : gc = gd).
  { apply fs_normal_unique; [done..|]. intros p r. specialize (Hr (OnPath p r)). cbn [reach fs network port unixSocket credentialSource] in Hr. unfold grants_of in Hr.
    by rewrite !listed_block_of, !fs_entries_roundtrip in Hr by by apply fn_rights. }
  assert (Ehosts : hc = hd).
  { apply hosts_normal_unique; [done..|]. intros h. specialize (Hr (OnHost h)). cbn [reach network] in Hr.
    by rewrite !listed_block_of in Hr. }
  assert (Eport : pc = pd) by (apply port_normal_unique; [done..|]; intros n a; apply (Hr (OnPort n a))).
  assert (Esockets : sc = sd).
  { apply sockets_normal_unique; [done..|]. intros p r. specialize (Hr (OnSocket p r)). cbn [reach fs network port unixSocket credentialSource] in Hr. unfold grants_of in Hr.
    by rewrite !listed_block_of, !socket_entries_roundtrip in Hr by by apply sn_rights. }
  assert (Esource : cc = cd) by (apply option_eq; intros s; apply (Hr (FromSource s))).
  by subst.
Qed.

(** The reach of the meet: the intersection, but for sockets listed twice. *)
Lemma meet_reach k a b : valid k a = true -> valid k b = true ->
  exists c, meet a b = Ok c /\
    (forall x, match x with OnSocket _ _ => True | _ => reach c x <-> reach a x /\ reach b x end) /\
    forall p r, (reach c (OnSocket p r) -> reach a (OnSocket p r) /\ reach b (OnSocket p r)) /\
      (sockets_distinct b = true -> reach a (OnSocket p r) -> reach b (OnSocket p r) -> reach c (OnSocket p r)).
Proof.
  intros Va Vb. destruct (meet_valid k a b Va Vb) as (E & Fa & Fb & Sa & Sb & Pa & Pb). eexists. split; [exact E|]. clear E.
  assert (Nf : fs_normal (meetGrants (grants_of Read (fs a)) (grants_of Read (fs b)))) by by apply meetGrants_normal.
  split.
  - intros [p r|h|n ad|p r|s]; cbn [reach fs network port unixSocket credentialSource]; [..|done|].
    + unfold grants_of at 1. rewrite listed_block_of, fs_entries_roundtrip by by apply fn_rights.
      apply permits_meetGrants.
    + rewrite listed_block_of. apply down_meetHosts.
    + apply listens_meetPort.
    + repeat case_bool_decide; naive_solver congruence.
  - intros p r. cbn [reach unixSocket]. set (l := grants_of _ (unixSocket a)) in *. set (r0 := grants_of _ (unixSocket b)) in *.
    assert (Em : grants_of Connect (block_of (map renderSocketEntry (meetExactGrants l r0))) = meetExactGrants l r0).
    { unfold grants_of. by rewrite listed_block_of, socket_entries_roundtrip by by apply meetExactGrants_rights. }
    rewrite Em. split; [apply permits_within|]. intros Db%bool_decide_eq_true. apply permits_both. by rewrite Pb.
Qed.

Lemma meet_normal k a b : valid k a = true -> valid k b = true ->
  sockets_distinct a = true -> sockets_distinct b = true ->
  exists c, meet a b = Ok c /\ normal c /\ forall x, reach c x <-> reach a x /\ reach b x.
Proof.
  intros Va Vb Da Db. destruct (meet_reach k a b Va Vb) as (c & Ec & Hr & Hs). exists c. split; [done|]. split.
  - apply bool_decide_eq_true in Da, Db. destruct (meet_valid k a b Va Vb) as (E & Fa & Fb & Sa & Sb & Pa & Pb).
    rewrite E in Ec. injection Ec as <-. rewrite <- Pa in Da. rewrite <- Pb in Db.
    split; cbn; [done|eexists; split; [done|by apply meetGrants_normal]|eexists; split; [done|apply meetHosts_normal]|
      apply meetPort_normal|eexists; split; [done|by apply meetExactGrants_normal]].
  - intros x. destruct x as [p r|h|n ad|p r|s]; [apply (Hr (OnPath p r))|apply (Hr (OnHost h))|apply (Hr (OnPort n ad))| |apply (Hr (FromSource s))].
    destruct (Hs p r) as [H1 H2]. split; [done|]. intros [??]. by apply H2.
Qed.

(** ** The meet keeps documents valid *)

Lemma meet_grant_path (ok : jsstr -> Prop) a b c :
  ok (path a) -> ok (path b) -> meet_grant a b = Some c -> ok (path c).
Proof.
  intros Ha Hb (p & Hp & (-> & _)%common_Some)%bind_Some. unfold narrower in Hp.
  repeat case_match; naive_solver.
Qed.

Lemma forallb_Forall {A} (p : A -> bool) l : forallb p l = true <-> Forall (fun x => p x = true) l.
Proof. rewrite forallb_forall, Forall_forall. by setoid_rewrite list_elem_of_In. Qed.

Lemma path_ok_grants k modes bare block : forallb (entry_ok k modes) (listed block) = true ->
  Forall (fun g => path_ok k (path g) = true) (grants_of bare block).
Proof.
  unfold grants_of. destruct (normalizeEntries _ _) as [gs|] eqn:E; [|by constructor].
  apply normalizeEntries_paths in E. intros H%forallb_Forall. 
  enough (Hp : Forall (fun p => path_ok k p = true) (map path gs)) by by apply Forall_fmap in Hp.
  rewrite E. apply Forall_fmap.
  eapply Forall_impl; [exact H|]. by intros e [_ ?]%andb_true_iff.
Qed.

Lemma rendered_ok k modes (render : grant -> entry) gs :
  (forall g, entry_path (render g) = path g) -> (forall g, mode_ok modes (render g) = true) ->
  Forall (fun g => path_ok k (path g) = true) gs -> forallb (entry_ok k modes) (map render gs) = true.
Proof.
  intros Hp Hm Hg. apply forallb_Forall, Forall_fmap. eapply Forall_impl; [exact Hg|]. intros g Hk.
  unfold compose, entry_ok. by rewrite Hp, Hm, Hk.
Qed.

Lemma meetGrants_paths (ok : jsstr -> Prop) l r :
  Forall (fun g => ok (path g)) l -> Forall (fun g => ok (path g)) r -> Forall (fun g => ok (path g)) (meetGrants l r).
Proof.
  rewrite !Forall_forall. intros Hl Hr c [(a & b & Ha & Hb & Hc)%elem_of_pairs _]%elem_of_meetGrants.
  eapply meet_grant_path, Hc; auto.
Qed.

Lemma meetExactGrants_paths (ok : jsstr -> Prop) l r :
  Forall (fun g => ok (path g)) l -> Forall (fun g => ok (path g)) (meetExactGrants l r).
Proof.
  rewrite !Forall_forall. unfold meetExactGrants. intros Hl c Hc. rewrite (elem_of_sort_by by_path) in Hc.
  apply list_elem_of_omap in Hc as (a & Ha & (b & _ & (-> & _)%common_Some)%bind_Some). auto.
Qed.

Lemma meetHosts_ok (ok : jsstr -> Prop) l r : Forall ok l -> Forall ok r -> Forall ok (meetHosts l r).
Proof.
  rewrite !Forall_forall. intros Hl Hr x [(a & b & Ha & Hb & Hk)%(host_pairs_spec l r x) _]%elem_of_meetHosts.
  unfold narrower_host in Hk. repeat case_match; simplify_eq; auto.
Qed.

Lemma meetPort_ok k l r : default true (port_ok k <$> l) = true -> default true (port_ok k <$> r) = true ->
  default true (port_ok k <$> meetPort l r) = true.
Proof.
  destruct l as [[n a]|], r as [[m b]|]; cbn [meetPort]; try done. cbn [fmap option_fmap option_map default from_option id bind address].
  unfold port_ok. cbn [bind address]. rewrite !andb_true_iff. intros [Hn Ha] [_ Hb].
  destruct (negb (n =? m)); [done|]. destruct (meetAddress _ _) as [c|] eqn:E; [|done].
  cbn. rewrite !andb_true_iff. split; [done|]. case_bool_decide as Hc; [done|]. cbn.
  assert (Hs : c = default LOOPBACK a \/ c = default LOOPBACK b)
    by (unfold meetAddress in E; repeat case_bool_decide; simplify_eq; auto).
  destruct Hs as [-> | ->]; [destruct a|destruct b]; done.
Qed.

Lemma meet_valid_closed k a b c : valid k a = true -> valid k b = true -> meet a b = Ok c ->
  valid k c = true /\ (sockets_distinct a = true -> sockets_distinct c = true).
Proof.
  intros Va Vb. destruct (meet_valid k a b Va Vb) as (-> & Fa & Fb & Sa & Sb & Pa & Pb). intros [= <-].
  apply valid_iff in Va as (_ & Ea & Ha & Qa & Ua & Ca), Vb as (_ & Eb & Hb & Qb & Ub & Cb). split.
  - apply valid_iff. cbn [version fs network port unixSocket credentialSource]. rewrite !listed_block_of.
    split; [done|]. split; [|split; [|split; [|split]]].
    + apply rendered_ok; [intros g; unfold renderFsEntry; by case_bool_decide..|].
      by apply (meetGrants_paths (fun p => path_ok k p = true)); apply path_ok_grants with [js "rw"].
    + apply forallb_Forall, (meetHosts_ok (fun h => host_ok k h = true)); by apply forallb_Forall.
    + by apply meetPort_ok.
    + apply rendered_ok; [intros g; unfold renderSocketEntry; by repeat case_bool_decide..|].
      by apply (meetExactGrants_paths (fun p => path_ok k p = true)), path_ok_grants with [js "bind"; js "connect-bind"].
    + by repeat case_bool_decide.
  - intros Da%bool_decide_eq_true. apply bool_decide_eq_true. cbn [unixSocket]. rewrite listed_block_of, map_map.
    rewrite <- Pa in Da. erewrite map_ext; [|intros g; instantiate (1 := path); unfold renderSocketEntry;
      by repeat case_match].
    unfold meetExactGrants. rewrite sort_by_perm. apply (NoDup_omap_key path path); [|done].
    by intros x y (h & _ & (Hp & _)%common_Some)%bind_Some.
Qed.

(** ** The properties *)

(** C37: The meet of two valid documents of the algebra's own type (the five blocks [meet] reads:
    one listener, no [connectLocal], which are all the type has although the schema has come to
    allow a list of listeners and [connectLocal]) is a valid document, whatever the schema asks of
    paths, hosts, addresses and sources; it never throws on them, and it lists no socket twice if
    the first does not. *)
Theorem meet_closed k a b : valid k a = true -> valid k b = true ->
  exists c, meet a b = Ok c /\ valid k c = true /\ (sockets_distinct a = true -> sockets_distinct c = true).
Proof.
  intros Va Vb. destruct (meet_valid k a b Va Vb) as (E & _). eexists. split; [exact E|].
  by apply (meet_valid_closed k a b).
Qed.

(** C6: On the five blocks of the algebra's own document type (not the schema's lists of listeners
    and [connectLocal]) the meet of two valid documents grants what both grant, and nothing else:
    rights on paths and sockets, hosts (concrete ones and patterns), the listener, the credential
    source.  That it grants nothing else holds of all valid documents.  That it grants every point
    both grant holds of every point but a socket's, and of a socket's when the second document lists
    no socket twice; with one listed twice grants are lost ([duplicate_sockets_break_the_laws]). *)
Theorem meet_is_intersection k a b : valid k a = true -> valid k b = true ->
  exists c, meet a b = Ok c /\ (forall x, reach c x -> reach a x /\ reach b x) /\
    forall x, (forall p r, x = OnSocket p r -> sockets_distinct b = true) -> reach a x -> reach b x -> reach c x.
Proof.
  intros Va Vb. destruct (meet_reach k a b Va Vb) as (c & E & Hr & Hs). exists c. split; [done|]. split.
  - intros x Hx. specialize (Hr x). destruct x as [p r|h|n ad|p r|s]; [tauto..|by apply Hs|tauto].
  - intros x Hd Ha Hb. specialize (Hr x). destruct x as [p r|h|n ad|p r|s]; [tauto..|apply Hs; eauto|tauto].
Qed.

Lemma ratchet_cons d r l : ratchet d (r :: l) = let? c := meet d r in ratchet c l.
Proof.
  unfold ratchet. cbn [fold_left rbind]. destruct (meet d r) as [c|e]; [done|]. cbn [rbind].
  induction l as [|x l IH]; [done|]. exact IH.
Qed.

Definition usable k (d : Confinement) : Prop := valid k d = true /\ sockets_distinct d = true.

Lemma ratchet_normal k d l : usable k d -> Forall (usable k) l ->
  exists c, ratchet d l = Ok c /\ usable k c /\ (l = [] -> c = d) /\ (l <> [] -> normal c) /\
    forall x, reach c x <-> reach d x /\ forall r, r ∈ l -> reach r x.
Proof.
  intros Hd Hl. revert d Hd. induction Hl as [|r l [Vr Dr] Hl IH]; intros d [Vd Dd].
  { exists d. split; [done|]. split; [done|]. split; [done|]. split; [done|]. set_solver. }
  destruct (meet_normal k d r Vd Vr Dd Dr) as (m & Em & Hm & Rm).
  destruct (meet_valid_closed k d r m Vd Vr Em) as [Vm Dm].
  destruct (IH m) as (c & Ec & Uc & Cc & Nc & Rc); [by split; [|apply Dm]|].
  exists c. rewrite ratchet_cons, Em. split; [done|]. split; [done|]. split; [done|]. split.
  - intros _. destruct l; [by rewrite Cc|by apply Nc].
  - intros x. rewrite Rc, Rm. split.
    + intros [[H1 H2] H3]. split; [done|]. intros q [-> |Hq]%elem_of_cons; auto.
    + intros [H1 H2]. split; [split; [done|apply H2; set_solver]|]. intros q Hq. apply H2. set_solver.
Qed.

(** Enforcement points that saw the same restrictions agree, whatever the order and however
    often each was delivered; the state grants what the initial document and every
    restriction grant, so it never exceeds the initial document. *)
Theorem ratchet_order_free k d l l' : usable k d -> Forall (usable k) l ->
  (forall r, r ∈ l <-> r ∈ l') ->
  exists c, ratchet d l = Ok c /\ ratchet d l' = Ok c /\ usable k c /\
    forall x, reach c x <-> reach d x /\ forall r, r ∈ l -> reach r x.
Proof.
  intros Hd Hl Hll. assert (Hl' : Forall (usable k) l').
  { rewrite Forall_forall in *. intros r Hr. by apply Hl, Hll. }
  destruct (ratchet_normal k d l Hd Hl) as (c & Ec & Uc & C0 & Nc & Rc).
  destruct (ratchet_normal k d l' Hd Hl') as (c' & Ec' & _ & C0' & Nc' & Rc').
  exists c. split; [done|]. split; [|done]. rewrite Ec'. f_equal. destruct l as [|r l].
  - destruct l' as [|r' l']; [by rewrite C0, C0'|]. exfalso. apply (not_elem_of_nil r'), Hll, list_elem_of_here.
  - apply normal_unique; [apply Nc'|by apply Nc|].
    + intros ->. apply (not_elem_of_nil r), Hll, list_elem_of_here.
    + intros x. rewrite Rc, Rc'. by setoid_rewrite Hll.
Qed.

Lemma bottom_normal : normal bottom.
Proof.
  split; cbn [bottom version fs network port unixSocket]; [done|exists []|exists []|done|exists []]; (split; [done|]).
  - split; [by apply Forall_nil|by intros ? ? ?%not_elem_of_nil|apply SSorted_nil|apply NoDup_nil_2].
  - split; [by intros ? ? ?%not_elem_of_nil|apply SSorted_nil|apply NoDup_nil_2].
  - split; [by apply Forall_nil|apply SSorted_nil|apply NoDup_nil_2].
Qed.

Lemma bottom_denies x : ~ reach bottom x.
Proof.
  destruct x; cbn; [intros (? & ?%not_elem_of_nil & _)|intros (? & ?%not_elem_of_nil & _)|intros (? & ? & _)|
    intros (? & ?%not_elem_of_nil & _)|]; done.
Qed.

(** The laws of a semilattice with a least element. *)
Lemma meet_laws k a b c : usable k a -> usable k b -> usable k c ->
  meet a b = meet b a /\
  (let? m := meet a b in meet m c) = (let? m := meet b c in meet a m) /\
  (let? n := normalize a in normalize n) = normalize a /\
  meet a bottom = Ok bottom.
Proof.
  intros [Va Da] [Vb Db] [Vc Dc].
  destruct (meet_normal k a b Va Vb Da Db) as (ab & Eab & Nab & Rab), (meet_normal k b a Vb Va Db Da) as (ba & Eba & Nba & Rba).
  destruct (meet_normal k b c Vb Vc Db Dc) as (bc & Ebc & Nbc & Rbc), (meet_normal k a a Va Va Da Da) as (aa & Eaa & Naa & Raa).
  destruct (meet_valid_closed k a b ab Va Vb Eab) as [Vab Dab], (meet_valid_closed k b c bc Vb Vc Ebc) as [Vbc Dbc],
    (meet_valid_closed k a a aa Va Va Eaa) as [Vaa Daa].
  destruct (meet_normal k ab c Vab Vc (Dab Da) Dc) as (l & El & Nl & Rl), (meet_normal k a bc Va Vbc Da (Dbc Db)) as (r & Er & Nr & Rr).
  destruct (meet_normal k aa aa Vaa Vaa (Daa Da) (Daa Da)) as (n & En & Nn & Rn).
  unfold normalize. rewrite Eab, Eba, Ebc, Eaa. cbn [rbind]. rewrite El, Er, En. split; [|split; [|split]].
  - f_equal. apply normal_unique; [done..|]. intros x. rewrite Rab, Rba. tauto.
  - f_equal. apply normal_unique; [done..|]. intros x. rewrite Rl, Rr, Rab, Rbc. tauto.
  - f_equal. apply normal_unique; [done..|]. intros x. rewrite Rn. tauto.
  - assert (Vo : valid k bottom = true) by done. assert (Do : sockets_distinct bottom = true) by done.
    destruct (meet_normal k a bottom Va Vo Da Do) as (m & Em & Nm & Rm). rewrite Em. f_equal.
    apply normal_unique; [done|apply bottom_normal|]. intros x. rewrite Rm. pose proof (bottom_denies x). tauto.
Qed.

(** ** The order *)

(** Strings of 16-bit units, as every JavaScript string is. *)
Definition units : strings_ok :=
  {| path_ok := forallb unit16; host_ok := forallb unit16; address_ok := forallb unit16; source_ok := forallb unit16 |}.

Definition names : list jsstr :=
  [js "version"; js "fs"; js "network"; js "port"; js "unixSocket"; js "credentialSource"].

Lemma keys_field k o : sublist (map fst (field k o)) [k].
Proof. destruct o; cbn; repeat constructor. Qed.

Lemma fields_sublist d : sublist (map fst (fields d)) names.
Proof.
  unfold fields, names. cbn [map fst]. constructor. rewrite !map_app.
  change [js "fs"; js "network"; js "port"; js "unixSocket"; js "credentialSource"]
    with ([js "fs"] ++ [js "network"] ++ [js "port"] ++ [js "unixSocket"] ++ [js "credentialSource"]).
  repeat apply sublist_app; apply keys_field.
Qed.

Lemma fields_distinct d : NoDup (map fst (fields d)).
Proof. eapply sublist_NoDup, fields_sublist. apply (bool_decide_eq_true (NoDup names)). vm_compute. reflexivity. Qed.

Lemma elem_of_field kv k o : kv ∈ field k o <-> kv.1 = k /\ o = Some kv.2.
Proof.
  destruct kv as [k' v], o as [w|]; cbn; [rewrite list_elem_of_singleton|]; split; try naive_solver.
  by intros ?%not_elem_of_nil.
Qed.

Definition value_of (d : Confinement) (name : jsstr) : option Json := assoc name (fields d).

Lemma value_of_iff d name v : value_of d name = Some v <-> (name, v) ∈ fields d.
Proof. unfold value_of. by rewrite <- elem_of_assoc by apply fields_distinct. Qed.

(** The value of each field by its name. *)
Lemma fields_values d :
  value_of d (js "fs") = block_json (js "allow") entry_json <$> fs d /\
  value_of d (js "network") = block_json (js "allowHosts") JStr <$> network d /\
  value_of d (js "port") = port_json <$> port d /\
  value_of d (js "unixSocket") = block_json (js "allow") entry_json <$> unixSocket d /\
  value_of d (js "credentialSource") = JStr <$> credentialSource d.
Proof.
  repeat split; apply option_eq; intros v; rewrite value_of_iff; unfold fields;
    rewrite elem_of_cons, !elem_of_app, !elem_of_field; cbn [fst snd]; naive_solver.
Qed.

Lemma fields_no_null d : ConfinementJson.no_null (fields d) = true.
Proof.
  apply forallb_forall. intros kv Hkv%list_elem_of_In. unfold fields in Hkv.
  rewrite elem_of_cons, !elem_of_app, !elem_of_field in Hkv.
  destruct Hkv as [-> |[[_ H]|[[_ H]|[[_ H]|[[_ H]|[_ H]]]]]]; [done|..];
    apply fmap_Some in H as (x & _ & ->); done.
Qed.

(** The data a block, an entry and a listener denote. *)
Lemma denoted_block {A} name (f : A -> Json) b : name <> js "__proto__" ->
  ConfinementJson.denoted (block_json name f b) = JObj (field name (JArr ∘ map (ConfinementJson.denoted ∘ f) <$> b)).
Proof.
  intros Hn. destruct b as [l|]; [|done]. unfold block_json. cbn [field fmap option_fmap option_map compose].
  cbn [ConfinementJson.denoted map fst snd]. unfold ConfinementJson.assigned.
  change (order_by Canonical.key_le [?x]) with [x]. cbn [List.filter]. unfold ConfinementJson.kept. cbn [fst snd].
  rewrite (bool_decide_eq_false_2 _ Hn). cbn. by rewrite map_map.
Qed.

Lemma denoted_block_inj {A} name (f : A -> Json) b b' : name <> js "__proto__" ->
  (forall x y, ConfinementJson.denoted (f x) = ConfinementJson.denoted (f y) -> x = y) ->
  ConfinementJson.denoted (block_json name f b) = ConfinementJson.denoted (block_json name f b') -> b = b'.
Proof.
  intros Hn Hf. rewrite !denoted_block by done. destruct b as [l|], b' as [l'|]; try done.
  cbn. intros [= E]. f_equal. revert l' E. induction l as [|x l IH]; intros [|y l'] E; try done.
  cbn in E. injection E as Ex El. f_equal; [by apply Hf|by apply IH].
Qed.

Lemma denoted_entry_inj e e' :
  ConfinementJson.denoted (entry_json e) = ConfinementJson.denoted (entry_json e') -> e = e'.
Proof.
  assert (Hm : forall p m, ConfinementJson.denoted (entry_json (Moded p m)) = JObj [(js "mode", JStr m); (js "path", JStr p)])
    by reflexivity.
  destruct e as [p|p m], e' as [p'|p' m']; rewrite ?Hm; cbn [entry_json ConfinementJson.denoted]; try done.
  - by intros [= ->].
  - by intros [= -> ->].
Qed.

Lemma denoted_port_inj q q' : ConfinementJson.denoted (port_json q) = ConfinementJson.denoted (port_json q') -> q = q'.
Proof.
  assert (Hs : forall n a, ConfinementJson.denoted (port_json {| bind := n; address := Some a |}) =
    JObj [(js "address", JStr a); (js "bind", JNum n)]) by reflexivity.
  assert (Hn : forall n, ConfinementJson.denoted (port_json {| bind := n; address := None |}) = JObj [(js "bind", JNum n)])
    by reflexivity.
  destruct q as [n [a|]], q' as [n' [a'|]]; rewrite ?Hs, ?Hn; try done.
  - by intros [= -> ->].
  - by intros [= ->].
Qed.

Lemma fmap_option_inj {A B} (f : A -> B) (Hf : forall x y, f x = f y -> x = y) (o o' : option A) :
  f <$> o = f <$> o' -> o = o'.
Proof. destruct o, o'; try done. cbn. intros [= E]. f_equal. by apply Hf. Qed.

(** A document is determined by the data of its object. *)
Lemma to_json_inj c d : version c = version d ->
  ConfinementJson.denoted (to_json c) = ConfinementJson.denoted (to_json d) -> c = d.
Proof.
  intros Hv E. assert (Hf : forall k, k <> js "__proto__" ->
    ConfinementJson.denoted <$> value_of c k = ConfinementJson.denoted <$> value_of d k).
  { intros k Hk. apply ConfinementJson.denoted_object_fields; auto using fields_distinct, fields_no_null. }
  destruct (fields_values c) as (F1 & F2 & F3 & F4 & F5), (fields_values d) as (G1 & G2 & G3 & G4 & G5).
  pose proof (Hf (js "fs") ltac:(done)) as E1. pose proof (Hf (js "network") ltac:(done)) as E2.
  pose proof (Hf (js "port") ltac:(done)) as E3. pose proof (Hf (js "unixSocket") ltac:(done)) as E4.
  pose proof (Hf (js "credentialSource") ltac:(done)) as E5.
  rewrite F1, G1 in E1. rewrite F2, G2 in E2. rewrite F3, G3 in E3. rewrite F4, G4 in E4. rewrite F5, G5 in E5.
  rewrite <- !option_fmap_compose in E1.  rewrite <- !option_fmap_compose in E2.  rewrite <- !option_fmap_compose in E3.  rewrite <- !option_fmap_compose in E4.  rewrite <- !option_fmap_compose in E5.
  apply fmap_option_inj in E1; [|intros x y; apply denoted_block_inj; [done|apply denoted_entry_inj]].
  apply fmap_option_inj in E2; [|intros x y; apply denoted_block_inj; [done|by intros ? ? [=]]].
  apply fmap_option_inj in E3; [|apply denoted_port_inj].
  apply fmap_option_inj in E4; [|intros x y; apply denoted_block_inj; [done|apply denoted_entry_inj]].
  apply fmap_option_inj in E5; [|by intros ? ? [=]].
  destruct c, d. cbn in *. by subst.
Qed.

Lemma document_keys_distinct d : Canonical.distinct_keys (to_json d) = true.
Proof.
  unfold to_json. cbn [Canonical.distinct_keys]. rewrite bool_decide_eq_true_2 by apply fields_distinct.
  apply forallb_forall. intros kv Hkv%list_elem_of_In. unfold fields in Hkv.
  rewrite elem_of_cons, !elem_of_app, !elem_of_field in Hkv.
  assert (Hb : forall A name (f : A -> Json) b, (forall x, Canonical.distinct_keys (f x) = true) ->
    Canonical.distinct_keys (block_json name f b) = true).
  { intros A name f b Hf. destruct b as [l|]; [|done]. unfold block_json. cbn [field fmap option_fmap option_map].
    cbn [Canonical.distinct_keys map fst snd forallb compose]. rewrite bool_decide_eq_true_2 by apply NoDup_singleton.
    rewrite andb_true_r, andb_true_l. apply forallb_forall. by intros x (y & <- & _)%in_map_iff. }
  assert (He : forall e, Canonical.distinct_keys (entry_json e) = true) by by intros [].
  destruct Hkv as [-> |[[_ H]|[[_ H]|[[_ H]|[[_ H]|[_ H]]]]]]; [done|..]; apply fmap_Some in H as (x & _ & ->);
    [by apply Hb|by apply Hb|by destruct x as [n [a|]]|by apply Hb|done].
Qed.

Lemma representable_field k o :
  forallb unit16 k = true -> default true (representable <$> o) = true ->
  forallb (fun kv => forallb unit16 kv.1 && representable kv.2) (field k o) = true.
Proof. intros Hk Ho. destruct o; [|done]. cbn in *. by rewrite Hk, Ho. Qed.

Lemma representable_block {A} name (f : A -> Json) (b : option (option (list A))) : forallb unit16 name = true ->
  forallb (fun x => representable (f x)) (listed b) = true ->
  default true (representable <$> (block_json name f <$> b)) = true.
Proof.
  intros Hn Hb. destruct b as [[l|]|]; [|done..]. cbn in *. rewrite Hn, andb_true_r, andb_true_l.
  rewrite forallb_forall in *. by intros y (x & <- & Hx%Hb)%in_map_iff.
Qed.

Lemma representable_entries modes es :
  Forall (fun m => forallb unit16 m = true) modes -> forallb (entry_ok units modes) es = true ->
  forallb (fun e => representable (entry_json e)) es = true.
Proof.
  intros Hm. rewrite !forallb_forall. intros H e [Hmode Hp]%H%andb_true_iff.
  destruct e as [p|p m]; cbn [entry_json entry_path path_ok units mode_ok] in *; [done|].
  apply bool_decide_eq_true in Hmode. rewrite Forall_forall in Hm. apply Hm in Hmode.
  cbn [representable forallb fst snd]. rewrite Hp, Hmode. reflexivity.
Qed.

Lemma to_json_representable d : valid units d = true -> representable (to_json d) = true.
Proof.
  intros (Hv & Hf & Hn & Hp & Hs & Hc)%valid_iff. unfold to_json. cbn [representable]. unfold fields.
  cbn [forallb fst snd]. rewrite !forallb_app, !andb_true_iff. split; [by rewrite Hv|].
  repeat split; apply representable_field; try reflexivity.
  - apply representable_block; [done|]. apply representable_entries with [js "rw"]; [by repeat constructor|done].
  - apply representable_block; [done|]. exact Hn.
  - destruct (port d) as [[n a]|]; [|done]. cbn in Hp. unfold port_ok in Hp. cbn in Hp.
    apply andb_true_iff in Hp as [[H1 H2]%andb_true_iff Ha]. z_bool.
    assert (Hr : (Z.abs n <=? MAX_SAFE_INTEGER) = true) by (apply Z.leb_le; unfold MAX_SAFE_INTEGER; lia).
    destruct a as [a|]; cbn in *; rewrite Hr; [by rewrite Ha|done].
  - apply representable_block; [done|].
    apply representable_entries with [js "bind"; js "connect-bind"]; [by repeat constructor|done].
  - destruct (credentialSource d); done.
Qed.

(** [leq a b] answers whether everything [a] grants is granted by [b]. *)
Theorem leq_iff_reach a b : usable units a -> usable units b ->
  exists r, leq a b = Ok r /\ (r = true <-> forall x, reach a x -> reach b x).
Proof.
  intros [Va Da] [Vb Db].
  destruct (meet_normal _ a b Va Vb Da Db) as (m & Em & Nm & Rm), (meet_normal _ a a Va Va Da Da) as (n & En & Nn & Rn).
  destruct (meet_valid_closed _ a b m Va Vb Em) as [Vm _], (meet_valid_closed _ a a n Va Va En) as [Vn _].
  unfold leq, normalize. rewrite Em, En. cbn [rbind]. eexists. split; [reflexivity|].
  rewrite bool_decide_eq_true, ConfinementJson.canonicalJson_inj
    by auto using document_keys_distinct, to_json_representable.
  split.
  - intros E%to_json_inj; [|by rewrite (n_version m), (n_version n)]. subst n.
    intros x Hx. by apply Rm, Rn.
  - intros Hr. f_equal. f_equal. apply normal_unique; [done..|]. intros x. rewrite Rm, Rn.
    specialize (Hr x). tauto.
Qed.

(** ** Examples *)

Definition doc (f : list entry) (h : list jsstr) (p : option Port) (s : list entry) : Confinement :=
  {| version := CONFINEMENT_VERSION; fs := Some (Some f); network := Some (Some h); port := p;
     unixSocket := Some (Some s); credentialSource := Some (js "keychain://cloister") |}.

Definition launch_doc : Confinement :=
  doc [Moded (js "/run/w/") (js "rw"); Bare (js "/etc/ssl/")] [js "*.example.com"; js "127.0.0.1"]
    (Some {| bind := 8443; address := Some (js "0.0.0.0") |}) [Moded (js "/run/shim.sock") (js "connect-bind")].

Definition after_read : Confinement :=
  doc [Bare (js "/run/")] [js "api.example.com"] (Some {| bind := 8443; address := None |})
    [Bare (js "/run/shim.sock")].

Lemma meet_closed_witness :
  exists c, meet launch_doc after_read = Ok c /\ valid units c = true.
Proof.
  destruct (meet_closed units launch_doc after_read) as (c & E & V & _); [vm_compute; reflexivity..|].
  by exists c.
Defined.

Lemma meet_is_intersection_witness :
  exists c, meet launch_doc after_read = Ok c /\
    (forall x, reach c x -> reach launch_doc x /\ reach after_read x) /\
    forall x, (forall p r, x = OnSocket p r -> sockets_distinct after_read = true) -> reach launch_doc x -> reach after_read x -> reach c x.
Proof. apply (meet_is_intersection units); vm_compute; reflexivity. Defined.

Lemma ratchet_order_free_witness :
  exists c, ratchet launch_doc [after_read; bottom] = Ok c /\ ratchet launch_doc [bottom; after_read; bottom] = Ok c.
Proof.
  destruct (ratchet_order_free units launch_doc [after_read; bottom] [bottom; after_read; bottom])
    as (c & E & E' & _); [split; vm_compute; reflexivity|repeat constructor; vm_compute; reflexivity|set_solver|].
  by exists c.
Defined.

Lemma leq_iff_reach_witness :
  exists r, leq after_read launch_doc = Ok r /\ (r = true <-> forall x, reach after_read x -> reach launch_doc x).
Proof. apply leq_iff_reach; split; vm_compute; reflexivity. Defined.

Example narrowed : meet launch_doc after_read =
  Ok (doc [Bare (js "/run/w/")] [js "api.example.com"] (Some {| bind := 8443; address := None |}) [Bare (js "/run/shim.sock")]).
Proof. vm_compute. reflexivity. Qed.

(** The schema lets a socket be listed twice; [meetExactGrants] reads only the first entry of
    its right side, so the meet then depends on the order of its arguments, and loses grants. *)
Lemma duplicate_sockets_break_the_laws :
  let a := doc [] [] None [Moded (js "/s") (js "bind"); Bare (js "/s")] in
  let b := doc [] [] None [Bare (js "/s")] in
  valid units a = true /\ valid units b = true /\ meet a b <> meet b a /\
  reach a (OnSocket (js "/s") Connect) /\
  exists n, normalize a = Ok n /\ ~ reach n (OnSocket (js "/s") Connect).
Proof.
  split; [vm_compute; reflexivity|]. split; [vm_compute; reflexivity|]. split; [by vm_compute|].
  split.
  - exists {| path := js "/s"; rights := {[Connect]} |}.
    split; [|split; [done|apply (bool_decide_eq_true (Connect ∈ ({[Connect]} : gset right))); vm_compute; reflexivity]].
    apply (bool_decide_eq_true (_ ∈ grants_of Connect _)). vm_compute. reflexivity.
  - eexists. split; [vm_compute; reflexivity|]. cbn [reach unixSocket]. intros (g & Hg & _ & Hr).
    revert Hg. match goal with |- g ∈ ?l -> _ => let l' := eval vm_compute in l in change l with l' end.
    intros ->%list_elem_of_singleton. revert Hr. apply (bool_decide_eq_false (Connect ∈ _)). vm_compute. reflexivity.
Qed.

(** [normalizeEntry] accepts the modes of both dimensions: an entry of [fs] with mode [bind]
    grants no right on files, and comes back as a right to read. *)
Lemma foreign_mode_widens :
  normalize (doc_fs [Moded (js "/p") (js "bind")]) = Ok (doc_fs [Bare (js "/p")]).
Proof. vm_compute. reflexivity. Qed.

End Confinement.
