(* ===== verification/Origin.v ===== *)
(** Content provenance (src/wire/origin.ts).

    An origin set is a canonically ordered list of (uri, vouching authority) pairs.  The
    module's contract is that composing content unions the sets, that the confidence of a
    fact is derived from its set and never declared, and that a stored set reads back.

    [unionOrigins] deduplicates by the text of the uri, a space and the authority, which
    is the pair only when authorities hold no space: the theorems state that bound, and
    [union_drops_origin] shows what happens without it. *)
From S2P Require Import Prelude JsString Sql Platform Json JsonText.

Module Origin.
Import JsonText.

Record OriginEntry := mkOrigin { uri : jsstr; vouchedBy : jsstr }.

#[global] Instance OriginEntry_eq_dec : EqDecision OriginEntry.
Proof. solve_decision. Defined.

Abbreviation OriginSet := (list OriginEntry) (only parsing).

Definition CLOISTER_AUTHORITY : jsstr := js "cloister/lease-gate".

Inductive Confidence := origin_attested | origin_asserted | origin_unknown.

#[global] Instance Confidence_eq_dec : EqDecision Confidence.
Proof. solve_decision. Defined.

Definition fetchedOrigin (url : jsstr) : OriginEntry := mkOrigin url CLOISTER_AUTHORITY.

Definition MAX_DECLARED_ORIGINS : Z := 64.
Definition MAX_ORIGIN_URI_LENGTH : Z := 2048.

Definition declaredOrigin (u declaringPeerFp : jsstr) : OriginEntry :=
  mkOrigin u (js "interlace:peer/" ++ declaringPeerFp).

Definition unvouchedOrigin (u : jsstr) : OriginEntry := mkOrigin u [].

(** The key of the [seen] map. *)
Definition seen_key (e : OriginEntry) : jsstr := uri e ++ [32] ++ vouchedBy e.

(** The comparator: by uri, then by authority, in UTF-16 code units. *)
Definition origin_le (a b : OriginEntry) : Prop :=
  match lex_compare (uri a) (uri b) with
  | Lt => True
  | Gt => False
  | Eq => lex_le (vouchedBy a) (vouchedBy b)
  end.
#[global] Instance origin_le_dec a b : Decision (origin_le a b).
Proof. unfold origin_le. destruct (lex_compare _ _); apply _. Defined.

Definition seen_of (entries : list OriginEntry) : list (jsstr * OriginEntry) :=
  foldl (fun seen e => assoc_set (seen_key e) e seen) [] entries.

Definition unionOrigins (sets : list OriginSet) : OriginSet :=
  order_by origin_le (map snd (seen_of (concat sets))).

Definition deriveConfidence (origins : OriginSet) (trustedAuthorities : gset (list Z)) : Confidence :=
  match origins with
  | [] => origin_unknown
  | _ => if forallb (fun o => negb (bool_decide (vouchedBy o = [])) &&
                              bool_decide (vouchedBy o ∈ trustedAuthorities)) origins
         then origin_attested else origin_asserted
  end.

Definition mayAttestFully (confidence : Confidence) : bool :=
  bool_decide (confidence = origin_attested).

Definition origin_json (o : OriginEntry) : Json :=
  JObj [(js "uri", JStr (uri o)); (js "vouchedBy", JStr (vouchedBy o))].

Definition serializeOrigins (origins : OriginSet) : jsstr :=
  json_stringify (JArr (map origin_json origins)).

(** One item of a parsed array: an object with two string properties. *)
Definition origin_of (item : Json) : option OriginEntry :=
  match item with
  | JObj _ | JArr _ =>
      match get_prop item (js "uri"), get_prop item (js "vouchedBy") with
      | Some (JStr u), Some (JStr v) => Some (mkOrigin u v)
      | _, _ => None
      end
  | _ => None
  end.

(** [None] for [null] and [undefined].  The only [Throw] is [Unrepresentable]: a text with
    a number outside the model. *)
Definition parseOrigins (raw : option jsstr) : result json_error OriginSet :=
  match raw with
  | None | Some [] => Ok []
  | Some text =>
      match json_parse text with
      | Throw Unrepresentable => Throw Unrepresentable
      | Throw _ => Ok []
      | Ok (JArr items) => Ok (unionOrigins [omap origin_of items])
      | Ok _ => Ok []
      end
  end.

Definition originsDigest `{Sha256} (origins : OriginSet) : option bytes :=
  match origins with
  | [] => None
  | _ => Some (sha256 (utf8_encode (serializeOrigins origins)))
  end.

Example union_example :
  unionOrigins [[unvouchedOrigin (js "b"); fetchedOrigin (js "a")]; [unvouchedOrigin (js "b")]] =
  [fetchedOrigin (js "a"); unvouchedOrigin (js "b")].
Proof. vm_compute. reflexivity. Qed.

(** ** The order and the key *)

Lemma origin_le_spec a b :
  origin_le a b <-> (lex_compare (uri a) (uri b) = Lt \/ (uri a = uri b /\ lex_le (vouchedBy a) (vouchedBy b))).
Proof.
  unfold origin_le. destruct (lex_compare (uri a) (uri b)) eqn:E; rewrite <- lex_compare_eq, E; naive_solver.
Qed.

Lemma lex_lt_trans a b c : lex_compare a b = Lt -> lex_compare b c = Lt -> lex_compare a c = Lt.
Proof.
  intros H1 H2. destruct (lex_compare a c) eqn:E; [|done|].
  - apply lex_compare_eq in E as ->. rewrite lex_compare_antisym, H1 in H2. done.
  - assert (H : lex_le a c) by (apply (lex_le_trans a b c); unfold lex_le; congruence).
    destruct (H E).
Qed.

#[global] Instance origin_le_trans : Transitive origin_le.
Proof.
  intros a b c. rewrite !origin_le_spec. intros [H1|[E1 H1]] [H2|[E2 H2]].
  - left. by eapply lex_lt_trans.
  - left. by rewrite <- E2.
  - left. by rewrite E1.
  - right. split; [congruence|by eapply lex_le_trans].
Qed.

#[global] Instance origin_le_total : Total origin_le.
Proof.
  intros a b. unfold origin_le. rewrite (lex_compare_antisym (uri a) (uri b)).
  destruct (lex_compare (uri a) (uri b)); cbn; [apply lex_le_total|by left|by right].
Qed.

Lemma origin_le_antisym a b : origin_le a b -> origin_le b a -> a = b.
Proof.
  rewrite !origin_le_spec, (lex_compare_antisym (uri a) (uri b)).
  destruct a as [u v], b as [u' v']; cbn. intros [H1|[E1 H1]] [H2|[E2 H2]]; subst;
    rewrite ?lex_compare_refl in *; try done; try (by rewrite H1 in H2).
  f_equal. by apply lex_le_antisym.
Qed.

(** Authorities without a space: the key then determines the pair. *)
Definition plain (e : OriginEntry) : Prop := 32 ∉ vouchedBy e.
#[global] Instance plain_dec e : Decision (plain e).
Proof. unfold plain. apply _. Defined.

Lemma seen_key_inj a b : plain a -> plain b -> seen_key a = seen_key b -> a = b.
Proof.
  intros Ha Hb E. unfold seen_key, plain in *. apply (f_equal reverse) in E.
  rewrite !reverse_app in E. change (reverse [32]) with [32] in E. rewrite <- !app_assoc in E.
  cbn [app] in E. apply app_sep_inj in E as [E1 E2]; [|by rewrite elem_of_reverse ..].
  apply (inj reverse) in E1, E2. destruct a, b. cbn in *. congruence.
Qed.

Section seen.
Context (entries : list OriginEntry) (Hplain : Forall plain entries).

Lemma seen_invariant :
  NoDup (map fst (seen_of entries)) /\
  (forall k e, (k, e) ∈ seen_of entries <-> k = seen_key e /\ e ∈ entries).
Proof using Hplain.
  unfold seen_of. induction entries as [|e es IH] using rev_ind.
  - split; [constructor|]. intros k e. cbn. set_solver.
  - apply Forall_app in Hplain as [Hes He]. apply Forall_cons in He as [He _].
    specialize (IH Hes) as [Hn Hin]. rewrite foldl_snoc.
    pose proof (NoDup_assoc_set (seen_key e) e _ Hn) as Hn'. split; [done|]. intros k x.
    rewrite elem_of_assoc, assoc_assoc_set by done. rewrite elem_of_app, list_elem_of_singleton.
    destruct (decide (k = seen_key e)) as [-> |Hk].
    + split; [naive_solver|]. intros [Ek [Hx| ->]]; [|done]. f_equal. apply seen_key_inj; [done| |done].
      rewrite Forall_forall in Hes. by apply Hes.
    + rewrite <- elem_of_assoc, Hin by done. naive_solver.
Qed.
End seen.

Lemma NoDup_values (m : list (jsstr * OriginEntry)) :
  NoDup (map fst m) -> (forall k e, (k, e) ∈ m -> k = seen_key e) -> NoDup (map snd m).
Proof.
  induction m as [|[k e] m IH]; intros Hn Hk; [constructor|]. cbn [map fst snd] in *.
  apply NoDup_cons in Hn as [H1 H2]. apply NoDup_cons. split.
  - intros Hin. apply list_elem_of_fmap in Hin as ([k' e'] & Ee & Hin). cbn in Ee. subst e'.
    apply H1. apply list_elem_of_fmap. exists (k', e). split; [cbn|done].
    rewrite (Hk k e) by left. rewrite (Hk k' e) by (by right). done.
  - apply IH; [done|]. intros k' e' Hin. apply Hk. by right.
Qed.

(** The elements of a union, without repetition, in order. *)
Lemma elem_of_union sets e :
  Forall plain (concat sets) -> e ∈ unionOrigins sets <-> e ∈ concat sets.
Proof.
  intros Hp. unfold unionOrigins. rewrite elem_of_order_by, list_elem_of_fmap.
  destruct (seen_invariant (concat sets) Hp) as [_ Hin]. split.
  - intros ([k e'] & -> & He). by apply Hin in He as [_ He].
  - intros He. exists (seen_key e, e). split; [done|]. by apply Hin.
Qed.

Lemma NoDup_union sets : Forall plain (concat sets) -> NoDup (unionOrigins sets).
Proof.
  intros Hp. unfold unionOrigins, order_by. rewrite merge_sort_Permutation.
  destruct (seen_invariant (concat sets) Hp) as [Hn Hin]. apply NoDup_values; [done|].
  intros k e He. by apply Hin in He as [? _].
Qed.

Lemma sorted_union sets : StronglySorted origin_le (unionOrigins sets).
Proof. apply (order_by_sorted origin_le). Qed.

(** Sorted lists without repetition are determined by their elements. *)
Lemma sorted_unique (l l' : OriginSet) :
  StronglySorted origin_le l -> StronglySorted origin_le l' -> NoDup l -> NoDup l' ->
  (forall e, e ∈ l <-> e ∈ l') -> l = l'.
Proof.
  intros Hs Hs' Hn Hn' He. apply (StronglySorted_unique_strong origin_le); [|done..|by apply NoDup_Permutation].
  intros x y _ _. apply origin_le_antisym.
Qed.

Lemma forallb_elem {A} (p : A -> bool) l : forallb p l = true <-> forall x, x ∈ l -> p x = true.
Proof. rewrite forallb_forall. split; intros H x Hx; apply H; by apply list_elem_of_In. Qed.

Lemma attested_iff origins T :
  deriveConfidence origins T = origin_attested <->
  origins <> [] /\ forall o, o ∈ origins -> vouchedBy o <> [] /\ vouchedBy o ∈ T.
Proof.
  destruct origins as [|o os]; [by split; [|intros []]|]. unfold deriveConfidence.
  set (p := fun o => _ && _). destruct (forallb p (o :: os)) eqn:E.
  - split; [|done]. intros _. split; [done|]. intros x Hx. apply (proj1 (forallb_elem _ _) E) in Hx.
    unfold p in Hx. apply andb_true_iff in Hx as [H1 H2].
    apply negb_true_iff, bool_decide_eq_false in H1. by apply bool_decide_eq_true in H2.
  - split; [done|]. intros [_ H]. exfalso. apply not_true_iff_false in E. apply E, forallb_elem.
    intros x Hx. destruct (H x Hx) as [H1 H2]. unfold p. by rewrite bool_decide_false, bool_decide_true.
Qed.

Lemma union_idem l :
  Forall plain l -> StronglySorted origin_le l -> NoDup l -> unionOrigins [l] = l.
Proof.
  intros Hp Hs Hn. assert (Hp' : Forall plain (concat [l])) by (cbn; by rewrite app_nil_r).
  apply sorted_unique; [apply sorted_union|done|by apply NoDup_union|done|].
  intros e. rewrite elem_of_union by done. cbn. by rewrite app_nil_r.
Qed.

(** ** Storage *)

Definition wide (e : OriginEntry) : bool := forallb unit16 (uri e) && forallb unit16 (vouchedBy e).

Lemma origin_json_parsed e : as_parsed (origin_json e) = origin_json e.
Proof.
  unfold origin_json. cbn [as_parsed map fst snd]. unfold obj_build. cbn [foldl fst snd obj_set].
  rewrite decide_False by (by apply (bool_decide_unpack _); vm_compute).
  by replace (own_before (js "vouchedBy") (js "uri")) with false by (vm_compute; reflexivity).
Qed.

Lemma origin_of_json e : origin_of (origin_json e) = Some e.
Proof. by destruct e. Qed.

Lemma items_back l : omap origin_of (map as_parsed (map origin_json l)) = l.
Proof.
  induction l as [|e l IH]; [done|]. cbn [map]. rewrite origin_json_parsed. cbn.
  f_equal; [by destruct e|exact IH].
Qed.

Lemma parse_serialized l :
  Forall plain l -> StronglySorted origin_le l -> NoDup l -> forallb wide l = true ->
  parseOrigins (Some (serializeOrigins l)) = Ok l.
Proof.
  intros Hp Hs Hn Hw. unfold parseOrigins, serializeOrigins.
  destruct (json_stringify (JArr (map origin_json l))) as [|c r] eqn:E; [done|]. rewrite <- E.
  rewrite json_roundtrip.
  - cbn [as_parsed]. by rewrite items_back, union_idem.
  - cbn [representable]. apply forallb_forall. intros j Hj. apply in_map_iff in Hj as (e & <- & He).
    rewrite forallb_forall in Hw. specialize (Hw e He). unfold wide in Hw. apply andb_true_iff in Hw as [H1 H2].
    unfold origin_json. cbn [representable forallb fst snd]. rewrite H1, H2. reflexivity.
Qed.

(** ** Theorems *)

(** Union is canonical: when no authority holds a space, the union of origin sets is
    ordered, has no repetition, holds exactly the entries of its inputs, and depends on
    nothing else, so it is order-free, idempotent and associative. *)
Theorem origin_union_canonical sets sets' :
  Forall plain (concat sets) -> Forall plain (concat sets') ->
  StronglySorted origin_le (unionOrigins sets) /\ NoDup (unionOrigins sets) /\
  (forall e, e ∈ unionOrigins sets <-> e ∈ concat sets) /\
  (unionOrigins sets = unionOrigins sets' <-> forall e, e ∈ concat sets <-> e ∈ concat sets').
Proof.
  intros Hp Hp'. split; [apply sorted_union|]. split; [by apply NoDup_union|].
  split; [by intros e; apply elem_of_union|]. split.
  - intros E e. rewrite <- !elem_of_union by done. by rewrite E.
  - intros H. apply sorted_unique; try apply sorted_union; try by apply NoDup_union.
    intros e. rewrite !elem_of_union by done. apply H.
Qed.

Lemma origin_union_canonical_witness :
  unionOrigins [[declaredOrigin (js "u") (js "fp")]; [fetchedOrigin (js "a")]] =
  unionOrigins [[fetchedOrigin (js "a"); declaredOrigin (js "u") (js "fp")]; []].
Proof.
  apply (origin_union_canonical
           [[declaredOrigin (js "u") (js "fp")]; [fetchedOrigin (js "a")]]
           [[fetchedOrigin (js "a"); declaredOrigin (js "u") (js "fp")]; []]);
    [apply (bool_decide_unpack _); vm_compute; exact I..|].
  generalize (declaredOrigin (js "u") (js "fp")), (fetchedOrigin (js "a")).
  intros x y e. cbn [concat app]. rewrite !elem_of_cons. tauto.
Defined.

Lemma union_nil sets : Forall plain (concat sets) -> unionOrigins sets = [] <-> concat sets = [].
Proof.
  intros Hp. split; intros E; apply elem_of_nil_inv; intros e He;
    [rewrite <- elem_of_union in He by done|rewrite elem_of_union in He by done];
    rewrite E in He; by apply not_elem_of_nil in He.
Qed.

(** Confidence is never raised by composition: when no authority holds a space, the union
    of origin sets is fully attested exactly when some input has an entry and every entry of
    every input is vouched by a trusted authority; an empty union is unknown, never attested. *)
Theorem origin_confidence_derived sets T :
  Forall plain (concat sets) ->
  (mayAttestFully (deriveConfidence (unionOrigins sets) T) = true <->
   concat sets <> [] /\ forall s, s ∈ sets -> s <> [] -> deriveConfidence s T = origin_attested) /\
  (deriveConfidence (unionOrigins sets) T = origin_unknown <-> concat sets = []).
Proof.
  intros Hp.
  pose proof (union_nil sets Hp) as Hnil.
  split.
  - unfold mayAttestFully. rewrite bool_decide_eq_true, attested_iff, Hnil. split.
    + intros [Hn H]. split; [done|]. intros s Hs Hne. apply attested_iff. split; [done|].
      intros o Ho. apply H. rewrite elem_of_union by done.
      apply list_elem_of_In, in_concat. exists s. by rewrite <- !list_elem_of_In.
    + intros [Hn H]. split; [done|]. intros o Ho. rewrite elem_of_union in Ho by done.
      apply list_elem_of_In, in_concat in Ho as (s & Hs & Ho). rewrite <- !list_elem_of_In in *.
      assert (Hne : s <> []) by (intros ->; by apply not_elem_of_nil in Ho).
      specialize (H s Hs Hne). apply attested_iff in H as [_ H]. by apply H.
  - rewrite <- Hnil. unfold deriveConfidence. destruct (unionOrigins sets); [done|].
    by destruct (forallb _ _).
Qed.

Lemma origin_confidence_derived_witness :
  mayAttestFully (deriveConfidence
    (unionOrigins [[fetchedOrigin (js "a")]; [unvouchedOrigin (js "b")]]) {[CLOISTER_AUTHORITY]}) = false.
Proof.
  apply not_true_iff_false. intros H.
  apply (origin_confidence_derived [[fetchedOrigin (js "a")]; [unvouchedOrigin (js "b")]]) in H as [_ H];
    [|apply (bool_decide_unpack _); vm_compute; exact I].
  specialize (H [unvouchedOrigin (js "b")] ltac:(right; left) ltac:(done)).
  vm_compute in H. discriminate.
Defined.

(** A stored origin set reads back: [parseOrigins] undoes [serializeOrigins] on every union
    of origin sets whose authorities hold no space, and two unions with the same stored text,
    which is what [originsDigest] commits to, are equal. *)
Theorem origins_storage_roundtrip sets sets' :
  Forall plain (concat sets) -> Forall plain (concat sets') ->
  forallb wide (unionOrigins sets) = true -> forallb wide (unionOrigins sets') = true ->
  parseOrigins (Some (serializeOrigins (unionOrigins sets))) = Ok (unionOrigins sets) /\
  (serializeOrigins (unionOrigins sets) = serializeOrigins (unionOrigins sets') ->
   unionOrigins sets = unionOrigins sets').
Proof.
  intros Hp Hp' Hw Hw'.
  assert (Hu : forall s, Forall plain (concat s) -> Forall plain (unionOrigins s)).
  { intros s Hs. rewrite Forall_forall in *. intros e He.
    rewrite elem_of_union in He by by rewrite Forall_forall. auto. }
  assert (Hr : forall s, Forall plain (concat s) -> forallb wide (unionOrigins s) = true ->
            parseOrigins (Some (serializeOrigins (unionOrigins s))) = Ok (unionOrigins s)).
  { intros s H1 H2. apply parse_serialized; [by apply Hu|apply sorted_union|by apply NoDup_union|done]. }
  split; [by apply Hr|]. intros E.
  pose proof (Hr sets Hp Hw) as H1. rewrite E, (Hr sets' Hp' Hw') in H1. by injection H1.
Qed.

Lemma origins_storage_roundtrip_witness :
  parseOrigins (Some (serializeOrigins (unionOrigins [[declaredOrigin (js "u") (js "fp")]]))) =
  Ok [declaredOrigin (js "u") (js "fp")].
Proof.
  apply (origins_storage_roundtrip [[declaredOrigin (js "u") (js "fp")]]
           [[declaredOrigin (js "u") (js "fp")]]);
    first [apply (bool_decide_unpack _); vm_compute; exact I|vm_compute; reflexivity].
Defined.

(** The comment says the pair is the key; with a space inside an authority two different
    pairs share a key, the first is lost, and the union of an untrusted and a trusted
    source is fully attested. *)
Lemma union_drops_origin :
  let untrusted := mkOrigin (js "a b") (js "c") in
  let trusted := mkOrigin (js "a") (js "b c") in
  unionOrigins [[untrusted]; [trusted]] = [trusted] /\
  deriveConfidence [untrusted] {[js "b c"]} = origin_asserted /\
  deriveConfidence (unionOrigins [[untrusted]; [trusted]]) {[js "b c"]} = origin_attested.
Proof. repeat split; vm_compute; reflexivity. Qed.
End Origin.
