(* ===== verification/BeadCreate.v ===== *)
(** The bead_create handoff (src/routes/bead-create-orchestrator.ts): canonical bytes to the
    blob store, a row to the repository's bead store, an attestation to the trust store, and
    the retry queue when the attestation fails.

    The three objects are the models of their own files.  A call to an object can get lost
    on the way there, or its reply on the way back: every run takes one [rpc] outcome per
    call, and the theorems hold for all of them. *)
From S2P Require Import Prelude JsString Sql Platform Json JsonText JsConvert BlobRefStore Origin Canonical Bead BeadStore Attestations PendingAttestations TrustStore.

Module BeadCreate.
Import JsonText JsConvert.

(** ** Inputs *)

(** The verified lease, as the middleware passes it on. *)
Record BeadCreateContext := mkContext { peerFp : jsstr; scope : jsstr; certDer : bytes; sig : bytes }.

(** The objects, and the module flag of the deprecation warning.  A bead store is created
    empty at its first use. *)
Record world := mkWorld {
  w_blobs : BlobRefStore.BlobStoreDO;
  w_beads : gmap (list Z) BeadStore.T;
  w_trust : TrustStore.T;
  w_warned : bool;
}.

(** The answer of the rosary service to one tools/call, when it is the backend. *)
Inductive rsry_reply :=
  | Threw
  | NotOk (status : Z)
  | Body (text : jsstr).

(** What surrounds a run: the environment (the storage backend, whether the service binding is
    there, the URL variable), the fate of each call, the service's answer, 4 random bytes and the
    clock of the bead store. *)
Record surroundings := mkSurroundings {
  BEAD_STORAGE_BACKEND : option jsstr;
  has_binding : bool;
  ROSARY_MCP_URL : jsstr;
  rsry : rsry_reply;
  on_put : rpc;
  on_bead : rpc;
  on_head : rpc;
  on_apply : rpc;
  on_enqueue : rpc;
  random : bytes;
  do_now : jsstr;
  foreign_keys : bool;
}.

Inductive step_error :=
  | RepoRequired
  | BlobPutFailed
  | BlobPutFaulted
  | BeadCallFailed
  | RsryNotWired
  | RsryUnreachable
  | RsryStatus (status : Z)
  | RsryFailed
  | RsryNoText
  | RsryNotJson (e : json_error)
  | RsryNoId
  | EnqueueFailed (bead content_hash : option jsstr).

Inductive exn :=
  | OriginBounds
  | Convert (e : conversion_error)
  | Encode (e : Bead.bead_error)
  | Invocation (code : option Json) (e : step_error)
  | CallThrew
  | ReplyNotJson (e : json_error).

Definition INTERNAL : option Json := Some (JNum (-32603)).

Definition lift {E A} (f : E -> exn) (r : result E A) : M world exn A := fun w =>
  match r with Ok a => (w, Ok a) | Throw e => (w, Throw (f e)) end.

(** A call to an object: [run] is what it does there. *)
Definition call {A} (fate : rpc) (run : M world exn A) : M world exn A := remote CallThrew fate run.

(** ** Step 0: the bead *)

Definition generateBeadId (rnd : bytes) : jsstr := toHex rnd.

Definition pad (n : Z) : jsstr := let s := js_dec n in replicate (2 - length s) 48 ++ s.

Definition formatSqliteUtcNow (nowMs : Z) : jsstr :=
  if MAX_TIME <? Z.abs nowMs then js "NaN-NaN-NaN NaN:NaN:NaN"
  else
    let '(y, m, d) := civil_of_day (nowMs / 86400000) in
    let ms := nowMs mod 86400000 in
    js_dec y ++ js "-" ++ pad m ++ js "-" ++ pad d ++ js " " ++
    pad (ms / 3600000) ++ js ":" ++ pad (ms / 60000 mod 60) ++ js ":" ++ pad (ms / 1000 mod 60).

Definition buildBead (i t d : jsstr) (p : number) (ls : list Json) (by_ : option jsstr)
    (rp : jsstr) (nowMs : Z) : Bead.Bead :=
  let ts := formatSqliteUtcNow nowMs in
  Bead.mkBead i t d (js "open") p ls ts ts by_ rp None None.

(** Content origins: the sources the caller declares, bounded before they are filtered. *)
Definition declared_uri (v : Json) : option jsstr := match v with JStr ((_ :: _) as u) => Some u | _ => None end.

Definition buildContentOrigins (toolArgs : Json) (fp : jsstr) : result exn Origin.OriginSet :=
  let raw := match get_prop toolArgs (js "origins") with Some (JArr l) => l | _ => [] end in
  if Origin.MAX_DECLARED_ORIGINS <? Z.of_nat (length raw) then Throw OriginBounds
  else
    let declared := omap declared_uri raw in
    if existsb (fun u => Origin.MAX_ORIGIN_URI_LENGTH <? Z.of_nat (length u)) declared then Throw OriginBounds
    else Ok (Origin.unionOrigins [map (fun u => Origin.declaredOrigin u fp) declared]).

Definition array_of (o : option Json) : list Json := match o with Some (JArr l) => l | _ => [] end.

(** [String(a.k ?? d)] *)
Definition text_or (a : Json) (k d : jsstr) : result exn jsstr :=
  match String_of (nullish (get_prop a k) (JStr d)) with Ok s => Ok s | Throw e => Throw (Convert e) end.

Definition shape (a : Json) (i rp : jsstr) (nowMs : Z) : result exn Bead.Bead :=
  let? t := text_or a (js "title") [] in
  let? d := text_or a (js "description") [] in
  match to_number (nullish (get_prop a (js "priority")) (JNum 0)) with
  | Throw e => Throw (Convert e)
  | Ok p =>
      match opt_conv String_of (get_prop a (js "created_by")) with
      | Throw e => Throw (Convert e)
      | Ok by_ => Ok (buildBead i t d p (array_of (get_prop a (js "labels"))) by_ rp nowMs)
      end
  end.

(** [{ ...a, id, repo, content_hash }] *)
Definition bead_params (a : Json) (i rp digest : jsstr) : Json :=
  let m := match a with JObj m => m | _ => [] end in
  JObj (obj_set (js "content_hash") (JStr digest) (obj_set (js "repo") (JStr rp) (obj_set (js "id") (JStr i) m))).

(** ** Step 2: the two backends *)

(** What the handoff keeps of a bead: [id] is a string in both backends. *)
Record bead_result := mkResult { br_id : option Json; br_title : option Json; br_state : option Json }.
Definition id_text (r : bead_result) : option jsstr := match br_id r with Some (JStr s) => Some s | _ => None end.

Definition bedStorageBackend (s : surroundings) : bool :=
  bool_decide (to_lower (trim (default [] (BEAD_STORAGE_BACKEND s))) = js "rsry").

Definition emitBeadStoreDoDeprecationWarningOnce : M world exn unit := fun w =>
  (mkWorld (w_blobs w) (w_beads w) (w_trust w) true, Ok tt).

Definition bead_store (w : world) (rp : jsstr) : BeadStore.T := default BeadStore.empty (w_beads w !! rp).
Definition set_bead_store (rp : jsstr) (t : BeadStore.T) (w : world) : world :=
  mkWorld (w_blobs w) (<[rp := t]> (w_beads w)) (w_trust w) (w_warned w).

(** The JSON-RPC request, as the object reads it back from the body. *)
Definition inner_request (method : string) (params : Json) : Json :=
  JObj [(js "jsonrpc", JStr (js "2.0")); (js "method", JStr (js method)); (js "params", params); (js "id", JNum 0)].

Definition fetch_bead_store (s : surroundings) (rp : jsstr) (body : jsstr) : M world exn BeadStore.response := fun w =>
  match json_parse body with
  | Throw e => (w, Throw (ReplyNotJson e))
  | Ok req =>
      let method := default JNull (get_prop req (js "method")) in
      let '(t, r) := BeadStore.dispatch (foreign_keys s) (do_now s) []
        (BeadStore.mkReq (default JNull (get_prop req (js "id"))) method (get_prop req (js "params")))
        (bead_store w rp) in
      (set_bead_store rp t w, Ok r)
  end.

Definition createBeadViaBeadStoreDO (s : surroundings) (rp : jsstr) (params : Json) : M world exn bead_result :=
  let* r := call (on_bead s) (fetch_bead_store s rp (json_stringify (inner_request "bead_create" params))) in
  match r with
  | BeadStore.okResponse _ fields =>
      let get k := get_prop (JObj fields) (js k) in
      ret (mkResult (get "id"%string) (get "title"%string) (get "state"%string))
  | _ => throw (Invocation (JNum <$> BeadStore.error_code r) BeadCallFailed)
  end.

(** [content?.[0]?.text] of the result. *)
Definition first_text (result : option Json) : option Json :=
  match opt_prop result (js "content") with
  | Some (JArr (c :: _)) => opt_prop (Some c) (js "text")
  | Some (JObj m) => opt_prop (assoc (js "0") m) (js "text")
  | _ => None
  end.

Definition parse_text (f : json_error -> exn) (text : jsstr) : M world exn Json :=
  lift f (json_parse text).

Definition createBeadViaRsry (s : surroundings) (params : Json) : M world exn bead_result :=
  let fail {A} e : M world exn A := throw (Invocation INTERNAL e) in
  if negb (has_binding s) && bool_decide (ROSARY_MCP_URL s = []) then fail RsryNotWired
  else
    match rsry s with
    | Threw => fail RsryUnreachable
    | NotOk status => fail (RsryStatus status)
    | Body text =>
        let* body2 := parse_text ReplyNotJson text in
        if is_null body2 then throw (Convert TypeError)
        else
          match get_prop body2 (js "error") with
          | Some JNull => throw (Convert TypeError)
          | Some err => throw (Invocation (get_prop err (js "code")) RsryFailed)
          | None =>
              match first_text (get_prop body2 (js "result")) with
              | Some (JStr t) =>
                  let* parsed := parse_text (fun e => Invocation INTERNAL (RsryNotJson e)) t in
                  if is_null parsed then throw (Convert TypeError)
                  else
                    match get_prop parsed (js "id") with
                    | Some (JStr i) =>
                        let* t := match get_prop parsed (js "title") with
                                  | Some (JStr t) => ret t
                                  | _ => lift (fun e => e) (text_or params (js "title") [])
                                  end in
                        ret (mkResult (Some (JStr i)) (Some (JStr t))
                               (Some (nullish (get_prop parsed (js "state")) (JStr (js "open")))))
                    | _ => fail RsryNoId
                    end
              | _ => fail RsryNoText
              end
          end
    end.

(** ** The handoff *)

Definition trust {A} (m : M TrustStore.T TrustStore.exn A) : M world exn A := fun w =>
  let '(t, r) := m (w_trust w) in
  (mkWorld (w_blobs w) (w_beads w) t (w_warned w), match r with Ok a => Ok a | Throw _ => Throw CallThrew end).

Section handoff.
Context `{Sha256} `{Blake3}.

Definition blobStore_put (bs : bytes) : M world exn jsstr := fun w =>
  let '(t, r) := BlobRefStore.do_put (w_blobs w) bs None in
  (mkWorld t (w_beads w) (w_trust w) (w_warned w), match r with Ok d => Ok d | Throw _ => Throw CallThrew end).

(** Step 1. *)
Definition put_step (s : surroundings) (bs : bytes) : M world exn jsstr :=
  let* digest := catch (call (on_put s) (blobStore_put bs)) (fun _ => throw (Invocation INTERNAL BlobPutFailed)) in
  if bool_decide (digest = BlobRefStore.BLOB_PUT_FAULT_DIGEST) then throw (Invocation INTERNAL BlobPutFaulted)
  else ret digest.

(** Step 2. *)
Definition bead_step (s : surroundings) (a : Json) (i rp digest : jsstr) : M world exn bead_result :=
  let params := bead_params a i rp digest in
  if bedStorageBackend s then createBeadViaRsry s params
  else do* emitBeadStoreDoDeprecationWarningOnce in createBeadViaBeadStoreDO s rp params.

Definition attestation_args (c : BeadCreateContext) (digest : jsstr) (origins : Origin.OriginSet)
    (r : bead_result) (prev : option jsstr) (nowMs : Z) : Attestations.args :=
  Attestations.mkArgs (peerFp c) digest (js "bead/v1") (scope c) (certDer c) (sig c) prev None nowMs
    (id_text r) (Some (Origin.serializeOrigins origins)).

Definition pending_args (c : BeadCreateContext) (digest : jsstr) (nowMs : Z) : PendingAttestations.enqueue_args :=
  PendingAttestations.mkEnqueue (peerFp c) digest (scope c) (certDer c) (sig c) nowMs.

(** Steps 3 and 4. *)
Definition attest_step (s : surroundings) (c : BeadCreateContext) (digest : jsstr)
    (origins : Origin.OriginSet) (r : bead_result) (nowMs : Z) : M world exn unit :=
  let* head := call (on_head s) (trust (TrustStore.lastAttestationForPeer (peerFp c))) in
  let prevSelfRef := Attestations.content_hash <$> head in
  let* applyOk := catch
    (let* res := call (on_apply s) (trust (TrustStore.applyAttestation
                   (attestation_args c digest origins r prevSelfRef nowMs))) in
     ret (match res with Attestations.Applied _ _ => true | Attestations.PrevSelfRefMismatch _ _ => false end))
    (fun _ => ret false) in
  if applyOk : bool then ret tt
  else
    do* catch (call (on_enqueue s) (trust (TrustStore.enqueuePendingAttestation (pending_args c digest nowMs))))
          (fun _ => throw (Invocation INTERNAL (EnqueueFailed (id_text r) (Some digest)))) in
    ret tt.

Record summary := mkSummary { s_bead : bead_result; s_content_hash : jsstr }.

Definition runBeadCreateOrchestrator (s : surroundings) (toolArgs : Json) (c : BeadCreateContext)
    (nowMs : Z) : M world exn summary :=
  let* rp := lift (fun e => e) (text_or toolArgs (js "repo") []) in
  let* origins := lift (fun e => e) (buildContentOrigins toolArgs (peerFp c)) in
  if bool_decide (rp = []) then throw (Invocation (Some (JNum (-32602))) RepoRequired)
  else
    let i := generateBeadId (random s) in
    let* bead := lift (fun e => e) (shape toolArgs i rp nowMs) in
    let* canonicalBytes := lift Encode (Bead.beadCanonicalBytesV1 bead) in
    let* digest := put_step s canonicalBytes in
    let* r := bead_step s toolArgs i rp digest in
    do* attest_step s c digest origins r nowMs in
    ret (mkSummary r digest).
End handoff.

(** ** What each step touches *)

Definition same_stores (w w' : world) : Prop := w_trust w' = w_trust w /\ w_blobs w' = w_blobs w.
#[local] Instance same_stores_preorder : PreOrder same_stores.
Proof. split; [by intros w|]. intros a b c [? ?] [? ?]. split; congruence. Qed.

Lemma call_keeps (R : relation world) `{!PreOrder R} {A} fate (m : M world exn A) : keeps R m -> keeps R (call fate m).
Proof.
  intros Hm w. unfold call, remote. destruct fate; [apply Hm|reflexivity|]. specialize (Hm w). by destruct (m w).
Qed.

Lemma lift_keeps (R : relation world) `{!PreOrder R} {E A} (f : E -> exn) (r : result E A) : keeps R (lift f r).
Proof. intros w. unfold lift. destruct r; reflexivity. Qed.
#[local] Hint Resolve lift_keeps : keeps.

Lemma bead_step_stores s a i rp d : keeps same_stores (bead_step s a i rp d).
Proof.
  unfold bead_step, createBeadViaRsry, createBeadViaBeadStoreDO, parse_text. walk; [by intros w|].
  apply call_keeps; [apply _|]. intros w. unfold fetch_bead_store.
  destruct (json_parse _); [|done]. by destruct (BeadStore.dispatch _ _ _ _ _).
Qed.

(** The evidence of a write: an attestation of the digest by the peer that names the bead and
    carries the origins, or a queued one. *)
Definition evidence (c : BeadCreateContext) (digest : jsstr) (origins : Origin.OriginSet)
    (r : bead_result) (t : TrustStore.T) : Prop :=
  (exists k x, TrustStore.peer_attestations t !! k = Some x /\
     Attestations.peer_fingerprint x = peerFp c /\ Attestations.content_hash x = digest /\
     Attestations.bead_id x = id_text r /\ Attestations.origins x = Some (Origin.serializeOrigins origins)) \/
  (exists p, TrustStore.pending_attestations t !! (peerFp c, digest) = Some p).

Lemma apply_evidence c d o r prev now t t' q x :
  TrustStore.applyAttestation (attestation_args c d o r prev now) t = (t', Ok (Attestations.Applied q x)) ->
  evidence c d o r t'.
Proof.
  unfold TrustStore.applyAttestation. intros E. apply bind_Ok in E as (t1 & hit & _ & E).
  destruct hit; [done|]. unfold TrustStore.apply_helper in E.
  apply bind_Ok in E as (t2 & [tb res] & El & E). injection E as <- ->.
  unfold TrustStore.lift in El.
  destruct (Attestations.applyAttestation _ _) as [[tb' res']|] eqn:Ea; [|done].
  injection El as _ -> ->. left. unfold Attestations.applyAttestation in Ea.
  destruct (decide _) as [_|_]; [|done]. unfold insert_strict in Ea.
  destruct (TrustStore.peer_attestations t1 !! _) as [y|] eqn:Ey; [done|]. cbn [rbind] in Ea.
  apply (inj Ok) in Ea. injection Ea as <- _ _. cbn [TrustStore.peer_attestations TrustStore.set_attestations].
  eexists _, _. split; [apply lookup_insert_eq|]. done.
Qed.

Lemma enqueue_evidence c d o r now t :
  evidence c d o r (TrustStore.enqueuePendingAttestation (pending_args c d now) t).1.
Proof.
  right. unfold TrustStore.enqueuePendingAttestation, TrustStore.on, PendingAttestations.enqueuePending.
  mrun. destruct (insert_or_nothing_lookup (peerFp c, d) (PendingAttestations.enqueue_row (pending_args c d now))
    (TrustStore.pending_attestations t)) as [p Hp].
  destruct (insert_or_nothing _ _ (TrustStore.pending_attestations t)) as [tb b]. by exists p.
Qed.

Lemma evidence_frame c d o r t t' :
  TrustStore.peer_attestations t' = TrustStore.peer_attestations t ->
  TrustStore.pending_attestations t' = TrustStore.pending_attestations t ->
  evidence c d o r t -> evidence c d o r t'.
Proof. intros E1 E2. unfold evidence. by rewrite E1, E2. Qed.

Lemma trust_effect {A} (m : M TrustStore.T TrustStore.exn A) w w' (r : result exn A) :
  trust m w = (w', r) -> w_trust w' = (m (w_trust w)).1 /\ w_beads w' = w_beads w /\ w_blobs w' = w_blobs w /\
    forall x, r = Ok x -> m (w_trust w) = (w_trust w', Ok x).
Proof.
  unfold trust. destruct (m (w_trust w)) as [t [x|e]]; intros [= <- <-]; cbn; split_and!; try done.
  by intros y [= ->].
Qed.

(** A call that answers was delivered; any other leaves the state as it was or as the call
    made it. *)
Lemma call_Ok {A} fate (m : M world exn A) w w' x : call fate m w = (w', Ok x) -> m w = (w', Ok x).
Proof. by destruct fate. Qed.

Lemma call_effect {A} fate (m : M world exn A) w : (call fate m w).1 = w \/ (call fate m w).1 = (m w).1.
Proof. destruct fate; cbn; auto. Qed.

Lemma head_reads fate p w w' (r : result exn (option Attestations.PeerAttestation)) :
  call fate (trust (TrustStore.lastAttestationForPeer p)) w = (w', r) -> w' = w.
Proof. destruct w. by destruct fate; intros [= <- _]. Qed.

Lemma attest_step_runs s c d o r now w w' res :
  attest_step s c d o r now w = (w', res) ->
  w_beads w' = w_beads w /\ w_blobs w' = w_blobs w /\
  match res with
  | Ok _ => evidence c d o r (w_trust w')
  | Throw (Invocation _ (EnqueueFailed b h)) => b = id_text r /\ h = Some d /\ on_enqueue s <> Delivered
  | Throw e => e = CallThrew /\ w' = w /\ on_head s <> Delivered
  end.
Proof.
  unfold attest_step. unfold bind at 1.
  destruct (call (on_head s) _ w) as [w1 [head|e]] eqn:Eh.
  2:{ intros [= <- <-]. pose proof (head_reads _ _ _ _ _ Eh) as ->.
      destruct w. destruct (on_head s) eqn:Ef; cbn in Eh; [done|injection Eh as <-; done..]. }
  apply head_reads in Eh as ->. set (prev := Attestations.content_hash <$> head). clearbody prev.
  unfold bind at 1. unfold catch at 1. unfold bind at 1.
  destruct (call (on_apply s) _ w) as [w1 ra] eqn:Ea.
  assert (Hw1 : w_beads w1 = w_beads w /\ w_blobs w1 = w_blobs w).
  { destruct (call_effect (on_apply s) (trust (TrustStore.applyAttestation (attestation_args c d o r prev now))) w)
      as [E|E]; rewrite Ea in E; cbn [fst] in E; subst w1; [done|].
    destruct (trust _ w) as [w2 r2] eqn:Et. by apply trust_effect in Et as (_ & ? & ? & _). }
  assert (Hrest : forall w2, w_beads w2 = w_beads w /\ w_blobs w2 = w_blobs w ->
    (do* catch (call (on_enqueue s) (trust (TrustStore.enqueuePendingAttestation (pending_args c d now))))
          (fun _ => throw (Invocation INTERNAL (EnqueueFailed (id_text r) (Some d)))) in ret tt) w2 = (w', res) ->
    w_beads w' = w_beads w /\ w_blobs w' = w_blobs w /\
    match res with
    | Ok _ => evidence c d o r (w_trust w')
    | Throw (Invocation _ (EnqueueFailed b h)) => b = id_text r /\ h = Some d /\ on_enqueue s <> Delivered
    | Throw e => e = CallThrew /\ w' = w /\ on_head s <> Delivered
    end).
  { intros w2 [Hb Hm]. unfold bind, catch.
    pose proof (call_effect (on_enqueue s) (trust (TrustStore.enqueuePendingAttestation (pending_args c d now))) w2) as Hc.
    pose proof (enqueue_evidence c d o r now (w_trust w2)) as Hev.
    destruct (call (on_enqueue s) _ w2) as [w3 [b|e]] eqn:Ee; cbn [fst] in Hc.
    - intros [= <- <-]. apply call_Ok, trust_effect in Ee as (Et & E1 & E2 & _). rewrite Et. split_and!; congruence || done.
    - intros [= <- <-].
      assert (Hen : on_enqueue s <> Delivered).
      { intros Hen. rewrite Hen in Ee. cbn [call remote] in Ee. unfold trust in Ee.
        unfold TrustStore.enqueuePendingAttestation, TrustStore.on, exec in Ee.
        by destruct (PendingAttestations.enqueuePending _ _). }
      destruct Hc as [-> | ->]; [done|].
      destruct (trust _ w2) as [w4 r4] eqn:Et. apply trust_effect in Et as (_ & E1 & E2 & _). cbn [fst].
      split_and!; congruence || done. }
  destruct ra as [[q x|x y]|e]; cbn [ret].
  - intros [= <- <-]. apply call_Ok, trust_effect in Ea as (_ & _ & _ & Hx).
    split_and!; [apply Hw1..|]. eapply apply_evidence, Hx. reflexivity.
  - by apply Hrest.
  - by apply Hrest.
Qed.

Lemma put_step_runs `{Sha256} `{Blake3} s bs w w' res :
  put_step s bs w = (w', res) ->
  w_beads w' = w_beads w /\ w_trust w' = w_trust w /\
  match res with
  | Ok d => BlobRefStore.put (BlobRefStore.inner (w_blobs w)) bs None = (BlobRefStore.inner (w_blobs w'), Ok d)
  | Throw e => exists x, e = Invocation INTERNAL x
  end.
Proof.
  unfold put_step. unfold bind, catch. destruct w as [b bd t wd].
  assert (Hput : BlobRefStore.put (BlobRefStore.inner b) bs None =
      ((BlobRefStore.put (BlobRefStore.inner b) bs None).1, Ok (BlobRefStore.digestBytes bs))).
  { unfold BlobRefStore.put, BlobRefStore.put_key. by destruct (_ <=? _). }
  destruct (call (on_put s) (blobStore_put bs) _) as [w1 r1] eqn:E.
  assert (Hw : w_beads w1 = bd /\ w_trust w1 = t).
  { destruct (call_effect (on_put s) (blobStore_put bs) (mkWorld b bd t wd)) as [H1|H1];
      rewrite E in H1; cbn [fst] in H1; subst w1; [done|].
    unfold blobStore_put. by destruct (BlobRefStore.do_put _ _ _). }
  destruct r1 as [d|e].
  - case_bool_decide as Hd; intros [= <- <-]; [by split_and!; [apply Hw..|eexists]|].
    split_and!; [apply Hw..|]. apply call_Ok in E. unfold blobStore_put, BlobRefStore.do_put in E. cbn [w_blobs] in E.
    destruct (BlobRefStore.consume_fault _) as [f [|]]; [by injection E as <- <-|].
    rewrite Hput in E. injection E as <- <-. exact Hput.
  - intros [= <- <-]. split_and!; [apply Hw..|by eexists].
Qed.

(** The object reads back the request that was sent. *)
Lemma inner_request_read p : representable p = true ->
  exists req, json_parse (json_stringify (inner_request "bead_create" p)) = Ok req /\
    get_prop req (js "method") = Some (JStr (js "bead_create")) /\
    get_prop req (js "params") = Some (as_parsed p) /\ get_prop req (js "id") = Some (JNum 0).
Proof.
  intros Hp. exists (as_parsed (inner_request "bead_create" p)). split.
  - apply json_roundtrip. unfold inner_request. cbn [representable forallb fst snd]. rewrite Hp. by vm_compute.
  - assert (Hn : NoDup (map fst [(js "jsonrpc", JStr (js "2.0")); (js "method", JStr (js "bead_create"));
                                 (js "params", p); (js "id", JNum 0)])).
    { apply (bool_decide_unpack _). vm_compute. exact I. }
    unfold inner_request. rewrite !(get_as_parsed _ _ Hn). done.
Qed.

Lemma fetch_bead_store_read s rp body req method params i w :
  json_parse body = Ok req -> get_prop req (js "method") = Some method ->
  get_prop req (js "params") = params -> get_prop req (js "id") = Some i ->
  fetch_bead_store s rp body w =
    let '(t, r) := BeadStore.dispatch (foreign_keys s) (do_now s) [] (BeadStore.mkReq i method params)
                     (bead_store w rp) in
    (set_bead_store rp t w, Ok r).
Proof. intros H1 H2 H3 H4. unfold fetch_bead_store. by rewrite H1, H2, H3, H4. Qed.

Lemma bead_step_do s a m i rp d w w' r :
  bedStorageBackend s = false -> a = JObj m -> NoDup (map fst m) ->
  representable (bead_params a i rp d) = true -> i <> [] -> d <> [] ->
  bead_step s a i rp d w = (w', Ok r) ->
  exists t row, w_beads w' = <[rp := t]> (w_beads w) /\
    BeadStore.beads t = <[i := row]> (BeadStore.beads (bead_store w rp)) /\
    BeadStore.beads (bead_store w rp) !! i = None /\
    BeadStore.id row = i /\ BeadStore.content_hash row = Some d /\
    BeadStore.created_at row = do_now s /\ id_text r = Some i.
Proof.
  intros Hs -> Hn Hrep Hi Hd. unfold bead_step. rewrite Hs. intros E.
  apply bind_Ok in E as (w1 & [] & Hw & E). injection Hw as <-.
  unfold createBeadViaBeadStoreDO in E. apply bind_Ok in E as (w2 & resp & Ef & E). apply call_Ok in Ef.
  set (p := bead_params (JObj m) i rp d) in *.
  destruct (inner_request_read p Hrep) as (req & Hreq & Hm & Hpar & Hid).
  rewrite (fetch_bead_store_read _ _ _ _ _ _ _ _ Hreq Hm Hpar Hid) in Ef. clear Hreq.
  assert (Hp : forall k, get_prop (as_parsed p) k = as_parsed <$>
      assoc k (obj_set (js "content_hash") (JStr d) (obj_set (js "repo") (JStr rp) (obj_set (js "id") (JStr i) m)))).
  { intros k. apply get_as_parsed. repeat (apply NoDup_obj_set; [by vm_compute|]). done. }
  destruct (BeadStore.dispatch _ _ _ _ _) as [t resp'] eqn:Ed. injection Ef as <- <-.
  destruct resp' as [j fields| | |]; try done. injection E as <- <-.
  apply BeadStore.create_Ok in Ed as (s1 & row & _ & Hr & Hfree & Hb & ->).
  apply BeadStore.new_row_keys in Hr as (Eid & Ech & Eat & _).
  rewrite Hp in Eid, Ech. rewrite !assoc_obj_set in Eid, Ech.
  assert (Eid' : BeadStore.id row = i).
  { rewrite Eid. rewrite !decide_False, decide_True by done || by apply (bool_decide_unpack _); vm_compute. by destruct i. }
  assert (Ech' : BeadStore.content_hash row = Some d).
  { rewrite Ech, decide_True by done. by destruct d. }
  exists t, row. rewrite <- Eid'. split_and!; done.
Qed.

(** Steps 0 and 1 of a run, and what is left of it. *)
Lemma run_steps `{Sha256} `{Blake3} s a c now w w' res :
  runBeadCreateOrchestrator s a c now w = (w', res) ->
  (exists e, res = Throw e /\ w' = w) \/
  exists rp origins bead bs, text_or a (js "repo") [] = Ok rp /\ rp <> [] /\
    buildContentOrigins a (peerFp c) = Ok origins /\
    shape a (generateBeadId (random s)) rp now = Ok bead /\ Bead.beadCanonicalBytesV1 bead = Ok bs /\
    (let* digest := put_step s bs in
     let* r := bead_step s a (generateBeadId (random s)) rp digest in
     do* attest_step s c digest origins r now in ret (mkSummary r digest)) w = (w', res).
Proof.
  unfold runBeadCreateOrchestrator. unfold bind at 1. unfold lift at 1.
  destruct (text_or a (js "repo") []) as [rp|e] eqn:Er; [|intros [= <- <-]; left; eauto].
  unfold bind at 1. unfold lift at 1.
  destruct (buildContentOrigins a (peerFp c)) as [origins|e] eqn:Eo; [|intros [= <- <-]; left; eauto].
  case_bool_decide as Hrp; [intros [= <- <-]; left; eauto|].
  unfold bind at 1. unfold lift at 1.
  destruct (shape a (generateBeadId (random s)) rp now) as [bead|e] eqn:Es; [|intros [= <- <-]; left; eauto].
  unfold bind at 1. unfold lift at 1.
  destruct (Bead.beadCanonicalBytesV1 bead) as [bs|e] eqn:Eb; [|intros [= <- <-]; left; eauto].
  intros E. right. exists rp, origins, bead, bs. by split_and!.
Qed.

(** C5: A bead_create that answers leaves its evidence, whichever calls got lost on the way: the
    canonical bytes of the bead it describes are in the blob store under the digest it
    answers; the attestation of that digest is in the log under the caller's identity, with
    the bead's id and the declared origins, or it is queued for a retry; and, with the
    object as backend, exactly one row was added, under a fresh id, with that digest. *)
Theorem bead_create_leaves_evidence `{Sha256} `{Blake3} s a c now w w' sm :
  runBeadCreateOrchestrator s a c now w = (w', Ok sm) ->
  exists rp origins bead bs, let d := s_content_hash sm in
    text_or a (js "repo") [] = Ok rp /\ buildContentOrigins a (peerFp c) = Ok origins /\
    shape a (generateBeadId (random s)) rp now = Ok bead /\
    Bead.beadCanonicalBytesV1 bead = Ok bs /\ d = BlobRefStore.digestBytes bs /\
    (forall m, BlobRefStore.represents (BlobRefStore.inner (w_blobs w)) m -> m !! d = None \/ m !! d = Some bs ->
       BlobRefStore.do_get (w_blobs w') d = Some bs) /\
    evidence c d origins (s_bead sm) (w_trust w') /\
    (forall m, bedStorageBackend s = false -> a = JObj m -> NoDup (map fst m) ->
       representable (bead_params a (generateBeadId (random s)) rp d) = true -> random s <> [] -> sha256 bs <> [] ->
       exists t row, w_beads w' = <[rp := t]> (w_beads w) /\
         BeadStore.beads t = <[BeadStore.id row := row]> (BeadStore.beads (bead_store w rp)) /\
         BeadStore.beads (bead_store w rp) !! BeadStore.id row = None /\
         BeadStore.content_hash row = Some d /\ id_text (s_bead sm) = Some (BeadStore.id row)).
Proof.
  intros E. apply run_steps in E as [(e & He & _)|(rp & origins & bead & bs & Er & Hrp & Eo & Es & Eb & E)]; [done|].
  apply bind_Ok in E as (w1 & d & E1 & E). apply bind_Ok in E as (w2 & r & E2 & E).
  apply bind_Ok in E as (w3 & [] & E3 & E). injection E as <- <-. cbn [s_content_hash s_bead].
  apply put_step_runs in E1 as (Hb1 & Ht1 & Hput).
  apply attest_step_runs in E3 as (Hb3 & Hm3 & Hev).
  destruct (bead_step_stores s a (generateBeadId (random s)) rp d w1) as [Ht2 Hm2]. rewrite E2 in Ht2, Hm2. cbn [fst] in *.
  assert (Hd : d = BlobRefStore.digestBytes bs).
  { unfold BlobRefStore.put, BlobRefStore.put_key in Hput.
    destruct (_ <=? _); by injection Hput as _ <-. }
  exists rp, origins, bead, bs. split_and!; try done.
  - intros m Hm Hfree. unfold BlobRefStore.do_get. rewrite Hm3, Hm2.
    destruct (BlobRefStore.put_represents _ m bs None d Hm) as (t' & Hp & Hr); [by rewrite Hd|done|].
    rewrite Hput in Hp. injection Hp as <-. rewrite (BlobRefStore.get_represents _ _ _ Hr). apply lookup_insert_eq.
  - intros m Hdo Ha Hn Hrep Hrnd Hsha.
    assert (Hhex : forall x : bytes, x <> [] -> toHex x <> []) by by intros [|].
    destruct (bead_step_do s a m (generateBeadId (random s)) rp d w1 w2 r) as (t & row & H1 & H2 & H3 & H4 & H5 & _ & H6);
      [done|done|done|done|by apply Hhex|rewrite Hd; by apply Hhex|done|].
    assert (Hst : bead_store w1 rp = bead_store w rp) by (unfold bead_store; by rewrite Hb1).
    exists t, row. rewrite H4, <- Hst. rewrite Hb3, H1, Hb1. by split_and!.
Qed.

(** The errors of step 2 are none of steps 1 and 4. *)
Definition of_bead_step (e : exn) : Prop :=
  match e with
  | Invocation _ BlobPutFailed | Invocation _ BlobPutFaulted | Invocation _ (EnqueueFailed _ _) => False
  | _ => True
  end.

Lemma call_raises {A} (P : exn -> Prop) fate (m : M world exn A) : P CallThrew -> raises P m -> raises P (call fate m).
Proof. intros Hc Hm w w' e. destruct fate; cbn [call]; [apply Hm|by intros [= _ <-]..]. Qed.

Lemma lift_raises {E A} (P : exn -> Prop) (f : E -> exn) (r : result E A) :
  (forall e, r = Throw e -> P (f e)) -> raises P (lift f r).
Proof. intros Hf w w' e. unfold lift. destruct r; intros [= _ <-]. by apply Hf. Qed.

Lemma bead_step_errors s a i rp d : raises of_bead_step (bead_step s a i rp d).
Proof.
  unfold bead_step, createBeadViaRsry, createBeadViaBeadStoreDO, parse_text, emitBeadStoreDoDeprecationWarningOnce.
  walk_raises; try exact I; try (apply lift_raises; intros e He; try exact I); try by intros w w' e.
  all: try (unfold text_or in He; destruct (String_of _); [done|]; injection He as <-; exact I).
  apply call_raises; [exact I|]. intros w w' e. unfold fetch_bead_store.
  destruct (json_parse _); [|by intros [= _ <-]]. by destruct (BeadStore.dispatch _ _ _ _ _).
Qed.

Lemma representable_obj_set k v m :
  forallb unit16 k = true -> representable v = true ->
  forallb (fun kv => forallb unit16 kv.1 && representable kv.2) m = true ->
  forallb (fun kv => forallb unit16 kv.1 && representable kv.2) (obj_set k v m) = true.
Proof.
  intros Hk Hv. induction m as [|[k1 v1] m IH]; cbn [obj_set forallb fst snd]; [by rewrite Hk, Hv|].
  intros [H1 H2]%andb_true_iff. destruct (decide (k = k1)); [|destruct (own_before k k1)];
    cbn [forallb fst snd]; rewrite ?Hk, ?Hv, ?H1, ?H2, ?IH; done.
Qed.

Lemma toHex_unit16 bs : forallb unit16 (toHex bs) = true.
Proof.
  apply forallb_forall. intros u Hu. apply list_elem_of_In in Hu.
  pose proof (toHex_ascii bs) as Ha. unfold is_ascii in Ha. rewrite Forall_forall in Ha. specialize (Ha u Hu).
  unfold unit16. cbv beta in Ha. apply andb_true_iff. lia.
Qed.

(** What can be sent to the bead store: arguments and a repository name that are JSON. *)
Definition sendable (a : Json) : Prop :=
  representable a = true /\ forall rp, text_or a (js "repo") [] = Ok rp -> forallb unit16 rp = true.

Lemma sendable_params a i rp d : sendable a -> text_or a (js "repo") [] = Ok rp ->
  representable (bead_params a (toHex i) rp (toHex d)) = true.
Proof.
  intros [Ha Hr] Hrp. specialize (Hr rp Hrp). unfold bead_params. cbn [representable].
  apply representable_obj_set; [by vm_compute|apply toHex_unit16|].
  apply representable_obj_set; [by vm_compute|exact Hr|].
  apply representable_obj_set; [by vm_compute|apply toHex_unit16|]. by destruct a.
Qed.

Lemma call_Throw {A} fate (m : M world exn A) w w' e :
  call fate m w = (w', Throw e) -> fate <> ReplyLost -> w' = w \/ m w = (w', Throw e).
Proof. destruct fate; cbn [call]; [auto|intros [= <- _]; by left|done]. Qed.

Lemma bead_step_do_error s a i rp d w w' e :
  bedStorageBackend s = false -> on_bead s <> ReplyLost -> representable (bead_params a i rp d) = true ->
  bead_step s a i rp d w = (w', Throw e) ->
  forall rp', BeadStore.beads (bead_store w' rp') = BeadStore.beads (bead_store w rp').
Proof.
  intros Hdo Hlost Hrep. unfold bead_step. rewrite Hdo. intros [E|(w1 & [] & Hw & E)]%bind_Throw; [done|].
  injection Hw as <-. unfold createBeadViaBeadStoreDO in E.
  destruct (inner_request_read _ Hrep) as (req & Hreq & Hm & Hpar & Hid).
  assert (Hf := fun w => fetch_bead_store_read s rp _ _ _ _ _ w Hreq Hm Hpar Hid). clear Hreq Hm Hpar Hid.
  apply bind_Throw in E as [E|(w2 & resp & E1 & E)].
  - apply call_Throw in E as [->|E]; [done| |done]. rewrite Hf in E.
    by destruct (BeadStore.dispatch _ _ _ _ _).
  - apply call_Ok in E1. rewrite Hf in E1.
    destruct (BeadStore.dispatch _ _ _ _ _) as [t r] eqn:Ed. injection E1 as <- <-.
    assert (Hcode : BeadStore.error_code r <> None) by by destruct r.
    apply BeadStore.create_failed in Ed; [|done|done].
    assert (Hw' : w' = set_bead_store rp t (mkWorld (w_blobs w) (w_beads w) (w_trust w) true)) by by destruct r; injection E as <- _.
    intros rp'. rewrite Hw'. unfold bead_store, set_bead_store. cbn [w_beads].
    destruct (decide (rp' = rp)) as [-> |Hne]; [by rewrite lookup_insert_eq|by rewrite lookup_insert_ne].
Qed.

(** A bead_create that fails leaves nothing behind that lacks evidence, unless a reply or one
    of the two last calls got lost: with the object as backend, if the bead store's reply,
    the read of the chain head and the enqueue arrive, then an error means that no row of
    any bead store changed and the trust store did not change.  A failure of the blob store
    stops before the bead store is called, whatever gets lost; and the only error after the
    trust store was written names the bead and the digest. *)
Theorem bead_create_short_circuits `{Sha256} `{Blake3} s a c now w w' e :
  runBeadCreateOrchestrator s a c now w = (w', Throw e) ->
  (bedStorageBackend s = false -> sendable a -> on_bead s <> ReplyLost -> on_head s = Delivered -> on_enqueue s = Delivered ->
     w_trust w' = w_trust w /\
     forall rp, BeadStore.beads (bead_store w' rp) = BeadStore.beads (bead_store w rp)) /\
  (forall code x, e = Invocation code x -> x = BlobPutFailed \/ x = BlobPutFaulted ->
     w_trust w' = w_trust w /\ w_beads w' = w_beads w) /\
  (w_trust w' = w_trust w \/
   exists code b d, e = Invocation code (EnqueueFailed b (Some d)) /\ on_enqueue s <> Delivered).
Proof.
  intros E. apply run_steps in E as [(x & _ & ->)|(rp & origins & bead & bs & Er & _ & _ & _ & _ & E)].
  { split_and!; [done|done|by left]. }
  apply bind_Throw in E as [E1|(w1 & d & E1 & E)]; apply put_step_runs in E1 as (Hb1 & Ht1 & Hput).
  { split_and!; [|by intros|by left]. intros _ _ _ _ _. split; [done|]. intros rp'. unfold bead_store. by rewrite Hb1. }
  assert (Hst : forall rp', bead_store w1 rp' = bead_store w rp') by (intros rp'; unfold bead_store; by rewrite Hb1).
  assert (Hd : d = toHex (sha256 bs)).
  { unfold BlobRefStore.put, BlobRefStore.put_key, BlobRefStore.digestBytes in Hput.
    destruct (_ <=? _); by injection Hput as _ <-. }
  apply bind_Throw in E as [E2|(w2 & r & E2 & E)];
    destruct (bead_step_stores s a (generateBeadId (random s)) rp d w1) as [Ht2 Hm2]; rewrite E2 in Ht2, Hm2; cbn [fst] in *.
  - assert (Hno : forall code x, e = Invocation code x -> x <> BlobPutFailed /\ x <> BlobPutFaulted).
    { intros code x ->. apply bead_step_errors in E2. by destruct x. }
    split_and!; [|intros code x Hx Hbad; destruct (Hno code x Hx); naive_solver|left; congruence].
    intros Hdo Hsend Hlost _ _. split; [congruence|]. intros rp'. rewrite <- Hst.
    rewrite Hd in E2. eapply bead_step_do_error; [done|done| |exact E2]. by apply sendable_params.
  - apply bind_Throw in E as [E3|(w3 & [] & E3 & E)]; [|done]. apply attest_step_runs in E3 as (Hb3 & Hm3 & He).
    split_and!.
    + intros _ _ _ Hh Hen. destruct e as [| | |code x| |]; try (by destruct He as (_ & _ & [])).
      destruct x; try (by destruct He as (_ & _ & [])).
    + intros code x -> Hbad. destruct Hbad as [-> | ->]; by destruct He as [? _].
    + destruct e as [| | |code x| |]; try (left; destruct He as (_ & -> & _); congruence).
      destruct x; try (left; destruct He as (_ & -> & _); congruence).
      right. destruct He as (-> & -> & He). by eexists _, _, _.
Qed.

(** ** Runs *)

Definition demo_args : Json :=
  JObj [(js "repo", JStr (js "r")); (js "title", JStr (js "t")); (js "origins", JArr [JStr (js "u:1")])].
Definition demo_context : BeadCreateContext := mkContext (js "peer") (js "bead_create") [] [].
Definition demo_world : world := mkWorld (BlobRefStore.mkDO BlobRefStore.empty None) ∅ TrustStore.empty false.
Definition demo_env (rnd : Z) (h ap en : rpc) : surroundings :=
  mkSurroundings None false [] Threw Delivered Delivered h ap en [z2b rnd] (js "1970-01-01 00:00:01") true.
Definition demo_run (s : surroundings) (w : world) : world * result exn summary :=
  @runBeadCreateOrchestrator demo_sha256 BlobRefStore.demo_blake3 s demo_args demo_context 0 w.

Lemma bead_create_leaves_evidence_witness :
  exists sm, (demo_run (demo_env 7 Delivered CallLost Delivered) demo_world).2 = Ok sm /\
    evidence demo_context (s_content_hash sm) [Origin.mkOrigin (js "u:1") (js "interlace:peer/peer")] (s_bead sm)
      (w_trust (demo_run (demo_env 7 Delivered CallLost Delivered) demo_world).1).
Proof.
  destruct (demo_run (demo_env 7 Delivered CallLost Delivered) demo_world) as [w' res] eqn:E.
  assert (Hres : match res with Ok _ => True | Throw _ => False end).
  { change res with (w', res).2. rewrite <- E. vm_compute. exact I. }
  destruct res as [sm|e]; [|destruct Hres].
  exists sm. split; [reflexivity|]. unfold demo_run in E.
  destruct (@bead_create_leaves_evidence demo_sha256 BlobRefStore.demo_blake3
    (demo_env 7 Delivered CallLost Delivered) demo_args demo_context 0 demo_world w' sm E)
    as (rp & origins & bead & bs & _ & Ho & _ & _ & _ & _ & Hev & _).
  assert (Ho' : buildContentOrigins demo_args (peerFp demo_context) =
    Ok [Origin.mkOrigin (js "u:1") (js "interlace:peer/peer")]) by (vm_compute; reflexivity).
  rewrite Ho' in Ho. apply (inj Ok) in Ho. subst origins. exact Hev.
Defined.

Lemma bead_create_short_circuits_witness :
  let s := mkSurroundings None false [] Threw Delivered CallLost Delivered Delivered Delivered [z2b 7] (js "x") true in
  (demo_run s demo_world).2 = Throw CallThrew /\
  w_trust (demo_run s demo_world).1 = w_trust demo_world.
Proof.
  intros s.
  assert (E : (demo_run s demo_world).2 = Throw CallThrew) by (vm_compute; reflexivity).
  split; [exact E|]. apply pair_snd in E. unfold demo_run in E.
  refine (proj1 (proj1 (@bead_create_short_circuits demo_sha256 BlobRefStore.demo_blake3 s demo_args
    demo_context 0 demo_world _ _ E) _ _ _ _ _)); [reflexivity| |discriminate|reflexivity|reflexivity].
  split; [vm_compute; reflexivity|]. intros rp Hrp. vm_compute in Hrp. apply (inj Ok) in Hrp. subst rp. reflexivity.
Defined.

(** The number of rows and of attestations after a run. *)
Definition census (w : world) : nat * nat * nat :=
  (size (BeadStore.beads (bead_store w (js "r"))), size (TrustStore.peer_attestations (w_trust w)),
   size (TrustStore.pending_attestations (w_trust w))).

(** The read of the chain head is outside the [try]: when it fails, the row is committed and
    neither attested nor queued, and the caller gets an error that does not name the bead. *)
Lemma lost_head_leaves_silence :
  let '(w, r) := demo_run (demo_env 7 CallLost Delivered Delivered) demo_world in
  r = Throw CallThrew /\ census w = (1%nat, 0%nat, 0%nat).
Proof. by vm_compute. Qed.

(** The comment at the failed enqueue says a retry of the whole call is safe because the id is
    pre-allocated; the id is drawn anew by every call, so the retry makes a second bead and the
    first one stays without evidence. *)
Lemma retry_is_not_idempotent :
  let '(w1, r1) := demo_run (demo_env 7 Delivered CallLost CallLost) demo_world in
  let '(w2, r2) := demo_run (demo_env 8 Delivered Delivered Delivered) w1 in
  (exists b d, r1 = Throw (Invocation INTERNAL (EnqueueFailed b d))) /\ (exists sm, r2 = Ok sm) /\
  census w1 = (1%nat, 0%nat, 0%nat) /\ census w2 = (2%nat, 1%nat, 0%nat).
Proof. vm_compute. eauto 10. Qed.

(** An attestation whose reply is lost is queued as well, and the drain appends it again. *)
Lemma lost_reply_attests_twice :
  let '(w, r) := demo_run (demo_env 7 Delivered ReplyLost Delivered) demo_world in
  let t := (TrustStore.drainPendingRetries 600000 (js "bead/v1") None (w_trust w)).1 in
  (exists sm, r = Ok sm) /\ census w = (1%nat, 1%nat, 1%nat) /\
  match Attestations.listAttestationsForPeer (TrustStore.peer_attestations t) (js "peer") None None with
  | [x; y] => Attestations.content_hash x = Attestations.content_hash y
  | _ => False
  end.
Proof. vm_compute. eauto 10. Qed.

(** The bead a reader rebuilds from the stored row. *)
Definition bead_of_row (r : BeadStore.row) (ls : list Json) : Bead.Bead :=
  Bead.mkBead (BeadStore.id r) (BeadStore.title r) (BeadStore.description r) (BeadStore.state r)
    (BeadStore.priority r) ls (BeadStore.created_at r) (BeadStore.updated_at r) (BeadStore.created_by r)
    (BeadStore.repo r) (BeadStore.notes r) (BeadStore.content_hash r).

(** The comment on the timestamps says a third party that recomputes the digest from the row
    gets the attested one; the row carries the object's clock instead, so the bytes differ
    as soon as the two clocks show different seconds. *)
Lemma row_bytes_differ :
  let w := (demo_run (demo_env 7 Delivered Delivered Delivered) demo_world).1 in
  match map_to_list (BeadStore.beads (bead_store w (js "r"))), shape demo_args (generateBeadId [z2b 7]) (js "r") 0 with
  | [(_, row)], Ok bead =>
      Bead.beadCanonicalBytesV1 (bead_of_row row []) <> Bead.beadCanonicalBytesV1 bead
  | _, _ => False
  end.
Proof. vm_compute. discriminate. Qed.
End BeadCreate.
