(* ===== verification/Framing.v ===== *)
(** Length-prefixed byte framings: the preimage of a run identifier (src/wire/run-id.ts)
    and the two buffers of the partition fold (src/wire/partition.ts).

    Each is a concatenation of fields that only the length prefixes hold apart; the
    theorems say that they do: different inputs have different bytes.  Lengths and the two
    64-bit fields of an entry are written modulo 2^64, the canonical version modulo 2^32,
    as [DataView] does. *)
From S2P Require Import Prelude JsString Platform.

Module Framing.

(** [DataView.setBigUint64(o, v, true)], [setUint32(o, v, true)]. *)
Definition u64le (v : Z) : bytes := le_bytes 8 v.
Definition u32le (v : Z) : bytes := le_bytes 4 v.
Definition byte_length (bs : bytes) : Z := Z.of_nat (length bs).

(** ** Run identifiers *)

Definition RUN_ID_DOMAIN : jsstr := js "cloister/execution/v1/run-id".
Definition RUN_ID_PREFIX : jsstr := js "run-".

Record RunIdInputs := mkRunId { canonicalSpecDigest : jsstr; grantId : jsstr; replayKey : jsstr }.

(** One framed field. *)
Definition framed (field : jsstr) : bytes :=
  let bs := utf8_encode field in u64le (byte_length bs) ++ bs.

Definition buildRunIdPreimage (inputs : RunIdInputs) : bytes :=
  utf8_encode RUN_ID_DOMAIN ++ [z2b 0] ++
  concat (map framed [canonicalSpecDigest inputs; grantId inputs; replayKey inputs]).

Definition deriveRunId `{Blake3} (inputs : RunIdInputs) : jsstr :=
  RUN_ID_PREFIX ++ blake3_hex (buildRunIdPreimage inputs).

(** ** Partition buffers *)

Record PartitionEntry := mkEntry { addr : bytes; a : Z; b : Z }.
Record PartitionSpecInput := mkSpec { domainTag : Z; scheme : jsstr; params : bytes; canonVersion : Z }.

(** The texts of [CasWasmError]. *)
Inductive frame_error := UnknownDomainTag (tag : Z) | BadAddrLength (len : Z).

Definition encodeSpec (spec : PartitionSpecInput) : result frame_error bytes :=
  let tag := domainTag spec in
  if negb (tag =? 1) && negb (tag =? 2) && negb (tag =? 3) then Throw (UnknownDomainTag tag)
  else
    let schemeBytes := utf8_encode (scheme spec) in
    Ok ([z2b tag] ++ u32le (canonVersion spec) ++ u64le (byte_length schemeBytes) ++ schemeBytes ++
        u64le (byte_length (params spec)) ++ params spec).

Fixpoint encode_records (entries : list PartitionEntry) : result frame_error bytes :=
  match entries with
  | [] => Ok []
  | e :: es =>
      if negb (byte_length (addr e) =? 32) then Throw (BadAddrLength (byte_length (addr e)))
      else let? rest := encode_records es in Ok (addr e ++ u64le (a e) ++ u64le (b e) ++ rest)
  end.

Definition encodeEntries (entries : list PartitionEntry) : result frame_error bytes :=
  let? recs := encode_records entries in Ok (u64le (Z.of_nat (length entries)) ++ recs).

Example encodeSpec_example :
  encodeSpec (mkSpec 3 (js "s") [z2b 9] 1) =
  Ok (map z2b [3; 1;0;0;0; 1;0;0;0;0;0;0;0; 115; 1;0;0;0;0;0;0;0; 9]).
Proof. vm_compute. reflexivity. Qed.

(** ** The frames hold the fields apart *)

Lemma le_bytes_inj n v w :
  0 <= v < 2 ^ (Z.of_nat n * 8) -> 0 <= w < 2 ^ (Z.of_nat n * 8) ->
  le_bytes n v = le_bytes n w -> v = w.
Proof.
  intros Hv Hw E. apply (f_equal le_val) in E. rewrite !le_val_bytes in E.
  by rewrite !Z.mod_small in E.
Qed.

Definition fits64 (v : Z) : Prop := 0 <= v < 2 ^ 64.

Lemma u64le_app_inj v w (r s : bytes) :
  fits64 v -> fits64 w -> u64le v ++ r = u64le w ++ s -> v = w /\ r = s.
Proof.
  intros Hv Hw E. apply app_inj_1 in E as [E ->]; [|unfold u64le, u32le; by rewrite !length_le_bytes].
  by apply le_bytes_inj in E as ->.
Qed.

(** A length prefix and its bytes. *)
Lemma prefixed_inj (x y r s : bytes) :
  fits64 (byte_length x) -> fits64 (byte_length y) ->
  u64le (byte_length x) ++ x ++ r = u64le (byte_length y) ++ y ++ s -> x = y /\ r = s.
Proof.
  intros Hx Hy E. apply u64le_app_inj in E as [El E]; [|done..].
  unfold byte_length in El. apply app_inj_1 in E; [done|lia].
Qed.

(** What a field must satisfy to be recovered: well-formed text shorter than 2^64 bytes. *)
Definition framable (s : jsstr) : Prop := well_formed s = true /\ fits64 (byte_length (utf8_encode s)).

Lemma framed_app_inj s t r r' :
  framable s -> framable t -> framed s ++ r = framed t ++ r' -> s = t /\ r = r'.
Proof.
  intros [Ws Fs] [Wt Ft] E. unfold framed in E. rewrite <- !app_assoc in E.
  apply prefixed_inj in E as [E ->]; [|done..]. by apply utf8_encode_inj in E as ->.
Qed.

#[local] Opaque utf8_encode.

Lemma preimage_inj x y :
  framable (canonicalSpecDigest x) -> framable (grantId x) -> framable (replayKey x) ->
  framable (canonicalSpecDigest y) -> framable (grantId y) -> framable (replayKey y) ->
  buildRunIdPreimage x = buildRunIdPreimage y -> x = y.
Proof.
  intros ?????? E. unfold buildRunIdPreimage in E. revert E.
  generalize (utf8_encode RUN_ID_DOMAIN), (z2b 0). intros d z E. apply app_inv_head in E.
  apply app_inv_head in E. cbn [map concat] in E. apply framed_app_inj in E as [E1 E]; [|done..].
  apply framed_app_inj in E as [E2 E]; [|done..]. apply framed_app_inj in E as [E3 _]; [|done..].
  destruct x, y. cbn in E1, E2, E3. by subst.
Qed.

Definition spec_ok (s : PartitionSpecInput) : Prop :=
  framable (scheme s) /\ fits64 (byte_length (params s)) /\ 0 <= canonVersion s < 2 ^ 32.

Lemma encodeSpec_inj x y bs :
  spec_ok x -> spec_ok y -> encodeSpec x = Ok bs -> encodeSpec y = Ok bs -> x = y.
Proof.
  intros (Sx & Px & Vx) (Sy & Py & Vy). unfold encodeSpec.
  destruct (negb (domainTag x =? 1) && _ && _) eqn:Ex; [done|].
  destruct (negb (domainTag y =? 1) && _ && _) eqn:Ey; [done|]. intros <- E. apply (inj Ok) in E.
  assert (Et : domainTag x = domainTag y).
  { apply (f_equal (fun l => b2z <$> head l)) in E. cbn [app head fmap option_fmap option_map] in E.
    injection E as E. rewrite !b2z_z2b, !Z.mod_small in E by lia. lia. }
  rewrite Et in E. revert E. generalize (z2b (domainTag y)). intros z E. apply app_inv_head in E.
  apply app_inj_1 in E as [Ev E]; [|unfold u64le, u32le; by rewrite !length_le_bytes]. apply le_bytes_inj in Ev; [|done..].
  destruct Sx as [Wx Fx], Sy as [Wy Fy]. apply prefixed_inj in E as [Es E]; [|done..].
  apply utf8_encode_inj in Es; [|done..]. apply u64le_app_inj in E as [_ E]; [|done..].
  destruct x, y. cbn in Et, Ev, Es, E. by subst.
Qed.

Definition entry_ok (e : PartitionEntry) : Prop := fits64 (a e) /\ fits64 (b e).

Lemma encode_records_inj es fs bs :
  Forall entry_ok es -> Forall entry_ok fs -> length es = length fs ->
  encode_records es = Ok bs -> encode_records fs = Ok bs -> es = fs.
Proof.
  intros He. revert fs bs. induction He as [|[ad x y] es [Hx Hy] Hes IH];
    intros [|[ad' x' y'] fs] bs Hf Hl E F; try done.
  apply Forall_cons in Hf as [[Hx' Hy'] Hf]. cbn [encode_records addr a b] in *.
  destruct (Z.eqb_spec (byte_length ad) 32) as [El|]; [|done].
  destruct (Z.eqb_spec (byte_length ad') 32) as [El'|]; [|done]. cbn [negb] in *.
  apply rbind_ok in E as (r & E & Eb). rewrite <- Eb in F; clear Eb. apply rbind_ok in F as (r' & F & G).
  apply (inj Ok) in G.
  unfold byte_length in *. symmetry in G. apply app_inj_1 in G as [-> G]; [|lia].
  apply u64le_app_inj in G as [-> G]; [|done..]. apply u64le_app_inj in G as [-> ->]; [|done..].
  f_equal. apply (IH fs r'); [done|simpl in Hl; lia|done..].
Qed.

Lemma encodeEntries_inj es fs bs :
  Forall entry_ok es -> Forall entry_ok fs -> fits64 (Z.of_nat (length es)) ->
  fits64 (Z.of_nat (length fs)) -> encodeEntries es = Ok bs -> encodeEntries fs = Ok bs -> es = fs.
Proof.
  intros He Hf Le Lf E F. unfold encodeEntries in *.
  apply rbind_ok in E as (r & E & Eb). rewrite <- Eb in F; clear Eb. apply rbind_ok in F as (r' & F & G).
  apply (inj Ok) in G.
  symmetry in G. apply u64le_app_inj in G as [Gl ->]; [|done..].
  eapply encode_records_inj; [done|done|lia|done..].
Qed.

Lemma encode_records_ok es :
  is_Some (match encode_records es with Ok r => Some r | Throw _ => None end) <->
  Forall (fun e => byte_length (addr e) = 32) es.
Proof.
  induction es as [|e es IH]; [split; [constructor|by eexists]|]. rewrite Forall_cons, <- IH.
  cbn [encode_records]. destruct (Z.eqb_spec (byte_length (addr e)) 32); cbn [negb].
  - destruct (encode_records es); cbn [rbind]; split; naive_solver.
  - split; [by intros [? [=]]|naive_solver].
Qed.

(** ** Theorems *)

(** The framings are injective.  Two run-identifier inputs with the same preimage are
    equal, whatever the fields hold, because every field carries its byte length; two
    partition specifications with the same buffer are equal, and so are two entry lists. *)
Theorem framings_injective x y s t es fs :
  framable (canonicalSpecDigest x) -> framable (grantId x) -> framable (replayKey x) ->
  framable (canonicalSpecDigest y) -> framable (grantId y) -> framable (replayKey y) ->
  spec_ok s -> spec_ok t -> Forall entry_ok es -> Forall entry_ok fs ->
  fits64 (Z.of_nat (length es)) -> fits64 (Z.of_nat (length fs)) ->
  (buildRunIdPreimage x = buildRunIdPreimage y <-> x = y) /\
  (forall bs, encodeSpec s = Ok bs -> encodeSpec t = Ok bs -> s = t) /\
  (forall bs, encodeEntries es = Ok bs -> encodeEntries fs = Ok bs -> es = fs).
Proof.
  intros. split; [split; [by apply preimage_inj|by intros ->]|].
  split; intros bs; [by apply encodeSpec_inj|by apply encodeEntries_inj].
Qed.

(** Concatenation alone would not do: these two inputs differ only in where a field ends. *)
Lemma framings_injective_witness :
  buildRunIdPreimage (mkRunId (js "d") (js "ab") (js "c")) <>
  buildRunIdPreimage (mkRunId (js "d") (js "a") (js "bc")).
Proof.
  assert (F : forall v, (0 <=? v) && (v <? 2 ^ 64) = true -> fits64 v) by (unfold fits64; intros; lia).
  intros E.
  apply (framings_injective (mkRunId (js "d") (js "ab") (js "c")) (mkRunId (js "d") (js "a") (js "bc"))
           (mkSpec 1 [] [] 0) (mkSpec 1 [] [] 0) [] []) in E;
    [discriminate|try (split; [vm_compute; reflexivity|apply F; vm_compute; reflexivity]) ..].
  1-2: split; [split; [reflexivity|apply F; reflexivity]|split; [apply F; reflexivity|cbn; lia]].
  1-2: constructor.
  all: apply F; reflexivity.
Defined.
End Framing.
