(* ===== verification/WasmBridge.v ===== *)
(** The bridge to the hashing wasm module (src/wire/cas-hash.ts and the fold call of
    src/wire/partition.ts).

    The module is a parameter: its exports are functions on an instance state.  What the
    wrappers add is the marshalling: buffers allocated in linear memory, filled, read back
    and freed.  The state keeps the trace of allocator calls, and the theorems say that
    every buffer is freed exactly once on every path, errors included, and that a module
    whose exports keep their documented contract makes the wrapper compute its hash. *)
From S2P Require Import Prelude JsString Platform Framing.

Module WasmBridge.

(** ** The module's exports *)

(** [cloister_cas_alloc], [cloister_cas_free], [leyline_hash_bytes] and
    [cloister_partition_address]; [mem_write] is [new Uint8Array(memory.buffer, ptr,
    len).set(bytes)] and [mem_read] the copy of a slice, both [None] for a [RangeError]. *)
Class CasExports (W : Type) := {
  instantiate : W;
  cas_alloc : Z -> W -> W * Z;
  cas_free : Z -> Z -> W -> W;
  mem_write : Z -> bytes -> W -> option W;
  mem_read : Z -> Z -> W -> option bytes;
  hash_bytes : Z -> Z -> Z -> Z -> W -> W * Z;
  partition_address : Z -> Z -> Z -> Z -> Z -> W -> W * Z;
  }.

Inductive cas_error :=
  | NullInput
  | NullOutput
  | BadReturn (rc : Z)
  | RangeError
  | BadFrame (e : Framing.frame_error).

Inductive event := Alloc (ptr size : Z) | Free (ptr size : Z).

Section bridge.
Context {W : Type} `{CasExports W}.

(** The lazily created instance, and what the allocator was asked. *)
Record Bridge := mkBridge { inst : option W; trace : list event }.

Definition instance (s : Bridge) : W := default instantiate (inst s).

Definition alloc (size : Z) : M Bridge cas_error Z := fun s =>
  let '(w, p) := cas_alloc size (instance s) in
  (mkBridge (Some w) (trace s ++ [Alloc p size]), Ok p).

Definition free (ptr size : Z) : M Bridge cas_error unit := fun s =>
  (mkBridge (Some (cas_free ptr size (instance s))) (trace s ++ [Free ptr size]), Ok tt).

Definition set (ptr : Z) (bs : bytes) : M Bridge cas_error unit := fun s =>
  match mem_write ptr bs (instance s) with
  | Some w => (mkBridge (Some w) (trace s), Ok tt)
  | None => (mkBridge (Some (instance s)) (trace s), Throw RangeError)
  end.

Definition call (f : W -> W * Z) : M Bridge cas_error Z := fun s =>
  let '(w, rc) := f (instance s) in (mkBridge (Some w) (trace s), Ok rc).

Definition copyIn (bs : bytes) : M Bridge cas_error Z :=
  let size := Framing.byte_length bs in
  let* ptr := alloc size in
  if (ptr =? 0) && (0 <? size) then throw NullInput
  else if 0 <? size then do* set ptr bs in ret ptr
  else ret ptr.

Definition copyOut (ptr size : Z) : M Bridge cas_error bytes := fun s =>
  match mem_read ptr size (instance s) with
  | Some bs => (s, Ok bs)
  | None => (s, Throw RangeError)
  end.

(** [try { m } finally { f }] with an [f] that does not throw. *)
Definition finally {A} (m : M Bridge cas_error A) (f : M Bridge cas_error unit) : M Bridge cas_error A :=
  fun s => let '(s1, r) := m s in ((f s1).1, r).

Definition BLAKE3_DIGEST_LEN : Z := 32.

(** The bodies of the two [try] blocks. *)
Definition hash_into (inPtr size outPtr : Z) : M Bridge cas_error bytes :=
  let* rc := call (hash_bytes inPtr size outPtr BLAKE3_DIGEST_LEN) in
  if negb (rc =? BLAKE3_DIGEST_LEN) then throw (BadReturn rc)
  else copyOut outPtr BLAKE3_DIGEST_LEN.

Definition blake3Hash (bs : bytes) : M Bridge cas_error bytes :=
  let size := Framing.byte_length bs in
  let* inPtr := copyIn bs in
  let* outPtr := alloc BLAKE3_DIGEST_LEN in
  if outPtr =? 0 then do* free inPtr size in throw NullOutput
  else finally (hash_into inPtr size outPtr)
    (do* free inPtr size in free outPtr BLAKE3_DIGEST_LEN).

Definition blake3Hex (bs : bytes) : M Bridge cas_error jsstr :=
  let* digest := blake3Hash bs in ret (toHex digest).

Definition PARTITION_ADDRESS_LEN : Z := 32.

Fixpoint freeAll (allocated : list (Z * Z)) : M Bridge cas_error unit :=
  match allocated with
  | [] => ret tt
  | (ptr, len) :: rest => do* free ptr len in freeAll rest
  end.

Definition fold_into (specPtr specLen entriesPtr entriesLen outPtr : Z) : M Bridge cas_error bytes :=
  let* rc := call (partition_address specPtr specLen entriesPtr entriesLen outPtr) in
  if negb (rc =? 0) then throw (BadReturn rc)
  else copyOut outPtr PARTITION_ADDRESS_LEN.

(** The body of the [try], over the list of allocations made so far: it answers the
    list at the point where it returned or threw, for the [finally]. *)
Definition partition_body (spec entries : bytes) : M Bridge cas_error (list (Z * Z) * result cas_error bytes) :=
  fun s0 =>
  match copyIn spec s0 with
  | (s1, Throw e) => (s1, Ok ([], Throw e))
  | (s1, Ok specPtr) =>
      let a1 := [(specPtr, Framing.byte_length spec)] in
      match copyIn entries s1 with
      | (s2, Throw e) => (s2, Ok (a1, Throw e))
      | (s2, Ok entriesPtr) =>
          let a2 := a1 ++ [(entriesPtr, Framing.byte_length entries)] in
          let '(s3, out) := alloc PARTITION_ADDRESS_LEN s2 in
          match out with
          | Throw e => (s3, Ok (a2, Throw e))
          | Ok outPtr =>
              if outPtr =? 0 then (s3, Ok (a2, Throw NullOutput))
              else
                let a3 := a2 ++ [(outPtr, PARTITION_ADDRESS_LEN)] in
                let '(s4, r) := fold_into specPtr (Framing.byte_length spec)
                                  entriesPtr (Framing.byte_length entries) outPtr s3 in
                (s4, Ok (a3, r))
          end
      end
  end.

Definition partitionAddress (spec : Framing.PartitionSpecInput) (entries : list Framing.PartitionEntry)
    : M Bridge cas_error bytes := fun s =>
  match Framing.encodeSpec spec with
  | Throw e => (s, Throw (BadFrame e))
  | Ok specBytes =>
      match Framing.encodeEntries entries with
      | Throw e => (s, Throw (BadFrame e))
      | Ok entriesBytes =>
          match partition_body specBytes entriesBytes s with
          | (s1, Ok (allocated, r)) => ((freeAll allocated s1).1, r)
          | (s1, Throw e) => (s1, Throw e)
          end
      end
  end.

(** ** The contract of the exports *)

(** [holds w p bs]: a live buffer at [p] with the bytes [bs]; [room w p n]: one of [n]
    bytes that can be written.  A null answer of the allocator is a failure; a later
    allocation disturbs no live buffer. *)
Class CasMemory (holds : W -> Z -> bytes -> Prop) (room : W -> Z -> Z -> Prop) : Prop := {
  alloc_room : forall n w w' p, cas_alloc n w = (w', p) -> p <> 0 -> room w' p n;
  alloc_empty : forall w w' p, cas_alloc 0 w = (w', p) -> holds w' p [];
  alloc_holds : forall n w w' p q x, cas_alloc n w = (w', p) -> holds w q x -> holds w' q x;
  write_room : forall w p bs, room w p (Framing.byte_length bs) ->
    exists w', mem_write p bs w = Some w' /\ holds w' p bs;
  }.

(** [leyline_hash_bytes] of an input buffer writes the digest to the output buffer. *)
Class CasHash (holds : W -> Z -> bytes -> Prop) (room : W -> Z -> Z -> Prop)
    (hash : bytes -> bytes) : Prop :=
  hash_law : forall w p bs out w' rc, holds w p bs -> room w out 32 ->
    hash_bytes p (Framing.byte_length bs) out 32 w = (w', rc) ->
    rc = 32 /\ mem_read out 32 w' = Some (hash bs).
End bridge.
Arguments Bridge W : clear implicits.

(** A buffer that has to be freed: anything but a null answer to a request for bytes. *)
Definition owned (e : event) : option (Z * Z) :=
  match e with Alloc p n => if (p =? 0) && (0 <? n) then None else Some (p, n) | Free _ _ => None end.
Definition freed (e : event) : option (Z * Z) :=
  match e with Free p n => Some (p, n) | Alloc _ _ => None end.

(** Every buffer of the trace is freed once, with its size. *)
Definition balanced (t : list event) : Prop := omap freed t ≡ₚ omap owned t.

Section facts.
Context {W : Type} `{CasExports W}.
Context (holds : W -> Z -> bytes -> Prop) (room : W -> Z -> Z -> Prop).
Context `{!CasMemory holds room}.
Notation byte_length := Framing.byte_length.

(** [copyIn]: one allocation, and the buffer holds the bytes unless it was null. *)
Lemma copyIn_spec bs s :
  exists w p, cas_alloc (byte_length bs) (instance s) = (w, p) /\
    trace (copyIn bs s).1 = trace s ++ [Alloc p (byte_length bs)] /\
    (((copyIn bs s).2 = Throw NullInput /\ owned (Alloc p (byte_length bs)) = None) \/
     ((copyIn bs s).2 = Ok p /\ owned (Alloc p (byte_length bs)) = Some (p, byte_length bs) /\
      holds (instance (copyIn bs s).1) p bs)).
Proof using CasMemory0.
  unfold copyIn, alloc, bind. destruct (cas_alloc (byte_length bs) (instance s)) as [w p] eqn:Ea.
  exists w, p. split; [done|]. cbn [owned].
  destruct ((p =? 0) && (0 <? byte_length bs)) eqn:Ep; [by split; [|left]|].
  destruct (0 <? byte_length bs) eqn:En.
  - assert (Hr : room w p (byte_length bs)) by (eapply alloc_room; [exact Ea|lia]).
    destruct (write_room w p bs Hr) as (w' & Hw & Hh). unfold set.
    change (instance (mkBridge (Some w) _)) with w. rewrite Hw. split; [done|]. right. by repeat split.
  - split; [done|]. right. split; [done|]. split; [done|].
    assert (bs = []) as ->.
    { destruct bs; [done|]. apply Z.ltb_ge in En. unfold byte_length in En. cbn [length] in En. lia. }
    change (instance _) with w. eapply alloc_empty. exact Ea.
Qed.

Lemma balanced_free1 p n : owned (Alloc p n) = Some (p, n) -> balanced [Alloc p n; Free p n].
Proof. intros E. unfold balanced. cbn [omap list_omap]. by rewrite E. Qed.

Lemma balanced_app t u : balanced t -> balanced u -> balanced (t ++ u).
Proof. unfold balanced. intros Ht Hu. by rewrite !omap_app, Ht, Hu. Qed.

Lemma owned_out p n : p <> 0 -> owned (Alloc p n) = Some (p, n).
Proof. intros Hp. cbn. by replace (p =? 0) with false by lia. Qed.

(** The trace of a computation that only calls exports is unchanged. *)
Definition silent {A} (m : M (Bridge W) cas_error A) : Prop := forall s, trace (m s).1 = trace s.

Lemma silent_call f (ok : Z -> bool) e p n :
  silent (let* rc := call f in if negb (ok rc) then throw (e rc) else copyOut p n).
Proof.
  intros s. unfold bind, call. destruct (f (instance s)) as [w rc].
  destruct (negb (ok rc)); [done|]. unfold copyOut. by destruct (mem_read _ _ _).
Qed.

Lemma silent_hash p n q : silent (hash_into p n q).
Proof. apply (silent_call _ (fun rc => rc =? BLAKE3_DIGEST_LEN)). Qed.

Lemma silent_fold p n q k o : silent (fold_into p n q k o).
Proof. apply (silent_call _ (fun rc => rc =? 0)). Qed.

Lemma finally_trace {A} (m : M (Bridge W) cas_error A) f s :
  finally m f s = ((f (m s).1).1, (m s).2).
Proof. unfold finally. by destruct (m s). Qed.

Lemma freeAll_trace l s : trace (freeAll l s).1 = trace s ++ map (fun pn => Free pn.1 pn.2) l.
Proof.
  revert s. induction l as [|[p n] l IH]; intros s; cbn [freeAll map]; [by rewrite app_nil_r|].
  unfold bind, free. rewrite IH. cbn [trace fst snd]. by rewrite <- app_assoc.
Qed.

(** What [copyIn] and [alloc] append to the trace, and what is then to be freed. *)
Definition grows (s s' : Bridge W) (e : event) : Prop := trace s' = trace s ++ [e].

Lemma blake3Hash_trace bs s : exists t, trace (blake3Hash bs s).1 = trace s ++ t /\ balanced t.
Proof using CasMemory0 holds room.
  destruct (copyIn_spec bs s) as (w & p & Ea & Ht & Hc). unfold blake3Hash, bind.
  destruct (copyIn bs s) as [s1 r1]. cbn [fst snd] in *.
  destruct Hc as [[-> Ho]|(-> & Ho & Hh)].
  { exists [Alloc p (byte_length bs)]. split; [done|]. unfold balanced. cbn [omap list_omap]. by rewrite Ho. }
  unfold alloc. destruct (cas_alloc BLAKE3_DIGEST_LEN (instance s1)) as [w2 q] eqn:E2.
  destruct (Z.eqb_spec q 0) as [-> |Hq].
  - cbn. rewrite Ht, <- !app_assoc. eexists. split; [reflexivity|].
    unfold balanced. cbn [omap list_omap app freed]. rewrite Ho. done.
  - rewrite finally_trace. cbn [fst]. unfold free. cbn [fst trace].
    rewrite silent_hash. cbn [trace]. rewrite Ht, <- !app_assoc. eexists. split; [reflexivity|].
    unfold balanced. cbn [omap list_omap app freed]. rewrite Ho, (owned_out q _ Hq).
    reflexivity.
Qed.

(** The allocations the [try] of [partitionAddress] records are the ones it made. *)
Lemma partition_body_trace spec entries s :
  exists l r t, (partition_body spec entries s).2 = Ok (l, r) /\
    trace (partition_body spec entries s).1 = trace s ++ t /\
    omap freed t = [] /\ omap owned t = l.
Proof using CasMemory0 holds room.
  unfold partition_body.
  destruct (copyIn_spec spec s) as (w & p & _ & Ht & Hc).
  destruct (copyIn spec s) as [s1 r1]. cbn [fst snd] in *.
  destruct Hc as [[-> Ho]|(-> & Ho & _)].
  { eexists _, _, _. split; [reflexivity|]. split; [exact Ht|]. cbn [omap list_omap]. by rewrite Ho. }
  destruct (copyIn_spec entries s1) as (w2 & p2 & _ & Ht2 & Hc2).
  destruct (copyIn entries s1) as [s2 r2]. cbn [fst snd] in *. rewrite Ht, <- app_assoc in Ht2.
  destruct Hc2 as [[-> Ho2]|(-> & Ho2 & _)].
  { eexists _, _, _. split; [reflexivity|]. split; [exact Ht2|].
    cbn [omap list_omap app freed]. by rewrite Ho, Ho2. }
  unfold alloc. destruct (cas_alloc PARTITION_ADDRESS_LEN (instance s2)) as [w3 q] eqn:E3.
  destruct (Z.eqb_spec q 0) as [-> |Hq].
  - eexists _, _, _. split; [reflexivity|]. cbn [fst trace]. rewrite Ht2, <- app_assoc.
    split; [reflexivity|]. cbn [omap list_omap app freed]. by rewrite Ho, Ho2.
  - set (s3 := mkBridge (Some w3) (trace s2 ++ [Alloc q PARTITION_ADDRESS_LEN])).
    pose proof (silent_fold p (byte_length spec) p2 (byte_length entries) q s3) as Hs.
    destruct (fold_into _ _ _ _ _ s3) as [s4 r]. cbn [fst snd] in *.
    eexists _, _, _. split; [reflexivity|]. rewrite Hs. unfold s3. cbn [trace].
    rewrite Ht2, <- app_assoc. split; [reflexivity|].
    cbn [omap list_omap app freed]. by rewrite Ho, Ho2, (owned_out q _ Hq).
Qed.

Lemma omap_freed_map l : omap freed (map (fun pn => Free pn.1 pn.2) l) = l.
Proof. induction l as [|[p n] l IH]; [done|]. cbn. by f_equal. Qed.

Lemma omap_owned_map l : omap owned (map (fun pn => Free pn.1 pn.2) l) = [].
Proof. induction l as [|[p n] l IH]; [done|]. exact IH. Qed.

Lemma partitionAddress_trace spec entries s :
  exists t, trace (partitionAddress spec entries s).1 = trace s ++ t /\ balanced t.
Proof using CasMemory0 holds room.
  unfold partitionAddress.
  destruct (Framing.encodeSpec spec) as [sb|e];
    [|exists []; cbn [fst]; rewrite app_nil_r; split; [done|constructor]].
  destruct (Framing.encodeEntries entries) as [eb|e];
    [|exists []; cbn [fst]; rewrite app_nil_r; split; [done|constructor]].
  destruct (partition_body_trace sb eb s) as (l & r & t & Er & Et & Hf & Ho).
  destruct (partition_body sb eb s) as [s1 r1]. cbn [fst snd] in *. subst r1.
  exists (t ++ map (fun pn => Free pn.1 pn.2) l). cbn [fst]. rewrite freeAll_trace, Et, <- app_assoc.
  split; [done|]. unfold balanced. by rewrite !omap_app, Hf, Ho, omap_freed_map, omap_owned_map, app_nil_r.
Qed.

(** The wrapper computes the module's hash. *)
Lemma blake3Hash_result hash bs s :
  CasHash holds room hash ->
  (blake3Hash bs s).2 = Ok (hash bs) \/ (blake3Hash bs s).2 = Throw NullInput \/
  (blake3Hash bs s).2 = Throw NullOutput.
Proof using CasMemory0.
  intros Hh. destruct (copyIn_spec bs s) as (w & p & _ & _ & Hc). unfold blake3Hash, bind.
  destruct (copyIn bs s) as [s1 r1]. cbn [fst snd] in *.
  destruct Hc as [[-> _]|(-> & _ & Hb)]; [by right; left|].
  unfold alloc. destruct (cas_alloc BLAKE3_DIGEST_LEN (instance s1)) as [w2 q] eqn:E2.
  destruct (Z.eqb_spec q 0) as [-> |Hq]; [by right; right|]. left. rewrite finally_trace. cbn [snd].
  unfold hash_into, bind, call. change (instance (mkBridge (Some w2) _)) with w2.
  destruct (hash_bytes p (byte_length bs) q BLAKE3_DIGEST_LEN w2) as [w3 rc] eqn:E3.
  destruct (Hh w2 p bs q w3 rc) as [-> Hr]; [by eapply alloc_holds|by eapply alloc_room|exact E3|].
  change (negb (32 =? BLAKE3_DIGEST_LEN)) with false. cbv iota. unfold copyOut.
  change (instance (mkBridge (Some w3) _)) with w3. change BLAKE3_DIGEST_LEN with 32. by rewrite Hr.
Qed.
End facts.

(** ** A module for closed examples

    A bump allocator over a map of bytes; its hash pads or cuts the input to 32 bytes. *)
Record Demo := mkDemo { mem : Z -> byte; next : Z }.

Definition demo_read (p n : Z) (w : Demo) : bytes := map (fun i => mem w (p + Z.of_nat i)) (seq 0 (Z.to_nat n)).
Definition demo_write (p : Z) (bs : bytes) (w : Demo) : Demo :=
  mkDemo (fun q => if (p <=? q) && (q <? p + Z.of_nat (length bs))
                   then default (z2b 0) (bs !! Z.to_nat (q - p)) else mem w q) (next w).

Definition demo_digest : bytes -> bytes := @sha256 demo_sha256.

#[global] Instance demo_exports : CasExports Demo := {
  instantiate := mkDemo (fun _ => z2b 0) 8;
  cas_alloc n w := (mkDemo (mem w) (next w + n), next w);
  cas_free _ _ w := w;
  mem_write p bs w := Some (demo_write p bs w);
  mem_read p n w := Some (demo_read p n w);
  hash_bytes p n out _ w := (demo_write out (demo_digest (demo_read p n w)) w, 32);
  partition_address _ _ _ _ out w := (demo_write out (demo_digest []) w, 0);
  }.

Lemma demo_read_write p bs w :
  demo_read p (Framing.byte_length bs) (demo_write p bs w) = bs.
Proof.
  unfold demo_read, Framing.byte_length. rewrite Nat2Z.id. apply list_eq. intros i.
  change (map ?f ?l) with (f <$> l). rewrite list_lookup_fmap. destruct (decide (i < length bs)%nat) as [Hi|Hi].
  - rewrite lookup_seq_lt by done. cbn. destruct (lookup_lt_is_Some_2 bs i Hi) as [x Hx].
    replace ((p <=? p + Z.of_nat i) && (p + Z.of_nat i <? p + Z.of_nat (length bs))) with true by lia.
    replace (Z.to_nat (p + Z.of_nat i - p)) with i by lia. by rewrite Hx.
  - rewrite lookup_seq_ge by lia. cbn. symmetry. apply lookup_ge_None_2. lia.
Qed.

Definition demo_holds (w : Demo) (p : Z) (bs : bytes) : Prop :=
  demo_read p (Framing.byte_length bs) w = bs.
Definition demo_room (w : Demo) (p n : Z) : Prop := p + n <= next w.

#[global] Instance demo_memory : CasMemory demo_holds demo_room.
Proof.
  split.
  - intros n w w' p [= <- <-] _. unfold demo_room. cbn. lia.
  - intros w w' p _. done.
  - intros n w w' p q x [= <- <-] Hx. exact Hx.
  - intros w p bs _. exists (demo_write p bs w). split; [done|]. apply demo_read_write.
Qed.

#[global] Instance demo_hash : CasHash demo_holds demo_room demo_digest.
Proof.
  intros w p bs out w' rc Hb _ E. cbn in E. injection E as <- <-. split; [done|]. cbn. f_equal.
  unfold demo_holds in Hb. rewrite Hb.
  replace 32 with (Framing.byte_length (demo_digest bs)); [apply demo_read_write|].
  unfold Framing.byte_length, demo_digest. by rewrite demo_sha256_len.
Qed.

(** ** Theorems *)

(** The hashing bridge leaks no linear memory and computes the module's hash.  For a module
    whose allocator keeps its contract, a hash and a partition fold each append to the
    allocator trace a piece in which every live buffer is freed exactly once with its size,
    whether the call returns or throws; and when the module's hash export writes [hash], the
    wrapper returns [hash] of its input or reports a null allocation. *)
Theorem wasm_bridge_sound {W} `{CasExports W} holds room hash bs spec entries (s : Bridge W) :
  CasMemory holds room -> CasHash holds room hash ->
  (exists t, trace (blake3Hash bs s).1 = trace s ++ t /\ balanced t) /\
  (exists t, trace (partitionAddress spec entries s).1 = trace s ++ t /\ balanced t) /\
  ((blake3Hash bs s).2 = Ok (hash bs) \/ (blake3Hash bs s).2 = Throw NullInput \/
   (blake3Hash bs s).2 = Throw NullOutput).
Proof.
  intros Hm Hh. split; [by eapply blake3Hash_trace|]. split; [by eapply partitionAddress_trace|].
  by eapply blake3Hash_result.
Qed.

Lemma wasm_bridge_sound_witness :
  (blake3Hash [z2b 1; z2b 2] (mkBridge None [])).2 = Ok (demo_digest [z2b 1; z2b 2]) /\
  balanced [Alloc 8 2; Alloc 10 32; Free 8 2; Free 10 32].
Proof.
  pose proof (wasm_bridge_sound demo_holds demo_room demo_digest [z2b 1; z2b 2]
    (Framing.mkSpec 1 [] [] 0) [] (mkBridge None []) demo_memory demo_hash)
    as ((t & Et & Hb) & _ & Hr).
  split.
  - destruct Hr as [Hr|[Hr|Hr]]; [exact Hr|exfalso..]; vm_compute in Hr; discriminate.
  - vm_compute in Et. subst t. exact Hb.
Defined.
End WasmBridge.
