(* ===== verification/Matchmaker.v ===== *)
(** The capability matchmaker (cli/lib/cluster/capability-matchmaker.mjs).

    Inputs declare what they provide and what they require; the matchmaker binds every
    requirement to one provider and refuses a cyclic result.  It is shown to succeed exactly
    when the requirements can be bound so, and to name a real defect when it fails.  A
    [Map] is an association list in insertion order. *)
From S2P Require Import Prelude JsString Json.

Module Matchmaker.

Record Input := { name : jsstr; provides : option (list jsstr); requires : option (list jsstr) }.
Record binding := { consumer : jsstr; capability : jsstr; provider : jsstr }.
#[global] Instance binding_eq_dec : EqDecision binding.
Proof. solve_decision. Defined.

Inductive MatchError :=
  | BadInput
  | DuplicateInput (name : jsstr)
  | Unsatisfied (consumer capability : jsstr)
  | SelfProvided (consumer capability : jsstr)
  | Ambiguous (consumer capability : jsstr) (candidates : list jsstr)
  | BadOverride (capability : jsstr) (chosen : option jsstr) (candidates : list jsstr)
  | Cycle (path : list jsstr)
  | OutOfFuel.
#[global] Instance MatchError_eq_dec : EqDecision MatchError.
Proof. solve_decision. Defined.

(** ** Maps of lists *)

Definition multimap := list (jsstr * list jsstr).

Definition has (m : multimap) (k : jsstr) : bool := bool_decide (is_Some (assoc k m)).
Definition get (m : multimap) (k : jsstr) : list jsstr := default [] (assoc k m).

(** [m.get(k).push(v)] *)
Fixpoint push (m : multimap) (k v : jsstr) : multimap :=
  match m with
  | [] => []
  | (k', l) :: m' => if decide (k = k') then (k', l ++ [v]) :: m' else (k', l) :: push m' k v
  end.

(** [if (!m.has(k)) m.set(k, [])] *)
Definition ensure (m : multimap) (k : jsstr) : multimap := if has m k then m else m ++ [(k, [])].

Definition push_new (m : multimap) (k v : jsstr) : multimap :=
  let m := ensure m k in
  if bool_decide (v ∈ get m k) then m else push m k v.

(** ** Providers *)

Definition SUBSTRATE_PROVIDER : jsstr := js "<substrate>".

Definition collectProviders (inputs : list Input) (substrateProvides : list jsstr) : multimap :=
  let providers := fold_left (fun m cap => push_new m cap SUBSTRATE_PROVIDER) substrateProvides [] in
  fold_left (fun m input => fold_left (fun m cap => push_new m cap (name input)) (default [] (provides input)) m)
    inputs providers.

(** ** Bindings *)

(** The names that every object has a property of, from [Object.prototype]. *)
Definition OBJECT_PROTOTYPE : list jsstr := map js
  ["constructor"; "__defineGetter__"; "__defineSetter__"; "hasOwnProperty"; "__lookupGetter__"; "__lookupSetter__";
   "isPrototypeOf"; "propertyIsEnumerable"; "toString"; "valueOf"; "__proto__"; "toLocaleString"]%string.

(** [overrides[cap]]: the override, [Some None] for what is inherited (and is no text), [None] for
    [undefined]. *)
Definition override_of (overrides : gmap jsstr jsstr) (cap : jsstr) : option (option jsstr) :=
  match overrides !! cap with
  | Some p => Some (Some p)
  | None => if bool_decide (cap ∈ OBJECT_PROTOTYPE) then Some None else None
  end.

Definition resolve_one (providers : multimap) (overrides : gmap jsstr jsstr) (consumer cap : jsstr)
    : result MatchError binding :=
  let candidates := get providers cap in
  check (negb (length candidates =? 0)%nat) (Unsatisfied consumer cap)
  (let external := List.filter (fun c => negb (bool_decide (c = consumer))) candidates in
   match external with
   | [] => Throw (SelfProvided consumer cap)
   | [p] => Ok {| consumer := consumer; capability := cap; provider := p |}
   | _ =>
       match override_of overrides cap with
       | None => Throw (Ambiguous consumer cap external)
       | Some (Some chosen) =>
           check (bool_decide (chosen ∈ external)) (BadOverride cap (Some chosen) external)
             (Ok {| consumer := consumer; capability := cap; provider := chosen |})
       | Some None => Throw (BadOverride cap None external)
       end
   end).

Fixpoint resolve_input (providers : multimap) (overrides : gmap jsstr jsstr) (consumer : jsstr)
    (caps : list jsstr) (bindings : list binding) : result MatchError (list binding) :=
  match caps with
  | [] => Ok bindings
  | cap :: caps' =>
      let? b := resolve_one providers overrides consumer cap in
      resolve_input providers overrides consumer caps' (bindings ++ [b])
  end.

Fixpoint resolve_inputs (inputs : list Input) (providers : multimap) (overrides : gmap jsstr jsstr)
    (bindings : list binding) : result MatchError (list binding) :=
  match inputs with
  | [] => Ok bindings
  | input :: inputs' =>
      let? bindings := resolve_input providers overrides (name input) (default [] (requires input)) bindings in
      resolve_inputs inputs' providers overrides bindings
  end.

Definition resolveRequires (inputs : list Input) (providers : multimap) (overrides : gmap jsstr jsstr)
    : result MatchError (list binding) := resolve_inputs inputs providers overrides [].

(** ** Cycles *)

Inductive status := IN_PROGRESS | DONE.
#[global] Instance status_eq_dec : EqDecision status.
Proof. solve_decision. Defined.

(** The maps of the search; a node without a status is unvisited. *)
Record search := { state : gmap jsstr status; parent : gmap jsstr jsstr }.

Definition edges_of (bindings : list binding) : multimap :=
  fold_left (fun m b => push (ensure m (consumer b)) (consumer b) (provider b)) bindings [].

(** Walk the parents from [cur] to [next]; [path] grows backwards, so that its head is the
    element pushed last. *)
Fixpoint walk_back (fuel : nat) (s : search) (next cur : jsstr) (path : list jsstr) : option (list jsstr) :=
  match fuel with
  | 0%nat => None
  | S fuel =>
      if bool_decide (cur = next) then Some path
      else match parent s !! cur with
           | None => Some path
           | Some p => walk_back fuel s next p (p :: path)
           end
  end.

(** The loop over the successors of [node]: a cycle, or the search and the stack after it. *)
Fixpoint expand (node : jsstr) (nexts : list jsstr) (s : search) (stack : list jsstr)
    : option (list jsstr + search * list jsstr) :=
  match nexts with
  | [] => Some (inr (s, stack))
  | next :: nexts' =>
      match state s !! next with
      | Some IN_PROGRESS =>
          path ← walk_back (S (length stack)) s next node [node];
          Some (inl (path ++ [next]))
      | Some DONE => expand node nexts' s stack
      | None =>
          expand node nexts' {| state := state s; parent := <[next := node]> (parent s) |} (next :: stack)
      end
  end.

(** One turn of the loop on a stack that is not empty; its head is the top. *)
Definition visit (edges : multimap) (s : search) (node : jsstr) (rest : list jsstr)
    : option (list jsstr + search * list jsstr) :=
  match state s !! node with
  | None =>
      expand node (get edges node) {| state := <[node := IN_PROGRESS]> (state s); parent := parent s |} (node :: rest)
  | Some IN_PROGRESS => Some (inr ({| state := <[node := DONE]> (state s); parent := parent s |}, rest))
  | Some DONE => Some (inr (s, rest))
  end.

Fixpoint explore (fuel : nat) (edges : multimap) (s : search) (stack : list jsstr)
    : option (list jsstr + search) :=
  match stack with
  | [] => Some (inr s)
  | node :: rest =>
      match fuel with
      | 0%nat => None
      | S fuel =>
          match visit edges s node rest with
          | None => None
          | Some (inl path) => Some (inl path)
          | Some (inr (s', stack')) => explore fuel edges s' stack'
          end
      end
  end.

Fixpoint search_from (fuel : nat) (edges : multimap) (starts : list jsstr) (s : search)
    : option (option (list jsstr)) :=
  match starts with
  | [] => Some None
  | start :: starts' =>
      match state s !! start with
      | Some _ => search_from fuel edges starts' s
      | None =>
          match explore fuel edges s [start] with
          | None => None
          | Some (inl path) => Some (Some path)
          | Some (inr s') => search_from fuel edges starts' s'
          end
      end
  end.

(** A turn of the search visits a node or pops one, and every push is along an edge. *)
Definition search_fuel (bindings : list binding) : nat := (2 * length bindings + 2)%nat.

Definition detectCycle (bindings : list binding) : option (option (list jsstr)) :=
  let edges := edges_of bindings in
  search_from (search_fuel bindings) edges (map fst edges) {| state := ∅; parent := ∅ |}.

(** ** The resolution *)

(** [None] is an argument that is not an array, or an element without a string for a name. *)
Fixpoint check_names (inputs : list (option Input)) (seen : list jsstr) : result MatchError (list Input) :=
  match inputs with
  | [] => Ok []
  | None :: _ => Throw BadInput
  | Some i :: inputs' =>
      check (negb (bool_decide (name i = []))) BadInput
      (check (negb (bool_decide (name i ∈ seen))) (DuplicateInput (name i))
      (let? rest := check_names inputs' (name i :: seen) in Ok (i :: rest)))
  end.

Definition matchCapabilities (inputs : option (list (option Input))) (overrides : gmap jsstr jsstr)
    (substrateProvides : list jsstr) : result MatchError (multimap * list binding) :=
  match inputs with
  | None => Throw BadInput
  | Some inputs =>
      let? inputs := check_names inputs [] in
      let providers := collectProviders inputs substrateProvides in
      let? bindings := resolveRequires inputs providers overrides in
      match detectCycle bindings with
      | None => Throw OutOfFuel
      | Some (Some path) => Throw (Cycle path)
      | Some None => Ok (providers, bindings)
      end
  end.

Definition edge_binding (a b : string) : binding := {| consumer := js a; capability := js "c"; provider := js b |}.

Example no_cycle : detectCycle [edge_binding "a" "b"; edge_binding "b" "c"; edge_binding "a" "c"] = Some None.
Proof. vm_compute. reflexivity. Qed.
Example finds_cycle : detectCycle [edge_binding "x" "a"; edge_binding "a" "b"; edge_binding "b" "c"; edge_binding "c" "a"] =
  Some (Some [js "a"; js "b"; js "c"; js "a"]).
Proof. vm_compute. reflexivity. Qed.
(** ** The search *)

(** Consecutive elements are joined by edges. *)
Fixpoint is_path (edge : jsstr -> jsstr -> Prop) (l : list jsstr) : Prop :=
  match l with
  | a :: (b :: _) as l' => edge a b /\ is_path edge l'
  | _ => True
  end.

Definition is_cycle (edge : jsstr -> jsstr -> Prop) (l : list jsstr) : Prop :=
  is_path edge l /\ exists v w, l = v :: w ++ [v].

Lemma is_path_app edge l x r : is_path edge (l ++ [x]) -> is_path edge (x :: r) -> is_path edge (l ++ x :: r).
Proof.
  induction l as [|a l IH]; [done|]. cbn [app]. intros Hl Hr. destruct l as [|b l]; cbn [app] in *.
  - destruct Hl as [Hax _]. by split.
  - destruct Hl as [Hab Hl]. split; [done|]. by apply IH.
Qed.

(** No cycle passes through a node from which no infinite path starts. *)
Lemma acc_no_cycle (edge : jsstr -> jsstr -> Prop) v :
  Acc (fun x y => edge y x) v -> forall l, ~ is_path edge (v :: l ++ [v]).
Proof.
  induction 1 as [v _ IH]. intros l Hp. destruct l as [|w l]; cbn [app] in Hp.
  - destruct Hp as [Hv _]. apply (IH v Hv []). by split.
  - destruct Hp as [Hv Hp]. apply (IH w Hv (l ++ [v])). rewrite <- app_assoc.
    apply (is_path_app edge (w :: l) v [w]); [done|]. by split.
Qed.

Section search_proof.
Context (edges : multimap).
Definition edge (u v : jsstr) : Prop := v ∈ get edges u.

(** The nodes in progress, the latest first: each was reached from the next. *)
Fixpoint linked (s : search) (chain : list jsstr) : Prop :=
  match chain with
  | x :: (p :: _) as chain' => parent s !! x = Some p /\ edge p x /\ linked s chain'
  | _ => True
  end.

(** The stack, under elements [hi], as segments of pending successors of the nodes in progress. *)
Inductive frames (s : search) : list jsstr -> list jsstr -> list jsstr -> Prop :=
  | frames_nil hi : frames s hi [] []
  | frames_start hi u : frames s hi [] [u]
  | frames_cons hi x c seg below :
      (forall v, edge x v -> state s !! v = Some DONE \/ v ∈ hi ++ seg) ->
      (forall u, u ∈ seg -> edge x u /\ u ∉ x :: c /\ (state s !! u = None -> u ∈ hi \/ parent s !! u = Some x)) ->
      frames s (hi ++ seg ++ [x]) c below ->
      frames s hi (x :: c) (seg ++ x :: below).

Lemma frames_mono s s' hi hi' chain stack :
  frames s hi chain stack ->
  (forall u, state s !! u = Some DONE -> state s' !! u = Some DONE) ->
  (forall u, state s' !! u = None -> state s !! u = None /\ (parent s' !! u = parent s !! u \/ u ∈ hi')) ->
  (forall v, v ∈ hi -> state s' !! v = Some DONE \/ v ∈ hi') ->
  frames s' hi' chain stack.
Proof.
  intros Hf Hd. revert hi'. induction Hf as [hi|hi u|hi x c seg below H1 H2 Hf IH]; intros hi' Hn Hh;
    [constructor..|]. constructor.
  - intros v [Hv|[Hv|Hv]%elem_of_app]%H1; [left; auto| |right; set_solver].
    destruct (Hh v Hv); [by left|right; set_solver].
  - intros u Hu. destruct (H2 u Hu) as (He & Hc & Hp). split; [done|]. split; [done|]. intros Hs.
    destruct (Hn u Hs) as [Hs' [E|]]; [|by left]. rewrite E. destruct (Hp Hs') as [Hin|]; [|by right].
    destruct (Hh u Hin); [congruence|by left].
  - apply IH.
    + intros u Hu. destruct (Hn u Hu) as [? [?|?]]; [auto|]. split; [done|]. right. set_solver.
    + intros v [Hv|Hv]%elem_of_app; [|right; set_solver]. destruct (Hh v Hv); [by left|right; set_solver].
Qed.

Record invariant (s : search) (chain stack : list jsstr) : Prop := {
  inv_progress : forall u, state s !! u = Some IN_PROGRESS <-> u ∈ chain;
  inv_nodup : NoDup chain;
  inv_linked : linked s chain;
  inv_frames : frames s [] chain stack;
  inv_done : forall u, state s !! u = Some DONE -> Acc (fun x y => edge y x) u;
}.

(** Only the first segment can hold the top when it is not in progress. *)
Lemma frames_pop s hi chain n rest :
  frames s hi chain (n :: rest) -> n ∉ chain ->
  frames s (n :: hi) chain rest /\
  (forall x, head chain = Some x -> edge x n /\ (state s !! n = None -> n ∈ hi \/ parent s !! n = Some x)).
Proof.
  intros Hf Hn. inversion Hf as [|? u|? x c seg below H1 H2 Hb]; clear Hf; subst.
  - split; [constructor|done].
  - destruct seg as [|m seg]; cbn [app] in *;
      match goal with E : _ = n :: rest |- _ => injection E as -> <- end; [set_solver|]. split.
    + constructor.
      * intros v [|Hv]%H1; [by left|right; set_solver].
      * intros u Hu. destruct (H2 u ltac:(set_solver)) as (He & Hc & Hp). split; [done|]. split; [done|].
        intros Hs. destruct (Hp Hs); [left; set_solver|by right].
      * eapply frames_mono; [exact Hb|done|by auto|]. intros v Hv. right. set_solver.
    + intros y [= <-]. destruct (H2 n ltac:(set_solver)) as (He & _ & Hp). done.
Qed.

Lemma linked_parents s s' chain :
  (forall x, x ∈ chain -> parent s' !! x = parent s !! x) -> linked s chain -> linked s' chain.
Proof.
  induction chain as [|x [|p c] IH]; [done..|]. intros Hp (E & He & Hl). split; [|split; [done|]].
  - rewrite Hp; [done|set_solver].
  - apply IH; [|done]. intros y Hy. apply Hp. set_solver.
Qed.

(** Walking back along the parents reaches [next] by a path. *)
Lemma walk_back_spec s next c : forall cur path fuel,
  linked s (cur :: c) -> next ∈ cur :: c -> (length c < fuel)%nat -> is_path edge (cur :: path) ->
  exists l, walk_back fuel s next cur (cur :: path) = Some (next :: l) /\
    is_path edge (next :: l) /\ exists w, next :: l = w ++ cur :: path.
Proof.
  induction c as [|p c IH]; intros cur path [|fuel] Hl Hn Hf Hp; try (cbn in Hf; lia); cbn [walk_back].
  - apply list_elem_of_singleton in Hn as ->. rewrite bool_decide_eq_true_2 by done.
    exists path. split; [done|]. split; [done|]. by exists [].
  - case_bool_decide as Hc.
    + subst. exists path. split; [done|]. split; [done|]. by exists [].
    + destruct Hl as (-> & He & Hl). apply elem_of_cons in Hn as [|Hn]; [done|].
      destruct (IH p (cur :: path) fuel Hl Hn) as (l & Hw & Hpath & w & Ew); [cbn in Hf; lia|by split|].
      exists l. split; [done|]. split; [done|]. exists (w ++ [p]). by rewrite <- app_assoc.
Qed.
Lemma expand_spec node c nexts : forall s stack,
  (forall v, v ∈ nexts -> edge node v) -> linked s (node :: c) ->
  (forall u, state s !! u = Some IN_PROGRESS <-> u ∈ node :: c) -> (length c <= length stack)%nat ->
  match expand node nexts s stack with
  | None => False
  | Some (inl path) => is_cycle edge path
  | Some (inr (s', stack')) => exists ps, stack' = ps ++ stack /\ state s' = state s /\
      (length ps <= length nexts)%nat /\ (forall v, v ∈ nexts -> state s !! v = Some DONE \/ v ∈ ps) /\
      (forall u, u ∈ ps -> edge node u /\ state s !! u = None /\ parent s' !! u = Some node) /\
      (forall u, u ∉ ps -> parent s' !! u = parent s !! u)
  end.
Proof.
  induction nexts as [|next nexts IH]; intros s stack He Hl Hc Hlen; cbn [expand].
  { exists []. split; [done|]. split; [done|]. split; [done|]. set_solver. }
  assert (Hen : edge node next) by (apply He, list_elem_of_here).
  destruct (state s !! next) as [[]|] eqn:Es.
  - destruct (walk_back_spec s next c node [] (S (length stack))) as (l & Hw & Hp & w & Ew);
      [done|by apply Hc|lia|done|]. rewrite Hw. cbn [mbind option_bind]. split.
    + rewrite Ew in *. rewrite <- app_assoc. apply is_path_app; [done|by split].
    + by exists next, l.
  - specialize (IH s stack (fun v Hv => He v (list_elem_of_further _ _ _ Hv)) Hl Hc Hlen).
    destruct (expand node nexts s stack) as [[path|[s' stack']]|]; [done| |done].
    destruct IH as (ps & E1 & E2 & E3 & H1 & H2 & H3). exists ps. split; [done|]. split; [done|].
    split; [cbn; lia|]. split; [|done]. intros v [-> |Hv]%elem_of_cons; auto.
  - set (s1 := {| state := state s; parent := <[next := node]> (parent s) |}).
    assert (Hl1 : linked s1 (node :: c)).
    { apply (linked_parents s); [|done]. intros x Hx. cbn [parent s1]. rewrite lookup_insert_ne; [done|].
      intros ->. apply Hc in Hx. congruence. }
    specialize (IH s1 (next :: stack) (fun v Hv => He v (list_elem_of_further _ _ _ Hv)) Hl1 Hc ltac:(cbn; lia)).
    destruct (expand node nexts s1 (next :: stack)) as [[path|[s' stack']]|]; [done| |done].
    destruct IH as (ps & E1 & E2 & E3 & H1 & H2 & H3). exists (ps ++ [next]).
    split; [by rewrite <- app_assoc|]. split; [done|]. split; [rewrite length_app; cbn in *; lia|].
    split; [intros v [-> |Hv]%elem_of_cons; [right; set_solver|destruct (H1 v Hv); [by left|right; set_solver]]|].
    split.
    + intros u [Hu| ->%list_elem_of_singleton]%elem_of_app; [by apply H2|]. split; [done|]. split; [done|].
      destruct (decide (next ∈ ps)) as [Hin|Hin]; [by apply H2|]. rewrite H3 by done. cbn. by rewrite lookup_insert_eq.
    + intros u Hu. rewrite H3 by set_solver. cbn. apply lookup_insert_ne. set_solver.
Qed.

Lemma frames_length s hi chain stack : frames s hi chain stack -> (length chain <= length stack)%nat.
Proof. induction 1; cbn; [lia..|]. rewrite length_app. cbn. lia. Qed.

Lemma frames_empty s hi chain : frames s hi chain [] -> chain = [].
Proof. inversion 1; subst; [done|]. by destruct seg. Qed.

(** The turns that are left: two for each element of the stack that is not visited, one for
    the others, and two for each edge out of a node that is not visited. *)
Definition pending (s : search) (es : multimap) : nat :=
  foldr (fun e n => match state s !! e.1 with None => 2 * length e.2 + n | Some _ => n end)%nat 0%nat es.
Definition cost (s : search) (stack : list jsstr) : nat :=
  foldr (fun u n => match state s !! u with None => 2 + n | Some _ => 1 + n end)%nat 0%nat stack.

Lemma pending_mono s s' es : (forall u, state s' !! u = None -> state s !! u = None) -> (pending s' es <= pending s es)%nat.
Proof.
  intros Hs. induction es as [|[k l] es IH]; [done|]. cbn [pending foldr fst snd] in *. specialize (Hs k).
  fold (pending s es) (pending s' es) in *. destruct (state s' !! k); [destruct (state s !! k); lia|].
  rewrite Hs by done. lia.
Qed.

Lemma cost_mono s s' stack : (forall u, state s' !! u = None -> state s !! u = None) -> (cost s' stack <= cost s stack)%nat.
Proof.
  intros Hs. induction stack as [|u l IH]; [done|]. cbn [cost foldr]. specialize (Hs u).
  fold (cost s l) (cost s' l). destruct (state s' !! u); [destruct (state s !! u); lia|].
  rewrite Hs by done. lia.
Qed.

Lemma cost_app s a b : cost s (a ++ b) = (cost s a + cost s b)%nat.
Proof.
  induction a as [|u a IH]; [done|]. cbn [app cost foldr]. fold (cost s (a ++ b)) (cost s a). rewrite IH.
  destruct (state s !! u); lia.
Qed.

Lemma cost_bound s l : (cost s l <= 2 * length l)%nat.
Proof.
  induction l as [|u l IH]; [done|]. cbn [cost foldr length]. fold (cost s l). destruct (state s !! u); lia.
Qed.

(** Visiting a node takes its edges out of what is pending. *)
Lemma pending_visit s s' n es :
  (forall u, state s' !! u = None -> state s !! u = None) -> state s !! n = None -> state s' !! n <> None ->
  (pending s' es + 2 * length (get es n) <= pending s es)%nat.
Proof.
  intros Hs Hn Hn'. induction es as [|[k l] es IH]; [done|]. unfold get. cbn [pending foldr fst snd assoc].
  fold (pending s es) (pending s' es). destruct (decide (n = k)) as [<-|Hk].
  - rewrite Hn. cbn. destruct (state s' !! n) eqn:E; [|done]. pose proof (pending_mono s s' es Hs). lia.
  - fold (get es n). specialize (Hs k). destruct (state s' !! k); [destruct (state s !! k); lia|].
    rewrite Hs by done. lia.
Qed.
Definition later (s s' : search) : Prop := forall u, state s' !! u = None -> state s !! u = None.

Lemma later_set s n st : later s {| state := <[n := st]> (state s); parent := parent s |}.
Proof. intros u. cbn [state]. by intros [? _]%lookup_insert_None. Qed.

(** A node is popped: one already done, or the latest in progress, which then is done. *)
Lemma pop_done s chain n rest :
  invariant s chain (n :: rest) -> state s !! n = Some DONE -> invariant s chain rest.
Proof.
  intros [Hp Hn Hl Hf Hd] Es. assert (Hc : n ∉ chain) by (intros H%Hp; congruence).
  destruct (frames_pop _ _ _ _ _ Hf Hc) as [Hf' _]. split; try done.
  eapply frames_mono; [exact Hf'|done|by auto|]. intros v ->%list_elem_of_singleton. by left.
Qed.

Lemma pop_progress s chain n rest :
  invariant s chain (n :: rest) -> state s !! n = Some IN_PROGRESS ->
  exists c, chain = n :: c /\ invariant {| state := <[n := DONE]> (state s); parent := parent s |} c rest.
Proof.
  intros [Hp Hn Hl Hf Hd] Es. set (s' := {| state := _; parent := _ |}).
  inversion Hf as [|? u Eh Ec|? x c seg below H1 H2 Hb Ec]; clear Hf; subst.
  - apply Hp in Es. by apply not_elem_of_nil in Es.
  - assert (seg = []) as -> .
    { destruct seg as [|m seg]; [done|]. cbn [app] in *.
      match goal with E : _ = n :: rest |- _ => injection E as -> <- end.
      destruct (H2 n ltac:(set_solver)) as (_ & Hc & _). by apply Hp in Es. }
    cbn [app] in *. match goal with E : _ = n :: rest |- _ => injection E as -> -> end.
    apply NoDup_cons in Hn as [Hnc Hn]. exists c. split; [done|]. split.
    + intros u. cbn [state s']. destruct (decide (n = u)) as [<-|Hu].
      * rewrite lookup_insert_eq. split; [done|]. intros Hin. by destruct Hnc.
      * rewrite lookup_insert_ne by done. rewrite Hp. set_solver.
    + done.
    + destruct c; [done|]. destruct Hl as (_ & _ & Hl). by apply (linked_parents s).
    + eapply frames_mono; [exact Hb|..].
      * intros u Hu. cbn [state s']. destruct (decide (n = u)) as [<-|]; [apply lookup_insert_eq|].
        by rewrite lookup_insert_ne.
      * intros u Hu%later_set. auto.
      * intros v ->%list_elem_of_singleton. left. apply lookup_insert_eq.
    + intros u. cbn [state s']. destruct (decide (n = u)) as [<-|Hu].
      * intros _. constructor. intros v Hv. destruct (H1 v Hv) as [Hv'|Hv']; [by apply Hd|].
        by apply not_elem_of_nil in Hv'.
      * rewrite lookup_insert_ne by done. apply Hd.
Qed.

(** A node is visited: it is in progress, under the successors that are not visited. *)
Lemma visit_new s chain n rest s' ps :
  invariant s chain (n :: rest) -> state s !! n = None ->
  state s' = <[n := IN_PROGRESS]> (state s) ->
  (forall v, v ∈ get edges n -> state s' !! v = Some DONE \/ v ∈ ps) ->
  (forall u, u ∈ ps -> edge n u /\ state s' !! u = None /\ parent s' !! u = Some n) ->
  (forall u, u ∉ ps -> parent s' !! u = parent s !! u) ->
  invariant s' (n :: chain) (ps ++ n :: rest).
Proof.
  intros [Hp Hn Hl Hf Hd] Es Est H1 H2 H3. assert (Hc : n ∉ chain) by (intros H%Hp; congruence).
  assert (Hps : forall u, u ∈ n :: chain -> u ∉ ps).
  { intros u Hu Hups. destruct (H2 u Hups) as (_ & Hs & _). rewrite Est in Hs.
    apply lookup_insert_None in Hs as [Hs ?]. apply elem_of_cons in Hu as [|Hu%Hp]; congruence. }
  destruct (frames_pop _ _ _ _ _ Hf Hc) as [Hf' Htop]. split.
  - intros u. rewrite Est. destruct (decide (n = u)) as [<-|Hu].
    + rewrite lookup_insert_eq. set_solver.
    + rewrite lookup_insert_ne by done. rewrite Hp. set_solver.
  - by apply NoDup_cons.
  - destruct chain as [|x c]; [done|]. destruct (Htop x eq_refl) as (Hex & Hpar).
    destruct (Hpar Es) as [?%not_elem_of_nil|Hpx]; [done|]. split; [|split; [done|]].
    + rewrite H3; [done|]. apply Hps. set_solver.
    + apply (linked_parents s); [|done]. intros y Hy. apply H3, Hps. set_solver.
  - constructor.
    + intros v Hv. destruct (H1 v Hv); [by left|right; set_solver].
    + intros u Hu. destruct (H2 u Hu) as (He & _ & Hpu). split; [done|]. split; [|auto].
      intros Hin. by apply (Hps u).
    + eapply frames_mono; [exact Hf'|..].
      * intros u Hu. rewrite Est. rewrite lookup_insert_ne; [done|]. congruence.
      * intros u Hu. rewrite Est in Hu. apply lookup_insert_None in Hu as [Hu _]. split; [done|].
        destruct (decide (u ∈ ps)); [right; set_solver|left; by apply H3].
      * intros v ->%list_elem_of_singleton. right. set_solver.
  - intros u. rewrite Est. destruct (decide (n = u)) as [<-|Hu]; [by rewrite lookup_insert_eq|].
    rewrite lookup_insert_ne by done. apply Hd.
Qed.

Lemma visit_spec s chain n rest :
  invariant s chain (n :: rest) ->
  match visit edges s n rest with
  | None => False
  | Some (inl path) => is_cycle edge path
  | Some (inr (s', stack')) =>
      (exists chain', invariant s' chain' stack') /\ later s s' /\
      (forall u, u ∈ n :: rest -> u ∈ stack' \/ state s' !! u <> None) /\
      (cost s' stack' + pending s' edges < cost s (n :: rest) + pending s edges)%nat
  end.
Proof.
  intros Hi. unfold visit. cbn [cost foldr]. fold (cost s rest). destruct (state s !! n) as [[]|] eqn:Es.
  - destruct (pop_progress _ _ _ _ Hi Es) as (c & -> & Hi'). set (s' := {| state := _; parent := _ |}) in *.
    split; [eauto|]. assert (Hla : later s s') by apply later_set. split; [done|]. split.
    + intros u [-> |Hu]%elem_of_cons; [right|by left]. cbn [state s']. by rewrite lookup_insert_eq.
    + pose proof (cost_mono s s' rest Hla). pose proof (pending_mono s s' edges Hla). lia.
  - split; [exists chain; by apply (pop_done s chain n)|]. split; [by intros u|]. split; [|lia].
    intros u [-> |Hu]%elem_of_cons; [right; congruence|by left].
  - set (s1 := {| state := <[n := IN_PROGRESS]> (state s); parent := parent s |}).
    pose proof Hi as [Hp Hn Hl Hf Hd]. assert (Hc : n ∉ chain) by (intros H%Hp; congruence).
    destruct (frames_pop _ _ _ _ _ Hf Hc) as [Hf' Htop]. apply frames_length in Hf'.
    assert (Hl1 : linked s1 (n :: chain)).
    { destruct chain as [|x c]; [done|]. destruct (Htop x eq_refl) as (Hex & Hpar).
      destruct (Hpar Es) as [?%not_elem_of_nil|Hpx]; [done|]. split; [done|]. split; [done|].
      by apply (linked_parents s). }
    assert (Hp1 : forall u, state s1 !! u = Some IN_PROGRESS <-> u ∈ n :: chain).
    { intros u. cbn [state s1]. destruct (decide (n = u)) as [<-|Hu]; [rewrite lookup_insert_eq; set_solver|].
      rewrite lookup_insert_ne by done. rewrite Hp. set_solver. }
    pose proof (expand_spec n chain (get edges n) s1 (n :: rest) (fun v Hv => Hv) Hl1 Hp1 ltac:(cbn; lia)) as He.
    destruct (expand n (get edges n) s1 (n :: rest)) as [[path|[s' stack']]|]; [done| |done].
    destruct He as (ps & -> & Est & Hlen & H1 & H2 & H3). rewrite <- Est in H1.
    assert (Hla : later s s') by (intros u Hu; rewrite Est in Hu; by apply later_set in Hu).
    assert (Hs' : state s' !! n <> None) by (rewrite Est; cbn; by rewrite lookup_insert_eq).
    split; [exists (n :: chain); apply (visit_new s); try done|].
    { intros u Hu. rewrite Est. by apply H2. }
    split; [done|]. split; [intros u Hu; left; set_solver|].
    pose proof (pending_visit s s' n edges Hla Es Hs'). rewrite cost_app.
    pose proof (cost_bound s' ps). cbn [cost foldr]. fold (cost s' rest).
    pose proof (cost_mono s s' rest Hla). destruct (state s' !! n); [|done]. lia.
Qed.

Lemma explore_spec fuel : forall s chain stack,
  invariant s chain stack -> (cost s stack + pending s edges <= fuel)%nat ->
  match explore fuel edges s stack with
  | None => False
  | Some (inl path) => is_cycle edge path
  | Some (inr s') => invariant s' [] [] /\ later s s' /\ forall u, u ∈ stack -> state s' !! u <> None
  end.
Proof.
  induction fuel as [|fuel IH]; intros s chain [|n rest] Hi Hf; cbn [explore].
  - assert (chain = []) as -> by by eapply frames_empty, inv_frames.
    split; [done|]. split; [by intros u|]. set_solver.
  - exfalso. cbn [cost foldr] in Hf. destruct (state s !! n); lia.
  - assert (chain = []) as -> by by eapply frames_empty, inv_frames.
    split; [done|]. split; [by intros u|]. set_solver.
  - pose proof (visit_spec s chain n rest Hi) as Hv.
    destruct (visit edges s n rest) as [[path|[s' stack']]|]; [done| |done].
    destruct Hv as ((chain' & Hi') & Hla & Hst & Hc). specialize (IH s' chain' stack' Hi' ltac:(lia)).
    destruct (explore fuel edges s' stack') as [[path|s2]|]; [done| |done].
    destruct IH as (Hi2 & Hla2 & Hst2). split; [done|]. split; [intros u Hu; by apply Hla, Hla2|].
    intros u Hu. destruct (Hst u Hu) as [H|H]; [by apply Hst2|]. intros H2. by apply H, Hla2.
Qed.

Lemma search_from_spec fuel starts : forall s,
  invariant s [] [] -> (2 + pending s edges <= fuel)%nat ->
  match search_from fuel edges starts s with
  | None => False
  | Some (Some path) => is_cycle edge path
  | Some None => forall u, u ∈ starts \/ state s !! u <> None -> Acc (fun x y => edge y x) u
  end.
Proof.
  assert (Hacc : forall s u, invariant s [] [] -> state s !! u <> None -> Acc (fun x y => edge y x) u).
  { intros s u [Hp _ _ _ Hd] Hu. apply Hd. destruct (state s !! u) as [[]|] eqn:E; [|done..].
    by apply Hp, not_elem_of_nil in E. }
  induction starts as [|start starts IH]; intros s Hi Hf; cbn [search_from].
  { intros u [?%not_elem_of_nil|Hu]; [done|]. by apply (Hacc s). }
  destruct (state s !! start) eqn:Es.
  - specialize (IH s Hi Hf). destruct (search_from fuel edges starts s) as [[path|]|]; [done| |done].
    intros u [[-> |Hu]%elem_of_cons|Hu]; apply IH; [right; congruence|by left|by right].
  - assert (Hi1 : invariant s [] [start]) by (destruct Hi as [Hp Hn Hl _ Hd]; split; try done; constructor).
    pose proof (explore_spec fuel s [] [start] Hi1) as He. cbn [cost foldr] in He. rewrite Es in He.
    specialize (He ltac:(lia)). destruct (explore fuel edges s [start]) as [[path|s']|]; [done| |done].
    destruct He as (Hi' & Hla & Hst). pose proof (pending_mono s s' edges Hla).
    specialize (IH s' Hi' ltac:(lia)). destruct (search_from fuel edges starts s') as [[path|]|]; [done| |done].
    intros u [[-> |Hu]%elem_of_cons|Hu]; apply IH; [right; apply Hst; set_solver|by left|].
    right. intros Hs. by apply Hu, Hla.
Qed.
End search_proof.
(** ** Maps of lists *)

Lemma get_push m k v k' : get (push m k v) k' = if decide (k = k' /\ has m k = true) then get m k ++ [v] else get m k'.
Proof.
  unfold get, has. induction m as [|[k1 l] m IH]; [by case_decide as H; [destruct H|]|]. cbn [push assoc].
  destruct (decide (k = k1)) as [<-|H1]; cbn [assoc].
  - destruct (decide (k' = k)) as [->|H2]; [by rewrite decide_True|]. rewrite decide_False by naive_solver. done.
  - destruct (decide (k' = k1)) as [->|H2]; [by rewrite decide_False by naive_solver|]. by rewrite IH.
Qed.

Lemma assoc_snoc {A} (m : list (jsstr * A)) k v k' :
  assoc k' (m ++ [(k, v)]) = match assoc k' m with Some w => Some w | None => if decide (k' = k) then Some v else None end.
Proof. induction m as [|[k1 l] m IH]; cbn [app assoc]; [by destruct (decide (k' = k))|]. by destruct (decide (k' = k1)). Qed.

Lemma has_ensure m k : has (ensure m k) k = true.
Proof.
  unfold ensure. destruct (has m k) eqn:E; [done|]. unfold has in *. rewrite assoc_snoc.
  destruct (assoc k m); [by apply bool_decide_eq_true|]. rewrite decide_True by done. by apply bool_decide_eq_true.
Qed.

Lemma get_ensure m k k' : get (ensure m k) k' = get m k'.
Proof.
  unfold ensure. destruct (has m k); [done|]. unfold get. rewrite assoc_snoc.
  destruct (assoc k' m); [done|]. by destruct (decide (k' = k)).
Qed.

Lemma get_push_ensure m k v k' :
  get (push (ensure m k) k v) k' = if decide (k = k') then get m k ++ [v] else get m k'.
Proof.
  rewrite get_push, !get_ensure, has_ensure. destruct (decide (k = k')); [by rewrite decide_True|].
  rewrite decide_False; [done|naive_solver].
Qed.

Lemma get_push_new m k v k' :
  get (push_new m k v) k' = if decide (k = k' /\ v ∉ get m k) then get m k' ++ [v] else get m k'.
Proof.
  unfold push_new. rewrite get_ensure. case_bool_decide as Hv.
  - rewrite decide_False by naive_solver. apply get_ensure.
  - rewrite get_push_ensure. destruct (decide (k = k')) as [<-|]; [by rewrite decide_True|].
    by rewrite decide_False by naive_solver.
Qed.

Lemma not_has_get m k : k ∉ map fst m -> get m k = [].
Proof.
  unfold get. intros Hk. induction m as [|[k1 l] m IH]; [done|]. cbn in Hk |- *.
  rewrite decide_False by set_solver. apply IH. set_solver.
Qed.

(** ** The dependencies of a list of bindings *)

Definition depends (bs : list binding) (u v : jsstr) : Prop := exists b, b ∈ bs /\ consumer b = u /\ provider b = v.

Lemma get_edges_of bs u v : v ∈ get (edges_of bs) u <-> depends bs u v.
Proof.
  unfold edges_of, depends. assert (H : forall m, v ∈ get (fold_left (fun m b => push (ensure m (consumer b)) (consumer b) (provider b)) bs m) u <->
    v ∈ get m u \/ exists b, b ∈ bs /\ consumer b = u /\ provider b = v).
  { induction bs as [|b bs IH]; intros m; cbn [fold_left]; [set_solver|]. rewrite IH, get_push_ensure.
    destruct (decide (consumer b = u)) as [<-|]; set_solver. }
  rewrite H. cbn. set_solver.
Qed.

Lemma pending_cons s k l m :
  pending s ((k, l) :: m) = (match state s !! k with None => 2 * length l | Some _ => 0 end + pending s m)%nat.
Proof. unfold pending at 1. cbn [foldr fst snd]. fold (pending s m). destruct (state s !! k); lia. Qed.

Lemma pending_push s m k v : state s = ∅ -> has m k = true ->
  pending s (push m k v) = (2 + pending s m)%nat.
Proof.
  intros Hs. unfold has. rewrite bool_decide_eq_true. induction m as [|[k1 l] m IH]; [by intros []|].
  cbn [push assoc]. destruct (decide (k = k1)) as [<-|]; intros Hk; rewrite !pending_cons, Hs, lookup_empty.
  - rewrite length_app. cbn [length]. lia.
  - rewrite IH by done. lia.
Qed.

Lemma pending_ensure s m k : pending s (ensure m k) = pending s m.
Proof.
  unfold ensure. destruct (has m k); [done|]. unfold pending. rewrite foldr_app. f_equal. cbn.
  by destruct (state s !! k).
Qed.

Lemma pending_edges_of s bs : state s = ∅ -> pending s (edges_of bs) = (2 * length bs)%nat.
Proof.
  intros Hs. unfold edges_of. assert (H : forall m, pending s (fold_left (fun m b => push (ensure m (consumer b)) (consumer b) (provider b)) bs m) =
    (2 * length bs + pending s m)%nat).
  { induction bs as [|b bs IH]; intros m; cbn [fold_left length]; [done|].
    rewrite IH, pending_push, pending_ensure by (done || apply has_ensure). lia. }
  rewrite H. cbn. lia.
Qed.

Lemma detectCycle_spec bs :
  match detectCycle bs with
  | None => False
  | Some (Some path) => is_cycle (depends bs) path
  | Some None => forall path, ~ is_cycle (depends bs) path
  end.
Proof.
  set (s := {| state := ∅; parent := ∅ |}). unfold detectCycle. fold s.
  assert (Hi : invariant (edges_of bs) s [] []).
  { split; [|constructor|done|constructor|done]. intros u. cbn. split; [done|]. by intros ?%not_elem_of_nil. }
  pose proof (search_from_spec (edges_of bs) (search_fuel bs) (map fst (edges_of bs)) s Hi) as H.
  rewrite pending_edges_of in H by done. specialize (H ltac:(unfold search_fuel; lia)).
  assert (Hp : forall l, is_path (edge (edges_of bs)) l <-> is_path (depends bs) l).
  { induction l as [|a [|b l] IH]; [done..|]. cbn [is_path] in *. by rewrite IH, <- get_edges_of. }
  destruct (search_from _ _ _ _) as [[path|]|]; [destruct H as [H1 H2]; by split; [apply Hp|]| |done].
  intros path [Hpath (v & w & ->)]. apply Hp in Hpath. revert Hpath. apply acc_no_cycle.
  destruct (decide (v ∈ map fst (edges_of bs))) as [Hv|Hv]; [by apply H; left|].
  constructor. intros u Hu. unfold edge in Hu. rewrite not_has_get in Hu by done. by apply not_elem_of_nil in Hu.
Qed.

(** ** Who provides what *)

Definition provides_cap (inputs : list Input) (substrateProvides : list jsstr) (p cap : jsstr) : Prop :=
  (p = SUBSTRATE_PROVIDER /\ cap ∈ substrateProvides) \/
  exists i, i ∈ inputs /\ name i = p /\ cap ∈ default [] (provides i).

Lemma push_new_all who caps : forall m cap p, (NoDup (get m cap)) ->
  NoDup (get (fold_left (fun m cap => push_new m cap who) caps m) cap) /\
  (p ∈ get (fold_left (fun m cap => push_new m cap who) caps m) cap <-> p ∈ get m cap \/ (p = who /\ cap ∈ caps)).
Proof.
  induction caps as [|c caps IH]; intros m cap p Hn; cbn [fold_left]; [split; [done|set_solver]|].
  assert (Hn1 : NoDup (get (push_new m c who) cap)).
  { rewrite get_push_new. case_decide as H; [|done]. destruct H as [-> Hw]. apply NoDup_app.
    split; [done|]. split; [set_solver|apply NoDup_singleton]. }
  destruct (IH (push_new m c who) cap p Hn1) as [H1 H2]. split; [done|]. rewrite H2, get_push_new.
  case_decide as H; [destruct H as [-> Hw]; set_solver|]. destruct (decide (c = cap)) as [->|]; [|set_solver].
  assert (who ∈ get m cap) by (apply dec_stable; naive_solver). set_solver.
Qed.

Lemma collectProviders_spec inputs sub cap :
  NoDup (get (collectProviders inputs sub) cap) /\
  forall p, p ∈ get (collectProviders inputs sub) cap <-> provides_cap inputs sub p cap.
Proof.
  unfold collectProviders, provides_cap.
  assert (H : forall m, NoDup (get m cap) ->
    NoDup (get (fold_left (fun m i => fold_left (fun m cap => push_new m cap (name i)) (default [] (provides i)) m) inputs m) cap) /\
    forall p, p ∈ get (fold_left (fun m i => fold_left (fun m cap => push_new m cap (name i)) (default [] (provides i)) m) inputs m) cap <->
      p ∈ get m cap \/ exists i, i ∈ inputs /\ name i = p /\ cap ∈ default [] (provides i)).
  { induction inputs as [|i inputs IH]; intros m Hn; cbn [fold_left]; [split; [done|set_solver]|].
    destruct (push_new_all (name i) (default [] (provides i)) m cap [] Hn) as [Hn1 _].
    destruct (IH _ Hn1) as [H1 H2]. split; [done|]. intros p. rewrite H2.
    rewrite (proj2 (push_new_all (name i) (default [] (provides i)) m cap p Hn)). set_solver. }
  assert (H0 : NoDup (get [] cap)) by constructor.
  destruct (push_new_all SUBSTRATE_PROVIDER sub [] cap [] H0) as [Hn _].
  destruct (H _ Hn) as [H1 H2]. split; [done|]. intros p. rewrite H2.
  rewrite (proj2 (push_new_all SUBSTRATE_PROVIDER sub [] cap p H0)). cbn. set_solver.
Qed.

(** ** The resolution *)

Definition requirements (inputs : list Input) : list (jsstr * jsstr) :=
  concat (map (fun i => map (pair (name i)) (default [] (requires i))) inputs).

(** [p] is the provider of [cap] for [c]: the only one besides [c], or the one the override
    for [cap] picks among them. *)
Definition resolves (inputs : list Input) (sub : list jsstr) (overrides : gmap jsstr jsstr) (c cap p : jsstr) : Prop :=
  p <> c /\ provides_cap inputs sub p cap /\
  ((forall q, provides_cap inputs sub q cap -> q <> c -> q = p) \/ overrides !! cap = Some p).

Definition binds (inputs : list Input) (sub : list jsstr) (overrides : gmap jsstr jsstr) (r : jsstr * jsstr) (b : binding) : Prop :=
  consumer b = r.1 /\ capability b = r.2 /\ resolves inputs sub overrides r.1 r.2 (provider b).

Lemma resolve_inputs_ok inputs ps ov : forall acc bs,
  resolve_inputs inputs ps ov acc = Ok bs <->
  exists l, bs = acc ++ l /\ Forall2 (fun r b => resolve_one ps ov r.1 r.2 = Ok b) (requirements inputs) l.
Proof.
  assert (H1 : forall c caps acc bs, resolve_input ps ov c caps acc = Ok bs <->
    exists l, bs = acc ++ l /\ Forall2 (fun r b => resolve_one ps ov r.1 r.2 = Ok b) (map (pair c) caps) l).
  { intros c caps. induction caps as [|cap caps IH]; intros acc bs; cbn [resolve_input map].
    - split; [intros [= <-]; exists []; by rewrite app_nil_r|]. intros (l & -> & Hl). inversion Hl. by rewrite app_nil_r.
    - rewrite rbind_ok. setoid_rewrite IH. split.
      + intros (b & Hb & l & -> & Hl). exists (b :: l). rewrite <- app_assoc. split; [done|]. by constructor.
      + intros (l & -> & Hl). inversion Hl as [|? b ? l' Hb Hl']; subst. exists b. split; [done|].
        exists l'. by rewrite <- app_assoc. }
  induction inputs as [|i inputs IH]; intros acc bs; cbn [resolve_inputs requirements map concat].
  - split; [intros [= <-]; exists []; by rewrite app_nil_r|]. intros (l & -> & Hl). inversion Hl. by rewrite app_nil_r.
  - rewrite rbind_ok. setoid_rewrite IH. setoid_rewrite H1. split.
    + intros (? & (l1 & -> & Hl1) & l2 & -> & Hl2). exists (l1 ++ l2). rewrite app_assoc. split; [done|].
      by apply Forall2_app.
    + intros (l & -> & (l1 & l2 & Hl1 & Hl2 & ->)%Forall2_app_inv_l). exists (acc ++ l1).
      split; [by exists l1|]. exists l2. by rewrite app_assoc.
Qed.


Section one.
Context (inputs : list Input) (sub : list jsstr) (ov : gmap jsstr jsstr) (c cap : jsstr).
Definition externals : list jsstr :=
  List.filter (fun p => negb (bool_decide (p = c))) (get (collectProviders inputs sub) cap).

Lemma externals_spec : NoDup externals /\ forall p, p ∈ externals <-> provides_cap inputs sub p cap /\ p <> c.
Proof.
  destruct (collectProviders_spec inputs sub cap) as [Hn Hp]. split.
  - eapply sublist_NoDup; [exact Hn|]. unfold externals. generalize (get (collectProviders inputs sub) cap).
    induction l as [|x l IH]; cbn [List.filter]; [constructor|]. destruct (negb _); by constructor.
  - intros p. unfold externals. by rewrite list_elem_of_In, filter_In, <- list_elem_of_In, Hp, negb_true_iff, bool_decide_eq_false.
Qed.

(** What [resolve_one] answers, by the providers besides the consumer. *)
Lemma resolve_one_spec :
  match resolve_one (collectProviders inputs sub) ov c cap with
  | Ok b => binds inputs sub ov (c, cap) b
  | Throw (Unsatisfied c' cap') => c' = c /\ cap' = cap /\ forall p, ~ provides_cap inputs sub p cap
  | Throw (SelfProvided c' cap') => c' = c /\ cap' = cap /\ forall p, provides_cap inputs sub p cap <-> p = c
  | Throw (Ambiguous c' cap' cs) => c' = c /\ cap' = cap /\ cs = externals /\ (2 <= length cs)%nat /\ override_of ov cap = None
  | Throw (BadOverride cap' p cs) => cap' = cap /\ cs = externals /\ (2 <= length cs)%nat /\ override_of ov cap = Some p /\
      forall q, p = Some q -> q ∉ cs
  | Throw _ => False
  end /\
  (forall p, resolves inputs sub ov c cap p ->
     resolve_one (collectProviders inputs sub) ov c cap = Ok {| consumer := c; capability := cap; provider := p |}).
Proof.
  destruct (collectProviders_spec inputs sub cap) as [_ Hp]. destruct externals_spec as [Hn He].
  unfold resolve_one, check, binds. fold externals. cbn [fst snd].
  destruct (Nat.eqb_spec (length (get (collectProviders inputs sub) cap)) 0) as [E0|E0]; cbn [negb].
  { apply length_zero_iff_nil in E0. rewrite E0 in Hp. split.
    - split; [done|]. split; [done|]. intros p Hpp%Hp. by apply not_elem_of_nil in Hpp.
    - intros p (_ & Hpp%Hp & _). by apply not_elem_of_nil in Hpp. }
  destruct externals as [|p1 [|p2 rest]] eqn:Ee.
  - assert (Hno : forall p, provides_cap inputs sub p cap -> p = c).
    { intros p Hpp. apply dec_stable. intros Hpc. by apply (not_elem_of_nil p), He. }
    split; [|by intros p (Hpc & Hpp%Hno & _)]. split; [done|]. split; [done|]. intros p. split; [apply Hno|].
    intros ->. destruct (get (collectProviders inputs sub) cap) as [|q l]; [done|].
    assert (Hq : provides_cap inputs sub q cap) by apply Hp, list_elem_of_here. by rewrite <- (Hno q Hq).
  - destruct (proj1 (He p1) (list_elem_of_here _ _)) as [H1 H2].
    assert (Hone : forall q, provides_cap inputs sub q cap -> q <> c -> q = p1)
      by (intros q Hq Hqc; by apply list_elem_of_singleton, He).
    split; [do 4 (split; [done|]); by left|]. intros p (Hpc & Hpp & _). by rewrite (Hone p).
  - assert (H2 : p1 <> p2) by (intros <-; apply NoDup_cons in Hn as [Hn _]; set_solver).
    assert (Hout : forall p, resolves inputs sub ov c cap p -> ov !! cap = Some p /\ p ∈ p1 :: p2 :: rest).
    { intros p (Hpc & Hpp & [Hone|Ho]); [|split; [done|by apply He]]. destruct H2.
      destruct (proj1 (He p1)) as [H3 H4]; [set_solver|]. destruct (proj1 (He p2)) as [H5 H6]; [set_solver|].
      by rewrite (Hone p1), (Hone p2). }
    unfold override_of in *. destruct (ov !! cap) as [p|] eqn:Eo; [case_bool_decide as Hin|].
    + split; [|by intros q ([= ->] & _)%Hout]. apply He in Hin as [H3 H4]. do 4 (split; [done|]); by right.
    + split; [split_and!; try done; [cbn; lia|by intros q [= <-]]|]. intros q ([= <-] & Hq)%Hout; by destruct Hin.
    + destruct (bool_decide _); (split; [split_and!; try done; cbn; lia|by intros q (Hq & _)%Hout]).
Qed.
End one.

Lemma check_names_ok inputs seen l : check_names inputs seen = Ok l <->
  inputs = map Some l /\ NoDup (map name l) /\ (forall i, i ∈ l -> name i ∉ seen) /\ Forall (fun i => name i <> []) l.
Proof.
  revert seen l. induction inputs as [|[i|] inputs IH]; intros seen l; cbn [check_names].
  - split; [intros [= <-]; split_and!; [done|constructor|set_solver|constructor]|]. intros (E & _). by destruct l.
  - rewrite !check_ok, rbind_ok. setoid_rewrite IH. rewrite !negb_true_iff, !bool_decide_eq_false. split.
    + intros (Hi & Hs & rest & (-> & Hn & Hd & Hf) & [= <-]). cbn [map]. split; [done|]. split; [|split; [|by constructor]].
      * apply NoDup_cons. split; [|done]. intros (j & E & Hj)%list_elem_of_fmap. apply (Hd j Hj). rewrite <- E. set_solver.
      * intros j [-> |Hj]%elem_of_cons; [done|]. specialize (Hd j Hj). set_solver.
    + intros (E & Hn & Hd & Hf). destruct l as [|j l]; [done|]. cbn in E. injection E as <- ->.
      cbn in Hn. apply NoDup_cons in Hn as [Hi Hn]. apply Forall_cons in Hf as [Hf1 Hf]. split; [done|].
      split; [apply Hd, list_elem_of_here|]. exists l. split; [|done]. split_and!; [done..| |done].
      intros j Hj [E|Hs]%elem_of_cons; [apply Hi; rewrite <- E; by apply (list_elem_of_fmap_2 name)|].
      by apply (Hd j); [set_solver|].
  - split; [done|]. intros (E & _). by destruct l.
Qed.



(** C7: The matchmaker succeeds exactly when every input has its own name, every requirement has
    one provider besides the input that states it (or the override picks one of several) and
    the chosen bindings have no cycle; it returns those bindings, in order. *)
Theorem match_decides inputs overrides sub providers bindings :
  matchCapabilities inputs overrides sub = Ok (providers, bindings) <->
  exists l, inputs = Some (map Some l) /\ NoDup (map name l) /\ Forall (fun i => name i <> []) l /\
    (forall cap p, p ∈ get providers cap <-> provides_cap l sub p cap) /\ providers = collectProviders l sub /\
    Forall2 (binds l sub overrides) (requirements l) bindings /\
    forall path, ~ is_cycle (depends bindings) path.
Proof.
  unfold matchCapabilities. destruct inputs as [inputs|]; [|split; [done|by intros (? & ? & _)]].
  assert (Hone : forall l r b, resolve_one (collectProviders l sub) overrides r.1 r.2 = Ok b <-> binds l sub overrides r b).
  { intros l [c cap] b. destruct (resolve_one_spec l sub overrides c cap) as [H1 H2]. cbn [fst snd]. split.
    - intros E. by rewrite E in H1.
    - intros (Hc & Hcap & Hr). cbn [fst snd] in *. rewrite (H2 _ Hr). destruct b. cbn in *. by subst. }
  rewrite rbind_ok. setoid_rewrite check_names_ok. setoid_rewrite rbind_ok.
  unfold resolveRequires. setoid_rewrite resolve_inputs_ok. split.
  - intros (l & (-> & Hn & _ & Hf) & bs & (bs' & -> & Hbs) & Hd). cbn [app] in Hd.
    pose proof (detectCycle_spec bs') as Hc. destruct (detectCycle bs') as [[path|]|]; [done| |done].
    injection Hd as <- <-. exists l. split; [done|]. split; [done|]. split; [done|].
    split; [intros cap; apply collectProviders_spec|]. split; [done|]. split; [|done].
    eapply Forall2_impl; [exact Hbs|]. intros r b. apply Hone.
  - intros (l & [= ->] & Hn & Hf & _ & -> & Hbs & Hno). exists l. split; [split_and!; [done..|set_solver|done]|].
    exists bindings. split.
    + exists bindings. split; [done|]. eapply Forall2_impl; [exact Hbs|]. intros r b. apply Hone.
    + pose proof (detectCycle_spec bindings) as Hc. destruct (detectCycle bindings) as [[path|]|]; [|done|done].
      by destruct (Hno path).
Qed.



(** ** Examples *)

Definition input (n : string) (p r : list string) : option Input :=
  Some {| name := js n; provides := Some (map js p); requires := Some (map js r) |}.

Definition two : list (option Input) := [input "app" [] ["cap/v1"]; input "llo" ["cap/v1"] []].

Lemma match_decides_witness :
  exists l, two = map Some l /\ Forall2 (binds l [] ∅) (requirements l)
    [{| consumer := js "app"; capability := js "cap/v1"; provider := js "llo" |}].
Proof.
  destruct (proj1 (match_decides (Some two) ∅ [] [(js "cap/v1", [js "llo"])]
    [{| consumer := js "app"; capability := js "cap/v1"; provider := js "llo" |}])) as (l & [= E] & _ & _ & _ & _ & H & _);
    [vm_compute; reflexivity|]. by exists l.
Defined.



(** A capability with the name of an inherited property is never ambiguous: it has a bad override that
    nobody wrote. *)
Example inherited_override :
  let ins cap := Some [input "app" [] [cap]; input "a" [cap] []; input "b" [cap] []] in
  matchCapabilities (ins "cap"%string) ∅ [] = Throw (Ambiguous (js "app") (js "cap") [js "a"; js "b"]) /\
  matchCapabilities (ins "toString"%string) ∅ [] = Throw (BadOverride (js "toString") None [js "a"; js "b"]).
Proof. vm_compute. by split. Qed.

(** An input may take the name that stands for the substrate: a capability the substrate
    provides is then reported as provided by the input itself. *)
Lemma substrate_name_is_not_reserved :
  matchCapabilities (Some [input "<substrate>" [] ["cap/v1"]]) ∅ [js "cap/v1"] =
  Throw (SelfProvided (js "<substrate>") (js "cap/v1")).
Proof. vm_compute. reflexivity. Qed.
End Matchmaker.
