(* ===== verification/CaBundle.v ===== *)
(** The CA bundle: the lease gate of src/src/routes/lease-gate.ts, the per-isolate
    cache of src/src/storage/ca-bundle-cache.ts, the signing bytes and the signature
    check of src/src/storage/bundle-canonical.ts, the fetcher of
    src/src/storage/notme-bundle-fetcher.ts, and the choice of the bundle's source in
    src/src/storage/ca-bundle-source.ts. *)
From S2P Require Import Prelude JsString Sql Platform Json Base64.

Module CaBundle.

(** ** The lease gate *)

(** The environment variables these modules read; [None] is [undefined]. *)
Record Env := mkEnv {
  CLOISTER_MODE : option jsstr;
  DEV_CA_MASTER : option jsstr;
  DEV_CA_EPOCH : option jsstr;
  INTERLACE_ROOT_PUBKEY : option jsstr;
}.

Inductive LeaseMode := off | enforce.
#[global] Instance LeaseMode_eq_dec : EqDecision LeaseMode.
Proof. solve_decision. Defined.

Definition is_dev (env : Env) : bool := bool_decide (CLOISTER_MODE env = Some (js "dev")).

Definition resolveLeaseGate (env : Env) : LeaseMode :=
  let isDev := is_dev env in
  let hasAuthority := nonempty (DEV_CA_MASTER env) || nonempty (INTERLACE_ROOT_PUBKEY env) in
  if isDev && negb hasAuthority then off else enforce.

Definition leaseEnforced (env : Env) : bool := bool_decide (resolveLeaseGate env = enforce).

(** ** The bundle *)

(** [keys] is the object's entries in property order. *)
Record Bundle := mkBundle {
  epoch : Z;
  seqno : Z;
  keys : list (jsstr * jsstr);
  keyId : jsstr;
  prevKeyId : option jsstr;
  issuedAt : Z;
  signature : jsstr;
}.

#[global] Instance Bundle_eq_dec : EqDecision Bundle.
Proof. solve_decision. Defined.

Definition isCertEpochCurrent (certEpoch : Z) (bundle : Bundle) : bool :=
  if certEpoch =? epoch bundle then true
  else match prevKeyId bundle with
       | Some _ => certEpoch =? epoch bundle - 1
       | None => false
       end.

(** ** Signing bytes *)

(** What the encoder is given: a [Map] from integers. *)
Inductive field :=
  | FInt (z : Z)
  | FText (s : jsstr)
  | FKeys (m : list (jsstr * bytes)).

(** The cbor-x encoder, and [crypto.subtle] for Ed25519. *)
Class CborX := cborx_encode : list (Z * field) -> bytes.

(** The comparison of [sortStringKeysCanonical]: shorter first, then bytewise. *)
Definition canonical_key (k : jsstr) : list Z :=
  Z.of_nat (length (utf8_encode k)) :: map b2z (utf8_encode k).
Definition entry_le (a b : jsstr * bytes) : Prop :=
  lex_le (canonical_key a.1) (canonical_key b.1).
#[global] Instance entry_le_dec a b : Decision (entry_le a b).
Proof. unfold entry_le. apply _. Defined.

Definition sortStringKeysCanonical (entries : list (jsstr * bytes)) : list (jsstr * bytes) :=
  order_by entry_le entries.

Section signing.
Context `{CborX} `{Ed25519}.

(** [None] where a key is not base64 and [atob] throws. *)
Definition bundleCanonical (bundle : Bundle) : option bytes :=
  entries ← mapM (fun e => b ← Base64.b64Decode e.2; Some (e.1, b)) (keys bundle);
  Some (cborx_encode
    [(1, FInt (epoch bundle)); (2, FInt (seqno bundle));
     (3, FKeys (sortStringKeysCanonical entries)); (4, FText (keyId bundle));
     (5, FText (default [] (prevKeyId bundle))); (6, FInt (issuedAt bundle))]).

(** The [catch] turns every throw into [false]. *)
Definition verifyBundleSignature (bundle : Bundle) (rootPublicKeyB64 : jsstr) : bool :=
  match (keyBytes ← Base64.b64Decode rootPublicKeyB64;
         if negb (length keyBytes =? 32)%nat then Some false
         else sig ← Base64.b64Decode (signature bundle);
              message ← bundleCanonical bundle;
              ed25519_verify keyBytes sig message) with
  | Some b => b
  | None => false
  end.

(** ** The fetcher *)

(** [Object.entries] of a value; an array's entries are its indices. *)
Definition entries (v : Json) : option (list (jsstr * Json)) :=
  match v with
  | JObj m => Some m
  | JArr l => Some (imap (fun i x => (js_dec (Z.of_nat i), x)) l)
  | _ => None
  end.

Definition string_entry (e : jsstr * Json) : option (jsstr * jsstr) :=
  match e.2 with JStr s => Some (e.1, s) | _ => None end.

(** The value narrowed to a bundle; [None] is [false]. *)
Definition isCABundleShape (value : Json) : option Bundle :=
  match get_prop value (js "epoch"), get_prop value (js "seqno"), get_prop value (js "keyId"),
        get_prop value (js "issuedAt"), get_prop value (js "signature") with
  | Some (JNum e), Some (JNum q), Some (JStr k), Some (JNum i), Some (JStr sg) =>
      ks ← (get_prop value (js "keys") ≫= entries);
      ks ← mapM string_entry ks;
      match get_prop value (js "prevKeyId") with
      | None => Some (mkBundle e q ks k None i sg)
      | Some (JStr p) => Some (mkBundle e q ks k (Some p) i sg)
      | Some _ => None
      end
  | _, _, _, _, _ => None
  end.

(** The reply of the NOTME service binding: a throw, or a status and a body that is
    JSON or not. *)
Inductive reply := NetworkThrew | Reply (status : Z) (body : option Json).

(** [await fetcher()]: a bundle or [null], or a throw. *)
Inductive fetched := Fetched (b : option Bundle) | FetchThrew (message : jsstr).

Definition notmeBundleFetcher (r : reply) : fetched :=
  match r with
  | NetworkThrew => Fetched None
  | Reply status body =>
      if negb ((200 <=? status) && (status <=? 299)) then Fetched None
      else match body with
           | None => Fetched None
           | Some value => Fetched (isCABundleShape value)
           end
  end.

(** ** The cache *)

Inductive exn := CaUnavailableError (reason : jsstr).

Record CacheEntry := mkEntry { c_bundle : Bundle; fetchedAtMs : Z }.
Definition Cache : Type := option CacheEntry.
Definition C (A : Type) : Type := M Cache exn A.

Definition BUNDLE_REFRESH_MS : Z := 4 * 60 * 1000.

Record GetBundleOptions := mkOptions { refreshMs : option Z; rootPubkey : option jsstr }.

Definition REASON_NULL : jsstr :=
  js "fetch returned null (notme unreachable / non-200 / bad JSON / shape mismatch)".
Definition REASON_THREW : jsstr := js "fetch threw: ".
Definition REASON_SIG : jsstr := js "signature verify FAILED".

(** The part of [getCABundle] after the cache miss, up to the trust decision. *)
Definition vet (f : fetched) (root : option jsstr) : option Bundle * jsstr :=
  let '(next, reason) := match f with
                         | Fetched b => (b, REASON_NULL)
                         | FetchThrew m => (None, REASON_THREW ++ m)
                         end in
  match next, root with
  | Some b, Some ((_ :: _) as r) => if verifyBundleSignature b r then (Some b, reason) else (None, REASON_SIG)
  | _, _ => (next, reason)
  end.

Definition getCABundle (fetcher : fetched) (nowMs : Z) (options : GetBundleOptions) : C Bundle :=
  let refresh := default BUNDLE_REFRESH_MS (refreshMs options) in
  let miss : C Bundle :=
    let '(next, reason) := vet fetcher (rootPubkey options) in
    match next with
    | Some b => exec (fun _ => (Some (mkEntry b nowMs), b))
    | None => throw (CaUnavailableError reason)
    end in
  let* cache := read id in
  match cache with
  | Some e => if nowMs - fetchedAtMs e <? refresh then ret (c_bundle e) else miss
  | None => miss
  end.

(** ** The source of the bundle *)

Definition devCaBundle (env : Env) (nowMs : Z) : option Bundle :=
  match is_dev env, DEV_CA_MASTER env with
  | true, Some ((_ :: _) as master) =>
      let epoch := parse_int (default (js "1") (DEV_CA_EPOCH env)) in
      Some (mkBundle (match epoch with Int z => z | _ => 1 end) 1
              [(js "active", master)] (js "active") None (nowMs / 1000) [])
  | _, _ => None
  end.

Definition NO_ANCHOR : jsstr :=
  js "no CA trust anchor: set INTERLACE_ROOT_PUBKEY (prod / notme-in-loop) or CLOISTER_MODE=dev + DEV_CA_MASTER (turnkey dev)".

(** [clock] is [Date.now()] inside [devCaBundle]. *)
Definition resolveCABundle (env : Env) (nowMs clock : Z) (notme : reply) : C Bundle :=
  match devCaBundle env clock with
  | Some b => ret b
  | None =>
      if negb (nonempty (INTERLACE_ROOT_PUBKEY env)) then throw (CaUnavailableError NO_ANCHOR)
      else getCABundle (notmeBundleFetcher notme) nowMs (mkOptions None (INTERLACE_ROOT_PUBKEY env))
  end.

(** ** Runs of the cache *)

(** The calls of one isolate, oldest first: what the fetcher would answer, and the
    clock. *)
Definition call : Type := fetched * Z.

Definition get_one (root : jsstr) (c : call) : C Bundle :=
  getCABundle c.1 c.2 (mkOptions None (Some root)).

Fixpoint answers (root : jsstr) (calls : list call) (cache : Cache) : list (result exn Bundle) :=
  match calls with
  | [] => []
  | c :: calls => let '(cache', r) := get_one root c cache in r :: answers root calls cache'
  end.

Lemma vet_pinned f c r b reason :
  vet f (Some (c :: r)) = (Some b, reason) ->
  f = Fetched (Some b) /\ verifyBundleSignature b (c :: r) = true.
Proof.
  unfold vet. destruct f as [[b'|]|m]; [|done..].
  destruct (verifyBundleSignature b' (c :: r)) eqn:E; [|done]. by intros [= -> _].
Qed.

(** The cache holds what a past call fetched and verified. *)
Definition cache_ok (root : jsstr) (past : list call) (c : Cache) : Prop :=
  forall e, c = Some e -> verifyBundleSignature (c_bundle e) root = true /\
    (Fetched (Some (c_bundle e)), fetchedAtMs e) ∈ past.

Lemma get_one_spec root past c cache cache' r :
  root <> [] -> cache_ok root past cache -> get_one root c cache = (cache', r) ->
  cache_ok root (past ++ [c]) cache' /\
  forall b, r = Ok b -> verifyBundleSignature b root = true /\
    (c.1 = Fetched (Some b) \/
     exists t, (Fetched (Some b), t) ∈ past /\ c.2 - t < BUNDLE_REFRESH_MS).
Proof.
  intros Hr Hc. destruct c as [f now], root as [|u root]; [done|].
  assert (Hkeep : cache_ok (u :: root) (past ++ [(f, now)]) cache).
  { intros e E. destruct (Hc e E) as [? ?]. split; [done|]. apply elem_of_app. by left. }
  unfold get_one, getCABundle. cbn [fst snd rootPubkey refreshMs default].
  destruct (vet f (Some (u :: root))) as [[b|] reason] eqn:Ev; mrun;
    (destruct cache as [e|]; [destruct (Z.ltb_spec (now - fetchedAtMs e) BUNDLE_REFRESH_MS)|]);
    intros [= <- <-]; try (split; [done|]; done).
  all: try (split; [done|]; intros b' [= <-]; destruct (Hc e eq_refl); eauto; done).
  all: apply vet_pinned in Ev as [-> Ev]; split; [|by intros b' [= <-]; auto].
  all: intros e' [= <-]; split; [done|]; apply elem_of_app; right; by apply list_elem_of_singleton.
Qed.

Lemma answers_spec root past calls cache i f now b :
  root <> [] -> cache_ok root past cache ->
  calls !! i = Some (f, now) -> answers root calls cache !! i = Some (Ok b) ->
  verifyBundleSignature b root = true /\
  (f = Fetched (Some b) \/
   exists t, (Fetched (Some b), t) ∈ past ++ take i calls /\ now - t < BUNDLE_REFRESH_MS).
Proof.
  intros Hr. revert past cache i. induction calls as [|c calls IH]; intros past cache i Hc Hi Ha; [done|].
  cbn [answers] in Ha. destruct (get_one root c cache) as [cache' r] eqn:E.
  destruct (get_one_spec _ past _ _ _ _ Hr Hc E) as [Hc' Hb]. destruct i as [|i]; simpl in *.
  - simplify_eq. destruct (Hb b eq_refl) as [Hv [Hf|(t & Ht & ?)]]; [by auto|].
    split; [done|]. right. exists t. by rewrite app_nil_r.
  - destruct (IH _ _ _ Hc' Hi Ha) as [Hv [Hf|(t & Ht & ?)]]; [by auto|].
    split; [done|]. right. exists t. by rewrite <- app_assoc in Ht.
Qed.

(** ** Order of the keys *)

#[local] Instance entry_le_trans : Transitive entry_le.
Proof. intros x y z. apply lex_le_trans. Qed.
#[local] Instance entry_le_total : Total entry_le.
Proof. intros x y. apply lex_le_total. Qed.

Lemma mapM_perm {A B} (f : A -> option B) (l l' : list A) :
  l ≡ₚ l' ->
  match mapM f l, mapM f l' with
  | Some x, Some y => x ≡ₚ y | None, None => True | _, _ => False
  end.
Proof.
  induction 1 as [|x l l' _ IH|x y l|l1 l2 l3 _ IH1 _ IH2]; [by cbn|..].
  - cbn [mapM]. destruct (f x); cbn; [|done].
    destruct (mapM f l), (mapM f l'); cbn; try done. by apply perm_skip.
  - cbn [mapM]. destruct (f x), (f y), (mapM f l); cbn; try done. apply Permutation_swap.
  - destruct (mapM f l1), (mapM f l2), (mapM f l3); try done. by transitivity l0.
Qed.

Definition decoded (l : list (jsstr * jsstr)) : option (list (jsstr * bytes)) :=
  mapM (fun e => b ← Base64.b64Decode e.2; Some (e.1, b)) l.

Lemma decoded_keys l es : decoded l = Some es -> map fst es = map fst l.
Proof.
  revert es. induction l as [|e l IH]; intros es; cbn; [by intros [= <-]|].
  destruct (Base64.b64Decode e.2); cbn; [|done].
  destruct (mapM _ l) eqn:E; cbn; [|done]. intros [= <-]. cbn. f_equal. by apply IH.
Qed.

Lemma canonical_key_antisym (es : list (jsstr * bytes)) x y :
  NoDup (map (fun e => utf8_encode e.1) es) -> x ∈ es -> y ∈ es ->
  entry_le x y -> entry_le y x -> x = y.
Proof.
  intros Hn Hx Hy H1 H2. pose proof (lex_le_antisym _ _ H1 H2) as E. injection E as _ E.
  apply (inj (map b2z)) in E. revert Hn Hx Hy E. clear. induction es as [|e es IH]; [by intros _ []%not_elem_of_nil|].
  cbn [map]. intros [Hni Hn]%NoDup_cons Hx Hy E. rewrite list_elem_of_In in Hni.
  apply elem_of_cons in Hx as [-> | Hx], Hy as [-> | Hy]; [done|..|by apply IH].
  - exfalso. apply Hni. rewrite E. by apply (in_map (fun e => utf8_encode e.1)), list_elem_of_In.
  - exfalso. apply Hni. rewrite <- E. by apply (in_map (fun e => utf8_encode e.1)), list_elem_of_In.
Qed.

(** ** Properties *)

(** The signing bytes do not depend on the order in which the transport lists the
    keys.  Two bundles that differ only in the order of entries of [keys], with key
    names distinct as UTF-8, have the same signing bytes, so the same signature
    verifies for both. *)
Theorem bundle_signing_order_free e q ks ks' k p i sg root :
  ks ≡ₚ ks' -> NoDup (map (fun e => utf8_encode e.1) ks) ->
  let b := mkBundle e q ks k p i sg in
  let b' := mkBundle e q ks' k p i sg in
  bundleCanonical b = bundleCanonical b' /\
  verifyBundleSignature b root = verifyBundleSignature b' root.
Proof.
  intros Hp Hn b b'. assert (E : bundleCanonical b = bundleCanonical b').
  { unfold bundleCanonical. cbn [keys b b' epoch seqno keyId prevKeyId issuedAt].
    pose proof (mapM_perm (fun e => b ← Base64.b64Decode e.2; Some (e.1, b)) ks ks' Hp) as Hm.
    destruct (mapM _ ks) as [es|] eqn:E1, (mapM _ ks') as [es'|] eqn:E2; try done. cbn.
    replace (sortStringKeysCanonical es') with (sortStringKeysCanonical es); [done|].
    apply (order_by_unique entry_le).
    - intros x y Hx Hy. apply (canonical_key_antisym es'); [|by eapply elem_of_order_by ..].
      apply decoded_keys in E2. rewrite <- (map_map fst utf8_encode), E2, map_map.
      by rewrite <- Hp.
    - apply (order_by_sorted entry_le).
    - unfold sortStringKeysCanonical, order_by. by rewrite merge_sort_Permutation. }
  split; [done|]. unfold verifyBundleSignature. by rewrite E.
Qed.

(** C31: with a pinned root key every bundle the cache hands out was signed by that
    key, and was fetched less than the refresh interval before.  Over any sequence of
    calls of an isolate that starts with an empty cache, a call that returns a bundle
    either got it from its own fetch or from the fetch of an earlier call less than
    four minutes old, and in both cases the signature check under the root succeeded. *)
Theorem cached_bundles_are_pinned root calls i f now b :
  root <> [] ->
  calls !! i = Some (f, now) -> answers root calls None !! i = Some (Ok b) ->
  verifyBundleSignature b root = true /\
  (f = Fetched (Some b) \/
   exists t, (Fetched (Some b), t) ∈ take i calls /\ now - t < BUNDLE_REFRESH_MS).
Proof. intros Hr. by apply (answers_spec root []). Qed.

(** C32: The gate fails closed.  It is off exactly when [CLOISTER_MODE] says development and neither a
    development master nor a trust anchor is configured.  In any other mode than development, when no trust
    anchor is configured, or when the fetch brings nothing and there is no cached bundle or one that is
    too old, resolving the bundle throws and leaves the cache as it was. *)
Theorem gate_fails_closed env now clock notme c :
  (leaseEnforced env = false <->
     CLOISTER_MODE env = Some (js "dev") /\
     nonempty (DEV_CA_MASTER env) = false /\ nonempty (INTERLACE_ROOT_PUBKEY env) = false) /\
  (CLOISTER_MODE env <> Some (js "dev") -> nonempty (INTERLACE_ROOT_PUBKEY env) = false ->
     resolveCABundle env now clock notme c = (c, Throw (CaUnavailableError NO_ANCHOR))) /\
  (CLOISTER_MODE env <> Some (js "dev") -> notmeBundleFetcher notme = Fetched None ->
     (forall e, c = Some e -> BUNDLE_REFRESH_MS <= now - fetchedAtMs e) ->
     exists r, resolveCABundle env now clock notme c = (c, Throw (CaUnavailableError r))).
Proof.
  unfold leaseEnforced, resolveLeaseGate, is_dev, resolveCABundle, devCaBundle, is_dev.
  split; [|split].
  - destruct (decide (CLOISTER_MODE env = Some (js "dev"))) as [Hd|Hd].
    + rewrite (bool_decide_true (CLOISTER_MODE env = _)) by done.
      destruct (nonempty (DEV_CA_MASTER env)), (nonempty (INTERLACE_ROOT_PUBKEY env));
        cbn; naive_solver.
    + rewrite (bool_decide_false (CLOISTER_MODE env = _)) by done. cbn. naive_solver.
  - intros Hm Hr. rewrite bool_decide_false by done. by rewrite Hr.
  - intros Hm Hf Ho. rewrite bool_decide_false by done. destruct (nonempty _); cbn; [|by eexists].
    rewrite Hf. unfold getCABundle. cbn [vet]. unfold refreshMs, default. mrun.
    destruct c as [e|]; [|by eexists]. specialize (Ho e eq_refl).
    rewrite (proj2 (Z.ltb_ge _ _)) by done. by eexists.
Qed.

(** Nothing orders the bundles a refresh may install: a validly signed bundle with a
    smaller sequence number, epoch and issue time replaces a newer one. *)
Lemma refresh_accepts_rollback root now e old :
  root <> [] -> BUNDLE_REFRESH_MS <= now - fetchedAtMs e ->
  verifyBundleSignature old root = true ->
  seqno old < seqno (c_bundle e) -> issuedAt old < issuedAt (c_bundle e) ->
  get_one root (Fetched (Some old), now) (Some e) = (Some (mkEntry old now), Ok old).
Proof.
  intros Hr Hn Hv _ _. destruct root as [|u root]; [done|].
  unfold get_one, getCABundle, vet. cbn [fst snd rootPubkey refreshMs default]. rewrite Hv. mrun.
  by rewrite (proj2 (Z.ltb_ge _ _)).
Qed.

End signing.

(** ** Closed instances *)

Definition demo_cborx : CborX := fun m => [z2b (Z.of_nat (length m))].
Definition demo_root : bytes := replicate 32 Corelib.Init.Byte.x07.
Definition demo_root_b64 : jsstr := Base64.b64encode demo_root.
Definition demo_signature : jsstr :=
  Base64.b64encode (demo_root ++ @sha256 demo_sha256 (@cborx_encode demo_cborx
    (replicate 6 (0, FInt 0)))).
Definition demo_bundle : Bundle :=
  mkBundle 3 1 [(js "a", demo_root_b64); (js "b", demo_root_b64)] (js "a") None 1000 demo_signature.

Lemma bundle_signing_order_free_witness :
  let b := demo_bundle in
  let b' := mkBundle 3 1 (reverse (keys demo_bundle)) (js "a") None 1000 demo_signature in
  @bundleCanonical demo_cborx b = @bundleCanonical demo_cborx b' /\
  @verifyBundleSignature demo_cborx demo_ed25519 b demo_root_b64 =
  @verifyBundleSignature demo_cborx demo_ed25519 b' demo_root_b64.
Proof.
  apply (@bundle_signing_order_free demo_cborx demo_ed25519).
  - apply (bool_decide_unpack _). vm_compute. exact I.
  - apply (bool_decide_unpack _). vm_compute. exact I.
Defined.

Lemma cached_bundles_are_pinned_witness :
  @verifyBundleSignature demo_cborx demo_ed25519 demo_bundle demo_root_b64 = true /\
  (Fetched None = Fetched (Some demo_bundle) \/
   exists t, (Fetched (Some demo_bundle), t) ∈ [(Fetched (Some demo_bundle), 5)] /\
             1000 - t < BUNDLE_REFRESH_MS).
Proof.
  apply (@cached_bundles_are_pinned demo_cborx demo_ed25519 demo_root_b64
           [(Fetched (Some demo_bundle), 5); (Fetched None, 1000)] 1%nat).
  - apply (bool_decide_unpack _). vm_compute. exact I.
  - reflexivity.
  - vm_compute. reflexivity.
Defined.

End CaBundle.
