(* ===== verification/Lease.v ===== *)
(** The lease middleware: src/src/routes/lease-middleware.ts.  Header parsing, the
    bytes the caller signs, the scope grammar, the verification pipeline against the
    trust store, and the gate-and-verify flow every lease-gated route calls.  The
    claims parser is that of src/src/wire/signet-verify.ts. *)
From S2P Require Import Prelude JsString Platform Json Base64 LeaseCounters CaBundle TrustStore.

Module Lease.

Definition ERR_UNAUTHENTICATED : Z := -32001.
Definition ERR_SCOPE_DENIED : Z := -32002.
Definition ERR_BAD_REQUEST_SIG : Z := -32003.
Definition ERR_REPLAY : Z := -32004.
Definition ERR_CA_UNAVAILABLE : Z := -32005.
Definition ERR_EPOCH_MISMATCH : Z := -32006.
Definition ERR_CLOCK_SKEW : Z := -32008.

Definition MAX_CLOCK_SKEW_MS : Z := 60000.

(** What the middleware reads of a [Request]; header names in lower case. *)
Record Request := mkRequest {
  r_method : jsstr;
  r_url : jsstr;
  r_header : jsstr -> option jsstr;
}.

(** ** Headers *)

Record ParsedAuthHeaders := mkHeaders {
  h_certDer : bytes;
  h_sig : bytes;
  h_ts : Z;
  h_nonce : bytes;
}.

Inductive AuthHeaderError :=
  | missing_authorization
  | wrong_scheme (scheme : jsstr)
  | missing_signature
  | missing_timestamp
  | missing_nonce
  | bad_base64 (field : jsstr).

(** A header that is present and not empty. *)
Definition header (req : Request) (name : jsstr) : option jsstr :=
  match r_header req name with Some ((_ :: _) as v) => Some v | _ => None end.

Definition need {A B E} (o : option A) (e : E) (k : A -> result E B) : result E B :=
  match o with Some a => k a | None => Throw e end.

Definition parseAuthHeaders (req : Request) : result AuthHeaderError ParsedAuthHeaders :=
  need (header req (js "authorization")) missing_authorization (fun authz =>
  need (index_of [32] authz) (wrong_scheme authz) (fun space =>
  let scheme := take space authz in
  if negb (bool_decide (scheme = js "Signet")) then Throw (wrong_scheme scheme) else
  let certB64 := trim (drop (S space) authz) in
  need (Base64.b64decode certB64) (bad_base64 (js "Authorization")) (fun certDer =>
  need (header req (js "x-signet-sig")) missing_signature (fun sigB64 =>
  need (Base64.b64decode sigB64) (bad_base64 (js "X-Signet-Sig")) (fun sig =>
  need (header req (js "x-signet-ts")) missing_timestamp (fun tsRaw =>
  match parse_int tsRaw with
  | Int ts =>
      if ts <=? 0 then Throw missing_timestamp else
      need (header req (js "x-signet-nonce")) missing_nonce (fun nonceB64 =>
      need (Base64.b64decode nonceB64) (bad_base64 (js "X-Signet-Nonce")) (fun nonce =>
      Ok (mkHeaders certDer sig ts nonce)))
  | _ => Throw missing_timestamp
  end)))))).

(** ** The signed bytes *)

Definition LF : Z := 10.

Definition canonicalRequestBytes (method url : jsstr) (ts : Z) (nonce : bytes) (body : jsstr)
    : bytes :=
  let nonceB64 := Base64.b64encode nonce in
  utf8_encode (method ++ [LF] ++ url ++ [LF] ++ js_dec ts ++ [LF] ++ nonceB64 ++ [LF] ++ body).

(** ** Scopes *)

(** The method and the parameters are what the caller parsed: the type annotations are not
    checked.  [None] is the [TypeError] of a value that has no string form. *)
Definition deriveRequestScope (method : option Json) (params : option Json) : option jsstr :=
  match method with
  | Some (JStr method) =>
      if bool_decide (method = js "tools/list") then Some (js "tools:list")
      else if bool_decide (method = js "server/discover") then Some (js "server:discover")
      else if bool_decide (method = js "subscriptions/listen") then Some (js "subscriptions:listen")
      else if negb (bool_decide (method = js "tools/call")) then Some (js "unknown:" ++ method)
      else
        match opt_prop params (js "name") with
        | Some nm =>
            if negb (truthy (Some nm)) then Some (js "tools:call:no_name")
            else
              let repo := opt_prop (opt_prop params (js "arguments")) (js "repo") in
              name ← to_string nm;
              match repo with
              | Some rp => if truthy repo then r ← to_string rp; Some (name ++ js ":" ++ r)
                           else Some (name ++ js ":*")
              | None => Some (name ++ js ":*")
              end
        | None => Some (js "tools:call:no_name")
        end
  | Some m => text ← to_string m; Some (js "unknown:" ++ text)
  | None => Some (js "unknown:undefined")
  end.

Definition scopeAllows (certScope requested : jsstr) : bool :=
  if bool_decide (certScope = js "*") then true
  else if bool_decide (certScope = requested) then true
  else if ends_with (js ":*") certScope
  then starts_with (take (length certScope - 1) certScope) requested
  else false.

(** ** Certificates *)

Record CertClaims := mkClaims {
  ephemeralPubkey : bytes;
  notBefore : Z;
  notAfter : Z;
  cl_epoch : option Z;
  cl_peerFp : option jsstr;
  cl_scope : option jsstr;
  confinementDigest : option bytes;
}.

(** The wasm certificate verifier: [None] for a negative result, otherwise what
    [JSON.parse] makes of its output. *)
Class CertPath := leyline_verify_cert_path : bytes -> bytes -> option (option Json).

Inductive chain_reason :=
  | MasterLength | ChainFailed | ClaimsNotJson | ClaimsMissing (k : jsstr)
  | EpkNotBase64 | EpkLength | CdNotString | CdNotBase64 | CdLength.

Definition number_of (o : option Json) : option Z :=
  match o with Some (JNum z) => Some z | _ => None end.
Definition string_of (o : option Json) : option jsstr :=
  match o with Some (JStr s) => Some s | _ => None end.

(** The optional [cd] claim: absent, or a 32-byte base64url string. *)
Definition parse_cd (parsed : Json) : result chain_reason (option bytes) :=
  match get_prop parsed (js "cd") with
  | None => Ok None
  | Some (JStr cd) =>
      need (Base64.b64decode cd) CdNotBase64 (fun d =>
      if (length d =? 32)%nat then Ok (Some d) else Throw CdLength)
  | Some _ => Throw CdNotString
  end.

(** The outer [None] is the [TypeError] of reading a property of [null]. *)
Definition _parseClaimsJson (json : option Json) : option (result chain_reason CertClaims) :=
  match json with
  | None => Some (Throw ClaimsNotJson)
  | Some JNull => None
  | Some parsed => Some (
      need (string_of (get_prop parsed (js "epk"))) (ClaimsMissing (js "epk")) (fun epk =>
      need (number_of (get_prop parsed (js "nb"))) (ClaimsMissing (js "nb")) (fun nb =>
      need (number_of (get_prop parsed (js "na"))) (ClaimsMissing (js "na")) (fun na =>
      need (Base64.b64decode epk) EpkNotBase64 (fun key =>
      if negb (length key =? 32)%nat then Throw EpkLength else
      let? cd := parse_cd parsed in
      Ok (mkClaims key nb na (number_of (get_prop parsed (js "ep")))
            (string_of (get_prop parsed (js "pf"))) (string_of (get_prop parsed (js "sc"))) cd))))))
  end.

Definition verifyCertChain `{CertPath} (certDer masterPubkey : bytes)
    : option (result chain_reason CertClaims) :=
  if negb (length masterPubkey =? 32)%nat then Some (Throw MasterLength)
  else match leyline_verify_cert_path certDer masterPubkey with
       | None => Some (Throw ChainFailed)
       | Some json => _parseClaimsJson json
       end.

(** [None] where [atob] throws on a key of the bundle. *)
Definition bundleMasterPubkeys (bundle : CaBundle.Bundle) : option (bytes * option bytes) :=
  active ← Base64.b64StdDecode (default [] (assoc (CaBundle.keyId bundle) (CaBundle.keys bundle)));
  match CaBundle.prevKeyId bundle with
  | Some k =>
      match assoc k (CaBundle.keys bundle) with
      | Some p => prev ← Base64.b64StdDecode p; Some (active, Some prev)
      | None => Some (active, None)
      end
  | None => Some (active, None)
  end.

(** [{ok, reason}]: a throw of the crypto layer is [ok: false] with a reason. *)
Definition verifyRequestSignature `{Ed25519} (key sig canonical : bytes) : bool * bool :=
  match ed25519_verify key sig canonical with
  | Some ok => (ok, false)
  | None => (false, true)
  end.

Definition certFingerprint `{Sha256} (certDer : bytes) : jsstr := toHex (sha256 certDer).

(** ** The pipeline *)

Inductive lease_message :=
  | MsgHeader (e : AuthHeaderError)
  | MsgSkew (skewMs : Z)
  | MsgNoMaster
  | MsgChain (r : chain_reason)
  | MsgMissingClaims
  | MsgEpoch (cert bundle : Z)
  | MsgWindow (nowSec nb na : Z)
  | MsgSignature (with_reason : bool)
  | MsgScope (certScope requested : jsstr)
  | MsgReplay
  | MsgAuthRequired
  | MsgCaUnavailable.

Record VerifyError := mkError { e_code : Z; e_message : lease_message }.

Record VerifiedLease := mkVerified {
  v_peerFp : jsstr;
  v_scope : jsstr;
  v_epoch : Z;
  v_certFp : jsstr;
  v_nonce : bytes;
  v_serverTs : Z;
  v_certDer : bytes;
  v_sig : bytes;
  v_confinementDigest : option bytes;
}.

(** The status [leaseErrorResponse] answers with. *)
Definition http_status (code : Z) : Z :=
  if code =? ERR_SCOPE_DENIED then 403
  else if (code =? ERR_CA_UNAVAILABLE) || (code =? ERR_EPOCH_MISMATCH) then 503
  else 401.

Inductive exn :=
  | AtobThrew
  | TypeErrorThrew
  | StoreUnreachable
  | TrustStoreThrew (e : TrustStore.exn).

Definition L (A : Type) : Type := M TrustStore.T exn A.

(** A call to the trust store, and its fate: the object's exception reaches the caller. *)
Definition on_store {A} (fate : rpc) (m : M TrustStore.T TrustStore.exn A) : L A :=
  remote StoreUnreachable fate (fun s => match m s with
                                         | (s', Ok a) => (s', Ok a)
                                         | (s', Throw e) => (s', Throw (TrustStoreThrew e))
                                         end).

Definition or_throw {A} (o : option A) (e : exn) : L A :=
  match o with Some a => ret a | None => throw e end.

(** The caller's part of the arguments; [env], [bundle] and [nowMs] come from the gate. *)
Record verify_args := mkArgs {
  a_req : Request;
  a_body : jsstr;
  a_method : option Json;
  a_params : option Json;
  a_requestedScope : option jsstr;
}.

Definition accepts (r : result exn (VerifyError + VerifiedLease)) : bool :=
  match r with Ok (inr _) => true | _ => false end.

Definition reject {A} (code : Z) (m : lease_message) : L (VerifyError + A) :=
  ret (inl (mkError code m)).

Section pipeline.
Context `{Sha256} `{Ed25519} `{CertPath} (on_trust : rpc).

(** Steps 2 and 3: the chain under the active key, or else under the previous one. *)
Definition chainVerdict (certDer active : bytes) (prev : option bytes)
    : L (result chain_reason CertClaims) :=
  let* chain := or_throw (verifyCertChain certDer active) TypeErrorThrew in
  match chain, prev with
  | Throw _, Some p => or_throw (verifyCertChain certDer p) TypeErrorThrew
  | _, _ => ret chain
  end.

(** Steps 8 and 9, and the answer. *)
Definition advanceAndAnswer (nowMs : Z) (h : ParsedAuthHeaders) (c : CertClaims)
    (epoch : Z) (peerFp scope : jsstr) : L (VerifyError + VerifiedLease) :=
  let certFp := certFingerprint (h_certDer h) in
  let nonceB64 := Base64.b64encode (h_nonce h) in
  let* result := on_store on_trust (TrustStore.verifyLeaseAndAdvanceChain
    (TrustStore.mkLease peerFp certFp nonceB64 nowMs)) in
  match result with
  | TrustStore.Replayed => reject ERR_REPLAY MsgReplay
  | TrustStore.Advanced _ _ =>
      ret (inr (mkVerified peerFp scope epoch certFp (h_nonce h) nowMs (h_certDer h)
                  (h_sig h) (confinementDigest c)))
  end.

Definition verifyAndUpsertLease (a : verify_args) (bundle : CaBundle.Bundle) (nowMs : Z)
    : L (VerifyError + VerifiedLease) :=
  match parseAuthHeaders (a_req a) with
  | Throw e => reject ERR_UNAUTHENTICATED (MsgHeader e)
  | Ok h =>
      let skewMs := Z.abs (nowMs - h_ts h) in
      if MAX_CLOCK_SKEW_MS <? skewMs then reject ERR_CLOCK_SKEW (MsgSkew skewMs) else
      let* '(active, prev) := or_throw (bundleMasterPubkeys bundle) AtobThrew in
      if (length active =? 0)%nat then reject ERR_CA_UNAVAILABLE MsgNoMaster else
      let* chain := chainVerdict (h_certDer h) active prev in
      match chain with
      | Throw r => reject ERR_UNAUTHENTICATED (MsgChain r)
      | Ok claims =>
          match cl_epoch claims, cl_peerFp claims, cl_scope claims with
          | Some epoch, Some peerFp, Some scope =>
              if negb (CaBundle.isCertEpochCurrent epoch bundle)
              then reject ERR_EPOCH_MISMATCH (MsgEpoch epoch (CaBundle.epoch bundle)) else
              let nowSec := nowMs / 1000 in
              if (nowSec <? notBefore claims) || (notAfter claims <? nowSec)
              then reject ERR_UNAUTHENTICATED (MsgWindow nowSec (notBefore claims) (notAfter claims)) else
              let canonical := canonicalRequestBytes (r_method (a_req a)) (r_url (a_req a))
                                 (h_ts h) (h_nonce h) (a_body a) in
              let '(ok, reason) := verifyRequestSignature (ephemeralPubkey claims) (h_sig h) canonical in
              if negb ok then reject ERR_BAD_REQUEST_SIG (MsgSignature reason) else
              let* requestedScope := match a_requestedScope a with
                                     | Some r => ret r
                                     | None => or_throw (deriveRequestScope (a_method a) (a_params a))
                                                 TypeErrorThrew
                                     end in
              if negb (scopeAllows scope requestedScope)
              then reject ERR_SCOPE_DENIED (MsgScope scope requestedScope) else
              advanceAndAnswer nowMs h claims epoch peerFp scope
          | _, _, _ => reject ERR_UNAUTHENTICATED MsgMissingClaims
          end
      end
  end.

End pipeline.

(** ** The gate *)

Inductive GateVerdict :=
  | G_off
  | G_pass (lease : VerifiedLease)
  | G_reject (code : Z) (message : lease_message).

(** The isolate's bundle cache beside the trust store. *)
Record world := mkWorld { w_cache : CaBundle.Cache; w_store : TrustStore.T }.

Section gate.
Context `{Sha256} `{Ed25519} `{CertPath} `{CaBundle.CborX} (on_trust : rpc).

Definition gateAndVerify (env : CaBundle.Env) (nowMs clock : Z) (notme : CaBundle.reply)
    (verify : verify_args) (denyWhenOff : bool) : M world exn GateVerdict :=
  fun w =>
    if negb (CaBundle.leaseEnforced env) then
      (w, Ok (if denyWhenOff then G_reject ERR_UNAUTHENTICATED MsgAuthRequired else G_off))
    else
      let '(cache, r) := CaBundle.resolveCABundle env nowMs clock notme (w_cache w) in
      match r with
      | Throw (CaBundle.CaUnavailableError _) =>
          (mkWorld cache (w_store w), Ok (G_reject ERR_CA_UNAVAILABLE MsgCaUnavailable))
      | Ok bundle =>
          let '(store, v) := verifyAndUpsertLease on_trust verify bundle nowMs (w_store w) in
          (mkWorld cache store,
           match v with
           | Ok (inl e) => Ok (G_reject (e_code e) (e_message e))
           | Ok (inr lease) => Ok (G_pass lease)
           | Throw e => Throw e
           end)
      end.

End gate.


(** ** Scopes *)

Lemma scopeAllows_iff c r :
  scopeAllows c r = true <->
  c = js "*" \/ c = r \/ exists p t, c = p ++ js ":*" /\ r = p ++ js ":" ++ t.
Proof.
  unfold scopeAllows. case_bool_decide as E1; [by split; auto|].
  case_bool_decide as E2; [by split; auto|].
  assert (Ht : forall p, take (length (p ++ js ":*") - 1) (p ++ js ":*") = p ++ js ":").
  { intros p. change (js ":*") with (js ":" ++ js "*"). rewrite app_assoc, length_app.
    replace (_ - 1)%nat with (length (p ++ js ":")) by (simpl; lia). by rewrite take_app_length. }
  split.
  - destruct (ends_with (js ":*") c) eqn:E3; [|done].
    apply ends_with_iff in E3 as [p ->]. rewrite Ht. intros [t ->]%starts_with_iff.
    right; right. exists p, t. by rewrite app_assoc.
  - intros [?|[?|(p & t & -> & ->)]]; [done..|].
    rewrite (proj2 (ends_with_iff _ _)) by by exists p. rewrite Ht.
    apply starts_with_iff. exists t. by rewrite app_assoc.
Qed.

(** ** The signed bytes determine the request *)

Lemma no_LF (P : Z -> Prop) s : Forall P s -> ~ P LF -> LF ∉ s.
Proof. rewrite Forall_forall. auto. Qed.

Lemma LF_js_dec z : LF ∉ js_dec z.
Proof. eapply no_LF; [apply js_dec_units|]. unfold dec_unit, LF. lia. Qed.

Lemma LF_b64 n : LF ∉ Base64.b64encode n.
Proof. eapply no_LF; [apply Base64.b64encode_units|]. unfold LF. lia. Qed.

Lemma b64_ascii n : is_ascii (Base64.b64encode n).
Proof. unfold is_ascii. eapply Forall_impl; [apply Base64.b64encode_units|]. simpl. lia. Qed.

Lemma canonical_text_well_formed m u ts n b :
  well_formed m = true -> well_formed u = true -> well_formed b = true ->
  well_formed (m ++ [LF] ++ u ++ [LF] ++ js_dec ts ++ [LF] ++ Base64.b64encode n ++ [LF] ++ b) = true.
Proof.
  intros. repeat apply well_formed_app; try done; apply ascii_well_formed;
    auto using js_dec_ascii, b64_ascii.
Qed.

Lemma canonicalRequestBytes_inj m u ts n b m' u' ts' n' b' :
  well_formed m = true -> well_formed u = true -> well_formed b = true ->
  well_formed m' = true -> well_formed u' = true -> well_formed b' = true ->
  LF ∉ m -> LF ∉ u -> LF ∉ m' -> LF ∉ u' ->
  canonicalRequestBytes m u ts n b = canonicalRequestBytes m' u' ts' n' b' ->
  m = m' /\ u = u' /\ ts = ts' /\ n = n' /\ b = b'.
Proof.
  intros Wm Wu Wb Wm' Wu' Wb' Lm Lu Lm' Lu' E. unfold canonicalRequestBytes in E.
  apply utf8_encode_inj in E; [|by apply canonical_text_well_formed ..]. cbn [app] in E.
  apply app_sep_inj in E as [-> E]; [|done..].
  apply app_sep_inj in E as [-> E]; [|done..].
  apply app_sep_inj in E as [E1 E]; [|apply LF_js_dec ..].
  apply app_sep_inj in E as [E2 ->]; [|apply LF_b64 ..].
  apply (inj js_dec) in E1 as ->. apply (inj Base64.b64encode) in E2 as ->. done.
Qed.

(** ** The pipeline *)

Section facts.
Context `{Sha256} `{Ed25519} `{CertPath}.
Implicit Types (a : verify_args) (s : TrustStore.T) (h : ParsedAuthHeaders) (c : CertClaims).

(** What the chain step of the pipeline accepts. *)
Definition chain_accepts (bundle : CaBundle.Bundle) (certDer : bytes) c : Prop :=
  exists active prev, bundleMasterPubkeys bundle = Some (active, prev) /\ active <> [] /\
    (verifyCertChain certDer active = Some (Ok c) \/
     exists r p, verifyCertChain certDer active = Some (Throw r) /\ prev = Some p /\
                 verifyCertChain certDer p = Some (Ok c)).

(** Everything the pipeline checks before it touches the trust store. *)
Record admissible a (bundle : CaBundle.Bundle) (nowMs : Z) h c
    (epoch : Z) (peerFp scope : jsstr) : Prop := {
  adm_headers : parseAuthHeaders (a_req a) = Ok h;
  adm_skew : Z.abs (nowMs - h_ts h) <= MAX_CLOCK_SKEW_MS;
  adm_chain : chain_accepts bundle (h_certDer h) c;
  adm_claims : cl_epoch c = Some epoch /\ cl_peerFp c = Some peerFp /\ cl_scope c = Some scope;
  adm_epoch : CaBundle.isCertEpochCurrent epoch bundle = true;
  adm_window : notBefore c <= nowMs / 1000 <= notAfter c;
  adm_signature : ed25519_verify (ephemeralPubkey c) (h_sig h)
    (canonicalRequestBytes (r_method (a_req a)) (r_url (a_req a)) (h_ts h) (h_nonce h) (a_body a))
    = Some true;
  adm_scope : exists r, scopeAllows scope r = true /\
    match a_requestedScope a with
    | Some r' => r = r'
    | None => deriveRequestScope (a_method a) (a_params a) = Some r
    end;
}.

Definition lease_of h c (nowMs epoch : Z) (peerFp scope : jsstr) : VerifiedLease :=
  mkVerified peerFp scope epoch (certFingerprint (h_certDer h)) (h_nonce h) nowMs (h_certDer h)
    (h_sig h) (confinementDigest c).

Definition call_of h (nowMs : Z) (peerFp : jsstr) : TrustStore.lease_args :=
  TrustStore.mkLease peerFp (certFingerprint (h_certDer h)) (Base64.b64encode (h_nonce h)) nowMs.

Lemma chainVerdict_ok certDer active prev c s :
  chainVerdict certDer active prev s = (s, Ok (Ok c)) <->
  verifyCertChain certDer active = Some (Ok c) \/
  exists r p, verifyCertChain certDer active = Some (Throw r) /\ prev = Some p /\
              verifyCertChain certDer p = Some (Ok c).
Proof.
  unfold chainVerdict, or_throw. destruct (verifyCertChain certDer active) as [[c'|r]|]; mrun.
  - split; [intros [= ->]; by left|]. intros [[= ->]|(? & ? & ? & _)]; done.
  - destruct prev as [p|]; [|split; [done|]; by intros [?|(? & ? & _ & ? & _)]].
    destruct (verifyCertChain certDer p) as [x|] eqn:Ep; mrun.
    + split; [intros [= ->]; right; eauto|].
      intros [?|(? & ? & _ & [= <-] & E)]; [done|]. rewrite Ep in E. by injection E as ->.
    + split; [done|]. intros [?|(? & ? & _ & [= <-] & E)]; [done|]. by rewrite Ep in E.
  - split; [done|]. by intros [?|(? & ? & ? & _)].
Qed.

Lemma chainVerdict_state certDer active prev s : (chainVerdict certDer active prev s).1 = s.
Proof.
  unfold chainVerdict, or_throw. destruct (verifyCertChain certDer active) as [[c'|r]|]; mrun; try done.
  destruct prev as [p|]; [|done]. by destruct (verifyCertChain certDer p).
Qed.

(** What the call leaves in the store. *)
Lemma advance_spec nowMs h c epoch peerFp scope s :
  exists st,
    let call := call_of h nowMs peerFp in
    let seen := TrustStore.seen_nonces s !! TrustStore.nonce_key call in
    let after := match seen with Some _ => s | None => TrustStore.advanced call st s end in
    TrustStore.verifyLeaseAndAdvanceChain call s = (after, Ok match seen with
      | Some _ => TrustStore.Replayed
      | None => TrustStore.Advanced (LeaseCounters.step_seq st) (LeaseCounters.step_hash st)
      end) /\
    forall on_trust, advanceAndAnswer on_trust nowMs h c epoch peerFp scope s =
      match on_trust with
      | Delivered => (after, Ok match seen with
                             | Some _ => inl (mkError ERR_REPLAY MsgReplay)
                             | None => inr (lease_of h c nowMs epoch peerFp scope)
                             end)
      | CallLost => (s, Throw StoreUnreachable)
      | ReplyLost => (after, Throw StoreUnreachable)
      end.
Proof.
  destruct (TrustStore.verify_spec (call_of h nowMs peerFp) s) as [st E]. exists st. cbv zeta.
  split; [rewrite E; by destruct (TrustStore.seen_nonces s !! _)|]. intros on_trust.
  unfold advanceAndAnswer, on_store, remote, bind. unfold call_of in E. rewrite E. unfold call_of. cbv zeta.
  by destruct on_trust, (TrustStore.seen_nonces s !! _).
Qed.

(** The pipeline either stops before the store with the state as it was, or every
    check passed and it ends in the store's answer. *)
Lemma pipeline_cases fate a bundle nowMs s :
  (exists r, verifyAndUpsertLease fate a bundle nowMs s = (s, r) /\ forall l, r <> Ok (inr l)) \/
  (exists h c epoch peerFp scope, admissible a bundle nowMs h c epoch peerFp scope /\
     verifyAndUpsertLease fate a bundle nowMs s = advanceAndAnswer fate nowMs h c epoch peerFp scope s).
Proof.
  destruct (verifyAndUpsertLease fate a bundle nowMs s) as [s' r] eqn:E.
  assert (Hstop : forall x, (s, x) = (s', r) -> (forall l, x <> Ok (inr l)) -> exists r0,
    (s', r) = (s, r0) /\ forall l, r0 <> Ok (inr l)) by eauto.
  unfold verifyAndUpsertLease, reject in E.
  destruct (parseAuthHeaders (a_req a)) as [h|e] eqn:Eh; [|left; eapply Hstop; [exact E|done]].
  cbv zeta in E. destruct (Z.ltb_spec MAX_CLOCK_SKEW_MS (Z.abs (nowMs - h_ts h))) as [?|Hsk];
    [left; eapply Hstop; [exact E|done]|].
  unfold bind at 1 in E. unfold or_throw at 1 in E.
  destruct (bundleMasterPubkeys bundle) as [[active prev]|] eqn:Ek; [|left; eapply Hstop; [exact E|done]].
  unfold ret at 1 in E. destruct (Nat.eqb_spec (length active) 0) as [?|Ha]; [left; eapply Hstop; [exact E|done]|].
  unfold bind at 1 in E. pose proof (chainVerdict_state (h_certDer h) active prev s) as Es.
  destruct (chainVerdict (h_certDer h) active prev s) as [s0 [[c|r0]|e]] eqn:Ec; simpl in Es; subst s0;
    [|left; eapply Hstop; [exact E|done]..].
  apply chainVerdict_ok in Ec.
  destruct (cl_epoch c) as [epoch|] eqn:E1; [|left; eapply Hstop; [exact E|done]].
  destruct (cl_peerFp c) as [peerFp|] eqn:E2; [|left; eapply Hstop; [exact E|done]].
  destruct (cl_scope c) as [scope|] eqn:E3; [|left; eapply Hstop; [exact E|done]].
  destruct (CaBundle.isCertEpochCurrent epoch bundle) eqn:Ee; [|left; eapply Hstop; [exact E|done]].
  cbn [negb] in E. destruct (Z.ltb_spec (nowMs / 1000) (notBefore c)) as [?|Hb]; [left; eapply Hstop; [exact E|done]|].
  destruct (Z.ltb_spec (notAfter c) (nowMs / 1000)) as [?|Hna]; [left; eapply Hstop; [exact E|done]|].
  cbn [orb] in E. unfold verifyRequestSignature in E.
  destruct (ed25519_verify _ _ _) as [[|]|] eqn:Eg; [|left; eapply Hstop; [exact E|done]..]. cbn [negb] in E.
  unfold bind at 1 in E.
  assert (Hadm : forall r0, scopeAllows scope r0 = true ->
    match a_requestedScope a with
    | Some r' => r0 = r' | None => deriveRequestScope (a_method a) (a_params a) = Some r0 end ->
    admissible a bundle nowMs h c epoch peerFp scope).
  { intros r0 Hr1 Hr2. constructor; eauto. exists active, prev.
    split; [done|]. split; [by intros -> | done]. }
  destruct (a_requestedScope a) as [r0|].
  - unfold ret at 1 in E. destruct (scopeAllows scope r0) eqn:Er; [|left; eapply Hstop; [exact E|done]].
    right. exists h, c, epoch, peerFp, scope. split; [by eapply Hadm|done].
  - unfold or_throw at 1 in E.
    destruct (deriveRequestScope (a_method a) (a_params a)) as [r0|]; [|left; eapply Hstop; [exact E|done]].
    unfold ret at 1 in E. destruct (scopeAllows scope r0) eqn:Er; [|left; eapply Hstop; [exact E|done]].
    right. exists h, c, epoch, peerFp, scope. split; [by eapply Hadm|done].
Qed.

(** The pipeline's steps agree with [admissible], which fixes its data. *)
Lemma admissible_run fate a bundle nowMs s h c epoch peerFp scope :
  admissible a bundle nowMs h c epoch peerFp scope ->
  verifyAndUpsertLease fate a bundle nowMs s = advanceAndAnswer fate nowMs h c epoch peerFp scope s.
Proof.
  intros [Hh Hsk (active & prev & Hk & Ha & Hc) (E1 & E2 & E3) He [Hb Hna] Hg (r & Hr & Hq)].
  unfold verifyAndUpsertLease. rewrite Hh. cbv zeta.
  rewrite (proj2 (Z.ltb_ge _ _)) by lia. rewrite Hk. unfold bind at 1. unfold or_throw at 1, ret at 1.
  rewrite (proj2 (Nat.eqb_neq _ _)) by (by destruct active).
  unfold bind at 1. pose proof (proj2 (chainVerdict_ok (h_certDer h) active prev c s) Hc) as ->.
  rewrite E1, E2, E3, He. cbn [negb]. rewrite !(proj2 (Z.ltb_ge _ _)) by lia. cbn [orb].
  unfold verifyRequestSignature. rewrite Hg. cbn [negb].
  unfold bind at 1. destruct (a_requestedScope a) as [r'|]; [subst r'|rewrite Hq];
    unfold or_throw, ret at 1; by rewrite Hr.
Qed.

(** An accepted request passed every check, its pair was new, and the store has
    recorded it. *)
Lemma lease_data fate a bundle nowMs h s s' lease :
  verifyAndUpsertLease fate a bundle nowMs s = (s', Ok (inr lease)) -> parseAuthHeaders (a_req a) = Ok h ->
  exists c epoch peerFp scope st, admissible a bundle nowMs h c epoch peerFp scope /\
    TrustStore.seen_nonces s !! TrustStore.nonce_key (call_of h nowMs peerFp) = None /\
    s' = TrustStore.advanced (call_of h nowMs peerFp) st s.
Proof.
  intros E Hh. destruct (pipeline_cases fate a bundle nowMs s) as [(r & Er & Hr)|(h1 & c & ep & pf & sc & Ha & Er)];
    rewrite Er in E; [injection E as _ ->; by destruct (Hr lease)|].
  pose proof (adm_headers _ _ _ _ _ _ _ _ Ha) as Hh1. rewrite Hh in Hh1. injection Hh1 as <-.
  destruct (advance_spec nowMs h c ep pf sc s) as [st [_ Hs]]. rewrite Hs in E. destruct fate; [|done..].
  destruct (TrustStore.seen_nonces s !! _) eqn:En; [done|]. injection E as <- _. by exists c, ep, pf, sc, st.
Qed.

(** The store is as it was, or has recorded one request. *)
Lemma verify_store fate a bundle nowMs s :
  let s' := (verifyAndUpsertLease fate a bundle nowMs s).1 in
  s' = s \/ exists call st, s' = TrustStore.advanced call st s.
Proof.
  cbv zeta. destruct (pipeline_cases fate a bundle nowMs s) as [(r & -> & _)|(h & c & ep & pf & sc & _ & ->)]; [by left|].
  destruct (advance_spec nowMs h c ep pf sc s) as [st [_ ->]].
  destruct fate; cbn [fst]; [|by left|]; (destruct (TrustStore.seen_nonces s !! _); [by left|right; by eexists _, _]).
Qed.

(** Without a lease the store is as it was, unless the store's reply was lost. *)
Lemma verify_keeps fate a bundle nowMs s s' r :
  verifyAndUpsertLease fate a bundle nowMs s = (s', r) -> (forall l, r <> Ok (inr l)) -> fate <> ReplyLost -> s' = s.
Proof.
  intros E Hn Hf. destruct (pipeline_cases fate a bundle nowMs s) as [(r' & Er & _)|(h & c & ep & pf & sc & _ & Er)];
    rewrite Er in E; [by injection E|].
  destruct (advance_spec nowMs h c ep pf sc s) as [st [_ Hs]]. rewrite Hs in E. destruct fate; [|by injection E|done].
  destruct (TrustStore.seen_nonces s !! _); injection E as <- <-; [done|]. by destruct (Hn _ eq_refl).
Qed.

(** ** Properties *)

(** C1: the pipeline accepts exactly the requests that pass all of its checks, and
    touches the trust store only then.  A lease is returned exactly when the call to
    the store and its reply arrive, the headers parse, the clock skew is within
    bounds, the certificate verifies under the active or the previous master key, its
    claims are complete, current and in their window, the signature over this
    request's canonical bytes verifies under the certificate's key, the certificate's
    scope grants the requested one, and the (certificate, nonce) pair is new; then the
    store has recorded the pair and advanced the peer's chain, and the lease carries
    the certificate's claims.  On every other outcome, rejection or exception, the
    store is unchanged, with one exception: when a request that passes every check is
    recorded and only the store's reply is lost, the pipeline throws. *)
Theorem lease_accepted_iff fate a bundle nowMs s s' lease :
  (verifyAndUpsertLease fate a bundle nowMs s = (s', Ok (inr lease)) <->
   fate = Delivered /\ exists h c epoch peerFp scope seq hash,
     admissible a bundle nowMs h c epoch peerFp scope /\
     TrustStore.verifyLeaseAndAdvanceChain (call_of h nowMs peerFp) s
       = (s', Ok (TrustStore.Advanced seq hash)) /\
     lease = lease_of h c nowMs epoch peerFp scope) /\
  let run := verifyAndUpsertLease fate a bundle nowMs s in
  ((forall l, run.2 <> Ok (inr l)) ->
   run.1 = s \/
   fate = ReplyLost /\ run.2 = Throw StoreUnreachable /\ exists h c epoch peerFp scope seq hash,
     admissible a bundle nowMs h c epoch peerFp scope /\
     TrustStore.verifyLeaseAndAdvanceChain (call_of h nowMs peerFp) s
       = (run.1, Ok (TrustStore.Advanced seq hash))).
Proof.
  cbv zeta. split; [split|].
  - destruct (pipeline_cases fate a bundle nowMs s) as [(r & -> & Hr)|(h & c & ep & pf & sc & Ha & ->)];
      [intros [= _ ->]; by destruct (Hr lease)|].
    destruct (advance_spec nowMs h c ep pf sc s) as [st [E Hs]]. rewrite Hs. cbv zeta in E. destruct fate; [|done..].
    intros [= <- Hl]. split; [done|]. destruct (TrustStore.seen_nonces s !! _); [done|]. injection Hl as <-.
    exists h, c, ep, pf, sc. by eexists _, _.
  - intros (-> & h & c & ep & pf & sc & q & x & Ha & E & ->). rewrite (admissible_run _ _ _ _ _ _ _ _ _ _ Ha).
    destruct (advance_spec nowMs h c ep pf sc s) as [st [E' ->]]. rewrite E in E'. cbv zeta.
    destruct (TrustStore.seen_nonces s !! _); [done|]. by injection E' as -> _ _.
  - destruct (pipeline_cases fate a bundle nowMs s) as [(r & -> & Hr)|(h & c & ep & pf & sc & Ha & ->)]; [by left|].
    destruct (advance_spec nowMs h c ep pf sc s) as [st [E Hs]]. rewrite Hs. cbv zeta in E |- *.
    destruct fate; cbn [fst snd]; [|by left|]; intros Hn; (destruct (TrustStore.seen_nonces s !! _); [by left|]); [by destruct (Hn _ eq_refl)|].
    right. split; [done|]. split; [done|]. exists h, c, ep, pf, sc. by eexists _, _.
Qed.

(** C2: an accepted envelope is accepted once and for all.  Take a request that was
    accepted at [now], any run of the trust store's writing methods, its alarms and
    its restarts, in which no sweep's clock is ahead of [now'] and no explicit prune
    asks for a cutoff within the retention hour before [now'], and at a later [now']
    any request, under any bundle, whose headers carry the same certificate, nonce and
    timestamp: it is not accepted.  Within the retention hour the ledger still has the
    pair; after it the timestamp is outside the tolerated skew.  (A prune with a later
    cutoff does reopen the envelope: [prune_reopens_the_envelope].) *)
Theorem envelope_accepted_once fate fate' a a' bundle bundle' now now' h h' s s1 lease ops :
  verifyAndUpsertLease fate a bundle now s = (s1, Ok (inr lease)) ->
  parseAuthHeaders (a_req a) = Ok h -> parseAuthHeaders (a_req a') = Ok h' ->
  h_certDer h' = h_certDer h -> h_nonce h' = h_nonce h -> h_ts h' = h_ts h ->
  Forall (fun o => match TrustStore.cutoff o with
                   | Some before => before <= now' - TrustStore.SEEN_NONCES_RETENTION_MS
                   | None => True
                   end) ops ->
  accepts (verifyAndUpsertLease fate' a' bundle' now' (foldl (fun s o => TrustStore.run_op o s) s1 ops)).2
    = false.
Proof.
  intros E Hh Hh' Ec En Et Hops.
  apply (lease_data _ _ _ _ h) in E as (c & ep & pf & sc & st & Ha & _ & ->); [|exact Hh].
  destruct (verifyAndUpsertLease fate' a' _ _ _) as [s2 [[x|lease']|x]] eqn:E'; [done| |done]. exfalso.
  apply (lease_data _ _ _ _ h') in E' as (c' & ep' & pf' & sc' & st' & Ha' & Hn & _); [|exact Hh'].
  destruct (decide (now' <= now + TrustStore.SEEN_NONCES_RETENTION_MS)) as [Hle|Hgt].
  - change (TrustStore.nonce_key (call_of h' now' pf')) with
      (certFingerprint (h_certDer h'), Base64.b64encode (h_nonce h')) in Hn.
    rewrite (TrustStore.run_ops_nonce ops _ (certFingerprint (h_certDer h'))
      (Base64.b64encode (h_nonce h')) now) in Hn; [done| |].
    + eapply Forall_impl; [exact Hops|]. intros o. unfold TrustStore.sweeps_before. destruct (TrustStore.cutoff o); [lia|done].
    + rewrite Ec, En. apply lookup_insert_eq.
  - pose proof (adm_skew _ _ _ _ _ _ _ _ Ha) as Hk. pose proof (adm_skew _ _ _ _ _ _ _ _ Ha') as Hk'.
    rewrite Et in Hk'. unfold MAX_CLOCK_SKEW_MS, TrustStore.SEEN_NONCES_RETENTION_MS in *. lia.
Qed.

(** The signed bytes determine the request.  For methods and URLs without line
    feeds, and strings without lone surrogates, two requests with the same canonical
    bytes have the same method, URL, timestamp, nonce and body: no field can be moved
    into its neighbour under one signature. *)
Theorem canonical_bytes_bind m u ts n b m' u' ts' n' b' :
  forallb well_formed [m; u; b; m'; u'; b'] = true ->
  LF ∉ m -> LF ∉ u -> LF ∉ m' -> LF ∉ u' ->
  canonicalRequestBytes m u ts n b = canonicalRequestBytes m' u' ts' n' b' ->
  m = m' /\ u = u' /\ ts = ts' /\ n = n' /\ b = b'.
Proof.
  cbn [forallb]. rewrite !andb_true_iff. intros (? & ? & ? & ? & ? & ? & _) ????.
  by apply canonicalRequestBytes_inj.
Qed.

(** What a certificate scope grants.  [scopeAllows] holds exactly for the
    wildcard, for the identical scope, and for a scope [p:*] against any requested
    scope that starts with [p:]; and a [tools/call] by name alone asks for [name:*],
    with a repository for [name:repo]. *)
Theorem scope_grammar cert requested :
  (scopeAllows cert requested = true <->
   cert = js "*" \/ cert = requested \/
   exists p t, cert = p ++ js ":*" /\ requested = p ++ js ":" ++ t) /\
  (forall name repo, name <> [] -> repo <> [] ->
   deriveRequestScope (Some (JStr (js "tools/call")))
     (Some (JObj [(js "name", JStr name); (js "arguments", JObj [(js "repo", JStr repo)])]))
     = Some (name ++ js ":" ++ repo) /\
   deriveRequestScope (Some (JStr (js "tools/call"))) (Some (JObj [(js "name", JStr name)]))
     = Some (name ++ js ":*")).
Proof.
  split; [apply scopeAllows_iff|]. intros name repo Hn Hr.
  destruct name as [|x name], repo as [|y repo]; done.
Qed.

End facts.

(** Two different calls have one scope: a tool named [tools] called for the
    repository [list] asks for what [tools/list] asks for, and a certificate for all
    repositories of the tool [a] grants the tool named [a:b]. *)
Lemma scope_collision :
  deriveRequestScope (Some (JStr (js "tools/call")))
    (Some (JObj [(js "name", JStr (js "tools")); (js "arguments", JObj [(js "repo", JStr (js "list"))])]))
    = deriveRequestScope (Some (JStr (js "tools/list"))) None /\
  (exists r, deriveRequestScope (Some (JStr (js "tools/call"))) (Some (JObj [(js "name", JStr (js "a:b"))])) = Some r /\
     scopeAllows (js "a:*") r = true).
Proof. split; [reflexivity|]. eexists. split; [reflexivity|]. reflexivity. Qed.

Section gate_facts.
Context `{Sha256} `{Ed25519} `{CertPath} `{CaBundle.CborX}.

(** The gate's verdicts.  [G_off] is answered only where the gate is not enforced
    and the route does not deny; a pass means the pipeline accepted the request under
    the bundle the gate resolved; with the gate enforced and no bundle the answer is a
    rejection; and unless the verdict is a pass, or the store's reply is lost, the trust
    store is unchanged. *)
Theorem gate_verdicts fate env nowMs clock notme a deny w w' r :
  gateAndVerify fate env nowMs clock notme a deny w = (w', r) ->
  (r = Ok G_off -> CaBundle.leaseEnforced env = false /\ deny = false) /\
  (forall lease, r = Ok (G_pass lease) ->
     CaBundle.leaseEnforced env = true /\
     exists bundle, (CaBundle.resolveCABundle env nowMs clock notme (w_cache w)).2 = Ok bundle /\
       verifyAndUpsertLease fate a bundle nowMs (w_store w) = (w_store w', Ok (inr lease))) /\
  (CaBundle.leaseEnforced env = true ->
     (forall b, (CaBundle.resolveCABundle env nowMs clock notme (w_cache w)).2 <> Ok b) ->
     r = Ok (G_reject ERR_CA_UNAVAILABLE MsgCaUnavailable)) /\
  ((forall lease, r <> Ok (G_pass lease)) -> fate <> ReplyLost -> w_store w' = w_store w).
Proof.
  unfold gateAndVerify. destruct (CaBundle.leaseEnforced env); cbn [negb].
  2:{ intros [= <- <-]. destruct deny; repeat split; done. }
  destruct (CaBundle.resolveCABundle env nowMs clock notme (w_cache w)) as [cache [b|[m]]] eqn:Er.
  2:{ intros [= <- <-]. repeat split; done. }
  destruct (verifyAndUpsertLease fate a b nowMs (w_store w)) as [store v] eqn:Ev. intros [= <- <-].
  split; [by destruct v as [[?|?]|?]|]. split; [|split].
  - intros lease El. split; [done|]. exists b. split; [done|].
    destruct v as [[?|?]|?]; simplify_eq. exact Ev.
  - intros _ Hb. by destruct (Hb b).
  - intros Hn Hf. assert (Hs : forall l, v <> Ok (inr l)) by (intros l ->; by destruct (Hn l)).
    cbn [w_store]. by apply (verify_keeps fate a b nowMs (w_store w) store v).
Qed.

End gate_facts.

(** ** A closed example *)

Definition demo_key : bytes := replicate 32 Corelib.Init.Byte.x07.
Definition demo_claims : Json :=
  JObj [(js "epk", JStr (Base64.b64encode demo_key)); (js "nb", JNum 0); (js "na", JNum 100);
        (js "ep", JNum 3); (js "pf", JStr (js "peer")); (js "sc", JStr (js "bead_list:*"))].
Definition demo_certpath : CertPath := fun _ _ => Some (Some demo_claims).
Definition demo_bundle : CaBundle.Bundle :=
  CaBundle.mkBundle 3 1 [(js "k", Base64.btoa demo_key)] (js "k") None 0 [].
Definition demo_nonce : bytes := [Corelib.Init.Byte.x41; Corelib.Init.Byte.x42].
Definition demo_sig : bytes :=
  demo_key ++ @sha256 demo_sha256
    (canonicalRequestBytes (js "POST") (js "https://c/mcp") 5000 demo_nonce (js "{}")).
Definition demo_request : Request :=
  mkRequest (js "POST") (js "https://c/mcp") (fun name =>
    if decide (name = js "authorization") then Some (js "Signet QQ")
    else if decide (name = js "x-signet-sig") then Some (Base64.b64encode demo_sig)
    else if decide (name = js "x-signet-ts") then Some (js "5000")
    else if decide (name = js "x-signet-nonce") then Some (Base64.b64encode demo_nonce)
    else None).
Definition demo_args : verify_args :=
  mkArgs demo_request (js "{}") (Some (JStr (js "tools/call"))) (Some (JObj [(js "name", JStr (js "bead_list"))])) None.
Definition demo_verify (now : Z) (s : TrustStore.T) :=
  @verifyAndUpsertLease demo_sha256 demo_ed25519 demo_certpath Delivered demo_args demo_bundle now s.
Definition demo_state : TrustStore.T := (demo_verify 6000 TrustStore.empty).1.
Definition demo_lease : VerifiedLease :=
  mkVerified (js "peer") (js "bead_list:*") 3
    (@certFingerprint demo_sha256 [Corelib.Init.Byte.x41]) demo_nonce 6000 [Corelib.Init.Byte.x41]
    demo_sig None.

Lemma envelope_accepted_once_witness :
  accepts (demo_verify 7000 (@TrustStore.run_op demo_sha256
    (TrustStore.op_alarm (TrustStore.mkSweepFaults false false false) 6500 6600) demo_state)).2 = false.
Proof.
  apply (@envelope_accepted_once demo_sha256 demo_ed25519 demo_certpath Delivered Delivered demo_args demo_args
    demo_bundle demo_bundle 6000 7000
    (mkHeaders [Corelib.Init.Byte.x41] demo_sig 5000 demo_nonce)
    (mkHeaders [Corelib.Init.Byte.x41] demo_sig 5000 demo_nonce)
    TrustStore.empty demo_state demo_lease
    [TrustStore.op_alarm (TrustStore.mkSweepFaults false false false) 6500 6600]).
  - apply pair_snd. vm_compute. reflexivity.
  - vm_compute. reflexivity.
  - vm_compute. reflexivity.
  - reflexivity.
  - reflexivity.
  - reflexivity.
  - constructor; [vm_compute; discriminate|constructor].
Defined.

(** The method that prunes takes any cutoff: with one after the request, the same
    envelope is accepted a second time. *)
Example prune_reopens_the_envelope :
  accepts (demo_verify 7000 (@TrustStore.run_op demo_sha256
    (TrustStore.op_prune (TrustStore.mkSweepFaults false false false) 6500) demo_state)).2 = true.
Proof. vm_compute. reflexivity. Qed.

(** When the reply of the store is lost the caller gets no lease, the envelope is
    spent, and its retry is a replay. *)
Example lost_reply_spends_the_envelope :
  let '(s, r) := @verifyAndUpsertLease demo_sha256 demo_ed25519 demo_certpath ReplyLost demo_args demo_bundle 6000 TrustStore.empty in
  r = Throw StoreUnreachable /\ (demo_verify 6000 s).2 = Ok (inl (mkError ERR_REPLAY MsgReplay)).
Proof. vm_compute. done. Qed.

Lemma canonical_bytes_bind_witness :
  js "POST" = js "POST" /\ js "/mcp" = js "/mcp" /\ 5 = 5 /\ demo_nonce = demo_nonce /\ [LF] = [LF].
Proof.
  apply canonical_bytes_bind; try reflexivity; apply (bool_decide_unpack _); vm_compute; exact I.
Defined.

Lemma gate_verdicts_witness :
  let env := CaBundle.mkEnv None None None None in
  let w := mkWorld None TrustStore.empty in
  let r := Ok (E := exn) (G_reject ERR_CA_UNAVAILABLE MsgCaUnavailable) in
  (r = Ok G_off -> CaBundle.leaseEnforced env = false /\ false = false) /\
  (forall lease, r = Ok (G_pass lease) ->
     CaBundle.leaseEnforced env = true /\
     exists bundle, (@CaBundle.resolveCABundle CaBundle.demo_cborx demo_ed25519 env 0 0
                       CaBundle.NetworkThrew (w_cache w)).2 = Ok bundle /\
       @verifyAndUpsertLease demo_sha256 demo_ed25519 demo_certpath Delivered demo_args bundle 0 (w_store w)
         = (w_store w, Ok (inr lease))) /\
  (CaBundle.leaseEnforced env = true ->
     (forall b, (@CaBundle.resolveCABundle CaBundle.demo_cborx demo_ed25519 env 0 0
                   CaBundle.NetworkThrew (w_cache w)).2 <> Ok b) ->
     r = Ok (G_reject ERR_CA_UNAVAILABLE MsgCaUnavailable)) /\
  ((forall lease, r <> Ok (G_pass lease)) -> Delivered <> ReplyLost -> w_store w = w_store w).
Proof.
  apply (@gate_verdicts demo_sha256 demo_ed25519 demo_certpath CaBundle.demo_cborx Delivered
    (CaBundle.mkEnv None None None None) 0 0 CaBundle.NetworkThrew demo_args false
    (mkWorld None TrustStore.empty) (mkWorld None TrustStore.empty)).
  reflexivity.
Defined.

End Lease.
