(* ===== verification/ReceiptWire.v ===== *)
(** Signed receipts on the wire (src/wire/receipts.ts): the commitments, their canonical bytes,
    the envelopes and their strict decoders, and signing.

    The encoder and decoder below them are [ReceiptsCbor].  SHA-256 and Ed25519 are parameters;
    [Headers] is a map from lower-case names to values. *)
From S2P Require Import Prelude JsString Sql Platform Json JsonText Base64 ReceiptsCbor.

(** [crypto.subtle.sign("Ed25519", key, data)] with the key imported from a 32-byte seed. *)
Class Ed25519Sign := ed25519_sign : bytes -> bytes -> bytes.

Module ReceiptWire.
Import ReceiptsCbor.

Definition INTERLACE_RECEIPT_HEADER : jsstr := js "Interlace-Receipt".

Definition HEADER_ALLOWLIST : list jsstr := map js
  ["access-control-allow-credentials"; "access-control-allow-origin"; "access-control-expose-headers";
   "cache-control"; "content-encoding"; "content-language"; "content-length"; "content-type";
   "docker-content-digest"; "docker-distribution-api-version"; "etag"; "last-modified"; "link";
   "location"; "mcp-protocol-version"; "mcp-session-id"; "retry-after"; "www-authenticate"]%string.

Definition RECEIPT_CLOCK_SKEW_MS : Z := 300000.
Definition RECEIPT_EMIT_MAX_AGE_MS : Z := 240000.

(** ** Commitments and envelopes *)

Record ReceiptCommitment := mkCommitment {
  nonce : bytes;
  requestHash : bytes;
  status : Z;
  bodyHash : bytes;
  headersHash : bytes;
  timestampMs : Z;
  actorFp : bytes;
  originsHash : option bytes;
  epoch : Z;
}.

Inductive StreamMode := sse | ndjson.

Record StreamOpenCommitment := mkOpen {
  so_nonce : bytes;
  so_requestHash : bytes;
  so_status : Z;
  so_streamMode : StreamMode;
  so_streamId : bytes;
  so_timestampMs : Z;
  so_actorFp : bytes;
  so_epoch : Z;
}.

Inductive CloseStatus := close_ok | client_disconnect | server_shutdown.

Record StreamCloseCommitment := mkClose {
  sc_streamId : bytes;
  sc_openCommitmentHash : bytes;
  sc_tipHash : bytes;
  sc_eventCount : Z;
  sc_closeStatus : CloseStatus;
  sc_timestampMs : Z;
}.

Record Envelope (C : Type) := mkEnvelope { commitment : C; signature : bytes }.
Arguments mkEnvelope {C}. Arguments commitment {C}. Arguments signature {C}.

(** ** Canonical bytes *)

Definition num (z : Z) : value := VNumber (NInt z).

Definition commitmentCborMap (c : ReceiptCommitment) : value :=
  VMap ([(js "actor_fp", VBytes (actorFp c)); (js "body_hash", VBytes (bodyHash c));
         (js "epoch", num (epoch c)); (js "headers_hash", VBytes (headersHash c));
         (js "nonce", VBytes (nonce c)); (js "request_hash", VBytes (requestHash c));
         (js "status", num (status c)); (js "timestamp_ms", num (timestampMs c))] ++
        match originsHash c with Some h => [(js "origins_hash", VBytes h)] | None => [] end).

Definition mode_label (m : StreamMode) : jsstr := match m with sse => js "sse" | ndjson => js "ndjson" end.

Definition streamOpenCborMap (c : StreamOpenCommitment) : value :=
  VMap [(js "actor_fp", VBytes (so_actorFp c)); (js "epoch", num (so_epoch c));
        (js "nonce", VBytes (so_nonce c)); (js "request_hash", VBytes (so_requestHash c));
        (js "status", num (so_status c)); (js "stream_id", VBytes (so_streamId c));
        (js "stream_mode", VText (mode_label (so_streamMode c))); (js "timestamp_ms", num (so_timestampMs c))].

Definition close_label (s : CloseStatus) : jsstr :=
  match s with
  | close_ok => js "ok" | client_disconnect => js "client-disconnect" | server_shutdown => js "server-shutdown"
  end.

Definition streamCloseCborMap (c : StreamCloseCommitment) : value :=
  VMap [(js "close_status", VText (close_label (sc_closeStatus c))); (js "event_count", num (sc_eventCount c));
        (js "open_commitment_hash", VBytes (sc_openCommitmentHash c)); (js "stream_id", VBytes (sc_streamId c));
        (js "timestamp_ms", num (sc_timestampMs c)); (js "tip_hash", VBytes (sc_tipHash c))].

Definition encodeCommitment (c : ReceiptCommitment) : result cbor_error bytes := canonicalCbor (commitmentCborMap c).
Definition encodeStreamOpenCommitment (c : StreamOpenCommitment) : result cbor_error bytes :=
  canonicalCbor (streamOpenCborMap c).
Definition encodeStreamCloseCommitment (c : StreamCloseCommitment) : result cbor_error bytes :=
  canonicalCbor (streamCloseCborMap c).

Definition sealed (commitment : value) (signature : bytes) : list (jsstr * value) :=
  [(js "commitment", commitment); (js "signature", VBytes signature)].

Definition encodeReceiptEnvelope (env : Envelope ReceiptCommitment) : result cbor_error bytes :=
  canonicalCbor (VMap (sealed (commitmentCborMap (commitment env)) (signature env))).
Definition STREAM_OPEN : jsstr := js "stream-open".
Definition encodeStreamOpenEnvelope (env : Envelope StreamOpenCommitment) : result cbor_error bytes :=
  canonicalCbor (VMap [(js "commitment", streamOpenCborMap (commitment env)); (js "kind", VText STREAM_OPEN);
                       (js "signature", VBytes (signature env))]).
Definition encodeStreamCloseEnvelope (env : Envelope StreamCloseCommitment) : result cbor_error bytes :=
  canonicalCbor (VMap (sealed (streamCloseCborMap (commitment env)) (signature env))).

(** ** Objects as the decoders read them *)

(** [m[k]], along the prototypes; the names below are on no built-in prototype. *)
Fixpoint prop (k : jsstr) (v : value) : option value :=
  match v with
  | VMap m =>
      match assoc k m with
      | Some x => Some x
      | None =>
          (fix inherited (m : list (jsstr * value)) : option value :=
             match m with
             | [] => None
             | (k', p) :: m' => if decide (k' = PROTO) then prop k p else inherited m'
             end) m
      end
  | _ => None
  end.

(** [Object.keys] *)
Definition own_keys (m : list (jsstr * value)) : list jsstr := filter (fun k => k <> PROTO) (map fst m).

Definition isPlainMap (v : value) : option (list (jsstr * value)) :=
  match v with VMap m => if is_bytes v then None else Some m | _ => None end.

Inductive decode_error :=
  | BadBase64
  | BadCbor (e : cbor_error)
  | EnvelopeNotMap
  | UnexpectedKeys
  | KindMismatch
  | CommitmentNotMap
  | SignatureNotBytes
  | SignatureLength
  | Missing (k : jsstr)
  | Unexpected (ks : list jsstr)
  | Field (k : jsstr).

(** A decoder answers a value or a reason; reading [length] of an object that only inherits from
    a [Uint8Array] is a [TypeError] that reaches its caller. *)
Inductive fault := Reject (e : decode_error) | TypeError.

(** [!(x instanceof Uint8Array)] rejects with the first error, [x.length] outside [fits] with the
    second. *)
Definition checked_bytes (v : option value) (not_bytes not_length : decode_error) (fits : Z -> bool)
    : result fault bytes :=
  match v with
  | Some (VBytes b) => if fits (blen b) then Ok b else Throw (Reject not_length)
  | Some v => Throw (if is_bytes v then TypeError else Reject not_bytes)
  | None => Throw (Reject not_bytes)
  end.

Definition bytes_field (m : value) (k : jsstr) (fits : Z -> bool) : result fault bytes :=
  checked_bytes (prop k m) (Field k) (Field k) fits.

Definition signature_field (v : option value) : result fault bytes :=
  checked_bytes v SignatureNotBytes SignatureLength (Z.eqb 64).

(** The decoder makes no number that is not an integer. *)
Definition number_field (m : value) (k : jsstr) : result fault Z :=
  match prop k m with Some (VNumber (NInt z)) => Ok z | _ => Throw (Reject (Field k)) end.

(** [Number(big)]: the nearest double, ties to even. *)
Definition Number (z : Z) : Z :=
  if z <? 2 ^ 53 then z
  else
    let e := Z.log2 z - 52 in
    let q := z / 2 ^ e in
    let r := z mod 2 ^ e in
    (if (2 ^ (e - 1) <? r) || ((r =? 2 ^ (e - 1)) && Z.odd q) then q + 1 else q) * 2 ^ e.

Definition timestamp_field (m : value) (k : jsstr) : result fault Z :=
  match prop k m with
  | Some (VNumber (NInt z)) => Ok z
  | Some (VBigint z) => Ok (Number z)
  | _ => Throw (Reject (Field k))
  end.

Definition is_32 : Z -> bool := Z.eqb 32.

(** Every required key is there, and no own key is outside the lists. *)
Definition check_keys (m : list (jsstr * value)) (required optional : list jsstr) : result fault unit :=
  match List.find (fun k => match prop k (VMap m) with None => true | Some _ => false end) required with
  | Some k => Throw (Reject (Missing k))
  | None =>
      match filter (fun k => k ∉ required /\ k ∉ optional) (own_keys m) with
      | [] => Ok tt
      | ks => Throw (Reject (Unexpected ks))
      end
  end.

Definition COMMITMENT_KEYS : list jsstr := map js
  ["actor_fp"; "body_hash"; "epoch"; "headers_hash"; "nonce"; "request_hash"; "status"; "timestamp_ms"]%string.

Definition parseCommitmentMap (entries : list (jsstr * value)) : result fault ReceiptCommitment :=
  let m := VMap entries in
  let? _ := check_keys entries COMMITMENT_KEYS [js "origins_hash"] in
  let? origins := match prop (js "origins_hash") m with
                  | None => Ok None
                  | Some _ => let? h := bytes_field m (js "origins_hash") is_32 in Ok (Some h)
                  end in
  let? actor := bytes_field m (js "actor_fp") is_32 in
  let? body := bytes_field m (js "body_hash") is_32 in
  let? ep := number_field m (js "epoch") in
  let? headers := bytes_field m (js "headers_hash") is_32 in
  let? n := bytes_field m (js "nonce") (Z.leb 16) in
  let? request := bytes_field m (js "request_hash") is_32 in
  let? st := number_field m (js "status") in
  let? ts := timestamp_field m (js "timestamp_ms") in
  Ok (mkCommitment n request st body headers ts actor origins ep).

Definition OPEN_KEYS : list jsstr := map js
  ["actor_fp"; "epoch"; "nonce"; "request_hash"; "status"; "stream_id"; "stream_mode"; "timestamp_ms"]%string.

Definition parse_mode (v : option value) : result fault StreamMode :=
  match v with
  | Some (VText s) =>
      if decide (s = js "sse") then Ok sse else if decide (s = js "ndjson") then Ok ndjson
      else Throw (Reject (Field (js "stream_mode")))
  | _ => Throw (Reject (Field (js "stream_mode")))
  end.

Definition parseStreamOpenMap (entries : list (jsstr * value)) : result fault StreamOpenCommitment :=
  let m := VMap entries in
  let? _ := check_keys entries OPEN_KEYS [] in
  let? actor := bytes_field m (js "actor_fp") is_32 in
  let? ep := number_field m (js "epoch") in
  let? n := bytes_field m (js "nonce") (Z.leb 16) in
  let? request := bytes_field m (js "request_hash") is_32 in
  let? st := number_field m (js "status") in
  let? id := bytes_field m (js "stream_id") (Z.eqb 16) in
  let? mode := parse_mode (prop (js "stream_mode") m) in
  let? ts := timestamp_field m (js "timestamp_ms") in
  Ok (mkOpen n request st mode id ts actor ep).

Definition CLOSE_KEYS : list jsstr := map js
  ["close_status"; "event_count"; "open_commitment_hash"; "stream_id"; "timestamp_ms"; "tip_hash"]%string.

Definition parse_close_status (v : option value) : result fault CloseStatus :=
  match v with
  | Some (VText s) =>
      if decide (s = js "ok") then Ok close_ok
      else if decide (s = js "client-disconnect") then Ok client_disconnect
      else if decide (s = js "server-shutdown") then Ok server_shutdown
      else Throw (Reject (Field (js "close_status")))
  | _ => Throw (Reject (Field (js "close_status")))
  end.

Definition parseStreamCloseMap (entries : list (jsstr * value)) : result fault StreamCloseCommitment :=
  let m := VMap entries in
  let? _ := check_keys entries CLOSE_KEYS [] in
  let? cs := parse_close_status (prop (js "close_status") m) in
  let? count := number_field m (js "event_count") in
  let? opened := bytes_field m (js "open_commitment_hash") is_32 in
  let? id := bytes_field m (js "stream_id") (Z.eqb 16) in
  let? ts := timestamp_field m (js "timestamp_ms") in
  let? tip := bytes_field m (js "tip_hash") is_32 in
  Ok (mkClose id opened tip count cs ts).

(** ** Decoding *)

(** [Object.keys(outer).sort()] against the expected names. *)
Definition has_keys (m : list (jsstr * value)) (ks : list jsstr) : bool :=
  bool_decide (order_by lex_le (own_keys m) = ks).

Definition decode_map (bs : bytes) : result fault (list (jsstr * value)) :=
  match decodeCanonicalCbor bs with
  | Throw e => Throw (Reject (BadCbor e))
  | Ok outer => match isPlainMap outer with Some m => Ok m | None => Throw (Reject EnvelopeNotMap) end
  end.

Definition check (b : bool) (e : decode_error) : result fault unit := if b then Ok tt else Throw (Reject e).

(** The commitment's map and the signature. *)
Definition open_envelope (m : list (jsstr * value)) : result fault (list (jsstr * value) * bytes) :=
  match prop (js "commitment") (VMap m) with
  | Some c =>
      match isPlainMap c with
      | None => Throw (Reject CommitmentNotMap)
      | Some entries => let? sig := signature_field (prop (js "signature") (VMap m)) in Ok (entries, sig)
      end
  | None => Throw (Reject CommitmentNotMap)
  end.

Definition SEALED_KEYS : list jsstr := [js "commitment"; js "signature"].

Definition decodeReceiptBytes (bs : bytes) : result fault (Envelope ReceiptCommitment) :=
  let? m := decode_map bs in
  let? _ := check (has_keys m SEALED_KEYS) UnexpectedKeys in
  let? '(entries, sig) := open_envelope m in
  let? c := parseCommitmentMap entries in
  Ok (mkEnvelope c sig).

Definition decodeReceiptHeader (headerValue : jsstr) : result fault (Envelope ReceiptCommitment) :=
  match Base64.b64decode headerValue with
  | None => Throw (Reject BadBase64)
  | Some bs => decodeReceiptBytes bs
  end.

Definition decodeStreamOpenEnvelopeBytes (bs : bytes) : result fault (Envelope StreamOpenCommitment) :=
  let? m := decode_map bs in
  let? _ := check (has_keys m [js "commitment"; js "kind"; js "signature"]) UnexpectedKeys in
  let? _ := check (match prop (js "kind") (VMap m) with
                   | Some (VText s) => bool_decide (s = STREAM_OPEN) | _ => false end) KindMismatch in
  let? '(entries, sig) := open_envelope m in
  let? c := parseStreamOpenMap entries in
  Ok (mkEnvelope c sig).

Definition decodeStreamCloseEnvelopeBytes (bs : bytes) : result fault (Envelope StreamCloseCommitment) :=
  let? m := decode_map bs in
  let? _ := check (has_keys m SEALED_KEYS) UnexpectedKeys in
  let? '(entries, sig) := open_envelope m in
  let? c := parseStreamCloseMap entries in
  Ok (mkEnvelope c sig).

(** ** Signing *)

(** [makeReceiptSignerFromKeypair]: the seed signs, and the other half is taken for its public key. *)
Record ReceiptSigner := mkSigner { seed : bytes; pubkey : bytes }.

Definition makeReceiptSignerFromKeypair (keypair64 : bytes) : option ReceiptSigner :=
  if blen keypair64 =? 64 then Some (mkSigner (take 32 keypair64) (drop 32 keypair64)) else None.

Definition sign `{Ed25519Sign} (s : ReceiptSigner) (canonical : bytes) : bytes := ed25519_sign (seed s) canonical.

Definition verifyEd25519 `{Ed25519} (key sig canonical : bytes) : bool :=
  if negb (blen key =? 32) || negb (blen sig =? 64) then false
  else match ed25519_verify key sig canonical with Some b => b | None => false end.

Abbreviation Headers := (gmap (list Z) jsstr).

Definition buildHeadersCommittedBytes (headers : Headers) : result cbor_error bytes :=
  canonicalCbor (VMap (omap (fun name => v ← headers !! name; Some (name, VBytes (utf8_encode v))) HEADER_ALLOWLIST)).

Definition b64urlEncode : bytes -> jsstr := Base64.b64encode.
Definition b64urlDecode : jsstr -> option bytes := Base64.b64decode.
Definition b64stdDecode : jsstr -> option bytes := Base64.b64StdDecode.

Section signing.
Context `{Sha256} `{Ed25519Sign}.

Record signed := mkSigned { headerValue : jsstr; envelopeBytes : bytes; sig : bytes }.

Definition signCommitmentToHeader (c : ReceiptCommitment) (signer : ReceiptSigner) : result cbor_error signed :=
  let? canon := encodeCommitment c in
  let signature := sign signer canon in
  let? envelope := encodeReceiptEnvelope (mkEnvelope c signature) in
  Ok (mkSigned (b64urlEncode envelope) envelope signature).

(** With the hash of the commitment. *)
Definition signStreamOpenToHeader (c : StreamOpenCommitment) (signer : ReceiptSigner)
    : result cbor_error (signed * bytes) :=
  let? canon := encodeStreamOpenCommitment c in
  let signature := sign signer canon in
  let? envelope := encodeStreamOpenEnvelope (mkEnvelope c signature) in
  Ok (mkSigned (b64urlEncode envelope) envelope signature, sha256 canon).

Definition signStreamCloseToEventPayload (c : StreamCloseCommitment) (signer : ReceiptSigner)
    : result cbor_error signed :=
  let? canon := encodeStreamCloseCommitment c in
  let signature := sign signer canon in
  let? envelope := encodeStreamCloseEnvelope (mkEnvelope c signature) in
  Ok (mkSigned (b64urlEncode envelope) envelope signature).

Definition eventChainStep (prev eventData : bytes) (seq : Z) : result cbor_error bytes :=
  let? canon := canonicalCbor (VMap [(js "event_data", VBytes eventData); (js "prev", VBytes prev); (js "seq", num seq)]) in
  Ok (sha256 canon).
End signing.

(** ** Reading back what was written *)

Definition plain (m : list (jsstr * value)) : Prop := Forall (fun kv => kv.1 <> PROTO) m.

Lemma prop_plain k m : plain m -> prop k (VMap m) = assoc k m.
Proof.
  intros Hp. cbn [prop]. destruct (assoc k m) as [x|] eqn:E; [done|]. clear E.
  induction Hp as [|[k' p] m Hk _ IH]; [done|]. by rewrite decide_False.
Qed.

Lemma own_keys_plain m : plain m -> own_keys m = map fst m.
Proof.
  unfold own_keys. induction 1 as [|[k v] m Hk _ IH]; [done|]. cbn [map fst]. by rewrite filter_cons_True, IH.
Qed.

Lemma assoc_elem k v m : NoDup (map fst m) -> assoc (A := value) k m = Some v <-> (k, v) ∈ m.
Proof.
  induction m as [|[k' v'] m IH]; cbn [assoc map fst]; [by rewrite elem_of_nil|]. intros [Hn Hm]%NoDup_cons.
  rewrite elem_of_cons. case_decide as E.
  - subst k'. split; [intros [= ->]; by left|]. intros [[= ->]|Hin]; [done|].
    destruct Hn. apply list_elem_of_fmap. by exists (k, v).
  - rewrite IH by done. split; [by right|]. intros [[= -> _]|?]; [done|done].
Qed.

Lemma assoc_perm k m m' : NoDup (map fst m) -> m ≡ₚ m' -> assoc (A := value) k m = assoc k m'.
Proof.
  intros Hn Hp. assert (Hn' : NoDup (map fst m')) by (by rewrite <- Hp).
  destruct (assoc k m') as [v|] eqn:E'.
  - apply assoc_elem; [done|]. rewrite Hp. by apply assoc_elem.
  - destruct (assoc k m) as [v|] eqn:E; [|done]. apply assoc_elem in E; [|done]. rewrite Hp in E.
    apply assoc_elem in E; [congruence|done].
Qed.

Lemma assoc_fmap_values k m (f : value -> value) : assoc k (map (fun kv => (kv.1, f kv.2)) m) = f <$> assoc k m.
Proof. induction m as [|[k' v'] m IH]; [done|]. cbn. by case_decide. Qed.

(** The canonical form of a map: its entries, in another order. *)
Lemma norm_map m :
  ok (VMap m) ->
  exists m', norm (VMap m) = VMap m' /\ plain m' /\ NoDup (map fst m') /\ map fst m' ≡ₚ map fst m /\
    (forall k, assoc k m' = norm <$> assoc k m).
Proof.
  intros (_ & Hn & Ho)%ok_map. cbn [norm].
  set (l := map (fun kv => (kv.1, norm kv.2)) m).
  assert (Hk : map fst l = map fst m) by (unfold l; by rewrite map_map).
  assert (Hnl : NoDup (map fst l)) by (by rewrite Hk).
  assert (Hp : JsonText.obj_build [] (order_by key_le l) ≡ₚ l).
  { assert (Hs : order_by key_le l ≡ₚ l) by apply merge_sort_Permutation.
    rewrite JsonText.obj_build_entries; [exact Hs|]. cbn [map app]. by rewrite Hs. }
  eexists. split; [done|]. split; [|split; [|split]].
  - unfold plain. rewrite Hp. unfold l. apply Forall_map. eapply Forall_impl; [exact Ho|]. by intros kv (_ & ? & _).
  - by rewrite Hp.
  - by rewrite Hp, Hk.
  - intros k. rewrite (assoc_perm k _ l); [apply assoc_fmap_values|by rewrite Hp|done].
Qed.

(** A plain map with the properties of [l] is read like [l]. *)
Section reads.
Context (m l : list (jsstr * value)).
Hypothesis m_plain : plain m.
Hypothesis keys : map fst m ≡ₚ map fst l.
Hypothesis values : forall k, assoc k m = norm <$> assoc k l.

Lemma prop_reads k v : assoc k l = Some v -> prop k (VMap m) = Some (norm v).
Proof. intros E. by rewrite prop_plain, values, E. Qed.

Lemma prop_absent k : assoc k l = None -> prop k (VMap m) = None.
Proof. intros E. by rewrite prop_plain, values, E. Qed.

Lemma bytes_reads k b fits : assoc k l = Some (VBytes b) -> fits (blen b) = true -> bytes_field (VMap m) k fits = Ok b.
Proof. intros E Hf. unfold bytes_field. rewrite (prop_reads k _ E). cbn. by rewrite Hf. Qed.

Lemma norm_num z : z < 2 ^ 53 -> norm (num z) = num z.
Proof. intros Hz. cbn [norm num]. unfold norm_int. by rewrite (proj2 (Z.ltb_lt _ _)). Qed.

Lemma number_reads k z : assoc k l = Some (num z) -> z < 2 ^ 53 -> number_field (VMap m) k = Ok z.
Proof. intros E Hz. unfold number_field. by rewrite (prop_reads k _ E), norm_num. Qed.

Lemma timestamp_reads k z : assoc k l = Some (num z) -> z < 2 ^ 53 -> timestamp_field (VMap m) k = Ok z.
Proof. intros E Hz. unfold timestamp_field. by rewrite (prop_reads k _ E), norm_num. Qed.

Lemma check_keys_reads required optional :
  Forall (fun k => is_Some (assoc k l)) required -> Forall (fun k => k ∈ required \/ k ∈ optional) (map fst l) ->
  check_keys m required optional = Ok tt.
Proof.
  intros Hr Ho. unfold check_keys. destruct (List.find _ required) as [k|] eqn:E.
  - apply find_some in E as [Hk E]. apply list_elem_of_In in Hk. rewrite Forall_forall in Hr.
    destruct (Hr k Hk) as [v Hv]. by rewrite (prop_reads k v Hv) in E.
  - destruct (filter _ _) as [|k ks] eqn:Ef; [done|].
    assert (Hk : k ∈ k :: ks) by apply list_elem_of_here. rewrite <- Ef in Hk.
    apply list_elem_of_filter in Hk as [[H1 H2] Hk]. rewrite own_keys_plain, keys in Hk by done.
    rewrite Forall_forall in Ho. by destruct (Ho k Hk).
Qed.

Lemma has_keys_reads ks : map fst l = ks -> StronglySorted lex_le ks -> has_keys m ks = true.
Proof.
  intros <- Hs. unfold has_keys. apply bool_decide_eq_true. apply order_by_unique; [apply _|apply _| |exact Hs|].
  - intros x y _ _. apply lex_le_antisym.
  - rewrite own_keys_plain by done. exact keys.
Qed.
End reads.

(** ** Well-formed commitments *)

Definition int_ok (z : Z) : Prop := arg_ok z /\ z < 2 ^ 53.

Record commitment_ok (c : ReceiptCommitment) : Prop := {
  c_nonce : 16 <= blen (nonce c) < 2 ^ 31;
  c_request : blen (requestHash c) = 32;
  c_body : blen (bodyHash c) = 32;
  c_headers : blen (headersHash c) = 32;
  c_actor : blen (actorFp c) = 32;
  c_origins : forall h, originsHash c = Some h -> blen h = 32;
  c_status : int_ok (status c);
  c_timestamp : int_ok (timestampMs c);
  c_epoch : int_ok (epoch c);
}.

Record open_ok (c : StreamOpenCommitment) : Prop := {
  o_nonce : 16 <= blen (so_nonce c) < 2 ^ 31;
  o_request : blen (so_requestHash c) = 32;
  o_stream : blen (so_streamId c) = 16;
  o_actor : blen (so_actorFp c) = 32;
  o_status : int_ok (so_status c);
  o_timestamp : int_ok (so_timestampMs c);
  o_epoch : int_ok (so_epoch c);
}.

Record close_ok_ (c : StreamCloseCommitment) : Prop := {
  cl_stream : blen (sc_streamId c) = 16;
  cl_open : blen (sc_openCommitmentHash c) = 32;
  cl_tip : blen (sc_tipHash c) = 32;
  cl_count : int_ok (sc_eventCount c);
  cl_timestamp : int_ok (sc_timestampMs c);
}.

(** The names and labels of the wire are short ASCII. *)
Definition short_ascii (s : jsstr) : bool :=
  forallb (fun c => (0 <=? c) && (c <? 128)) s && (length s <? 1000)%nat.
Definition key_ok (k : jsstr) : bool := short_ascii k && negb (bool_decide (k = PROTO)).

Lemma short_text s : short_ascii s = true -> text_ok s.
Proof.
  unfold short_ascii. rewrite andb_true_iff, Nat.ltb_lt. intros [Ha Hl].
  assert (Hs : is_ascii s).
  { apply Forall_forall. intros c Hc. apply list_elem_of_In in Hc. rewrite forallb_forall in Ha.
    specialize (Ha c Hc). lia. }
  split; [by apply ascii_well_formed|]. split.
  - destruct s as [|c s]; [done|]. apply Forall_cons in Hs as [Hc _]. cbn beta in Hc. cbn [has_bom]. apply Z.eqb_neq. unfold BOM. lia.
  - rewrite ascii_utf8 by done. unfold blen. rewrite length_map. lia.
Qed.

Lemma map_ok m :
  (length m <? 1000)%nat && bool_decide (NoDup (map fst m)) && forallb key_ok (map fst m) = true ->
  Forall (fun kv => ok kv.2) m -> ok (VMap m).
Proof.
  rewrite !andb_true_iff, Nat.ltb_lt, bool_decide_eq_true. intros [[Hl Hn] Hk] Hv.
  apply ok_map. split; [lia|]. split; [done|]. apply Forall_forall. intros kv Hkv.
  assert (Hin : kv.1 ∈ map fst m) by (apply list_elem_of_fmap; eauto). apply list_elem_of_In in Hin.
  rewrite forallb_forall in Hk. specialize (Hk _ Hin). unfold key_ok in Hk. apply andb_true_iff in Hk as [H1 H2].
  split; [by apply short_text|]. rewrite negb_true_iff, bool_decide_eq_false in H2.
  split; [done|]. rewrite Forall_forall in Hv. by apply Hv.
Qed.

Lemma ok_num z : int_ok z -> ok (num z).
Proof. by intros [? _]. Qed.
Lemma ok_bytes b : blen b < 2 ^ 31 -> ok (VBytes b).
Proof. done. Qed.

Ltac entries_ok :=
  repeat (apply Forall_cons; split); try apply Forall_nil; cbn [snd];
  first [done|by apply ok_num|apply ok_bytes; lia|by apply short_text].

Lemma commitment_map_ok c : commitment_ok c -> ok (commitmentCborMap c).
Proof.
  intros [? ? ? ? ? Ho ? ? ?]. unfold commitmentCborMap. destruct (originsHash c) as [h|].
  all: try specialize (Ho h eq_refl).
  all: apply map_ok; [vm_compute; reflexivity|]; cbn [app]; entries_ok.
Qed.

Lemma open_map_ok c : open_ok c -> ok (streamOpenCborMap c).
Proof.
  intros [? ? ? ? ? ? ?]. unfold streamOpenCborMap. destruct (so_streamMode c);
    (apply map_ok; [vm_compute; reflexivity|]; entries_ok).
Qed.

Lemma close_map_ok c : close_ok_ c -> ok (streamCloseCborMap c).
Proof.
  intros [? ? ? ? ?]. unfold streamCloseCborMap. destruct (sc_closeStatus c);
    (apply map_ok; [vm_compute; reflexivity|]; entries_ok).
Qed.

(** [m] is read like the entries of [v]. *)
Definition reads_like (m : list (jsstr * value)) (v : value) : Prop :=
  exists l, v = VMap l /\ plain m /\ map fst m ≡ₚ map fst l /\ forall k, assoc k m = norm <$> assoc k l.

Lemma norm_reads v : ok v -> match v with VMap _ => True | _ => False end ->
  exists m, norm v = VMap m /\ reads_like m v.
Proof.
  destruct v as [| | | | |l]; try done. intros Ho _. destruct (norm_map l Ho) as (m & E & Hp & _ & Hk & Ha).
  exists m. split; [done|]. exists l. auto.
Qed.

Lemma int_ok_lt z : int_ok z -> z < 2 ^ 53.
Proof. by intros [_ ?]. Qed.

(** Read the next field of a map whose entries are known. *)
Ltac field :=
  match goal with
  | |- context [bytes_field (VMap ?m) ?k ?f] =>
      erewrite (bytes_reads m _); [|eassumption|eassumption|reflexivity|]; [cbn [rbind]|unfold is_32; lia]
  | |- context [number_field (VMap ?m) ?k] =>
      erewrite (number_reads m _); [|eassumption|eassumption|reflexivity|]; [cbn [rbind]|by apply int_ok_lt]
  | |- context [timestamp_field (VMap ?m) ?k] =>
      erewrite (timestamp_reads m _); [|eassumption|eassumption|reflexivity|]; [cbn [rbind]|by apply int_ok_lt]
  end.

Lemma parse_commitment m c :
  commitment_ok c -> reads_like m (commitmentCborMap c) -> parseCommitmentMap m = Ok c.
Proof.
  intros [? ? ? ? ? Ho ? ? ?] (l & [= <-] & Hp & Hk & Ha). unfold parseCommitmentMap.
  rewrite (check_keys_reads m _ Hp Hk Ha); [cbn [rbind]| |].
  2:{ destruct (originsHash c); repeat constructor; eexists; reflexivity. }
  2:{ destruct (originsHash c); apply (bool_decide_unpack _); vm_compute; exact I. }
  destruct (originsHash c) as [h|] eqn:Eo.
  - rewrite (prop_reads m _ Hp Ha _ (VBytes h)) by reflexivity. specialize (Ho h eq_refl).
    repeat field. destruct c. cbn [originsHash] in Eo. by rewrite Eo.
  - rewrite (prop_absent m _ Hp Ha) by reflexivity. cbn [rbind]. repeat field.
    destruct c. cbn [originsHash] in Eo. by rewrite Eo.
Qed.

Lemma parse_open m c : open_ok c -> reads_like m (streamOpenCborMap c) -> parseStreamOpenMap m = Ok c.
Proof.
  intros [? ? ? ? ? ? ?] (l & [= <-] & Hp & Hk & Ha). unfold parseStreamOpenMap.
  rewrite (check_keys_reads m _ Hp Hk Ha); [cbn [rbind]| |].
  2:{ repeat constructor; eexists; reflexivity. }
  2:{ apply (bool_decide_unpack _); vm_compute; exact I. }
  repeat field.
  rewrite (prop_reads m _ Hp Ha _ (VText (mode_label (so_streamMode c)))) by reflexivity.
  assert (Em : parse_mode (Some (norm (VText (mode_label (so_streamMode c))))) = Ok (so_streamMode c)).
  { by destruct (so_streamMode c). }
  rewrite Em. cbn [rbind]. repeat field. by destruct c.
Qed.

Lemma parse_close m c : close_ok_ c -> reads_like m (streamCloseCborMap c) -> parseStreamCloseMap m = Ok c.
Proof.
  intros [? ? ? ? ?] (l & [= <-] & Hp & Hk & Ha). unfold parseStreamCloseMap.
  rewrite (check_keys_reads m _ Hp Hk Ha); [cbn [rbind]| |].
  2:{ repeat constructor; eexists; reflexivity. }
  2:{ apply (bool_decide_unpack _); vm_compute; exact I. }
  rewrite (prop_reads m _ Hp Ha _ (VText (close_label (sc_closeStatus c)))) by reflexivity.
  assert (Em : parse_close_status (Some (norm (VText (close_label (sc_closeStatus c))))) = Ok (sc_closeStatus c)).
  { by destruct (sc_closeStatus c). }
  rewrite Em. cbn [rbind]. repeat field. by destruct c.
Qed.

(** ** Envelopes *)

Definition is_map (v : value) : Prop := match v with VMap _ => True | _ => False end.

Lemma plain_is_map m : plain m -> isPlainMap (VMap m) = Some m.
Proof. intros Hp. unfold isPlainMap. by rewrite no_prototype. Qed.

Lemma decode_sealed l v sig :
  ok (VMap l) -> assoc (js "commitment") l = Some v -> assoc (js "signature") l = Some (VBytes sig) ->
  ok v -> is_map v -> blen sig = 64 ->
  exists m m', decode_map (enc (VMap l)) = Ok m /\ reads_like m (VMap l) /\
    open_envelope m = Ok (m', sig) /\ reads_like m' v.
Proof.
  intros Hl Ec Es Hv Hm Hsig. destruct (norm_reads _ Hl Logic.I) as (m & En & Hr).
  destruct (norm_reads _ Hv Hm) as (m' & Ev & Hr'). exists m, m'.
  assert (Hp : plain m) by by destruct Hr as (? & _ & ? & _).
  assert (Ha : forall k, assoc k m = norm <$> assoc k l) by (destruct Hr as (? & [= <-] & _ & _ & Ha); exact Ha).
  assert (Hp' : plain m') by by destruct Hr' as (? & _ & ? & _).
  split; [|split; [done|split; [|done]]].
  - unfold decode_map. by rewrite decode_enc, En, plain_is_map.
  - unfold open_envelope. rewrite (prop_reads m l Hp Ha _ v Ec), Ev, plain_is_map by done.
    rewrite (prop_reads m l Hp Ha _ _ Es). cbn [norm signature_field checked_bytes]. by rewrite Hsig.
Qed.

Lemma sealed_ok v sig : ok v -> blen sig = 64 -> ok (VMap (sealed v sig)).
Proof.
  intros Hv Hs. apply map_ok; [vm_compute; reflexivity|]. constructor; [done|]. constructor; [|constructor].
  apply ok_bytes. lia.
Qed.

Lemma reads_keys m l ks : reads_like m (VMap l) -> map fst l = ks -> bool_decide (StronglySorted lex_le ks) = true ->
  has_keys m ks = true.
Proof.
  intros (l' & [= <-] & Hp & Hk & _) E Hs. apply (has_keys_reads m l Hp Hk ks E). by apply bool_decide_eq_true in Hs.
Qed.

Lemma receipt_decodes c sig :
  commitment_ok c -> blen sig = 64 ->
  let env := mkEnvelope c sig in
  encodeReceiptEnvelope env = Ok (enc (VMap (sealed (commitmentCborMap c) sig))) /\
  decodeReceiptBytes (enc (VMap (sealed (commitmentCborMap c) sig))) = Ok env.
Proof.
  intros Hc Hs env. pose proof (commitment_map_ok c Hc) as Hv. pose proof (sealed_ok _ sig Hv Hs) as Hl.
  split; [by apply encode_ok|].
  destruct (decode_sealed _ (commitmentCborMap c) sig Hl eq_refl eq_refl Hv Logic.I Hs) as (m & m' & Em & Hr & Eo & Hr').
  unfold decodeReceiptBytes. rewrite Em. cbn [rbind]. rewrite (reads_keys m _ SEALED_KEYS Hr eq_refl) by reflexivity.
  cbn [check rbind]. rewrite Eo. cbn [rbind]. by rewrite (parse_commitment m' c Hc Hr').
Qed.

Lemma stream_open_decodes c sig :
  open_ok c -> blen sig = 64 ->
  exists bs, encodeStreamOpenEnvelope (mkEnvelope c sig) = Ok bs /\
    decodeStreamOpenEnvelopeBytes bs = Ok (mkEnvelope c sig).
Proof.
  intros Hc Hs. pose proof (open_map_ok c Hc) as Hv.
  assert (Hl : ok (VMap [(js "commitment", streamOpenCborMap c); (js "kind", VText STREAM_OPEN); (js "signature", VBytes sig)])).
  { apply map_ok; [vm_compute; reflexivity|]. constructor; [exact Hv|]. constructor; [by apply short_text|].
    constructor; [apply ok_bytes; lia|constructor]. }
  eexists. split; [exact (encode_ok _ Hl)|].
  destruct (decode_sealed _ (streamOpenCborMap c) sig Hl eq_refl eq_refl Hv Logic.I Hs) as (m & m' & Em & Hr & Eo & Hr').
  unfold decodeStreamOpenEnvelopeBytes. rewrite Em. cbn [rbind]. rewrite (reads_keys m _ [js "commitment"; js "kind"; js "signature"] Hr eq_refl) by reflexivity.
  cbn [check rbind]. destruct Hr as (l & [= <-] & Hp & _ & Ha).
  rewrite (prop_reads m _ Hp Ha _ (VText STREAM_OPEN)) by reflexivity. cbn [norm].
  rewrite bool_decide_true by done. cbn [check rbind]. rewrite Eo. cbn [rbind]. by rewrite (parse_open m' c Hc Hr').
Qed.

Lemma stream_close_decodes c sig :
  close_ok_ c -> blen sig = 64 ->
  exists bs, encodeStreamCloseEnvelope (mkEnvelope c sig) = Ok bs /\
    decodeStreamCloseEnvelopeBytes bs = Ok (mkEnvelope c sig).
Proof.
  intros Hc Hs. pose proof (close_map_ok c Hc) as Hv. pose proof (sealed_ok _ sig Hv Hs) as Hl.
  eexists. split; [exact (encode_ok _ Hl)|].
  destruct (decode_sealed _ (streamCloseCborMap c) sig Hl eq_refl eq_refl Hv Logic.I Hs) as (m & m' & Em & Hr & Eo & Hr').
  unfold decodeStreamCloseEnvelopeBytes. rewrite Em. cbn [rbind]. rewrite (reads_keys m _ SEALED_KEYS Hr eq_refl) by reflexivity.
  cbn [check rbind]. rewrite Eo. cbn [rbind]. by rewrite (parse_close m' c Hc Hr').
Qed.

(** ** Signed bytes *)

(** Maps that encode to the same bytes have the same keys. *)
Lemma same_bytes_keys m m' bs :
  ok (VMap m) -> ok (VMap m') -> canonicalCbor (VMap m) = Ok bs -> canonicalCbor (VMap m') = Ok bs ->
  forall k, k ∈ map fst m <-> k ∈ map fst m'.
Proof.
  intros Ho Ho' E E' k. rewrite encode_ok in E, E' by done. injection E as E. injection E' as E'.
  assert (Hn : Ok (E := cbor_error) (norm (VMap m)) = Ok (norm (VMap m'))).
  { rewrite <- !decode_enc by done. by rewrite E, E'. }
  destruct (norm_map m Ho) as (l & El & _ & _ & Hk & _), (norm_map m' Ho') as (l' & El' & _ & _ & Hk' & _).
  rewrite El, El' in Hn. injection Hn as ->. by rewrite <- Hk, Hk'.
Qed.

(** Maps that encode to the same bytes are read alike. *)
Lemma same_bytes_read v v' bs :
  ok v -> ok v' -> is_map v -> canonicalCbor v = Ok bs -> canonicalCbor v' = Ok bs ->
  exists m, reads_like m v /\ (is_map v' -> reads_like m v').
Proof.
  intros Ho Ho' Hm E E'. rewrite encode_ok in E, E' by done. injection E as E. injection E' as E'.
  assert (Hn : Ok (E := cbor_error) (norm v) = Ok (norm v')).
  { rewrite <- !decode_enc by done. by rewrite E, E'. }
  injection Hn as Hn. destruct (norm_reads v Ho Hm) as (m & Em & Hr). exists m. split; [done|].
  intros Hm'. destruct (norm_reads v' Ho' Hm') as (m' & Em' & Hr'). rewrite Em, Em' in Hn. by injection Hn as ->.
Qed.

(** One property that only one of two maps has tells their bytes apart. *)
Lemma other_keys m m' bs k :
  ok (VMap m) -> ok (VMap m') -> canonicalCbor (VMap m) = Ok bs -> canonicalCbor (VMap m') = Ok bs ->
  bool_decide (k ∈ map fst m) = bool_decide (k ∈ map fst m').
Proof. intros. apply bool_decide_ext. by eapply same_bytes_keys. Qed.
End ReceiptWire.
