(* ===== verification/ReceiptVerify.v ===== *)
(** Verification of receipts (src/wire/receipt-verify.ts) and compromise notices
    (src/wire/compromise-notice.ts).

    A verifier answers the envelope or the reason of its refusal; what it can throw, a
    [TypeError] of the decoder or an error of the encoder, is [Throw]. *)
From S2P Require Import Prelude JsString Sql Platform JsInt Json Base64 ReceiptsCbor ReceiptWire.

Module ReceiptVerify.
Import ReceiptsCbor ReceiptWire.

Definition constantTimeEqual (a b : bytes) : bool :=
  if negb (blen a =? blen b) then false
  else foldl (fun diff xy => js_or diff (js_xor (b2z xy.1) (b2z xy.2))) 0 (zip a b) =? 0.

Inductive refusal :=
  | Decode (e : decode_error)
  | NonceMismatch
  | RequestHashMismatch
  | ActorMismatch
  | EpochNotCurrent
  | PubkeyUnavailable
  | BadSignature
  | BodyHashMismatch
  | HeadersHashMismatch
  | ClockSkew
  | StatusOutOfRange
  | OpenHashMismatch
  | TipHashMismatch
  | PrevPubkeyMismatch.

Inductive exn := DecoderTypeError | Encoder (e : cbor_error).

Definition V (A : Type) : Type := result exn (refusal + A).

Definition refuse {A} (r : refusal) : V A := Ok (inl r).
Definition require {A} (b : bool) (r : refusal) (k : V A) : V A := if b then k else refuse r.

Definition decoded {A B} (r : result fault A) (k : A -> V B) : V B :=
  match r with
  | Ok a => k a
  | Throw (Reject e) => refuse (Decode e)
  | Throw TypeError => Throw DecoderTypeError
  end.

Definition encoded {A B} (r : result cbor_error A) (k : A -> V B) : V B :=
  match r with Ok a => k a | Throw e => Throw (Encoder e) end.

(** ** Live verification *)

Record PLiveVerifyArgs := mkPLive {
  headerValue : jsstr;
  expectedActorFp : bytes;
  currentEpoch : Z;
  prevEpoch : option Z;
  resolvePubkey : Z -> option bytes;
  expectedNonce : bytes;
  requestCanon : bytes;
  responseBody : bytes;
  responseHeaders : Headers;
  nowMs : Z;
}.

Definition epoch_accepted (e current : Z) (prev : option Z) : bool := (e =? current) || bool_decide (Some e = prev).
Definition in_window (now ts : Z) : bool := negb (RECEIPT_CLOCK_SKEW_MS <? Z.abs (now - ts)).
Definition is_2xx (s : Z) : bool := negb ((s <? 200) || (300 <=? s)).

Section verify.
Context `{Sha256} `{Ed25519}.

Definition verifyReceiptPLive (a : PLiveVerifyArgs) : V (Envelope ReceiptCommitment) :=
  decoded (decodeReceiptHeader (headerValue a)) (fun envelope =>
    let c := commitment envelope in
    require (constantTimeEqual (nonce c) (expectedNonce a)) NonceMismatch
    (require (constantTimeEqual (requestHash c) (sha256 (requestCanon a))) RequestHashMismatch
    (require (constantTimeEqual (actorFp c) (expectedActorFp a)) ActorMismatch
    (require (epoch_accepted (epoch c) (currentEpoch a) (prevEpoch a)) EpochNotCurrent
    match resolvePubkey a (epoch c) with
    | None => refuse PubkeyUnavailable
    | Some key =>
        encoded (encodeCommitment c) (fun canonical =>
        require (verifyEd25519 key (signature envelope) canonical) BadSignature
        (require (constantTimeEqual (bodyHash c) (sha256 (responseBody a))) BodyHashMismatch
        (encoded (buildHeadersCommittedBytes (responseHeaders a)) (fun headersBytes =>
        require (constantTimeEqual (headersHash c) (sha256 headersBytes)) HeadersHashMismatch
        (require (in_window (nowMs a) (timestampMs c)) ClockSkew
        (require (is_2xx (status c)) StatusOutOfRange
        (Ok (inr envelope))))))))
    end)))).

(** ** Archival verification *)

Record CompromiseNotice := mkNotice { n_compromisedAtMs : Z; n_verified : bool }.

Record VArchivalVerifyArgs := mkArchival {
  v_envelopeBytes : bytes;
  v_requestCanon : bytes;
  v_responseBody : bytes;
  v_responseHeaders : Headers;
  archivalPubkey : bytes;
  v_expectedActorFp : bytes;
  compromiseNotice : option CompromiseNotice;
}.

Definition trustedUnderCompromise (notice : option CompromiseNotice) (ts : Z) : bool :=
  match notice with
  | Some n => if n_verified n then negb (n_compromisedAtMs n <=? ts) else true
  | None => true
  end.

Definition verifyReceiptVArchival (a : VArchivalVerifyArgs) : V (Envelope ReceiptCommitment * bool) :=
  decoded (decodeReceiptBytes (v_envelopeBytes a)) (fun envelope =>
    let c := commitment envelope in
    require (constantTimeEqual (actorFp c) (v_expectedActorFp a)) ActorMismatch
    (require (constantTimeEqual (requestHash c) (sha256 (v_requestCanon a))) RequestHashMismatch
    (encoded (encodeCommitment c) (fun canonical =>
    require (verifyEd25519 (archivalPubkey a) (signature envelope) canonical) BadSignature
    (require (constantTimeEqual (bodyHash c) (sha256 (v_responseBody a))) BodyHashMismatch
    (encoded (buildHeadersCommittedBytes (v_responseHeaders a)) (fun headersBytes =>
    require (constantTimeEqual (headersHash c) (sha256 headersBytes)) HeadersHashMismatch
    (require (is_2xx (status c)) StatusOutOfRange
    (Ok (inr (envelope, trustedUnderCompromise (compromiseNotice a) (timestampMs c)))))))))))).

(** ** Streams *)

Record StreamOpenVerifyArgs := mkOpenArgs {
  so_headerValue : jsstr;
  so_expectedActorFp : bytes;
  so_currentEpoch : Z;
  so_prevEpoch : option Z;
  so_resolvePubkey : Z -> option bytes;
  so_expectedNonce : bytes;
  so_requestCanon : bytes;
  so_nowMs : Z;
}.

Definition decode_b64 {A} (text : jsstr) (decode : bytes -> result fault A) : result fault A :=
  match Base64.b64decode text with None => Throw (Reject BadBase64) | Some bs => decode bs end.

(** The envelope and the hash of its commitment. *)
Definition verifyStreamOpen (a : StreamOpenVerifyArgs) : V (Envelope StreamOpenCommitment * bytes) :=
  decoded (decode_b64 (so_headerValue a) decodeStreamOpenEnvelopeBytes) (fun envelope =>
    let c := commitment envelope in
    require (constantTimeEqual (so_nonce c) (so_expectedNonce a)) NonceMismatch
    (require (constantTimeEqual (so_requestHash c) (sha256 (so_requestCanon a))) RequestHashMismatch
    (require (constantTimeEqual (so_actorFp c) (so_expectedActorFp a)) ActorMismatch
    (require (epoch_accepted (so_epoch c) (so_currentEpoch a) (so_prevEpoch a)) EpochNotCurrent
    match so_resolvePubkey a (so_epoch c) with
    | None => refuse PubkeyUnavailable
    | Some key =>
        encoded (encodeStreamOpenCommitment c) (fun canonical =>
        require (verifyEd25519 key (signature envelope) canonical) BadSignature
        (require (in_window (so_nowMs a) (so_timestampMs c)) ClockSkew
        (require (so_status c =? 200) StatusOutOfRange
        (Ok (inr (envelope, sha256 canonical))))))
    end)))).

Record StreamCloseVerifyArgs := mkCloseArgs {
  payload : jsstr;
  expectedOpenCommitmentHash : bytes;
  expectedTipHash : bytes;
  sc_pubkey : bytes;
}.

Definition verifyStreamClose (a : StreamCloseVerifyArgs) : V (Envelope StreamCloseCommitment) :=
  decoded (decode_b64 (payload a) decodeStreamCloseEnvelopeBytes) (fun envelope =>
    let c := commitment envelope in
    require (constantTimeEqual (sc_openCommitmentHash c) (expectedOpenCommitmentHash a)) OpenHashMismatch
    (require (constantTimeEqual (sc_tipHash c) (expectedTipHash a)) TipHashMismatch
    (encoded (encodeStreamCloseCommitment c) (fun canonical =>
    require (verifyEd25519 (sc_pubkey a) (signature envelope) canonical) BadSignature
    (Ok (inr envelope)))))).

(** ** Compromise notices *)

Record CompromiseNoticeCommitment := mkNoticeCommitment {
  compromisedEpoch : Z;
  compromisedAtMs : Z;
  prevPubkeyFp : bytes;
  rotationActorFp : bytes;
  noticeAtMs : Z;
}.

Definition compromiseNoticeCborMap (c : CompromiseNoticeCommitment) : value :=
  VMap [(js "compromised_at_ms", num (compromisedAtMs c)); (js "compromised_epoch", num (compromisedEpoch c));
        (js "notice_at_ms", num (noticeAtMs c)); (js "prev_pubkey_fp", VBytes (prevPubkeyFp c));
        (js "rotation_actor_fp", VBytes (rotationActorFp c))].

Definition encodeCompromiseNotice (c : CompromiseNoticeCommitment) : result cbor_error bytes :=
  canonicalCbor (compromiseNoticeCborMap c).
Definition encodeCompromiseNoticeEnvelope (env : Envelope CompromiseNoticeCommitment) : result cbor_error bytes :=
  canonicalCbor (VMap (sealed (compromiseNoticeCborMap (commitment env)) (signature env))).

Definition signCompromiseNotice `{Ed25519Sign} (c : CompromiseNoticeCommitment) (nextEpochSigner : ReceiptSigner)
    : result cbor_error (Envelope CompromiseNoticeCommitment * bytes * jsstr) :=
  let? canon := encodeCompromiseNotice c in
  let envelope := mkEnvelope c (sign nextEpochSigner canon) in
  let? bs := encodeCompromiseNoticeEnvelope envelope in
  Ok (envelope, bs, b64urlEncode bs).

Definition NOTICE_KEYS : list jsstr := map js
  ["compromised_at_ms"; "compromised_epoch"; "notice_at_ms"; "prev_pubkey_fp"; "rotation_actor_fp"]%string.

Definition parse_notice (entries : list (jsstr * value)) : result fault CompromiseNoticeCommitment :=
  let m := VMap entries in
  let? _ := check_keys entries NOTICE_KEYS [] in
  let? at_ := number_field m (js "compromised_at_ms") in
  let? ep := number_field m (js "compromised_epoch") in
  let? notice := number_field m (js "notice_at_ms") in
  let? prev := bytes_field m (js "prev_pubkey_fp") is_32 in
  let? rotation := bytes_field m (js "rotation_actor_fp") is_32 in
  Ok (mkNoticeCommitment ep at_ prev rotation notice).

Definition decodeCompromiseNotice (bs : bytes) : result fault (Envelope CompromiseNoticeCommitment) :=
  let? m := decode_map bs in
  let? _ := check (has_keys m SEALED_KEYS) UnexpectedKeys in
  let? '(entries, sig) := open_envelope m in
  let? c := parse_notice entries in
  Ok (mkEnvelope c sig).

Record VerifyCompromiseNoticeArgs := mkNoticeArgs {
  n_envelopeBytes : bytes;
  nextEpochPubkey : bytes;
  expectedPrevPubkeyFp : bytes;
}.

Definition verifyCompromiseNotice (a : VerifyCompromiseNoticeArgs) : V (Envelope CompromiseNoticeCommitment) :=
  decoded (decodeCompromiseNotice (n_envelopeBytes a)) (fun env =>
    encoded (encodeCompromiseNotice (commitment env)) (fun canon =>
    require (verifyEd25519 (nextEpochPubkey a) (signature env) canon) BadSignature
    (require (constantTimeEqual (prevPubkeyFp (commitment env)) (expectedPrevPubkeyFp a)) PrevPubkeyMismatch
    (Ok (inr env))))).

Definition pubkeyFingerprint (key : bytes) : bytes := sha256 key.
End verify.

(** ** Facts *)

Lemma i32_0 z : i32 z = 0 <-> u32 z = 0.
Proof. unfold i32. pose proof (u32_range z). destruct (Z.ltb_spec (u32 z) (2 ^ 31)); lia. Qed.

Lemma difference_0 l acc :
  u32 (foldl (fun diff xy => js_or diff (js_xor (b2z xy.1) (b2z xy.2))) acc l) = 0 <->
  u32 acc = 0 /\ Forall (fun xy => xy.1 = xy.2) l.
Proof.
  revert acc. induction l as [|[x y] l IH]; intros acc; cbn [foldl]; [rewrite Forall_nil; tauto|].
  rewrite IH, Forall_cons. unfold js_or, js_xor. rewrite u32_i32, u32_lor_0, u32_i32, u32_lxor_0. cbn [fst snd].
  pose proof (b2z_range x). pose proof (b2z_range y). rewrite (u32_small (b2z x)), (u32_small (b2z y)) by lia.
  assert (b2z x = b2z y <-> x = y) by (split; [apply (inj b2z)|by intros ->]). tauto.
Qed.

Lemma difference_i32 l acc :
  acc = i32 acc -> let d := foldl (fun diff xy => js_or diff (js_xor (b2z xy.1) (b2z xy.2))) acc l in d = i32 d.
Proof.
  revert acc. induction l as [|[x y] l IH]; intros acc Hacc; [done|]. apply IH. unfold js_or.
  apply i32_ext. by rewrite u32_i32.
Qed.

Lemma zip_equal (a b : bytes) : length a = length b -> Forall (fun xy => xy.1 = xy.2) (zip a b) <-> a = b.
Proof.
  revert b. induction a as [|x a IH]; intros [|y b]; cbn; try done. intros [= Hl].
  rewrite Forall_cons, IH by done. cbn. naive_solver.
Qed.

Lemma constantTimeEqual_eq a b : constantTimeEqual a b = bool_decide (a = b).
Proof.
  unfold constantTimeEqual. destruct (Z.eqb_spec (blen a) (blen b)) as [E|E]; cbn [negb].
  2:{ rewrite bool_decide_false; [done|]. intros ->. done. }
  assert (Hl : length a = length b) by (unfold blen in E; lia).
  apply eq_true_iff_eq. rewrite Z.eqb_eq, bool_decide_eq_true, <- zip_equal by done.
  pose proof (difference_0 (zip a b) 0) as Hd. rewrite (difference_i32 (zip a b) 0 eq_refl), i32_0, Hd.
  split; [by intros [_ ?]|by split].
Qed.


(** ** What is signed *)

Record notice_ok (c : CompromiseNoticeCommitment) : Prop := {
  no_epoch : int_ok (compromisedEpoch c);
  no_at : int_ok (compromisedAtMs c);
  no_notice : int_ok (noticeAtMs c);
  no_prev : blen (prevPubkeyFp c) = 32;
  no_rotation : blen (rotationActorFp c) = 32;
}.

Lemma notice_map_ok c : notice_ok c -> ok (compromiseNoticeCborMap c).
Proof. intros [? ? ? ? ?]. apply map_ok; [vm_compute; reflexivity|]. entries_ok. Qed.

Lemma parse_notice_reads m c : notice_ok c -> reads_like m (compromiseNoticeCborMap c) -> parse_notice m = Ok c.
Proof.
  intros [? ? ? ? ?] (l & [= <-] & Hp & Hk & Ha). unfold parse_notice.
  rewrite (check_keys_reads m _ Hp Hk Ha); [cbn [rbind]| |].
  2:{ repeat constructor; eexists; reflexivity. }
  2:{ apply (bool_decide_unpack _); vm_compute; exact I. }
  repeat field. by destruct c.
Qed.

(** The messages one actor key signs. *)
Inductive message :=
  | Receipt (c : ReceiptCommitment)
  | StreamOpen (c : StreamOpenCommitment)
  | StreamClose (c : StreamCloseCommitment)
  | Notice (c : CompromiseNoticeCommitment).

Definition message_map (m : message) : value :=
  match m with
  | Receipt c => commitmentCborMap c
  | StreamOpen c => streamOpenCborMap c
  | StreamClose c => streamCloseCborMap c
  | Notice c => compromiseNoticeCborMap c
  end.

Definition signed_bytes (m : message) : result cbor_error bytes :=
  match m with
  | Receipt c => encodeCommitment c
  | StreamOpen c => encodeStreamOpenCommitment c
  | StreamClose c => encodeStreamCloseCommitment c
  | Notice c => encodeCompromiseNotice c
  end.

Definition message_ok (m : message) : Prop :=
  match m with Receipt c => commitment_ok c | StreamOpen c => open_ok c | StreamClose c => close_ok_ c | Notice c => notice_ok c end.

Lemma message_bytes m : signed_bytes m = canonicalCbor (message_map m).
Proof. by destruct m. Qed.

Lemma message_map_ok m : message_ok m -> ok (message_map m).
Proof. destruct m; [apply commitment_map_ok|apply open_map_ok|apply close_map_ok|apply notice_map_ok]. Qed.

Lemma message_is_map m : is_map (message_map m).
Proof. by destruct m. Qed.

(** A message is known from a map that reads like it, and its kind. *)
Definition parse_message (m : message) (entries : list (jsstr * value)) : option message :=
  match m with
  | Receipt _ => match parseCommitmentMap entries with Ok c => Some (Receipt c) | Throw _ => None end
  | StreamOpen _ => match parseStreamOpenMap entries with Ok c => Some (StreamOpen c) | Throw _ => None end
  | StreamClose _ => match parseStreamCloseMap entries with Ok c => Some (StreamClose c) | Throw _ => None end
  | Notice _ => match parse_notice entries with Ok c => Some (Notice c) | Throw _ => None end
  end.

Lemma parse_message_reads m entries : message_ok m -> reads_like entries (message_map m) -> parse_message m entries = Some m.
Proof.
  destruct m as [c|c|c|c]; cbn [message_ok message_map parse_message]; intros Ho Hr;
    [by rewrite (parse_commitment entries c Ho Hr)|by rewrite (parse_open entries c Ho Hr)
    |by rewrite (parse_close entries c Ho Hr)|by rewrite (parse_notice_reads entries c Ho Hr)].
Qed.

(** The kind of a message shows in its keys. *)
Definition entries_of (m : message) : list (jsstr * value) := match message_map m with VMap l => l | _ => [] end.
Definition marks : list jsstr := [js "body_hash"; js "stream_mode"; js "tip_hash"; js "notice_at_ms"].
Definition kind_of (m : message) : list bool := map (fun k => bool_decide (k ∈ map fst (entries_of m))) marks.

Lemma kind_of_spec m :
  kind_of m = match m with
              | Receipt _ => [true; false; false; false] | StreamOpen _ => [false; true; false; false]
              | StreamClose _ => [false; false; true; false] | Notice _ => [false; false; false; true]
              end.
Proof. destruct m as [c|c|c|c]; [unfold kind_of, entries_of; cbn [message_map commitmentCborMap]; destruct (originsHash c)|..]; vm_compute; reflexivity. Qed.

Lemma same_kind m m' bs :
  message_ok m -> message_ok m' -> signed_bytes m = Ok bs -> signed_bytes m' = Ok bs -> kind_of m = kind_of m'.
Proof.
  rewrite !message_bytes. intros Ho%message_map_ok Ho'%message_map_ok E E'. unfold kind_of, entries_of.
  pose proof (message_is_map m) as Hm. pose proof (message_is_map m') as Hm'.
  destruct (message_map m) as [| | | | |l], (message_map m') as [| | | | |l']; try done.
  apply map_ext_in. intros k _. by eapply other_keys.
Qed.

(** ** Verdicts *)

Lemma require_ok {A} b r (k : V A) x : require b r k = Ok (inr x) <-> b = true /\ k = Ok (inr x).
Proof. unfold require. destruct b; [naive_solver|]. split; [done|by intros [? _]]. Qed.

Lemma decoded_ok {A B} r (k : A -> V B) x : decoded r k = Ok (inr x) <-> exists a, r = Ok a /\ k a = Ok (inr x).
Proof. unfold decoded. destruct r as [a|[e|]]; naive_solver. Qed.

Lemma encoded_ok {A B} r (k : A -> V B) x : encoded r k = Ok (inr x) <-> exists a, r = Ok a /\ k a = Ok (inr x).
Proof. unfold encoded. destruct r as [a|e]; naive_solver. Qed.

Lemma epoch_accepted_iff e cur prev : epoch_accepted e cur prev = true <-> e = cur \/ prev = Some e.
Proof. unfold epoch_accepted. rewrite orb_true_iff, Z.eqb_eq, bool_decide_eq_true. naive_solver. Qed.

Lemma in_window_iff now ts : in_window now ts = true <-> Z.abs (now - ts) <= RECEIPT_CLOCK_SKEW_MS.
Proof. unfold in_window. rewrite negb_true_iff, Z.ltb_ge. done. Qed.

Lemma is_2xx_iff s : is_2xx s = true <-> 200 <= s < 300.
Proof. unfold is_2xx. rewrite negb_true_iff, orb_false_iff, Z.ltb_ge, Z.leb_gt. done. Qed.

Lemma equal_iff a b : constantTimeEqual a b = true <-> a = b.
Proof. by rewrite constantTimeEqual_eq, bool_decide_eq_true. Qed.

Lemma verifyEd25519_iff `{Ed25519} key sig m :
  verifyEd25519 key sig m = true <-> blen key = 32 /\ blen sig = 64 /\ ed25519_verify key sig m = Some true.
Proof.
  unfold verifyEd25519. destruct (Z.eqb_spec (blen key) 32), (Z.eqb_spec (blen sig) 64); cbn [negb orb].
  all: try (split; [done|tauto]). destruct (ed25519_verify key sig m) as [[]|]; naive_solver.
Qed.

(** ** Properties *)

(** C25: The verifier of a live receipt accepts exactly what the specification asks for.  It answers
    the envelope just when the header decodes strictly to it, the commitment names the request's
    nonce and hash, the pinned actor and the current or previous epoch, the key of that epoch
    verifies the signature over the re-encoded commitment, the observed body and headers hash to
    the committed values, the timestamp is within the skew and the status is 2xx. *)
Theorem receipt_accepted_iff `{Sha256} `{Ed25519} a env :
  let c := commitment env in
  verifyReceiptPLive a = Ok (inr env) <->
  decodeReceiptHeader (headerValue a) = Ok env /\
  nonce c = expectedNonce a /\ requestHash c = sha256 (requestCanon a) /\ actorFp c = expectedActorFp a /\
  (epoch c = currentEpoch a \/ prevEpoch a = Some (epoch c)) /\
  exists key canonical headersBytes,
    resolvePubkey a (epoch c) = Some key /\ encodeCommitment c = Ok canonical /\
    (blen key = 32 /\ blen (signature env) = 64 /\ ed25519_verify key (signature env) canonical = Some true) /\
    bodyHash c = sha256 (responseBody a) /\
    buildHeadersCommittedBytes (responseHeaders a) = Ok headersBytes /\ headersHash c = sha256 headersBytes /\
    Z.abs (nowMs a - timestampMs c) <= RECEIPT_CLOCK_SKEW_MS /\ 200 <= status c < 300.
Proof.
  intros c. unfold verifyReceiptPLive. rewrite decoded_ok. subst c. split.
  - intros (e & Ed & Hv). cbv zeta in Hv. rewrite !require_ok, !equal_iff, epoch_accepted_iff in Hv.
    destruct Hv as (H1 & H2 & H3 & H4 & Hv). destruct (resolvePubkey a (epoch (commitment e))) as [key|] eqn:Ek; [|done].
    apply encoded_ok in Hv as (canon & Ec & Hv). rewrite !require_ok, verifyEd25519_iff, equal_iff in Hv.
    destruct Hv as (H5 & H6 & Hv). apply encoded_ok in Hv as (hb & Eh & Hv).
    rewrite !require_ok, equal_iff, in_window_iff, is_2xx_iff in Hv. destruct Hv as (H7 & H8 & H9 & [= ->]).
    do 5 (split; [done|]). by exists key, canon, hb.
  - intros (Ed & H1 & H2 & H3 & H4 & key & canon & hb & Ek & Ec & H5 & H6 & Eh & H7 & H8 & H9).
    exists env. split; [done|]. cbv zeta. rewrite !require_ok, !equal_iff, epoch_accepted_iff.
    do 4 (split; [done|]). rewrite Ek, encoded_ok. exists canon. split; [done|].
    rewrite !require_ok, verifyEd25519_iff, equal_iff. do 2 (split; [done|]). rewrite encoded_ok.
    exists hb. split; [done|]. by rewrite !require_ok, equal_iff, in_window_iff, is_2xx_iff.
Qed.

(** A signature is for one message of one kind.  Receipts, stream openings, stream closings and
    compromise notices are signed with the same actor key; well-formed messages with the same
    signed bytes are the same message, so no signature can be presented for another response,
    another stream or as another kind of statement. *)
Theorem signed_bytes_bind m m' bs :
  message_ok m -> message_ok m' -> signed_bytes m = Ok bs -> signed_bytes m' = Ok bs -> m = m'.
Proof.
  intros Ho Ho' E E'. pose proof (same_kind m m' bs Ho Ho' E E') as Hk. rewrite !kind_of_spec in Hk.
  rewrite message_bytes in E, E'.
  destruct (same_bytes_read _ _ bs (message_map_ok m Ho) (message_map_ok m' Ho') (message_is_map m) E E') as (l & Hr & Hr').
  specialize (Hr' (message_is_map m')). pose proof (parse_message_reads m l Ho Hr) as P.
  pose proof (parse_message_reads m' l Ho' Hr') as P'. destruct m, m'; try done; cbn in P, P'; congruence.
Qed.

Definition demo_close : message :=
  StreamClose (mkClose (replicate 16 (z2b 1)) (replicate 32 (z2b 2)) (replicate 32 (z2b 3)) 7 close_ok 1700000000000).
Definition demo_bytes : bytes := match signed_bytes demo_close with Ok b => b | Throw _ => [] end.

Lemma signed_bytes_bind_witness :
  exists m', signed_bytes m' = Ok demo_bytes /\ demo_close = m'.
Proof.
  assert (Hok : message_ok demo_close).
  { split; unfold int_ok, arg_ok; cbn; try reflexivity; lia. }
  exists demo_close. split; [by vm_compute|].
  apply (signed_bytes_bind demo_close demo_close demo_bytes Hok Hok); vm_compute; reflexivity.
Defined.

End ReceiptVerify.
