(* ===== verification/ReceiptEmit.v ===== *)
(** Emission of receipts: the signer delegated to the authority
    (src/wire/receipt-delegated-signer.ts), the emitter around a response
    (src/routes/receipt-emitter.ts) and the guard of audit rows (src/routes/receipt-guard.ts).

    The authority behind the RPC binding is a record of operations on a state of its own. *)
From S2P Require Import Prelude JsString Sql Platform Json Base64 Origin ReceiptsCbor ReceiptWire ReceiptVerify.

Module ReceiptEmit.
Import ReceiptsCbor ReceiptWire.

(** ** The delegated signer *)

Inductive facts_reply :=
  | Facts (actorFp : bytes) (epoch : js_number)
  | OtherReply
  | NullReply.

Inductive sign_reply := SignOk (signature : bytes) | SignErr (code message : jsstr).

Inductive exn :=
  | RpcThrew
  | Encoder (e : cbor_error)
  | DelegatedReceiptSignError (code message : jsstr)
  | BodyUsed
  | NullBodyStatus
  | OutsideModel.

(** The authority: its operations can throw, and can change its state. *)
Record authority (S : Type) := mkAuthority {
  receiptFacts : S -> S * option facts_reply;
  signReceipt : bytes -> S -> S * option sign_reply;
}.
Arguments receiptFacts {S}. Arguments signReceipt {S}.

(** The cached facts, the authority, and whether the body of the response at hand was read. *)
Record emitter (S : Type) := mkEmitter { cached : option facts_reply; remote_state : S; body_used : bool }.
Arguments mkEmitter {S}. Arguments cached {S}. Arguments remote_state {S}. Arguments body_used {S}.

Section emission.
Context {S : Type} (notme : authority S).
Context `{Sha256} `{Ed25519Sign}.

Definition RETRYABLE_COMMITMENT_CODE : jsstr := js "EPOCH_MISMATCH".

Definition E (A : Type) : Type := M (emitter S) exn A.

Definition set_cache (c : option facts_reply) : E unit := fun e =>
  (mkEmitter c (remote_state e) (body_used e), Ok tt).

Definition rpc {A} (f : S -> S * option A) : E A := fun e =>
  let '(s, r) := f (remote_state e) in
  (mkEmitter (cached e) s (body_used e), match r with Some a => Ok a | None => Throw RpcThrew end).

Definition facts : E facts_reply :=
  let* c := read cached in
  match c with
  | Some f => ret f
  | None =>
      let* f := rpc (receiptFacts notme) in
      do* set_cache (match f with NullReply => None | _ => Some f end) in
      ret f
  end.

Definition invalidateFacts : E unit := set_cache None.

(** The actor fingerprint and the epoch, when the far side answers like the entrypoint. *)
Definition probe : E (option (bytes * Z)) :=
  catch
    (let* f := facts in
     ret (match f with
          | Facts fp (NInt ep) => if blen fp =? 32 then Some (fp, ep) else None
          | _ => None
          end))
    (fun _ => do* invalidateFacts in ret None).

Definition encoder {A} (r : result cbor_error A) : E A := fun e =>
  match r with Ok a => (e, Ok a) | Throw x => (e, Throw (Encoder x)) end.

(** The retried commitment carries the authority's facts; a reply of another shape is outside
    the model. *)
Definition retried (c : ReceiptCommitment) (f : facts_reply) : result exn ReceiptCommitment :=
  match f with
  | Facts fp (NInt ep) =>
      Ok (mkCommitment (nonce c) (requestHash c) (status c) (bodyHash c) (headersHash c) (timestampMs c)
            fp (originsHash c) ep)
  | Facts _ NFraction => Throw (Encoder NonInteger)
  | Facts _ NNotFinite => Throw (Encoder NonFinite)
  | OtherReply | NullReply => Throw OutsideModel
  end.

(** The commitment that was signed, with its signature. *)
Definition signCommitment (c : ReceiptCommitment) : E (bytes * ReceiptCommitment) :=
  let* canon := encoder (encodeCommitment c) in
  let* first := rpc (signReceipt notme canon) in
  match first with
  | SignOk sig => ret (sig, c)
  | SignErr code message =>
      if negb (bool_decide (code = RETRYABLE_COMMITMENT_CODE)) then throw (DelegatedReceiptSignError code message)
      else
        do* invalidateFacts in
        let* fresh := facts in
        match retried c fresh with
        | Throw e => throw e
        | Ok c' =>
            let* canon' := encoder (encodeCommitment c') in
            let* second := rpc (signReceipt notme canon') in
            match second with
            | SignOk sig => ret (sig, c')
            | SignErr code message => throw (DelegatedReceiptSignError code message)
            end
        end
  end.

Definition signDelegatedCommitmentToHeader (c : ReceiptCommitment) : E jsstr :=
  let* '(sig, c') := signCommitment c in
  let* envelopeBytes := encoder (encodeReceiptEnvelope (mkEnvelope c' sig)) in
  ret (b64urlEncode envelopeBytes).

(** ** The emission context *)

Record Env := mkEnv {
  has_NOTME_RECEIPTS : bool;
  RECEIPT_SIGNING_KEY : option jsstr;
  RECEIPT_ACTOR_FP : option jsstr;
  RECEIPT_EPOCH : option jsstr;
}.

Inductive ctx_signer := Local (s : ReceiptSigner) | Delegated | NoSigner.

Record ReceiptEmissionContext := mkCtx {
  ctx_nowMs : Z;
  ctx_requestCanon : bytes;
  ctx_nonce : bytes;
  ctx_sign : ctx_signer;
  ctx_actorFp : bytes;
  ctx_epoch : Z;
  ctx_origins : option Origin.OriginSet;
}.

Definition loadReceiptSigner (env : Env) : option ReceiptSigner :=
  match RECEIPT_SIGNING_KEY env with
  | None | Some [] => None
  | Some raw => kp ← b64stdDecode raw; makeReceiptSignerFromKeypair kp
  end.

(** /^[0-9a-fA-F]{64}$/ and the bytes it spells. *)
Definition hex_value (c : Z) : option Z :=
  if (48 <=? c) && (c <=? 57) then Some (c - 48)
  else if (97 <=? c) && (c <=? 102) then Some (c - 87)
  else if (65 <=? c) && (c <=? 70) then Some (c - 55)
  else None.

Fixpoint hex_bytes (s : jsstr) : option bytes :=
  match s with
  | [] => Some []
  | a :: b :: s' => x ← hex_value a; y ← hex_value b; rest ← hex_bytes s'; Some (z2b (16 * x + y) :: rest)
  | [_] => None
  end.

Definition pinned_fp (s : jsstr) : option bytes := if (length s =? 64)%nat then hex_bytes s else None.

Definition resolveActorFingerprint (env : Env) (pubkey : bytes) : bytes :=
  match RECEIPT_ACTOR_FP env ≫= pinned_fp with Some fp => fp | None => sha256 pubkey end.

Definition resolveEpoch (env : Env) : Z :=
  match RECEIPT_EPOCH env with
  | None | Some [] => 1
  | Some s => match parse_int s with Int n => if n <? 0 then 1 else Number n | _ => 1 end
  end.

Definition buildEmissionContext (env : Env) (nowMs : Z) (requestCanon nonce : bytes) : E (option ReceiptEmissionContext) :=
  let* found := if has_NOTME_RECEIPTS env then probe else ret None in
  match found with
  | Some (fp, ep) => ret (Some (mkCtx nowMs requestCanon nonce Delegated fp ep None))
  | None =>
      ret (match loadReceiptSigner env with
           | None => None
           | Some signer =>
               Some (mkCtx nowMs requestCanon nonce (Local signer)
                       (resolveActorFingerprint env (pubkey signer)) (resolveEpoch env) None)
           end)
  end.

(** ** The response *)

Record Response := mkResponse { r_status : Z; r_headers : Headers; r_body : bytes }.

Definition get_header (hs : Headers) (name : string) : option jsstr := hs !! js name.

Definition EXPOSE : jsstr := js "access-control-expose-headers".

(** [split(/,\s*/)] *)
Fixpoint drop_spaces (s : jsstr) : jsstr :=
  match s with c :: s' => if js_space c then drop_spaces s' else s | [] => [] end.
Definition comma_list (s : jsstr) : list jsstr :=
  match split_on 44 s with [] => [] | first :: rest => first :: map drop_spaces rest end.

Definition appendAccessControlExposeHeader (hs : Headers) (name : jsstr) : Headers :=
  match hs !! EXPOSE with
  | None | Some [] => <[EXPOSE := name]> hs
  | Some cur =>
      if bool_decide (to_lower name ∈ map to_lower (comma_list cur)) then hs
      else <[EXPOSE := cur ++ js ", " ++ name]> hs
  end.

(** [new Response(bytes, { status })] refuses a body under these statuses. *)
Definition null_body_status (s : Z) : bool := bool_decide (s ∈ [101; 103; 204; 205; 304]).

Definition read_body (r : Response) : E bytes := fun e =>
  if body_used e then (e, Throw BodyUsed)
  else (mkEmitter (cached e) (remote_state e) true, Ok (r_body r)).

Definition sign_header (c : ReceiptCommitment) (by_ : ctx_signer) : E jsstr :=
  match by_ with
  | Local s => let* signed := encoder (signCommitmentToHeader c s) in ret (headerValue signed)
  | _ => signDelegatedCommitmentToHeader c
  end.

Definition is_event_stream (hs : Headers) : bool :=
  starts_with (js "text/event-stream") (to_lower (default [] (get_header hs "content-type"))).

Definition commitment_of (r : Response) (ctx : ReceiptEmissionContext) (headersBytes : bytes) : ReceiptCommitment :=
  mkCommitment (ctx_nonce ctx) (sha256 (ctx_requestCanon ctx)) (r_status r) (sha256 (r_body r)) (sha256 headersBytes)
    (ctx_nowMs ctx) (ctx_actorFp ctx) (ctx_origins ctx ≫= Origin.originsDigest) (ctx_epoch ctx).

Definition attachReceipt (r : Response) (ctx : ReceiptEmissionContext) : E Response :=
  match ctx_sign ctx with
  | NoSigner => ret r
  | by_ =>
      if (r_status r <? 200) || (300 <=? r_status r) then ret r
      else if is_event_stream (r_headers r) then ret r
      else
        let* bodyBuf := read_body r in
        let outgoing := appendAccessControlExposeHeader (r_headers r) INTERLACE_RECEIPT_HEADER in
        let* headersBytes := encoder (buildHeadersCommittedBytes outgoing) in
        let* value := sign_header (commitment_of r ctx headersBytes) by_ in
        let newHeaders := <[to_lower INTERLACE_RECEIPT_HEADER := value]> outgoing in
        if null_body_status (r_status r) then throw NullBodyStatus
        else ret (mkResponse (r_status r) newHeaders bodyBuf)
  end.

End emission.

(** ** The guard of audit rows *)

Definition FORBIDDEN_RECEIPT_FIELD_MARKERS : list jsstr := map js
  ["cred"; "apikey"; "secret"; "token"; "password"; "passphrase"; "privatekey"; "authorization"; "cookie"]%string.

Definition FORBIDDEN_RECEIPT_FIELD_NAMES : list jsstr := map js
  ["requestbody"; "reqbody"; "body"; "responsebody"; "respbody"; "query"; "querystring"; "queryparams";
   "searchparams"; "allowedsubs"]%string.

(** [name.toLowerCase().replace(/[_\-.\s]/g, "")] *)
Definition separator (c : Z) : bool := bool_decide (c ∈ js "_-.") || js_space c.
Definition normalize (name : jsstr) : jsstr := filter (fun c => separator c = false) (to_lower name).

Definition forbidden (key : jsstr) : bool :=
  let n := normalize key in
  bool_decide (n ∈ FORBIDDEN_RECEIPT_FIELD_NAMES) ||
  existsb (fun marker => includes_str marker n) FORBIDDEN_RECEIPT_FIELD_MARKERS.

(** The first forbidden key of a row. *)
Definition findForbiddenReceiptField (keys : list jsstr) : option jsstr := List.find forbidden keys.

(** ** The delegated signer signs what it returns *)

(** [c] with the authority's facts. *)
Definition with_facts (c : ReceiptCommitment) (fp : bytes) (ep : Z) : ReceiptCommitment :=
  mkCommitment (nonce c) (requestHash c) (status c) (bodyHash c) (headersHash c) (timestampMs c) fp (originsHash c) ep.

Section facts_about.
Context {S : Type} (notme : authority S).

Lemma rpc_ok {A} (f : S -> S * option A) e e' a :
  rpc f e = (e', Ok a) -> f (remote_state e) = (remote_state e', Some a) /\ cached e' = cached e /\ body_used e' = body_used e.
Proof. unfold rpc. destruct (f (remote_state e)) as [s [x|]]; intros [= <- <-]. done. Qed.

Lemma encoder_ok {A} r (e e' : emitter S) (a : A) : encoder r e = (e', Ok a) -> e' = e /\ r = Ok a.
Proof. unfold encoder. destruct r; by intros [= <- <-]. Qed.

(** One call, or a rotation: the first call is refused, the facts are read again, and the second
    call signs the commitment that carries them. *)
Lemma signCommitment_spec c e e' sig c' :
  signCommitment notme c e = (e', Ok (sig, c')) ->
  (exists bs, encodeCommitment c = Ok bs /\ c' = c /\
     signReceipt notme bs (remote_state e) = (remote_state e', Some (SignOk sig))) \/
  (exists bs s1 message s2 fp ep bs', encodeCommitment c = Ok bs /\
     signReceipt notme bs (remote_state e) = (s1, Some (SignErr RETRYABLE_COMMITMENT_CODE message)) /\
     receiptFacts notme s1 = (s2, Some (Facts fp (NInt ep))) /\
     c' = with_facts c fp ep /\ encodeCommitment c' = Ok bs' /\
     signReceipt notme bs' s2 = (remote_state e', Some (SignOk sig))).
Proof.
  unfold signCommitment. intros (e1 & bs & [-> Eb]%encoder_ok & H1)%bind_Ok.
  apply bind_Ok in H1 as (e2 & first & (Hf & Hc & Hu)%rpc_ok & H2).
  destruct first as [sig1|code message]; [left; injection H2 as <- <- <-; by exists bs|].
  destruct (bool_decide _) eqn:Ecode; [|done]. cbn [negb] in H2. apply bool_decide_eq_true in Ecode as ->.
  apply bind_Ok in H2 as (e3 & [] & [= <-] & H3). apply bind_Ok in H3 as (e4 & f & Hfacts & H4).
  unfold facts in Hfacts. apply bind_Ok in Hfacts as (e5 & c0 & [= <- <-] & Hfacts). cbn [cached] in Hfacts.
  apply bind_Ok in Hfacts as (e6 & f' & (Hrf & _ & _)%rpc_ok & Hfacts). cbn [remote_state] in Hrf.
  apply bind_Ok in Hfacts as (e7 & [] & [= <-] & [= <- <-]).
  destruct f' as [fp [ep| |]| |]; cbn [retried] in H4; try done.
  apply bind_Ok in H4 as (e8 & bs' & [-> Eb']%encoder_ok & H5). apply bind_Ok in H5 as (e9 & second & (Hs & _ & _)%rpc_ok & H6).
  destruct second as [sig2|]; [|done]. injection H6 as <- <- <-. cbn [remote_state] in Hs.
  right. by exists bs, (remote_state e2), message, (remote_state e6), fp, ep, bs'.
Qed.

(** ** The emitted receipt *)

Context `{Sha256} `{!Sha256Len} `{Ed25519} `{Ed25519Sign}.

(** What is documented of the authority.  Its master key may change from call to call, and what is
    signed names the key: the bytes of a commitment are signed by the very key whose hash is the
    commitment's [actorFp], any other commitment is refused.  The facts are well-formed. *)
Record honest : Prop := {
  honest_signs : forall c bs s s' sig, commitment_ok c -> encodeCommitment c = Ok bs ->
    signReceipt notme bs s = (s', Some (SignOk sig)) ->
    exists key, blen key = 32 /\ sha256 key = actorFp c /\ blen sig = 64 /\ ed25519_verify key sig bs = Some true;
  honest_facts : forall s s' fp ep, receiptFacts notme s = (s', Some (Facts fp (NInt ep))) -> blen fp = 32 /\ int_ok ep;
}.

(** The signer of a context makes signatures that verify. *)
Definition signs_well (by_ : ctx_signer) : Prop :=
  match by_ with
  | Local s => blen (pubkey s) = 32 /\ forall m, blen (ed25519_sign (seed s) m) = 64 /\
                 ed25519_verify (pubkey s) (ed25519_sign (seed s) m) m = Some true
  | Delegated => honest
  | NoSigner => False
  end.

(** The key under which a commitment is signed: the one of the environment, or the one that the
    commitment's actor is the hash of. *)
Definition signing_key (by_ : ctx_signer) (c : ReceiptCommitment) (key : bytes) : Prop :=
  match by_ with Local s => key = pubkey s | _ => sha256 key = actorFp c end.

Record context_ok (ctx : ReceiptEmissionContext) : Prop := {
  x_now : int_ok (ctx_nowMs ctx);
  x_nonce : 16 <= blen (ctx_nonce ctx) < 2 ^ 31;
  x_actor : blen (ctx_actorFp ctx) = 32;
  x_epoch : int_ok (ctx_epoch ctx);
}.

Lemma sha256_blen bs : blen (sha256 bs) = 32.
Proof. unfold blen. by rewrite sha256_length. Qed.

Lemma commitment_of_ok r ctx hb : context_ok ctx -> 200 <= r_status r < 300 -> commitment_ok (commitment_of r ctx hb).
Proof.
  intros [Hn Hnn Ha He] Hs. constructor; cbn; try (by apply sha256_blen); try done.
  - intros h Eh. unfold Origin.originsDigest in Eh. destruct (ctx_origins ctx) as [[|o os]|]; try done.
    injection Eh as <-. apply sha256_blen.
  - split; [left|]; lia.
Qed.

Lemma with_facts_ok c fp ep : commitment_ok c -> blen fp = 32 -> int_ok ep -> commitment_ok (with_facts c fp ep).
Proof. intros [? ? ? ? ? ? ? ? ?] ? ?. by constructor. Qed.

(** The header names the commitment that was signed; it differs from the one asked for in the
    actor's facts at most. *)
Lemma sign_header_spec c by_ e e' value :
  commitment_ok c -> signs_well by_ -> sign_header notme c by_ e = (e', Ok value) ->
  exists c' sig canonical key, commitment_ok c' /\ (exists fp ep, c' = with_facts c fp ep) /\
    blen key = 32 /\ signing_key by_ c' key /\
    encodeCommitment c' = Ok canonical /\ blen sig = 64 /\ ed25519_verify key sig canonical = Some true /\
    decodeReceiptHeader value = Ok (mkEnvelope c' sig).
Proof.
  intros Hc Hs Hv.
  assert (Hdec : forall c' sig bs, commitment_ok c' -> blen sig = 64 -> encodeReceiptEnvelope (mkEnvelope c' sig) = Ok bs ->
    decodeReceiptHeader (b64urlEncode bs) = Ok (mkEnvelope c' sig)).
  { intros c' sig bs Hc' Hl Eb. destruct (receipt_decodes c' sig Hc' Hl) as [Ee Ed]. rewrite Ee in Eb. injection Eb as <-.
    unfold decodeReceiptHeader, b64urlEncode. by rewrite Base64.b64decode_encode. }
  assert (Hself : exists fp ep, c = with_facts c fp ep) by (exists (actorFp c), (epoch c); by destruct c).
  destruct by_ as [s| |]; [| |done]; cbn [sign_header signs_well signing_key] in *.
  - destruct Hs as [Hk Hlaw]. apply bind_Ok in Hv as (e1 & sg & [-> Es]%encoder_ok & [= <- <-]).
    unfold signCommitmentToHeader in Es. destruct (encodeCommitment c) as [canon|x] eqn:Ec; [|done].
    cbn [rbind] in Es. destruct (encodeReceiptEnvelope _) as [envb|x] eqn:Ee; [|done]. injection Es as <-.
    destruct (Hlaw canon) as [Hl Hver]. exists c, (sign s canon), canon, (pubkey s). unfold sign in *. cbn [headerValue].
    do 7 (split; [done|]). by apply Hdec.
  - unfold signDelegatedCommitmentToHeader in Hv. apply bind_Ok in Hv as (e1 & [sig c'] & Hsc & Hv).
    apply bind_Ok in Hv as (e2 & envb & [-> Ee]%encoder_ok & [= <- <-]).
    destruct (signCommitment_spec c e e1 sig c' Hsc) as
      [(bs & Eb & -> & Hsr)|(bs & s1 & msg & s2 & fp & ep & bs' & Eb & _ & Hf & -> & Eb' & Hsr)].
    + destruct (honest_signs Hs _ _ _ _ _ Hc Eb Hsr) as (key & Hk & Ha & Hl & Hver). exists c, sig, bs, key.
      do 7 (split; [done|]). by apply Hdec.
    + destruct (honest_facts Hs _ _ _ _ Hf) as [Hfp Hep]. pose proof (with_facts_ok c fp ep Hc Hfp Hep) as Hok.
      destruct (honest_signs Hs _ _ _ _ _ Hok Eb' Hsr) as (key & Hk & Ha & Hl & Hver). exists (with_facts c fp ep), sig, bs', key.
      split; [done|]. split; [by exists fp, ep|]. do 5 (split; [done|]). by apply Hdec.
Qed.

(** The receipt's own header is not among the committed ones. *)
Lemma receipt_header_uncommitted hs value :
  buildHeadersCommittedBytes (<[to_lower INTERLACE_RECEIPT_HEADER := value]> hs) = buildHeadersCommittedBytes hs.
Proof.
  assert (Hn : Forall (fun name => to_lower INTERLACE_RECEIPT_HEADER <> name) HEADER_ALLOWLIST).
  { apply (bool_decide_unpack _). vm_compute. exact I. }
  unfold buildHeadersCommittedBytes. do 2 f_equal. induction Hn as [|name l Hne _ IH]; [done|].
  cbn [omap list_omap]. rewrite lookup_insert_ne by done. by rewrite IH.
Qed.


Lemma attachReceipt_runs r ctx e e' r' :
  ctx_sign ctx <> NoSigner -> 200 <= r_status r < 300 -> is_event_stream (r_headers r) = false ->
  attachReceipt notme r ctx e = (e', Ok r') ->
  exists hb value e1,
    buildHeadersCommittedBytes (appendAccessControlExposeHeader (r_headers r) INTERLACE_RECEIPT_HEADER) = Ok hb /\
    sign_header notme (commitment_of r ctx hb) (ctx_sign ctx) e1 = (e', Ok value) /\
    r' = mkResponse (r_status r)
           (<[to_lower INTERLACE_RECEIPT_HEADER := value]>
              (appendAccessControlExposeHeader (r_headers r) INTERLACE_RECEIPT_HEADER)) (r_body r).
Proof.
  intros Hs Hx Hst. unfold attachReceipt. destruct (ctx_sign ctx) as [ls| |] eqn:Ec; [| |done].
  all: rewrite (proj2 (orb_false_iff _ _)) by (split; lia); rewrite Hst.
  all: intros (e1 & b & Hb & Hr)%bind_Ok; unfold read_body in Hb; destruct (body_used e); [done|]; injection Hb as <- <-.
  all: apply bind_Ok in Hr as (e2 & hb & [-> Ehb]%encoder_ok & Hr).
  all: apply bind_Ok in Hr as (e3 & value & Hv & Hr); destruct (null_body_status _); [done|]; injection Hr as <- <-.
  all: by exists hb, value, (mkEmitter (cached e) (remote_state e) true).
Qed.

(** The answer's status and body are the original's, receipt or not. *)
Lemma attachReceipt_body r ctx e e' r' :
  attachReceipt notme r ctx e = (e', Ok r') -> r_status r' = r_status r /\ r_body r' = r_body r.
Proof.
  intros E. destruct (is_event_stream (r_headers r)) eqn:Hst.
  { unfold attachReceipt in E. destruct (ctx_sign ctx); [destruct (_ || _)..|]; rewrite ?Hst in E; by injection E as _ <-. }
  destruct (decide (200 <= r_status r < 300)) as [H2'|H2'].
  2:{ unfold attachReceipt in E. destruct (ctx_sign ctx); [| |by injection E as _ <-].
      all: destruct (_ || _) eqn:Eo in E; [by injection E as _ <-|]; apply orb_false_iff in Eo; lia. }
  assert (Hn : ctx_sign ctx = NoSigner \/ ctx_sign ctx <> NoSigner) by (destruct (ctx_sign ctx); auto).
  destruct Hn as [Hn|Hn]; [unfold attachReceipt in E; rewrite Hn in E; by injection E as _ <-|].
  by destruct (attachReceipt_runs r ctx e e' r' Hn H2' Hst E) as (hb & value & e1 & _ & _ & ->).
Qed.

(** ** The body of the response *)

(** A part that leaves the body of the response as it is: read or not. *)
Definition leaves_body {A} (m : E A) : Prop := forall e, body_used (S := S) (m e).1 = body_used e.

Lemma leaves_ret {A} (a : A) : leaves_body (ret a).
Proof. done. Qed.
Lemma leaves_throw {A} (x : exn) : leaves_body (throw (A := A) x).
Proof. done. Qed.
Lemma leaves_bind {A B} (m : E A) (k : A -> E B) : leaves_body m -> (forall a, leaves_body (k a)) -> leaves_body (bind m k).
Proof.
  intros Hm Hk e. unfold bind. specialize (Hm e). destruct (m e) as [e1 [a|x]]; cbn [fst] in *; [|done]. by rewrite Hk.
Qed.
Lemma leaves_catch {A} (m : E A) h : leaves_body m -> (forall x, leaves_body (h x)) -> leaves_body (catch m h).
Proof.
  intros Hm Hh e. unfold catch. specialize (Hm e). destruct (m e) as [e1 [a|x]]; cbn [fst] in *; [done|]. by rewrite Hh.
Qed.
Lemma leaves_rpc {A} (f : S -> S * option A) : leaves_body (rpc f).
Proof. intros e. unfold rpc. by destruct (f (remote_state e)). Qed.
Lemma leaves_set_cache c : leaves_body (set_cache c).
Proof. done. Qed.
Lemma leaves_read {A} (f : emitter S -> A) : leaves_body (read f).
Proof. done. Qed.
Lemma leaves_encoder {A} (r : result cbor_error A) : leaves_body (encoder r).
Proof. intros e. by destruct r. Qed.

#[local] Hint Resolve leaves_ret leaves_throw leaves_bind leaves_catch leaves_rpc leaves_set_cache leaves_read leaves_encoder : body.
Ltac leaves :=
  repeat first [progress eauto with body | apply leaves_bind; [|intros ?] | match goal with |- leaves_body (match ?x with _ => _ end) => destruct x end].

Lemma leaves_facts : leaves_body (facts notme).
Proof. unfold facts. leaves. Qed.
#[local] Hint Resolve leaves_facts : body.

Lemma leaves_probe : leaves_body (probe notme).
Proof. unfold probe, invalidateFacts. apply leaves_catch; intros; leaves. Qed.
#[local] Hint Resolve leaves_probe : body.

Lemma buildEmissionContext_body env now canon n : leaves_body (buildEmissionContext notme env now canon n).
Proof. unfold buildEmissionContext. leaves. Qed.

Lemma sign_header_body c by_ : leaves_body (sign_header notme c by_).
Proof. unfold sign_header, signDelegatedCommitmentToHeader, signCommitment, invalidateFacts. leaves. Qed.

(** An exception of the emitter comes after the body was read. *)
Lemma attachReceipt_throws r ctx e e' x : attachReceipt notme r ctx e = (e', Throw x) -> body_used e' = true.
Proof.
  unfold attachReceipt. destruct (ctx_sign ctx) as [ls| |]; [| |done].
  all: destruct (_ || _); [done|]; destruct (is_event_stream _); [done|]; unfold bind at 1, read_body.
  all: destruct (body_used e) eqn:Eu; [intros [= <- <-]; done|]; intros E.
  all: match type of E with ?m ?e1 = _ => assert (Hl : leaves_body m);
         [apply leaves_bind; [apply leaves_encoder|intros hb]; apply leaves_bind; [apply sign_header_body|intros value];
          destruct (null_body_status _); [apply leaves_throw|apply leaves_ret]|specialize (Hl e1)] end.
  all: by rewrite E in Hl.
Qed.

(** ** Properties *)

(** C26: What the emitter attaches, the client's verifier accepts.  Take a 2xx response that is no event
    stream, a context whose nonce has at least 16 and less than 2^31 bytes, whose clock and epoch are
    below 2^53 and outside [2^31, 2^32), and whose actor has 32 bytes ([context_ok]), and a signer whose
    signatures verify: the key of the environment, or the authority, which signs a commitment with the
    very key whose SHA-256 the commitment names as its actor, refuses any other, and may have changed
    that key and its epoch at every call ([signs_well]).  When the emitter answers, also after it read new facts
    and signed again because of a rotation, then the receipt in the answer verifies: a client that sent the
    context's nonce and canonical request and sees the answer's own body and headers, pins the actor and
    the epoch that the receipt names and resolves that epoch to the signing key, accepts it within the
    clock skew.  Body and status are the original's. *)
Theorem emitted_receipt_verifies r ctx e e' r' :
  signs_well (ctx_sign ctx) -> context_ok ctx ->
  200 <= r_status r < 300 -> is_event_stream (r_headers r) = false ->
  attachReceipt notme r ctx e = (e', Ok r') ->
  r_status r' = r_status r /\ r_body r' = r_body r /\
  exists env value key, r_headers r' !! to_lower INTERLACE_RECEIPT_HEADER = Some value /\
    decodeReceiptHeader value = Ok env /\ blen key = 32 /\ signing_key (ctx_sign ctx) (commitment env) key /\
    forall cur prev resolve now,
      cur = epoch (commitment env) \/ prev = Some (epoch (commitment env)) ->
      resolve (epoch (commitment env)) = Some key -> Z.abs (now - ctx_nowMs ctx) <= RECEIPT_CLOCK_SKEW_MS ->
      ReceiptVerify.verifyReceiptPLive
        (ReceiptVerify.mkPLive value (actorFp (commitment env)) cur prev resolve (ctx_nonce ctx)
           (ctx_requestCanon ctx) (r_body r') (r_headers r') now) = Ok (inr env).
Proof.
  intros Hs Hx Hst2 Hst Hr.
  destruct (attachReceipt_runs r ctx e e' r') as (hb & value & e1 & Ehb & Hv & ->); try done.
  { by destruct (ctx_sign ctx). }
  split; [done|]. split; [done|].
  destruct (sign_header_spec _ _ _ _ _ (commitment_of_ok r ctx hb Hx Hst2) Hs Hv)
    as (c & sig & canon & key & Hok & (fp & ep & Ec) & Hk & Hkey & Ecanon & Hl & Hver & Hdec).
  exists (mkEnvelope c sig), value, key. cbn [r_headers commitment]. split; [apply lookup_insert_eq|]. do 3 (split; [done|]).
  intros cur prev resolve now Hep Hres Hnow. unfold ReceiptVerify.verifyReceiptPLive. cbn -[buildHeadersCommittedBytes].
  rewrite ReceiptVerify.decoded_ok. exists (mkEnvelope c sig). split; [done|]. cbn [commitment signature].
  assert (Efields : nonce c = ctx_nonce ctx /\ requestHash c = sha256 (ctx_requestCanon ctx) /\ status c = r_status r /\
    bodyHash c = sha256 (r_body r) /\ headersHash c = sha256 hb /\ timestampMs c = ctx_nowMs ctx) by by rewrite Ec.
  destruct Efields as (E1 & E2 & E3 & E4 & E5 & E6).
  rewrite !ReceiptVerify.require_ok, !ReceiptVerify.equal_iff, ReceiptVerify.epoch_accepted_iff.
  split; [done|]. split; [done|]. split; [done|]. split; [naive_solver|].
  rewrite Hres, ReceiptVerify.encoded_ok. exists canon. split; [done|].
  rewrite !ReceiptVerify.require_ok, ReceiptVerify.verifyEd25519_iff, ReceiptVerify.equal_iff.
  split; [done|]. split; [done|]. rewrite ReceiptVerify.encoded_ok. exists hb.
  split; [by rewrite receipt_header_uncommitted|].
  rewrite !ReceiptVerify.require_ok, ReceiptVerify.equal_iff, ReceiptVerify.in_window_iff, ReceiptVerify.is_2xx_iff.
  rewrite E3, E5, E6. done.
Qed.

(** Responses that are owed no receipt pass through untouched: no signer, a status outside 2xx,
    or an event stream; neither the body nor the authority is touched. *)
Theorem receipt_passthrough r ctx e :
  ctx_sign ctx = NoSigner \/ ~ (200 <= r_status r < 300) \/ is_event_stream (r_headers r) = true ->
  attachReceipt notme r ctx e = (e, Ok r).
Proof.
  intros Hp. unfold attachReceipt. destruct (ctx_sign ctx) as [ls| |] eqn:Ec; [| |done].
  all: destruct ((r_status r <? 200) || (300 <=? r_status r)) eqn:E; [done|].
  all: apply orb_false_iff in E as [E1 E2]; destruct Hp as [?|[Hn|Hst]]; [done|lia|by rewrite Hst].
Qed.
End facts_about.

(** ** Examples *)

Definition demo_sign : Ed25519Sign := fun seed m => seed ++ @sha256 demo_sha256 m.
Definition demo_seed : bytes := replicate 32 (z2b 7).
Definition demo_signer : ReceiptSigner := mkSigner demo_seed demo_seed.

(** An authority that rotates: its state gives its epoch and its master key.  A commitment that does
    not name both is answered as stale. *)
Definition demo_key (s : Z) : bytes := replicate 32 (z2b (s mod 1000)).
Definition demo_notme : authority Z :=
  mkAuthority Z
    (fun s => (s, Some (Facts (demo_key s) (NInt (s mod 1000)))))
    (fun bs s => (s, Some (match decodeCanonicalCbor bs with
                           | Ok (VMap m) =>
                               match parseCommitmentMap m with
                               | Ok c => if bool_decide (actorFp c = demo_key s) && (epoch c =? s mod 1000)
                                         then SignOk (demo_key s ++ @sha256 demo_sha256 bs) else SignErr RETRYABLE_COMMITMENT_CODE []
                               | Throw _ => SignErr [] []
                               end
                           | _ => SignErr [] []
                           end))).

Definition demo_nonce : bytes := replicate 16 (z2b 9).
Definition demo_ctx (by_ : ctx_signer) (ep : Z) : ReceiptEmissionContext :=
  mkCtx 1700000000000 [z2b 1] demo_nonce by_ (demo_key ep) ep None.
Definition demo_response : Response := mkResponse 200 {[ js "content-type" := js "application/json" ]} [z2b 123; z2b 125].
Definition demo_emitter (s : Z) : emitter Z := mkEmitter None s false.

Definition demo_attach (by_ : ctx_signer) (ep s : Z) :=
  @attachReceipt Z demo_notme demo_sha256 demo_sign demo_response (demo_ctx by_ ep) (demo_emitter s).

#[local] Existing Instances demo_sha256 demo_ed25519 demo_sha256_len demo_sign.

Lemma demo_honest : honest demo_notme.
Proof.
  constructor.
  - intros c bs s s' sig Hc Eb E. cbn [demo_notme signReceipt] in E. pose proof (commitment_map_ok c Hc) as Hm.
    unfold encodeCommitment in Eb. rewrite (encode_ok _ Hm) in Eb. injection Eb as <-. injection E as _ E.
    rewrite (decode_enc _ Hm) in E. destruct (norm_reads _ Hm Logic.I) as (m & En & Hr). rewrite En, (parse_commitment m c Hc Hr) in E.
    destruct (bool_decide _) eqn:Ek; [|done]. destruct (epoch c =? _); [|done].
    assert (sig = demo_key s ++ sha256 (enc (commitmentCborMap c))) as -> by (injection E as <-; reflexivity).
    apply bool_decide_eq_true in Ek. exists (demo_key s). split; [done|]. split; [by rewrite Ek|].
    split.
    { unfold blen. rewrite length_app. unfold sha256, demo_sha256. rewrite length_take, length_app. unfold demo_key. rewrite !length_replicate. lia. }
    unfold ed25519_verify, demo_ed25519. by rewrite bool_decide_true.
  - intros s s' fp ep E. cbn in E. injection E as _ <- <-. split; [done|].
    pose proof (Z.mod_pos_bound s 1000 ltac:(lia)). split; [left|]; lia.
Qed.

Definition demo_answer : emitter Z * result exn Response := demo_attach Delegated 3 4.
Definition answer_of (r : result exn Response) : Response := match r with Ok x => x | Throw _ => demo_response end.

(** The context carries epoch 3 and its key, the authority has moved to 4: the receipt names 4, and is
    signed by the new key. *)
Lemma emitted_receipt_verifies_witness :
  let r' := answer_of demo_answer.2 in
  exists env value, r_headers r' !! to_lower INTERLACE_RECEIPT_HEADER = Some value /\ epoch (commitment env) = 4 /\
    demo_key 4 <> ctx_actorFp (demo_ctx Delegated 3) /\
    ReceiptVerify.verifyReceiptPLive
      (ReceiptVerify.mkPLive value (demo_key 4) 4 None (fun _ => Some (demo_key 4)) demo_nonce [z2b 1] (r_body r')
         (r_headers r') 1700000000500) = Ok (inr env).
Proof.
  intros r'.
  destruct (emitted_receipt_verifies demo_notme demo_response (demo_ctx Delegated 3) (demo_emitter 4) demo_answer.1 r')
    as (_ & _ & env & value & key & Hv & Ev & Hl & Hkey & Hver).
  - exact demo_honest.
  - constructor; [split; [right; split; reflexivity || discriminate|reflexivity]|split; [discriminate|reflexivity]|reflexivity|].
    split; [left; split; [discriminate|reflexivity]|reflexivity].
  - split; [discriminate|reflexivity].
  - reflexivity.
  - apply injective_projections; [reflexivity|]. vm_compute. reflexivity.
  - assert (Hc : match decodeReceiptHeader (default [] (r_headers r' !! to_lower INTERLACE_RECEIPT_HEADER)) with
                 | Ok env => epoch (commitment env) = 4 /\ actorFp (commitment env) = demo_key 4 | Throw _ => False end)
      by (vm_compute; split; reflexivity).
    clearbody r'. rewrite Hv in Hc. change (default [] (Some value)) with value in Hc. rewrite Ev in Hc.
    destruct Hc as [E4 Efp]. exists env, value. split; [exact Hv|]. split; [exact E4|]. split; [vm_compute; discriminate|].
    cbn [ctx_sign demo_ctx signing_key] in Hkey. rewrite Efp in *. unfold sha256, demo_sha256 in Hkey.
    rewrite take_app_le, take_ge in Hkey by (unfold blen in Hl; lia).
    apply (Hver 4 None (fun _ => Some (demo_key 4))); [by left|by rewrite Hkey|vm_compute; discriminate].
Defined.

(** A nonce of 8 bytes, which the lease does not refuse, gives a receipt, of the local signer, that no client can decode. *)
Example short_nonce_is_undecodable :
  let ctx := mkCtx 1700000000000 [z2b 1] (replicate 8 (z2b 9)) (Local demo_signer) demo_seed 4 None in
  match attachReceipt demo_notme demo_response ctx (demo_emitter 4) with
  | (_, Ok r) => match r_headers r !! to_lower INTERLACE_RECEIPT_HEADER with
                 | Some value => match decodeReceiptHeader value with Ok _ => False | Throw _ => True end
                 | None => False
                 end
  | _ => False
  end.
Proof. vm_compute. exact I. Qed.

(** A signing failure has consumed the body it was to leave alone. *)
Example failure_consumes_the_body :
  let broken := mkAuthority Z (receiptFacts demo_notme) (fun _ s => (s, None)) in
  let '(e, r) := attachReceipt broken demo_response (demo_ctx Delegated 3) (demo_emitter 4) in
  r = Throw RpcThrew /\ body_used e = true.
Proof. vm_compute. split; reflexivity. Qed.

(** A 204 has no body, and the emitter gives it one. *)
Example no_content_throws :
  (attachReceipt demo_notme (mkResponse 204 ∅ []) (demo_ctx (Local demo_signer) 3) (demo_emitter 4)).2 = Throw NullBodyStatus.
Proof. vm_compute. reflexivity. Qed.

(** The guard names the original spelling, under any naming convention. *)
Example guard_examples :
  findForbiddenReceiptField [js "peer_fp_hex"; js "upstream_status"] = None /\
  findForbiddenReceiptField [js "peerFp"; js "Cred-Hash"] = Some (js "Cred-Hash") /\
  findForbiddenReceiptField [js "response_body"] = Some (js "response_body").
Proof. vm_compute. repeat split. Qed.
End ReceiptEmit.
