(* ===== verification/ReceiptStream.v ===== *)
(** The receipt chain around an event stream (src/routes/receipt-stream.ts).

    The transformer is a state that pulls change: the rolling hash, the number of hashed events,
    the text not yet split into events, and what was handed on.  A stream is the list of its
    reads.  Chunks that end inside a character lose it ([split_character_is_lost]); the theorem
    is about the others. *)
From S2P Require Import Prelude JsString Sql Platform Json Base64 ReceiptsCbor ReceiptWire ReceiptVerify.

Module ReceiptStream.
Import ReceiptsCbor ReceiptWire.

(** ** Decoding a chunk: [new TextDecoder().decode(value, { stream: true })]

    The decoder is new for every chunk, so the bytes it holds back are gone. *)
Fixpoint dec_stream (st : dec_state) (bs : bytes) : list (option Z) :=
  match bs with
  | [] => []
  | b :: bs' => let '(ev, st') := dec_step st (b2z b) in ev ++ dec_stream st' bs'
  end.

Definition decode_chunk (bs : bytes) : jsstr :=
  utf16_all (strip_bom (map (default REPLACEMENT) (dec_stream Idle bs))).

(** ** The transformer *)

Record StreamReceiptContext := mkStreamCtx {
  x_requestCanon : bytes;
  x_nonce : bytes;
  x_signer : ReceiptSigner;
  x_actorFp : bytes;
  x_epoch : Z;
  x_nowMs : Z;
}.

Inductive ending := Running | Closed | Errored.

Record transformer := mkTransformer {
  rollingHash : bytes;
  eventCount : Z;
  pending : jsstr;
  closeEmitted : bool;
  enqueued : bytes;
  ended : ending;
}.

Inductive read_result := Chunk (value : bytes) | Done | ReadFailed.

Definition LFLF : jsstr := [10; 10].

Definition enqueue (text : jsstr) (t : transformer) : transformer :=
  mkTransformer (rollingHash t) (eventCount t) (pending t) (closeEmitted t) (enqueued t ++ utf8_encode text) (ended t).
Definition set_pending (p : jsstr) (t : transformer) : transformer :=
  mkTransformer (rollingHash t) (eventCount t) p (closeEmitted t) (enqueued t) (ended t).
Definition set_ended (e : ending) (t : transformer) : transformer :=
  mkTransformer (rollingHash t) (eventCount t) (pending t) (closeEmitted t) (enqueued t) e.

(** Whether a block has a line that is neither empty nor a comment. *)
Definition has_event (block : jsstr) : bool :=
  existsb (fun l => negb (starts_with [58] l) && negb (bool_decide (l = []))) (split_on 10 block).

Section stream.
Context `{Sha256} `{Ed25519Sign}.

Definition roll (hash : bytes) (count : Z) (block : jsstr) : result cbor_error (bytes * Z) :=
  if has_event block then
    let? h := eventChainStep hash (utf8_encode block) count in Ok (h, count + 1)
  else Ok (hash, count).

Definition rolled (h : bytes) (n : Z) (t : transformer) : transformer :=
  mkTransformer h n (pending t) (closeEmitted t) (enqueued t) (ended t).

(** Hash a block and hand it on; [false] where hashing throws. *)
Definition emit_block (block : jsstr) (t : transformer) : transformer * bool :=
  match roll (rollingHash t) (eventCount t) block with
  | Throw _ => (t, false)
  | Ok (h, n) => (enqueue (block ++ LFLF) (rolled h n t), true)
  end.

(** The loop over the complete blocks; each takes two units of the text at least. *)
Fixpoint flush (fuel : nat) (t : transformer) : transformer * bool :=
  match fuel with
  | O => (t, true)
  | Datatypes.S fuel' =>
      match index_of LFLF (pending t) with
      | None => (t, true)
      | Some idx =>
          match emit_block (take idx (pending t)) (set_pending (drop (idx + 2) (pending t)) t) with
          | (t, true) => flush fuel' t
          | (t, false) => (t, false)
          end
      end
  end.

Definition flushPendingEvents (t : transformer) : transformer * bool := flush (length (pending t)) t.

Definition close_event (payload : jsstr) : jsstr :=
  js "event: interlace-stream-close" ++ [10] ++ js "data: " ++ payload ++ LFLF.
Definition close_block (payload : jsstr) : jsstr := js "event: interlace-stream-close" ++ [10] ++ js "data: " ++ payload.

Definition close_commitment (streamId openHash : bytes) (now : Z) (t : transformer) : StreamCloseCommitment :=
  mkClose streamId openHash (rollingHash t) (eventCount t) close_ok now.

Definition mark_closed (t : transformer) : transformer :=
  mkTransformer (rollingHash t) (eventCount t) (pending t) true (enqueued t) (ended t).

Definition emitCloseEvent (streamId openHash : bytes) (signer : ReceiptSigner) (now : Z) (t : transformer)
    : transformer * result cbor_error unit :=
  if closeEmitted t then (t, Ok tt)
  else
    let t := mark_closed t in
    match signStreamCloseToEventPayload (close_commitment streamId openHash now t) signer with
    | Throw e => (t, Throw e)
    | Ok signed => (enqueue (close_event (headerValue signed)) t, Ok tt)
    end.

(** The body of [pull]: the happy path can throw at any of its steps. *)
Definition pull_ok (streamId openHash : bytes) (signer : ReceiptSigner) (now : Z) (r : read_result) (t : transformer)
    : transformer * bool :=
  match r with
  | ReadFailed => (t, false)
  | Done =>
      let t := match pending t with [] => t | p => set_pending [] (enqueue p t) end in
      match emitCloseEvent streamId openHash signer now t with
      | (t, Ok _) => (set_ended Closed t, true)
      | (t, Throw _) => (t, false)
      end
  | Chunk value =>
      flushPendingEvents (set_pending (pending t ++ decode_chunk value) t)
  end.

Definition pull (streamId openHash : bytes) (signer : ReceiptSigner) (now : Z) (r : read_result) (t : transformer) : transformer :=
  match ended t with
  | Running =>
      match pull_ok streamId openHash signer now r t with
      | (t, true) => t
      | (t, false) => set_ended Errored (emitCloseEvent streamId openHash signer now t).1
      end
  | _ => t
  end.

Definition opened (hash : bytes) : transformer := mkTransformer hash 0 [] false [] Running.

Definition open_commitment (ctx : StreamReceiptContext) (streamId : bytes) : StreamOpenCommitment :=
  mkOpen (x_nonce ctx) (sha256 (x_requestCanon ctx)) 200 sse streamId (x_nowMs ctx) (x_actorFp ctx) (x_epoch ctx).

Record SseResponse := mkSse { sse_status : Z; sse_headers : Headers; sse_body : option (list read_result) }.

Inductive wrapped := Unchanged | Wrapped (headers : Headers) (final : transformer).

(** [random] is the stream's identifier, [now] the clock of the close. *)
Definition wrapSseWithReceiptStream (upstream : SseResponse) (ctx : StreamReceiptContext) (random : bytes) (now : Z)
    : result cbor_error wrapped :=
  if negb (sse_status upstream =? 200) then Ok Unchanged
  else
    match sse_body upstream with
    | None => Ok Unchanged
    | Some reads =>
        let? '(signed, openHash) := signStreamOpenToHeader (open_commitment ctx random) (x_signer ctx) in
        let headers := <[js "access-control-expose-headers" := INTERLACE_RECEIPT_HEADER]>
                         (<[to_lower INTERLACE_RECEIPT_HEADER := headerValue signed]> (sse_headers upstream)) in
        Ok (Wrapped headers (foldl (fun t r => pull random openHash (x_signer ctx) now r t) (opened openHash) reads))
    end.
End stream.

(** ** Splitting a text into blocks *)

Fixpoint blocks (fuel : nat) (p : jsstr) : list jsstr * jsstr :=
  match fuel with
  | O => ([], p)
  | S fuel' =>
      match index_of LFLF p with
      | None => ([], p)
      | Some idx => let '(bs, rest) := blocks fuel' (drop (idx + 2) p) in (take idx p :: bs, rest)
      end
  end.
Definition split_blocks (p : jsstr) : list jsstr * jsstr := blocks (length p) p.

Lemma index_of_split seg p i :
  index_of seg p = Some i -> p = take i p ++ seg ++ drop (i + length seg) p /\ (i + length seg <= length p)%nat.
Proof.
  intros (g & w & -> & <-)%index_of_Some. rewrite take_app_length, <- drop_drop, !drop_app_length, !length_app.
  split; [done|lia].
Qed.

Lemma index_of_app seg p t i : index_of seg p = Some i -> index_of seg (p ++ t) = Some i.
Proof.
  revert i. induction p as [|x p IH]; intros i; cbn [index_of app].
  - destruct (starts_with seg []) eqn:E; [|done]. intros [= <-]. apply starts_with_iff in E as [u E].
    symmetry in E. apply app_eq_nil in E as [-> ->]. by destruct t.
  - destruct (starts_with seg (x :: p)) eqn:E.
    + intros [= <-]. apply starts_with_iff in E as [u E].
      assert (starts_with seg (x :: p ++ t) = true) as ->; [|done]. apply starts_with_iff. exists (u ++ t).
      change (x :: p ++ t) with ((x :: p) ++ t). by rewrite E, <- app_assoc.
    + intros (j & Ej & ->)%fmap_Some. pose proof (index_of_split _ _ _ Ej) as [_ Hl].
      destruct (starts_with seg (x :: p ++ t)) eqn:E'; [|by rewrite (IH _ Ej)].
      unfold starts_with in E, E'. apply bool_decide_eq_true in E'. apply bool_decide_eq_false in E. destruct E.
      change (x :: p ++ t) with ((x :: p) ++ t) in E'. rewrite take_app_le in E' by (cbn; lia). done.
Qed.

Lemma blocks_shorter fuel p : (length (blocks fuel p).2 <= length p)%nat.
Proof.
  revert p. induction fuel as [|fuel IH]; intros p; [done|]. cbn [blocks].
  destruct (index_of LFLF p) as [idx|] eqn:E; [|done].
  specialize (IH (drop (idx + 2) p)). destruct (blocks fuel _) as [bs rest]. cbn in *. rewrite length_drop in IH. lia.
Qed.

(** Fuel: the length of the text is enough, and more changes nothing. *)
Lemma blocks_fuel n m p : (length p <= n)%nat -> (length p <= m)%nat -> blocks n p = blocks m p.
Proof.
  revert m p. induction n as [|n IH]; intros m p Hn Hm.
  - destruct p; [|cbn in Hn; lia]. by destruct m.
  - destruct m as [|m]; [destruct p; [done|cbn in Hm; lia]|]. cbn [blocks].
    destruct (index_of LFLF p) as [idx|] eqn:E; [|done]. apply index_of_split in E as [_ Hl]. cbn in Hl.
    rewrite (IH m); [done|rewrite length_drop; lia..].
Qed.

(** A text in two parts: the blocks of the first, then those of what it left and the second. *)
Lemma blocks_app n p t :
  (length p + length t <= n)%nat ->
  blocks n (p ++ t) = ((blocks n p).1 ++ (blocks n ((blocks n p).2 ++ t)).1, (blocks n ((blocks n p).2 ++ t)).2).
Proof.
  revert p. induction n as [|n IH]; intros p Hn; [destruct p, t; cbn in *; (done || lia)|].
  destruct (index_of LFLF p) as [idx|] eqn:E.
  - pose proof (index_of_split _ _ _ E) as [_ Hl]. cbn in Hl.
    assert (Eb : forall q, index_of LFLF q = Some idx ->
      blocks (S n) q = (take idx q :: (blocks n (drop (idx + 2) q)).1, (blocks n (drop (idx + 2) q)).2)).
    { intros q Eq. cbn [blocks]. rewrite Eq. by destruct (blocks n _). }
    rewrite (Eb p E), (Eb (p ++ t)) by by apply index_of_app. cbn [fst snd].
    rewrite drop_app_le, take_app_le, IH by (rewrite ?length_drop; lia). cbn [app fst snd].
    pose proof (blocks_shorter n (drop (idx + 2) p)) as Hs. rewrite length_drop in Hs.
    rewrite (blocks_fuel (S n) n (_ ++ t)); [done|rewrite length_app; lia..].
  - assert (Ep : blocks (S n) p = ([], p)) by (cbn [blocks]; by rewrite E).
    rewrite Ep. cbn [fst snd app]. by destruct (blocks (S n) (p ++ t)).
Qed.

Lemma split_blocks_app p t :
  split_blocks (p ++ t) =
  ((split_blocks p).1 ++ (split_blocks ((split_blocks p).2 ++ t)).1, (split_blocks ((split_blocks p).2 ++ t)).2).
Proof.
  unfold split_blocks. pose proof (blocks_app (length (p ++ t)) p t) as Hb. rewrite length_app in Hb.
  rewrite length_app, Hb by lia. pose proof (blocks_shorter (length p) p) as Hs.
  rewrite (blocks_fuel (length p + length t) (length p) p) by lia.
  set (rest := (blocks (length p) p).2 ++ t). 
  rewrite (blocks_fuel (length p + length t) (length rest) rest); [done| |done].
  unfold rest. rewrite length_app. lia.
Qed.

Lemma split_blocks_rest p : split_blocks (split_blocks p).2 = ([], (split_blocks p).2).
Proof.
  pose proof (split_blocks_app p []) as E. rewrite !app_nil_r in E.
  destruct (split_blocks p) as [bs rest]. cbn [fst snd] in *. destruct (split_blocks rest) as [bs' rest']. cbn in E.
  injection E as E ->. apply (f_equal length) in E. rewrite length_app in E. by destruct bs'; [|cbn in E; lia].
Qed.

(** Nothing is lost: the blocks with their separators, then the rest. *)
Lemma blocks_text n p : p = concat (map (fun b => b ++ LFLF) (blocks n p).1) ++ (blocks n p).2.
Proof.
  revert p. induction n as [|n IH]; intros p; [done|]. cbn [blocks].
  destruct (index_of LFLF p) as [idx|] eqn:E; [|done]. apply index_of_split in E as [E _].
  specialize (IH (drop (idx + 2) p)). destruct (blocks n _) as [bs rest]. cbn [fst snd map concat] in *.
  rewrite E at 1. cbn [length LFLF] in *. rewrite IH at 1. by rewrite <- !app_assoc.
Qed.

(** ** Text and bytes *)

Definition unit_ok (c : Z) : Prop := is_high c = false /\ is_low c = false.

Lemma well_formed_cases s :
  well_formed s = true ->
  s = [] \/ (exists u s', s = u :: s' /\ is_high u = false /\ is_low u = false /\ well_formed s' = true) \/
  (exists u v s', s = u :: v :: s' /\ is_high u = true /\ is_low v = true /\ well_formed s' = true).
Proof.
  destruct s as [|u s]; [by left|]. cbn [well_formed]. destruct (is_high u) eqn:Hu.
  - destruct s as [|v s]; [done|]. intros [? ?]%andb_true_iff. right. right. by exists u, v, s.
  - intros Hw. z_bool. right. left. by exists u, s.
Qed.

Lemma scalars_app a b : well_formed a = true -> scalars (a ++ b) = scalars a ++ scalars b.
Proof.
  remember (length a) as n eqn:En. revert a En. induction n as [n IH] using lt_wf_ind. intros a En Hw.
  destruct (well_formed_cases a Hw) as [->|[(u & s & -> & Hu & Hl & Hs)|(u & v & s & -> & Hu & Hv & Hs)]]; [done| |];
    cbn [app scalars]; rewrite Hu.
  - rewrite Hl. cbn. f_equal. apply (IH (length s)); [cbn in En; lia|done..].
  - rewrite Hv. cbn. f_equal. apply (IH (length s)); [cbn in En; lia|done..].
Qed.

Lemma encode_app a b : well_formed a = true -> utf8_encode (a ++ b) = utf8_encode a ++ utf8_encode b.
Proof. intros Hw. unfold utf8_encode. by rewrite scalars_app, map_app, concat_app. Qed.

Lemma well_formed_split a r : well_formed (a ++ 10 :: r) = true -> well_formed a = true /\ well_formed r = true.
Proof.
  remember (length a) as n eqn:En. revert a En. induction n as [n IH] using lt_wf_ind. intros a En Hw.
  destruct a as [|u a]; [by cbn in Hw|]. cbn [well_formed app] in *. destruct (is_high u).
  - destruct a as [|v a]; [by cbn in Hw|]. cbn [app] in Hw. apply andb_true_iff in Hw as [-> Hw].
    apply (IH (length a)); [cbn in En; lia|done..].
  - apply andb_true_iff in Hw as [-> Hw]. apply (IH (length a)); [cbn in En; lia|done..].
Qed.

Lemma blocks_encode n p :
  well_formed p = true ->
  concat (map (fun b => utf8_encode (b ++ LFLF)) (blocks n p).1) ++ utf8_encode (blocks n p).2 = utf8_encode p.
Proof.
  revert p. induction n as [|n IH]; intros p Hw; [done|]. cbn [blocks].
  destruct (index_of LFLF p) as [idx|] eqn:E; [|done]. apply index_of_split in E as [E _]. cbn [length LFLF] in E.
  rewrite E in Hw. apply well_formed_split in Hw as [Ht Hw]. apply (well_formed_split []) in Hw as [_ Hd].
  specialize (IH _ Hd). destruct (blocks n _) as [bs rest]. cbn [fst snd map concat] in *.
  rewrite <- app_assoc, IH. rewrite E at 3. rewrite app_assoc, (encode_app (_ ++ LFLF)); [done|].
  by apply well_formed_app.
Qed.

(** A chunk of whole characters decodes to its text. *)
Lemma events_stream st bs : exists tail, dec_events st bs = dec_stream st bs ++ tail /\ (tail = [] \/ tail = [None]).
Proof.
  revert st. induction bs as [|b bs IH]; intros st.
  - destruct st; [exists []|exists [None]]; split; try done; by (left + right).
  - rewrite dec_events_cons. cbn [dec_stream]. destruct (dec_step st (b2z b)) as [ev st'].
    destruct (IH st') as (tail & -> & Ht). exists tail. by rewrite app_assoc.
Qed.

Lemma decode_chunk_text s : well_formed s = true -> has_bom s = false -> decode_chunk (utf8_encode s) = s.
Proof.
  intros Hw Hb. destruct (well_formed_scalars s Hw) as [HF HE]. unfold decode_chunk.
  destruct (events_stream Idle (utf8_encode s)) as (tail & E & Ht). unfold utf8_encode in E at 1.
  rewrite dec_utf8_all in E by done. destruct Ht as [->| ->].
  - rewrite app_nil_r in E. rewrite <- E, map_map. cbn. by rewrite map_id, strip_bom_scalars, HE.
  - exfalso. assert (Hin : None ∈ map Some (scalars s)) by (rewrite E; apply elem_of_app; right; apply list_elem_of_here).
    apply list_elem_of_fmap in Hin as (c & ? & _). done.
Qed.

(** ** What the transformer does to a stream *)

Section stream_facts.
Context `{Sha256} `{Ed25519Sign}.

(** The chain over a list of blocks, as a client that reads them rolls it. *)
Fixpoint chain (hash : bytes) (count : Z) (bs : list jsstr) : result cbor_error (bytes * Z) :=
  match bs with
  | [] => Ok (hash, count)
  | b :: bs' => let? '(h, n) := roll hash count b in chain h n bs'
  end.

Lemma chain_app h n a b : chain h n (a ++ b) = let? '(h, n) := chain h n a in chain h n b.
Proof.
  revert h n. induction a as [|x a IH]; intros h n; [done|]. cbn [app chain].
  destruct (roll h n x) as [[h' n']|e]; [apply IH|done].
Qed.

(** The state after a text whose blocks were chained and handed on. *)
Definition after (t : transformer) (h : bytes) (n : Z) (bs : list jsstr) (rest : jsstr) : transformer :=
  mkTransformer h n rest (closeEmitted t) (enqueued t ++ concat (map (fun b => utf8_encode (b ++ LFLF)) bs)) (ended t).

Lemma flush_blocks fuel t h n :
  chain (rollingHash t) (eventCount t) (blocks fuel (pending t)).1 = Ok (h, n) ->
  flush fuel t = (after t h n (blocks fuel (pending t)).1 (blocks fuel (pending t)).2, true).
Proof.
  revert t. induction fuel as [|fuel IH]; intros t; cbn [blocks flush].
  { intros [= <- <-]. unfold after. cbn. rewrite app_nil_r. by destruct t. }
  destruct (index_of LFLF (pending t)) as [idx|].
  2:{ intros [= <- <-]. unfold after. cbn. rewrite app_nil_r. by destruct t. }
  destruct (blocks fuel _) as [bs rest] eqn:Eb. cbn [fst snd chain]. unfold emit_block, roll. cbn [rollingHash eventCount set_pending].
  destruct (if has_event _ then _ else _) as [[h1 n1]|e] eqn:Er; [|done]. cbn [rbind]. intros Hc.
  specialize (IH (enqueue (take idx (pending t) ++ LFLF) (rolled h1 n1 (set_pending (drop (idx + 2) (pending t)) t)))).
  cbn in IH. rewrite Eb in IH. rewrite (IH Hc). unfold after. cbn. by rewrite <- app_assoc.
Qed.

Lemma pull_chunk id oh sg now t s h n :
  ended t = Running -> well_formed s = true -> has_bom s = false ->
  chain (rollingHash t) (eventCount t) (split_blocks (pending t ++ s)).1 = Ok (h, n) ->
  pull id oh sg now (Chunk (utf8_encode s)) t = after t h n (split_blocks (pending t ++ s)).1 (split_blocks (pending t ++ s)).2.
Proof.
  intros He Hw Hb Hc. unfold pull, pull_ok, flushPendingEvents. rewrite He, decode_chunk_text by done.
  by rewrite (flush_blocks _ _ h n).
Qed.

Lemma pull_chunks id oh sg now texts t h n :
  ended t = Running -> Forall (fun s => well_formed s = true /\ has_bom s = false) texts ->
  split_blocks (pending t) = ([], pending t) ->
  chain (rollingHash t) (eventCount t) (split_blocks (pending t ++ concat texts)).1 = Ok (h, n) ->
  foldl (fun t r => pull id oh sg now r t) t (map (fun s => Chunk (utf8_encode s)) texts) =
  after t h n (split_blocks (pending t ++ concat texts)).1 (split_blocks (pending t ++ concat texts)).2.
Proof.
  revert t. induction texts as [|s texts IH]; intros t He Hall Hp; cbn [concat map foldl].
  { rewrite app_nil_r, Hp. cbn. intros [= <- <-]. unfold after. cbn. rewrite app_nil_r. by destruct t. }
  apply Forall_cons in Hall as [[Hw Hb] Hall]. rewrite app_assoc, split_blocks_app. cbn [fst snd].
  rewrite chain_app. destruct (chain _ _ (split_blocks (pending t ++ s)).1) as [[h1 n1]|e] eqn:Ec; [|done]. cbn [rbind].
  intros Hc. rewrite (pull_chunk _ _ _ _ _ _ h1 n1) by done.
  rewrite IH; [|done|done|apply split_blocks_rest|done]. unfold after. cbn.
  by rewrite map_app, concat_app, app_assoc.
Qed.

Lemma close_signed c (key : bytes) sg :
  close_ok_ c -> (forall m, blen (ed25519_sign (seed sg) m) = 64) ->
  exists signed canon, signStreamCloseToEventPayload c sg = Ok signed /\
    encodeStreamCloseCommitment c = Ok canon /\
    ReceiptVerify.decode_b64 (headerValue signed) decodeStreamCloseEnvelopeBytes =
      Ok (mkEnvelope c (ed25519_sign (seed sg) canon)) /\
    10 ∉ headerValue signed.
Proof.
  intros Hc Hl. destruct (stream_close_decodes c (ed25519_sign (seed sg) (enc (streamCloseCborMap c))) Hc (Hl _)) as (bs & Ee & Ed).
  assert (Ec : encodeStreamCloseCommitment c = Ok (enc (streamCloseCborMap c))) by (by apply encode_ok, close_map_ok).
  exists (mkSigned (b64urlEncode bs) bs (ed25519_sign (seed sg) (enc (streamCloseCborMap c)))), (enc (streamCloseCborMap c)).
  unfold signStreamCloseToEventPayload. rewrite Ec. cbn [rbind]. unfold sign. rewrite Ee. cbn [rbind]. do 2 (split; [done|]).
  unfold ReceiptVerify.decode_b64, b64urlEncode. cbn [headerValue]. rewrite Base64.b64decode_encode. split; [done|].
  intros H10. pose proof (Base64.b64encode_units bs) as Hu. rewrite Forall_forall in Hu. apply Hu in H10. lia.
Qed.

(** After a body that ends with a separator, the event is a block of its own. *)
Lemma index_of_plain s : 10 ∉ s -> index_of LFLF (s ++ LFLF) = Some (length s).
Proof.
  induction s as [|c s IH]; [done|]. rewrite not_elem_of_cons. intros [Hc Hs]. cbn [app length index_of].
  destruct (starts_with LFLF (c :: s ++ LFLF)) eqn:E; [|by rewrite IH].
  apply starts_with_iff in E as [u E]. injection E as E _. done.
Qed.

Lemma index_of_before rest c t : c <> 10 -> index_of LFLF rest = None ->
  index_of LFLF (rest ++ c :: t) = Nat.add (length rest) <$> index_of LFLF (c :: t).
Proof.
  intros Hc. induction rest as [|x rest IH]; intros Hr; [cbn [app]; by destruct (index_of LFLF (c :: t))|].
  cbn [index_of] in Hr. destruct (starts_with LFLF (x :: rest)) eqn:E; [done|].
  assert (E' : starts_with LFLF ((x :: rest) ++ c :: t) = false).
  { apply bool_decide_eq_false. apply bool_decide_eq_false in E. unfold LFLF in *.
    destruct rest as [|y rest]; cbn in *.
    all: rewrite ?take_0 in *; congruence. }
  cbn [app index_of length] in *. rewrite E', IH by (by destruct (index_of LFLF rest)).
  by destruct (starts_with LFLF (c :: t)), (index_of LFLF t).
Qed.

Lemma close_event_block rest payload : 10 ∉ payload -> index_of LFLF rest = None ->
  split_blocks (rest ++ close_event payload) = ([rest ++ close_block payload], []).
Proof.
  intros Hp Hr. set (label := js "event: interlace-stream-close" ++ [10]). set (data := js "data: " ++ payload).
  assert (El : rest ++ close_event payload = (rest ++ close_block payload) ++ LFLF).
  { unfold close_event, close_block. by rewrite <- !app_assoc. }
  assert (Ei : index_of LFLF (rest ++ close_event payload) = Some (length (rest ++ close_block payload))).
  { assert (Hl : index_of LFLF (rest ++ label) = None).
    { unfold label. change (js "event: interlace-stream-close" ++ [10]) with (101 :: js "vent: interlace-stream-close" ++ [10]).
      by rewrite index_of_before by done. }
    change (close_event payload) with (label ++ 100 :: (js "ata: " ++ payload ++ LFLF)). rewrite app_assoc, index_of_before by done.
    change (100 :: js "ata: " ++ payload ++ LFLF) with (js "data: " ++ payload ++ LFLF). rewrite app_assoc, index_of_plain.
    - cbn [fmap option_fmap option_map]. f_equal. change (close_block payload) with (label ++ js "data: " ++ payload).
      rewrite !length_app. lia.
    - rewrite not_elem_of_app. split; [|done]. apply (bool_decide_unpack _). vm_compute. exact I. }
  unfold split_blocks. rewrite El in *. set (p := rest ++ close_block payload) in *. clearbody p.
  rewrite length_app, Nat.add_comm. cbn [length LFLF Nat.add blocks]. rewrite Ei, take_app_length, drop_ge; [done|].
  rewrite length_app. cbn. lia.
Qed.

(** ** Properties *)

(** C27: The stream's receipt does not depend on how the body was cut into reads.  For a body that
    arrives in chunks of whole characters, none of which starts with a byte-order mark (each chunk has
    a decoder of its own, which would drop it), the consumer gets exactly the body's bytes
    followed by the text of one close event.  The payload of the event is the signed commitment to the chain over
    the body's complete blocks and the number of those that are events, and it verifies against the opening and the
    chain the consumer rolled over the same blocks.  When the body ends with a separator, the
    close event is the one block that comes after the body's; when it does not, the unfinished
    block and the close event run together. *)
Theorem stream_chain_verifies `{Ed25519} id oh sg now texts h n :
  Forall (fun s => well_formed s = true /\ has_bom s = false) texts ->
  chain oh 0 (split_blocks (concat texts)).1 = Ok (h, n) ->
  blen id = 16 -> blen oh = 32 -> blen h = 32 -> int_ok n -> int_ok now -> blen (pubkey sg) = 32 ->
  (forall m, blen (ed25519_sign (seed sg) m) = 64 /\ ed25519_verify (pubkey sg) (ed25519_sign (seed sg) m) m = Some true) ->
  exists payload,
    let t := foldl (fun t r => pull id oh sg now r t) (opened oh) (map (fun s => Chunk (utf8_encode s)) texts ++ [Done]) in
    ended t = Closed /\
    enqueued t = utf8_encode (concat texts) ++ utf8_encode (close_event payload) /\
    split_blocks (concat texts ++ close_event payload) =
      ((split_blocks (concat texts)).1 ++ [(split_blocks (concat texts)).2 ++ close_block payload], []) /\
    exists env, ReceiptVerify.verifyStreamClose (ReceiptVerify.mkCloseArgs payload oh h (pubkey sg)) = Ok (inr env) /\
      commitment env = mkClose id oh h n close_ok now.
Proof.
  intros Hall Hc Hid Hoh Hh Hn Hnow Hkey Hsign.
  assert (Hcl : close_ok_ (mkClose id oh h n close_ok now)) by by constructor.
  destruct (close_signed _ (pubkey sg) sg Hcl (fun m => proj1 (Hsign m))) as (signed & canon & Es & Ec & Ed & H10).
  exists (headerValue signed). cbv zeta. rewrite foldl_app.
  assert (Hw : well_formed (concat texts) = true).
  { clear -Hall. induction Hall as [|s l [Hs _] _ IH]; [done|]. by apply well_formed_app. }
  assert (Eblock : split_blocks (concat texts ++ close_event (headerValue signed)) =
    ((split_blocks (concat texts)).1 ++ [(split_blocks (concat texts)).2 ++ close_block (headerValue signed)], [])).
  { rewrite split_blocks_app, close_event_block; [done|done|]. pose proof (split_blocks_rest (concat texts)) as Hr.
    destruct (split_blocks (concat texts)) as [bs rest]. cbn [snd] in *. unfold split_blocks in Hr.
    destruct (index_of LFLF rest) as [i|] eqn:Ei; [|done]. destruct rest as [|c rest]; [done|]. cbn [length blocks] in Hr. rewrite Ei in Hr.
    by destruct (blocks _ _). }
  assert (Hr : split_blocks (pending (opened oh)) = ([], pending (opened oh))) by done.
  rewrite (pull_chunks id oh sg now texts (opened oh) h n eq_refl Hall Hr Hc).
  pose proof (blocks_encode (length (concat texts)) _ Hw) as Henc.
  change (split_blocks (pending (opened oh) ++ concat texts)) with (blocks (length (concat texts)) (concat texts)).
  destruct (blocks (length (concat texts)) (concat texts)) as [bs rest]. cbn [fst snd] in *.
  cbn [foldl]. unfold pull. cbn [ended after opened].
  assert (Epull : pull_ok id oh sg now Done (after (opened oh) h n bs rest) =
    (mkTransformer h n [] true ((utf8_encode (concat texts)) ++ utf8_encode (close_event (headerValue signed))) Closed, true)).
  { unfold pull_ok. unfold after. cbn [pending opened closeEmitted enqueued ended].
    rewrite <- Henc. destruct rest as [|c rest].
    all: unfold emitCloseEvent, close_commitment; cbn [closeEmitted mark_closed rollingHash eventCount set_pending enqueue pending enqueued ended];
      rewrite Es; generalize (close_event (headerValue signed)) as ce; intros ce.
    all: unfold set_ended, enqueue, mark_closed, set_pending; cbn [rollingHash eventCount pending closeEmitted enqueued ended].
    all: rewrite ?app_nil_l, <- ?app_assoc; done. }
  unfold after in Epull |- *. cbn [opened closeEmitted enqueued ended] in Epull |- *. rewrite Epull. cbn [ended enqueued].
  do 2 (split; [done|]). split; [exact Eblock|]. eexists. split.
  - unfold ReceiptVerify.verifyStreamClose. rewrite ReceiptVerify.decoded_ok. eexists. split; [exact Ed|].
    cbn [commitment signature sc_openCommitmentHash sc_tipHash ReceiptVerify.expectedOpenCommitmentHash
         ReceiptVerify.expectedTipHash ReceiptVerify.sc_pubkey].
    rewrite !ReceiptVerify.require_ok, !ReceiptVerify.equal_iff. do 2 (split; [done|]).
    rewrite ReceiptVerify.encoded_ok. exists canon. split; [done|].
    rewrite ReceiptVerify.require_ok, ReceiptVerify.verifyEd25519_iff. destruct (Hsign canon). done.
  - done.
Qed.
End stream_facts.

(** ** Examples *)

Definition demo_seed : bytes := replicate 32 (z2b 7).
Definition demo_signer : ReceiptSigner := mkSigner demo_seed demo_seed.
Definition demo_sign : Ed25519Sign := fun seed m => seed ++ @sha256 demo_sha256 m.
(** A stand-in digest that sees the end of its input, where the event is. *)
Definition demo_digest : Sha256 := fun bs => take 32 (rev bs ++ replicate 32 Corelib.Init.Byte.x00).
#[local] Existing Instances demo_digest demo_ed25519 demo_sign.

Definition demo_id : bytes := replicate 16 (z2b 3).
Definition demo_open : bytes := replicate 32 (z2b 4).
Definition demo_run (reads : list read_result) : transformer :=
  foldl (fun t r => pull demo_id demo_open demo_signer 1700000000000 r t) (opened demo_open) reads.

(** Two events and a comment, cut inside a delimiter. *)
Definition demo_texts : list jsstr := [js "data: a" ++ [10]; [10] ++ js ": hi" ++ LFLF ++ js "data: "; js "b" ++ LFLF].
Definition demo_chain : bytes * Z :=
  match chain demo_open 0 (split_blocks (concat demo_texts)).1 with Ok x => x | Throw _ => ([], 0) end.

Lemma stream_chain_verifies_witness :
  exists payload,
    enqueued (demo_run (map (fun s => Chunk (utf8_encode s)) demo_texts ++ [Done])) =
      utf8_encode (concat demo_texts) ++ utf8_encode (close_event payload) /\
    exists env, ReceiptVerify.verifyStreamClose (ReceiptVerify.mkCloseArgs payload demo_open demo_chain.1 demo_seed) = Ok (inr env) /\
      sc_eventCount (commitment env) = 2.
Proof.
  destruct (stream_chain_verifies demo_id demo_open demo_signer 1700000000000 demo_texts demo_chain.1 2)
    as (payload & _ & Hout & _ & env & Hver & Hc).
  - repeat constructor.
  - vm_compute. reflexivity.
  - reflexivity.
  - reflexivity.
  - vm_compute. reflexivity.
  - split; [left; split; [discriminate|reflexivity]|reflexivity].
  - split; [right; split; reflexivity || discriminate|reflexivity].
  - reflexivity.
  - intros m. split.
    + unfold blen, ed25519_sign, demo_sign. rewrite length_app, (demo_sha256_len m). reflexivity.
    + unfold ed25519_verify, demo_ed25519. apply f_equal. by apply bool_decide_true.
  - exists payload. split; [exact Hout|]. exists env. split; [exact Hver|]. by rewrite Hc.
Defined.

(** A character cut by a chunk boundary is lost: the two bytes of [U+00E9] in two reads. *)
Example split_character_is_lost :
  let whole := js "data: " ++ [233] ++ LFLF in
  let bs := utf8_encode whole in
  let cut := demo_run [Chunk (take 7 bs); Chunk (drop 7 bs); Done] in
  ended cut = Closed /\ take (length bs) (enqueued cut) <> bs /\
  rollingHash cut <> rollingHash (demo_run [Chunk bs; Done]).
Proof. vm_compute. repeat split; discriminate. Qed.

(** A comment line changes the chain when it shares its block with an event. *)
Example comments_reach_the_chain :
  (chain demo_open 0 [js ": keep-alive" ++ [10] ++ js "data: a"]) <> (chain demo_open 0 [js "data: a"]).
Proof. vm_compute. discriminate. Qed.

(** A body without a last delimiter runs into the close event. *)
Example unterminated_body_swallows_the_close :
  exists payload, enqueued (demo_run [Chunk (utf8_encode (js "data: a" ++ [10])); Done]) =
    utf8_encode (js "data: a" ++ [10] ++ js "event: interlace-stream-close" ++ [10] ++ js "data: " ++ payload ++ LFLF) /\
  (split_blocks (js "data: a" ++ [10] ++ js "event: interlace-stream-close" ++ [10] ++ js "data: p" ++ LFLF)).1 =
    [js "data: a" ++ [10] ++ js "event: interlace-stream-close" ++ [10] ++ js "data: p"].
Proof.
  eexists (match signStreamCloseToEventPayload (mkClose demo_id demo_open demo_open 0 close_ok 1700000000000) demo_signer with
           | Ok x => headerValue x | Throw _ => [] end).
  split; vm_compute; reflexivity.
Qed.

(** An upstream failure is closed as a success. *)
Example failure_is_signed_as_ok :
  let t := demo_run [Chunk (utf8_encode (js "data: a" ++ LFLF)); ReadFailed] in
  ended t = Errored /\ closeEmitted t = true /\
  sc_closeStatus (close_commitment demo_id demo_open 1700000000000 t) = close_ok.
Proof. vm_compute. repeat split. Qed.
End ReceiptStream.
