(* ===== verification/Disclosure.v ===== *)
(** The disclosure endpoint: signed cursors (src/storage/disclosure-cursor.ts) and the
    route GET /interlace/peers/:fp (src/routes/disclosure.ts).

    A cursor is "v1.", the base64url text of a canonical JSON payload, a dot, and the
    base64url text of a MAC over what precedes it.  The route gates the request, checks the
    cursor, and pages through the peer's attestation chain; every refusal is the same
    response.  The main theorem is a refinement: a client that follows the cursors reads
    the peer's log, whole and in order. *)
From S2P Require Import Prelude JsString Sql Platform Json JsonText Canonical Base64 CaBundle TrustStore Lease.
From S2P Require Import Attestations PendingAttestations.

Module Disclosure.
Import JsonText.

(** [crypto.subtle.sign("HMAC", key, data)] with SHA-256; [verify] recomputes and
    compares. *)
Class Hmac := hmac_sign : bytes -> bytes -> bytes.
Definition hmac_verify `{Hmac} (key sig data : bytes) : bool := bool_decide (sig = hmac_sign key data).

(** ** Cursors *)

Definition CURSOR_VERSION : Z := 1.

Record CursorPayload := mkCursor { peerFp : jsstr; fromSeq : Z; ts : Z }.

#[global] Instance CursorPayload_eq_dec : EqDecision CursorPayload.
Proof. solve_decision. Defined.

(** Sorted keys, no space; the values are strings and numbers. *)
Definition canonicalJSON (obj : list (jsstr * Json)) : jsstr :=
  123 :: join [44] (map (fun kv => quote kv.1 ++ 58 :: json_stringify kv.2)
                      (order_by Canonical.key_le obj)) ++ [125].

Definition payload_json (p : CursorPayload) : list (jsstr * Json) :=
  [(js "peerFp", JStr (peerFp p)); (js "fromSeq", JNum (fromSeq p)); (js "ts", JNum (ts p))].

Definition b64uEncode (bs : bytes) : jsstr := Base64.strip_eq (map Base64.to_url (Base64.btoa bs)).

(** [None] where [atob] throws. *)
Definition b64uDecode (s : jsstr) : option bytes :=
  let norm := map Base64.to_std s in
  let pad := (4 - Z.of_nat (length norm) mod 4) mod 4 in
  Base64.atob (norm ++ replicate (Z.to_nat pad) Base64.EQ).

Definition DOT : Z := 46.
Definition version : jsstr := js "v" ++ js_dec CURSOR_VERSION.

Section hmac.
Context `{Hmac}.

Definition signCursor (payload : CursorPayload) (key : bytes) : jsstr :=
  let bodyB64 := b64uEncode (utf8_encode (canonicalJSON (payload_json payload))) in
  let headerAndBody := version ++ [DOT] ++ bodyB64 in
  headerAndBody ++ [DOT] ++ b64uEncode (hmac_sign key (utf8_encode headerAndBody)).

(** The payload of a parsed body; [None] is the [null] answer. *)
Definition read_payload (body : Json) : option CursorPayload :=
  match get_prop body (js "peerFp"), get_prop body (js "fromSeq"), get_prop body (js "ts") with
  | Some (JStr p), Some (JNum f), Some (JNum t) => Some (mkCursor p f t)
  | _, _, _ => None
  end.

(** Any exception is caught and answered [null]; the only [Throw] is a number outside the
    model. *)
Definition verifyCursor (cursor : jsstr) (key : bytes) : result json_error (option CursorPayload) :=
  match split_on DOT cursor with
  | [v; bodyB64; sigB64] =>
      if negb (bool_decide (v = version)) then Ok None
      else match b64uDecode sigB64 with
           | None => Ok None
           | Some sig =>
               let headerAndBody := v ++ [DOT] ++ bodyB64 in
               if negb (hmac_verify key sig (utf8_encode headerAndBody)) then Ok None
               else match b64uDecode bodyB64 with
                    | None => Ok None
                    | Some bs =>
                        match json_parse (utf8_decode_lossy bs) with
                        | Throw Unrepresentable => Throw Unrepresentable
                        | Throw _ => Ok None
                        | Ok body => Ok (read_payload body)
                        end
                    end
           end
  | _ => Ok None
  end.
End hmac.

(** The raw bytes of the key; [importKey] throws on an empty key. *)
Inductive key_error := KeyNotBase64 | KeyEmpty.

Definition importHmacKey (rawKeyB64 : jsstr) : result key_error bytes :=
  match b64uDecode rawKeyB64 with
  | None => Throw KeyNotBase64
  | Some [] => Throw KeyEmpty
  | Some key => Ok key
  end.

(** ** Responses *)

Definition CONSTANT_TIME_ERROR_BODY_LEN : Z := 256.

Inductive reject_kind := not_found | denied | bad_cursor.

Record Response := mkResponse { status : Z; headers : list (jsstr * jsstr); body : jsstr }.

Definition constantTimeErrorResponse (_kind : reject_kind) : Response :=
  mkResponse 404
    [(js "content-type", js "application/octet-stream"); (js "cache-control", js "no-store");
     (js "content-length", js_dec CONSTANT_TIME_ERROR_BODY_LEN)]
    (replicate (Z.to_nat CONSTANT_TIME_ERROR_BODY_LEN) 48).

(** ** The route *)

Definition DEFAULT_PAGE_SIZE : Z := 100.

(** The request as the route reads it: the fingerprint segment of the URL pattern and the
    [since] parameter are what the platform's URL classes make of the URL. *)
Record disclosure_request := mkDReq {
  d_req : Lease.Request;
  d_fp : option jsstr;
  d_since : option jsstr;
}.

(** The bindings the constructor names, as [readEnvString] gives them. *)
Definition readEnvString (v : option jsstr) : option jsstr :=
  match v with Some (_ :: _) => v | _ => None end.

(** A 200 answer before it is printed. *)
Record disclosed := mkDisclosed {
  dc_peer : jsstr;
  dc_master : jsstr;
  dc_next : option jsstr;
  dc_page : list Attestations.PeerAttestation;
  dc_pending : list PendingAttestations.PendingAttestation;
}.

Definition opt_str (o : option jsstr) : Json := match o with Some s => JStr s | None => JNull end.

Definition header_record (d : disclosed) : Json :=
  JObj ([(js "type", JStr (js "header")); (js "version", JStr (js "v1"));
         (js "peer_fingerprint", JStr (dc_peer d)); (js "master_public_key", JStr (dc_master d))]
        ++ match dc_next d with Some c => [(js "next_cursor", JStr c)] | None => [] end).

Definition attestation_record (a : Attestations.PeerAttestation) : Json :=
  JObj [(js "type", JStr (js "attestation")); (js "seq", JNum (Attestations.seq a));
        (js "prev_self_ref", opt_str (Attestations.prev_self_ref a));
        (js "prev_peer_ref", opt_str (Attestations.prev_peer_ref a));
        (js "content_hash", JStr (Attestations.content_hash a));
        (js "content_type", JStr (Attestations.content_type a));
        (js "scope", JStr (Attestations.scope a));
        (js "cert_b64", JStr (Base64.btoa (Attestations.cert a)));
        (js "sig_b64", JStr (Base64.btoa (Attestations.sig a)));
        (js "created_at", JNum (Attestations.created_at a))].

Definition pending_record (p : PendingAttestations.PendingAttestation) : Json :=
  JObj [(js "type", JStr (js "pending"));
        (js "content_hash", JStr (PendingAttestations.content_hash p));
        (js "scope", JStr (PendingAttestations.scope p));
        (js "attempts", JNum (Z.of_nat (PendingAttestations.attempts p)));
        (js "next_retry_at", JNum (PendingAttestations.next_retry_at p));
        (js "exhausted", JBool (PendingAttestations.next_retry_at p =? MAX_SAFE_INTEGER));
        (js "created_at", JNum (PendingAttestations.created_at p));
        (js "last_attempt_at", match PendingAttestations.last_attempt_at p with
                               | Some t => JNum t | None => JNull end)].

(** One JSON text per line. *)
Definition render (o : reject_kind + disclosed) : Response :=
  match o with
  | inl kind => constantTimeErrorResponse kind
  | inr d =>
      mkResponse 200
        [(js "content-type", js "application/jsonl; charset=utf-8"); (js "cache-control", js "no-store")]
        (join [10] (map json_stringify (header_record d :: map attestation_record (dc_page d)
                                        ++ map pending_record (dc_pending d))) ++ [10])
  end.

Inductive exn :=
  | GateThrew (e : Lease.exn)
  | StoreThrew (e : TrustStore.exn)
  | CallThrew
  | KeyThrew (e : key_error)
  | CursorOutsideModel
  | InvariantHmacKey.

(** The fates of a request's calls to the trust store. *)
Record fates := mkFates { on_verify : rpc; on_chain : rpc; on_list : rpc; on_pending : rpc }.
Definition all_arrive : fates := mkFates Delivered Delivered Delivered Delivered.

Definition trust {A} (fate : rpc) (m : M TrustStore.T TrustStore.exn A) : M Lease.world exn A :=
  remote CallThrew fate (fun w => match m (Lease.w_store w) with
                                  | (s, Ok a) => (Lease.mkWorld (Lease.w_cache w) s, Ok a)
                                  | (s, Throw e) => (Lease.mkWorld (Lease.w_cache w) s, Throw (StoreThrew e))
                                  end).

Definition gate {A} (m : M Lease.world Lease.exn A) : M Lease.world exn A :=
  fun w => match m w with
           | (w', Ok a) => (w', Ok a)
           | (w', Throw e) => (w', Throw (GateThrew e))
           end.

Definition lift {E A} (f : E -> exn) (r : result E A) : M Lease.world exn A :=
  match r with Ok a => ret a | Throw e => throw (f e) end.

(** [rejectReason ??= r] *)
Definition orelse (o : option reject_kind) (cond : bool) (r : reject_kind) : option reject_kind :=
  match o with Some _ => o | None => if cond then Some r else None end.

Section route.
Context `{Sha256} `{Ed25519} `{Lease.CertPath} `{CaBundle.CborX} `{Hmac}.

(** Everything up to the existence probe: the reason to refuse, if any, the imported key,
    and the sequence number to start from. *)
Definition admit_request (x : fates) (env : CaBundle.Env) (notme : CaBundle.reply) (now clock : Z)
    (hmacKeyB64 : option jsstr) (r : disclosure_request)
    : M Lease.world exn (option reject_kind * option bytes * Z) :=
  let fp := default [] (d_fp r) in
  let rejectReason := orelse None (bool_decide (fp = [])) not_found in
  let* gateVerdict := gate (Lease.gateAndVerify (on_verify x) env now clock notme
    (Lease.mkArgs (d_req r) [] (Some (JStr (js "disclosure"))) None (Some (js "disclosure:" ++ fp))) false) in
  let rejectReason := orelse rejectReason
    (match gateVerdict with Lease.G_reject _ _ => true | _ => false end) denied in
  let keyB64 := readEnvString hmacKeyB64 in
  let rejectReason := orelse rejectReason (bool_decide (keyB64 = None)) denied in
  let* hmacKey := match keyB64 with
                  | Some k => let* key := lift KeyThrew (importHmacKey k) in ret (Some key)
                  | None => ret None
                  end in
  match d_since r, hmacKey with
  | Some ((_ :: _) as cursorParam), Some key =>
      let* decoded := lift (fun _ => CursorOutsideModel) (verifyCursor cursorParam key) in
      match decoded with
      | Some c =>
          if bool_decide (peerFp c = fp) then ret (rejectReason, hmacKey, fromSeq c)
          else ret (orelse rejectReason true bad_cursor, hmacKey, 0)
      | None => ret (orelse rejectReason true bad_cursor, hmacKey, 0)
      end
  | _, _ => ret (rejectReason, hmacKey, 0)
  end.

(** The page and the cursor after it, from [limit + 1] rows. *)
Definition next_page (fp : jsstr) (now : Z) (hmacKey : option bytes)
    (attestations : list Attestations.PeerAttestation)
    : M Lease.world exn (list Attestations.PeerAttestation * option jsstr) :=
  let limit := DEFAULT_PAGE_SIZE in
  if limit <? Z.of_nat (length attestations) then
    let page := take (Z.to_nat limit) attestations in
    match hmacKey with
    | None => throw InvariantHmacKey
    | Some key =>
        let lastSeq := default 0 (Attestations.seq <$> last page) in
        ret (page, Some (signCursor (mkCursor fp (lastSeq + 1) now) key))
    end
  else ret (attestations, None).

Definition handle (x : fates) (env : CaBundle.Env) (notme : CaBundle.reply) (now clock : Z)
    (hmacKeyB64 masterKeyB64 : option jsstr) (r : disclosure_request)
    : M Lease.world exn (reject_kind + disclosed) :=
  let fp := default [] (d_fp r) in
  let* '(rejectReason, hmacKey, from) := admit_request x env notme now clock hmacKeyB64 r in
  let* hasChain := trust (on_chain x) (TrustStore.peerHasChain fp) in
  match rejectReason with
  | Some reason => ret (inl reason)
  | None =>
      if negb hasChain then ret (inl not_found)
      else
        let* attestations := trust (on_list x) (TrustStore.listAttestationsForPeer fp (Some from)
                                      (Some (DEFAULT_PAGE_SIZE + 1))) in
        let* pending := trust (on_pending x) (TrustStore.listPendingForPeer fp) in
        if bool_decide (attestations = []) && bool_decide (pending = []) then ret (inl not_found)
        else
          let* '(page, next) := next_page fp now hmacKey attestations in
          ret (inr (mkDisclosed fp (default [] (readEnvString masterKeyB64)) next page pending))
  end.
End route.

(** ** Cursors read back *)

Lemma b64u_roundtrip bs : b64uDecode (b64uEncode bs) = Some bs.
Proof.
  change (b64uDecode (b64uEncode bs)) with (Base64.b64Decode (Base64.b64encode bs)).
  rewrite Base64.decoders_agree. apply Base64.b64decode_encode.
Qed.

Lemma b64u_units bs c : c ∈ b64uEncode bs -> 45 <= c < 128 /\ c <> DOT.
Proof.
  change (b64uEncode bs) with (Base64.b64encode bs). rewrite Base64.b64encode_core.
  intros (u & -> & Hu)%list_elem_of_fmap. apply Base64.core_units in Hu as (n & -> & Hn).
  unfold Base64.char_of, Base64.to_url, DOT.
  repeat match goal with |- context [if ?b then _ else _] => destruct b eqn:?; z_bool end; lia.
Qed.

Lemma split_on_app c a b : c ∉ a -> split_on c (a ++ c :: b) = a :: split_on c b.
Proof.
  induction a as [|x a IH]; intros Ha; cbn [app split_on]; [by rewrite Z.eqb_refl|].
  apply not_elem_of_cons in Ha as [Hx Ha]. rewrite (proj2 (Z.eqb_neq x c)) by done.
  by rewrite IH.
Qed.

Lemma split_on_none c a : c ∉ a -> split_on c a = [a].
Proof.
  induction a as [|x a IH]; intros Ha; cbn [split_on]; [done|].
  apply not_elem_of_cons in Ha as [Hx Ha]. rewrite (proj2 (Z.eqb_neq x c)) by done.
  by rewrite IH.
Qed.

Lemma b64u_no_dot bs : DOT ∉ b64uEncode bs.
Proof. intros Hd. by apply b64u_units in Hd as [_ ?]. Qed.

Definition payload_sorted (p : CursorPayload) : list (jsstr * Json) :=
  [(js "fromSeq", JNum (fromSeq p)); (js "peerFp", JStr (peerFp p)); (js "ts", JNum (ts p))].

Lemma canonical_payload p : canonicalJSON (payload_json p) = json_stringify (JObj (payload_sorted p)).
Proof.
  reflexivity.
Qed.

Definition good_payload (p : CursorPayload) : bool :=
  forallb unit16 (peerFp p) && (Z.abs (fromSeq p) <=? MAX_SAFE_INTEGER) && (Z.abs (ts p) <=? MAX_SAFE_INTEGER).

Lemma payload_representable p : good_payload p = true -> representable (JObj (payload_sorted p)) = true.
Proof.
  unfold good_payload. intros H. apply andb_true_iff in H as [[H1 H2]%andb_true_iff H3].
  cbn [representable payload_sorted forallb fst snd]. rewrite H1, H2, H3. reflexivity.
Qed.

Lemma payload_parsed p : as_parsed (JObj (payload_sorted p)) = JObj (payload_sorted p).
Proof.
  cbn [as_parsed payload_sorted map fst snd]. unfold obj_build. cbn [foldl fst snd obj_set].
  rewrite !decide_False by (by apply (bool_decide_unpack _); vm_compute).
  replace (own_before (js "peerFp") (js "fromSeq")) with false by (vm_compute; reflexivity).
  cbn [obj_set]. rewrite !decide_False by (by apply (bool_decide_unpack _); vm_compute).
  replace (own_before (js "ts") (js "fromSeq")) with false by (vm_compute; reflexivity).
  by replace (own_before (js "ts") (js "peerFp")) with false by (vm_compute; reflexivity).
Qed.

Lemma read_payload_sorted p : read_payload (JObj (payload_sorted p)) = Some p.
Proof.
  unfold read_payload, get_prop.
  assert (E1 : assoc (js "peerFp") (payload_sorted p) = Some (JStr (peerFp p))) by reflexivity.
  assert (E2 : assoc (js "fromSeq") (payload_sorted p) = Some (JNum (fromSeq p))) by reflexivity.
  assert (E3 : assoc (js "ts") (payload_sorted p) = Some (JNum (ts p))) by reflexivity.
  rewrite E1, E2, E3. by destruct p.
Qed.

Section cursor.
Context `{Hmac}.

Lemma verify_signed p key :
  good_payload p = true -> verifyCursor (signCursor p key) key = Ok (Some p).
Proof.
  intros Hp. unfold verifyCursor, signCursor.
  set (body := b64uEncode (utf8_encode (canonicalJSON (payload_json p)))).
  set (mac := b64uEncode _). rewrite <- !app_assoc. cbn [app].
  rewrite split_on_app by (apply (bool_decide_unpack _); vm_compute; exact I).
  rewrite split_on_app, split_on_none by apply b64u_no_dot.
  rewrite bool_decide_true by done. cbn [negb]. unfold mac at 1. rewrite b64u_roundtrip.
  unfold hmac_verify. rewrite bool_decide_true by done. cbn [negb]. unfold body at 1.
  rewrite b64u_roundtrip, canonical_payload.
  rewrite utf8_lossy_encode; [|by apply stringify_well_formed, payload_representable|done].
  rewrite json_roundtrip by by apply payload_representable.
  by rewrite payload_parsed, read_payload_sorted.
Qed.

(** What is accepted carries the key's MAC over the version and the body text. *)
Lemma verify_sound c key p :
  verifyCursor c key = Ok (Some p) ->
  exists b s, c = version ++ [DOT] ++ b ++ [DOT] ++ s /\
    b64uDecode s = Some (hmac_sign key (utf8_encode (version ++ [DOT] ++ b))) /\
    exists bs j, b64uDecode b = Some bs /\ json_parse (utf8_decode_lossy bs) = Ok j /\ read_payload j = Some p.
Proof.
  unfold verifyCursor. destruct (split_on_spec DOT c) as (Hj & _ & _).
  destruct (split_on DOT c) as [|v [|b [|s [|]]]]; try done. case_bool_decide as Hv; [|done].
  cbn [negb]. subst v. destruct (b64uDecode s) as [sig|] eqn:Es; [|done]. unfold hmac_verify.
  case_bool_decide as Hm; [|done]. cbn [negb]. subst sig.
  destruct (b64uDecode b) as [bs|] eqn:Eb; [|done].
  destruct (json_parse (utf8_decode_lossy bs)) as [j|[]] eqn:Ej; [|done..]. intros [= Hp].
  exists b, s. split; [by rewrite <- Hj|]. split; [done|]. by exists bs, j.
Qed.
End cursor.

(** ** A page of the log *)

Section paging.
Context `{Sha256} `{Ed25519} `{Lease.CertPath} `{CaBundle.CborX} `{Hmac}.
Context (env : CaBundle.Env) (notme : CaBundle.reply) (now clock : Z).
Context (keyB64 : jsstr) (key : bytes) (masterKeyB64 : option jsstr).
Context (req : Lease.Request) (fp : jsstr) (log : jsstr -> list Attestations.PeerAttestation).
Context (Hoff : CaBundle.leaseEnforced env = false).
Context (Hkey : importHmacKey keyB64 = Ok key) (Hkne : keyB64 <> []) (Hfp : fp <> []).
Context (Hlog : log fp <> []).

Lemma readEnvString_nonempty k : k <> [] -> readEnvString (Some k) = Some k.
Proof. by destruct k. Qed.

(** The request for rows from [k] on: no cursor for the first page. *)
Definition asks (since : option jsstr) (k : Z) : Prop :=
  match since with
  | None => k = 0
  | Some c => c <> [] /\ verifyCursor c key = Ok (Some (mkCursor fp (k + 1) now))
  end.

Lemma admit_ok since k w :
  asks since k ->
  exists from, Z.to_nat (from - 1) = Z.to_nat k /\
    admit_request all_arrive env notme now clock (Some keyB64) (mkDReq req (Some fp) since) w =
    (w, Ok (None, Some key, from)).
Proof using Hoff Hkey Hkne Hfp.
  intros Ha. unfold admit_request, gate, Lease.gateAndVerify, bind, ret, lift. cbn [d_fp d_since d_req].
  rewrite Hoff. cbn [negb]. rewrite (readEnvString_nonempty keyB64) by done.
  change (default [] (Some fp)) with fp. rewrite !(bool_decide_false (fp = [])) by done.
  rewrite Hkey, (bool_decide_false (Some keyB64 = None)) by done. unfold ret. cbn [orelse].
  destruct since as [c|]; cbn [asks] in Ha.
  - destruct Ha as [Hc Hv]. destruct c as [|u c]; [done|]. rewrite Hv. unfold ret.
    rewrite bool_decide_true by done. exists (k + 1). split; [lia|done].
  - subst k. exists 0. done.
Qed.

Lemma next_page_spec l k w :
  Attestations.chain_ok fp l -> 0 <= k ->
  next_page fp now (Some key) (limit 101 (drop (Z.to_nat k) l)) w =
  (w, Ok (take 100 (drop (Z.to_nat k) l),
          if k + 100 <? Z.of_nat (length l)
          then Some (signCursor (mkCursor fp (k + 100 + 1) now) key) else None)).
Proof.
  intros Hc Hk. unfold next_page, limit. change (101 <? 0) with false. cbv iota.
  change (Z.to_nat 101) with 101%nat. change (Z.to_nat DEFAULT_PAGE_SIZE) with 100%nat.
  rewrite length_take, length_drop. destruct (Z.ltb_spec (k + 100) (Z.of_nat (length l))) as [Hlt|Hge].
  - change DEFAULT_PAGE_SIZE with 100.
    replace (100 <? Z.of_nat (101 `min` (length l - Z.to_nat k))%nat) with true
      by (symmetry; apply Z.ltb_lt; clear -Hk Hlt; lia).
    rewrite take_take. change (100 `min` 101)%nat with 100%nat. unfold ret. do 5 f_equal.
    destruct (lookup_lt_is_Some_2 l (Z.to_nat k + 99)%nat ltac:(lia)) as [x Hx].
    assert (Hl : last (take 100 (drop (Z.to_nat k) l)) = Some x).
    { rewrite last_lookup, length_take, length_drop. replace (Init.Nat.pred _) with 99%nat by lia.
      rewrite lookup_take_lt by lia. rewrite lookup_drop. done. }
    rewrite Hl. cbn. rewrite (Attestations.chain_seq fp l _ x Hc Hx). f_equal. lia.
  - change DEFAULT_PAGE_SIZE with 100.
    replace (100 <? Z.of_nat (101 `min` (length l - Z.to_nat k))%nat) with false
      by (symmetry; apply Z.ltb_ge; clear -Hk Hge; lia).
    unfold ret. do 3 f_equal. rewrite !take_ge by (rewrite length_drop; lia). done.
Qed.

Lemma handle_page since k w :
  Attestations.represents (TrustStore.peer_attestations (Lease.w_store w)) log ->
  asks since k -> 0 <= k < Z.of_nat (length (log fp)) ->
  exists d, handle all_arrive env notme now clock (Some keyB64) masterKeyB64 (mkDReq req (Some fp) since) w =
      (w, Ok (inr d)) /\
    dc_page d = take 100 (drop (Z.to_nat k) (log fp)) /\
    dc_next d = if k + 100 <? Z.of_nat (length (log fp))
                then Some (signCursor (mkCursor fp (k + 100 + 1) now) key) else None.
Proof using Hoff Hkey Hkne Hfp Hlog.
  intros Hr Ha Hk. destruct (admit_ok since k w Ha) as (from & Hf & Ea).
  destruct (TrustStore.peerHasChain_iff (Lease.w_store w) log fp Hr) as (b & Eb & Hb).
  assert (b = true) as -> by (apply Hb; by left). unfold handle, bind at 1. rewrite Ea.
  cbn [d_fp]. change (default [] (Some fp)) with fp. unfold bind at 1, trust at 1, remote at 1. rewrite Eb.
  cbn [negb Lease.w_cache all_arrive on_chain on_list on_pending]. destruct w as [cache store]. cbn [Lease.w_store Lease.w_cache] in *.
  unfold bind at 1, trust at 1, remote at 1, TrustStore.listAttestationsForPeer, read. cbn [Lease.w_store Lease.w_cache].
  rewrite (Attestations.listAttestationsForPeer_log _ log fp _ _ Hr). change (default 0 (Some from)) with from. rewrite Hf.
  unfold bind at 1, trust at 1, remote at 1, TrustStore.listPendingForPeer, read. cbn [Lease.w_store Lease.w_cache].
  change (default 1000 (Some (DEFAULT_PAGE_SIZE + 1))) with 101.
  set (rows := limit _ _). assert (Hne : rows <> []).
  { unfold rows, limit. change (101 <? 0) with false. cbv iota. change (Z.to_nat 101) with 101%nat.
    intros E. apply (f_equal length) in E. rewrite length_take, length_drop in E. cbn [length] in E. lia. }
  rewrite (bool_decide_false (rows = [])) by done. cbn [andb]. unfold bind at 1, rows.
  rewrite next_page_spec by (apply (Attestations.rep_chain _ _ Hr) || lia).
  eexists. split; [reflexivity|]. done.
Qed.

(** A client that follows the cursors: [n] pages after the first. *)
Fixpoint follow (n : nat) (since : option jsstr) (w : Lease.world) : list Attestations.PeerAttestation :=
  match handle all_arrive env notme now clock (Some keyB64) masterKeyB64 (mkDReq req (Some fp) since) w with
  | (w', Ok (inr d)) =>
      dc_page d ++ match dc_next d, n with
                   | Some c, S n => follow n (Some c) w'
                   | _, _ => []
                   end
  | _ => []
  end.

Lemma follow_from n : forall since k w,
  Attestations.represents (TrustStore.peer_attestations (Lease.w_store w)) log ->
  forallb unit16 fp = true -> Z.abs now <= MAX_SAFE_INTEGER ->
  Z.of_nat (length (log fp)) < MAX_SAFE_INTEGER ->
  asks since k -> 0 <= k < Z.of_nat (length (log fp)) ->
  (length (log fp) <= Z.to_nat k + 100 * (n + 1))%nat ->
  follow n since w = drop (Z.to_nat k) (log fp).
Proof using Hoff Hkey Hkne Hfp Hlog.
  induction n as [|n IH]; intros since k w Hr Hu Hnow Hlen Ha Hk Hn;
    destruct (handle_page since k w Hr Ha Hk) as (d & Ed & Ep & En); cbn [follow]; rewrite Ed, Ep, En.
  - replace (k + 100 <? _) with false by lia. rewrite app_nil_r. apply take_ge. rewrite length_drop. lia.
  - destruct (Z.ltb_spec (k + 100) (Z.of_nat (length (log fp)))) as [Hlt|Hge].
    + rewrite (IH _ (k + 100)); [|done..| |lia|lia].
      * rewrite <- (take_drop 100 (drop (Z.to_nat k) (log fp))) at 2. f_equal. rewrite drop_drop. f_equal. lia.
      * split; [by destruct (version)|]. apply verify_signed. unfold good_payload. cbn [peerFp fromSeq ts].
        rewrite Hu. cbn [andb]. apply andb_true_iff. split; lia.
    + rewrite app_nil_r. apply take_ge. rewrite length_drop. lia.
Qed.
End paging.

(** ** Theorems *)

(** Signed cursors: a cursor the route signed verifies under the same key and gives its
    payload back, and whatever verifies is a version, a body and the key's MAC over the two,
    with the payload read from that body. *)
Theorem cursor_authenticated `{Hmac} p key c q :
  good_payload p = true ->
  verifyCursor (signCursor p key) key = Ok (Some p) /\
  (verifyCursor c key = Ok (Some q) ->
   exists b s, c = version ++ [DOT] ++ b ++ [DOT] ++ s /\
     b64uDecode s = Some (hmac_sign key (utf8_encode (version ++ [DOT] ++ b))) /\
     exists bs j, b64uDecode b = Some bs /\ json_parse (utf8_decode_lossy bs) = Ok j /\ read_payload j = Some q).
Proof. intros Hp. split; [by apply verify_signed|apply verify_sound]. Qed.

(** A stand-in MAC for closed examples. *)
Definition demo_hmac : Hmac := fun key data => key ++ @sha256 demo_sha256 data.
Definition demo_hmac_key : bytes := [z2b 7; z2b 8].

Lemma cursor_authenticated_witness :
  @verifyCursor demo_hmac (@signCursor demo_hmac (mkCursor (js "fp") 101 5) demo_hmac_key) demo_hmac_key =
  Ok (Some (mkCursor (js "fp") 101 5)).
Proof.
  apply (@cursor_authenticated demo_hmac (mkCursor (js "fp") 101 5) demo_hmac_key [] (mkCursor [] 0 0)).
  vm_compute. reflexivity.
Defined.

(** Following the cursors reads the whole log: in a deployment without a lease authority, a
    client that asks for a peer with a chain and then repeats the request with each
    [next_cursor] it is given receives, page after page, exactly the peer's attestation log,
    in order and without repetition, after one request per hundred rows. *)
Theorem disclosure_reads_log `{Sha256} `{Ed25519} `{Lease.CertPath} `{CaBundle.CborX} `{Hmac}
    env notme now clock keyB64 key masterKeyB64 req fp log n w :
  CaBundle.leaseEnforced env = false -> importHmacKey keyB64 = Ok key -> keyB64 <> [] ->
  fp <> [] -> log fp <> [] ->
  Attestations.represents (TrustStore.peer_attestations (Lease.w_store w)) log ->
  forallb unit16 fp = true -> Z.abs now <= MAX_SAFE_INTEGER ->
  Z.of_nat (length (log fp)) < MAX_SAFE_INTEGER -> (length (log fp) <= 100 * (n + 1))%nat ->
  follow env notme now clock keyB64 masterKeyB64 req fp n None w = log fp.
Proof.
  intros Hoff Hkey Hkne Hfp Hlog Hr Hu Hnow Hlen Hn.
  apply (follow_from env notme now clock keyB64 key masterKeyB64 req fp log Hoff Hkey Hkne Hfp Hlog n None 0 w);
    try done.
  split; [done|]. destruct (log fp); [done|]. cbn [length]. lia.
Qed.

(** A store in development mode whose peer has two attestations, and the client's answer. *)
Definition demo_row (i : Z) (prev : option jsstr) (c : jsstr) : Attestations.PeerAttestation :=
  Attestations.new_row (Attestations.demo_args prev c) i.
Definition demo_log (p : jsstr) : list Attestations.PeerAttestation :=
  Attestations.log_add (Attestations.log_add (fun _ => []) (demo_row 1 None (js "h1")))
    (demo_row 2 (Some (js "h1")) (js "h2")) p.
Definition demo_table : Attestations.table :=
  <[(js "peer", 2) := demo_row 2 (Some (js "h1")) (js "h2")]>
    (<[(js "peer", 1) := demo_row 1 None (js "h1")]> ∅).
Definition demo_env : CaBundle.Env := CaBundle.mkEnv (Some (js "dev")) None None None.
Definition demo_world : Lease.world :=
  Lease.mkWorld None (TrustStore.set_attestations demo_table TrustStore.empty).

Lemma demo_represents : Attestations.represents demo_table demo_log.
Proof.
  assert (H1 := Attestations.represents_insert ∅ (fun _ => []) (demo_row 1 None (js "h1"))
    Attestations.attest_represents_empty ltac:(split; [done|split; [done|done]])).
  destruct H1 as [_ H1].
  assert (H2 := Attestations.represents_insert _ _ (demo_row 2 (Some (js "h1")) (js "h2")) H1
    ltac:(split; [done|split; [reflexivity|vm_compute; reflexivity]])).
  destruct H2 as [_ H2]. exact H2.
Qed.

Lemma disclosure_reads_log_witness :
  @follow demo_sha256 demo_ed25519 Lease.demo_certpath CaBundle.demo_cborx demo_hmac demo_env
    CaBundle.NetworkThrew 5 5 (js "Bwg") None Lease.demo_request (js "peer") 0 None demo_world =
  [demo_row 1 None (js "h1"); demo_row 2 (Some (js "h1")) (js "h2")].
Proof.
  apply (@disclosure_reads_log demo_sha256 demo_ed25519 Lease.demo_certpath CaBundle.demo_cborx demo_hmac
    demo_env CaBundle.NetworkThrew 5 5 (js "Bwg") demo_hmac_key None Lease.demo_request (js "peer")
    demo_log 0 demo_world); try (vm_compute; reflexivity); try discriminate.
  - apply demo_represents.
  - vm_compute. lia.
Defined.

(** ** What a disclosure implies *)

Section guard.
Context `{Sha256} `{Ed25519} `{Lease.CertPath} `{CaBundle.CborX} `{Hmac}.

Lemma orelse_None o b r : orelse o b r = None <-> o = None /\ b = false.
Proof. destruct o, b; cbn; naive_solver. Qed.

Lemma admit_None x env notme now clock keyB64 r w w1 key from :
  admit_request x env notme now clock keyB64 r w = (w1, Ok (None, key, from)) ->
  default [] (d_fp r) <> [] /\
  (exists v, Lease.gateAndVerify (on_verify x) env now clock notme (Lease.mkArgs (d_req r) [] (Some (JStr (js "disclosure"))) None
       (Some (js "disclosure:" ++ default [] (d_fp r)))) false w = (w1, Ok v) /\
     forall c m, v <> Lease.G_reject c m) /\
  exists k kb, key = Some kb /\ keyB64 = Some k /\ importHmacKey k = Ok kb /\
    match d_since r with
    | Some ((_ :: _) as c) =>
        exists p, verifyCursor c kb = Ok (Some p) /\ peerFp p = default [] (d_fp r) /\ from = fromSeq p
    | _ => from = 0
    end.
Proof.
  intros E. unfold admit_request in E. apply bind_Ok in E as (w2 & v & Eg & E).
  assert (Hg : Lease.gateAndVerify (on_verify x) env now clock notme (Lease.mkArgs (d_req r) [] (Some (JStr (js "disclosure"))) None
       (Some (js "disclosure:" ++ default [] (d_fp r)))) false w = (w2, Ok v)).
  { unfold gate in Eg. destruct (Lease.gateAndVerify _ _ _ _ _ _ _ _) as [w' [v'|e]]; [|done].
    by injection Eg as <- <-. }
  clear Eg. apply bind_Ok in E as (w3 & key' & Ek & E).
  set (fp := default [] (d_fp r)) in *.
  set (o := orelse _ (bool_decide (readEnvString keyB64 = None)) denied) in E.
  assert (Hkey : w3 = w2 /\ match readEnvString keyB64 with
            | Some k => exists kb, importHmacKey k = Ok kb /\ key' = Some kb
            | None => key' = None end).
  { destruct (readEnvString keyB64) as [k|]; [|by injection Ek as <- <-].
    apply bind_Ok in Ek as (w4 & kb & Ei & Ek). unfold lift in Ei.
    destruct (importHmacKey k) as [kb'|]; [|done]. injection Ei as <- <-. injection Ek as <- <-. eauto. }
  destruct Hkey as [-> Hkey].
  assert (Ho : o = None -> fp <> [] /\ (forall c m, v <> Lease.G_reject c m) /\
                 readEnvString keyB64 <> None).
  { unfold o. rewrite !orelse_None. intros (((_ & Hf) & Hv) & Hk).
    apply bool_decide_eq_false in Hf, Hk. split; [done|]. split; [|done].
    intros c m ->. done. }
  assert (Hend : o = None /\ w1 = w2 /\ key = key' /\
    match d_since r, key' with
    | Some ((_ :: _) as c), Some kb =>
        exists p, verifyCursor c kb = Ok (Some p) /\ peerFp p = fp /\ from = fromSeq p
    | _, _ => from = 0
    end).
  { destruct (d_since r) as [[|u c]|], key' as [kb|]; try (by injection E).
    apply bind_Ok in E as (w3 & dec & Ed & E). unfold lift in Ed.
    destruct (verifyCursor (u :: c) kb) as [dec'|] eqn:Ev; [|done]. injection Ed as <- <-.
    destruct dec' as [p|]; [|injection E as _ E; by destruct o].
    case_bool_decide as Hp; [|injection E as _ E; by destruct o].
    injection E as <- -> <- <-. do 3 (split; [done|]). by exists p. }
  destruct Hend as (Hn & -> & -> & Hend). destruct (Ho Hn) as (Hf & Hv & Hk).
  split; [done|]. split; [by exists v|].
  destruct (readEnvString keyB64) as [k|] eqn:Ek'; [|done]. destruct Hkey as (kb & Hi & ->).
  exists k, kb. split; [done|]. split; [by destruct keyB64 as [[|]|]|]. split; [done|].
  destruct (d_since r) as [[|u c]|]; done.
Qed.

(** A row of a listing belongs to the peer it was asked for. *)
Lemma listed_peer (t : Attestations.table) fp from lim x :
  x ∈ Attestations.listAttestationsForPeer t fp from lim -> Attestations.peer_fingerprint x = fp.
Proof.
  unfold Attestations.listAttestationsForPeer. intros Hx%elem_of_limit.
  apply elem_of_order_by, elem_of_select_where in Hx as (k & _ & Hx).
  apply andb_true_iff in Hx as [Hx _]. by apply bool_decide_eq_true in Hx.
Qed.

Lemma next_page_rows fp now key l w w' page next :
  next_page fp now key l w = (w', Ok (page, next)) -> forall x, x ∈ page -> x ∈ l.
Proof.
  unfold next_page. intros E x Hx. destruct (DEFAULT_PAGE_SIZE <? _).
  - destruct key as [k|]; [|done]. injection E as _ <- _.
    rewrite <- (take_drop (Z.to_nat DEFAULT_PAGE_SIZE) l), elem_of_app. by left.
  - by injection E as _ <- _.
Qed.

(** C35: Nothing is disclosed without authority: a 200 answer means that the lease gate did not
    refuse a request for the scope of exactly this fingerprint, that the deployment has a MAC
    key, that a cursor in the request, if any, carries this key's MAC and names this very
    fingerprint, and that every attestation in the page is the peer's.  Every other outcome
    that returns is one and the same response, whatever the reason. *)
Theorem disclosure_guarded x env notme now clock keyB64 masterB64 r w w' d k1 k2 :
  handle x env notme now clock keyB64 masterB64 r w = (w', Ok (inr d)) ->
  let fp := default [] (d_fp r) in
  fp <> [] /\ dc_peer d = fp /\
  (exists w1 v, Lease.gateAndVerify (on_verify x) env now clock notme (Lease.mkArgs (d_req r) [] (Some (JStr (js "disclosure"))) None
       (Some (js "disclosure:" ++ fp))) false w = (w1, Ok v) /\ forall c m, v <> Lease.G_reject c m) /\
  (exists k kb, keyB64 = Some k /\ importHmacKey k = Ok kb /\
     forall u c, d_since r = Some (u :: c) -> exists p, verifyCursor (u :: c) kb = Ok (Some p) /\ peerFp p = fp) /\
  (forall a, a ∈ dc_page d -> Attestations.peer_fingerprint a = fp) /\
  render (inl k1) = render (inl k2).
Proof.
  intros E fp. unfold handle in E. apply bind_Ok in E as (w1 & [[reason key] from] & Ea & E).
  apply bind_Ok in E as (w2 & hasChain & _ & E). destruct reason as [reason|]; [done|].
  apply admit_None in Ea as (Hf & (v & Hg & Hv) & k & kb & -> & Hk & Hi & Hs).
  destruct (negb hasChain); [done|]. fold fp in E.
  apply bind_Ok in E as (w3 & rows & Er & E). apply bind_Ok in E as (w4 & pend & _ & E).
  destruct (bool_decide (rows = []) && _); [done|].
  apply bind_Ok in E as (w5 & [page next] & Ep & E). injection E as _ <-. cbn [dc_peer dc_page].
  split; [done|]. split; [done|]. split; [by exists w1, v|].
  split.
  { exists k, kb. split; [done|]. split; [done|]. intros u c Hu. rewrite Hu in Hs.
    destruct Hs as (p & Hp & Hpf & _). by exists p. }
  split; [|done]. intros a Ha. apply (next_page_rows _ _ _ _ _ _ _ _ Ep) in Ha.
  unfold trust, TrustStore.listAttestationsForPeer, read, remote in Er. destruct (on_list x); [|done..]. injection Er as _ <-.
  by apply listed_peer in Ha.
Qed.
End guard.

#[local] Instance demo_sha : Sha256 := demo_sha256.
#[local] Instance demo_ed : Ed25519 := demo_ed25519.
#[local] Instance demo_cp : Lease.CertPath := Lease.demo_certpath.
#[local] Instance demo_cx : CaBundle.CborX := CaBundle.demo_cborx.
#[local] Instance demo_hm : Hmac := demo_hmac.

(** A request of the peer "peer" that the demonstration deployment answers with a page. *)
Definition demo_disclosure_request := mkDReq Lease.demo_request (Some (js "peer")) None.
Definition demo_answer :=
  handle all_arrive demo_env CaBundle.NetworkThrew 5 5 (Some (js "Bwg")) None demo_disclosure_request demo_world.

Lemma disclosure_guarded_witness :
  (exists d, demo_answer.2 = Ok (inr d) /\ dc_peer d = js "peer") /\
  status (render (inl denied)) = 404.
Proof.
  assert (Hm : match demo_answer.2 with Ok (inr _) => True | _ => False end) by (vm_compute; exact I).
  destruct demo_answer as [w' [[k|d]|e]] eqn:Hp; [destruct Hm| |destruct Hm]. unfold demo_answer in Hp.
  destruct (disclosure_guarded all_arrive demo_env CaBundle.NetworkThrew 5 5 (Some (js "Bwg")) None
    demo_disclosure_request demo_world w' d denied bad_cursor Hp) as (_ & Hpeer & _).
  clear Hp. split; [exists d; split; [reflexivity|exact Hpeer]|reflexivity].
Defined.
End Disclosure.
