(* ===== verification/OciRegistry.v ===== *)
(** The OCI distribution route (src/routes/oci-registry.ts): pulls and pushes of images over
    the blob store and the registry indexes of the trust store.

    A request carries the answers of the URL patterns on its URL; the route's own state is the
    table of open uploads.  Each call to an object has a fate ([rpc]), so a push can stop
    between its steps; the theorems hold for every fate. *)
From S2P Require Import Prelude JsString Sql Platform Json JsonText BlobRefStore Registry TrustStore CaBundle Lease.

Module OciRegistry.
Import JsonText.

(** ** Requests and responses *)

(** The groups of each pattern, where it matches; a group that is missing reads as empty. *)
Record patterns := mkPatterns {
  PATTERN_VERSION : bool;
  PATTERN_VERSION_NO_SLASH : bool;
  PATTERN_CATALOG : bool;
  PATTERN_TAGS : option jsstr;
  PATTERN_MANIFEST : option (jsstr * jsstr);
  PATTERN_BLOB : option (jsstr * jsstr);
  PATTERN_UPLOAD_BEGIN : option jsstr;
  PATTERN_UPLOAD_SESSION : option (jsstr * jsstr);
}.

(** The request, its patterns, [searchParams.get("digest")] and its body. *)
Record oci_request := mkOci {
  o_req : Lease.Request;
  o_url : patterns;
  o_digest : option jsstr;
  o_body : bytes;
}.

Definition method (r : oci_request) : jsstr := Lease.r_method (o_req r).
Definition get_header (r : oci_request) (name : jsstr) : option jsstr := Lease.r_header (o_req r) name.

Inductive body_init := NoBody | Text (s : jsstr) | Raw (bs : bytes).

Record Response := mkResponse { status : Z; headers : list (jsstr * jsstr); body : body_init }.

Definition API_VERSION_HEADER : jsstr := js "Docker-Distribution-API-Version".
Definition API_VERSION_VALUE : jsstr := js "registry/2.0".
Definition DEFAULT_MANIFEST_MEDIA_TYPE : jsstr := js "application/vnd.oci.image.manifest.v1+json".
Definition JSON_TYPE : jsstr := js "application/json; charset=utf-8".

(** /^[a-z0-9][a-z0-9._/-]{0,254}$/ *)
Definition lower_alnum (c : Z) : bool := ((97 <=? c) && (c <=? 122)) || ((48 <=? c) && (c <=? 57)).
Definition REPO_NAME_RE (s : jsstr) : bool :=
  match s with
  | c :: r => lower_alnum c && (length r <=? 254)%nat &&
              forallb (fun c => lower_alnum c || bool_decide (c ∈ js "._/-")) r
  | [] => false
  end.

(** /^[A-Za-z0-9_][A-Za-z0-9._-]{0,127}$/ *)
Definition word_unit (c : Z) : bool := lower_alnum c || ((65 <=? c) && (c <=? 90)) || (c =? 95).
Definition TAG_RE (s : jsstr) : bool :=
  match s with
  | c :: r => word_unit c && (length r <=? 127)%nat && forallb (fun c => word_unit c || bool_decide (c ∈ js ".-")) r
  | [] => false
  end.

Definition SHA256_PREFIX : jsstr := js "sha256:".

Definition api_version : jsstr * jsstr := (API_VERSION_HEADER, API_VERSION_VALUE).

Definition ociError (status : Z) (code : string) (message : jsstr) : Response :=
  mkResponse status [(js "content-type", JSON_TYPE); api_version]
    (Text (json_stringify (JObj [(js "errors",
       JArr [JObj [(js "code", JStr (js code)); (js "message", JStr message)]])]))).

Definition jsonResponse (b : Json) : Response :=
  mkResponse 200 [(js "content-type", JSON_TYPE); api_version] (Text (json_stringify b)).

(** A header value as [Headers] takes it: surrounding blanks go, and a value with a line break,
    a NUL or a unit above a byte is a [TypeError]. *)
Definition http_blank (c : Z) : bool := (c =? 9) || (c =? 10) || (c =? 13) || (c =? 32).
Fixpoint drop_blanks (s : jsstr) : jsstr :=
  match s with c :: s' => if http_blank c then drop_blanks s' else s | [] => [] end.
Definition header_value (s : jsstr) : option jsstr :=
  let v := reverse (drop_blanks (reverse (drop_blanks s))) in
  if forallb (fun c => (0 <? c) && (c <=? 255) && negb (c =? 10) && negb (c =? 13)) v then Some v else None.

(** [None] is a number the JSON model does not represent. *)
Definition pickManifestMediaType (bs : bytes) : option jsstr :=
  match json_parse (utf8_decode_lossy bs) with
  | Throw Unrepresentable => None
  | Throw _ => Some DEFAULT_MANIFEST_MEDIA_TYPE
  | Ok obj =>
      match get_prop obj (js "mediaType") with
      | Some (JStr ((_ :: _) as t)) => Some t
      | _ => Some DEFAULT_MANIFEST_MEDIA_TYPE
      end
  end.

Definition digest_headers (digest : jsstr) : list (jsstr * jsstr) :=
  [(js "docker-content-digest", SHA256_PREFIX ++ digest); api_version;
   (js "etag", [34] ++ SHA256_PREFIX ++ digest ++ [34])].

Definition length_header (bs : bytes) : jsstr * jsstr := (js "content-length", js_dec (Z.of_nat (length bs))).

(** An inner [None] is the [TypeError] of the constructor. *)
Definition manifestResponse (bs : bytes) (digest : jsstr) : option (option Response) :=
  mediaType ← pickManifestMediaType bs;
  Some (v ← header_value mediaType;
        Some (mkResponse 200 ((js "content-type", v) :: length_header bs :: digest_headers digest) (Raw bs))).

Definition manifestHeadResponse (digest : jsstr) : Response :=
  mkResponse 200 ((js "content-type", DEFAULT_MANIFEST_MEDIA_TYPE) :: digest_headers digest) NoBody.

Definition OCTETS : jsstr := js "application/octet-stream".

Definition blobResponse (bs : bytes) (digest : jsstr) : Response :=
  mkResponse 200 ((js "content-type", OCTETS) :: length_header bs :: digest_headers digest) (Raw bs).

Definition blobHeadResponse (digest : jsstr) : Response :=
  mkResponse 200 ((js "content-type", OCTETS) :: digest_headers digest) NoBody.

Definition uploadAcceptedResponse (name uuid : jsstr) (size : Z) : Response :=
  let rangeEnd := if size =? 0 then 0 else size - 1 in
  mkResponse 202
    [(js "location", js "/v2/" ++ name ++ js "/blobs/uploads/" ++ uuid);
     (js "range", js "0-" ++ js_dec rangeEnd); (js "content-length", js "0");
     (js "docker-upload-uuid", uuid); api_version] NoBody.

Definition created (location digest : jsstr) : Response :=
  mkResponse 201 [(js "location", location); (js "docker-content-digest", SHA256_PREFIX ++ digest);
                  (js "content-length", js "0"); api_version] NoBody.

Definition blobCreatedResponse (name digest : jsstr) : Response :=
  created (js "/v2/" ++ name ++ js "/blobs/" ++ SHA256_PREFIX ++ digest) digest.

Definition manifestCreatedResponse (name reference digest : jsstr) : Response :=
  created (js "/v2/" ++ name ++ js "/manifests/" ++ reference) digest.

(** ** The state *)

Record UploadSession := mkSession { s_name : jsstr; s_chunks : list bytes; s_size : Z }.

Record world := mkWorld {
  w_gate : Lease.world;
  w_blobs : BlobRefStore.BlobStoreDO;
  w_uploads : gmap (list Z) UploadSession;
}.

Definition DEFAULT_MAX_BLOB_BYTES : Z := 256 * 1024 * 1024.

(** What surrounds a request: the environment of the gate, the clocks, the bundle reply, a
    fresh UUID, the cap, and the fate of each call. *)
Record surroundings := mkSurroundings {
  env : CaBundle.Env;
  notme : CaBundle.reply;
  now : Z;
  clock : Z;
  newUploadId : jsstr;
  maxBlobBytes : Z;
  on_verify : rpc;
  on_trust : rpc;
  on_read : rpc;
  on_blob : rpc;
  on_record : rpc;
  on_tag : rpc;
}.

Inductive exn :=
  | CallThrew
  | GateThrew (e : Lease.exn)
  | BadHeader
  | OutsideModel.

Definition call {A} (fate : rpc) (run : M world exn A) : M world exn A := remote CallThrew fate run.

(** A method of the trust store. *)
Definition trust {A} (m : M TrustStore.T TrustStore.exn A) : M world exn A := fun w =>
  let '(t, r) := m (Lease.w_store (w_gate w)) in
  (mkWorld (Lease.mkWorld (Lease.w_cache (w_gate w)) t) (w_blobs w) (w_uploads w),
   match r with Ok a => Ok a | Throw _ => Throw CallThrew end).

Definition set_uploads (u : gmap (list Z) UploadSession) : M world exn unit := fun w =>
  (mkWorld (w_gate w) (w_blobs w) u, Ok tt).

Section route.
Context `{Sha256} `{Blake3} `{Ed25519} `{Lease.CertPath} `{CaBundle.CborX}.

Definition blob_put (bs : bytes) (key : jsstr) : M world exn unit := fun w =>
  let '(t, r) := BlobRefStore.do_put (w_blobs w) bs (Some key) in
  (mkWorld (w_gate w) t (w_uploads w), match r with Ok _ => Ok tt | Throw _ => Throw CallThrew end).

(** ** Digests *)

Definition parseSha256Param (value : jsstr) : option jsstr :=
  if negb (starts_with SHA256_PREFIX value) then None
  else
    let hex := drop (length SHA256_PREFIX) value in
    if isDigest hex then Some hex else None.

Inductive algorithm := SHA256 | BLAKE3.

Definition verifyClaimedDigest (bs : bytes) (claimedDigest : jsstr) : option (jsstr * algorithm) :=
  match parseSha256Param claimedDigest with
  | None => None
  | Some parsed =>
      if bool_decide (BlobRefStore.digestBytes bs = parsed) then Some (parsed, SHA256)
      else if bool_decide (blake3_hex bs = parsed) then Some (parsed, BLAKE3)
      else None
  end.

Definition concatChunks (chunks : list bytes) : bytes := concat chunks.

(** ** Sizes *)

Definition size_invalid (s : surroundings) (n : Z) : Response :=
  ociError 413 "SIZE_INVALID" (js "body of " ++ js_dec n ++ js " bytes exceeds maxBlobBytes=" ++ js_dec (maxBlobBytes s)).

Definition checkContentLengthHeader (s : surroundings) (r : oci_request) : option Response :=
  match get_header r (js "content-length") with
  | None => None
  | Some cl =>
      match parse_int cl with
      | Int declared =>
          if declared <? 0 then None
          else if maxBlobBytes s <? declared then Some (size_invalid s declared) else None
      | _ => None
      end
  end.

Definition checkActualSize (s : surroundings) (actualBytes : Z) : option Response :=
  if maxBlobBytes s <? actualBytes then Some (size_invalid s actualBytes) else None.

Definition blen (bs : bytes) : Z := Z.of_nat (length bs).

(** Answer an early response, or go on. *)
Definition unless (early : option Response) (k : M world exn Response) : M world exn Response :=
  match early with Some r => ret r | None => k end.

(** ** Pulls *)

Definition manifest_unknown (reference : jsstr) : Response :=
  ociError 404 "MANIFEST_UNKNOWN" (js "manifest unknown: " ++ reference).
Definition blob_unknown (digest : jsstr) : Response := ociError 404 "BLOB_UNKNOWN" (js "blob unknown: " ++ digest).
Definition name_invalid (name : jsstr) : Response :=
  ociError 400 "NAME_INVALID" (js "invalid repository name: " ++ name).

(** The digest of a reference, or the response that refuses it. *)
Definition resolve_reference (s : surroundings) (name reference : jsstr) : M world exn (Response + jsstr) :=
  if starts_with SHA256_PREFIX reference then
    let hex := drop (length SHA256_PREFIX) reference in
    ret (if isDigest hex then inr hex else inl (manifest_unknown reference))
  else if negb (TAG_RE reference) then ret (inl (manifest_unknown reference))
  else
    let* d := call (on_trust s) (trust (TrustStore.getRegistryManifestDigestForTag name reference)) in
    match d with
    | None | Some [] => ret (inl (manifest_unknown reference))
    | Some d =>
        if negb (starts_with SHA256_PREFIX d)
        then ret (inl (ociError 500 "UNSUPPORTED" (js "tag-index digest has unexpected algorithm: " ++ d)))
        else
          let hex := drop (length SHA256_PREFIX) d in
          ret (if isDigest hex then inr hex
               else inl (ociError 500 "UNSUPPORTED" (js "tag-index digest malformed: " ++ d)))
    end.

(** The membership gate, then the store: [render] makes the response of the bytes. *)
Definition serve (s : surroundings) (isHead : bool) (name digest : jsstr) (kind : Registry.MembershipKind)
    (unknown head : Response) (render : bytes -> M world exn Response) : M world exn Response :=
  let* memberOK := call (on_read s) (trust (TrustStore.hasRegistryMembership name digest kind)) in
  if negb memberOK then ret unknown
  else if isHead then
    let* exists_ := call (on_blob s) (read (fun w => BlobRefStore.do_has (w_blobs w) digest)) in
    ret (if exists_ : bool then head else unknown)
  else
    let* bs := call (on_blob s) (read (fun w => BlobRefStore.do_get (w_blobs w) digest)) in
    match bs with None => ret unknown | Some bs => render bs end.

Definition get_manifest (s : surroundings) (isHead : bool) (name reference : jsstr) : M world exn Response :=
  if negb (REPO_NAME_RE name) then ret (name_invalid name)
  else
    let* d := resolve_reference s name reference in
    match d with
    | inl refusal => ret refusal
    | inr digest =>
        serve s isHead name digest Registry.manifest (manifest_unknown reference) (manifestHeadResponse digest)
          (fun bs => match manifestResponse bs digest with
                     | Some (Some r) => ret r
                     | Some None => throw BadHeader
                     | None => throw OutsideModel
                     end)
    end.

Definition get_blob (s : surroundings) (isHead : bool) (name digest : jsstr) : M world exn Response :=
  if negb (REPO_NAME_RE name) then ret (name_invalid name)
  else if negb (starts_with SHA256_PREFIX digest) then ret (blob_unknown digest)
  else
    let hex := drop (length SHA256_PREFIX) digest in
    if negb (isDigest hex) then ret (blob_unknown digest)
    else serve s isHead name hex Registry.blob (blob_unknown digest) (blobHeadResponse hex)
           (fun bs => ret (blobResponse bs hex)).

(** ** The write gate *)

Definition write_scope (name : jsstr) : jsstr := js "oci:write:" ++ name.

(** The gate signs over [request.clone().text()]. *)
Definition write_verdict (s : surroundings) (r : oci_request) (name : jsstr) : M world exn Lease.GateVerdict := fun w =>
  let '(g, v) := Lease.gateAndVerify (on_verify s) (env s) (now s) (clock s) (notme s)
    (Lease.mkArgs (o_req r) (utf8_decode_lossy (o_body r)) (Some (JStr (js "oci-write"))) None (Some (write_scope name))) false (w_gate w) in
  (mkWorld g (w_blobs w) (w_uploads w), match v with Ok a => Ok a | Throw e => Throw (GateThrew e) end).

Definition gateWrite (s : surroundings) (r : oci_request) (name : jsstr) : M world exn (option Response) :=
  let* verdict := write_verdict s r name in
  ret (match verdict with
       | Lease.G_reject _ _ => Some (ociError 401 "DENIED" (js "authentication required"))
       | _ => None
       end).

(** A push to [name]: the name, then the gate. *)
Definition push (s : surroundings) (r : oci_request) (name : jsstr) (k : M world exn Response) : M world exn Response :=
  if negb (REPO_NAME_RE name) then ret (name_invalid name)
  else let* authResult := gateWrite s r name in unless authResult k.

(** ** Pushes *)

Definition record (s : surroundings) (name digest : jsstr) (kind : Registry.MembershipKind) : M world exn unit :=
  call (on_record s) (trust (TrustStore.recordRegistryMembership name digest kind (now s) None)).

Definition digest_mismatch (claimed : jsstr) : Response :=
  ociError 400 "DIGEST_INVALID" (js "digest mismatch: client=" ++ claimed ++ js " body matches neither sha256 nor blake3").
Definition digest_malformed (claimed : jsstr) : Response :=
  ociError 400 "DIGEST_INVALID" (js "digest must be sha256:<64-hex>: " ++ claimed).

(** Verified bytes go to the store, then the index. *)
Definition store_blob (s : surroundings) (name claimed : jsstr) (bs : bytes) (after : M world exn unit) : M world exn Response :=
  match verifyClaimedDigest bs claimed with
  | None => ret (digest_mismatch claimed)
  | Some (key, _) =>
      do* call (on_blob s) (blob_put bs key) in
      do* record s name key Registry.blob in
      do* after in
      ret (blobCreatedResponse name key)
  end.

Definition handleUploadBegin (s : surroundings) (r : oci_request) : M world exn Response :=
  let name := default [] (PATTERN_UPLOAD_BEGIN (o_url r)) in
  push s r name
    match o_digest r with
    | Some claimedDigest =>
        match parseSha256Param claimedDigest with
        | None => ret (digest_malformed claimedDigest)
        | Some _ =>
            unless (checkContentLengthHeader s r)
            (unless (checkActualSize s (blen (o_body r)))
            (store_blob s name claimedDigest (o_body r) (ret tt)))
        end
    | None =>
        unless (checkContentLengthHeader s r)
        (unless (checkActualSize s (blen (o_body r)))
        (let* uploads := read w_uploads in
         do* set_uploads (<[newUploadId s := mkSession name (if 0 <? blen (o_body r) then [o_body r] else [])
                                              (blen (o_body r))]> uploads) in
         ret (uploadAcceptedResponse name (newUploadId s) (blen (o_body r)))))
    end.

(** The open session [uuid] of [name]. *)
Definition find_session (name uuid : jsstr) : M world exn (option UploadSession) :=
  read (fun w => match w_uploads w !! uuid with
                 | Some sess => if bool_decide (s_name sess = name) then Some sess else None
                 | None => None
                 end).

(** [sess.chunks.push(chunk); sess.size += chunk.byteLength]: the session stays where it is in
    the table. *)
Definition append_chunk (uuid : jsstr) (sess : UploadSession) (chunk : bytes) : M world exn UploadSession :=
  if 0 <? blen chunk then
    let sess' := mkSession (s_name sess) (s_chunks sess ++ [chunk]) (s_size sess + blen chunk) in
    let* uploads := read w_uploads in
    do* set_uploads (<[uuid := sess']> uploads) in
    ret sess'
  else ret sess.

Definition upload_unknown (uuid : jsstr) : Response :=
  ociError 404 "BLOB_UPLOAD_UNKNOWN" (js "upload not found: " ++ uuid).

Definition session_of (r : oci_request) : jsstr * jsstr := default ([], []) (PATTERN_UPLOAD_SESSION (o_url r)).

Definition handleUploadPatch (s : surroundings) (r : oci_request) : M world exn Response :=
  let '(name, uuid) := session_of r in
  push s r name
    (let* sess := find_session name uuid in
     match sess with
     | None => ret (upload_unknown uuid)
     | Some sess =>
         unless (checkContentLengthHeader s r)
         (unless (checkActualSize s (s_size sess + blen (o_body r)))
         (let* sess := append_chunk uuid sess (o_body r) in
          ret (uploadAcceptedResponse name uuid (s_size sess))))
     end).

Definition handleUploadFinalize (s : surroundings) (r : oci_request) : M world exn Response :=
  let '(name, uuid) := session_of r in
  push s r name
    (let* sess := find_session name uuid in
     match sess, o_digest r with
     | None, _ => ret (upload_unknown uuid)
     | Some _, None => ret (ociError 400 "DIGEST_INVALID" (js "finalize PUT requires ?digest=sha256:<hex>"))
     | Some sess, Some claimedDigest =>
         match parseSha256Param claimedDigest with
         | None => ret (digest_malformed claimedDigest)
         | Some _ =>
             unless (checkContentLengthHeader s r)
             (unless (checkActualSize s (s_size sess + blen (o_body r)))
             (let* sess := append_chunk uuid sess (o_body r) in
              store_blob s name claimedDigest (concatChunks (s_chunks sess))
                (let* uploads := read w_uploads in set_uploads (delete uuid uploads))))
         end
     end).

(** The storage key of a pushed manifest. *)
Definition manifest_key (bs : bytes) (reference : jsstr) : Response + jsstr :=
  if starts_with SHA256_PREFIX reference then
    match verifyClaimedDigest bs reference with
    | None => inl (ociError 400 "DIGEST_INVALID"
        (js "manifest digest mismatch: ref=" ++ reference ++ js " body matches neither sha256 nor blake3"))
    | Some (key, _) => inr key
    end
  else if negb (TAG_RE reference) then inl (ociError 400 "MANIFEST_INVALID" (js "invalid tag: " ++ reference))
  else inr (BlobRefStore.digestBytes bs).

Definition header_mismatch (r : oci_request) : option Response :=
  match get_header r (js "docker-content-digest") with
  | None => None
  | Some headerDigest =>
      match verifyClaimedDigest (o_body r) headerDigest with
      | Some _ => None
      | None => Some (ociError 400 "DIGEST_INVALID"
          (js "header digest mismatch: header=" ++ headerDigest ++ js " body matches neither sha256 nor blake3"))
      end
  end.

Definition handleManifestPut (s : surroundings) (r : oci_request) : M world exn Response :=
  let '(name, reference) := default ([], []) (PATTERN_MANIFEST (o_url r)) in
  push s r name
    (unless (checkContentLengthHeader s r)
    (unless (checkActualSize s (blen (o_body r)))
    (if blen (o_body r) =? 0 then ret (ociError 400 "MANIFEST_INVALID" (js "empty manifest body"))
     else
       match manifest_key (o_body r) reference with
       | inl refusal => ret refusal
       | inr storageKey =>
           unless (header_mismatch r)
           (do* call (on_blob s) (blob_put (o_body r) storageKey) in
            do* record s name storageKey Registry.manifest in
            do* (if starts_with SHA256_PREFIX reference then ret tt
                 else call (on_tag s) (trust (TrustStore.upsertRegistryTag name reference
                                                (SHA256_PREFIX ++ storageKey) (now s)))) in
            ret (manifestCreatedResponse name reference storageKey))
       end))).

(** ** Dispatch *)

Definition is_method (r : oci_request) (m : string) : bool := bool_decide (method r = js m).
Definition set_opt {A} (o : option A) : bool := bool_decide (is_Some o).

Definition match_ (r : oci_request) : bool :=
  let p := o_url r in
  if is_method r "GET" || is_method r "HEAD" then
    PATTERN_VERSION p || PATTERN_VERSION_NO_SLASH p || PATTERN_CATALOG p ||
    set_opt (PATTERN_TAGS p) || set_opt (PATTERN_MANIFEST p) || set_opt (PATTERN_BLOB p)
  else if is_method r "POST" then set_opt (PATTERN_UPLOAD_BEGIN p)
  else if is_method r "PATCH" || is_method r "PUT" then
    set_opt (PATTERN_UPLOAD_SESSION p) || (is_method r "PUT" && set_opt (PATTERN_MANIFEST p))
  else false.

Definition tags_list (s : surroundings) (name : jsstr) : M world exn Response :=
  if negb (REPO_NAME_RE name) then ret (name_invalid name)
  else
    let* tags := call (on_trust s) (trust (TrustStore.listRegistryTagsForRepo name)) in
    match tags with
    | [] => ret (ociError 404 "NAME_UNKNOWN" (js "repository name not known: " ++ name))
    | _ => ret (jsonResponse (JObj [(js "name", JStr name); (js "tags", JArr (map JStr tags))]))
    end.

Definition handle (s : surroundings) (r : oci_request) : M world exn Response :=
  let p := o_url r in
  let isHead := is_method r "HEAD" in
  if is_method r "POST" && set_opt (PATTERN_UPLOAD_BEGIN p) then handleUploadBegin s r
  else if is_method r "PATCH" && set_opt (PATTERN_UPLOAD_SESSION p) then handleUploadPatch s r
  else if is_method r "PUT" && set_opt (PATTERN_UPLOAD_SESSION p) then handleUploadFinalize s r
  else if is_method r "PUT" && set_opt (PATTERN_MANIFEST p) then handleManifestPut s r
  else if PATTERN_VERSION p || PATTERN_VERSION_NO_SLASH p then
    ret (mkResponse 200 [(js "content-type", JSON_TYPE); api_version] (Text (js "{}")))
  else if PATTERN_CATALOG p then
    let* repos := call (on_trust s) (trust TrustStore.listRegistryRepos) in
    ret (jsonResponse (JObj [(js "repositories", JArr (map JStr repos))]))
  else match PATTERN_TAGS p with
  | Some name => tags_list s name
  | None =>
  match PATTERN_MANIFEST p with
  | Some (name, reference) => get_manifest s isHead name reference
  | None =>
  match PATTERN_BLOB p with
  | Some (name, digest) => get_blob s isHead name digest
  | None => ret (ociError 404 "UNSUPPORTED" (js "endpoint not implemented"))
  end end end.

(** ** What the tables hold *)

Definition memberships (w : world) := TrustStore.registry_blob_membership (Lease.w_store (w_gate w)).
Definition tags (w : world) := TrustStore.registry_tags (Lease.w_store (w_gate w)).
Definition member (w : world) (name digest : jsstr) (kind : Registry.MembershipKind) : bool :=
  Registry.hasMembership (memberships w) name digest kind.
Definition tagged (w : world) (name tag : jsstr) : option jsstr :=
  Registry.getManifestDigestForTag (tags w) name tag.
Definition stored (w : world) (digest : jsstr) : option bytes := BlobRefStore.do_get (w_blobs w) digest.

Definition hashes_to (bs : bytes) (d : jsstr) : Prop := BlobRefStore.digestBytes bs = d \/ blake3_hex bs = d.

Definition session_ok (cap : Z) (sess : UploadSession) : Prop :=
  s_size sess = blen (concatChunks (s_chunks sess)) /\ s_size sess <= cap.

(** The registry's integrity: an indexed digest has its content, which hashes to it; a tag points
    to an indexed manifest; an open upload counts its bytes and stays under the cap. *)
Record sound (cap : Z) (w : world) : Prop := {
  sound_store : exists m, BlobRefStore.represents (BlobRefStore.inner (w_blobs w)) m;
  sound_fault : BlobRefStore.fault_armed (w_blobs w) <> Some true;
  sound_members : forall n d k, member w n d k = true -> exists bs, stored w d = Some bs /\ hashes_to bs d;
  sound_tags : forall n t v, tagged w n t = Some v ->
    exists bs, v = SHA256_PREFIX ++ BlobRefStore.digestBytes bs /\
               member w n (BlobRefStore.digestBytes bs) Registry.manifest = true;
  sound_uploads : map_Forall (fun _ => session_ok cap) (w_uploads w);
}.

(** Content and index rows are only ever added. *)
Record grows (w w' : world) : Prop := {
  grows_stored : forall d bs, stored w d = Some bs -> stored w' d = Some bs;
  grows_member : forall n d k, member w n d k = true -> member w' n d k = true;
}.

(** The content a request asks to store: repository, key, kind, bytes, tag. *)
Record pushed := mkPushed {
  p_name : jsstr; p_key : jsstr; p_kind : Registry.MembershipKind; p_bytes : bytes; p_tag : option jsstr;
}.

Definition hex_of (claimed : jsstr) : jsstr := drop (length SHA256_PREFIX) claimed.

Definition push_of (w : world) (r : oci_request) : option pushed :=
  let p := o_url r in
  if is_method r "POST" then
    name ← PATTERN_UPLOAD_BEGIN p; claimed ← o_digest r;
    Some (mkPushed name (hex_of claimed) Registry.blob (o_body r) None)
  else if is_method r "PUT" then
    match PATTERN_UPLOAD_SESSION p with
    | Some (name, uuid) =>
        sess ← w_uploads w !! uuid; claimed ← o_digest r;
        Some (mkPushed name (hex_of claimed) Registry.blob (concatChunks (s_chunks sess) ++ o_body r) None)
    | None =>
        '(name, reference) ← PATTERN_MANIFEST p;
        if starts_with SHA256_PREFIX reference
        then Some (mkPushed name (hex_of reference) Registry.manifest (o_body r) None)
        else Some (mkPushed name (BlobRefStore.digestBytes (o_body r)) Registry.manifest (o_body r) (Some reference))
    end
  else None.

(** The content under the key, if any, is the request's. *)
Definition no_collision (w : world) (r : oci_request) : Prop :=
  forall p bs, push_of w r = Some p -> stored w (p_key p) = Some bs -> bs = p_bytes p.

(** The gate lets the request write to [name]. *)
Definition granted (s : surroundings) (r : oci_request) (w : world) (name : jsstr) : Prop :=
  exists v, (write_verdict s r name w).2 = Ok v /\ forall c m, v <> Lease.G_reject c m.

Definition committed (w0 : world) (r : oci_request) (w : world) : Prop :=
  exists p, push_of w0 r = Some p /\ REPO_NAME_RE (p_name p) = true /\
    (isDigest (p_key p) = true \/ p_key p = BlobRefStore.digestBytes (p_bytes p)) /\
    member w (p_name p) (p_key p) (p_kind p) = true /\
    stored w (p_key p) = Some (p_bytes p) /\
    forall t, p_tag p = Some t -> tagged w (p_name p) t = Some (SHA256_PREFIX ++ p_key p).

(** ** The steps keep it *)

(** Two worlds a reader of the registry cannot tell apart. *)
Record same (w w' : world) : Prop := {
  same_members : memberships w' = memberships w;
  same_tags : tags w' = tags w;
  same_blobs : w_blobs w' = w_blobs w;
  same_uploads : w_uploads w' = w_uploads w;
}.

Lemma verdict_same s r name w : same w (write_verdict s r name w).1.
Proof.
  unfold write_verdict, Lease.gateAndVerify. destruct (negb _); [by destruct w|].
  destruct (CaBundle.resolveCABundle _ _ _ _ _) as [c [b|[m]]]; [|done].
  set (a := Lease.mkArgs _ _ _ _ _). set (t := Lease.w_store (w_gate w)).
  pose proof (Lease.verify_store (on_verify s) a b (now s) t) as Hs. cbv zeta in Hs.
  destruct (Lease.verifyAndUpsertLease _ a b (now s) t) as [t' v]. cbn [fst] in Hs. by destruct Hs as [->|(call & st & ->)].
Qed.

Lemma sound_same cap w w' : same w w' -> sound cap w -> sound cap w'.
Proof.
  intros [Em Et Eb Eu] [Hr Hf Hm Ht Hu].
  constructor; unfold member, tagged, stored in *; by rewrite ?Em, ?Et, ?Eb, ?Eu.
Qed.

Lemma put_key_hashes bs key : hashes_to bs key -> BlobRefStore.put_key bs (Some key) = Ok key.
Proof. unfold BlobRefStore.put_key. intros [<-|<-]; by repeat case_decide. Qed.

(** Accepted bytes go under their key, and the other contents stay. *)
Lemma put_stored b bs o key m :
  BlobRefStore.represents (BlobRefStore.inner b) m -> BlobRefStore.fault_armed b <> Some true ->
  BlobRefStore.put_key bs o = Ok key -> (forall bs', BlobRefStore.do_get b key = Some bs' -> bs' = bs) ->
  exists b', BlobRefStore.do_put b bs o = (b', Ok key) /\
    BlobRefStore.represents (BlobRefStore.inner b') (<[key := bs]> m) /\
    BlobRefStore.fault_armed b' <> Some true /\
    (forall d, BlobRefStore.do_get b' d = if decide (d = key) then Some bs else BlobRefStore.do_get b d).
Proof.
  intros Hr Hf Hk Hc. unfold BlobRefStore.do_put, BlobRefStore.do_get in *.
  destruct (BlobRefStore.put_represents _ m bs o key Hr Hk) as (t' & E & Hr').
  { rewrite <- (BlobRefStore.get_represents _ m key Hr). destruct (BlobRefStore.get _ key) as [bs'|] eqn:E; [|by left].
    right. by rewrite (Hc _ eq_refl). }
  assert (Hcf : BlobRefStore.consume_fault (BlobRefStore.fault_armed b) = (BlobRefStore.fault_armed b, false)).
  { by destruct (BlobRefStore.fault_armed b) as [[]|]. }
  rewrite Hcf, E. eexists. split; [reflexivity|]. cbn. split; [done|split; [done|]].
  intros d. rewrite (BlobRefStore.get_represents _ _ d Hr'), (BlobRefStore.get_represents _ _ d Hr).
  case_decide as Ed; [subst d; by rewrite lookup_insert_eq|by rewrite lookup_insert_ne].
Qed.

Section invariant.
Context (cap : Z) (w0 : world) (ok : jsstr -> Prop).

(** Soundness, growth, and no index change outside the granted names. *)
Record inv (w : world) : Prop := {
  inv_sound : sound cap w;
  inv_grows : grows w0 w;
  inv_members : forall n d k, member w n d k = true -> member w0 n d k = true \/ ok n;
  inv_tags : forall n t, tagged w n t = tagged w0 n t \/ ok n;
}.

Lemma inv_start : sound cap w0 -> inv w0.
Proof. intros H'. constructor; eauto. by constructor. Qed.

Lemma inv_same w w' : same w w' -> inv w -> inv w'.
Proof.
  intros Hs [Hsd [Hg1 Hg2] Hm Ht]. pose proof (sound_same _ _ _ Hs Hsd). destruct Hs as [Em Et Eb Eu].
  constructor; [done|constructor|..]; unfold member, tagged, stored in *; rewrite ?Em, ?Et, ?Eb; auto.
Qed.

Lemma call_inv {A} fate (m : M world exn A) (P : world -> Prop) Q :
  (forall w, P w -> inv w) -> (forall a w, Q a w -> inv w) -> hoare P m Q inv -> hoare P (call fate m) Q inv.
Proof. intros Hp Hq Hm. by apply hoare_remote. Qed.

(** A call that only reads. *)
Lemma call_read {A} fate (f : world -> A) (P : world -> Prop) :
  (forall w, P w -> inv w) -> hoare P (call fate (read f)) (fun a w => P w /\ a = f w) inv.
Proof. intros Hp. apply call_inv; [done|by intros a w [? _]; apply Hp|apply hoare_read]. Qed.

Lemma trust_read {A} fate (f : TrustStore.T -> A) (P : world -> Prop) :
  (forall w, P w -> inv w) -> hoare P (call fate (trust (read f))) (fun a w => P w) inv.
Proof.
  intros Hp. apply call_inv; [done|done|]. intros w Hw. unfold trust, read.
  by replace (mkWorld _ _ _) with w by (by destruct w as [[] ? ?]).
Qed.

Lemma blob_put_inv fate bs key :
  hashes_to bs key ->
  hoare (fun w => inv w /\ forall bs', stored w key = Some bs' -> bs' = bs) (call fate (blob_put bs key))
    (fun _ w => inv w /\ stored w key = Some bs) inv.
Proof.
  intros Hh. apply call_inv; [naive_solver..|]. intros w [[[(m & Hr) Hf Hm Ht Hu] [Hg1 Hg2] Hi1 Hi2] Hc].
  unfold blob_put. destruct (put_stored (w_blobs w) bs _ key m Hr Hf (put_key_hashes _ _ Hh) Hc) as (b' & -> & Hr' & Hf' & Hd').
  assert (Hmono : forall d bs', stored w d = Some bs' -> BlobRefStore.do_get b' d = Some bs').
  { intros d bs' Hs. rewrite Hd'. case_decide; [|done]. subst d. by rewrite (Hc _ Hs). }
  split; [|unfold stored; cbn; by rewrite Hd', decide_True].
  constructor; [constructor|constructor|..]; eauto.
  intros n d k (bs' & Hs & ?)%Hm. exists bs'. split; [by apply Hmono|done].
Qed.

Lemma record_inv name key kind bs s :
  ok name -> hashes_to bs key ->
  hoare (fun w => inv w /\ stored w key = Some bs) (record s name key kind)
    (fun _ w => inv w /\ stored w key = Some bs /\ member w name key kind = true) inv.
Proof.
  intros Hok Hh. apply call_inv; [naive_solver..|]. intros w [[[(m & Hr) Hf Hm Ht Hu] [Hg1 Hg2] Hi1 Hi2] Hs].
  unfold trust, TrustStore.recordRegistryMembership, TrustStore.on, exec. cbn.
  assert (Hnew : forall n d k, Registry.hasMembership
      (Registry.recordMembership (memberships w) name key kind (now s) None) n d k = true <->
    (n, d, k) = (name, key, kind) \/ member w n d k = true).
  { intros n d k. by rewrite Registry.hasMembership_record, orb_true_iff, bool_decide_eq_true. }
  split; [|split; [done|apply Hnew; by left]].
  constructor; [constructor|constructor|..]; eauto.
  - intros n d k [[= -> -> ->]|Hk]%Hnew; [by exists bs|by apply (Hm n d k)].
  - intros n t v (bs' & -> & Hk)%Ht. exists bs'. split; [done|]. apply Hnew. by right.
  - intros n d k Hk. apply Hnew. right. by apply Hg2.
  - intros n d k [[= -> -> ->]|Hk]%Hnew; [by right|by apply Hi1 in Hk].
Qed.

Lemma tag_inv name tag key kind bs s :
  ok name -> key = BlobRefStore.digestBytes bs ->
  hoare (fun w => inv w /\ stored w key = Some bs /\ member w name key kind = true /\ kind = Registry.manifest)
    (call (on_tag s) (trust (TrustStore.upsertRegistryTag name tag (SHA256_PREFIX ++ key) (now s))))
    (fun _ w => inv w /\ stored w key = Some bs /\ member w name key kind = true /\
                tagged w name tag = Some (SHA256_PREFIX ++ key)) inv.
Proof.
  intros Hok Ek. apply call_inv; [naive_solver..|].
  intros w [[[(m & Hr) Hf Hm Ht Hu] [Hg1 Hg2] Hi1 Hi2] (Hs & Hk & Ekd)].
  unfold trust, TrustStore.upsertRegistryTag, TrustStore.on, exec. cbn.
  assert (Hnew : forall n t, Registry.getManifestDigestForTag
      (Registry.upsertTag (tags w) name tag (SHA256_PREFIX ++ key) (now s)) n t =
    if bool_decide ((n, t) = (name, tag)) then Some (SHA256_PREFIX ++ key) else tagged w n t).
  { intros n t. by rewrite Registry.getManifestDigestForTag_upsert. }
  split; [|repeat split; [done|done|unfold tagged, tags; cbn; by rewrite Hnew, bool_decide_true]].
  constructor; [constructor|constructor|..]; eauto.
  - intros n t v. unfold tagged, tags. cbn. rewrite Hnew. case_bool_decide as E; [|apply Ht].
    intros [= <-]. exists bs. injection E as -> ->. subst key kind. done.
  - intros n t. unfold tagged at 1, tags. cbn. rewrite Hnew. case_bool_decide as E; [|apply Hi2].
    right. by injection E as -> ->.
Qed.

Lemma uploads_inv u P :
  map_Forall (fun _ => session_ok cap) u ->
  hoare (fun w => inv w /\ P (memberships w) (tags w) (w_blobs w)) (set_uploads u)
    (fun _ w => inv w /\ P (memberships w) (tags w) (w_blobs w) /\ w_uploads w = u) inv.
Proof.
  intros Hu w [[[Hr Hf Hm Ht _] [Hg1 Hg2] Hi1 Hi2] Hp]. cbn.
  split; [|done]. constructor; [by constructor|by constructor|done|done].
Qed.
End invariant.

(** ** The handlers *)

Lemma verifyClaimedDigest_spec bs claimed key a :
  verifyClaimedDigest bs claimed = Some (key, a) -> key = hex_of claimed /\ isDigest key = true /\ hashes_to bs key.
Proof.
  unfold verifyClaimedDigest, parseSha256Param, hashes_to, hex_of.
  destruct (starts_with _ _); cbn [negb]; [|done]. destruct (isDigest _) eqn:E; [|done].
  repeat case_bool_decide; intros [= <- <-]; auto.
Qed.

Lemma concat_snoc chunks chunk : concatChunks (chunks ++ [chunk]) = concatChunks chunks ++ chunk.
Proof. unfold concatChunks. rewrite concat_app. cbn. by rewrite app_nil_r. Qed.

Lemma blen_0 bs : 0 <? blen bs = false -> bs = [].
Proof. unfold blen. destruct bs; [done|]. intros Hb%Z.ltb_ge. cbn in Hb. lia. Qed.

Lemma too_large s r x resp :
  checkContentLengthHeader s r = Some resp \/ checkActualSize s x = Some resp -> status resp = 413.
Proof.
  unfold checkContentLengthHeader, checkActualSize.
  intros [E|E]; repeat case_match; by simplify_eq.
Qed.

Section handlers.
Context (cap : Z) (s : surroundings) (r : oci_request) (w0 : world).
Hypothesis cap_is : maxBlobBytes s = cap.
Hypothesis start : sound cap w0.
Hypothesis fresh : no_collision w0 r.

Definition Inv : world -> Prop := inv cap w0 (granted s r w0).

(** A request that is answered 201 has committed what it pushed. *)
Definition post (resp : Response) (w : world) : Prop := Inv w /\ (status resp = 201 -> committed w0 r w).

Lemma ret_refused (P : world -> Prop) resp :
  (forall w, P w -> Inv w) -> status resp <> 201 -> hoare P (ret resp : M world exn Response) post Inv.
Proof. intros Hp Hr w Hw. split; [by apply Hp|done]. Qed.

Lemma unless_post (P : world -> Prop) early k :
  (forall w, P w -> Inv w) -> (forall resp, early = Some resp -> status resp <> 201) ->
  (early = None -> hoare P k post Inv) -> hoare P (unless early k) post Inv.
Proof. intros Hp He Hk. destruct early; cbn; [by apply ret_refused; auto|by apply Hk]. Qed.

Lemma sizes_post (P : world -> Prop) x k :
  (forall w, P w -> Inv w) -> (x <= cap -> hoare P k post Inv) ->
  hoare P (unless (checkContentLengthHeader s r) (unless (checkActualSize s x) k)) post Inv.
Proof.
  intros Hp Hk. apply unless_post; [done|intros resp E; by rewrite (too_large s r x resp) by auto|intros _].
  apply unless_post; [done|intros resp E; by rewrite (too_large s r x resp) by auto|].
  unfold checkActualSize. rewrite cap_is. case_match eqn:E; [done|]. intros _. apply Hk. lia.
Qed.

Lemma push_post name k :
  (granted s r w0 name -> REPO_NAME_RE name = true -> hoare (fun w => Inv w /\ same w0 w) k post Inv) -> hoare (eq w0) (push s r name k) post Inv.
Proof.
  intros Hk. unfold push. destruct (REPO_NAME_RE name); cbn [negb]; [|by apply ret_refused; [intros ? <-; apply inv_start|]].
  intros w <-. unfold gateWrite, bind. pose proof (verdict_same s r name w0) as Hs.
  pose proof (inv_same cap w0 (granted s r w0) _ _ Hs (inv_start cap w0 _ start)) as Hi.
  unfold granted in Hk. destruct (write_verdict s r name w0) as [w [v|e]]; cbn in *; [|done].
  destruct v; cbn [unless ret]; [| |by split]; (apply Hk; [by eexists|done..]).
Qed.

Lemma store_blob_post (P : world -> Prop) name claimed bs after :
  granted s r w0 name -> REPO_NAME_RE name = true ->
  push_of w0 r = Some (mkPushed name (hex_of claimed) Registry.blob bs None) ->
  (forall w, P w -> Inv w /\ forall b, stored w (hex_of claimed) = Some b -> b = bs) ->
  (forall Q, hoare (fun w => Inv w /\ Q (memberships w) (tags w) (w_blobs w)) after
              (fun _ w => Inv w /\ Q (memberships w) (tags w) (w_blobs w)) Inv) ->
  hoare P (store_blob s name claimed bs after) post Inv.
Proof.
  intros Hg Hn Hp HP Ha. unfold store_blob. destruct (verifyClaimedDigest bs claimed) as [[key a]|] eqn:Ev;
    [|by apply ret_refused; [naive_solver|]].
  apply verifyClaimedDigest_spec in Ev as (-> & Hd & Hh).
  eapply hoare_bind; [eapply hoare_pre; [exact HP|by apply blob_put_inv]|intros []].
  eapply hoare_bind; [by apply record_inv|intros []].
  eapply hoare_bind.
  { apply (Ha (fun m t b => BlobRefStore.do_get b (hex_of claimed) = Some bs /\
      Registry.hasMembership m name (hex_of claimed) Registry.blob = true)). }
  intros [] w [Hi [Hs Hm]]. split; [done|]. intros _. eexists. split; [done|]. cbn. naive_solver.
Qed.

Lemma append_chunk_spec uuid sess chunk Q :
  s_size sess + blen chunk <= cap ->
  hoare (fun w => Inv w /\ w_uploads w !! uuid = Some sess /\ Q (memberships w) (tags w) (w_blobs w))
    (append_chunk uuid sess chunk)
    (fun sess' w => (Inv w /\ Q (memberships w) (tags w) (w_blobs w)) /\
                    concatChunks (s_chunks sess') = concatChunks (s_chunks sess) ++ chunk) Inv.
Proof.
  intros Hcap w (Hi & Hu & HQ). unfold append_chunk. destruct (0 <? blen chunk) eqn:E.
  2:{ apply blen_0 in E as ->. cbn. by rewrite app_nil_r. }
  unfold bind, read. pose proof (sound_uploads _ _ (inv_sound _ _ _ _ Hi)) as Hall.
  pose proof (map_Forall_lookup_1 _ _ _ _ Hall Hu) as [Hsz _].
  assert (Hall' : map_Forall (fun _ => session_ok cap)
    (<[uuid := mkSession (s_name sess) (s_chunks sess ++ [chunk]) (s_size sess + blen chunk)]> (w_uploads w))).
  { apply map_Forall_insert_2; [|done]. split; [|done]. cbn. rewrite concat_snoc, Hsz. unfold blen. rewrite length_app. lia. }
  pose proof (uploads_inv cap w0 _ _ Q Hall' w (conj Hi HQ)) as Hset. cbn in Hset |- *.
  split; [tauto|apply concat_snoc].
Qed.
Lemma inv_of_same w : Inv w /\ same w0 w -> Inv w.
Proof. by intros [? _]. Qed.

Lemma same_fresh p w bs :
  push_of w0 r = Some p -> same w0 w -> stored w (p_key p) = Some bs -> bs = p_bytes p.
Proof. intros Hp [_ _ Eb _] Hs. apply (fresh p bs Hp). unfold stored in *. by rewrite <- Eb. Qed.

Lemma begin_post name :
  is_method r "POST" = true -> PATTERN_UPLOAD_BEGIN (o_url r) = Some name -> hoare (eq w0) (handleUploadBegin s r) post Inv.
Proof.
  intros Hm Hn. unfold handleUploadBegin. rewrite Hn. cbn [default]. apply push_post. intros Hg Hre.
  destruct (o_digest r) as [claimed|] eqn:Ed.
  - destruct (parseSha256Param claimed); [|by apply ret_refused; [apply inv_of_same|]].
    apply sizes_post; [apply inv_of_same|intros _].
    assert (Hp : push_of w0 r = Some (mkPushed name (hex_of claimed) Registry.blob (o_body r) None)).
    { unfold push_of. by rewrite Hm, Hn, Ed. }
    apply store_blob_post; [done..| |].
    + intros w [Hi Hs]. split; [done|]. intros b. apply (same_fresh _ _ _ Hp Hs).
    + intros Q w Hw. exact Hw.
  - apply sizes_post; [apply inv_of_same|intros Hcap]. intros w [Hi Hs]. unfold bind, read.
    pose proof (sound_uploads _ _ (inv_sound _ _ _ _ Hi)) as Hall.
    assert (Hall' : map_Forall (fun _ => session_ok cap)
      (<[newUploadId s := mkSession name (if 0 <? blen (o_body r) then [o_body r] else []) (blen (o_body r))]> (w_uploads w))).
    { apply map_Forall_insert_2; [|done]. split; [|done]. cbn. destruct (0 <? _) eqn:E; cbn;
        [by rewrite app_nil_r|by apply blen_0 in E as ->]. }
    pose proof (uploads_inv cap w0 _ _ (fun _ _ _ => True) Hall' w (conj Hi Logic.I)) as Hset. cbn in Hset |- *.
    split; [by apply Hset|done].
Qed.

Lemma find_session_spec name uuid (P : world -> Prop) :
  hoare P (find_session name uuid : M world exn _)
    (fun o w => P w /\ forall sess, o = Some sess -> w_uploads w !! uuid = Some sess) Inv.
Proof.
  intros w Hw. cbn. split; [done|]. intros sess.
  destruct (w_uploads w !! uuid) as [sess'|]; [|done]. case_bool_decide; [|done]. by intros [= ->].
Qed.

Lemma patch_post : hoare (eq w0) (handleUploadPatch s r) post Inv.
Proof.
  unfold handleUploadPatch. destruct (session_of r) as [name uuid]. apply push_post. intros Hg Hre.
  eapply hoare_bind; [apply find_session_spec|]. intros [sess|]; [|by apply ret_refused; [by intros ? [[] _]|]].
  apply sizes_post; [by intros ? [[] _]|intros Hcap].
  eapply hoare_bind.
  { eapply hoare_pre; [|apply (append_chunk_spec _ _ _ (fun _ _ _ => True) Hcap)].
    intros w [[Hi _] Hu]. split; [done|]. split; [by apply Hu|done]. }
  intros sess'. apply ret_refused; [by intros ? [[? _] _]|done].
Qed.

Lemma finalize_post name uuid :
  is_method r "PUT" = true -> PATTERN_UPLOAD_SESSION (o_url r) = Some (name, uuid) ->
  hoare (eq w0) (handleUploadFinalize s r) post Inv.
Proof.
  intros Hm Hn. unfold handleUploadFinalize, session_of. rewrite Hn. cbn [default]. apply push_post. intros Hg Hre.
  eapply hoare_bind; [apply find_session_spec|]. intros [sess|]; [|by apply ret_refused; [by intros ? [[] _]|]].
  destruct (o_digest r) as [claimed|] eqn:Ed; [|by apply ret_refused; [by intros ? [[] _]|]].
  destruct (parseSha256Param claimed); [|by apply ret_refused; [by intros ? [[] _]|]].
  apply sizes_post; [by intros ? [[] _]|intros Hcap].
  eapply hoare_bind.
  { eapply hoare_pre; [|apply (append_chunk_spec uuid sess _ (fun _ _ b => b = w_blobs w0 /\
      w_uploads w0 !! uuid = Some sess) Hcap)].
    intros w [[Hi [_ _ Eb Eu]] Hu]. split; [done|]. rewrite <- Eu. by specialize (Hu _ eq_refl). }
  intros sess' w [[Hi [Eb Hu]] Hc].
  assert (Hp : push_of w0 r = Some (mkPushed name (hex_of claimed) Registry.blob (concatChunks (s_chunks sess')) None)).
  { unfold push_of. rewrite Hm, Hn, Hu, Ed, Hc. unfold is_method in *. apply bool_decide_eq_true in Hm.
    by rewrite Hm. }
  revert w Hi Eb. enough (Hh : hoare (fun w => Inv w /\ w_blobs w = w_blobs w0)
    (store_blob s name claimed (concatChunks (s_chunks sess'))
      (let* uploads := read w_uploads in set_uploads (delete uuid uploads))) post Inv).
  { intros w Hi Eb. by apply Hh. }
  apply store_blob_post; [done..| |].
  - intros w [Hi Eb]. split; [done|]. unfold stored. rewrite Eb. intros b. apply (fresh _ b Hp).
  - intros Q w [Hi HQ]. pose proof (sound_uploads _ _ (inv_sound _ _ _ _ Hi)) as Hall.
    pose proof (uploads_inv cap w0 _ _ Q (map_Forall_delete _ _ uuid Hall) w (conj Hi HQ)) as Hset.
    cbn in Hset |- *. tauto.
Qed.

Lemma manifest_key_spec bs reference key :
  manifest_key bs reference = inr key ->
  hashes_to bs key /\ (isDigest key = true \/ key = BlobRefStore.digestBytes bs) /\
  key = if starts_with SHA256_PREFIX reference then hex_of reference else BlobRefStore.digestBytes bs.
Proof.
  unfold manifest_key. destruct (starts_with _ _).
  - destruct (verifyClaimedDigest bs reference) as [[k a]|] eqn:E; [|done].
    apply verifyClaimedDigest_spec in E as (-> & Hd & Hh). intros [= <-]. auto.
  - destruct (TAG_RE reference); cbn [negb]; [|done]. intros [= <-]. split; [by left|auto].
Qed.

Lemma manifest_post name reference :
  is_method r "PUT" = true -> PATTERN_UPLOAD_SESSION (o_url r) = None ->
  PATTERN_MANIFEST (o_url r) = Some (name, reference) -> hoare (eq w0) (handleManifestPut s r) post Inv.
Proof.
  intros Hm Hu Hn. unfold handleManifestPut. rewrite Hn. cbn [default]. apply push_post. intros Hg Hre.
  apply sizes_post; [apply inv_of_same|intros Hcap].
  destruct (blen (o_body r) =? 0); [by apply ret_refused; [apply inv_of_same|]|].
  destruct (manifest_key (o_body r) reference) as [refusal|key] eqn:Ek.
  { apply ret_refused; [apply inv_of_same|]. unfold manifest_key in Ek. repeat case_match; by simplify_eq. }
  apply manifest_key_spec in Ek as (Hh & Hd & Ek).
  apply unless_post; [apply inv_of_same| |intros _].
  { intros resp E. unfold header_mismatch in E. repeat case_match; by simplify_eq. }
  set (tagging := if starts_with SHA256_PREFIX reference then None else Some reference).
  assert (Hp : push_of w0 r = Some (mkPushed name key Registry.manifest (o_body r) tagging)).
  { unfold push_of, is_method in *. apply bool_decide_eq_true in Hm. rewrite Hm, Hu, Hn, Ek. cbn.
    unfold tagging. by destruct (starts_with _ _). }
  eapply hoare_bind.
  { eapply hoare_pre; [|by apply blob_put_inv]. intros w [Hi Hs]. split; [done|]. intros b. apply (same_fresh _ _ _ Hp Hs). }
  intros []. eapply hoare_bind; [by apply record_inv|intros []].
  eapply hoare_bind.
  { instantiate (1 := fun _ w => Inv w /\ stored w key = Some (o_body r) /\ member w name key Registry.manifest = true /\
      forall t, tagging = Some t -> tagged w name t = Some (SHA256_PREFIX ++ key)).
    unfold tagging. destruct (starts_with SHA256_PREFIX reference).
    - by intros w (Hi & Hs & Hk).
    - eapply hoare_pre; [|eapply hoare_post; [|by apply (tag_inv cap w0 _ name reference key Registry.manifest (o_body r) s Hg)]].
      + by intros w (Hi & Hs & Hk).
      + intros [] w (Hi & Hs & Hk & Ht). do 3 (split; [done|]). by intros t [= <-]. }
  intros [] w (Hi & Hs & Hk & Ht). split; [done|]. intros _. eexists. split; [done|]. cbn. naive_solver.
Qed.

Lemma tagged_read_post {A} fate (f : TrustStore.T -> A) k :
  (forall a, hoare Inv (k a) post Inv) -> hoare Inv (let* a := call fate (trust (read f)) in k a) post Inv.
Proof. intros Hk. eapply hoare_bind; [by apply trust_read|exact Hk]. Qed.

Lemma serve_post isHead name digest kind unknown head render :
  status unknown <> 201 -> status head <> 201 -> (forall bs, hoare Inv (render bs) post Inv) ->
  hoare Inv (serve s isHead name digest kind unknown head render) post Inv.
Proof.
  intros Hu Hh Hr. apply tagged_read_post. intros m. destruct (negb m); [by apply ret_refused|].
  destruct isHead; (eapply hoare_bind with (R := fun _ => Inv); [eapply hoare_post; [|by apply call_read]; by intros a w [? _]|]).
  - intros b. apply ret_refused; [done|]. by destruct b.
  - intros [bs|]; [apply Hr|by apply ret_refused].
Qed.

Lemma get_manifest_post isHead name reference : hoare Inv (get_manifest s isHead name reference) post Inv.
Proof.
  unfold get_manifest. destruct (REPO_NAME_RE name); cbn [negb]; [|by apply ret_refused].
  eapply hoare_bind with (R := fun d w => Inv w /\ forall x, d = inl x -> status x <> 201).
  - unfold resolve_reference. destruct (starts_with _ reference).
    { intros w Hw. cbn. split; [done|]. intros x. by case_match; intros [= <-]. }
    destruct (TAG_RE reference); cbn [negb]; [|intros w Hw; split; [done|by intros x [= <-]]].
    eapply hoare_bind; [by apply trust_read|]. intros [[|c d]|] w Hw; cbn; [by split; [|intros x [= <-]]| |by split; [|intros x [= <-]]].
    destruct (negb _); cbn; (split; [done|]); intros x; [by intros [= <-]|by case_match; intros [= <-]].
  - intros [refusal|digest].
    + intros w [Hw Hx]. split; [done|]. intros E. by destruct (Hx _ eq_refl E).
    + eapply hoare_pre; [by intros w [? _]|]. apply serve_post; [done..|]. intros bs.
      unfold manifestResponse. destruct (pickManifestMediaType bs); cbn; [|apply hoare_throw].
      destruct (header_value _); cbn; [by apply ret_refused|apply hoare_throw].
Qed.

Lemma handle_post : hoare (eq w0) (handle s r) post Inv.
Proof.
  unfold handle. assert (Hpre : forall w, w0 = w -> Inv w) by (intros ? <-; by apply inv_start).
  destruct (PATTERN_UPLOAD_BEGIN (o_url r)) as [name|] eqn:Eb.
  all: destruct (PATTERN_UPLOAD_SESSION (o_url r)) as [[n uuid]|] eqn:Es.
  all: destruct (PATTERN_MANIFEST (o_url r)) as [[mn ref]|] eqn:Em.
  all: unfold set_opt at 1 2 3 4; rewrite ?(bool_decide_true (is_Some (Some _))), ?(bool_decide_false (is_Some None))
         by (eauto || by intros [? ?]); rewrite ?andb_false_r, ?andb_true_r.
  all: try (destruct (is_method r "POST") eqn:Epost; [by eapply begin_post|]).
  all: try (destruct (is_method r "PATCH") eqn:Epatch; [by apply patch_post|]).
  all: try (destruct (is_method r "PUT") eqn:Eput; [first [by eapply finalize_post|by eapply manifest_post]|]).
  all: apply (hoare_pre _ _ _ _ _ Hpre).
  all: destruct (_ || _); [by apply ret_refused|].
  all: destruct (PATTERN_CATALOG _); [apply tagged_read_post; intros repos; by apply ret_refused|].
  all: destruct (PATTERN_TAGS _) as [tn|];
    [unfold tags_list; destruct (negb _); [by apply ret_refused|]; apply tagged_read_post; intros [|]; by apply ret_refused|].
  all: try apply get_manifest_post.
  all: destruct (PATTERN_BLOB _) as [[bn bd]|]; [|by apply ret_refused].
  all: unfold get_blob; repeat (destruct (negb _); [by apply ret_refused|]).
  all: apply serve_post; [done..|]; intros bs; by apply ret_refused.
Qed.

End handlers.

(** ** Runs *)

(** What can happen to the objects: a request of the route, with any fates; a put of another
    route; anything else that leaves the registry alone; a restart, which forgets the uploads. *)
Inductive step (cap : Z) : world -> world -> Prop :=
  | step_request s r w :
      maxBlobBytes s = cap -> no_collision w r -> step cap w (handle s r w).1
  | step_put bs key w :
      (forall d b, BlobRefStore.put_key bs key = Ok d -> stored w d = Some b -> b = bs) ->
      step cap w (mkWorld (w_gate w) (BlobRefStore.do_put (w_blobs w) bs key).1 (w_uploads w))
  | step_elsewhere w w' : same w w' -> step cap w w'
  | step_restart w : step cap w (mkWorld (w_gate w) (w_blobs w) ∅).

Definition start : world := mkWorld (Lease.mkWorld None TrustStore.empty) (BlobRefStore.mkDO BlobRefStore.empty None) ∅.

Definition reachable (cap : Z) : world -> Prop := rtc (step cap) start.

#[export] Instance grows_preorder : PreOrder grows.
Proof. split; [by constructor|]. intros a b c [? ?] [? ?]. constructor; auto. Qed.

Lemma start_sound cap : sound cap start.
Proof.
  constructor; [exists ∅; apply BlobRefStore.blob_represents_empty|done| | |apply map_Forall_empty].
  - intros n d k. unfold member, Registry.hasMembership, memberships. cbn. by rewrite lookup_empty.
  - intros n t v. unfold tagged, Registry.getManifestDigestForTag, tags. cbn. by rewrite lookup_empty.
Qed.

Lemma same_grows w w' : same w w' -> grows w w'.
Proof. intros [Em Et Eb _]. constructor; unfold member, stored; by rewrite ?Em, ?Eb. Qed.

Lemma put_sound cap w bs key :
  sound cap w -> (forall d b, BlobRefStore.put_key bs key = Ok d -> stored w d = Some b -> b = bs) ->
  let w' := mkWorld (w_gate w) (BlobRefStore.do_put (w_blobs w) bs key).1 (w_uploads w) in
  sound cap w' /\ grows w w'.
Proof.
  intros [(m & Hr) Hf Hm Ht Hu] Hc. destruct (BlobRefStore.put_key bs key) as [d|e] eqn:Ek.
  - destruct (put_stored (w_blobs w) bs key d m Hr Hf Ek (fun b => Hc d b eq_refl)) as (b' & -> & Hr' & Hf' & Hd').
    assert (Hmono : forall d bs', stored w d = Some bs' -> BlobRefStore.do_get b' d = Some bs').
    { intros d' bs' Hs. rewrite Hd'. case_decide; [|done]. subst d'. by rewrite (Hc _ _ eq_refl Hs). }
    split; constructor; eauto. intros n d' k (bs' & Hs & ?)%Hm. exists bs'. split; [by apply Hmono|done].
  - assert (E : (BlobRefStore.do_put (w_blobs w) bs key).1 = w_blobs w).
    { unfold BlobRefStore.do_put. rewrite (BlobRefStore.put_rejected _ _ _ _ Ek).
      destruct (w_blobs w) as [i [[]|]]; [by destruct Hf|done..]. }
    cbn. rewrite E. split; [|by constructor]. constructor; eauto.
Qed.

Lemma handle_inv s r w :
  sound (maxBlobBytes s) w -> no_collision w r -> inv (maxBlobBytes s) w (granted s r w) (handle s r w).1.
Proof.
  intros Hs Hf. pose proof (handle_post _ s r w eq_refl Hs Hf w eq_refl) as Hp.
  destruct (handle s r w) as [w' [resp|e]]; [by destruct Hp|done].
Qed.

Lemma step_sound cap w w' : step cap w w' -> sound cap w -> sound cap w' /\ grows w w'.
Proof.
  intros Hstep Hs. destruct Hstep as [s r w <- Hc|bs key w Hc|w w' Hw|w].
  - pose proof (handle_inv s r w Hs Hc) as [? ? ? ?]. done.
  - by apply put_sound.
  - split; [by eapply sound_same|by apply same_grows].
  - split; [|by constructor]. destruct Hs as [? ? ? ? ?]. constructor; eauto. apply map_Forall_empty.
Qed.

Lemma steps_sound cap w w' : rtc (step cap) w w' -> sound cap w -> sound cap w' /\ grows w w'.
Proof.
  induction 1 as [w|w w1 w' Hstep _ IH]; [by split|]. intros Hs.
  destruct (step_sound _ _ _ Hstep Hs) as [Hs1 Hg]. destruct (IH Hs1). split; [done|by etransitivity].
Qed.

Lemma reachable_sound cap w : reachable cap w -> sound cap w.
Proof. intros Hr. by destruct (steps_sound cap start w Hr (start_sound cap)). Qed.

(** A GET of content: the manifest under the digest or under a tag of it, or the blob. *)
Record delivered (s : surroundings) : Prop := {
  d_trust : on_trust s = Delivered; d_read : on_read s = Delivered; d_blob : on_blob s = Delivered;
}.

Definition plain_get (r : oci_request) : Prop :=
  method r = js "GET" /\ PATTERN_VERSION (o_url r) = false /\ PATTERN_VERSION_NO_SLASH (o_url r) = false /\
  PATTERN_CATALOG (o_url r) = false /\ PATTERN_TAGS (o_url r) = None.

Definition asks_for (w : world) (p : pushed) (r : oci_request) : Prop :=
  plain_get r /\
  match p_kind p with
  | Registry.blob => PATTERN_MANIFEST (o_url r) = None /\ PATTERN_BLOB (o_url r) = Some (p_name p, SHA256_PREFIX ++ p_key p)
  | Registry.manifest =>
      exists reference, PATTERN_MANIFEST (o_url r) = Some (p_name p, reference) /\
        (reference = SHA256_PREFIX ++ p_key p \/
         TAG_RE reference = true /\ tagged w (p_name p) reference = Some (SHA256_PREFIX ++ p_key p))
  end.

Definition content (p : pushed) : result exn Response :=
  match p_kind p with
  | Registry.blob => Ok (blobResponse (p_bytes p) (p_key p))
  | Registry.manifest =>
      match manifestResponse (p_bytes p) (p_key p) with
      | Some (Some resp) => Ok resp
      | Some None => Throw BadHeader
      | None => Throw OutsideModel
      end
  end.

(** What was pushed can be made into a response: a blob, or a manifest that names no media type or
    one that can be a header. *)
Definition pullable (p : pushed) : Prop :=
  match p_kind p with
  | Registry.blob => True
  | Registry.manifest => exists t v, pickManifestMediaType (p_bytes p) = Some t /\ header_value t = Some v
  end.

Lemma content_pullable p : pullable p ->
  exists resp, content p = Ok resp /\ status resp = 200 /\ body resp = Raw (p_bytes p) /\
    (js "docker-content-digest", SHA256_PREFIX ++ p_key p) ∈ headers resp.
Proof.
  unfold pullable, content, manifestResponse. destruct (p_kind p).
  - intros _. eexists. split; [reflexivity|]. split; [done|]. split; [done|]. do 2 right. by left.
  - intros (t & v & -> & Hv). cbn [mbind option_bind]. rewrite Hv. cbn [mbind option_bind]. eexists. split; [reflexivity|].
    split; [done|]. split; [done|]. do 2 right. by left.
Qed.

(** A manifest whose media type cannot be a header value. *)
Definition unservable (p : pushed) : Prop :=
  p_kind p = Registry.manifest /\ exists t, pickManifestMediaType (p_bytes p) = Some t /\ header_value t = None.

Lemma content_unservable p : unservable p -> content p = Throw BadHeader.
Proof. intros (Hk & t & Ht & Hv). unfold content, manifestResponse. rewrite Hk, Ht. cbn [mbind option_bind]. by rewrite Hv. Qed.

Lemma prefix_starts d : starts_with SHA256_PREFIX (SHA256_PREFIX ++ d) = true.
Proof. reflexivity. Qed.

Lemma tag_not_digest reference : TAG_RE reference = true -> starts_with SHA256_PREFIX reference = false.
Proof.
  unfold starts_with. case_bool_decide as E; [|done].
  rewrite <- (take_drop (length SHA256_PREFIX) reference), E. cbn. by rewrite ?andb_false_r.
Qed.

Lemma serve_delivered s w name digest kind unknown head render bs :
  delivered s -> member w name digest kind = true -> stored w digest = Some bs ->
  serve s false name digest kind unknown head render w = render bs w.
Proof.
  intros [_ Hr Hb] Hm Hs. unfold serve, call, remote. rewrite Hr, Hb.
  unfold bind, trust, TrustStore.hasRegistryMembership, read. unfold member, memberships in Hm. rewrite Hm.
  cbn [negb]. replace (mkWorld _ _ _) with w by (by destruct w as [[] ? ?]). unfold stored in Hs. by rewrite Hs.
Qed.

Lemma content_served `{!Sha256Len} s r w p :
  delivered s -> asks_for w p r ->
  REPO_NAME_RE (p_name p) = true -> isDigest (p_key p) = true \/ p_key p = BlobRefStore.digestBytes (p_bytes p) ->
  member w (p_name p) (p_key p) (p_kind p) = true -> stored w (p_key p) = Some (p_bytes p) ->
  handle s r w = (w, content p).
Proof.
  intros Hd [(Hm & Hv & Hv' & Hc & Ht) Hk] Hn Hkey Hmem Hst.
  assert (Hdig : isDigest (p_key p) = true) by (destruct Hkey as [?| ->]; [done|apply isDigest_sha256]).
  assert (E : forall m, is_method r m = bool_decide (js "GET" = js m)) by (intros; unfold is_method; by rewrite Hm).
  assert (Ef : forall m, negb (bool_decide (js "GET" = js m)) = true -> is_method r m = false).
  { intros m. rewrite E. by destruct (bool_decide _). }
  unfold handle. rewrite !Ef, Hv, Hv', Hc, Ht by reflexivity. unfold content. cbn [andb orb].
  destruct (p_kind p) eqn:Ekind.
  - destruct Hk as [-> ->]. unfold get_blob. rewrite Hn, prefix_starts, drop_app_length, Hdig. cbn [negb].
    by apply serve_delivered with (bs := p_bytes p).
  - destruct Hk as (reference & -> & Href). unfold get_manifest. rewrite Hn. cbn [negb].
    assert (Hres : resolve_reference s (p_name p) reference w = (w, Ok (inr (p_key p)))).
    { unfold resolve_reference. destruct Href as [-> | [Htag Hd2]].
      - by rewrite prefix_starts, drop_app_length, Hdig.
      - rewrite (tag_not_digest _ Htag), Htag. cbn [negb]. unfold call, remote. destruct Hd as [-> _ _].
        unfold bind, trust, TrustStore.getRegistryManifestDigestForTag, read. unfold tagged, tags in Hd2. rewrite Hd2.
        replace (mkWorld _ _ _) with w by (by destruct w as [[] ? ?]).
        change (SHA256_PREFIX ++ p_key p) with (115 :: (drop 1 SHA256_PREFIX ++ p_key p)). cbv iota.
        change (115 :: (drop 1 SHA256_PREFIX ++ p_key p)) with (SHA256_PREFIX ++ p_key p).
        by rewrite prefix_starts, drop_app_length, Hdig. }
    unfold bind at 1. rewrite Hres. rewrite (serve_delivered s w _ _ _ _ _ _ (p_bytes p) Hd Hmem Hst).
    by destruct (manifestResponse _ _) as [[resp|]|].
Qed.

(** ** Properties *)

(** C9: Registry integrity under lost calls.  Whatever the fates of the calls of any
    requests, with puts of other routes and restarts in between: an indexed digest of a
    repository always has its content in the blob store, and the content hashes to it under
    SHA-256 or BLAKE3; a tag always points to an indexed manifest; an open upload counts exactly
    the bytes it holds, and never holds more than the cap.  A push that stops half-way leaves
    content without an index entry, never an entry without content. *)
Theorem registry_integrity cap w :
  reachable cap w ->
  (forall name d k, member w name d k = true ->
     exists bs, stored w d = Some bs /\ (BlobRefStore.digestBytes bs = d \/ blake3_hex bs = d)) /\
  (forall name tag v, tagged w name tag = Some v ->
     exists d, v = SHA256_PREFIX ++ d /\ member w name d Registry.manifest = true) /\
  (forall uuid sess, w_uploads w !! uuid = Some sess ->
     s_size sess = blen (concatChunks (s_chunks sess)) /\ blen (concatChunks (s_chunks sess)) <= cap).
Proof.
  intros [_ _ Hm Ht Hu]%reachable_sound. split; [exact Hm|]. split; [naive_solver|].
  intros uuid sess Hs. destruct (map_Forall_lookup_1 _ _ _ _ Hu Hs) as [E ?]. split; [done|]. by rewrite <- E.
Qed.

(** C10: What a push is told is stored, a later pull gets.  When a push is answered 201, then in
    every later state, after any requests, lost calls, other puts and restarts, a GET of the blob,
    of the manifest by its digest, or by a tag that still points to it, is answered 200 with exactly
    the bytes that were pushed (for an upload, all its chunks in order and the last body), under the
    digest of the push: always for a blob, and for a manifest whenever the media type it names, or
    the default one, can be a header value.  A manifest that names one that cannot (with a line
    break, say) is answered 201 all the same, and every GET of it throws.  (Manifests with numbers
    that are not safe integers are outside the model.) *)
Theorem push_then_pull `{!Sha256Len} s r w w1 w2 resp :
  reachable (maxBlobBytes s) w -> no_collision w r ->
  handle s r w = (w1, Ok resp) -> status resp = 201 -> rtc (step (maxBlobBytes s)) w1 w2 ->
  exists p, push_of w r = Some p /\
    forall s' r', delivered s' -> asks_for w2 p r' ->
      (pullable p -> exists got, handle s' r' w2 = (w2, Ok got) /\ status got = 200 /\ body got = Raw (p_bytes p) /\
         (js "docker-content-digest", SHA256_PREFIX ++ p_key p) ∈ headers got) /\
      (unservable p -> handle s' r' w2 = (w2, Throw BadHeader)).
Proof.
  intros Hr Hc Hh Hst Hlater. pose proof (reachable_sound _ _ Hr) as Hs.
  pose proof (handle_post _ s r w eq_refl Hs Hc w eq_refl) as Hp. rewrite Hh in Hp.
  destruct Hp as [Hi Hcom]. destruct (Hcom Hst) as (p & Ep & Hn & Hkey & Hm & Hb & _).
  destruct (steps_sound _ _ _ Hlater (inv_sound _ _ _ _ Hi)) as [_ [Hg1 Hg2]].
  exists p. split; [done|]. intros s' r' Hd Ha. rewrite (content_served s' r' w2 p) by auto. split.
  - intros (got & -> & Hg)%content_pullable. by exists got.
  - by intros ->%content_unservable.
Qed.

(** C11: Repositories are written only through the gate.  If a request makes a digest a member of
    a repository, or changes one of its tags, then the write gate let this request write to this
    very repository: its verdict for the scope [oci:write:<name>] was not a rejection.  Under an
    enforced gate that is a verified lease. *)
Theorem writes_are_granted s r w name d k tag :
  reachable (maxBlobBytes s) w -> no_collision w r ->
  let w' := (handle s r w).1 in
  member w' name d k <> member w name d k \/ tagged w' name tag <> tagged w name tag ->
  exists v, (write_verdict s r name w).2 = Ok v /\ (forall c m, v <> Lease.G_reject c m) /\
    (CaBundle.leaseEnforced (env s) = true -> exists lease, v = Lease.G_pass lease).
Proof.
  intros Hr Hc w' Hch. pose proof (handle_inv s r w (reachable_sound _ _ Hr) Hc) as [_ [_ Hg] Him Hit]. fold w' in Hg, Him, Hit.
  assert (granted s r w name) as (v & Hv & Hn).
  { destruct Hch as [Hm|Ht]; [|by destruct (Hit name tag)].
    destruct (member w' name d k) eqn:E'; [by destruct (Him _ _ _ E') as [E|]; [rewrite E in Hm|]|].
    destruct (member w name d k) eqn:E; [|done]. by rewrite (Hg _ _ _ E) in E'. }
  exists v. split; [done|]. split; [done|]. intros He. unfold write_verdict in Hv.
  destruct (Lease.gateAndVerify _ _ _ _ _ _ _ _) as [g r0] eqn:Eg. apply (Lease.gate_verdicts (on_verify s)) in Eg as (Hoff & _).
  destruct r0 as [v0|e]; cbn in Hv; [|done]. injection Hv as ->. destruct v as [|lease|c m].
  - destruct (Hoff eq_refl) as [Hoff' _]. congruence.
  - by exists lease.
  - by destruct (Hn c m).
Qed.

(** A repository does not leak what others hold.  For a digest that is no member of the
    repository, GET and HEAD answer the same 404, whatever the blob store holds. *)
Theorem unlisted_content_is_unknown s isHead name hex w blobs :
  on_read s = Delivered -> REPO_NAME_RE name = true -> isDigest hex = true ->
  member w name hex Registry.blob = false ->
  let w' := mkWorld (w_gate w) blobs (w_uploads w) in
  get_blob s isHead name (SHA256_PREFIX ++ hex) w' = (w', Ok (blob_unknown (SHA256_PREFIX ++ hex))).
Proof.
  intros Hd Hn Hx Hm w'. unfold get_blob. rewrite Hn, prefix_starts, drop_app_length, Hx. cbn [negb].
  unfold serve, call, remote. rewrite Hd. unfold bind, trust, TrustStore.hasRegistryMembership, read.
  unfold member, memberships in Hm. subst w'. cbn [w_gate]. rewrite Hm. cbn [negb]. by destruct w as [[] ? ?].
Qed.

End route.

(** ** Examples *)

#[local] Existing Instances demo_sha256 demo_ed25519 demo_sha256_len BlobRefStore.demo_blake3 Lease.demo_certpath CaBundle.demo_cborx.

Definition demo_cap : Z := 1000.
(** A development stack without an authority: the gate is off. *)
Definition demo_env : CaBundle.Env := CaBundle.mkEnv (Some (js "dev")) None None None.
Definition demo_s (record : rpc) : surroundings :=
  mkSurroundings demo_env CaBundle.NetworkThrew 7 7 (js "u1") demo_cap Delivered Delivered Delivered Delivered record Delivered.
Definition demo_ok : surroundings := demo_s Delivered.
Definition demo_body : bytes := [Corelib.Init.Byte.x7b; Corelib.Init.Byte.x7d].
Definition demo_digest : jsstr := BlobRefStore.digestBytes demo_body.

Definition demo_patterns : patterns := mkPatterns false false false None None None None None.
Definition demo_request (m : string) (p : patterns) (digest : option jsstr) (b : bytes) : oci_request :=
  mkOci (Lease.mkRequest (js m) (js "https://c/v2/app") (fun _ => None)) p digest b.

(** POST /v2/app/blobs/uploads/?digest=...; GET /v2/app/blobs/...; PUT and GET /v2/app/manifests/v1. *)
Definition demo_post : oci_request :=
  demo_request "POST" (mkPatterns false false false None None None (Some (js "app")) None)
    (Some (SHA256_PREFIX ++ demo_digest)) demo_body.
Definition demo_get : oci_request :=
  demo_request "GET" (mkPatterns false false false None None (Some (js "app", SHA256_PREFIX ++ demo_digest)) None None) None [].
Definition demo_put_tag : oci_request :=
  demo_request "PUT" (mkPatterns false false false None (Some (js "app", js "v1")) None None None) None demo_body.
Definition demo_get_tag : oci_request :=
  demo_request "GET" (mkPatterns false false false None (Some (js "app", js "v1")) None None None) None [].

Definition demo_w1 : world := (handle demo_ok demo_post start).1.
Definition demo_w2 : world := mkWorld (w_gate demo_w1) (w_blobs demo_w1) ∅.

Definition status_of (r : result exn Response) : option Z := match r with Ok x => Some (status x) | Throw _ => None end.
Definition body_of (r : result exn Response) : option body_init := match r with Ok x => Some (body x) | Throw _ => None end.

Lemma demo_free r : no_collision start r.
Proof. intros p bs _. unfold stored, BlobRefStore.do_get. rewrite (BlobRefStore.get_represents _ ∅) by apply BlobRefStore.blob_represents_empty. by rewrite lookup_empty. Qed.

Lemma demo_w1_reachable : reachable demo_cap demo_w1.
Proof. apply rtc_once. apply (step_request demo_cap demo_ok demo_post start eq_refl). apply demo_free. Qed.

Lemma registry_integrity_witness :
  exists bs, stored demo_w1 demo_digest = Some bs /\ (BlobRefStore.digestBytes bs = demo_digest \/ blake3_hex bs = demo_digest).
Proof.
  apply (proj1 (registry_integrity demo_cap demo_w1 demo_w1_reachable) (js "app") demo_digest Registry.blob).
  vm_compute. reflexivity.
Defined.

Lemma push_then_pull_witness :
  exists got, handle demo_ok demo_get demo_w2 = (demo_w2, Ok got) /\ status got = 200 /\ body got = Raw demo_body.
Proof.
  destruct (push_then_pull demo_ok demo_post start demo_w1 demo_w2 (blobCreatedResponse (js "app") demo_digest))
    as (p & Ep & Hserve).
  - constructor.
  - apply demo_free.
  - apply pair_snd. vm_compute. reflexivity.
  - reflexivity.
  - apply rtc_once, step_restart.
  - assert (E : p = mkPushed (js "app") demo_digest Registry.blob demo_body None).
    { cut (push_of start demo_post = Some (mkPushed (js "app") demo_digest Registry.blob demo_body None));
        [congruence|vm_compute; reflexivity]. }
    rewrite E in Hserve. destruct (Hserve demo_ok demo_get) as [Hp _]; [by constructor|repeat split|].
    destruct (Hp I) as (got & Hg & Hs & Hb & _). exists got. split; [exact Hg|]. split; [exact Hs|exact Hb].
Defined.

Lemma writes_are_granted_witness :
  exists v, (write_verdict demo_ok demo_post (js "app") start).2 = Ok v /\ (forall c m, v <> Lease.G_reject c m) /\
    (CaBundle.leaseEnforced demo_env = true -> exists lease, v = Lease.G_pass lease).
Proof.
  apply (writes_are_granted demo_ok demo_post start (js "app") demo_digest Registry.blob []).
  - constructor.
  - apply demo_free.
  - left. vm_compute. discriminate.
Defined.

Lemma unlisted_content_is_unknown_witness :
  let w' := mkWorld (w_gate start) (w_blobs demo_w1) ∅ in
  get_blob demo_ok false (js "app") (SHA256_PREFIX ++ demo_digest) w' =
  (w', Ok (blob_unknown (SHA256_PREFIX ++ demo_digest))).
Proof. apply (unlisted_content_is_unknown demo_ok false (js "app") demo_digest start (w_blobs demo_w1)); vm_compute; reflexivity. Defined.

(** A push whose index call gets lost leaves the content alone in the store, and is not listed. *)
Example lost_record :
  let r := handle (demo_s CallLost) demo_post start in
  r.2 = Throw CallThrew /\ stored r.1 demo_digest = Some demo_body /\
  member r.1 (js "app") demo_digest Registry.blob = false.
Proof. vm_compute. repeat split. Qed.

(** A pull by tag. *)
Example tag_pull :
  let w := (handle demo_ok demo_put_tag start).1 in
  body_of (handle demo_ok demo_get_tag w).2 = Some (Raw demo_body).
Proof. vm_compute. reflexivity. Qed.

(** The name pattern lets parent segments through. *)
Example parent_segments : REPO_NAME_RE (js "a/../b") = true.
Proof. reflexivity. Qed.

(** A manifest that names a media type with a line break in it can be pushed, and not pulled. *)
Definition bad_manifest : bytes := map z2b (js "{" ++ [34] ++ js "mediaType" ++ [34] ++ js ":" ++ [34] ++ js "a\nb" ++ [34] ++ js "}").
Example unpullable_manifest :
  let put := demo_request "PUT" (mkPatterns false false false None (Some (js "app", js "v1")) None None None) None bad_manifest in
  let pushed := handle demo_ok put start in
  status_of pushed.2 = Some 201 /\ (handle demo_ok demo_get_tag pushed.1).2 = Throw BadHeader.
Proof. vm_compute. split; reflexivity. Qed.

End OciRegistry.
