(* ===== verification/Edge.v ===== *)
(** The edge of the worker: the route table (src/router.ts), the CORS rule (src/cors.ts) and the
    health route (src/routes/health.ts). *)
From S2P Require Import Prelude JsString Json.

Module Edge.

(** ** The router *)

Record EdgeRoute (Q W E R : Type) := mkRoute { matches : Q -> bool; serve : Q -> M W E R }.
Arguments mkRoute {Q W E R}. Arguments matches {Q W E R}. Arguments serve {Q W E R}.

(** The first route that matches answers; [not_found] is the 404. *)
Fixpoint handle {Q W E R} (routes : list (EdgeRoute Q W E R)) (not_found : R) (request : Q) : M W E R :=
  match routes with
  | [] => ret not_found
  | route :: routes' => if matches route request then serve route request else handle routes' not_found request
  end.

(** ** CORS *)

Definition WILDCARD : jsstr := js "*".
Definition COMMA : Z := 44.

Definition all_digits (s : jsstr) : bool := negb (bool_decide (s = [])) && forallb is_digit s.

Definition matchOrigin (origin pattern : jsstr) : bool :=
  bool_decide (pattern = origin) ||
  (ends_with (js ":*") pattern &&
   (let prefix := take (length pattern - 1) pattern in
    starts_with prefix origin && all_digits (drop (length prefix) origin))).

(** The first literal entry of the list. *)
Fixpoint first_literal (entries : list jsstr) : jsstr :=
  match entries with
  | [] => WILDCARD
  | raw :: rest =>
      let entry := trim raw in
      if negb (bool_decide (entry = [])) && negb (includes 42 entry) then entry else first_literal rest
  end.

Fixpoint first_match (origin : jsstr) (entries : list jsstr) : jsstr :=
  match entries with
  | [] => js "null"
  | raw :: rest =>
      let entry := trim raw in
      if bool_decide (entry = []) then first_match origin rest
      else if matchOrigin origin entry then origin
      else first_match origin rest
  end.

Definition pickAllowedOrigin (origin : option jsstr) (allowedOrigins : option jsstr) : jsstr :=
  let list := trim (default [] allowedOrigins) in
  if bool_decide (list = []) || bool_decide (list = WILDCARD) then default WILDCARD origin
  else
    match origin with
    | None | Some [] => first_literal (split_on COMMA list)
    | Some o => first_match o (split_on COMMA list)
    end.

(** ** Health *)

Record HealthEnv := mkHealthEnv { ROSARY_MCP_URL : jsstr; SIGNET_URL : jsstr }.

Definition or_unset (url : jsstr) : Json := JStr (match url with [] => js "not configured" | _ => url end).

Definition health_matches (method pathname : jsstr) : bool :=
  bool_decide (method = js "GET") && bool_decide (pathname = js "/health").

Definition health (env : HealthEnv) : Json :=
  JObj [(js "status", JStr (js "ok")); (js "service", JStr (js "cloister"));
        (js "backends", JObj [(js "notme", JStr (js "service-binding"));
                              (js "rosary", or_unset (ROSARY_MCP_URL env));
                              (js "signet", or_unset (SIGNET_URL env))])].

(** ** Facts *)

(** The requests a route answers are those no earlier route matches. *)
Lemma handle_routes {Q W E R} (before after : list (EdgeRoute Q W E R)) route nf q :
  Forall (fun r => matches r q = false) before -> matches route q = true ->
  handle (before ++ route :: after) nf q = serve route q.
Proof.
  intros Hb Hm. induction Hb as [|r l Hr _ IH]; cbn [handle app]; [by rewrite Hm|by rewrite Hr].
Qed.

Lemma handle_none {Q W E R} (routes : list (EdgeRoute Q W E R)) nf q :
  Forall (fun r => matches r q = false) routes -> handle routes nf q = ret nf.
Proof. induction 1 as [|r l Hr _ IH]; cbn [handle]; [done|by rewrite Hr]. Qed.

(** An entry of an allowlist admits an origin: it is the origin, or it ends in [:*] and the
    origin continues it with a port. *)
Definition admits (entry origin : jsstr) : Prop :=
  entry = origin \/ exists host port, entry = host ++ js ":*" /\ origin = host ++ js ":" ++ port /\ all_digits port = true.

Lemma glob_prefix host : take (length (host ++ js ":*") - 1) (host ++ js ":*") = host ++ js ":".
Proof.
  assert (Hl : length (host ++ js ":*") = S (S (length host))).
  { rewrite length_app. change (length (js ":*")) with 2%nat. lia. }
  rewrite Hl, take_app_ge by lia. by replace (S (S (length host)) - 1 - length host)%nat with 1%nat by lia.
Qed.

Lemma matchOrigin_iff origin pattern : matchOrigin origin pattern = true <-> admits pattern origin.
Proof.
  unfold matchOrigin, admits. rewrite orb_true_iff, bool_decide_eq_true, andb_true_iff. apply or_iff_compat_l. split.
  - intros [(host & ->)%ends_with_iff Hp]. rewrite glob_prefix in Hp. apply andb_true_iff in Hp as [(port & ->)%starts_with_iff Hd].
    rewrite drop_app_length in Hd. exists host, port. by rewrite app_assoc.
  - intros (host & port & -> & -> & Hd). rewrite glob_prefix. split; [apply ends_with_iff; by exists host|].
    rewrite app_assoc, drop_app_length, Hd, andb_true_r. apply starts_with_iff. by exists port.
Qed.

Lemma first_match_spec origin entries :
  (Exists (fun raw => trim raw <> [] /\ admits (trim raw) origin) entries /\ first_match origin entries = origin) \/
  (~ Exists (fun raw => trim raw <> [] /\ admits (trim raw) origin) entries /\ first_match origin entries = js "null").
Proof.
  induction entries as [|raw rest IH]; cbn [first_match]; [right; split; [inversion 1|done]|].
  rewrite Exists_cons. destruct (bool_decide_reflect (trim raw = [])) as [E|E]; [rewrite E in *; naive_solver|].
  destruct (matchOrigin origin (trim raw)) eqn:Em; [apply matchOrigin_iff in Em; naive_solver|].
  assert (~ admits (trim raw) origin) by (rewrite <- matchOrigin_iff, Em; done). naive_solver.
Qed.

(** A configured allowlist is never widened.  When the list is neither empty nor [*], the
    answer to a request with an origin is that origin just when an entry admits it, and
    otherwise the word browsers refuse. *)
Theorem cors_allowlist allowed c origin :
  trim allowed <> [] -> trim allowed <> WILDCARD ->
  let entries := split_on COMMA (trim allowed) in
  let ok := Exists (fun raw => trim raw <> [] /\ admits (trim raw) (c :: origin)) entries in
  (ok /\ pickAllowedOrigin (Some (c :: origin)) (Some allowed) = c :: origin) \/
  (~ ok /\ pickAllowedOrigin (Some (c :: origin)) (Some allowed) = js "null").
Proof.
  intros Hn Hw entries ok. unfold pickAllowedOrigin. cbn [default].
  rewrite !bool_decide_false by done. apply first_match_spec.
Qed.

Lemma cors_allowlist_witness :
  pickAllowedOrigin (Some (js "http://localhost:8787")) (Some (js "https://notme.bot, http://localhost:*")) =
  js "http://localhost:8787".
Proof.
  destruct (cors_allowlist (js "https://notme.bot, http://localhost:*") 104 (js "ttp://localhost:8787")) as [[_ E]|[Hn _]].
  - vm_compute; discriminate.
  - vm_compute; discriminate.
  - exact E.
  - exfalso. apply Hn. apply Exists_cons_tl, Exists_cons_hd. split; [vm_compute; discriminate|].
    right. exists (js "http://localhost"), (js "8787"). vm_compute. done.
Defined.

(** The refusal of one origin is the permission of another: an opaque origin is the word [null]. *)
Lemma opaque_origin_is_admitted allowed :
  trim allowed <> [] -> trim allowed <> WILDCARD ->
  pickAllowedOrigin (Some (js "null")) (Some allowed) = js "null".
Proof.
  intros Hn Hw. unfold pickAllowedOrigin. cbn [default]. rewrite !bool_decide_false by done.
  by destruct (first_match_spec (js "null") (split_on COMMA (trim allowed))) as [[_ E]|[_ E]].
Qed.

Example cors_examples :
  pickAllowedOrigin (Some (js "http://localhost:80x")) (Some (js "http://localhost:*")) = js "null" /\
  pickAllowedOrigin None (Some (js "http://localhost:*, https://notme.bot")) = js "https://notme.bot" /\
  pickAllowedOrigin None None = js "*".
Proof. vm_compute. done. Qed.

End Edge.
