(* ===== verification/McpRoute.v ===== *)
(** The MCP edge route (src/routes/mcp.ts) with the per-peer cache of filesystem roots
    (src/routes/roots-state.ts).

    A POST is parsed, its headers are compared with its body, the lease gate is asked, the
    JSON-RPC method is dispatched to the route itself, to the bead_create handoff or to the
    first tool backend that claims the name, and an admitted answer gets a receipt.  Backends
    are records of operations over a state they share.  Message texts that other modules word
    (lease errors, errors of the handoff) are parameters. *)
From S2P Require Import Prelude JsString Sql Platform Json JsonText JsConvert Origin ConfinementJson BlobRefStore TrustStore BeadCreate CaBundle Lease Edge.
From S2P Require Import ReceiptsCbor ReceiptWire ReceiptVerify ReceiptEmit.

Module McpRoute.
Import JsonText JsConvert.

(** ** Roots *)

Record Root := mkRoot { uri : jsstr; name : option jsstr }.
Record RootsState := mkRoots { roots : list Root; capabilityDeclared : bool; listChangedSupported : bool }.
Abbreviation RootsStore := (gmap (list Z) RootsState).

Definition ANONYMOUS_PEER : jsstr := js "__anonymous__".

Definition getRoots (s : RootsStore) (peerFp : jsstr) : option RootsState := s !! peerFp.

Definition setCapability (peerFp : jsstr) (listChanged : bool) (s : RootsStore) : RootsStore :=
  <[peerFp := mkRoots (from_option roots [] (s !! peerFp)) true listChanged]> s.

Definition setRoots (peerFp : jsstr) (rs : list Root) (s : RootsStore) : RootsStore :=
  <[peerFp := mkRoots rs (from_option capabilityDeclared false (s !! peerFp))
                      (from_option listChangedSupported false (s !! peerFp))]> s.

Definition clearRoots (peerFp : jsstr) (s : RootsStore) : RootsStore := delete peerFp s.

Definition parse_root (item : Json) : option Root :=
  match get_prop item (js "uri") with
  | Some (JStr u) =>
      if starts_with (js "file://") u
      then Some (mkRoot u (match get_prop item (js "name") with Some (JStr n) => Some n | _ => None end))
      else None
  | _ => None
  end.

Definition parseRootsArray (value : option Json) : option (list Root) :=
  match value with Some (JArr items) => Some (omap parse_root items) | _ => None end.

Definition is_object (v : Json) : bool := match v with JObj _ | JArr _ => true | _ => false end.

Definition captureRootsFromInitialize (peerFp : jsstr) (rootsCapability inlineRoots : option Json)
    (s : RootsStore) : RootsStore :=
  let s := match rootsCapability with
           | Some cap => if is_object cap
                         then setCapability peerFp (match get_prop cap (js "listChanged") with Some (JBool b) => b | _ => false end) s
                         else s
           | None => s
           end in
  match parseRootsArray inlineRoots with Some rs => setRoots peerFp rs s | None => s end.

(** ** Backends *)

(** The descriptor of a tool: its name and its other fields, in order. *)
Record McpTool := mkTool { t_name : jsstr; t_rest : list (jsstr * Json) }.
Definition tool_json (t : McpTool) : Json := JObj ((js "name", JStr (t_name t)) :: t_rest t).

(** What an invocation ends in: a value, a [JsonRpcInvocationError], or another exception. *)
Inductive invocation :=
  | Returned (value : option Json)
  | JsonRpcInvocationError (code : option Json) (message : jsstr)
  | OtherError (message : jsstr).

(** The interface every backend implements, over the state [B] of all of them.  [handles] is
    [None] where it throws, on a name that is no string.  [refreshTools] answers whether it
    resolved; only the proxy backends have [notifyRootsChanged]. *)
Record ToolBackend (B : Type) := mkBackend {
  tools : B -> list McpTool;
  handles : B -> option Json -> option bool;
  invoke : option Json -> Json -> RootsStore -> jsstr -> B -> B * invocation;
  refreshTools : option (B -> B * bool);
  cacheMeta : option (B -> option Z);
  contentOrigin : option Origin.OriginSet;
  notifyRootsChanged : option (B -> B);
}.
Arguments mkBackend {B}. Arguments tools {B}. Arguments handles {B}. Arguments invoke {B}.
Arguments refreshTools {B}. Arguments cacheMeta {B}. Arguments contentOrigin {B}. Arguments notifyRootsChanged {B}.

(** [backends.find(b => b.handles(name))]; [None] where a [handles] throws. *)
Fixpoint find_backend {B} (bs : list (ToolBackend B)) (b : B) (nm : option Json) : option (option (ToolBackend B)) :=
  match bs with
  | [] => Some None
  | x :: bs' =>
      match handles x b nm with
      | None => None
      | Some true => Some (Some x)
      | Some false => find_backend bs' b nm
      end
  end.

(** The first tool of every name. *)
Fixpoint first_of_name (seen : list jsstr) (ts : list McpTool) : list McpTool :=
  match ts with
  | [] => []
  | t :: ts' => if bool_decide (t_name t ∈ seen) then first_of_name seen ts' else t :: first_of_name (t_name t :: seen) ts'
  end.

Definition tool_le (a b : McpTool) : bool := unit_le (t_name a) (t_name b).

Definition allTools {B} (bs : list (ToolBackend B)) (b : B) : list McpTool :=
  sort_by tool_le (first_of_name [] (concat (map (fun x => tools x b) bs))).

(** The constructor's check; [None] is its exception. *)
Fixpoint assertNoDuplicateToolNames (seen : list jsstr) (ts : list McpTool) : option unit :=
  match ts with
  | [] => Some tt
  | t :: ts' => if bool_decide (t_name t ∈ seen) then None else assertNoDuplicateToolNames (t_name t :: seen) ts'
  end.

(** ** JSON-RPC *)

Definition SESSIONLESS_PROTOCOL_VERSION : jsstr := js "2026-07-28".

(** The versions the constructor keeps. *)
Definition versions (declared : option (list jsstr)) : list jsstr :=
  match declared with Some ((_ :: _) as l) => l | _ => [SESSIONLESS_PROTOCOL_VERSION] end.

Definition SERVER_INFO : Json := JObj [(js "name", JStr (js "cloister")); (js "version", JStr (js "0.1.0"))].
Definition SERVER_CAPABILITIES : Json := JObj [(js "tools", JObj [])].
Definition PROTOCOL_VERSION_HEADER : jsstr := js "mcp-protocol-version".
Definition MCP_METHOD_HEADER : jsstr := js "mcp-method".
Definition MCP_NAME_HEADER : jsstr := js "mcp-name".
Definition ERR_HEADER_MISMATCH : Z := -32020.
Definition META_PROTOCOL_VERSION_KEY : jsstr := js "io.modelcontextprotocol/protocolVersion".
Definition META_SERVER_INFO_KEY : jsstr := js "io.modelcontextprotocol/serverInfo".

(** A property that is left out of the text when it is [undefined]. *)
Definition field (k : jsstr) (v : option Json) : list (jsstr * Json) :=
  match v with Some v => [(k, v)] | None => [] end.

Inductive JsonRpcResponse :=
  | okResponse (id : option Json) (result : list (jsstr * Json))
  | errResponse (id : option Json) (code : option Json) (message : jsstr) (data : option Json).

Definition response_json (r : JsonRpcResponse) : Json :=
  let head id := (js "jsonrpc", JStr (js "2.0")) :: field (js "id") id in
  match r with
  | okResponse id result => JObj (head id ++ [(js "result", JObj result)])
  | errResponse id code message data =>
      JObj (head id ++ [(js "error", JObj (field (js "code") code ++ [(js "message", JStr message)] ++ field (js "data") data))])
  end.

Definition code (z : Z) : option Json := Some (JNum z).

(** The request as parsed: any value but [null]. *)
Definition req_id (req : Json) : option Json := get_prop req (js "id").
Definition req_method (req : Json) : option Json := get_prop req (js "method").
Definition req_params (req : Json) : option Json := get_prop req (js "params").
Definition id_or_null (req : Json) : option Json := Some (nullish (req_id req) JNull).

(** [JSON.stringify] of a property, in a template. *)
Definition quoted (v : option Json) : jsstr := match v with Some v => json_stringify v | None => js "undefined" end.

Definition mismatch (req : Json) (header got : jsstr) (bodyValue : option Json) : JsonRpcResponse :=
  errResponse (id_or_null req) (code ERR_HEADER_MISMATCH)
    (js "HeaderMismatchError: " ++ header ++ js " header " ++ quote got ++ js " disagrees with body " ++ quoted bodyValue) None.

Definition is_text (s : jsstr) (v : option Json) : bool :=
  match v with Some (JStr t) => bool_decide (s = t) | _ => false end.

Definition validateMcpHeaders (header : jsstr -> option jsstr) (req : Json) : option JsonRpcResponse :=
  let by_name :=
    match header MCP_NAME_HEADER, opt_prop (req_params req) (js "name") with
    | Some h, Some (JStr n) => if bool_decide (h = n) then None else Some (mismatch req (js "Mcp-Name") h (Some (JStr n)))
    | _, _ => None
    end in
  match header MCP_METHOD_HEADER with
  | Some h => if is_text h (req_method req) then by_name else Some (mismatch req (js "Mcp-Method") h (req_method req))
  | None => by_name
  end.

Definition extractMeta (params : option Json) : option Json :=
  match params with
  | Some (JObj m) => match assoc (js "_meta") m with Some meta => if is_object meta then Some meta else None | None => None end
  | _ => None
  end.

Definition extractSubscriptions (params : option Json) : Json :=
  match params with Some (JObj m) => nullish (assoc (js "subscriptions") m) (JArr []) | _ => JArr [] end.

Definition version_list (vs : list jsstr) : Json := JArr (map JStr vs).

Definition validateSessionlessRequest (supported : list jsstr) (req : Json) (headerVersion : jsstr) : option JsonRpcResponse :=
  if negb (bool_decide (headerVersion ∈ supported)) then
    Some (errResponse (id_or_null req) (code (-32600)) (js "UnsupportedProtocolVersionError")
            (Some (JObj [(js "supported", version_list supported); (js "requested", JStr headerVersion)])))
  else
    match extractMeta (req_params req) with
    | None => None
    | Some meta =>
        match get_prop meta META_PROTOCOL_VERSION_KEY with
        | Some (JStr v) =>
            if bool_decide (v = headerVersion) then None
            else Some (errResponse (id_or_null req) (code (-32600))
                   (js "protocol version mismatch: header=" ++ headerVersion ++ js " _meta." ++
                    META_PROTOCOL_VERSION_KEY ++ js "=" ++ v) None)
        | _ => None
        end
    end.

(** The required fields of a sessionless result; [None] where a [_meta] that is no object
    refuses the property. *)
Definition sessionless_result (result : list (jsstr * Json)) : option (list (jsstr * Json)) :=
  let result := match assoc (js "resultType") result with
                | Some _ => result
                | None => obj_set (js "resultType") (JStr (js "complete")) result
                end in
  match nullish (assoc (js "_meta") result) (JObj []) with
  | JObj meta =>
      let meta := match assoc META_SERVER_INFO_KEY meta with
                  | Some _ => meta
                  | None => obj_set META_SERVER_INFO_KEY SERVER_INFO meta
                  end in
      Some (obj_set (js "_meta") (JObj meta) result)
  | JArr l => Some (obj_set (js "_meta") (JArr l) result)
  | _ => None
  end.

Definition finished (sessionless : bool) (out : JsonRpcResponse) : option JsonRpcResponse :=
  match out with
  | okResponse id result => if sessionless then okResponse id <$> sessionless_result result else Some out
  | errResponse _ _ _ _ => Some out
  end.

(** ** State and surroundings *)

(** The isolate's caches and the objects behind it, the backends' state, and the receipt
    authority's. *)
Record world (B R : Type) := mkWorld {
  w_cache : CaBundle.Cache;
  w_objects : BeadCreate.world;
  w_roots : RootsStore;
  w_backends : B;
  w_authority : R;
}.
Arguments mkWorld {B R}. Arguments w_cache {B R}. Arguments w_objects {B R}. Arguments w_roots {B R}.
Arguments w_backends {B R}. Arguments w_authority {B R}.

Record Env := mkEnv {
  e_gate : CaBundle.Env;
  e_receipts : ReceiptEmit.Env;
  ALLOWED_ORIGINS : option jsstr;
}.

(** What one request meets: the clock at its start and at the bundle's fetch, the authority's
    reply to that fetch, the fate of the gate's call to the trust store, and what surrounds a
    bead_create. *)
Record surroundings := mkSurroundings {
  nowMs : Z;
  clock : Z;
  notme : CaBundle.reply;
  on_verify : rpc;
  bead : BeadCreate.surroundings;
}.

Inductive exn :=
  | TypeErrorThrew
  | OutsideModel
  | GateThrew (e : Lease.exn)
  | RefreshThrew.

(** The response, and whether its body has been read already. *)
Record answer := mkAnswer { a_response : ReceiptEmit.Response; a_used : bool }.

(** What is left to send of an answer: nothing, once its body has been read. *)
Definition sent_body (a : answer) : option bytes := if a_used a then None else Some (ReceiptEmit.r_body (a_response a)).

Definition COMMA_ : jsstr := [44].
Definition INSTRUCTIONS : jsstr :=
  js "cloister MCP gateway " ++ [8212] ++ js " see /.well-known/mcp-registry for the upstream catalog.".

Section route.
Context {B R : Type} (backends : list (ToolBackend B)) (supportedVersions : list jsstr).
Context (authority : ReceiptEmit.authority R).
Context (lease_text : Lease.lease_message -> jsstr) (bead_text : BeadCreate.exn -> jsstr).
Context `{Sha256} `{Blake3} `{Ed25519} `{Ed25519Sign} `{Lease.CertPath} `{CaBundle.CborX}.

Definition W (A : Type) : Type := M (world B R) exn A.

Definition or_throw {A} (o : option A) : W A := match o with Some a => ret a | None => throw TypeErrorThrew end.

Definition on_roots (f : RootsStore -> RootsStore) : W unit := fun w =>
  (mkWorld (w_cache w) (w_objects w) (f (w_roots w)) (w_backends w) (w_authority w), Ok tt).

Definition on_backends {A} (f : RootsStore -> B -> B * A) : W A := fun w =>
  let '(b, a) := f (w_roots w) (w_backends w) in
  (mkWorld (w_cache w) (w_objects w) (w_roots w) b (w_authority w), Ok a).

Definition set_trust (t : TrustStore.T) (o : BeadCreate.world) : BeadCreate.world :=
  BeadCreate.mkWorld (BeadCreate.w_blobs o) (BeadCreate.w_beads o) t (BeadCreate.w_warned o).

Definition gate {A} (m : M Lease.world Lease.exn A) : W A := fun w =>
  let '(g, r) := m (Lease.mkWorld (w_cache w) (BeadCreate.w_trust (w_objects w))) in
  (mkWorld (Lease.w_cache g) (set_trust (Lease.w_store g) (w_objects w)) (w_roots w) (w_backends w) (w_authority w),
   match r with Ok a => Ok a | Throw e => Throw (GateThrew e) end).

(** The handoff; its exceptions are caught by the caller. *)
Definition on_objects {A} (m : M BeadCreate.world BeadCreate.exn A) : W (result BeadCreate.exn A) := fun w =>
  let '(o, r) := m (w_objects w) in
  (mkWorld (w_cache w) o (w_roots w) (w_backends w) (w_authority w), Ok r).

(** ** tools/call *)

(** [content: [{ type: "text", text: JSON.stringify(value, null, 2) }]] *)
Definition text_content (value : option Json) : list (jsstr * Json) :=
  [(js "content", JArr [JObj ((js "type", JStr (js "text")) ::
                              field (js "text") ((fun v => JStr (ConfinementJson.pretty 0 v)) <$> value))])].

Definition INTERNAL_ERROR : option Json := code (-32603).

Definition invocation_response (id : option Json) (result : invocation) : JsonRpcResponse :=
  match result with
  | Returned v => okResponse id (text_content v)
  | JsonRpcInvocationError c message => errResponse id c message None
  | OtherError message => errResponse id INTERNAL_ERROR message None
  end.

Definition invoke_backend (id : option Json) (b : ToolBackend B) (nm : option Json) (args : Json) (peerFp : jsstr) : W JsonRpcResponse :=
  let* result := on_backends (fun roots => invoke b nm args roots peerFp) in
  ret (invocation_response id result).

Definition bead_context (l : Lease.VerifiedLease) : BeadCreate.BeadCreateContext :=
  BeadCreate.mkContext (Lease.v_peerFp l) (Lease.v_scope l) (Lease.v_certDer l) (Lease.v_sig l).

(** [{ id, title, state, content_hash }] of the handoff. *)
Definition summary_json (s : BeadCreate.summary) : Json :=
  let b := BeadCreate.s_bead s in
  JObj (field (js "id") (BeadCreate.br_id b) ++ field (js "title") (BeadCreate.br_title b) ++
        field (js "state") (BeadCreate.br_state b) ++ [(js "content_hash", JStr (BeadCreate.s_content_hash s))]).

Definition create_bead (x : surroundings) (id : option Json) (args : Json) (l : Lease.VerifiedLease) : W JsonRpcResponse :=
  let* r := on_objects (BeadCreate.runBeadCreateOrchestrator (bead x) args (bead_context l) (nowMs x)) in
  ret (match r with
       | Ok s => okResponse id (text_content (Some (summary_json s)))
       | Throw (BeadCreate.Invocation c e) => errResponse id c (bead_text (BeadCreate.Invocation c e)) None
       | Throw e => errResponse id INTERNAL_ERROR (bead_text e) None
       end).

Definition text_or_undefined (v : option Json) : option jsstr :=
  match v with Some v => to_string v | None => Some (js "undefined") end.

(** [req.params] is read as an object whatever it is; [undefined] and [null] throw. *)
Definition callTool (x : surroundings) (req : Json) (lease : option Lease.VerifiedLease) : W JsonRpcResponse :=
  match present (req_params req) with
  | None => throw TypeErrorThrew
  | Some params =>
      let nm := get_prop params (js "name") in
      let args := nullish (get_prop params (js "arguments")) (JObj []) in
      match (if is_text (js "bead_create") nm then lease else None) with
      | Some l => create_bead x (req_id req) args l
      | None =>
          let* w := read (fun w => w_backends w) in
          let* found := or_throw (find_backend backends w nm) in
          match found with
          | None => let* t := or_throw (text_or_undefined nm) in
                    ret (errResponse (req_id req) (code (-32601)) (js "unknown tool: " ++ t) None)
          | Some b => invoke_backend (req_id req) b nm args (from_option Lease.v_peerFp ANONYMOUS_PEER lease)
          end
      end
  end.

(** ** tools/list *)

(** [Promise.all] over the refreshes: all run, one rejection rejects. *)
Fixpoint refresh_all (bs : list (ToolBackend B)) (b : B) : B * bool :=
  match bs with
  | [] => (b, true)
  | x :: bs' =>
      let '(b, ok) := match refreshTools x with Some f => f b | None => (b, true) end in
      let '(b, oks) := refresh_all bs' b in (b, ok && oks)
  end.

Definition ttls (b : B) : list Z := omap (fun x => cacheMeta x ≫= (fun f => f b)) backends.

Definition min_ttl (ts : list Z) : Z := match ts with [] => 0 | t :: ts' => foldl Z.min t ts' end.

Definition tools_list (id : option Json) (sessionless : bool) : W JsonRpcResponse :=
  let* ok := on_backends (fun _ b => refresh_all backends b) in
  if negb ok then throw RefreshThrew
  else
    let* b := read (fun w => w_backends w) in
    let listed := [(js "tools", JArr (map tool_json (allTools backends b)))] in
    ret (okResponse id (if sessionless
                        then listed ++ [(js "ttlMs", JNum (min_ttl (ttls b))); (js "cacheScope", JStr (js "private"))]
                        else listed)).

(** ** The other methods *)

Definition initialize (req : Json) (peerFp : jsstr) : W JsonRpcResponse :=
  let params := nullish (req_params req) (JObj []) in
  let requested := get_prop params (js "protocolVersion") in
  let refused := match requested with
                 | Some (JStr v) => negb (bool_decide (v = [])) && negb (bool_decide (v ∈ supportedVersions))
                 | _ => false
                 end in
  if refused then
    ret (errResponse (req_id req) (code (-32600))
           (js "UnsupportedProtocolVersionError: requested=" ++ default [] (text_or_undefined requested) ++
            js " supported=" ++ join COMMA_ supportedVersions) None)
  else
    do* on_roots (captureRootsFromInitialize peerFp (opt_prop (get_prop params (js "capabilities")) (js "roots"))
                    (get_prop params (js "roots"))) in
    ret (okResponse (req_id req)
           [(js "protocolVersion", nullish requested (JStr SESSIONLESS_PROTOCOL_VERSION));
            (js "capabilities", SERVER_CAPABILITIES); (js "serverInfo", SERVER_INFO)]).

Definition fanOutRootsListChanged : W unit :=
  on_backends (fun _ b => (foldl (fun b x => match notifyRootsChanged x with Some f => f b | None => b end) b backends, tt)).

Definition not_found (req : Json) (what : string) : W JsonRpcResponse :=
  ret (errResponse (req_id req) (code (-32601)) (js "method not found: " ++ js what) None).

Definition dispatch (x : surroundings) (req : Json) (lease : option Lease.VerifiedLease) (sessionless : bool) : W JsonRpcResponse :=
  let peerFp := from_option Lease.v_peerFp ANONYMOUS_PEER lease in
  let id := req_id req in
  let named m := is_text (js m) (req_method req) in
  if named "initialize"%string then
    if sessionless then not_found req "initialize (sessionless protocol)" else initialize req peerFp
  else if named "notifications/initialized"%string then ret (okResponse (id_or_null req) [])
  else if named "notifications/roots/list_changed"%string then
    do* on_roots (clearRoots peerFp) in
    do* fanOutRootsListChanged in
    ret (okResponse (id_or_null req) [])
  else if named "server/discover"%string then
    if negb sessionless then not_found req "server/discover (requires MCP-Protocol-Version header)"
    else ret (okResponse id
                [(js "protocolVersion", JStr SESSIONLESS_PROTOCOL_VERSION); (js "supportedVersions", version_list supportedVersions);
                 (js "capabilities", SERVER_CAPABILITIES); (js "serverInfo", SERVER_INFO);
                 (js "instructions", JStr INSTRUCTIONS)])
  else if named "subscriptions/listen"%string then
    if negb sessionless then not_found req "subscriptions/listen (requires MCP-Protocol-Version header)"
    else ret (okResponse id
                [(js "acknowledged", JBool true); (js "subscriptions", extractSubscriptions (req_params req));
                 (js "implementationStatus", JStr (js "stub"))])
  else if named "tools/list"%string then tools_list id sessionless
  else if named "tools/call"%string then callTool x req lease
  else if named "ping"%string then if sessionless then not_found req "ping" else ret (okResponse id [])
  else let* t := or_throw (text_or_undefined (req_method req)) in
       ret (errResponse id (code (-32601)) (js "method not found: " ++ t) None).

(** ** Receipts *)

Definition origins_of (bs : list (ToolBackend B)) (b : B) (req : Json) : Origin.OriginSet :=
  if negb (is_text (js "tools/call") (req_method req)) then []
  else
    match get_prop (nullish (req_params req) (JObj [])) (js "name") with
    | Some (JStr ((_ :: _) as nm)) =>
        match find_backend bs b (Some (JStr nm)) with
        | Some (Some x) => default [] (contentOrigin x)
        | _ => []
        end
    | _ => []
    end.

(** The body is parsed once more; a failure claims no origins. *)
Definition originsForRequest (b : B) (bodyText : jsstr) : Origin.OriginSet :=
  match json_parse bodyText with Ok req => origins_of backends b req | Throw _ => [] end.

Definition requestCanon (r : Lease.Request) (bodyText : jsstr) (l : Lease.VerifiedLease) : bytes :=
  Lease.canonicalRequestBytes (Lease.r_method r) (Lease.r_url r) (Lease.v_serverTs l) (Lease.v_nonce l) bodyText.

Definition buildReceiptContext (env : Env) (x : surroundings) (r : Lease.Request) (bodyText : jsstr) (l : Lease.VerifiedLease) :=
  ReceiptEmit.buildEmissionContext authority (e_receipts env) (nowMs x) (requestCanon r bodyText l) (Lease.v_nonce l).

Definition with_origins (o : Origin.OriginSet) (c : ReceiptEmit.ReceiptEmissionContext) : ReceiptEmit.ReceiptEmissionContext :=
  ReceiptEmit.mkCtx (ReceiptEmit.ctx_nowMs c) (ReceiptEmit.ctx_requestCanon c) (ReceiptEmit.ctx_nonce c)
    (ReceiptEmit.ctx_sign c) (ReceiptEmit.ctx_actorFp c) (ReceiptEmit.ctx_epoch c) (Some o).

(** An exception on the way is caught, and the response without a receipt is answered, whether
    or not its body was read before. *)
Definition receipted (env : Env) (x : surroundings) (r : Lease.Request) (bodyText : jsstr) (l : Lease.VerifiedLease)
    (base : ReceiptEmit.Response) : W answer := fun w =>
  let run :=
    let* ctx := buildReceiptContext env x r bodyText l in
    match ctx with
    | None => ret None
    | Some c =>
        let* r := ReceiptEmit.attachReceipt authority base (with_origins (originsForRequest (w_backends w) bodyText) c) in
        ret (Some r)
    end in
  let '(e, out) := run (ReceiptEmit.mkEmitter None (w_authority w) false) in
  (mkWorld (w_cache w) (w_objects w) (w_roots w) (w_backends w) (ReceiptEmit.remote_state e),
   match out with
   | Ok (Some r') => Ok (mkAnswer r' false)
   | Throw ReceiptEmit.OutsideModel => Throw OutsideModel
   | _ => Ok (mkAnswer base (ReceiptEmit.body_used e))
   end).

(** Does the receipt of a response fail once there is a context for it?  By then the body is read. *)
Definition receipt_fails (env : Env) (x : surroundings) (r : Lease.Request) (bodyText : jsstr) (l : Lease.VerifiedLease)
    (base : ReceiptEmit.Response) (b : B) (s : R) : bool :=
  match buildReceiptContext env x r bodyText l (ReceiptEmit.mkEmitter None s false) with
  | (e, Ok (Some c)) =>
      match (ReceiptEmit.attachReceipt authority base (with_origins (originsForRequest b bodyText) c) e).2 with
      | Ok _ => false
      | Throw _ => true
      end
  | _ => false
  end.

(** ** The route *)

Definition json_response (status : Z) (allowOrigin : jsstr) (body : JsonRpcResponse) : ReceiptEmit.Response :=
  ReceiptEmit.mkResponse status
    (<[js "access-control-allow-origin" := allowOrigin]> {[ js "content-type" := js "application/json" ]})
    (utf8_encode (json_stringify (response_json body))).

Definition fresh (r : ReceiptEmit.Response) : answer := mkAnswer r false.

(** What is refused before the gate is asked. *)
Definition refusal (header : jsstr -> option jsstr) (req : Json) : option JsonRpcResponse :=
  match validateMcpHeaders header req with
  | Some e => Some e
  | None =>
      match header PROTOCOL_VERSION_HEADER with
      | Some v => validateSessionlessRequest supportedVersions req v
      | None => None
      end
  end.

Definition verify_args (r : Lease.Request) (bodyText : jsstr) (req : Json) : Lease.verify_args :=
  Lease.mkArgs r bodyText (req_method req) (req_params req) None.

Definition admitted (env : Env) (x : surroundings) (r : Lease.Request) (bodyText : jsstr) (req : Json)
    (allowOrigin : jsstr) (lease : option Lease.VerifiedLease) : W answer :=
  let sessionless := bool_decide (is_Some (Lease.r_header r PROTOCOL_VERSION_HEADER)) in
  let* out := dispatch x req lease sessionless in
  let* out := or_throw (finished sessionless out) in
  let base := json_response 200 allowOrigin out in
  match lease with
  | Some l => receipted env x r bodyText l base
  | None => ret (fresh base)
  end.

(** A [null] body throws at the first property that is read of it, before the gate. *)
Definition handlePost (env : Env) (x : surroundings) (r : Lease.Request) (bodyText : jsstr) : W answer :=
  let allowOrigin := Edge.pickAllowedOrigin (Lease.r_header r (js "origin")) (ALLOWED_ORIGINS env) in
  match json_parse bodyText with
  | Throw Unrepresentable => throw OutsideModel
  | Throw _ => ret (fresh (json_response 400 allowOrigin (errResponse (Some JNull) (code (-32700)) (js "parse error") None)))
  | Ok req =>
      if is_null req then throw TypeErrorThrew else
      match refusal (Lease.r_header r) req with
      | Some e => ret (fresh (json_response 400 allowOrigin e))
      | None =>
          let* verdict := gate (Lease.gateAndVerify (on_verify x) (e_gate env) (nowMs x) (clock x) (notme x) (verify_args r bodyText req) false) in
          match verdict with
          | Lease.G_reject c message =>
              ret (fresh (json_response (Lease.http_status c) allowOrigin (errResponse (req_id req) (code c) (lease_text message) None)))
          | Lease.G_pass l => admitted env x r bodyText req allowOrigin (Some l)
          | Lease.G_off => admitted env x r bodyText req allowOrigin None
          end
      end
  end.

(** The event stream of a GET: its first event; comments follow every [KEEPALIVE_MS]. *)
Definition KEEPALIVE_MS : Z := 15000.
Definition handleSse (env : Env) (r : Lease.Request) : ReceiptEmit.Response :=
  let init := okResponse (Some (JNum 0))
                [(js "protocolVersion", JStr SESSIONLESS_PROTOCOL_VERSION); (js "capabilities", SERVER_CAPABILITIES)] in
  ReceiptEmit.mkResponse 200
    (<[js "access-control-allow-origin" := Edge.pickAllowedOrigin (Lease.r_header r (js "origin")) (ALLOWED_ORIGINS env)]>
     (<[js "connection" := js "keep-alive"]> (<[js "cache-control" := js "no-cache"]>
      {[ js "content-type" := js "text/event-stream" ]})))
    (utf8_encode (js "data: " ++ json_stringify (response_json init) ++ [10; 10])).

Definition matches (pathname : jsstr) : bool := bool_decide (pathname = js "/mcp").

Definition handle (env : Env) (x : surroundings) (r : Lease.Request) (bodyText : jsstr) : W answer :=
  if bool_decide (Lease.r_method r = js "GET") then ret (fresh (handleSse env r))
  else if bool_decide (Lease.r_method r = js "POST") then handlePost env x r bodyText
  else ret (fresh (ReceiptEmit.mkResponse 405 {[ js "content-type" := js "text/plain;charset=UTF-8" ]}
                     (utf8_encode (js "method not allowed")))).

(** ** Facts *)

(** What a rejected request must not touch: everything but the bundle cache and the trust
    store, which the gate itself writes. *)
Definition work (w : world B R) :=
  (BeadCreate.w_blobs (w_objects w), BeadCreate.w_beads (w_objects w), w_roots w, w_backends w, w_authority w).

Definition verdict (env : Env) (x : surroundings) (r : Lease.Request) (bodyText : jsstr) (req : Json) : W Lease.GateVerdict :=
  gate (Lease.gateAndVerify (on_verify x) (e_gate env) (nowMs x) (clock x) (notme x) (verify_args r bodyText req) false).

Lemma gate_work {A} (m : M Lease.world Lease.exn A) w : work (gate m w).1 = work w.
Proof. unfold gate, work. by destruct (m _) as [g r]. Qed.

(** The request as it comes before the gate. *)
Definition presented (r : Lease.Request) (bodyText : jsstr) (req : Json) : Prop :=
  json_parse bodyText = Ok req /\ is_null req = false /\ refusal (Lease.r_header r) req = None.

Definition lease_in (v : Lease.GateVerdict) : option (option Lease.VerifiedLease) :=
  match v with Lease.G_off => Some None | Lease.G_pass l => Some (Some l) | Lease.G_reject _ _ => None end.

Lemma handlePost_cases env x r bodyText w :
  let res := handlePost env x r bodyText w in
  (exists req v lease w1, presented r bodyText req /\ verdict env x r bodyText req w = (w1, Ok v) /\ lease_in v = Some lease /\
     res = admitted env x r bodyText req (Edge.pickAllowedOrigin (Lease.r_header r (js "origin")) (ALLOWED_ORIGINS env)) lease w1) \/
  (work res.1 = work w /\ forall a, res.2 = Ok a -> exists s o e,
     a = fresh (json_response s o e) /\ 400 <= s /\ (forall i l, e <> okResponse i l)).
Proof.
  cbv zeta. unfold handlePost. destruct (json_parse bodyText) as [req|e] eqn:Ep.
  2:{ right. destruct e; cbn; (split; [done|]); intros a [= <-]; by eexists _, _, _. }
  destruct (is_null req) eqn:Hn; [by right|].
  destruct (refusal (Lease.r_header r) req) as [e|] eqn:Er.
  { right. split; [done|]. intros a [= <-]. eexists _, _, _. split; [done|]. split; [lia|].
    unfold refusal, validateMcpHeaders, validateSessionlessRequest, mismatch in Er. intros i l ->. repeat case_match; first [discriminate Er|done|congruence]. }
  unfold bind. fold (verdict env x r bodyText req).
  pose proof (gate_work (Lease.gateAndVerify (on_verify x) (e_gate env) (nowMs x) (clock x) (notme x) (verify_args r bodyText req) false) w) as Hw.
  fold (verdict env x r bodyText req) in Hw. destruct (verdict env x r bodyText req w) as [w1 [v|e]] eqn:Ev; [|by right].
  destruct v as [|l|c m].
  - left. by exists req, Lease.G_off, None, w1.
  - left. by exists req, (Lease.G_pass l), (Some l), w1.
  - right. split; [done|]. intros a [= <-]. eexists _, _, _. split; [done|]. split; [|done].
    unfold Lease.http_status. repeat case_match; lia.
Qed.

(** *** Roots *)

Definition other_roots (p : jsstr) (w w' : world B R) : Prop := forall q : jsstr, q <> p -> w_roots w' !! q = w_roots w !! q.
#[local] Instance other_roots_preorder p : PreOrder (other_roots p).
Proof. split; [by intros w q|]. intros a b c Hab Hbc q Hq. by rewrite Hbc, Hab. Qed.

Lemma or_throw_roots {A} (p : jsstr) (o : option A) : keeps (other_roots p) (or_throw o).
Proof. by destruct o. Qed.
Lemma on_backends_roots {A} (p : jsstr) (f : RootsStore -> B -> B * A) : keeps (other_roots p) (on_backends f).
Proof. intros w. unfold on_backends. by destruct (f _ _). Qed.
Lemma on_objects_roots {A} (p : jsstr) (m : M BeadCreate.world BeadCreate.exn A) : keeps (other_roots p) (on_objects m).
Proof. intros w. unfold on_objects. by destruct (m _). Qed.
Lemma on_roots_roots p f :
  (forall s (q : jsstr), q <> p -> f s !! q = s !! q) -> keeps (other_roots p) (on_roots f : W unit).
Proof. intros Hf w q Hq. by apply Hf. Qed.
#[local] Hint Resolve or_throw_roots on_backends_roots on_objects_roots : keeps.

Lemma capture_roots (p : jsstr) (cap inline : option Json) (s : RootsStore) (q : jsstr) : q <> p -> captureRootsFromInitialize p cap inline s !! q = s !! q.
Proof.
  intros Hq. unfold captureRootsFromInitialize, setRoots, setCapability.
  repeat case_match; rewrite ?lookup_insert_ne by done; done.
Qed.

Lemma clear_roots (p : jsstr) (s : RootsStore) (q : jsstr) : q <> p -> clearRoots p s !! q = s !! q.
Proof. intros Hq. unfold clearRoots. by rewrite lookup_delete_ne. Qed.

Definition peer_of (lease : option Lease.VerifiedLease) : jsstr := from_option Lease.v_peerFp ANONYMOUS_PEER lease.

Lemma dispatch_roots x req lease sl : keeps (other_roots (peer_of lease)) (dispatch x req lease sl).
Proof.
  unfold dispatch, tools_list, callTool, create_bead, invoke_backend, initialize, not_found, fanOutRootsListChanged.
  walk; apply on_roots_roots; auto using capture_roots, clear_roots.
Qed.

Lemma receipted_keeps env x r bt l base w : (receipted env x r bt l base w).1 = mkWorld (w_cache w) (w_objects w) (w_roots w) (w_backends w)
  (w_authority (receipted env x r bt l base w).1).
Proof. unfold receipted. cbv zeta. by destruct (bind _ _ _) as [e out]. Qed.

Lemma admitted_roots env x r bt req o lease : keeps (other_roots (peer_of lease)) (admitted env x r bt req o lease).
Proof.
  unfold admitted. apply keeps_bind; [apply _|apply dispatch_roots|intros out].
  apply keeps_bind; [apply _|apply or_throw_roots|intros out'].
  destruct lease as [l|]; [|walk]. intros w q Hq. by rewrite receipted_keeps.
Qed.

(** *** The listing *)

Lemma first_of_name_in seen ts t :
  t ∈ first_of_name seen ts <->
  exists l1 l2, ts = l1 ++ t :: l2 /\ t_name t ∉ map t_name l1 /\ t_name t ∉ seen.
Proof.
  revert seen. induction ts as [|u ts IH]; intros seen; cbn [first_of_name].
  - split; [by intros ?%not_elem_of_nil|]. intros (l1 & l2 & E & _). by destruct l1.
  - assert (Hsplit : forall P : Prop, (exists l1 l2, u :: ts = l1 ++ t :: l2 /\ t_name t ∉ map t_name l1 /\ P) <->
      (u = t /\ P) \/ (t_name t <> t_name u /\ exists l1 l2, ts = l1 ++ t :: l2 /\ t_name t ∉ map t_name l1 /\ P)).
    { intros P. split.
      - intros (l1 & l2 & E & Hn & HP). destruct l1 as [|v l1]; [left; by injection E as -> ->|].
        injection E as <- ->. cbn [map] in Hn. apply not_elem_of_cons in Hn as [? ?]. right. split; [done|]. by exists l1, l2.
      - intros [[-> HP]|(Hne & l1 & l2 & -> & Hn & HP)]; [exists [], ts; split; [done|]; split; [apply not_elem_of_nil|done]|].
        exists (u :: l1), l2. split; [done|]. split; [by apply not_elem_of_cons|done]. }
    rewrite Hsplit. destruct (bool_decide_reflect (t_name u ∈ seen)) as [Hin|Hin].
    + rewrite IH. split; [intros (l1 & l2 & ? & ? & Hs); right; split; [by intros E; rewrite E in Hs|eauto 6]|].
      intros [[-> Hs]|(_ & ?)]; [done|eauto 6].
    + rewrite elem_of_cons, IH. split.
      * intros [->|(l1 & l2 & -> & Hn & Hs)]; [by left|]. apply not_elem_of_cons in Hs as [? ?]. right. eauto 8.
      * intros [[-> Hs]|(Hne & l1 & l2 & -> & Hn & Hs)]; [by left|]. right. exists l1, l2. rewrite not_elem_of_cons. done.
Qed.

Lemma first_of_name_nodup seen ts : NoDup (map t_name (first_of_name seen ts)).
Proof.
  revert seen. induction ts as [|u ts IH]; intros seen; cbn [first_of_name]; [constructor|].
  case_bool_decide; [apply IH|]. cbn [map]. constructor; [|apply IH].
  intros (t & E & (l1 & l2 & _ & _ & Hs)%first_of_name_in)%list_elem_of_fmap. apply not_elem_of_cons in Hs as [? _]. done.
Qed.

Definition advertised (b : B) : list McpTool := concat (map (fun x => tools x b) backends).

(** A listing has every advertised name once, in the order of the names, and describes it as
    the first backend that advertises it does. *)
Theorem tools_listed b :
  StronglySorted (fun s t => unit_le (t_name s) (t_name t) = true) (allTools backends b) /\
  NoDup (map t_name (allTools backends b)) /\
  forall t, t ∈ allTools backends b <->
    exists l1 l2, advertised b = l1 ++ t :: l2 /\ t_name t ∉ map t_name l1.
Proof.
  unfold allTools. set (l := first_of_name _ _).
  assert (Hp : sort_by tool_le l ≡ₚ l) by apply sort_by_perm.
  split; [apply (sort_by_sorted tool_le)|].
  - intros s t. apply unit_le_total.
  - intros s t u. apply unit_le_trans.
  - split; [rewrite Hp; apply first_of_name_nodup|]. intros t. rewrite Hp. unfold l. rewrite first_of_name_in.
    unfold advertised. split; [intros (l1 & l2 & ? & ? & _); eauto|]. intros (l1 & l2 & ? & ?). exists l1, l2.
    split; [done|]. split; [done|]. apply not_elem_of_nil.
Qed.

(** The lifetime of a listing is no longer than what any backend declares. *)
Lemma min_ttl_spec ts : (ts = [] /\ min_ttl ts = 0) \/ (min_ttl ts ∈ ts /\ Forall (fun t => min_ttl ts <= t) ts).
Proof.
  destruct ts as [|t ts]; [by left|right]. cbn [min_ttl]. revert t. induction ts as [|u ts IH]; intros t; cbn [foldl].
  - rewrite list_elem_of_singleton, Forall_singleton. split; [done|lia].
  - destruct (IH (Z.min t u)) as [Hin Hle]. rewrite !Forall_cons in *. destruct Hle as [Hm Hle].
    split; [|split; [lia|split; [lia|done]]].
    apply elem_of_cons in Hin as [E|Hin]; [|by rewrite !elem_of_cons; auto].
    rewrite E. destruct (Z.min_dec t u) as [-> | ->]; rewrite !elem_of_cons; auto.
Qed.

(** *** Admission *)

(** C20: Nothing happens for a request that is not admitted.  With the gate enforced, a POST either
    was presented well and accepted by the lease pipeline, and then it changes the roots of the
    lease's own peer alone; or it leaves the blobs, the bead stores, the roots, the backends and
    the receipt authority untouched, and what it is answered, if anything, is an error without
    a receipt. *)
Theorem posts_are_admitted env x r bodyText w w' res :
  CaBundle.leaseEnforced (e_gate env) = true ->
  handlePost env x r bodyText w = (w', res) ->
  (exists req lease bundle store, presented r bodyText req /\
     Lease.verifyAndUpsertLease (on_verify x) (verify_args r bodyText req) bundle (nowMs x) (BeadCreate.w_trust (w_objects w))
       = (store, Ok (inr lease)) /\
     forall q : jsstr, q <> Lease.v_peerFp lease -> w_roots w' !! q = w_roots w !! q) \/
  (work w' = work w /\ forall a, res = Ok a ->
     400 <= ReceiptEmit.r_status (a_response a) /\
     ReceiptEmit.r_headers (a_response a) !! to_lower ReceiptWire.INTERLACE_RECEIPT_HEADER = None).
Proof.
  intros Hon E. pose proof (handlePost_cases env x r bodyText w) as Hc. cbv zeta in Hc. rewrite E in Hc. cbn [fst snd] in Hc.
  destruct Hc as [(req & v & lease & w1 & Hp & Hv & Hl & Hres)|(Hw & Ha)].
  - left. unfold verdict, gate in Hv. destruct (Lease.gateAndVerify _ _ _ _ _ _ _ _) as [g r0] eqn:Eg.
    destruct r0 as [v0|]; [|done]. injection Hv as <- <-.
    destruct (Lease.gate_verdicts _ _ _ _ _ _ _ _ _ _ Eg) as (Hoff & Hpass & _).
    destruct v0 as [|l|c m]; [destruct (Hoff eq_refl); congruence| |done]. injection Hl as <-.
    destruct (Hpass l eq_refl) as (_ & bundle & _ & Hver).
    exists req, l, bundle, (Lease.w_store g). split; [done|]. split; [done|]. intros q Hq.
    assert (Hr : forall o w1, admitted env x r bodyText req o (Some l) w1 = (w', res) -> w_roots w' !! q = w_roots w1 !! q).
    { intros o w1 E1. pose proof (admitted_roots env x r bodyText req o (Some l) w1 q Hq) as Hr. by rewrite E1 in Hr. }
    exact (Hr _ _ (eq_sym Hres)).
  - right. split; [done|]. intros a Er. destruct (Ha a Er) as (s & o & e & -> & Hs & _). split; [done|].
    cbn [fresh a_response json_response ReceiptEmit.r_headers]. by rewrite lookup_insert_ne, lookup_singleton_ne.
Qed.

(** *** Tool calls *)

Lemma receipted_body env x r bt l base w :
  (receipted env x r bt l base w).2 = Throw OutsideModel \/
  exists a, (receipted env x r bt l base w).2 = Ok a /\
    ReceiptEmit.r_status (a_response a) = ReceiptEmit.r_status base /\
    let lost := receipt_fails env x r bt l base (w_backends w) (w_authority w) in
    sent_body a = (if lost then None else Some (ReceiptEmit.r_body base)) /\ (lost = true -> a_response a = base).
Proof.
  pose proof (ReceiptEmit.buildEmissionContext_body authority (e_receipts env) (nowMs x) (requestCanon r bt l) (Lease.v_nonce l)
    (ReceiptEmit.mkEmitter None (w_authority w) false)) as Hu.
  fold (buildReceiptContext env x r bt l) in Hu. unfold receipted, receipt_fails, bind, ret. cbv beta zeta.
  destruct (buildReceiptContext env x r bt l _) as [e [[c|]|x0]]; cbn [fst ReceiptEmit.body_used] in Hu.
  - destruct (ReceiptEmit.attachReceipt _ _ _ e) as [e1 [r1|x1]] eqn:Ea; cbn [snd].
    + right. eexists. split; [done|]. apply ReceiptEmit.attachReceipt_body in Ea as [Es Eb]. unfold sent_body. cbn [a_response a_used].
      split; [exact Es|]. split; [by f_equal|done].
    + apply ReceiptEmit.attachReceipt_throws in Ea. destruct x1; try (by left); right; eexists; (split; [done|]); unfold sent_body; cbn [a_response a_used];
        by rewrite Ea.
  - right. eexists. split; [done|]. unfold sent_body. cbn [a_response a_used]. by rewrite Hu.
  - cbn [snd]. destruct x0; try (by left); right; eexists; (split; [done|]); unfold sent_body; cbn [a_response a_used]; by rewrite Hu.
Qed.

Lemma text_content_finished sl id out :
  exists f, finished sl (invocation_response id out) = Some f.
Proof. destruct out as [v| |]; [destruct sl; by eexists|by eexists..]. Qed.

Lemma is_text_eq s v : is_text s v = true <-> v = Some (JStr s).
Proof. destruct v as [[]|]; cbn [is_text]; rewrite ?bool_decide_eq_true; naive_solver. Qed.

Lemma dispatch_call x req lease sl w params nm b b' out :
  req_method req = Some (JStr (js "tools/call")) ->
  req_params req = Some params -> get_prop params (js "name") = Some (JStr nm) ->
  nm <> js "bead_create" \/ lease = None ->
  find_backend backends (w_backends w) (Some (JStr nm)) = Some (Some b) ->
  invoke b (Some (JStr nm)) (nullish (get_prop params (js "arguments")) (JObj [])) (w_roots w) (peer_of lease) (w_backends w) = (b', out) ->
  dispatch x req lease sl w =
    (mkWorld (w_cache w) (w_objects w) (w_roots w) b' (w_authority w), Ok (invocation_response (req_id req) out)).
Proof.
  intros Em Ep En Hb Ef Ei. unfold dispatch. rewrite Em. cbn -[callTool js json_stringify].
  change (js "tools/call" ) with (js "tools/call"). repeat (rewrite bool_decide_false by (vm_compute; discriminate)).
  rewrite bool_decide_true by done. unfold callTool. rewrite Ep. destruct params as [| | | | |m]; try done. cbn [present].
  rewrite En. assert (Hl : (if is_text (js "bead_create") (Some (JStr nm)) then lease else None) = None).
  { destruct (is_text _ _) eqn:Et; [|done]. apply is_text_eq in Et as [= ->]. by destruct Hb. }
  rewrite Hl. unfold bind, read, or_throw. rewrite Ef. cbn [ret]. unfold ret, invoke_backend, bind, on_backends.
  unfold peer_of in Ei. by rewrite Ei.
Qed.

(** C21: A tool call reaches one backend as its caller.  When an admitted POST calls a tool by name,
    the first backend that claims the name is invoked once, with the arguments of the request,
    the roots store and the peer of the lease (the handoff takes bead_create instead when there
    is a lease); the rest of the state but the caches and the receipt authority stays; and the
    answer has status 200 and sends the text of the backend's answer or error, with or without a
    receipt.  There is one exception: when there is a lease and a context for the receipt, and making the receipt
    fails, the body has been read already, and the answer, of status 200 and without a receipt, has
    none to send.  [OutsideModel] is an authority that answers nonsense to a retry. *)
Theorem tool_call_answered env x r bodyText w req v lease w1 params nm b b' out :
  presented r bodyText req -> verdict env x r bodyText req w = (w1, Ok v) -> lease_in v = Some lease ->
  req_method req = Some (JStr (js "tools/call")) ->
  req_params req = Some params -> get_prop params (js "name") = Some (JStr nm) ->
  nm <> js "bead_create" \/ lease = None ->
  find_backend backends (w_backends w) (Some (JStr nm)) = Some (Some b) ->
  invoke b (Some (JStr nm)) (nullish (get_prop params (js "arguments")) (JObj [])) (w_roots w) (peer_of lease) (w_backends w) = (b', out) ->
  exists f w' res, handlePost env x r bodyText w = (w', res) /\
    w_backends w' = b' /\ w_roots w' = w_roots w /\ w_objects w' = w_objects w1 /\
    finished (bool_decide (is_Some (Lease.r_header r PROTOCOL_VERSION_HEADER))) (invocation_response (req_id req) out) = Some f /\
    (res = Throw OutsideModel \/
     exists a, res = Ok a /\ ReceiptEmit.r_status (a_response a) = 200 /\
       let base := json_response 200 (Edge.pickAllowedOrigin (Lease.r_header r (js "origin")) (ALLOWED_ORIGINS env)) f in
       let lost := match lease with Some l => receipt_fails env x r bodyText l base b' (w_authority w1) | None => false end in
       sent_body a = (if lost then None else Some (utf8_encode (json_stringify (response_json f)))) /\
       (lost = true -> ReceiptEmit.r_headers (a_response a) !! to_lower ReceiptWire.INTERLACE_RECEIPT_HEADER = None)).
Proof.
  intros (Ep & Hn & Hr) Hv Hl Em Epar En Hb Ef Ei.
  pose proof (gate_work (Lease.gateAndVerify (on_verify x) (e_gate env) (nowMs x) (clock x) (notme x) (verify_args r bodyText req) false) w) as Hw.
  fold (verdict env x r bodyText req) in Hw. rewrite Hv in Hw. unfold work in Hw. cbn [fst] in Hw. injection Hw as Hw1 Hw2 Hw3 Hw4 Hw5.
  destruct (text_content_finished (bool_decide (is_Some (Lease.r_header r PROTOCOL_VERSION_HEADER))) (req_id req) out) as [f Hf].
  exists f. set (allow := Edge.pickAllowedOrigin (Lease.r_header r (js "origin")) (ALLOWED_ORIGINS env)).
  assert (Eh : handlePost env x r bodyText w = admitted env x r bodyText req allow lease w1).
  { unfold handlePost. rewrite Ep, Hn, Hr. fold allow. unfold bind. fold (verdict env x r bodyText req). rewrite Hv.
    destruct v; [by injection Hl as <-|by injection Hl as <-|done]. }
  rewrite Eh. unfold admitted. unfold bind at 1.
  rewrite (dispatch_call x req lease _ w1 params nm b b' out) by (rewrite ?Hw3, ?Hw4; done).
  unfold bind at 1. rewrite Hf. unfold or_throw, ret at 1.
  destruct lease as [l|].
  - set (w2 := mkWorld _ _ _ _ _). set (base := json_response 200 allow f).
    exists (receipted env x r bodyText l base w2).1, (receipted env x r bodyText l base w2).2.
    rewrite receipted_keeps. cbn [w_backends w_roots w_objects]. split; [by rewrite <- receipted_keeps; destruct (receipted _ _ _ _ _ _ _)|].
    split; [done|]. split; [done|]. split; [done|]. split; [done|].
    destruct (receipted_body env x r bodyText l base w2) as [?|(a & Ea & Hs & Hbd & Hlost)]; [by left|right]. exists a.
    split; [done|]. split; [by rewrite Hs|]. cbv zeta. split; [exact Hbd|]. intros ->%Hlost. apply lookup_insert_None.
    split; [|by vm_compute]. apply lookup_singleton_ne. by vm_compute.
  - eexists _, _. split; [reflexivity|]. cbn [w_backends w_roots w_objects]. split; [done|]. split; [done|]. split; [done|].
    split; [done|]. right. by eexists.
Qed.

(** *** The request hash *)

(** The receipt of an admitted request commits to bytes that the client signed only if the
    client's timestamp is the server's clock to the millisecond: the bytes are rebuilt with the
    server's time. *)
Lemma receipt_names_server_clock bundle x r bodyText req s s' l h :
  Lease.verifyAndUpsertLease (on_verify x) (verify_args r bodyText req) bundle (nowMs x) s = (s', Ok (inr l)) ->
  Lease.parseAuthHeaders r = Ok h ->
  well_formed (Lease.r_method r) = true -> well_formed (Lease.r_url r) = true -> well_formed bodyText = true ->
  Lease.LF ∉ Lease.r_method r -> Lease.LF ∉ Lease.r_url r ->
  requestCanon r bodyText l =
    Lease.canonicalRequestBytes (Lease.r_method r) (Lease.r_url r) (Lease.h_ts h) (Lease.h_nonce h) bodyText <->
  Lease.h_ts h = nowMs x.
Proof.
  intros Hv Hh Wm Wu Wb Lm Lu.
  destruct (Lease.pipeline_cases (on_verify x) (verify_args r bodyText req) bundle (nowMs x) s) as [(q & Eq & Hq)|(h' & c & ep & pf & sc & Ha & Eq)];
    rewrite Eq in Hv.
  { injection Hv as _ ->. by destruct (Hq l). }
  destruct Ha as [Hh' _ _ _ _ _ _ _]. cbn [verify_args Lease.a_req] in Hh'. rewrite Hh in Hh'. injection Hh' as <-.
  destruct (Lease.advance_spec (nowMs x) h c ep pf sc s) as [st [_ Ea]]. rewrite Ea in Hv. destruct (on_verify x); [|done..].
  destruct (TrustStore.seen_nonces s !! _); [done|]. injection Hv as _ <-. unfold requestCanon.
  cbn [Lease.lease_of Lease.v_serverTs Lease.v_nonce]. split; [|by intros ->].
  intros E. by apply Lease.canonicalRequestBytes_inj in E as (_ & _ & E & _).
Qed.

End route.

(** ** Examples *)

(** A backend whose state is the list of names it was called with; it answers its arguments. *)
Definition demo_backend : ToolBackend (list jsstr) :=
  mkBackend (fun _ => [mkTool (js "echo_b") []; mkTool (js "echo_a") []])
    (fun _ nm => match nm with Some (JStr s) => Some (starts_with (js "echo_") s) | _ => None end)
    (fun nm args _ peer s => (match nm with Some (JStr n) => n :: peer :: s | _ => s end, Returned (Some args)))
    None (Some (fun _ => Some 60000)) None None.

Definition demo_env (mode : string) : Env :=
  mkEnv (CaBundle.mkEnv (Some (js mode)) None None None) (ReceiptEmit.mkEnv false None None None) None.
Definition demo_request (headers : list (jsstr * jsstr)) : Lease.Request :=
  Lease.mkRequest (js "POST") (js "https://c/mcp") (fun k => assoc k headers).
Definition demo_bead : BeadCreate.surroundings :=
  BeadCreate.mkSurroundings None false [] BeadCreate.Threw Delivered Delivered Delivered Delivered Delivered [] [] true.
Definition demo_x : surroundings := mkSurroundings 1000 1000 CaBundle.NetworkThrew Delivered demo_bead.
Definition demo_world : world (list jsstr) Z :=
  mkWorld None (BeadCreate.mkWorld (BlobRefStore.mkDO BlobRefStore.empty None) ∅ TrustStore.empty false) ∅ [] 0.

Section demo.
#[local] Instance demo_hash : Sha256 := demo_sha256.
#[local] Instance demo_hash3 : Blake3 := BlobRefStore.demo_blake3.
#[local] Instance demo_verifier : Ed25519 := fun _ _ _ => Some true.
#[local] Instance demo_signer : Ed25519Sign := ReceiptEmit.demo_sign.
#[local] Instance demo_paths : Lease.CertPath := Lease.demo_certpath.
#[local] Instance demo_cbor : CaBundle.CborX := CaBundle.demo_cborx.

(** Quotes are written as apostrophes. *)
Definition dq (s : string) : jsstr := map (fun c => if c =? 39 then 34 else c) (js s).

Definition demo_post (env : Env) (headers : list (jsstr * jsstr)) (body : string) : world (list jsstr) Z * result exn answer :=
  handlePost [demo_backend] [SESSIONLESS_PROTOCOL_VERSION] ReceiptEmit.demo_notme (fun _ => []) (fun _ => [])
    env demo_x (demo_request headers) (dq body) demo_world.

Definition post_status (p : world (list jsstr) Z * result exn answer) : option Z :=
  match p.2 with Ok a => Some (ReceiptEmit.r_status (a_response a)) | Throw _ => None end.
Definition post_body (p : world (list jsstr) Z * result exn answer) : bytes :=
  match p.2 with Ok a => ReceiptEmit.r_body (a_response a) | Throw _ => [] end.
Definition sessionless : list (jsstr * jsstr) := [(PROTOCOL_VERSION_HEADER, SESSIONLESS_PROTOCOL_VERSION)].

Definition demo_call : string := "{'jsonrpc':'2.0','id':7,'method':'tools/call','params':{'name':'echo_a','arguments':{'k':1}}}".

(** A production deployment without a trust anchor refuses the call. *)
Lemma posts_are_admitted_witness :
  let p := demo_post (demo_env "prod") [] demo_call in
  post_status p = Some 503 /\ work p.1 = work demo_world.
Proof.
  intros p. split; [vm_compute; reflexivity|].
  destruct (posts_are_admitted [demo_backend] [SESSIONLESS_PROTOCOL_VERSION] ReceiptEmit.demo_notme (fun _ => []) (fun _ => [])
    (demo_env "prod") demo_x (demo_request []) (dq demo_call) demo_world p.1 p.2) as [(req & l & bundle & s & _ & Hv & _)|[Hw _]].
  - vm_compute. reflexivity.
  - by apply surjective_pairing.
  - exfalso. unfold Lease.verifyAndUpsertLease, verify_args in Hv. cbn [Lease.a_req] in Hv.
    change (Lease.parseAuthHeaders (demo_request [])) with (@Throw Lease.AuthHeaderError Lease.ParsedAuthHeaders Lease.missing_authorization) in Hv.
    discriminate Hv.
  - exact Hw.
Defined.

Definition demo_params : Json := JObj [(js "name", JStr (js "echo_a")); (js "arguments", JObj [(js "k", JNum 1)])].
Definition demo_req : Json :=
  JObj [(js "jsonrpc", JStr (js "2.0")); (js "id", JNum 7); (js "method", JStr (js "tools/call")); (js "params", demo_params)].

Lemma tool_call_answered_witness :
  exists w' a, demo_post (demo_env "dev") [] demo_call = (w', Ok a) /\ w_backends w' = [js "echo_a"; ANONYMOUS_PEER] /\
    ReceiptEmit.r_status (a_response a) = 200.
Proof.
  destruct (tool_call_answered [demo_backend] [SESSIONLESS_PROTOCOL_VERSION] ReceiptEmit.demo_notme (fun _ => []) (fun _ => [])
    (demo_env "dev") demo_x (demo_request []) (dq demo_call) demo_world demo_req Lease.G_off None demo_world demo_params (js "echo_a")
    demo_backend [js "echo_a"; ANONYMOUS_PEER] (Returned (Some (JObj [(js "k", JNum 1)]))))
    as (f & w' & res & E & Hb & _ & _ & _ & Hr).
  - split; [vm_compute; reflexivity|]. split; vm_compute; reflexivity.
  - vm_compute. reflexivity.
  - reflexivity.
  - reflexivity.
  - reflexivity.
  - reflexivity.
  - by right.
  - vm_compute. reflexivity.
  - vm_compute. reflexivity.
  - destruct Hr as [-> |(a & -> & Hs & _)]; [|by exists w', a].
    exfalso. assert (Hn : (demo_post (demo_env "dev") [] demo_call).2 <> Throw OutsideModel) by (vm_compute; discriminate).
    apply Hn. unfold demo_post. by rewrite E.
Defined.

Example demo_listing : post_body (demo_post (demo_env "dev") sessionless "{'id':1,'method':'tools/list'}") =
  utf8_encode (dq "{'jsonrpc':'2.0','id':1,'result':{'tools':[{'name':'echo_a'},{'name':'echo_b'}],'ttlMs':60000,'cacheScope':'private','resultType':'complete','_meta':{'io.modelcontextprotocol/serverInfo':{'name':'cloister','version':'0.1.0'}}}}").
Proof. vm_compute. reflexivity. Qed.

(** A call without parameters is an exception of the route, not a JSON-RPC error. *)
Example call_without_params_throws :
  (demo_post (demo_env "dev") [] "{'id':1,'method':'tools/call'}").2 = Throw TypeErrorThrew /\
  (demo_post (demo_env "dev") [] "null").2 = Throw TypeErrorThrew.
Proof. vm_compute. done. Qed.

Example header_mismatch :
  post_body (demo_post (demo_env "dev") [(MCP_NAME_HEADER, js "echo_b")] demo_call) =
  utf8_encode (dq "{'jsonrpc':'2.0','id':7,'error':{'code':-32020,'message':'HeaderMismatchError: Mcp-Name header \'echo_b\' disagrees with body \'echo_a\''}}").
Proof. vm_compute. reflexivity. Qed.
End demo.

End McpRoute.
