(* ===== verification/McpProxy.v ===== *)
(** The proxy backend (src/manifest/backends/mcp-proxy.ts, src/manifest/spec.ts): tools of an
    upstream MCP server behind one URL or service binding.

    The upstream is any function from the requests it has been sent so far to its next reply; a
    reply's body is a list of chunks.  One operation runs at a time.  The acceptance of an
    [initialize] response by the schema library is a parameter. *)
From S2P Require Import Prelude JsString Json JsonText JsConvert Origin McpRoute ReceiptStream.

Module McpProxy.
Import JsonText JsConvert.

(** ** The specification of a backend *)

Record McpToolSpec := mkToolSpec { s_name : jsstr; s_description : jsstr; inputSchemaJson : jsstr }.

Definition make_tool (n d : jsstr) (schema : Json) : McpRoute.McpTool :=
  McpRoute.mkTool n [(js "description", JStr d); (js "inputSchema", schema)].

Definition toolFromSpec (spec : McpToolSpec) : result json_error McpRoute.McpTool :=
  let? inputSchema := json_parse (inputSchemaJson spec) in
  Ok (make_tool (s_name spec) (s_description spec) inputSchema).

Fixpoint toolsFromSpecs (specs : list McpToolSpec) : result json_error (list McpRoute.McpTool) :=
  match specs with
  | [] => Ok []
  | s :: specs' => let? t := toolFromSpec s in let? ts := toolsFromSpecs specs' in Ok (t :: ts)
  end.

Inductive ProtocolMode := Current | Next | Auto.

(** The parsed tools, and what is unset as the empty value. *)
Record HttpForwardBackend := mkSpec {
  urlBinding : jsstr;
  assertedTools : list McpRoute.McpTool;
  dynamicTools : bool;
  stripPrefix : jsstr;
  requiresSession : bool;
  protocolMode : ProtocolMode;
  serviceBinding : jsstr;
  claims : list jsstr;
  handlesPrefix : jsstr;
}.

Definition normalizeProtocolMode (value : option jsstr) : ProtocolMode :=
  match value with
  | Some v => if bool_decide (v = js "next") then Next else if bool_decide (v = js "auto") then Auto else Current
  | None => Current
  end.

(** The environment: which names are service bindings, and the text variables. *)
Record Env := mkEnv { is_fetcher : jsstr -> bool; text_var : jsstr -> option jsstr }.

Inductive route := ByBinding | ByUrl (url : jsstr).

Definition resolveUpstream (spec : HttpForwardBackend) (env : Env) : option route :=
  if negb (bool_decide (serviceBinding spec = [])) && is_fetcher env (serviceBinding spec) then Some ByBinding
  else match text_var env (urlBinding spec) with Some ((_ :: _) as url) => Some (ByUrl url) | _ => None end.

Definition contentOrigin (spec : HttpForwardBackend) (env : Env) : Origin.OriginSet :=
  match resolveUpstream spec env with
  | Some ByBinding => [Origin.fetchedOrigin (js "cloister:service-binding/" ++ serviceBinding spec)]
  | Some (ByUrl url) => [Origin.fetchedOrigin url]
  | None => []
  end.

(** ** Requests and replies *)

Record post := mkPost { p_headers : list (jsstr * jsstr); p_body : Json }.

(** [broken] is the message of the error the body ends in. *)
Record response := mkResponse {
  status : Z;
  content_type : option jsstr;
  session_header : option jsstr;
  has_body : bool;
  chunks : list bytes;
  broken : option jsstr;
}.

Inductive reply := NetworkError (message : jsstr) | Reply (r : response).

Definition is_ok (r : response) : bool := (200 <=? status r) && (status r <? 300).

Definition text (r : response) : option jsstr :=
  match broken r with Some _ => None | None => Some (utf8_decode_lossy (concat (chunks r))) end.

(** ** Reading JSON-RPC messages *)

(** A decoder that lives as long as the stream; the byte order mark goes with its start. *)
Record decoder := mkDecoder { d_state : dec_state; d_started : bool }.

Fixpoint dec_run (st : dec_state) (bs : bytes) : list (option Z) * dec_state :=
  match bs with
  | [] => ([], st)
  | b :: bs' => let '(ev, st) := dec_step st (b2z b) in let '(evs, st) := dec_run st bs' in (ev ++ evs, st)
  end.

Definition decode (d : decoder) (bs : bytes) : jsstr * decoder :=
  let '(evs, st) := dec_run (d_state d) bs in
  let cs := map (default REPLACEMENT) evs in
  (utf16_all (if d_started d then cs else strip_bom cs),
   mkDecoder st (d_started d || negb (bool_decide (length cs = 0%nat)))).

(** [replace(/\r\n/g, "\n")] *)
Fixpoint crlf_to_lf (s : jsstr) : jsstr :=
  match s with
  | 13 :: ((10 :: _) as s') => crlf_to_lf s'
  | c :: s' => c :: crlf_to_lf s'
  | [] => []
  end.

Definition data_line (line : jsstr) : option jsstr :=
  if starts_with [58] line then None
  else if starts_with (js "data:") line then
    let v := drop 5 line in Some (if starts_with [32] v then drop 1 v else v)
  else None.

Definition extractSseData (record : jsstr) : option jsstr :=
  match omap data_line (split_on 10 record) with [] => None | parts => Some (join [10] parts) end.

(** What the reader yields; [Unrepresented] is a message with a number outside the model. *)
Inductive item := Item (v : Json) | Failed (message : jsstr) | Unrepresented.

Definition record_items (record : jsstr) : list item :=
  match extractSseData record with
  | None => []
  | Some payload =>
      match json_parse payload with
      | Ok v => [Item v]
      | Throw Unrepresentable => [Unrepresented]
      | Throw _ => []
      end
  end.

(** The complete records of a buffer, and the rest. *)
Definition flush (buf : jsstr) : list item * jsstr :=
  let '(records, rest) := ReceiptStream.split_blocks (crlf_to_lf buf) in
  (concat (map record_items records), rest).

Definition trailing (rest : jsstr) : list item :=
  match trim rest with [] => [] | record => record_items record end.

Fixpoint read_events (d : decoder) (buf : jsstr) (cs : list bytes) (end_ : option jsstr) : list item :=
  match cs with
  | c :: cs' =>
      let '(t, d) := decode d c in
      let '(items, rest) := flush (buf ++ t) in
      items ++ read_events d rest cs' end_
  | [] =>
      match end_ with
      | Some message => [Failed message]
      | None => let '(items, rest) := flush buf in items ++ trailing rest
      end
  end.

Definition single_body (t : option jsstr) : list item :=
  match t with
  | None | Some [] => []
  | Some t =>
      match json_parse t with
      | Ok (JArr l) => map Item l
      | Ok v => [Item v]
      | Throw Unrepresentable => [Unrepresented]
      | Throw _ => []
      end
  end.

Definition readJsonRpcStream (r : response) : list item :=
  if includes_str (js "text/event-stream") (to_lower (default [] (content_type r))) then
    if has_body r then read_events (mkDecoder Idle false) [] (chunks r) (broken r) else []
  else single_body (text r).

(** ** The backend's state *)

(** [Map] entries in insertion order; [sent] is the history of the upstream. *)
Record CacheMeta := mkMeta { ttlMs : option Z; cacheScope : option jsstr }.
Record proxy := mkProxy {
  derivedByUpstreamName : list (jsstr * McpRoute.McpTool);
  fetchedAt : Z;
  sessionId : option jsstr;
  sessionlessDowngraded : bool;
  upstreamCacheMeta : option CacheMeta;
  sent : list post;
}.

Definition initial : proxy := mkProxy [] 0 None false None [].

Inductive exn :=
  | JsonRpcError (code : option Json) (message : jsstr)
  | Network (message : jsstr)
  | TypeErrorThrew
  | OutsideModel.

Definition X (A : Type) : Type := M proxy exn A.

Definition set_session (sid : option jsstr) : X unit := fun s =>
  (mkProxy (derivedByUpstreamName s) (fetchedAt s) sid (sessionlessDowngraded s) (upstreamCacheMeta s) (sent s), Ok tt).
Definition set_downgraded : X unit := fun s =>
  (mkProxy (derivedByUpstreamName s) (fetchedAt s) (sessionId s) true (upstreamCacheMeta s) (sent s), Ok tt).
Definition set_meta (m : option CacheMeta) : X unit := fun s =>
  (mkProxy (derivedByUpstreamName s) (fetchedAt s) (sessionId s) (sessionlessDowngraded s) m (sent s), Ok tt).
Definition set_derived (d : list (jsstr * McpRoute.McpTool)) (now : Z) : X unit := fun s =>
  (mkProxy d now (sessionId s) (sessionlessDowngraded s) (upstreamCacheMeta s) (sent s), Ok tt).

(** ** Constants *)

Definition DERIVED_TTL_MS : Z := 60000.
Definition LEGACY_PROTOCOL_VERSION : jsstr := js "2024-11-05".
Definition SESSIONLESS_PROTOCOL_VERSION : jsstr := js "2026-07-28".
Definition CLOISTER_INFO : Json := JObj [(js "name", JStr (js "cloister")); (js "version", JStr (js "0.1.0"))].
Definition CLOISTER_CLIENT_CAPABILITIES : Json :=
  JObj [(js "experimental", JObj [(js "proxy", JBool true)]); (js "roots", JObj [(js "listChanged", JBool true)])].
Definition META_PROTOCOL_VERSION_KEY : jsstr := js "io.modelcontextprotocol/protocolVersion".
Definition ACCEPT_HEADER : jsstr := js "application/json, text/event-stream".
Definition INTERNAL : option Json := Some (JNum (-32603)).

Section backend.
Context (spec : HttpForwardBackend) (answer : list post -> reply) (env : Env).
Context (initialize_accepts : Json -> bool) (null_read : jsstr).

(** ** Names *)

Definition assertedNames : list jsstr := map McpRoute.t_name (assertedTools spec).

Definition advertised_name (upstreamName : jsstr) : jsstr :=
  if starts_with (handlesPrefix spec) upstreamName then upstreamName else handlesPrefix spec ++ upstreamName.

Definition derived_tool (e : jsstr * McpRoute.McpTool) : option McpRoute.McpTool :=
  let advertisedName := advertised_name e.1 in
  if bool_decide (advertisedName ∈ assertedNames) then None
  else Some (McpRoute.mkTool advertisedName (McpRoute.t_rest e.2)).

Definition tools (s : proxy) : list McpRoute.McpTool :=
  if negb (dynamicTools spec) then assertedTools spec
  else assertedTools spec ++ omap derived_tool (derivedByUpstreamName s).

Definition has_claims : bool := negb (bool_decide (claims spec = [])).

Definition handles_name (s : proxy) (toolName : jsstr) : bool :=
  if has_claims then
    if bool_decide (toolName ∈ claims spec) then true
    else if negb (bool_decide (stripPrefix spec = [])) && starts_with (stripPrefix spec) toolName
    then bool_decide (drop (length (stripPrefix spec)) toolName ∈ claims spec)
    else false
  else if negb (bool_decide (handlesPrefix spec = [])) then starts_with (handlesPrefix spec) toolName
  else bool_decide (toolName ∈ assertedNames) || bool_decide (toolName ∈ map fst (derivedByUpstreamName s)).

(** A value that is no string has no [startsWith]. *)
Definition handles (s : proxy) (toolName : option Json) : option bool :=
  match toolName with
  | Some (JStr n) => Some (handles_name s n)
  | _ => if bool_decide ((if has_claims then stripPrefix spec else handlesPrefix spec) = []) then Some false else None
  end.

Definition claimsUpstreamName (upstreamName : jsstr) : bool :=
  if has_claims then bool_decide (upstreamName ∈ claims spec)
  else if negb (bool_decide (handlesPrefix spec = [])) && bool_decide (stripPrefix spec = [])
  then starts_with (handlesPrefix spec) upstreamName
  else true.

Definition wire_name (toolName : jsstr) : jsstr :=
  if negb (bool_decide (stripPrefix spec = [])) && starts_with (stripPrefix spec) toolName
  then drop (length (stripPrefix spec)) toolName else toolName.

(** ** Sending *)

(** [effectiveMode() === "next"] *)
Definition is_next (s : proxy) : bool :=
  match protocolMode spec with Current => false | Next => true | Auto => negb (sessionlessDowngraded s) end.

Definition requestHeaders (s : proxy) : list (jsstr * jsstr) :=
  [(js "content-type", js "application/json"); (js "accept", ACCEPT_HEADER)] ++
  (if is_next s then [(js "mcp-protocol-version", SESSIONLESS_PROTOCOL_VERSION)]
   else match sessionId s with
        | Some ((_ :: _) as sid) => if requiresSession spec then [(js "mcp-session-id", sid)] else []
        | _ => []
        end).

Definition sessionlessMeta : Json :=
  JObj [(META_PROTOCOL_VERSION_KEY, JStr SESSIONLESS_PROTOCOL_VERSION); (js "clientInfo", CLOISTER_INFO);
        (js "clientCapabilities", CLOISTER_CLIENT_CAPABILITIES)].

Definition fetch (p : post) : X response := fun s =>
  let history := sent s ++ [p] in
  (mkProxy (derivedByUpstreamName s) (fetchedAt s) (sessionId s) (sessionlessDowngraded s) (upstreamCacheMeta s) history,
   match answer history with NetworkError m => Throw (Network m) | Reply r => Ok r end).

Definition text_prop (o : option Json) : option jsstr := match o with Some (JStr t) => Some t | _ => None end.

(** [Mcp-Method] and [Mcp-Name], derived from the body. *)
Definition rpc_headers (body : Json) : list (jsstr * jsstr) :=
  match text_prop (get_prop body (js "method")) with
  | None => []
  | Some m =>
      (js "mcp-method", m) ::
      match text_prop (opt_prop (get_prop body (js "params")) (js "name")) with Some n => [(js "mcp-name", n)] | None => [] end
  end.

Definition postJson (body : Json) : X response := fun s => fetch (mkPost (requestHeaders s ++ rpc_headers body) body) s.

Definition request (method : string) (params : option Json) : Json :=
  JObj ([(js "jsonrpc", JStr (js "2.0")); (js "id", JNum 0); (js "method", JStr (js method))] ++
        match params with Some p => [(js "params", p)] | None => [] end).

Definition meta_params : Json := JObj [(js "_meta", sessionlessMeta)].

(** [res.json()], where it does not throw. *)
Definition json (r : response) : X (option Json) :=
  match text r with
  | None => ret None
  | Some t => match json_parse t with Ok v => ret (Some v) | Throw Unrepresentable => throw OutsideModel | Throw _ => ret None end
  end.

(** ** The session *)

Definition plain_headers : list (jsstr * jsstr) :=
  [(js "content-type", js "application/json"); (js "accept", ACCEPT_HEADER)].

Definition initialize_post : post :=
  mkPost plain_headers
    (request "initialize" (Some (JObj [(js "protocolVersion", JStr LEGACY_PROTOCOL_VERSION);
       (js "capabilities", CLOISTER_CLIENT_CAPABILITIES); (js "clientInfo", CLOISTER_INFO)]))).

Definition initialized_post (sid : option jsstr) : post :=
  mkPost (plain_headers ++ match sid with Some ((_ :: _) as sid) => [(js "mcp-session-id", sid)] | _ => [] end)
    (JObj [(js "jsonrpc", JStr (js "2.0")); (js "method", JStr (js "notifications/initialized"))]).

(** The negotiated version, as far as it is checked. *)
Definition negotiated (t : jsstr) : X (option Json) :=
  match t with
  | [] => ret None
  | _ =>
      match json_parse t with
      | Throw Unrepresentable => throw OutsideModel
      | Throw _ | Ok JNull => ret None
      | Ok v => ret (if initialize_accepts v then opt_prop (get_prop v (js "result")) (js "protocolVersion") else None)
      end
  end.

Definition doInitialize : X unit :=
  let* res := fetch initialize_post in
  if negb (is_ok res) then throw (JsonRpcError INTERNAL (js "upstream initialize failed: HTTP " ++ js_dec (status res)))
  else
    let* version := negotiated (default [] (text res)) in
    if truthy version && negb (McpRoute.is_text LEGACY_PROTOCOL_VERSION version) then
      throw (JsonRpcError INTERNAL (js "upstream protocolVersion mismatch: got " ++
               default [] (version ≫= to_string) ++ js ", expected " ++ LEGACY_PROTOCOL_VERSION))
    else
      do* (match session_header res with Some ((_ :: _) as sid) => set_session (Some sid) | _ => ret tt end) in
      let* sid := read sessionId in
      let* _ := fetch (initialized_post sid) in
      ret tt.

Definition ensureSession : X unit :=
  let* sid := read sessionId in
  match sid with Some _ => ret tt | None => doInitialize end.

(** ** tools/list *)

Definition cache_meta (result : Json) : option CacheMeta :=
  let ttl := match get_prop result (js "ttlMs") with Some (JNum z) => Some z | _ => None end in
  let scope := match text_prop (get_prop result (js "cacheScope")) with
               | Some c => if bool_decide (c = js "public") || bool_decide (c = js "private") then Some c else None
               | None => None
               end in
  match ttl, scope with None, None => None | _, _ => Some (mkMeta ttl scope) end.

Definition DEFAULT_SCHEMA : Json :=
  JObj [(js "type", JStr (js "object")); (js "properties", JObj []); (js "required", JArr [])].

(** [None] where an element that is [null] throws. *)
Fixpoint derive (ts : list Json) (next : list (jsstr * McpRoute.McpTool)) : option (list (jsstr * McpRoute.McpTool)) :=
  match ts with
  | [] => Some next
  | JNull :: _ => None
  | t :: ts' =>
      match get_prop t (js "name") with
      | Some (JStr ((_ :: _) as n)) =>
          if claimsUpstreamName n then
            derive ts' (assoc_set n (make_tool n (default [] (text_prop (get_prop t (js "description"))))
                                      (nullish (get_prop t (js "inputSchema")) DEFAULT_SCHEMA)) next)
          else derive ts' next
      | _ => derive ts' next
      end
  end.

Definition captureDerivedTools (now : Z) (result : option Json) : X unit :=
  match result with
  | Some r =>
      match get_prop r (js "tools") with
      | Some (JArr ts) =>
          do* set_meta (cache_meta r) in
          match derive ts [] with Some next => set_derived next now | None => throw TypeErrorThrew end
      | _ => ret tt
      end
  | None => ret tt
  end.

(** [true] when the upstream answered [server/discover]; no exception of the transport escapes. *)
Definition doDiscover : X bool :=
  catch (let* res := postJson (request "server/discover" (Some meta_params)) in ret (is_ok res)) (fun _ => ret false).

Definition try_fetch : X (option (Z * option Json)) :=
  do* (if requiresSession spec then ensureSession else ret tt) in
  let* res := postJson (request "tools/list" None) in
  if negb (is_ok res) then ret (Some (status res, None))
  else let* body := json res in ret ((fun b => (status res, Some b)) <$> body).

Definition fetch_legacy (now : Z) : X unit :=
  let* first := try_fetch in
  let* result := match first with
                 | Some (st, _) => if (400 <=? st) && requiresSession spec
                                   then do* set_session None in try_fetch else ret first
                 | None => ret first
                 end in
  match result with
  | Some (_, Some body) =>
      if negb (truthy (Some body)) || truthy (get_prop body (js "error")) then ret tt
      else captureDerivedTools now (get_prop body (js "result"))
  | _ => ret tt
  end.

Definition fetch_next (now : Z) : X unit :=
  let* res := postJson (request "tools/list" (Some meta_params)) in
  if negb (is_ok res) then ret tt
  else
    let* body := json res in
    match body with
    | None => ret tt
    | Some JNull => throw TypeErrorThrew
    | Some body => if truthy (get_prop body (js "error")) then ret tt else captureDerivedTools now (get_prop body (js "result"))
    end.

Definition fetchUpstreamTools (now : Z) : X unit :=
  match resolveUpstream spec env with
  | None => ret tt
  | Some _ =>
      let* next := read is_next in
      if next : bool then
        let* discoverOk := doDiscover in
        if discoverOk : bool then fetch_next now
        else match protocolMode spec with
             | Auto => do* set_downgraded in fetch_legacy now
             | _ => ret tt
             end
      else fetch_legacy now
  end.

(** Every exception is swallowed but what the model does not cover. *)
Definition refreshTools (now : Z) : X unit :=
  if negb (dynamicTools spec) then ret tt
  else
    let* at_ := read fetchedAt in
    if now - at_ <? DERIVED_TTL_MS then ret tt
    else catch (fetchUpstreamTools now) (fun e => match e with OutsideModel => throw OutsideModel | _ => ret tt end).

(** ** tools/call *)

Definition root_json (r : McpRoute.Root) : Json :=
  JObj ((js "uri", JStr (McpRoute.uri r)) :: match McpRoute.name r with Some n => [(js "name", JStr n)] | None => [] end).

Definition reverse_reply (id : Json) (method : jsstr) (roots : list McpRoute.Root) : Json :=
  let head := [(js "jsonrpc", JStr (js "2.0")); (js "id", id)] in
  if bool_decide (method = js "roots/list")
  then JObj (head ++ [(js "result", JObj [(js "roots", JArr (map root_json roots))])])
  else JObj (head ++ [(js "error", JObj [(js "code", JNum (-32601)); (js "message", JStr (js "method not found: " ++ method))])]).

Definition best_effort (m : X response) : X unit := catch (let* _ := m in ret tt) (fun _ => ret tt).

Definition handleReverseRpc (id : Json) (method : jsstr) (roots : list McpRoute.Root) : X unit :=
  best_effort (fun s => fetch (mkPost (requestHeaders s) (reverse_reply id method roots)) s).

(** The response with the request's id; requests in between are answered. *)
Fixpoint consume (items : list item) (roots : list McpRoute.Root) : X Json :=
  match items with
  | [] => throw (JsonRpcError INTERNAL (js "upstream closed stream without responding"))
  | Failed message :: _ => throw (JsonRpcError INTERNAL (js "upstream response stream failed: " ++ message))
  | Unrepresented :: _ => throw OutsideModel
  | Item v :: items' =>
      if is_null v then throw (JsonRpcError INTERNAL (js "upstream response stream failed: " ++ null_read))
      else
        match get_prop v (js "method") with
        | Some (JStr m) =>
            do* (match present (get_prop v (js "id")) with Some id => handleReverseRpc id m roots | None => ret tt end) in
            consume items' roots
        | _ =>
            match get_prop v (js "id") with
            | Some (JNum 0) => ret v
            | _ => consume items' roots
            end
        end
  end.

Definition call_params (toolName : jsstr) (args : Json) (next : bool) : Json :=
  JObj ([(js "name", JStr (wire_name toolName)); (js "arguments", args)] ++
        if next then [(js "_meta", sessionlessMeta)] else []).

Definition try_call (inner : Json) : X response := fun s =>
  (do* (if negb (is_next s) && requiresSession spec then ensureSession else ret tt) in postJson inner) s.

Definition failing (r : response) : bool := negb (is_ok r) && (400 <=? status r).

Definition is_auto : bool := match protocolMode spec with Auto => true | _ => false end.

Definition unreachable (e : exn) : exn :=
  match e with
  | JsonRpcError _ m | Network m => JsonRpcError INTERNAL (js "upstream unreachable: " ++ m)
  | TypeErrorThrew => TypeErrorThrew
  | OutsideModel => OutsideModel
  end.

(** The call with its two retries: the downgrade, then a fresh session. *)
Definition attempt (inner : Json) : X response :=
  catch
    (let* res := try_call inner in
     let* next := read is_next in
     let* res := (if failing res && next && is_auto then do* set_downgraded in try_call inner else ret res) in
     let* next := read is_next in
     if failing res && negb next && requiresSession spec then do* set_session None in try_call inner else ret res)
    (fun e => throw (unreachable e)).

Definition snippet (r : response) : jsstr :=
  let body := default [] (text r) in
  if (200 <? length body)%nat then take 200 body ++ [8230] else body.

(** [super(message)] of an error class. *)
Definition error_message (o : option Json) : X jsstr :=
  match o with
  | None => ret []
  | Some v => match to_string v with Some t => ret t | None => throw TypeErrorThrew end
  end.

(** [JSON.parse(text)], or the value itself where it throws. *)
Definition parse_or_raw (t : Json) : X Json :=
  match t with
  | JStr [] => ret JNull
  | _ =>
      match to_string t with
      | None => ret t
      | Some s => match json_parse s with Ok v => ret v | Throw Unrepresentable => throw OutsideModel | Throw _ => ret t end
      end
  end.

Definition own_error (parsed : Json) : option Json :=
  match parsed with JObj m => assoc (js "error") m | _ => None end.

Definition unwrap (toolName : jsstr) (body : Json) : X Json :=
  let err := get_prop body (js "error") in
  if truthy err then
    let* m := error_message (opt_prop err (js "message")) in
    throw (JsonRpcError (opt_prop err (js "code")) m)
  else
    let result := get_prop body (js "result") in
    match opt_prop result (js "content") with
    | Some (JArr (c :: _)) =>
        if is_null c then throw TypeErrorThrew
        else
          let* parsed := parse_or_raw (nullish (get_prop c (js "text")) (JStr [])) in
          let flagged := match opt_prop result (js "isError") with Some (JBool true) => true | _ => false end in
          let failed := match parsed with
                        | JObj m => match assoc (js "ok") m with Some (JBool false) => true | _ => false end ||
                                    bool_decide (is_Some (assoc (js "error") m))
                        | _ => false
                        end in
          if flagged || failed then
            let* m := match own_error parsed with
                      | Some e => error_message (Some e)
                      | None => ret (js "tool " ++ toolName ++ js " failed")
                      end in
            throw (JsonRpcError (Some (JNum (-32000))) m)
          else ret parsed
    | _ => throw (JsonRpcError INTERNAL (js "upstream returned no MCP content"))
    end.

Definition missing : jsstr :=
  (if bool_decide (serviceBinding spec = []) then []
   else js "neither service binding " ++ [34] ++ serviceBinding spec ++ [34] ++ js " nor ") ++
  js "URL var " ++ [34] ++ urlBinding spec ++ [34].

Definition invoke (toolName : jsstr) (args : Json) (roots : McpRoute.RootsStore) (peerFp : jsstr) : X Json :=
  match resolveUpstream spec env with
  | None => throw (JsonRpcError INTERNAL (js "manifest: " ++ missing ++ js " configured " ++ [8212] ++
                     js " cannot route " ++ handlesPrefix spec ++ js "* calls"))
  | Some _ =>
      let* next := read is_next in
      let* res := attempt (request "tools/call" (Some (call_params toolName args next))) in
      if negb (is_ok res) then
        throw (JsonRpcError INTERNAL (js "upstream returned HTTP " ++ js_dec (status res) ++
                 match snippet res with [] => [] | t => js ": " ++ t end))
      else
        let* body := consume (readJsonRpcStream res) (from_option McpRoute.roots [] (McpRoute.getRoots roots peerFp)) in
        unwrap toolName body
  end.

(** ** Notifications *)



(** ** Names round-trip *)

(** The two shapes of a backend: names that carry the prefix already and are sent as they are, and
    bare names whose prefix is added for the listing and stripped for the call. *)
Definition fits (u : jsstr) : Prop :=
  (starts_with (handlesPrefix spec) u = true /\ stripPrefix spec = []) \/
  (starts_with (handlesPrefix spec) u = false /\ stripPrefix spec = handlesPrefix spec).

Lemma starts_with_app p t : starts_with p (p ++ t) = true.
Proof. apply starts_with_iff. by exists t. Qed.

(** A derived tool can be called under the name it is listed with.  For a name the backend claims
    and keeps, in either shape, the backend handles the advertised name, and what it sends to the
    upstream for it is the upstream's own name. *)
Theorem derived_tools_are_callable s u :
  claimsUpstreamName u = true -> u ∈ map fst (derivedByUpstreamName s) -> fits u ->
  handles s (Some (JStr (advertised_name u))) = Some true /\ wire_name (advertised_name u) = u.
Proof.
  intros Hc Hu Hf. unfold handles, handles_name, wire_name, advertised_name, claimsUpstreamName in *.
  destruct Hf as [[Hp Hs]|[Hp Hs]]; rewrite Hp, Hs in *.
  - rewrite (bool_decide_true ([] = [])) by done. cbn [negb andb]. split; [|done]. destruct has_claims; [by rewrite Hc|].
    rewrite Hp. destruct (bool_decide (handlesPrefix spec = [])); cbn [negb]; [|done].
    by rewrite (bool_decide_true (u ∈ map fst _)), orb_true_r.
  - rewrite starts_with_app, drop_app_length.
    assert (Hne : bool_decide (handlesPrefix spec = []) = false).
    { apply bool_decide_false. intros E. rewrite E in Hp. by destruct u. }
    rewrite Hne. cbn [negb andb]. split; [|done]. destruct has_claims; [|done]. rewrite Hc. by case_match.
Qed.

(** ** What is sent *)













(** *** Headers *)















(** *** Operations *)




(** The check of the version leaves the state alone. *)
Lemma negotiated_state t P : hoare P (negotiated t) (fun _ => P) P.
Proof.
  unfold negotiated. destruct t as [|c t]; [by intros s|].
  destruct (json_parse (c :: t)) as [v|e]; [destruct v|destruct e]; by intros st.
Qed.


















(** ** Event streams *)

Lemma dec_run_app st a b :
  dec_run st (a ++ b) = ((dec_run st a).1 ++ (dec_run (dec_run st a).2 b).1, (dec_run (dec_run st a).2 b).2).
Proof.
  revert st. induction a as [|x a IH]; intros st; cbn [app dec_run fst snd]; [by destruct (dec_run st b)|].
  destruct (dec_step st (b2z x)) as [ev st']. rewrite IH. destruct (dec_run st' a) as [evs st1]. cbn [fst snd].
  by destruct (dec_run st1 b) as [evs2 st2]; cbn [fst snd]; rewrite app_assoc.
Qed.

Lemma strip_bom_app (a b : list Z) : a <> [] -> strip_bom (a ++ b) = strip_bom a ++ b.
Proof. destruct a as [|c a]; [done|]. intros _. cbn [app strip_bom]. by case_match. Qed.

Lemma utf16_all_app a b : utf16_all (a ++ b) = utf16_all a ++ utf16_all b.
Proof. unfold utf16_all. by rewrite map_app, concat_app. Qed.

Lemma decode_app d a b :
  decode d (a ++ b) = ((decode d a).1 ++ (decode (decode d a).2 b).1, (decode (decode d a).2 b).2).
Proof.
  unfold decode. rewrite dec_run_app. destruct (dec_run (d_state d) a) as [e1 st1]. cbn [fst snd d_state d_started].
  destruct (dec_run st1 b) as [e2 st2]. cbn [fst snd]. rewrite map_app, length_app.
  set (c1 := map _ e1). set (c2 := map _ e2). destruct (d_started d); cbn [orb]; [by rewrite utf16_all_app|].
  destruct c1 as [|c c1]; cbn [length app]; [done|].
  rewrite !bool_decide_false by (cbn; lia). cbn [negb].
  change (c :: c1 ++ c2) with ((c :: c1) ++ c2). by rewrite strip_bom_app, utf16_all_app.
Qed.

Lemma crlf_to_lf_id s : 13 ∉ s -> crlf_to_lf s = s.
Proof.
  induction s as [|c s IH]; [done|]. rewrite not_elem_of_cons. intros [Hc Hs].
  assert (E : crlf_to_lf (c :: s) = c :: crlf_to_lf s); [|by rewrite E, IH].
  cbn [crlf_to_lf]. destruct c as [|p|p]; try done. repeat (destruct p as [p|p|]; try done).
Qed.

Lemma split_rest_elem (c : Z) t : c ∈ (ReceiptStream.split_blocks t).2 -> c ∈ t.
Proof.
  intros Hc. unfold ReceiptStream.split_blocks in Hc. rewrite (ReceiptStream.blocks_text (length t) t). apply elem_of_app. by right.
Qed.

(** The messages of a whole text. *)
Definition text_items (t : jsstr) : list item :=
  concat (map record_items (ReceiptStream.split_blocks t).1) ++ trailing (ReceiptStream.split_blocks t).2.

Lemma flush_plain t : 13 ∉ t ->
  flush t = (concat (map record_items (ReceiptStream.split_blocks t).1), (ReceiptStream.split_blocks t).2).
Proof. intros Hc. unfold flush. rewrite crlf_to_lf_id by done. by destruct (ReceiptStream.split_blocks t). Qed.

(** C23: Where a stream is cut does not matter.  The messages read from a body that ends, without a
    carriage return, are those of its whole decoded text, however the bytes are cut into chunks,
    in the middle of a character or of a separator. *)
Theorem chunking_is_invisible d buf cs :
  13 ∉ buf ++ (decode d (concat cs)).1 ->
  read_events d buf cs None = text_items (buf ++ (decode d (concat cs)).1).
Proof.
  revert d buf. induction cs as [|c cs IH]; intros d buf Hc; cbn [read_events concat] in *.
  - assert (E : (decode d []).1 = []) by (unfold decode; cbn; by destruct (d_started d)).
    rewrite E, app_nil_r in *. rewrite flush_plain by done. reflexivity.
  - rewrite decode_app in *. cbn [fst snd] in *. destruct (decode d c) as [t1 d1]. cbn [fst snd] in *.
    rewrite app_assoc in *. apply not_elem_of_app in Hc as [H1 H2]. rewrite flush_plain by done.
    rewrite IH by (apply not_elem_of_app; split; [by intros ?%split_rest_elem|done]).
    unfold text_items. rewrite (ReceiptStream.split_blocks_app (buf ++ t1)). cbn [fst snd].
    by rewrite map_app, concat_app, app_assoc.
Qed.

(** ** How often a call is sent *)

Definition is_call (p : post) : bool := McpRoute.is_text (js "tools/call") (get_prop (p_body p) (js "method")).
Definition calls (s : proxy) : nat := length (filter (fun p => is_call p = true) (sent s)).

(** An operation sends at most [n] calls. *)
Definition sends {A} (n : nat) (m : X A) : Prop := forall s, (calls (m s).1 <= calls s + n)%nat.

Lemma sends_bind {A B} a b (m : X A) (k : A -> X B) : sends a m -> (forall x, sends b (k x)) -> sends (a + b) (bind m k).
Proof.
  intros Hm Hk s. unfold bind. specialize (Hm s). destruct (m s) as [s' [x|e]]; cbn in *; [specialize (Hk x s'); lia|lia].
Qed.
Lemma sends_catch {A} n (m : X A) h : sends n m -> (forall e, sends 0 (h e)) -> sends n (catch m h).
Proof.
  intros Hm Hh s. unfold catch. specialize (Hm s). destruct (m s) as [s' [x|e]]; cbn in *; [done|specialize (Hh e s'); lia].
Qed.
Lemma sends_weaken {A} n n' (m : X A) : (n <= n')%nat -> sends n m -> sends n' m.
Proof. intros Hn Hm s. specialize (Hm s). lia. Qed.

Lemma sends_fetch (mk : proxy -> post) n :
  (forall s, (if is_call (mk s) then 1 else 0) <= n)%nat -> sends n (fun s => fetch (mk s) s).
Proof.
  intros Hp s. unfold calls. cbn [fetch fst sent]. rewrite filter_app, length_app. specialize (Hp s).
  destruct (is_call (mk s)) eqn:E.
  - rewrite filter_cons_True by done. change (filter _ []) with (@nil post). simpl length. lia.
  - rewrite filter_cons_False by congruence. change (filter _ []) with (@nil post). simpl length. lia.
Qed.

Lemma sends_same {A} (m : X A) : (forall s, sent (m s).1 = sent s) -> sends 0 m.
Proof. intros Hm s. unfold calls. rewrite Hm. lia. Qed.

Lemma sends_json r : sends 0 (json r).
Proof. apply sends_same. intros s. unfold json. destruct (text r) as [t|]; [destruct (json_parse t) as [v|[]]|]; done. Qed.

Lemma sends_doInitialize : sends 0 doInitialize.
Proof.
  apply (sends_bind 0 0); [by apply (sends_fetch (fun _ => initialize_post))|]. intros r.
  destruct (negb (is_ok r)); [by apply sends_same|]. apply (sends_bind 0 0).
  { intros s. pose proof (negotiated_state (default [] (text r)) (fun s' => s' = s) s eq_refl) as Hn.
    destruct (negotiated _ s) as [s' [v|e]]; cbn [fst] in *; subst s'; lia. }
  intros v. destruct (_ && _); [by apply sends_same|]. apply (sends_bind 0 0).
  { apply sends_same. intros s. by destruct (session_header r) as [[|]|]. }
  intros []. apply (sends_bind 0 0); [by apply sends_same|]. intros sid. apply (sends_bind 0 0); [|by intros; apply sends_same].
  by apply (sends_fetch (fun _ => initialized_post sid)).
Qed.

Lemma sends_ensureSession : sends 0 ensureSession.
Proof. apply (sends_bind 0 0); [by apply sends_same|]. intros []; [by apply sends_same|apply sends_doInitialize]. Qed.

Lemma sends_try_call inner : sends 1 (try_call inner).
Proof.
  assert (Hg : forall b : bool, sends 1 (do* (if b then ensureSession else ret tt) in postJson inner)).
  { intros b. apply (sends_bind 0 1); [destruct b; [apply sends_ensureSession|by apply sends_same]|]. intros [].
    apply (sends_fetch (fun s => mkPost (requestHeaders s ++ rpc_headers inner) inner)). intros s. destruct (is_call _); lia. }
  intros s. apply Hg.
Qed.

Lemma sends_attempt inner : sends 3 (attempt inner).
Proof.
  assert (Ht : forall (u : X unit), sends 0 u -> sends 1 (do* u in try_call inner)).
  { intros u Hu. apply (sends_bind 0 1); [done|]. intros []. apply sends_try_call. }
  apply sends_catch; [|by intros e; apply sends_same]. apply (sends_bind 1 2); [apply sends_try_call|]. intros r.
  apply (sends_bind 0 2); [by apply sends_same|]. intros nx. apply (sends_bind 1 1).
  { destruct (_ && _); [by apply Ht, sends_same|]. apply (sends_weaken 0); [lia|by apply sends_same]. }
  intros r'. apply (sends_bind 0 1); [by apply sends_same|]. intros nx'.
  destruct (_ && _); [by apply Ht, sends_same|]. apply (sends_weaken 0); [lia|by apply sends_same].
Qed.

Lemma sends_consume items roots : sends 0 (consume items roots).
Proof.
  induction items as [|i items IH]; cbn [consume]; [by apply sends_same|].
  destruct i as [v| |]; [|by apply sends_same..]. destruct (is_null v); [by apply sends_same|].
  assert (Hi : sends 0 (match get_prop v (js "id") with Some (JNum 0) => ret v | _ => consume items roots end)).
  { destruct (get_prop v (js "id")) as [[| |[]| | |]|]; try exact IH. by apply sends_same. }
  destruct (get_prop v (js "method")) as [[| | |m| |]|]; try exact Hi.
  apply (sends_bind 0 0); [|by intros []]. destruct (present _) as [j|]; [|by apply sends_same].
  apply sends_catch; [|by intros e; apply sends_same]. apply (sends_bind 0 0); [|by intros; apply sends_same].
  apply (sends_fetch (fun s => mkPost (requestHeaders s) (reverse_reply j m roots))). intros s.
  unfold is_call, reverse_reply. cbn [p_body]. by destruct (bool_decide (m = js "roots/list")).
Qed.

(** Reading a reply's body changes nothing. *)
Definition pure_step {A} (m : X A) : Prop := forall s, (m s).1 = s.

Lemma pure_bind {A B} (m : X A) (k : A -> X B) : pure_step m -> (forall x, pure_step (k x)) -> pure_step (bind m k).
Proof. intros Hm Hk s. unfold bind. specialize (Hm s). destruct (m s) as [s' [x|e]]; cbn [fst] in *; subst s'; [apply Hk|done]. Qed.
Lemma pure_ret {A} (x : A) : pure_step (ret x).
Proof. done. Qed.
Lemma pure_throw {A} e : pure_step (throw e : X A).
Proof. done. Qed.
Lemma error_message_pure o : pure_step (error_message o).
Proof. destruct o as [v|]; cbn [error_message]; [destruct (to_string v)|]; done. Qed.
Lemma parse_or_raw_pure t : pure_step (parse_or_raw t).
Proof.
  assert (Hg : pure_step (match to_string t with
    | None => ret t
    | Some s => match json_parse s with Ok v => ret v | Throw Unrepresentable => throw OutsideModel | Throw _ => ret t end
    end)).
  { destruct (to_string t) as [u|]; [|done]. destruct (json_parse u) as [v|[]]; done. }
  destruct t as [| | |[]| |]; done || exact Hg.
Qed.
Lemma unwrap_pure n b : pure_step (unwrap n b).
Proof.
  unfold unwrap. destruct (truthy _).
  { apply pure_bind; [apply error_message_pure|intros; apply pure_throw]. }
  cbv zeta. destruct (opt_prop _ (js "content")) as [[| | | |[|c ?]|]|]; try apply pure_throw.
  destruct (is_null c); [apply pure_throw|]. apply pure_bind; [apply parse_or_raw_pure|]. intros v. cbv zeta.
  destruct (_ || _); [|apply pure_ret]. apply pure_bind; [|intros; apply pure_throw].
  destruct (own_error v); [apply error_message_pure|apply pure_ret].
Qed.

(** A call is never repeated without bound.  Whatever the upstream answers, and however many
    requests of its own it interleaves, one invocation sends its call at most three times: the
    first, one more after a downgrade of the protocol, one more with a fresh session. *)
Theorem call_sent_at_most_thrice n a roots p s : (calls (invoke n a roots p s).1 <= calls s + 3)%nat.
Proof.
  assert (Hi : sends 3 (invoke n a roots p)); [|apply Hi]. unfold invoke.
  destruct (resolveUpstream spec env); [|apply (sends_weaken 0); [lia|by apply sends_same]].
  apply (sends_bind 0 3); [by apply sends_same|]. intros nx. apply (sends_bind 3 0); [apply sends_attempt|]. intros res.
  destruct (negb (is_ok res)); [by apply sends_same|]. apply (sends_bind 0 0); [apply sends_consume|]. intros b.
  apply sends_same. intros t. by rewrite unwrap_pure.
Qed.
End backend.

(** ** Witnesses and concrete behaviour *)

Section demo.
Definition demo_spec (mode : ProtocolMode) (prefix : string) : HttpForwardBackend :=
  mkSpec (js "URL") [] true (js prefix) true mode (js "UP") [] (js "up_").
Definition demo_env : Env := mkEnv (fun b => bool_decide (b = js "UP")) (fun _ => None).
Definition accepts (_ : Json) : bool := true.
Definition null_read : jsstr := js "null".
Definition answered (st : Z) (session : option jsstr) (body : string) : reply :=
  Reply (mkResponse st (Some (js "application/json")) session true [utf8_encode (McpRoute.dq body)] None).

(** An upstream with sessions, which answers every call. *)
Definition demo_answer (h : list post) : reply :=
  match last h with
  | Some p =>
      if McpRoute.is_text (js "initialize") (get_prop (p_body p) (js "method")) then answered 200 (Some (js "s1")) "{}"
      else if McpRoute.is_text (js "tools/list") (get_prop (p_body p) (js "method"))
      then answered 200 None "{'result':{'tools':[{'name':'echo','description':'d'}]}}"
      else if McpRoute.is_text (js "tools/call") (get_prop (p_body p) (js "method"))
      then answered 200 None "{'id':0,'result':{'content':[{'type':'text','text':'42'}]}}"
      else answered 202 None ""
  | None => NetworkError []
  end.

(** The upstream fails at the notification that ends the handshake, and answers everything else. *)
Definition demo_half_open (h : list post) : reply :=
  match last h with
  | Some p =>
      if McpRoute.is_text (js "notifications/initialized") (get_prop (p_body p) (js "method"))
      then NetworkError (js "reset") else demo_answer h
  | None => NetworkError []
  end.

Definition demo_listed (prefix : string) : proxy :=
  (refreshTools (demo_spec Current prefix) demo_answer demo_env accepts 100000 initial).1.
Definition demo_invoke (mode : ProtocolMode) (ans : list post -> reply) (s : proxy) : proxy * result exn Json :=
  invoke (demo_spec mode "up_") ans demo_env accepts null_read (js "up_echo") (JObj []) ∅ (js "p") s.

Lemma derived_tools_are_callable_witness :
  handles (demo_spec Current "up_") (demo_listed "up_") (Some (JStr (js "up_echo"))) = Some true /\
  wire_name (demo_spec Current "up_") (js "up_echo") = js "echo".
Proof.
  apply (derived_tools_are_callable (demo_spec Current "up_") (demo_listed "up_") (js "echo")).
  - reflexivity.
  - replace (map fst (derivedByUpstreamName (demo_listed "up_"))) with [js "echo"] by (vm_compute; reflexivity). by left.
  - by right.
Defined.


(** The record is cut inside its data line and inside its separator. *)
Lemma chunking_is_invisible_witness :
  read_events (mkDecoder Idle false) [] [utf8_encode (js "data: 4"); utf8_encode ([50; 10]); utf8_encode [10]] None = [Item (JNum 42)].
Proof.
  rewrite chunking_is_invisible.
  - vm_compute. reflexivity.
  - apply (bool_decide_unpack _). vm_compute. reflexivity.
Defined.

(** A line that ends in two carriage returns depends on the cut: the replacement runs again over
    what is left of each chunk. *)
Example doubled_returns_depend_on_the_cut :
  let doubled := js "data: 1" ++ [13; 13; 10; 13; 13; 10] ++ js "data: 2" in
  read_events (mkDecoder Idle false) [] [utf8_encode (doubled ++ [10; 10])] None = [] /\
  read_events (mkDecoder Idle false) [] [utf8_encode doubled; utf8_encode [10; 10]] None = [Item (JNum 1); Item (JNum 2)].
Proof. split; vm_compute; reflexivity. Qed.

(** The call succeeds on a session whose handshake never ended: the first call fails at the
    notification, the second is sent with the session all the same. *)
Example session_counts_before_handshake_ends :
  let first := demo_invoke Current demo_half_open initial in
  let second := demo_invoke Current demo_half_open first.1 in
  (exists e, first.2 = Throw e) /\ second.2 = Ok (JNum 42) /\ length (sent second.1) = 3%nat.
Proof. split; [eexists; vm_compute; reflexivity|]. split; vm_compute; reflexivity. Qed.

(** One failure of the transport is enough to leave the sessionless protocol for good. *)
Definition demo_flaky (h : list post) : reply := if (length h =? 1)%nat then NetworkError (js "reset") else demo_answer h.

Example auto_downgrades_on_any_failure :
  sessionlessDowngraded (refreshTools (demo_spec Auto "up_") demo_flaky demo_env accepts 100000 initial).1 = true.
Proof. vm_compute. reflexivity. Qed.

(** The call repeated after a downgrade still carries the per-request metadata. *)
Definition demo_refuses_next (h : list post) : reply :=
  match last h with
  | Some p => if bool_decide (is_Some (assoc (js "mcp-protocol-version") (p_headers p))) then answered 400 None "" else demo_answer h
  | None => NetworkError []
  end.

Example downgraded_call_keeps_meta :
  let s := (demo_invoke Auto demo_refuses_next initial).1 in
  sessionlessDowngraded s = true /\
  match last (sent s) with
  | Some p => opt_prop (get_prop (p_body p) (js "params")) (js "_meta") = Some sessionlessMeta
  | None => False
  end.
Proof. split; vm_compute; reflexivity. Qed.

(** A name that carries the prefix upstream is listed as it is, yet sent without it. *)
Example prefixed_name_is_stripped :
  advertised_name (demo_spec Current "up_") (js "up_echo") = js "up_echo" /\
  wire_name (demo_spec Current "up_") (js "up_echo") = js "echo".
Proof. split; reflexivity. Qed.

(** A claimed name is listed with the prefix, under which the backend does not handle it. *)
Definition claiming_spec : HttpForwardBackend := mkSpec (js "URL") [] true [] false Current (js "UP") [js "echo"] (js "up_").

Example claimed_name_is_listed_with_prefix s :
  claimsUpstreamName claiming_spec (js "echo") = true /\ advertised_name claiming_spec (js "echo") = js "up_echo" /\
  handles_name claiming_spec s (js "up_echo") = false.
Proof. repeat split. Qed.
End demo.

End McpProxy.
