(* ===== verification/RateBucket.v ===== *)
(** Token buckets: vault/src/rate-bucket.ts, and the same arithmetic with its own
    constants in src/src/routes/pre-auth-budget.ts together with that module's
    per-address map.

    Tokens are counted in thousandths: one millisecond refills [REFILL_PER_SEC] of
    them exactly, where the source computes in floating point. *)
From S2P Require Import Prelude JsString.

Module RateBucket.

Record Limits := mkLimits { CAPACITY : Z; REFILL_PER_SEC : Z }.

(** [RATE_LIMITS] and its costs. *)
Definition RATE_LIMITS : Limits := mkLimits 100 10.
Definition COST_read : Z := 1.
Definition COST_write : Z := 3.
Definition COST_proxy : Z := 5.
Definition MAX_INFLIGHT : Z := 16.

Definition PRE_AUTH_LIMITS : Limits := mkLimits 300 10.
Definition COST_PER_REQUEST : Z := 1.
Definition MAX_KEYS : Z := 10000.

Record BucketState := mkBucket { tokens : Z; lastRefillMs : Z }.
#[global] Instance BucketState_eq_dec : EqDecision BucketState.
Proof. solve_decision. Defined.

Inductive ConsumeResult :=
  | Accepted (next : BucketState)
  | Refused (next : BucketState) (retryAfterSec : Z).

Definition next (r : ConsumeResult) : BucketState :=
  match r with Accepted n => n | Refused n _ => n end.

(** [Math.ceil] of a quotient. *)
Definition ceil_div (a b : Z) : Z := - ((- a) / b).

Section limits.
Variable lim : Limits.

Definition refill (prev : option BucketState) (nowMs : Z) : BucketState :=
  match prev with
  | None => mkBucket (1000 * CAPACITY lim) nowMs
  | Some prev =>
      let elapsed := Z.max 0 (nowMs - lastRefillMs prev) in
      mkBucket (Z.min (1000 * CAPACITY lim) (tokens prev + elapsed * REFILL_PER_SEC lim)) nowMs
  end.

Definition consume (refilled : BucketState) (cost : Z) : ConsumeResult :=
  if tokens refilled <? 1000 * cost then
    let deficit := 1000 * cost - tokens refilled in
    Refused refilled (Z.max 1 (ceil_div deficit (1000 * REFILL_PER_SEC lim)))
  else Accepted (mkBucket (tokens refilled - 1000 * cost) (lastRefillMs refilled)).

End limits.

Definition refillBucket : option BucketState -> Z -> BucketState := refill RATE_LIMITS.
Definition tryConsume : BucketState -> Z -> ConsumeResult := consume RATE_LIMITS.
Definition refillBucketWithLimits : option BucketState -> Z -> BucketState := refill PRE_AUTH_LIMITS.
Definition consumeWithLimits : BucketState -> Z -> ConsumeResult := consume PRE_AUTH_LIMITS.

(** ** The pre-authentication budget *)

(** A [Map]: entries in insertion order; [set] of a present key keeps its place. *)
Definition buckets : Type := list (jsstr * BucketState).

Fixpoint map_get (k : jsstr) (m : buckets) : option BucketState :=
  match m with
  | [] => None
  | (k', b) :: m => if decide (k = k') then Some b else map_get k m
  end.

Fixpoint map_set (k : jsstr) (b : BucketState) (m : buckets) : buckets :=
  match m with
  | [] => [(k, b)]
  | (k', b') :: m => if decide (k = k') then (k, b) :: m else (k', b') :: map_set k b m
  end.

(** [extractClientIp] of the value of the [cf-connecting-ip] header. *)
Definition extractClientIp (cfip : option jsstr) : jsstr :=
  match cfip with Some ((_ :: _) as ip) => ip | _ => js "anonymous" end.

Definition evict (m : buckets) : buckets :=
  if MAX_KEYS <=? Z.of_nat (length m) then drop (Z.to_nat (MAX_KEYS / 10)) m else m.

(** The new map, and the seconds to wait on a refusal. *)
Definition preAuthBurstLimit (cfip : option jsstr) (now : Z) (m : buckets)
    : buckets * option Z :=
  let key := extractClientIp cfip in
  let m := evict m in
  let refilled := refillBucketWithLimits (map_get key m) now in
  let result := consumeWithLimits refilled COST_PER_REQUEST in
  (map_set key (next result) m,
   match result with Accepted _ => None | Refused _ s => Some s end).

(** ** Runs of one bucket *)

Section run.
Variable lim : Limits.

(** The requests of one subject: when, and at what cost.  [spend] is the state left
    and the total cost accepted. *)
Fixpoint spend (reqs : list (Z * Z)) (st : option BucketState) : option BucketState * Z :=
  match reqs with
  | [] => (st, 0)
  | (now, cost) :: reqs =>
      let r := consume lim (refill lim st now) cost in
      let '(st', total) := spend reqs (Some (next r)) in
      (st', match r with Accepted _ => cost + total | Refused _ _ => total end)
  end.

Definition last_time (reqs : list (Z * Z)) (t : Z) : Z :=
  match last reqs with Some (t', _) => t' | None => t end.

Lemma last_time_cons r reqs t : last_time (r :: reqs) t = last_time reqs r.1.
Proof.
  unfold last_time. destruct reqs as [|r' reqs]; [by destruct r|].
  change (last (r :: r' :: reqs)) with (last (r' :: reqs)).
  destruct (last (r' :: reqs)) as [[]|] eqn:E; [done|]. by apply last_None in E.
Qed.

Hypothesis refill_pos : 0 < REFILL_PER_SEC lim.

Lemma consume_spec st now cost :
  0 <= cost -> 0 <= tokens st <= 1000 * CAPACITY lim -> lastRefillMs st <= now ->
  let r := consume lim (refill lim (Some st) now) cost in
  lastRefillMs (next r) = now /\ 0 <= tokens (next r) <= 1000 * CAPACITY lim /\
  tokens (next r) + 1000 * match r with Accepted _ => cost | Refused _ _ => 0 end
    <= tokens st + (now - lastRefillMs st) * REFILL_PER_SEC lim.
Proof.
  intros Hc Ht Hn. unfold consume, refill. cbn [tokens lastRefillMs].
  rewrite Z.max_r by lia. set (e := (now - lastRefillMs st) * REFILL_PER_SEC lim).
  assert (0 <= e) by (unfold e; nia).
  destruct (Z.ltb_spec (Z.min (1000 * CAPACITY lim) (tokens st + e)) (1000 * cost));
    cbn [next tokens lastRefillMs]; lia.
Qed.

(** What a bucket lets through between two moments. *)
Lemma spend_bound reqs st :
  0 <= tokens st <= 1000 * CAPACITY lim ->
  Forall (fun r => 0 <= r.2) reqs -> StronglySorted Z.le (lastRefillMs st :: map fst reqs) ->
  0 <= (spend reqs (Some st)).2 /\
  1000 * (spend reqs (Some st)).2 <=
    tokens st + (last_time reqs (lastRefillMs st) - lastRefillMs st) * REFILL_PER_SEC lim.
Proof.
  revert st. induction reqs as [|[now cost] reqs IH]; intros st Ht Hf Hs.
  - cbn. unfold last_time. cbn. lia.
  - apply Forall_cons in Hf as [Hc Hf]. cbn [map fst] in Hs.
    apply StronglySorted_inv in Hs as [Hs Hn]. apply Forall_cons in Hn as [Hn _].
    destruct (consume_spec st now cost Hc Ht Hn) as (El & Ht' & Hb).
    cbn [spend]. set (r := consume lim (refill lim (Some st) now) cost) in *.
    specialize (IH (next r) Ht' Hf). rewrite El in IH. specialize (IH Hs).
    rewrite last_time_cons. cbn [fst] in *.
    destruct (spend reqs (Some (next r))) as [st' total]. cbn [snd] in *.
    assert (E : (last_time reqs now - lastRefillMs st) * REFILL_PER_SEC lim =
      (last_time reqs now - now) * REFILL_PER_SEC lim + (now - lastRefillMs st) * REFILL_PER_SEC lim) by ring.
    rewrite E. cbn [snd] in Hc. destruct r; cbn [snd next] in *; lia.
Qed.

End run.

(** ** Properties *)

(** C34: a bucket bounds what it lets through.  For one subject whose requests come
    with non-decreasing clocks, the total cost accepted is at most the capacity plus
    the refill rate times the time between the first and the last request, whatever
    the requests and their number; refused requests cost nothing. *)
Theorem bucket_bounds_rate lim t0 c0 reqs :
  0 < REFILL_PER_SEC lim -> 0 <= CAPACITY lim ->
  Forall (fun r => 0 <= r.2) ((t0, c0) :: reqs) -> StronglySorted Z.le (t0 :: map fst reqs) ->
  0 <= (spend lim ((t0, c0) :: reqs) None).2 /\
  1000 * (spend lim ((t0, c0) :: reqs) None).2 <=
    1000 * CAPACITY lim + (last_time reqs t0 - t0) * REFILL_PER_SEC lim.
Proof.
  intros Hr Hc Hf Hs.
  pose proof (spend_bound lim Hr ((t0, c0) :: reqs) (mkBucket (1000 * CAPACITY lim) t0)) as H.
  cbn [tokens lastRefillMs] in H. rewrite last_time_cons in H. cbn [fst] in H.
  replace (spend lim ((t0, c0) :: reqs) None) with
    (spend lim ((t0, c0) :: reqs) (Some (mkBucket (1000 * CAPACITY lim) t0))).
  - apply H; [lia|done|]. cbn [map fst]. constructor; [done|].
    apply StronglySorted_inv in Hs as [_ Hs]. by constructor.
  - cbn [spend refill tokens lastRefillMs]. rewrite Z.sub_diag, Z.max_r, Z.mul_0_l, Z.add_0_r, Z.min_id by lia.
    done.
Qed.

Lemma bucket_bounds_rate_witness :
  0 <= (spend RATE_LIMITS [(0, 100); (10, 5); (600, 5)] None).2 /\
  1000 * (spend RATE_LIMITS [(0, 100); (10, 5); (600, 5)] None).2 <=
    1000 * CAPACITY RATE_LIMITS + (last_time [(10, 5); (600, 5)] 0 - 0) * REFILL_PER_SEC RATE_LIMITS.
Proof.
  apply bucket_bounds_rate; [reflexivity|discriminate|..];
    apply (bool_decide_unpack _); vm_compute; exact I.
Defined.

Lemma ceil_div_bound a b : 0 < b -> a <= ceil_div a b * b.
Proof. intros. unfold ceil_div. Z.div_mod_to_equations; nia. Qed.

(** C40: the retry hint is honest.  A refused request of a cost within the capacity is
    accepted when it is presented again the hinted number of seconds later, provided
    the subject sent nothing in between. *)
Theorem retry_hint_suffices lim st now later cost next s :
  0 < REFILL_PER_SEC lim -> 0 <= cost <= CAPACITY lim ->
  consume lim (refill lim st now) cost = Refused next s ->
  now + 1000 * s <= later ->
  exists next', consume lim (refill lim (Some next) later) cost = Accepted next'.
Proof.
  intros Hr Hc Hf Hl. unfold consume in Hf.
  destruct (Z.ltb_spec (tokens (refill lim st now)) (1000 * cost)) as [Hlt|]; [|done].
  injection Hf as <- <-. set (r := refill lim st now) in *.
  assert (El : lastRefillMs r = now) by by destruct st.
  pose proof (ceil_div_bound (1000 * cost - tokens r) (1000 * REFILL_PER_SEC lim) ltac:(lia)) as Hb.
  set (k := ceil_div _ _) in *.
  assert (Hk : 1000 * cost - tokens r <= (later - now) * REFILL_PER_SEC lim).
  { assert (1000 * k <= later - now) by lia. nia. }
  unfold consume, refill. rewrite El. cbn [tokens]. rewrite Z.max_r by lia.
  rewrite (proj2 (Z.ltb_ge _ _)) by lia. by eexists.
Qed.

Lemma retry_hint_suffices_witness :
  exists next', consume RATE_LIMITS (refill RATE_LIMITS (Some (mkBucket 0 50)) 1050) 5 = Accepted next'.
Proof.
  apply (retry_hint_suffices RATE_LIMITS (Some (mkBucket 0 50)) 50 1050 5 (mkBucket 0 50) 1);
    try reflexivity; try (split; discriminate); discriminate.
Defined.

(** ** The map of buckets *)

Lemma length_map_set k b m :
  (length (map_set k b m) <= S (length m))%nat /\
  (forall x, map_get k m = Some x -> length (map_set k b m) = length m).
Proof.
  induction m as [|[k' b'] m IH]; cbn [map_set map_get length]; [split; [lia|done]|].
  destruct (decide (k = k')); cbn [length]; [split; [lia|done]|].
  destruct IH as [IH1 IH2]. split; [lia|]. intros x Hx. f_equal. by eapply IH2.
Qed.

Lemma map_get_set k b m k' :
  map_get k' (map_set k b m) = if decide (k' = k) then Some b else map_get k' m.
Proof.
  induction m as [|[k1 b1] m IH]; cbn [map_set map_get].
  - by destruct (decide (k' = k)).
  - destruct (decide (k = k1)) as [<-|Hne]; cbn [map_get].
    + by destruct (decide (k' = k)).
    + rewrite IH. destruct (decide (k' = k1)) as [-> |]; [|done].
      by rewrite decide_False by congruence.
Qed.

(** The map of buckets stays within its cap, and the budget is per address: below
    the cap a request changes no other address's bucket, and its own is refilled and
    charged whether it is accepted or refused. *)
Theorem pre_auth_map cfip now m :
  Z.of_nat (length m) <= MAX_KEYS ->
  let m' := (preAuthBurstLimit cfip now m).1 in
  Z.of_nat (length m') <= MAX_KEYS /\
  (Z.of_nat (length m) < MAX_KEYS -> forall k,
     map_get k m' = if decide (k = extractClientIp cfip)
                    then Some (next (consumeWithLimits (refillBucketWithLimits (map_get k m) now) COST_PER_REQUEST))
                    else map_get k m).
Proof.
  intros Hm m'. unfold m', preAuthBurstLimit, evict. cbn [fst]. split.
  - match goal with |- context [map_set ?k ?b ?l] => destruct (length_map_set k b l) as [Hl _] end.
    revert Hl. unfold MAX_KEYS in *. destruct (Z.leb_spec 10000 (Z.of_nat (length m))); [|lia].
    change (Z.to_nat (10000 / 10)) with (Z.to_nat 1000). rewrite length_drop. lia.
  - intros Hlt k. rewrite (proj2 (Z.leb_gt _ _)) by lia. rewrite map_get_set.
    destruct (decide (k = extractClientIp cfip)) as [-> |]; done.
Qed.

Lemma pre_auth_map_witness :
  let m' := (preAuthBurstLimit (Some (js "1.2.3.4")) 5 [(js "anonymous", mkBucket 0 0)]).1 in
  Z.of_nat (length m') <= MAX_KEYS /\
  (Z.of_nat (length [(js "anonymous", mkBucket 0 0)]) < MAX_KEYS -> forall k,
     map_get k m' = if decide (k = extractClientIp (Some (js "1.2.3.4")))
                    then Some (next (consumeWithLimits (refillBucketWithLimits
                           (map_get k [(js "anonymous", mkBucket 0 0)]) 5) COST_PER_REQUEST))
                    else map_get k [(js "anonymous", mkBucket 0 0)]).
Proof. apply (pre_auth_map (Some (js "1.2.3.4")) 5 [(js "anonymous", mkBucket 0 0)]). discriminate. Defined.

(** At the cap the oldest tenth is dropped before the caller's bucket is read: the
    first address to be seen gets a full bucket again, however it was used since. *)
Lemma eviction_refills_oldest k b m now :
  MAX_KEYS <= Z.of_nat (length ((k, b) :: m)) -> k <> [] -> map_get k m = None ->
  (preAuthBurstLimit (Some k) now ((k, b) :: m)).2 = None.
Proof.
  intros Hl Hk Hn. unfold preAuthBurstLimit, evict. cbn [snd].
  rewrite (proj2 (Z.leb_le _ _)) by done.
  destruct k as [|c k]; [done|]. cbn [extractClientIp].
  change (Z.to_nat (MAX_KEYS / 10)) with (Z.to_nat 1000).
  replace (Z.to_nat 1000) with (S (Z.to_nat 999)) by lia. cbn [drop].
  replace (map_get (c :: k) (drop (Z.to_nat 999) m)) with (@None BucketState); [reflexivity|].
  symmetry. revert Hn. generalize (Z.to_nat 999). clear. induction m as [|[k' b'] m IH]; intros n Hn; [by destruct n|].
  destruct n as [|n]; [done|]. cbn [drop map_get] in *. apply IH.
  by destruct (decide (c :: k = k')).
Qed.

End RateBucket.
