(* ===== verification/Vault.v ===== *)
(** The credential vault's pure library, src/vault/src/vault.ts: validation of names,
    URLs and payloads, the access check and its glob matcher, the sanitised response
    and the proxied request. *)
From S2P Require Import Prelude JsString Json.

Module Vault.

Record StoredCredential := mkCred {
  upstream : jsstr;
  headers : list (jsstr * jsstr);
  allowedSubs : list jsstr;
}.

(** ** Validation *)

Definition is_alnum (c : Z) : bool :=
  ((97 <=? c) && (c <=? 122)) || ((65 <=? c) && (c <=? 90)) || ((48 <=? c) && (c <=? 57)).

(** /^[a-zA-Z0-9][a-zA-Z0-9_-]*$/ *)
Definition validateServiceName (name : jsstr) : bool :=
  match name with
  | [] => false
  | c :: rest => is_alnum c && forallb (fun c => is_alnum c || (c =? 95) || (c =? 45)) rest
  end.

(** The parts of a parsed URL the check reads. *)
Record UrlParts := mkUrl {
  protocol : jsstr; username : jsstr; password : jsstr; hostname : jsstr
}.

(** [new URL(s)] and its [searchParams]; [None] is the [TypeError] of a bad URL. *)
Class Url := {
  url_parse : jsstr -> option UrlParts;
  url_params : jsstr -> list (jsstr * jsstr);
  url_set_param : jsstr -> jsstr -> jsstr -> jsstr;
}.

Definition is_lower_alnum (c : Z) : bool :=
  ((97 <=? c) && (c <=? 122)) || ((48 <=? c) && (c <=? 57)).

(** /^[a-z0-9]([a-z0-9.-]*[a-z0-9])?$/ *)
Definition dns_shape (host : jsstr) : bool :=
  match host, last host with
  | c :: _, Some d =>
      is_lower_alnum c && is_lower_alnum d &&
      forallb (fun c => is_lower_alnum c || (c =? 46) || (c =? 45)) host
  | _, _ => false
  end.

Definition validateUpstreamUrl `{Url} (url : jsstr) : bool :=
  match url_parse url with
  | None => false
  | Some parsed =>
      if negb (bool_decide (protocol parsed = js "https:")) then false
      else if negb (bool_decide (username parsed = [])) || negb (bool_decide (password parsed = []))
      then false
      else
        let host := to_lower (hostname parsed) in
        if includes 91 host || includes 93 host || includes 58 host then false
        else if negb (bool_decide (host = [])) && forallb (fun c => is_digit c || (c =? 46)) host then false
        else if bool_decide (host = js "localhost") || ends_with (js ".localhost") host then false
        else if ends_with (js ".internal") host then false
        else if negb (includes 46 host) then false
        else dns_shape host
  end.

(** [CREDENTIAL_LIMITS] *)
Definition MAX_HEADER_COUNT : Z := 32.
Definition MAX_HEADER_KEY_BYTES : Z := 256.
Definition MAX_HEADER_VALUE_BYTES : Z := 8 * 1024.
Definition MAX_TOTAL_HEADERS_BYTES : Z := 16 * 1024.
Definition MAX_ALLOWED_SUBS_COUNT : Z := 64.
Definition MAX_ALLOWED_SUB_BYTES : Z := 512.

Inductive payload_error :=
  | TooManyHeaders (n : Z) | HeaderKeyTooLong (n : Z) | HeaderValueTooLong (n : Z)
  | HeadersTooLarge (n : Z) | TooManySubs (n : Z) | SubTooLong (n : Z).

Definition utf8_len (s : jsstr) : Z := Z.of_nat (length (utf8_encode s)).

(** The loop over the headers, with the bytes counted so far. *)
Fixpoint header_bytes (total : Z) (hs : list (jsstr * jsstr)) : result payload_error Z :=
  match hs with
  | [] => Ok total
  | (k, v) :: hs =>
      let kBytes := utf8_len k in
      if MAX_HEADER_KEY_BYTES <? kBytes then Throw (HeaderKeyTooLong kBytes) else
      let vBytes := utf8_len v in
      if MAX_HEADER_VALUE_BYTES <? vBytes then Throw (HeaderValueTooLong vBytes) else
      header_bytes (total + (kBytes + vBytes)) hs
  end.

Fixpoint check_subs (subs : list jsstr) : result payload_error unit :=
  match subs with
  | [] => Ok tt
  | s :: subs =>
      let sBytes := utf8_len s in
      if MAX_ALLOWED_SUB_BYTES <? sBytes then Throw (SubTooLong sBytes) else check_subs subs
  end.

Definition validateCredentialPayload (cred : StoredCredential) : result payload_error unit :=
  let n := Z.of_nat (length (headers cred)) in
  if MAX_HEADER_COUNT <? n then Throw (TooManyHeaders n) else
  let? total := header_bytes 0 (headers cred) in
  if MAX_TOTAL_HEADERS_BYTES <? total then Throw (HeadersTooLarge total) else
  let m := Z.of_nat (length (allowedSubs cred)) in
  if MAX_ALLOWED_SUBS_COUNT <? m then Throw (TooManySubs m) else
  check_subs (allowedSubs cred).

(** ** Errors *)

Record ErrorBody := mkErrorBody { error : jsstr; service : jsstr }.

Definition buildErrorResponse (type sub service : jsstr) (cred : option StoredCredential)
    : ErrorBody := mkErrorBody type service.

(** ** Access control *)

Definition STAR : Z := 42.

(** The loop of [globMatch]: segment [i] and what follows, from position [pos]. *)
Fixpoint match_segments (first : bool) (pos : nat) (segments : list jsstr) (value : jsstr) : bool :=
  match segments with
  | [] => true
  | seg :: rest =>
      if bool_decide (seg = []) then match_segments false pos rest value
      else if first then
        if starts_with seg value then match_segments false (length seg) rest value else false
      else
        match rest with
        | [] =>
            if negb (ends_with seg value) then false
            else negb (length value - length seg <? pos)%nat
        | _ =>
            match index_of_from seg value pos with
            | None => false
            | Some idx => match_segments false (idx + length seg) rest value
            end
        end
  end.

Definition globMatch (pattern value : jsstr) : bool :=
  if bool_decide (pattern = [STAR]) then true
  else if negb (includes STAR pattern) then bool_decide (pattern = value)
  else match_segments true 0 (split_on STAR pattern) value.

(** /[\x00-\x1f]/ *)
Definition has_control (s : jsstr) : bool := existsb (fun c => (0 <=? c) && (c <=? 31)) s.

Definition checkAccess (allowedSubs : list jsstr) (sub : jsstr) : bool :=
  if has_control sub then false else existsb (fun pattern => globMatch pattern sub) allowedSubs.

(** ** Headers *)

(** A [Headers] object: values by lower-case name. *)
Abbreviation Headers := (gmap (list Z) jsstr).

(** The characters of a header name, and of a value after normalisation. *)
Definition is_token (c : Z) : bool :=
  is_alnum c || bool_decide (c ∈ [33; 35; 36; 37; 38; 39; 42; 43; 45; 46; 94; 95; 96; 124; 126]).
Definition http_space (c : Z) : bool := bool_decide (c ∈ [9; 10; 13; 32]).
Fixpoint strip_left (s : jsstr) : jsstr :=
  match s with c :: s' => if http_space c then strip_left s' else s | [] => [] end.
Definition normalize (v : jsstr) : jsstr := reverse (strip_left (reverse (strip_left v))).
Definition value_ok (v : jsstr) : bool :=
  forallb (fun c => (c <=? 255) && negb (bool_decide (c ∈ [0; 10; 13]))) v.

(** [headers.set(key, value)]; [None] is a [TypeError]. *)
Definition headers_set (key value : jsstr) (h : Headers) : option Headers :=
  let value := normalize value in
  if bool_decide (key <> []) && forallb is_token key && value_ok value
  then Some (<[to_lower key := value]> h) else None.

Fixpoint set_all (kvs : list (jsstr * jsstr)) (h : Headers) : option Headers :=
  match kvs with
  | [] => Some h
  | (k, v) :: kvs => h ← headers_set k v h; set_all kvs h
  end.

Definition ALLOWED_RESPONSE_HEADERS : list jsstr := map js
  ["content-type"; "content-length"; "content-encoding"; "cache-control"; "etag";
   "last-modified"; "date"; "x-ratelimit-limit"; "x-ratelimit-remaining";
   "x-ratelimit-reset"; "retry-after"]%string.

Record Response := mkResponse { status : Z; rheaders : list (jsstr * jsstr); rbody : bytes }.

(** The sanitised response: its status, headers and body. *)
Definition sanitizeResponse (up : Response) : option (Z * Headers * bytes) :=
  h ← set_all (filter (fun kv => to_lower kv.1 ∈ ALLOWED_RESPONSE_HEADERS) (rheaders up)) ∅;
  Some (status up, h, rbody up).

Definition STRIPPED_HEADERS : list jsstr := map js
  ["authorization"; "x-client-cert"; "dpop"; "cookie";
   "cf-connecting-ip"; "cf-ray"; "cf-visitor"; "cf-ipcountry"; "cf-worker";
   "x-forwarded-for"; "x-forwarded-proto"; "x-real-ip";
   "host"; "connection"; "keep-alive"; "transfer-encoding"; "te"; "upgrade"]%string.

Record Incoming := mkIncoming {
  i_url : jsstr; i_method : jsstr; i_headers : list (jsstr * jsstr); i_body : bytes
}.
Record ProxyRequest := mkProxy {
  p_url : jsstr; p_method : jsstr; p_headers : Headers; p_body : option bytes
}.

Definition forwarded (incoming : Incoming) : list (jsstr * jsstr) :=
  filter (fun kv => to_lower kv.1 ∉ STRIPPED_HEADERS) (i_headers incoming).

(** [None] where a URL or a header is rejected by the platform. *)
Definition buildProxyRequest `{Url} (incoming : Incoming) (cred : StoredCredential)
    : option ProxyRequest :=
  _ ← url_parse (i_url incoming);
  _ ← url_parse (upstream cred);
  let url := foldl (fun u kv => url_set_param u kv.1 kv.2) (upstream cred)
                   (url_params (i_url incoming)) in
  h ← set_all (forwarded incoming) ∅;
  h ← set_all (headers cred) h;
  let hasBody := negb (bool_decide (i_method incoming = js "GET")) &&
                 negb (bool_decide (i_method incoming = js "HEAD")) in
  Some (mkProxy url (i_method incoming) h (if hasBody then Some (i_body incoming) else None)).

(** ** What a pattern matches *)

(** The language of a glob: [*] stands for any text. *)
Inductive glob : jsstr -> jsstr -> Prop :=
  | glob_nil : glob [] []
  | glob_unit c p v : c <> STAR -> glob p v -> glob (c :: p) (c :: v)
  | glob_star_end p v : glob p v -> glob (STAR :: p) v
  | glob_star_more p c v : glob (STAR :: p) v -> glob (STAR :: p) (c :: v).

Lemma glob_literal s p v : STAR ∉ s -> glob (s ++ p) v <-> exists w, v = s ++ w /\ glob p w.
Proof.
  revert v. induction s as [|c s IH]; intros v Hs; cbn [app].
  - split; [eauto|]. by intros (w & -> & ?).
  - rewrite not_elem_of_cons in Hs. destruct Hs as [Hc Hs]. split.
    + intros Hg. inversion Hg; subst; try done.
      apply IH in H3 as (w & -> & ?); [|done]. by exists w.
    + intros (w & -> & Hw). constructor; [done|]. apply IH; [done|]. by exists w.
Qed.

Lemma glob_star p v : glob (STAR :: p) v <-> exists g w, v = g ++ w /\ glob p w.
Proof.
  split.
  - intros Hg. remember (STAR :: p) as q eqn:E. revert E.
    induction Hg as [|c q v Hc _ _|q v Hg _|q c v _ IH]; intros [= ->]; subst; [done|..].
    + by exists [], v.
    + destruct (IH eq_refl) as (g & w & -> & ?). by exists (c :: g), w.
  - intros (g & w & -> & Hw). induction g as [|c g IH]; [by constructor|]. by constructor.
Qed.

(** The text left after the first segment, one gap before each further segment. *)
Fixpoint tail_fits (segments : list jsstr) (v : jsstr) : Prop :=
  match segments with
  | [] => v = []
  | seg :: rest => exists g w, v = g ++ seg ++ w /\ tail_fits rest w
  end.

Lemma glob_tail rest v :
  Forall (fun seg => STAR ∉ seg) rest -> rest <> [] ->
  glob (STAR :: join [STAR] rest) v <-> tail_fits rest v.
Proof.
  revert v. induction rest as [|seg rest IH]; intros v Hf Hn; [done|].
  apply Forall_cons in Hf as [Hs Hf]. rewrite glob_star. cbn [tail_fits].
  destruct rest as [|seg' rest].
  - cbn [join tail_fits]. split.
    + intros (g & w & -> & Hw). rewrite <- (app_nil_r seg) in Hw.
      apply glob_literal in Hw as (w' & -> & Hw'); [|done]. exists g, w'. split; [done|].
      by inversion Hw'.
    + intros (g & w & -> & ->). exists g, (seg ++ []). split; [done|].
      rewrite <- (app_nil_r seg) at 1. apply glob_literal; [done|]. exists []. split; [done|constructor].
  - cbn [join]. split.
    + intros (g & w & -> & Hw). apply glob_literal in Hw as (w' & -> & Hw'); [|done].
      exists g, w'. split; [done|]. by apply IH.
    + intros (g & w & -> & Hw). exists g, (seg ++ w). split; [done|].
      apply glob_literal; [done|]. exists w. split; [done|]. by apply IH.
Qed.

Lemma tail_absorb rest g w : rest <> [] -> tail_fits rest w -> tail_fits rest (g ++ w).
Proof.
  destruct rest as [|seg rest]; [done|]. intros _ (g' & w' & -> & Hw).
  exists (g ++ g'), w'. by rewrite <- app_assoc.
Qed.

(** The greedy search is complete: taking the first occurrence leaves the most text. *)
Lemma tail_first seg rest v i :
  rest <> [] -> index_of seg v = Some i ->
  tail_fits (seg :: rest) v <-> tail_fits rest (drop (i + length seg) v).
Proof.
  intros Hn Hi. split.
  - intros (g & w & -> & Hw).
    destruct (index_of_first seg g w) as (j & Hj & Hle). rewrite Hi in Hj. injection Hj as <-.
    assert (E : drop (i + length seg) (g ++ seg ++ w) =
                drop (i + length seg) (g ++ seg) ++ w).
    { rewrite app_assoc. apply drop_app_le. rewrite length_app. lia. }
    rewrite E. by apply tail_absorb.
  - intros Hw. apply index_of_Some in Hi as (g & w & -> & <-). exists g, w. split; [done|].
    by rewrite <- length_app, app_assoc, drop_app_length in Hw.
Qed.

Lemma match_segments_tail rest pos v :
  rest <> [] -> (pos <= length v)%nat ->
  match_segments false pos rest v = true <-> tail_fits rest (drop pos v).
Proof.
  revert pos. induction rest as [|seg rest IH]; intros pos Hn Hp; [done|].
  cbn [match_segments]. case_bool_decide as E.
  - subst seg. destruct rest as [|seg' rest].
    + split; [intros _|done]. exists (drop pos v), []. by rewrite app_nil_r.
    + rewrite IH by done. split; [intros H; by exists [], (drop pos v)|].
      intros (g & w & -> & Hw). by apply tail_absorb.
  - destruct rest as [|seg' rest].
    + cbn [tail_fits]. destruct (ends_with seg v) eqn:Ee; cbn [negb].
      * apply ends_with_iff in Ee as [t ->]. rewrite length_app in *.
        replace (length t + length seg - length seg)%nat with (length t) by lia.
        rewrite negb_true_iff, Nat.ltb_ge. split.
        -- intros Hle. exists (drop pos t), []. rewrite app_nil_r. split; [|done].
           by rewrite drop_app_le.
        -- intros (g & w & Eg & ->). rewrite app_nil_r in Eg.
           apply (f_equal length) in Eg. rewrite length_drop, !length_app in Eg.
           assert (0 < length seg)%nat by (destruct seg; simpl; [done|lia]). lia.
      * split; [done|]. intros (g & w & Eg & ->). exfalso.
        assert (ends_with seg v = true); [|congruence]. apply ends_with_iff.
        exists (take pos v ++ g). rewrite app_nil_r in Eg.
        by rewrite <- app_assoc, <- Eg, take_drop.
    + unfold index_of_from. destruct (index_of seg (drop pos v)) as [i|] eqn:Ei; cbn [fmap option_fmap option_map].
      * rewrite (tail_first _ _ _ i) by done. rewrite drop_drop.
        replace (pos + (i + length seg))%nat with (pos + i + length seg)%nat by lia.
        apply IH; [done|]. apply index_of_Some in Ei as (g & w & Eg & <-).
        apply (f_equal length) in Eg. rewrite length_drop, !length_app in Eg. lia.
      * split; [done|]. intros (g & w & Eg & _). exfalso. rewrite Eg in Ei.
        destruct (index_of_first seg g w) as (j & Hj & _). congruence.
Qed.

Lemma includes_iff c s : includes c s = true <-> c ∈ s.
Proof.
  unfold includes. rewrite existsb_exists. setoid_rewrite Z.eqb_eq.
  setoid_rewrite <- list_elem_of_In. naive_solver.
Qed.

Lemma globMatch_glob p v : globMatch p v = true <-> glob p v.
Proof.
  unfold globMatch. case_bool_decide as E1.
  - subst p. split; [|done]. intros _. apply glob_star. exists v, []. split; [by rewrite app_nil_r|constructor].
  - destruct (includes STAR p) eqn:Ei; cbn [negb].
    2:{ assert (Hn : STAR ∉ p) by (rewrite <- includes_iff; by rewrite Ei).
        rewrite bool_decide_eq_true. rewrite <- (app_nil_r p) at 2. rewrite glob_literal by done. split.
        - intros <-. exists []. split; [by rewrite app_nil_r|constructor].
        - intros (w & -> & Hw). inversion Hw. by rewrite app_nil_r. }
    apply includes_iff in Ei. destruct (split_on_spec STAR p) as (Hj & Hf & Hn).
    destruct (split_on STAR p) as [|s0 rest] eqn:Es; [done|].
    apply Forall_cons in Hf as [H0 Hf]. destruct rest as [|s1 rest].
    { exfalso. apply H0. cbn [join] in Hj. by rewrite Hj. }
    rewrite <- Hj. cbn [join]. rewrite glob_literal by done.
    cbn [app]. setoid_rewrite (glob_tail (s1 :: rest)); [|done..].
    cbn [match_segments]. case_bool_decide as E0.
    + subst s0. change (match_segments false 0 (s1 :: rest) v = true <-> exists w, v = [] ++ w /\ tail_fits (s1 :: rest) w).
      rewrite match_segments_tail by (done || lia). rewrite drop_0. naive_solver.
    + destruct (starts_with s0 v) eqn:Ev.
      * apply starts_with_iff in Ev as [w ->].
        change (match_segments false (length s0) (s1 :: rest) (s0 ++ w) = true <->
                exists w', s0 ++ w = s0 ++ w' /\ tail_fits (s1 :: rest) w').
        rewrite match_segments_tail by (done || (rewrite length_app; lia)).
        rewrite drop_app_length. split; [eauto|]. by intros (w' & ->%app_inv_head & ?).
      * split; [done|]. intros (w & -> & _). exfalso.
        assert (starts_with s0 (s0 ++ w) = true) by (apply starts_with_iff; eauto). congruence.
Qed.

(** ** Headers after a sequence of [set] calls *)

(** The value the last entry for the lower-case name [n] carries. *)
Fixpoint last_value (n : jsstr) (kvs : list (jsstr * jsstr)) : option jsstr :=
  match kvs with
  | [] => None
  | (k, v) :: kvs =>
      match last_value n kvs with
      | Some x => Some x
      | None => if decide (to_lower k = n) then Some v else None
      end
  end.

Lemma set_all_lookup kvs h h' n :
  set_all kvs h = Some h' ->
  h' !! n = match last_value n kvs with Some v => Some (normalize v) | None => h !! n end.
Proof.
  revert h. induction kvs as [|[k v] kvs IH]; intros h; cbn [set_all last_value]; [by intros [= ->]|].
  unfold headers_set at 1. destruct (_ && _); cbn; [|done]. intros Hs.
  rewrite (IH _ Hs). destruct (last_value n kvs); [done|].
  destruct (decide (to_lower k = n)) as [<-|Hne]; [by rewrite lookup_insert_eq|].
  by rewrite lookup_insert_ne.
Qed.

Lemma last_value_filter (P : jsstr * jsstr -> Prop) `{forall x, Decision (P x)} n kvs v :
  last_value n (filter P kvs) = Some v -> exists k, P (k, v) /\ to_lower k = n.
Proof.
  induction kvs as [|[k u] kvs IH]; [done|]. rewrite filter_cons. destruct (decide (P (k, u))); [|done].
  cbn [last_value]. destruct (last_value n _); [intros [= ->]; auto|].
  destruct (decide (to_lower k = n)); [intros [= ->]; eauto|done].
Qed.

Lemma sanitizeResponse_spec up st h b :
  sanitizeResponse up = Some (st, h, b) ->
  st = status up /\ b = rbody up /\ forall n v, h !! n = Some v -> n ∈ ALLOWED_RESPONSE_HEADERS.
Proof.
  unfold sanitizeResponse. destruct (set_all _ ∅) as [h3|] eqn:E3; [|done]. cbn [mbind option_bind].
  intros Hs. assert (st = status up /\ h = h3 /\ b = rbody up) as (-> & -> & ->)
    by (split; [congruence|split; congruence]).
  split; [done|]. split; [done|]. intros n v Hv. rewrite (set_all_lookup _ _ _ n E3) in Hv.
  destruct (last_value n _) as [u|] eqn:Eu; [|by rewrite lookup_empty in Hv].
  apply last_value_filter in Eu as (k & Hk & <-). exact Hk.
Qed.

(** ** Payload limits *)

Lemma header_bytes_ok hs t0 t :
  header_bytes t0 hs = Ok t <->
  Forall (fun kv => utf8_len kv.1 <= MAX_HEADER_KEY_BYTES /\ utf8_len kv.2 <= MAX_HEADER_VALUE_BYTES) hs /\
  t = t0 + foldr Z.add 0 (map (fun kv => utf8_len kv.1 + utf8_len kv.2) hs).
Proof.
  revert t0. induction hs as [|[k v] hs IH]; intros t0; cbn [header_bytes map foldr].
  - rewrite Z.add_0_r. split; [intros [= ->]; by split|]. by intros [_ ->].
  - rewrite Forall_cons. cbn [fst snd].
    destruct (Z.ltb_spec MAX_HEADER_KEY_BYTES (utf8_len k)); [split; [done|]; intros [[[? ?] ?] ?]; lia|].
    destruct (Z.ltb_spec MAX_HEADER_VALUE_BYTES (utf8_len v)); [split; [done|]; intros [[[? ?] ?] ?]; lia|].
    rewrite IH. rewrite <- !Z.add_assoc. naive_solver.
Qed.

Lemma check_subs_ok subs :
  check_subs subs = Ok tt <-> Forall (fun s => utf8_len s <= MAX_ALLOWED_SUB_BYTES) subs.
Proof.
  induction subs as [|s subs IH]; cbn [check_subs]; [by split|]. rewrite Forall_cons.
  destruct (Z.ltb_spec MAX_ALLOWED_SUB_BYTES (utf8_len s)); [split; [done|]; intros [? _]; lia|].
  rewrite IH. naive_solver.
Qed.

(** ** Properties *)

(** The matcher without regular expressions or backtracking is the glob language.
    For every pattern and value the scan answers [true] exactly when the value is the
    pattern with each [*] replaced by some text; and access is granted exactly to
    subjects without control characters that some allowed pattern matches. *)
Theorem checkAccess_spec allowed sub :
  (forall p, globMatch p sub = true <-> glob p sub) /\
  (checkAccess allowed sub = true <-> has_control sub = false /\ exists p, p ∈ allowed /\ glob p sub).
Proof.
  split; [intros p; apply globMatch_glob|]. unfold checkAccess.
  destruct (has_control sub); [split; [done|by intros [? _]]|].
  rewrite existsb_exists. setoid_rewrite globMatch_glob. setoid_rewrite <- list_elem_of_In. naive_solver.
Qed.

(** A payload is accepted exactly within its limits: at most 32 headers, keys of
    at most 256 and values of at most 8192 UTF-8 bytes, 16384 bytes in all, and at
    most 64 subject patterns of at most 512 bytes. *)
Theorem payload_limits cred :
  validateCredentialPayload cred = Ok tt <->
  Z.of_nat (length (headers cred)) <= 32 /\
  Forall (fun kv => utf8_len kv.1 <= 256 /\ utf8_len kv.2 <= 8192) (headers cred) /\
  foldr Z.add 0 (map (fun kv => utf8_len kv.1 + utf8_len kv.2) (headers cred)) <= 16384 /\
  Z.of_nat (length (allowedSubs cred)) <= 64 /\
  Forall (fun s => utf8_len s <= 512) (allowedSubs cred).
Proof.
  unfold validateCredentialPayload.
  destruct (Z.ltb_spec MAX_HEADER_COUNT (Z.of_nat (length (headers cred)))) as [Hc|Hc];
    unfold MAX_HEADER_COUNT in Hc; [split; [done|]; intros [? _]; lia|].
  destruct (header_bytes 0 (headers cred)) as [t|e] eqn:Eh; cbn [rbind].
  - apply header_bytes_ok in Eh as [Hf ->]. rewrite Z.add_0_l.
    destruct (Z.ltb_spec MAX_TOTAL_HEADERS_BYTES (foldr Z.add 0 (map (fun kv => utf8_len kv.1 + utf8_len kv.2) (headers cred))))
      as [Ht|Ht]; change MAX_TOTAL_HEADERS_BYTES with 16384 in Ht;
      [split; [done|]; intros (_ & _ & ? & _); lia|].
    destruct (Z.ltb_spec MAX_ALLOWED_SUBS_COUNT (Z.of_nat (length (allowedSubs cred)))) as [Hm|Hm];
      change MAX_ALLOWED_SUBS_COUNT with 64 in Hm; [split; [done|]; intros (_ & _ & _ & ? & _); lia|].
    rewrite check_subs_ok. split; [by repeat split|]. by intros (_ & _ & _ & _ & ?).
  - split; [done|]. intros (_ & Hf & _). exfalso.
    assert (header_bytes 0 (headers cred) = Ok (0 + foldr Z.add 0
      (map (fun kv => utf8_len kv.1 + utf8_len kv.2) (headers cred)))) by (by apply header_bytes_ok).
    congruence.
Qed.

(** What reaches the upstream, and what comes back.  In a proxied request every
    header named by the credential has the credential's value, whatever the caller
    sent; no identity, routing or hop-by-hop header of the caller is forwarded; a GET
    or HEAD carries no body.  A sanitised response has only allowed headers and the
    upstream's status and body. *)
Theorem proxied_headers `{Url} incoming cred r :
  buildProxyRequest incoming cred = Some r ->
  (forall n v, last_value n (headers cred) = Some v -> p_headers r !! n = Some (normalize v)) /\
  (forall n, last_value n (headers cred) = None -> n ∈ STRIPPED_HEADERS -> p_headers r !! n = None) /\
  (p_body r = None <-> i_method incoming = js "GET" \/ i_method incoming = js "HEAD") /\
  (forall up st h b, sanitizeResponse up = Some (st, h, b) ->
     st = status up /\ b = rbody up /\ forall n v, h !! n = Some v -> n ∈ ALLOWED_RESPONSE_HEADERS).
Proof.
  unfold buildProxyRequest. destruct (url_parse (i_url incoming)); cbn; [|done].
  destruct (url_parse (upstream cred)); cbn; [|done].
  destruct (set_all (forwarded incoming) ∅) as [h1|] eqn:E1; cbn; [|done].
  destruct (set_all (headers cred) h1) as [h2|] eqn:E2; cbn; [|done].
  intros [= <-]. cbn [p_headers p_body]. split; [|split; [|split]].
  - intros n v Hv. by rewrite (set_all_lookup _ _ _ n E2), Hv.
  - intros n Hv Hn. rewrite (set_all_lookup _ _ _ n E2), Hv, (set_all_lookup _ _ _ n E1).
    destruct (last_value n (forwarded incoming)) as [v|] eqn:Ef; [|apply lookup_empty].
    apply last_value_filter in Ef as (k & Hk & E). cbn [fst] in Hk. by rewrite E in Hk.
  - repeat case_bool_decide; cbn; naive_solver.
  - apply sanitizeResponse_spec.
Qed.

(** ** A closed example *)

Definition demo_url : Url :=
  {| url_parse := fun u => Some (mkUrl (js "https:") [] [] u);
     url_params := fun _ => [(js "q", js "1")];
     url_set_param := fun u k v => u ++ [63] ++ k ++ [61] ++ v |}.
Definition demo_incoming : Incoming :=
  mkIncoming (js "https://c/x?q=1") (js "GET")
    [(js "accept", js "*/*"); (js "cookie", js "a=b"); (js "apikey", js "caller")] [].
Definition demo_cred : StoredCredential :=
  mkCred (js "https://api.example.com/") [(js "apiKey", js "sk-1")] [js "repo:*"].
Definition demo_proxied : ProxyRequest :=
  mkProxy (js "https://api.example.com/?q=1") (js "GET")
    {[ js "accept" := js "*/*"; js "apikey" := js "sk-1" ]} None.

Lemma proxied_headers_witness :
  (forall n v, last_value n (headers demo_cred) = Some v -> p_headers demo_proxied !! n = Some (normalize v)) /\
  (forall n, last_value n (headers demo_cred) = None -> n ∈ STRIPPED_HEADERS -> p_headers demo_proxied !! n = None) /\
  (p_body demo_proxied = None <->
     i_method demo_incoming = js "GET" \/ i_method demo_incoming = js "HEAD") /\
  (forall up st h b, sanitizeResponse up = Some (st, h, b) ->
     st = status up /\ b = rbody up /\ forall n v, h !! n = Some v -> n ∈ ALLOWED_RESPONSE_HEADERS).
Proof. apply (@proxied_headers demo_url). vm_compute. reflexivity. Defined.

End Vault.
