(* ===== verification/VaultStore.v ===== *)
(** The CredentialVault Durable Object, src/src/vault-store.ts: credentials by
    (subject, service), a token bucket and an in-flight count per subject, the pinned
    key-source specification, and the proxied request.

    The envelope encryption of vault/src/crypto.ts is an interface here ([Envelope]):
    its laws are what the object needs of it, and VaultKey.v implements it.  The text columns that hold JSON of
    string arrays and of sealed envelopes are modelled by the values themselves. *)
From S2P Require Import Prelude JsString Sql Json JsonText RateBucket Vault.

Module VaultStore.

(** ** What the object is given *)

(** [encrypt] and [decrypt] of vault/src/crypto.ts; [Entropy] is what they draw from
    the platform's generator, [None] a rejected decryption. *)
Class Envelope := {
  Kek : Type;
  Sealed : Type;
  Entropy : Type;
  encrypt : Entropy -> list (jsstr * jsstr) -> Kek -> Sealed;
  decrypt : Sealed -> Kek -> option (list (jsstr * jsstr));
}.
(** A [Record<string, string>] as the program holds one: its properties are listed in the order in
    which an object lists them. *)
Definition header_object (hs : list (jsstr * jsstr)) : Json := JObj (map (fun kv => (kv.1, JStr kv.2)) hs).
Definition header_record (hs : list (jsstr * jsstr)) : bool :=
  JsonText.representable (header_object hs) && bool_decide (JsonText.obj_build [] hs = hs).

Class EnvelopeLaws `{Envelope} : Prop :=
  decrypt_encrypt : forall e hs k, header_record hs = true -> decrypt (encrypt e hs k) k = Some hs.

(** The value of [DEV_VAULT_SEED]: unset or empty, not JSON, or a seed. *)
Inductive seed_var :=
  | NoSeed | BadSeed
  | Seed (peerFp service : jsstr) (cred : Vault.StoredCredential).

Record Env := mkEnv {
  CLOISTER_MODE : option jsstr;
  DEV_VAULT_SEED : seed_var;
  VAULT_KEK_SOURCE : option jsstr;
  VAULT_KEK_TENANT_SCOPED : option jsstr;
}.

(** ** State *)

Section vault.
Context `{Envelope} `{Vault.Url}.

Record Row := mkRow {
  subject_fp : jsstr; service : jsstr; upstream : jsstr; sealed_headers : Sealed;
  allowed_subs : list jsstr
}.

(** The four tables' contents, then the fields of the instance. *)
Record T := mkT {
  credentials : gmap (list Z * list Z) Row;
  rate_buckets : gmap (list Z) RateBucket.BucketState;
  vault_state : gmap (list Z) jsstr;
  inflightBySubject : gmap (list Z) Z;
  kekPromise : option Kek;
  devSeeded : bool;
}.

Definition empty : T := mkT ∅ ∅ ∅ ∅ None false.

Definition set_credentials c (s : T) : T :=
  mkT c (rate_buckets s) (vault_state s) (inflightBySubject s) (kekPromise s) (devSeeded s).
Definition set_buckets b (s : T) : T :=
  mkT (credentials s) b (vault_state s) (inflightBySubject s) (kekPromise s) (devSeeded s).
Definition set_vault_state v (s : T) : T :=
  mkT (credentials s) (rate_buckets s) v (inflightBySubject s) (kekPromise s) (devSeeded s).
Definition set_inflight i (s : T) : T :=
  mkT (credentials s) (rate_buckets s) (vault_state s) i (kekPromise s) (devSeeded s).
Definition set_kek k (s : T) : T :=
  mkT (credentials s) (rate_buckets s) (vault_state s) (inflightBySubject s) k (devSeeded s).
Definition set_seeded (s : T) : T :=
  mkT (credentials s) (rate_buckets s) (vault_state s) (inflightBySubject s) (kekPromise s) true.

Inductive exn :=
  | SubjectRequired
  | SubjectControl
  | RateLimited (retryAfterSec : Z)
  | RejectedCredential (reason : Vault.payload_error)
  | KekSourceMismatch (pinned current : jsstr)
  | KekScopeMismatch (pinned : option jsstr) (current : jsstr)
  | KekSourceUnset
  | KekResolveFailed
  | SqlError (e : SqliteError)
  | Undecryptable
  | BadRequest
  | UpstreamFailed.

Definition V (A : Type) : Type := M T exn A.

(** One call's surroundings: the environment, [Date.now()], what the key source
    answers for a specification ([None]: it fails), the tenant, and the entropy. *)
Record Ctx := mkCtx {
  env : Env;
  now : Z;
  resolve : jsstr -> option jsstr -> option Kek;
  tenantName : option jsstr;
  entropy : Entropy;
}.

(** ** Guards *)

Definition assertSubjectFp (subjectFp : jsstr) : V unit :=
  match subjectFp with
  | [] => throw SubjectRequired
  | _ => if Vault.has_control subjectFp then throw SubjectControl else ret tt
  end.

(** The seconds to wait, on a refusal. *)
Definition consumeBudget (c : Ctx) (subjectFp : jsstr) (cost : Z) : V (option Z) :=
  exec (fun s =>
    let refilled := RateBucket.refillBucket (rate_buckets s !! subjectFp) (now c) in
    let result := RateBucket.tryConsume refilled cost in
    (set_buckets (upsert subjectFp (RateBucket.next result) (rate_buckets s)) s,
     match result with RateBucket.Accepted _ => None | RateBucket.Refused _ r => Some r end)).

Definition inflight_of (s : T) (subjectFp : jsstr) : Z := default 0 (inflightBySubject s !! subjectFp).

Definition checkInflight (subjectFp : jsstr) : V bool :=
  read (fun s => negb (RateBucket.MAX_INFLIGHT <=? inflight_of s subjectFp)).

Definition incInflight (subjectFp : jsstr) : V unit :=
  exec (fun s => (set_inflight (<[subjectFp := inflight_of s subjectFp + 1]> (inflightBySubject s)) s, tt)).

Definition decInflight (subjectFp : jsstr) : V unit :=
  exec (fun s =>
    let next := default 1 (inflightBySubject s !! subjectFp) - 1 in
    (set_inflight (if next <=? 0 then delete subjectFp (inflightBySubject s)
                   else <[subjectFp := next]> (inflightBySubject s)) s, tt)).

(** ** The key *)

Definition trimmed (o : option jsstr) : jsstr := match o with Some s => trim s | None => [] end.
Definition tenant_scoped (e : Env) : bool :=
  bool_decide (trimmed (VAULT_KEK_TENANT_SCOPED e) = js "1").

Definition KEK_SOURCE : jsstr := js "kek_source".
Definition KEK_SCOPED : jsstr := js "kek_tenant_scoped".

(** [INSERT INTO vault_state]: a present key is an error. *)
Definition insert_state (k v : jsstr) : V unit :=
  fun s => match insert_strict k v (vault_state s) with
           | Ok t => (set_vault_state t s, Ok tt)
           | Throw e => (s, Throw (SqlError e))
           end.

Definition assertKekSourceSpecPinned (e : Env) : V unit :=
  let currentSpec := trimmed (VAULT_KEK_SOURCE e) in
  let currentTenantScoped := if tenant_scoped e then js "1" else js "0" in
  let* pinned := read vault_state in
  match pinned !! KEK_SOURCE with
  | None =>
      do* insert_state KEK_SOURCE currentSpec in
      insert_state KEK_SCOPED currentTenantScoped
  | Some pinnedSpec =>
      if negb (bool_decide (pinnedSpec = currentSpec)) then throw (KekSourceMismatch pinnedSpec currentSpec)
      else if negb (bool_decide (pinned !! KEK_SCOPED = Some currentTenantScoped))
      then throw (KekScopeMismatch (pinned !! KEK_SCOPED) currentTenantScoped)
      else ret tt
  end.

(** [#resolveKekSource().resolve().then(deriveKEK)]: the specification must be there;
    a tenant-scoped key is asked for under the object's name. *)
Definition resolveKek (c : Ctx) : V Kek :=
  let explicit := trimmed (VAULT_KEK_SOURCE (env c)) in
  if bool_decide (explicit = []) then throw KekSourceUnset
  else
    let scope := if tenant_scoped (env c) then Some (default (js "cluster") (tenantName c)) else None in
    match resolve c explicit scope with
    | Some k => ret k
    | None => throw KekResolveFailed
    end.

Definition getKEK (c : Ctx) : V Kek :=
  let* memo := read kekPromise in
  match memo with
  | Some k => ret k
  | None =>
      do* assertKekSourceSpecPinned (env c) in
      let* k := resolveKek c in
      exec (fun s => (set_kek (Some k) s, k))
  end.

(** ** Rows *)

Definition readRow (subjectFp service : jsstr) : V (option Vault.StoredCredential) :=
  read (fun s => (fun r => Vault.mkCred (upstream r) [] (allowed_subs r)) <$>
                 credentials s !! (subjectFp, service)).

Definition writeRow (c : Ctx) (subjectFp service : jsstr) (cred : Vault.StoredCredential) : V unit :=
  let* kek := getKEK c in
  let sealed := encrypt (entropy c) (Vault.headers cred) kek in
  exec (fun s => (set_credentials
    (upsert (subjectFp, service)
       (mkRow subjectFp service (Vault.upstream cred) sealed (Vault.allowedSubs cred))
       (credentials s)) s, tt)).

Definition deleteRow (subjectFp service : jsstr) : V bool :=
  exec (fun s =>
    let '(t, n) := delete_where (fun k _ => bool_decide (k = (subjectFp, service))) (credentials s) in
    (set_credentials t s, 0 <? n)).

Definition service_asc (a b : Row) : Prop := text_le (service a) (service b).
#[global] Instance service_asc_dec a b : Decision (service_asc a b).
Proof. unfold service_asc. apply _. Defined.

Definition listRows (subjectFp : jsstr) : V (list jsstr) :=
  read (fun s => map service (order_by service_asc
    (select_where (fun k _ => bool_decide (k.1 = subjectFp)) (credentials s)))).

(** ** Methods *)

(** The budget step that every method but the proxy starts with. *)
Definition charge (c : Ctx) (subjectFp : jsstr) (cost : Z) : V unit :=
  let* refused := consumeBudget c subjectFp cost in
  match refused with Some r => throw (RateLimited r) | None => ret tt end.

Definition putCredential (c : Ctx) (subjectFp service : jsstr) (cred : Vault.StoredCredential) : V unit :=
  do* assertSubjectFp subjectFp in
  do* charge c subjectFp RateBucket.COST_write in
  match Vault.validateCredentialPayload cred with
  | Throw reason => throw (RejectedCredential reason)
  | Ok _ => writeRow c subjectFp service cred
  end.

Definition getCredentialMetadata (c : Ctx) (subjectFp service : jsstr)
    : V (option (jsstr * list jsstr)) :=
  do* assertSubjectFp subjectFp in
  do* charge c subjectFp RateBucket.COST_read in
  let* row := readRow subjectFp service in
  ret ((fun r => (Vault.upstream r, Vault.allowedSubs r)) <$> row).

Definition deleteCredential (c : Ctx) (subjectFp service : jsstr) : V bool :=
  do* assertSubjectFp subjectFp in
  do* charge c subjectFp RateBucket.COST_read in
  deleteRow subjectFp service.

Definition listServices (c : Ctx) (subjectFp : jsstr) : V (list jsstr) :=
  do* assertSubjectFp subjectFp in
  do* charge c subjectFp RateBucket.COST_read in
  listRows subjectFp.

Definition maybeDevSeed (c : Ctx) : V unit :=
  let* seeded := read devSeeded in
  if seeded : bool then ret tt else
  do* exec (fun s => (set_seeded s, tt)) in
  if negb (bool_decide (CLOISTER_MODE (env c) = Some (js "dev"))) then ret tt
  else match DEV_VAULT_SEED (env c) with
       | NoSeed | BadSeed => ret tt
       | Seed peerFp service cred => catch (putCredential c peerFp service cred) (fun _ => ret tt)
       end.

(** The replies: an error body under a status, with a retry hint; or the sanitised
    upstream response. *)
Inductive Reply :=
  | ErrorReply (status : Z) (body : Vault.ErrorBody) (retry_after : option Z)
  | UpstreamReply (r : Z * Vault.Headers * bytes).

Definition not_found (callerSub service : jsstr) : Reply :=
  ErrorReply 404 (Vault.buildErrorResponse (js "not_found") callerSub service None) None.
Definition rate_limited (callerSub service : jsstr) (retry : Z) : Reply :=
  ErrorReply 429 (Vault.buildErrorResponse (js "rate_limited") callerSub service None) (Some retry).

(** [fetch(proxyReq)]: the upstream, or a network error. *)
Definition Upstream : Type := Vault.ProxyRequest -> option Vault.Response.

Definition proxyRequestInner (c : Ctx) (up : Upstream) (subjectFp service callerSub : jsstr)
    (incoming : Vault.Incoming) : V Reply :=
  let* row := read (fun s => credentials s !! (subjectFp, service)) in
  match row with
  | None => ret (not_found callerSub service)
  | Some r =>
      if negb (Vault.checkAccess (allowed_subs r) callerSub) then ret (not_found callerSub service)
      else
        let* kek := getKEK c in
        match decrypt (sealed_headers r) kek with
        | None => throw Undecryptable
        | Some headers =>
            let cred := Vault.mkCred (upstream r) headers (allowed_subs r) in
            match Vault.buildProxyRequest incoming cred with
            | None => throw BadRequest
            | Some proxyReq =>
                match up proxyReq with
                | None => throw UpstreamFailed
                | Some response =>
                    match Vault.sanitizeResponse response with
                    | None => throw BadRequest
                    | Some r => ret (UpstreamReply r)
                    end
                end
            end
        end
  end.

(** The part before the first [await] of the upstream call: a reply, or entry. *)
Definition enterProxy (c : Ctx) (subjectFp service callerSub : jsstr) : V (option Reply) :=
  do* assertSubjectFp subjectFp in
  do* maybeDevSeed c in
  let* free := checkInflight subjectFp in
  if negb free then ret (Some (rate_limited callerSub service 1)) else
  let* refused := consumeBudget c subjectFp RateBucket.COST_proxy in
  match refused with
  | Some retry => ret (Some (rate_limited callerSub service retry))
  | None => do* incInflight subjectFp in ret None
  end.

(** [try { return await m } finally { f }] *)
Definition finally {A} (m : V A) (f : V unit) : V A :=
  fun s => let '(s', r) := m s in
           match f s' with
           | (s'', Ok _) => (s'', r)
           | (s'', Throw e) => (s'', Throw e)
           end.

Definition proxyRequest (c : Ctx) (up : Upstream) (subjectFp service callerSub : jsstr)
    (incoming : Vault.Incoming) : V Reply :=
  let* denied := enterProxy c subjectFp service callerSub in
  match denied with
  | Some r => ret r
  | None => finally (proxyRequestInner c up subjectFp service callerSub incoming)
                    (decInflight subjectFp)
  end.

(** ** Runs of the object *)

Inductive op :=
  | op_put (c : Ctx) (subjectFp service : jsstr) (cred : Vault.StoredCredential)
  | op_get (c : Ctx) (subjectFp service : jsstr)
  | op_delete (c : Ctx) (subjectFp service : jsstr)
  | op_list (c : Ctx) (subjectFp : jsstr)
  | op_proxy (c : Ctx) (up : Upstream) (subjectFp service callerSub : jsstr) (incoming : Vault.Incoming)
  | op_evict.

(** Eviction of the instance keeps the tables and drops the fields. *)
Definition run_op (o : op) (s : T) : T :=
  match o with
  | op_put c p sv cred => (putCredential c p sv cred s).1
  | op_get c p sv => (getCredentialMetadata c p sv s).1
  | op_delete c p sv => (deleteCredential c p sv s).1
  | op_list c p => (listServices c p s).1
  | op_proxy c up p sv sub inc => (proxyRequest c up p sv sub inc s).1
  | op_evict => mkT (credentials s) (rate_buckets s) (vault_state s) ∅ None false
  end.

(** The operation is on behalf of a subject other than [q], in production mode. *)
Definition foreign (q : jsstr) (o : op) : Prop :=
  match o with
  | op_put _ p _ _ | op_get _ p _ | op_delete _ p _ | op_list _ p => p <> q
  | op_proxy c _ p _ _ _ => p <> q /\ CLOISTER_MODE (env c) <> Some (js "dev")
  | op_evict => True
  end.

(** What the object holds for [q] in its tables. *)
Definition same_rows (q : jsstr) (s t : T) : Prop :=
  (forall sv, credentials t !! (q, sv) = credentials s !! (q, sv)) /\
  rate_buckets t !! q = rate_buckets s !! q.

#[local] Instance same_rows_preorder q : PreOrder (same_rows q).
Proof.
  split; [by intros s|]. intros s t u [H1 H2] [H3 H4]. split; [intros sv; by rewrite H3|congruence].
Qed.

Lemma keeps_finally {A} (R : T -> T -> Prop) (m : V A) f :
  PreOrder R -> keeps R m -> keeps R f -> keeps R (finally m f).
Proof.
  intros HR Hm Hf s. unfold finally. specialize (Hm s). destruct (m s) as [s' r]. simpl in Hm.
  specialize (Hf s'). destruct (f s') as [s'' [u|e]]; simpl in *; by etransitivity.
Qed.

(** [walk], with the rule for [finally]. *)
Ltac walk :=
  Prelude.walk;
  repeat (lazymatch goal with
    | |- keeps _ (finally _ _) => apply keeps_finally; [apply _| |]
    end; Prelude.walk).

Lemma assertSubjectFp_keeps R p : PreOrder R -> keeps R (assertSubjectFp p).
Proof. intros HR. unfold assertSubjectFp. walk. Qed.

Lemma insert_state_rows q k v : keeps (same_rows q) (insert_state k v).
Proof. intros s. unfold insert_state. by destruct (insert_strict k v (vault_state s)). Qed.

Lemma getKEK_rows q c : keeps (same_rows q) (getKEK c).
Proof.
  unfold getKEK, assertKekSourceSpecPinned, resolveKek. walk; try apply insert_state_rows.
  by intros s.
Qed.

Lemma charge_rows q c p cost : p <> q -> keeps (same_rows q) (charge c p cost).
Proof.
  intros Hp. unfold charge. walk. intros s. unfold consumeBudget. mrun. split; [done|]. simpl.
  unfold upsert. by rewrite lookup_insert_ne.
Qed.

Lemma budget_rows q c p cost : p <> q -> keeps (same_rows q) (consumeBudget c p cost).
Proof.
  intros Hp s. unfold consumeBudget. mrun. split; [done|]. simpl. unfold upsert. by rewrite lookup_insert_ne.
Qed.

Lemma writeRow_rows q c p sv cred : p <> q -> keeps (same_rows q) (writeRow c p sv cred).
Proof.
  intros Hp. unfold writeRow. apply keeps_bind; [apply _|apply getKEK_rows|]. intros k s. mrun.
  split; [|done]. intros sv'. simpl. unfold upsert. apply lookup_insert_ne. congruence.
Qed.

Lemma deleteRow_rows q p sv : p <> q -> keeps (same_rows q) (deleteRow p sv).
Proof.
  intros Hp s. unfold deleteRow. mrun. split; [|done]. intros sv'. simpl.
  destruct (credentials s !! (q, sv')) as [r|] eqn:E.
  - apply map_lookup_filter_Some. split; [done|]. simpl. rewrite bool_decide_false; [done|]. congruence.
  - apply map_lookup_filter_None. by left.
Qed.

Lemma enterProxy_rows q c p sv sub :
  p <> q -> CLOISTER_MODE (env c) <> Some (js "dev") -> keeps (same_rows q) (enterProxy c p sv sub).
Proof.
  intros Hp Hm. unfold enterProxy, maybeDevSeed. rewrite (bool_decide_false (CLOISTER_MODE (env c) = _)) by done.
  cbn [negb]. walk; try (by intros s); try (by apply assertSubjectFp_keeps; apply _).
  by apply budget_rows.
Qed.

Lemma run_op_rows q o s : foreign q o -> same_rows q s (run_op o s).
Proof.
  destruct o as [c p sv cred|c p sv|c p sv|c p|c up p sv sub inc|]; cbn [foreign run_op]; intros Hf.
  - revert s. change (keeps (same_rows q) (putCredential c p sv cred)). unfold putCredential.
    walk; [by apply assertSubjectFp_keeps, _|by apply charge_rows|by apply writeRow_rows].
  - revert s. change (keeps (same_rows q) (getCredentialMetadata c p sv)). unfold getCredentialMetadata, readRow.
    walk; [by apply assertSubjectFp_keeps, _|by apply charge_rows].
  - revert s. change (keeps (same_rows q) (deleteCredential c p sv)). unfold deleteCredential.
    walk; [by apply assertSubjectFp_keeps, _|by apply charge_rows|by apply deleteRow_rows].
  - revert s. change (keeps (same_rows q) (listServices c p)). unfold listServices, listRows.
    walk; [by apply assertSubjectFp_keeps, _|by apply charge_rows].
  - destruct Hf as [Hp Hm]. revert s. change (keeps (same_rows q) (proxyRequest c up p sv sub inc)).
    unfold proxyRequest, proxyRequestInner. apply keeps_bind; [apply _|by apply enterProxy_rows|].
    intros denied. walk; try apply getKEK_rows. by intros s.
  - done.
Qed.

(** The pinned values only ever grow. *)
Definition pins_kept (s t : T) : Prop :=
  forall k v, vault_state s !! k = Some v -> vault_state t !! k = Some v.

#[local] Instance pins_kept_preorder : PreOrder pins_kept.
Proof. split; [by intros s k v|]. intros s t u H1 H2 k v Hv. by apply H2, H1. Qed.

Lemma insert_state_pins k v : keeps pins_kept (insert_state k v).
Proof.
  intros s k' v' Hv. unfold insert_state, insert_strict.
  destruct (vault_state s !! k) eqn:E; [done|]. simpl. rewrite lookup_insert_ne; [done|]. congruence.
Qed.

Lemma getKEK_pins c : keeps pins_kept (getKEK c).
Proof.
  unfold getKEK, assertKekSourceSpecPinned, resolveKek. walk; try apply insert_state_pins. by intros s k v.
Qed.

Lemma charge_pins c p cost : keeps pins_kept (charge c p cost).
Proof. unfold charge. walk. by intros s k v. Qed.

Lemma put_pins c p sv cred : keeps pins_kept (putCredential c p sv cred).
Proof.
  unfold putCredential, writeRow. walk; [by apply assertSubjectFp_keeps, _|apply charge_pins|apply getKEK_pins|].
  by intros s k v.
Qed.

Lemma enterProxy_pins c p sv sub : keeps pins_kept (enterProxy c p sv sub).
Proof.
  unfold enterProxy, maybeDevSeed. walk; try apply put_pins; try (by apply assertSubjectFp_keeps, _); by intros s k v.
Qed.

Lemma inner_pins c up p sv sub inc : keeps pins_kept (proxyRequestInner c up p sv sub inc).
Proof. unfold proxyRequestInner. walk. apply getKEK_pins. Qed.

Lemma run_op_pins o s : pins_kept s (run_op o s).
Proof.
  destruct o as [c p sv cred|c p sv|c p sv|c p|c up p sv sub inc|]; cbn [run_op]; [..|by intros k v];
    revert s.
  - apply put_pins.
  - change (keeps pins_kept (getCredentialMetadata c p sv)). unfold getCredentialMetadata, readRow.
    walk; [by apply assertSubjectFp_keeps, _|apply charge_pins].
  - change (keeps pins_kept (deleteCredential c p sv)). unfold deleteCredential.
    walk; [by apply assertSubjectFp_keeps, _|apply charge_pins|by intros s k v].
  - change (keeps pins_kept (listServices c p)). unfold listServices, listRows.
    walk; [by apply assertSubjectFp_keeps, _|apply charge_pins].
  - change (keeps pins_kept (proxyRequest c up p sv sub inc)). unfold proxyRequest.
    walk; [apply enterProxy_pins|apply inner_pins|by intros s k v].
Qed.

Lemma foldl_keeps (R : T -> T -> Prop) (P : op -> Prop) ops s :
  PreOrder R -> (forall o s, P o -> R s (run_op o s)) -> Forall P ops ->
  R s (foldl (fun s o => run_op o s) s ops).
Proof.
  intros HR Ho Hf. revert s. induction Hf as [|o ops Hp _ IH]; intros s; cbn [foldl]; [reflexivity|].
  etransitivity; [by apply (Ho o s)|apply IH].
Qed.

(** ** Proxies in flight *)

(** The object, and the subjects whose upstream call has not ended. *)
Record node := mkNode { st : T; flights : list jsstr }.

Inductive node_step : node -> node -> Prop :=
  | step_enter c p sv sub s s' fl :
      enterProxy c p sv sub s = (s', Ok None) -> node_step (mkNode s fl) (mkNode s' (p :: fl))
  | step_denied c p sv sub s s' r fl :
      enterProxy c p sv sub s = (s', r) -> r <> Ok None -> node_step (mkNode s fl) (mkNode s' fl)
  | step_inner c up p sv sub inc s fl :
      p ∈ fl -> node_step (mkNode s fl) (mkNode (proxyRequestInner c up p sv sub inc s).1 fl)
  | step_leave p s l1 l2 :
      node_step (mkNode s (l1 ++ p :: l2)) (mkNode (decInflight p s).1 (l1 ++ l2))
  | step_put c p sv cred s fl :
      node_step (mkNode s fl) (mkNode (putCredential c p sv cred s).1 fl)
  | step_delete c p sv s fl :
      node_step (mkNode s fl) (mkNode (deleteCredential c p sv s).1 fl).

Definition count (p : jsstr) (l : list jsstr) : Z := Z.of_nat (length (filter (fun q => q = p) l)).

(** The map holds exactly the positive counts, and none exceeds the cap. *)
Definition counted (n : node) : Prop :=
  forall p, inflightBySubject (st n) !! p = (if count p (flights n) =? 0 then None else Some (count p (flights n))) /\
            count p (flights n) <= RateBucket.MAX_INFLIGHT.

Definition same_flights (s t : T) : Prop := inflightBySubject t = inflightBySubject s.
#[local] Instance same_flights_preorder : PreOrder same_flights.
Proof. split; [by intros s|]. intros s t u H1 H2. unfold same_flights in *. congruence. Qed.

Lemma getKEK_flights c : keeps same_flights (getKEK c).
Proof.
  unfold getKEK, assertKekSourceSpecPinned, resolveKek. walk; try (by intros s);
    intros s; unfold insert_state; by destruct (insert_strict _ _ _).
Qed.

Lemma put_flights c p sv cred : keeps same_flights (putCredential c p sv cred).
Proof.
  unfold putCredential, writeRow, charge. walk; try (by apply assertSubjectFp_keeps, _); try apply getKEK_flights;
    by intros s.
Qed.

Lemma delete_flights c p sv : keeps same_flights (deleteCredential c p sv).
Proof. unfold deleteCredential, charge. walk; try (by apply assertSubjectFp_keeps, _); by intros s. Qed.

Lemma inner_flights c up p sv sub inc : keeps same_flights (proxyRequestInner c up p sv sub inc).
Proof. unfold proxyRequestInner. walk. apply getKEK_flights. Qed.

Lemma seed_flights c : keeps same_flights (maybeDevSeed c).
Proof. unfold maybeDevSeed. walk; try apply put_flights; by intros s. Qed.

(** Entry counts the subject up when it admits it, and never past the cap. *)
Lemma enterProxy_flights c p sv sub s :
  match enterProxy c p sv sub s with
  | (s', Ok None) => inflight_of s p < RateBucket.MAX_INFLIGHT /\
      inflightBySubject s' = <[p := inflight_of s p + 1]> (inflightBySubject s)
  | (s', _) => inflightBySubject s' = inflightBySubject s
  end.
Proof.
  unfold enterProxy, bind. pose proof (@assertSubjectFp_keeps same_flights p _ s) as H1.
  destruct (assertSubjectFp p s) as [s1 [u|e]]; [|exact H1]. unfold same_flights in H1. simpl in H1.
  pose proof (seed_flights c s1) as H2. destruct (maybeDevSeed c s1) as [s2 [u2|e]];
    unfold same_flights in H2; simpl in H2; [|by rewrite H2].
  unfold checkInflight, read. destruct (Z.leb_spec RateBucket.MAX_INFLIGHT (inflight_of s2 p)); cbn [negb ret].
  - by rewrite H2.
  - unfold consumeBudget, exec. destruct (RateBucket.tryConsume _ _); cbn [ret]; [|simpl; by rewrite H2].
    unfold incInflight, exec, inflight_of in *. simpl. rewrite H2, H1 in *. by split.
Qed.

Lemma count_cons p q l : count p (q :: l) = (if decide (q = p) then 1 else 0) + count p l.
Proof. unfold count. rewrite filter_cons. destruct (decide (q = p)); simpl; lia. Qed.

Lemma count_app p l l' : count p (l ++ l') = count p l + count p l'.
Proof. unfold count. rewrite filter_app, length_app. lia. Qed.

Lemma count_nonneg p l : 0 <= count p l.
Proof. unfold count. lia. Qed.

Lemma counted_same s s' fl : same_flights s s' -> counted (mkNode s fl) -> counted (mkNode s' fl).
Proof. intros E Hc p. specialize (Hc p). cbn [st flights] in *. by rewrite E. Qed.

Lemma counted_step n n' : node_step n n' -> counted n -> counted n'.
Proof.
  intros Hs Hc. destruct Hs as [c p sv sub s s' fl E|c p sv sub s s' r fl E Hr|c up p sv sub inc s fl _
    |p s l1 l2|c p sv cred s fl|c p sv s fl].
  - pose proof (enterProxy_flights c p sv sub s) as Hf. rewrite E in Hf. destruct Hf as [Hlt Hm].
    intros q. destruct (Hc q) as [Hq1 Hq2], (Hc p) as [Hp1 Hp2]. cbn [st flights] in *. rewrite Hm, count_cons.
    unfold inflight_of in *. destruct (decide (p = q)) as [<-|Hne].
    + rewrite lookup_insert_eq. rewrite Hp1 in *. pose proof (count_nonneg p fl).
      destruct (Z.eqb_spec (count p fl) 0) as [E0|E0]; cbn [default from_option id] in *; unfold RateBucket.MAX_INFLIGHT in *.
      * rewrite E0. split; [done|lia].
      * rewrite (proj2 (Z.eqb_neq _ _)) by lia. split; [f_equal; lia|lia].
    + rewrite lookup_insert_ne by done. by rewrite Z.add_0_l.
  - pose proof (enterProxy_flights c p sv sub s) as Hf. rewrite E in Hf.
    apply (counted_same s); [|done]. unfold same_flights. by destruct r as [[r|]|e].
  - apply (counted_same s); [apply inner_flights|done].
  - intros q. destruct (Hc q) as [Hq1 Hq2], (Hc p) as [Hp1 Hp2]. cbn [st flights] in *.
    rewrite !count_app, !count_cons in *. unfold decInflight, exec. cbn [fst].
    rewrite (decide_True (P := p = p)) in Hp1 by done. pose proof (count_nonneg p l1). pose proof (count_nonneg p l2).
    rewrite (proj2 (Z.eqb_neq _ _)) in Hp1 by lia. rewrite Hp1. cbn [default from_option id].
    destruct (decide (p = q)) as [<-|Hne].
    + destruct (Z.leb_spec (count p l1 + (1 + count p l2) - 1) 0).
      * simpl. rewrite lookup_delete_eq, (proj2 (Z.eqb_eq _ _)) by lia. split; [done|lia].
      * simpl. rewrite lookup_insert_eq, (proj2 (Z.eqb_neq _ _)) by lia. split; [f_equal; lia|lia].
    + rewrite Z.add_0_l in *.
      destruct (Z.leb_spec (count p l1 + (1 + count p l2) - 1) 0); simpl;
        [rewrite lookup_delete_ne by done|rewrite lookup_insert_ne by done]; done.
  - apply (counted_same s); [apply put_flights|done].
  - apply (counted_same s); [apply delete_flights|done].
Qed.

Lemma reachable_counted n : rtc node_step (mkNode empty []) n -> counted n.
Proof.
  assert (H1 : counted (mkNode empty [])) by (intros p; split; [apply lookup_empty|discriminate]).
  intros Hr. induction Hr as [|n n' n'' Hs _ IH]; [done|]. by eapply IH, counted_step.
Qed.

Lemma pinned_getKEK c s s' k :
  kekPromise s = None -> getKEK c s = (s', Ok k) ->
  vault_state s' !! KEK_SOURCE = Some (trimmed (VAULT_KEK_SOURCE (env c))) /\
  (forall spec, vault_state s !! KEK_SOURCE = Some spec ->
     spec = trimmed (VAULT_KEK_SOURCE (env c)) /\
     vault_state s !! KEK_SCOPED = Some (if tenant_scoped (env c) then js "1" else js "0")) /\
  exists scope, resolve c (trimmed (VAULT_KEK_SOURCE (env c))) scope = Some k.
Proof.
  intros Hm. unfold getKEK, bind, read. rewrite Hm. unfold assertKekSourceSpecPinned, bind, read.
  destruct (vault_state s !! KEK_SOURCE) as [spec|] eqn:Es.
  - case_bool_decide as E1; [|done]. cbn [negb]. case_bool_decide as E2; [|done]. cbn [negb ret].
    unfold resolveKek. case_bool_decide; [done|]. destruct (resolve c _ _) as [k'|] eqn:Er; [|done].
    intros [= <- <-]. simpl. split; [by rewrite Es, E1|]. split; [|eauto].
    intros spec' [= <-]. done.
  - unfold insert_state, insert_strict. rewrite Es. cbn [vault_state set_vault_state].
    destruct (<[KEK_SOURCE := _]> (vault_state s) !! KEK_SCOPED) eqn:E2; [done|].
    unfold resolveKek. case_bool_decide; [done|]. destruct (resolve c _ _) as [k'|] eqn:Er; [|done].
    intros [= <- <-]. simpl. split; [|split; [done|eauto]].
    rewrite lookup_insert_ne by done. apply lookup_insert_eq.
Qed.

Lemma getKEK_memo c s s' k : getKEK c s = (s', Ok k) -> kekPromise s' = Some k.
Proof.
  unfold getKEK, bind, read. destruct (kekPromise s) as [m|] eqn:Em.
  - unfold ret. intros [= <- <-]. done.
  - destruct (assertKekSourceSpecPinned _ s) as [sd [ud|]]; [|done].
    destruct (resolveKek c sd) as [se [ke|]]; [|done]. unfold exec. by intros [= <- <-].
Qed.

(** The row a successful write leaves, and the key it was sealed with. *)
Lemma put_row c p sv cred s s1 :
  putCredential c p sv cred s = (s1, Ok tt) ->
  exists k, kekPromise s1 = Some k /\ credentials s1 !! (p, sv) =
    Some (mkRow p sv (Vault.upstream cred) (encrypt (entropy c) (Vault.headers cred) k) (Vault.allowedSubs cred)).
Proof.
  unfold putCredential, writeRow, bind.
  destruct (assertSubjectFp p s) as [sa [ua|]]; [|done]. destruct (charge c p _ sa) as [sb [ub|]]; [|done].
  destruct (Vault.validateCredentialPayload cred); [|done].
  destruct (getKEK c sb) as [sc [k|]] eqn:Eg; [|done]. unfold exec. intros [= <-]. exists k.
  split; [by apply getKEK_memo in Eg|]. simpl. unfold upsert. apply lookup_insert_eq.
Qed.

(** ** Properties *)

(** The wire does not tell a missing credential from a forbidden one.  Whatever
    the state, the reply to a request for a credential that does not exist and the
    reply to one whose patterns exclude the caller are the same 404, a function of the
    caller and the service name alone, and neither touches the key or the state. *)
Theorem proxy_denials_uniform c up p sv sub inc s :
  (forall r, credentials s !! (p, sv) = Some r -> Vault.checkAccess (allowed_subs r) sub = false) ->
  proxyRequestInner c up p sv sub inc s =
    (s, Ok (ErrorReply 404 (Vault.mkErrorBody (js "not_found") sv) None)).
Proof.
  intros Hd. unfold proxyRequestInner, bind, read.
  destruct (credentials s !! (p, sv)) as [r|]; [|done]. by rewrite (Hd r).
Qed.

(** What is stored for a subject is what the proxy sends for it.  After a
    successful [putCredential], a proxied request by a caller the patterns admit, on
    the same instance or any later one whose key source answers the same key, is built
    from exactly the stored upstream and headers: the envelope round-trips. *)
Theorem put_then_proxy `{!EnvelopeLaws} c p sv cred s s1 :
  putCredential c p sv cred s = (s1, Ok tt) ->
  header_record (Vault.headers cred) = true ->
  exists k, kekPromise s1 = Some k /\
  forall c' up sub inc req resp out s2 s3,
    credentials s2 = credentials s1 -> getKEK c' s2 = (s3, Ok k) ->
    Vault.checkAccess (Vault.allowedSubs cred) sub = true ->
    Vault.buildProxyRequest inc cred = Some req -> up req = Some resp ->
    Vault.sanitizeResponse resp = Some out ->
    proxyRequestInner c' up p sv sub inc s2 = (s3, Ok (UpstreamReply out)).
Proof.
  intros Hput Hn. destruct (put_row _ _ _ _ _ _ Hput) as (k & Hk & Hrow). exists k. split; [done|].
  intros c' up sub inc req resp out s2 s3 Hs2 Hg Ha Hb Hu Ho.
  unfold proxyRequestInner, bind, read. rewrite Hs2, Hrow. cbn [allowed_subs sealed_headers upstream].
  rewrite Ha. cbn [negb]. rewrite Hg, decrypt_encrypt by done.
  destruct cred as [u hs subs]. cbn [Vault.headers Vault.upstream Vault.allowedSubs] in *.
  by rewrite Hb, Hu, Ho.
Qed.

(** C28: subjects are isolated.  Any run of methods on behalf of other subjects, in
    production mode and with evictions anywhere, leaves every credential row and the
    rate bucket of a subject as they were; so what the object answers the subject
    about its credential does not depend on the others. *)
Theorem subjects_isolated q ops s c sv :
  Forall (foreign q) ops ->
  let s' := foldl (fun s o => run_op o s) s ops in
  (forall sv, credentials s' !! (q, sv) = credentials s !! (q, sv)) /\
  rate_buckets s' !! q = rate_buckets s !! q /\
  (getCredentialMetadata c q sv s').2 = (getCredentialMetadata c q sv s).2.
Proof.
  intros Hf s'. destruct (foldl_keeps (same_rows q) (foreign q) ops s _ (fun o s => run_op_rows q o s) Hf)
    as [H1 H2]. fold s' in H1, H2. split; [done|]. split; [done|].
  unfold getCredentialMetadata, bind. unfold assertSubjectFp. destruct q as [|x q]; [done|].
  destruct (Vault.has_control (x :: q)); [done|]. unfold charge, ret, bind, consumeBudget, exec.
  rewrite H2. destruct (RateBucket.tryConsume _ _); [|done]. unfold readRow, read. simpl. by rewrite H1.
Qed.

(** C29: no subject holds more than sixteen upstream calls, and the map of counts does
    not leak.  In every reachable state of entries, denials, upstream work and exits
    in any interleaving, the map holds for each subject exactly the number of its
    calls in flight, has no entry for a subject without one, and that number is at
    most the cap. *)
Theorem inflight_bounded n p :
  rtc node_step (mkNode empty []) n ->
  count p (flights n) <= 16 /\
  inflightBySubject (st n) !! p =
    (if count p (flights n) =? 0 then None else Some (count p (flights n))).
Proof. intros Hr. by destruct (reachable_counted n Hr p). Qed.

(** The key source is pinned by its first use.  Once a key has been derived, then
    after any run of methods under any environments, with evictions, an instance that
    has no key yet obtains one only under the same specification and the same
    tenant flag. *)
Theorem kek_source_pinned c c' s s1 s2 k k' ops :
  kekPromise s = None -> getKEK c s = (s1, Ok k) ->
  let t := foldl (fun s o => run_op o s) s1 ops in
  kekPromise t = None -> getKEK c' t = (s2, Ok k') ->
  trimmed (VAULT_KEK_SOURCE (env c')) = trimmed (VAULT_KEK_SOURCE (env c)) /\
  vault_state t !! KEK_SCOPED = Some (if tenant_scoped (env c') then js "1" else js "0").
Proof.
  intros Hk Hg t Ht Hg'. destruct (pinned_getKEK _ _ _ _ Hk Hg) as (Hp & _ & _).
  assert (Hpt : pins_kept s1 t).
  { apply (foldl_keeps pins_kept (fun _ => True) ops s1 _ (fun o s _ => run_op_pins o s)).
    by apply Forall_true. }
  destruct (pinned_getKEK _ _ _ _ Ht Hg') as (_ & Hs & _).
  destruct (Hs _ (Hpt _ _ Hp)) as [E1 E2]. split; [congruence|done].
Qed.

(** The documented rotation, which clears [kek_source] only, makes the next use fail
    on the primary key of the other pin. *)
Lemma rotation_playbook_throws c s v :
  kekPromise s = None -> vault_state s !! KEK_SOURCE = None -> vault_state s !! KEK_SCOPED = Some v ->
  exists s', getKEK c s = (s', Throw (SqlError SQLITE_CONSTRAINT_PRIMARYKEY)) /\
             vault_state s' !! KEK_SOURCE = Some (trimmed (VAULT_KEK_SOURCE (env c))).
Proof.
  intros Hk H1 H2. unfold getKEK, bind, read. rewrite Hk. unfold assertKekSourceSpecPinned, bind, read.
  rewrite H1. unfold insert_state, insert_strict. rewrite H1. cbn [vault_state set_vault_state].
  rewrite lookup_insert_ne by done. rewrite H2. eexists. split; [reflexivity|]. apply lookup_insert_eq.
Qed.

End vault.

(** ** Closed examples *)

#[local] Instance demo_envelope : Envelope :=
  {| Kek := jsstr; Sealed := list (jsstr * jsstr) * jsstr; Entropy := unit;
     encrypt _ hs k := (hs, k);
     decrypt sealed k := if decide (sealed.2 = k) then Some sealed.1 else None |}.

Lemma demo_envelope_laws : EnvelopeLaws.
Proof. intros e hs k _. simpl. by rewrite decide_True. Qed.

#[local] Existing Instance Vault.demo_url.

Definition demo_env : Env := mkEnv None NoSeed (Some (js "env://K")) None.
Definition demo_ctx : Ctx := mkCtx demo_env 1000 (fun spec _ => Some spec) None tt.
Definition demo_put : T :=
  (putCredential demo_ctx (js "peer") (js "api") Vault.demo_cred empty).1.
Definition demo_upstream : Upstream := fun _ => Some (Vault.mkResponse 200 [(js "server", js "x")] []).

Lemma proxy_denials_uniform_witness :
  proxyRequestInner demo_ctx demo_upstream (js "peer") (js "api") (js "other") Vault.demo_incoming demo_put =
    (demo_put, Ok (ErrorReply 404 (Vault.mkErrorBody (js "not_found") (js "api")) None)).
Proof.
  apply proxy_denials_uniform. intros r E. vm_compute in E. injection E as <-. reflexivity.
Defined.

Lemma put_then_proxy_witness :
  exists k, kekPromise demo_put = Some k /\
  forall c' up sub inc req resp out s2 s3,
    credentials s2 = credentials demo_put -> getKEK c' s2 = (s3, Ok k) ->
    Vault.checkAccess (Vault.allowedSubs Vault.demo_cred) sub = true ->
    Vault.buildProxyRequest inc Vault.demo_cred = Some req -> up req = Some resp ->
    Vault.sanitizeResponse resp = Some out ->
    proxyRequestInner c' up (js "peer") (js "api") sub inc s2 = (s3, Ok (UpstreamReply out)).
Proof.
  apply (@put_then_proxy demo_envelope Vault.demo_url demo_envelope_laws demo_ctx
           (js "peer") (js "api") Vault.demo_cred empty).
  - apply pair_snd. vm_compute. reflexivity.
  - vm_compute. reflexivity.
Defined.

Definition demo_other : op := op_delete demo_ctx (js "other") (js "api").

Lemma subjects_isolated_witness :
  let s' := run_op demo_other demo_put in
  (forall sv, credentials s' !! (js "peer", sv) = credentials demo_put !! (js "peer", sv)) /\
  rate_buckets s' !! js "peer" = rate_buckets demo_put !! js "peer" /\
  (getCredentialMetadata demo_ctx (js "peer") (js "api") s').2 =
  (getCredentialMetadata demo_ctx (js "peer") (js "api") demo_put).2.
Proof.
  apply (subjects_isolated (js "peer") [demo_other]). constructor; [discriminate|constructor].
Defined.

Definition demo_entered : T := (enterProxy demo_ctx (js "peer") (js "api") (js "s") empty).1.

Lemma inflight_bounded_witness :
  count (js "peer") [js "peer"] <= 16 /\
  inflightBySubject demo_entered !! js "peer" =
    (if count (js "peer") [js "peer"] =? 0 then None else Some (count (js "peer") [js "peer"])).
Proof.
  apply (inflight_bounded (mkNode demo_entered [js "peer"])). eapply rtc_l; [|apply rtc_refl].
  apply (step_enter demo_ctx (js "peer") (js "api") (js "s")). apply pair_snd. vm_compute. reflexivity.
Defined.

Definition demo_keyed : T := (getKEK demo_ctx empty).1.

Lemma kek_source_pinned_witness :
  let t := run_op op_evict demo_keyed in
  trimmed (VAULT_KEK_SOURCE (env demo_ctx)) = trimmed (VAULT_KEK_SOURCE (env demo_ctx)) /\
  vault_state t !! KEK_SCOPED = Some (if tenant_scoped (env demo_ctx) then js "1" else js "0").
Proof.
  apply (kek_source_pinned demo_ctx demo_ctx empty demo_keyed (getKEK demo_ctx (run_op op_evict demo_keyed)).1
           (js "env://K") (js "env://K") [op_evict]); reflexivity.
Defined.

End VaultStore.
