(* ===== verification/Tenant.v ===== *)
(** Per-tenant dispatch (src/routes/tenant-dispatch.ts): the table that is compiled from the
    manifest, the match of a request against it, and the route with its cache and its warnings.

    A request is an object with an identity; the URL parser's host and path are given, and the setter
    that changes a URL's path is a parameter.  What a tenant answers is not modelled: the route hands
    the request to a binding, or refuses it. *)
From S2P Require Import Prelude JsString Json Disclosure Edge.

Module Tenant.

(** ** The table *)

Record TenantDispatchRow := mkRow { t_name : jsstr; mode : jsstr; matchValue : jsstr; binding : jsstr }.
Record CompiledTable := mkTable { sni : list (jsstr * TenantDispatchRow); pathPrefix : list TenantDispatchRow }.

Inductive table_error :=
  | EmptyName | DuplicateName (n : jsstr) | EmptyMatchValue (n : jsstr) | EmptyBinding (n : jsstr)
  | DuplicateSni (host n n' : jsstr) | UnknownMode (n mode : jsstr).

Definition SNI : jsstr := js "sni".
Definition PATH_PREFIX : jsstr := js "path-prefix".

(** One row, over the table so far and the names seen. *)
Definition compile_row (row : TenantDispatchRow) (seen : list jsstr) (t : CompiledTable) : result table_error CompiledTable :=
  if bool_decide (t_name row = []) then Throw EmptyName
  else if bool_decide (t_name row ∈ seen) then Throw (DuplicateName (t_name row))
  else if bool_decide (matchValue row = []) then Throw (EmptyMatchValue (t_name row))
  else if bool_decide (binding row = []) then Throw (EmptyBinding (t_name row))
  else if bool_decide (mode row = SNI) then
    match assoc (matchValue row) (sni t) with
    | Some other => Throw (DuplicateSni (matchValue row) (t_name other) (t_name row))
    | None => Ok (mkTable (sni t ++ [(matchValue row, row)]) (pathPrefix t))
    end
  else if bool_decide (mode row = PATH_PREFIX) then Ok (mkTable (sni t) (pathPrefix t ++ [row]))
  else Throw (UnknownMode (t_name row) (mode row)).

Fixpoint compile_rows (rows : list TenantDispatchRow) (seen : list jsstr) (t : CompiledTable) : result table_error CompiledTable :=
  match rows with
  | [] => Ok t
  | row :: rows => let? t := compile_row row seen t in compile_rows rows (t_name row :: seen) t
  end.

Definition compileDispatchTable (tenants : list TenantDispatchRow) : result table_error CompiledTable :=
  compile_rows tenants [] (mkTable [] []).

(** ** Matching *)

(** [id] is the object's identity. *)
Record Request := mkRequest { id : Z; url : jsstr; hostname : jsstr; pathname : jsstr }.

Definition SLASH : Z := 47.

(** The path inside a prefix, where the path is in it. *)
Definition match_prefix (prefix path : jsstr) : option jsstr :=
  if bool_decide (path = prefix) then Some [SLASH]
  else if starts_with prefix path then
    match drop (length prefix) path with
    | [] => Some [SLASH]
    | c :: rest => if c =? SLASH then Some (c :: rest) else None
    end
  else None.

(** The whole table is walked; the first match is kept. *)
Definition scan (path : jsstr) (rows : list TenantDispatchRow) : option (TenantDispatchRow * jsstr) :=
  foldl (fun firstMatch row =>
    match match_prefix (matchValue row) path, firstMatch with
    | Some stripped, None => Some (row, stripped)
    | _, _ => firstMatch
    end) None rows.

Definition matchTenant (table : CompiledTable) (r : Request) : option (TenantDispatchRow * jsstr) :=
  match assoc (hostname r) (sni table) with
  | Some row => Some (row, pathname r)
  | None => scan (pathname r) (pathPrefix table)
  end.

(** ** The route *)

(** [matchCache] holds [None] for a request known to match no row. *)
Record route := mkRoute {
  table : CompiledTable;
  warnedBindings : list jsstr;
  matchCache : gmap Z (option (TenantDispatchRow * jsstr));
  warnings : list jsstr;
}.

Definition new_route (tenants : list TenantDispatchRow) : result table_error route :=
  let? t := compileDispatchTable tenants in Ok (mkRoute t [] ∅ []).

Definition R (A : Type) : Type := M route Empty_set A.

Definition resolveMatch (r : Request) : R (option (TenantDispatchRow * jsstr)) := fun s =>
  match matchCache s !! id r with
  | Some cached => (s, Ok cached)
  | None =>
      let result := matchTenant (table s) r in
      (mkRoute (table s) (warnedBindings s) (<[id r := result]> (matchCache s)) (warnings s), Ok result)
  end.

Definition matches (r : Request) : R bool :=
  let* m := resolveMatch r in ret (bool_decide (is_Some m)).

(** A warning, once for each binding. *)
Definition warn (b : jsstr) : R unit := fun s =>
  if bool_decide (b ∈ warnedBindings s) then (s, Ok tt)
  else (mkRoute (table s) (b :: warnedBindings s) (matchCache s) (warnings s ++ [b]), Ok tt).

Inductive answer := NotFound (r : Disclosure.Response) | Forwarded (binding url : jsstr).

Definition notFoundResponse : Disclosure.Response := Disclosure.constantTimeErrorResponse Disclosure.not_found.

Section handle.
(** [url.pathname = p], and which names are bindings with a [fetch]. *)
Context (set_pathname : jsstr -> jsstr -> jsstr) (wired : jsstr -> bool).

Definition forward_url (r : Request) (strippedPath : jsstr) : jsstr :=
  if bool_decide (strippedPath = pathname r) then url r else set_pathname (url r) strippedPath.

Definition handle (r : Request) : R answer :=
  let* matched := resolveMatch r in
  match matched with
  | None => ret (NotFound notFoundResponse)
  | Some (row, strippedPath) =>
      if negb (wired (binding row)) then do* warn (binding row) in ret (NotFound notFoundResponse)
      else ret (Forwarded (binding row) (forward_url r strippedPath))
  end.

(** The router: [match], then [handle] where it said yes. *)
Definition serve (r : Request) : R (option answer) :=
  let* yes := matches r in
  if yes : bool then let* a := handle r in ret (Some a) else ret None.

End handle.

(** ** What a table promises *)

Definition row_ok (row : TenantDispatchRow) : Prop :=
  t_name row <> [] /\ matchValue row <> [] /\ binding row <> [] /\ (mode row = SNI \/ mode row = PATH_PREFIX).

Definition by_mode (m : jsstr) (rows : list TenantDispatchRow) : list TenantDispatchRow :=
  filter (fun row => mode row = m) rows.

Definition spec_ok (rows : list TenantDispatchRow) : Prop :=
  Forall row_ok rows /\ NoDup (map t_name rows) /\ NoDup (map matchValue (by_mode SNI rows)).

Definition keyed (row : TenantDispatchRow) : jsstr * TenantDispatchRow := (matchValue row, row).

Definition extend (t : CompiledTable) (rows : list TenantDispatchRow) : CompiledTable :=
  mkTable (sni t ++ map keyed (by_mode SNI rows)) (pathPrefix t ++ by_mode PATH_PREFIX rows).

Lemma assoc_keyed k rows : assoc k (map keyed rows) = None <-> k ∉ map matchValue rows.
Proof.
  induction rows as [|row rows IH]; cbn [map assoc keyed]; [split; [intros _; apply not_elem_of_nil|done]|].
  rewrite not_elem_of_cons. case_decide; [split; [done|by intros []]|]. rewrite IH. tauto.
Qed.

Lemma assoc_in {A} k (v : A) (m : list (jsstr * A)) : assoc k m = Some v -> (k, v) ∈ m.
Proof.
  induction m as [|[k' v'] m IH]; cbn [assoc]; [done|]. case_decide; [intros [= ->]; subst; by left|intros E; right; by apply IH].
Qed.

Lemma compile_row_iff row seen t t1 :
  compile_row row seen t = Ok t1 <->
  (row_ok row /\ t_name row ∉ seen /\ (mode row = SNI -> assoc (matchValue row) (sni t) = None)) /\ t1 = extend t [row].
Proof.
  unfold compile_row, row_ok, extend, by_mode.
  case_bool_decide as E1; [by split; [|intros [[[]]]]|]. case_bool_decide as E2; [by split; [|intros [[_ []]]]|].
  case_bool_decide as E3; [by split; [|intros [[(_ & [] & _)]]]|]. case_bool_decide as E4; [by split; [|intros [[(_ & _ & [] & _)]]]|].
  case_bool_decide as E5.
  - rewrite filter_cons_True by done. rewrite filter_cons_False by (rewrite E5; discriminate). rewrite !filter_nil, app_nil_r.
    destruct (assoc (matchValue row) (sni t)); [split; [done|intros [(_ & _ & H) _]; by specialize (H E5)]|].
    split; [intros [= <-]; by repeat split; auto|by intros [_ ->]].
  - rewrite filter_cons_False by done. case_bool_decide as E6.
    + rewrite filter_cons_True by done. rewrite !filter_nil, app_nil_r. split; [intros [= <-]; repeat split; auto; done|by intros [_ ->]].
    + split; [done|]. intros [[(_ & _ & _ & [?|?]) _] _]; done.
Qed.

Lemma spec_ok_snoc done row :
  spec_ok (done ++ [row]) <->
  spec_ok done /\ row_ok row /\ t_name row ∉ map t_name done /\
  (mode row = SNI -> matchValue row ∉ map matchValue (by_mode SNI done)).
Proof.
  unfold spec_ok, by_mode. rewrite Forall_app, Forall_singleton, map_app, filter_app, map_app, !NoDup_app. cbn [map].
  assert (H1 : forall (l : list jsstr) x, (forall y, y ∈ l -> y ∉ [x]) <-> x ∉ l).
  { intros l x. split; [intros H Hx; by apply (H x Hx), list_elem_of_singleton|].
    intros Hx y Hy E%list_elem_of_singleton. by subst. }
  destruct (decide (mode row = SNI)) as [Hm|Hm].
  - rewrite filter_cons_True by done. rewrite filter_nil. cbn [map]. rewrite !H1.
    pose proof (NoDup_singleton (t_name row)). pose proof (NoDup_singleton (matchValue row)). tauto.
  - rewrite filter_cons_False by done. rewrite filter_nil. cbn [map]. rewrite H1.
    pose proof (NoDup_singleton (t_name row)). pose proof (@NoDup_nil_2 jsstr).
    assert (forall y : jsstr, y ∈ map matchValue (filter (fun r => mode r = SNI) done) -> y ∉ []) by (intros; apply not_elem_of_nil).
    tauto.
Qed.

Lemma spec_ok_app_l done rows : spec_ok (done ++ rows) -> spec_ok done.
Proof.
  unfold spec_ok, by_mode. rewrite Forall_app, map_app, filter_app, map_app, !NoDup_app. tauto.
Qed.

Lemma by_mode_app m a b : by_mode m (a ++ b) = by_mode m a ++ by_mode m b.
Proof. apply filter_app. Qed.

Lemma extend_app t a b : extend (extend t a) b = extend t (a ++ b).
Proof. unfold extend. cbn [sni pathPrefix]. by rewrite !by_mode_app, map_app, !app_assoc. Qed.

Lemma compile_rows_iff rows : forall seen done t',
  (forall n, n ∈ seen <-> n ∈ map t_name done) -> spec_ok done ->
  compile_rows rows seen (extend (mkTable [] []) done) = Ok t' <-> spec_ok (done ++ rows) /\ t' = extend (mkTable [] []) (done ++ rows).
Proof.
  induction rows as [|row rows IH]; intros seen done t' Hn Hd; cbn [compile_rows].
  { rewrite app_nil_r. split; [intros [= <-]; done|by intros [_ ->]]. }
  replace (done ++ row :: rows) with ((done ++ [row]) ++ rows) by by rewrite <- app_assoc.
  assert (Hn' : forall n, n ∈ t_name row :: seen <-> n ∈ map t_name (done ++ [row])).
  { intros n. rewrite elem_of_cons, map_app, elem_of_app, Hn. cbn [map]. rewrite list_elem_of_singleton. tauto. }
  assert (Hrow : spec_ok (done ++ [row]) <->
    row_ok row /\ t_name row ∉ seen /\ (mode row = SNI -> assoc (matchValue row) (sni (extend (mkTable [] []) done)) = None)).
  { rewrite spec_ok_snoc, Hn. cbn [extend sni app]. rewrite assoc_keyed. tauto. }
  split.
  - intros (t1 & E1 & E2)%rbind_ok. apply compile_row_iff in E1 as [Hr ->]. rewrite extend_app in E2.
    by apply (IH _ _ _ Hn') in E2; [|by apply Hrow].
  - intros [Hok ->]. pose proof (spec_ok_app_l _ _ Hok) as Hs.
    rewrite (proj2 (compile_row_iff row seen _ _) (conj (proj1 Hrow Hs) eq_refl)). cbn [rbind].
    rewrite extend_app. by apply (IH _ _ _ Hn').
Qed.

(** The compiler accepts exactly the sound tables.  A specification compiles when every row has a
    name, a value, a binding and a known mode, names are unique, and no two rows claim one host; the
    table then holds each host's row and the prefix rows in their order. *)
Theorem compile_iff rows t :
  compileDispatchTable rows = Ok t <->
  spec_ok rows /\ t = mkTable (map keyed (by_mode SNI rows)) (by_mode PATH_PREFIX rows).
Proof.
  unfold compileDispatchTable. change (mkTable [] []) with (extend (mkTable [] []) []) at 1.
  rewrite (compile_rows_iff rows [] [] t); [done|done|]. split; [constructor|]. split; constructor.
Qed.

(** ** What a request matches *)

(** The path is the prefix, or continues it at a slash. *)
Lemma match_prefix_iff prefix path stripped :
  match_prefix prefix path = Some stripped <->
  (path = prefix /\ stripped = [SLASH]) \/ (exists rest, path = prefix ++ SLASH :: rest /\ stripped = SLASH :: rest).
Proof.
  unfold match_prefix. case_bool_decide as E.
  - subst. split; [intros [= <-]; by left|]. intros [[_ ->]|(rest & E & _)]; [done|].
    exfalso. apply (f_equal length) in E. rewrite length_app in E. cbn [length] in E. lia.
  - destruct (starts_with prefix path) eqn:Es.
    + apply starts_with_iff in Es as [t ->]. rewrite drop_app_length. destruct t as [|c t]; [by rewrite app_nil_r in E|].
      destruct (Z.eqb_spec c SLASH) as [->|Hc].
      * split; [intros [= <-]; right; by eexists|]. intros [[? _]|(rest & E' & ->)]; [done|].
        by apply app_inv_head in E' as [= ->].
      * split; [done|]. intros [[? _]|(rest & E' & ->)]; [done|]. by apply app_inv_head in E' as [= ? _].
    + split; [done|]. intros [[? _]|(rest & -> & _)]; [done|]. exfalso.
      assert (Ht : starts_with prefix (prefix ++ SLASH :: rest) = true) by (apply starts_with_iff; by eexists).
      by rewrite Ht in Es.
Qed.

(** The walk of the whole table finds what a search that stops would. *)
Fixpoint first_match (path : jsstr) (rows : list TenantDispatchRow) : option (TenantDispatchRow * jsstr) :=
  match rows with
  | [] => None
  | row :: rows => match match_prefix (matchValue row) path with Some s => Some (row, s) | None => first_match path rows end
  end.

Lemma scan_kept path rows m : foldl (fun firstMatch row =>
    match match_prefix (matchValue row) path, firstMatch with
    | Some stripped, None => Some (row, stripped)
    | _, _ => firstMatch
    end) (Some m) rows = Some m.
Proof. induction rows as [|row rows IH]; cbn [foldl]; [done|]. by destruct (match_prefix _ _). Qed.

Lemma scan_first path rows : scan path rows = first_match path rows.
Proof.
  unfold scan. induction rows as [|row rows IH]; cbn [foldl first_match]; [done|].
  destruct (match_prefix (matchValue row) path); [apply scan_kept|exact IH].
Qed.

Lemma first_match_Some path rows row s : first_match path rows = Some (row, s) <->
  exists before after, rows = before ++ row :: after /\ match_prefix (matchValue row) path = Some s /\
    Forall (fun r => match_prefix (matchValue r) path = None) before.
Proof.
  induction rows as [|r rows IH]; cbn [first_match].
  { split; [done|]. intros ([|? ?] & after & E & _); done. }
  destruct (match_prefix (matchValue r) path) as [s'|] eqn:E.
  - split.
    + intros [= <- <-]. exists [], rows. by split.
    + intros ([|r' before] & after & [= -> ->] & Hm & Hb); [by rewrite E in Hm; injection Hm as ->|].
      inversion Hb; subst. congruence.
  - rewrite IH. split.
    + intros (before & after & -> & Hm & Hb). exists (r :: before), after. split; [done|]. split; [done|]. by constructor.
    + intros ([|r' before] & after & [= -> ->] & Hm & Hb); [by rewrite E in Hm|]. inversion Hb; subst. by exists before, after.
Qed.

(** ** The cache *)

(** A cached result is the result: the objects the route has seen are the requests [reqs]. *)
Definition cache_ok (reqs : list Request) (s : route) : Prop :=
  forall i m, matchCache s !! i = Some m -> exists r, r ∈ reqs /\ id r = i /\ m = matchTenant (table s) r.

(** Warnings so far, one for each binding warned about. *)
Definition warned_ok (s : route) : Prop := NoDup (warnings s) /\ forall b, b ∈ warnings s <-> b ∈ warnedBindings s.

(** Requests with one identity are one request. *)
Definition distinct_ids (reqs : list Request) : Prop := forall r r', r ∈ reqs -> r' ∈ reqs -> id r = id r' -> r = r'.

Lemma resolveMatch_spec reqs r s : distinct_ids (r :: reqs) -> cache_ok reqs s ->
  exists s', resolveMatch r s = (s', Ok (matchTenant (table s) r)) /\ cache_ok (r :: reqs) s' /\
    table s' = table s /\ warnings s' = warnings s /\ warnedBindings s' = warnedBindings s.
Proof.
  intros Hd Hc. unfold resolveMatch. destruct (matchCache s !! id r) as [m|] eqn:E.
  - destruct (Hc _ _ E) as (r' & Hr' & Hid & ->).
    assert (r' = r) as -> by (apply Hd; [by right|by left|done]).
    exists s. split; [done|]. split; [|done]. intros i m Hm. destruct (Hc i m Hm) as (q & Hq & ? & ?). exists q. by split; [right|].
  - eexists. split; [reflexivity|]. split; [|done]. intros i m. cbn [matchCache table].
    destruct (decide (i = id r)) as [->|Hne].
    + rewrite lookup_insert_eq. intros [= <-]. exists r. by split; [left|].
    + rewrite lookup_insert_ne by done. intros Hm. destruct (Hc i m Hm) as (q & Hq & ? & ?). exists q. by split; [right|].
Qed.

Section dispatch.
Context (set_pathname : jsstr -> jsstr -> jsstr) (wired : jsstr -> bool).

(** The binding [b] is missing, and one of the requests is for it. *)
Definition missing (t : CompiledTable) (reqs : list Request) (b : jsstr) : Prop :=
  exists r row stripped, r ∈ reqs /\ matchTenant t r = Some (row, stripped) /\ binding row = b /\ wired b = false.

Definition good (reqs : list Request) (t : CompiledTable) (s : route) : Prop :=
  cache_ok reqs s /\ warned_ok s /\ (forall b, b ∈ warnings s <-> missing t reqs b) /\ table s = t.

Lemma missing_cons t r reqs b :
  missing t (r :: reqs) b <->
  missing t reqs b \/ exists row stripped, matchTenant t r = Some (row, stripped) /\ binding row = b /\ wired b = false.
Proof.
  unfold missing. split.
  - intros (q & row & st & Hq & Hr); apply elem_of_cons in Hq as [->|Hq]; [right; by exists row, st|left; by exists q, row, st].
  - intros [(q & row & st & Hq & Hr)|(row & st & Hr)]; [exists q, row, st; split; [by right|done]|exists r, row, st; split; [by left|done]].
Qed.

(** What a request is answered, by its match alone. *)
Definition expected (t : CompiledTable) (r : Request) : option answer :=
  match matchTenant t r with
  | None => None
  | Some (row, stripped) =>
      Some (if wired (binding row) then Forwarded (binding row) (forward_url set_pathname r stripped) else NotFound notFoundResponse)
  end.

Lemma serve_spec reqs t r s : distinct_ids (r :: reqs) -> good reqs t s ->
  exists s', serve set_pathname wired r s = (s', Ok (expected t r)) /\ good (r :: reqs) t s'.
Proof.
  intros Hd (Hc & Hw & Hm & <-). unfold serve, matches. destruct (resolveMatch_spec reqs r s Hd Hc) as (s1 & E1 & Hc1 & Ht1 & Hw1 & Hb1).
  unfold bind at 1 2, bind at 1. rewrite E1. unfold ret at 1. unfold expected.
  destruct (matchTenant (table s) r) as [[row stripped]|] eqn:Em.
  2:{ exists s1. split; [done|]. split; [done|]. split; [unfold warned_ok; by rewrite Hw1, Hb1|]. split; [|done].
      intros b. rewrite Hw1, Hm, missing_cons, Em. split; [by left|]. intros [?|(? & ? & ? & _)]; done. }
  rewrite bool_decide_true by done. unfold handle.
  destruct (resolveMatch_spec (r :: reqs) r s1) as (s2 & E2 & Hc2 & Ht2 & Hw2 & Hb2); [|done|].
  { intros q q' Hq Hq'. apply Hd; [by inversion Hq; subst; [left|]|by inversion Hq'; subst; [left|]]. }
  unfold bind. rewrite E2, Ht1, Em.
  assert (Hc2' : cache_ok (r :: reqs) s2).
  { intros i m Hi. destruct (Hc2 i m Hi) as (q & Hq & ? & ?). exists q. split; [|done]. inversion Hq; subst; [left|done]. }
  assert (Hok : warned_ok s2) by (unfold warned_ok; by rewrite Hw2, Hb2, Hw1, Hb1).
  destruct (wired (binding row)) eqn:Ew; cbn [negb].
  - exists s2. split; [done|]. split; [done|]. split; [done|]. split; [|congruence]. intros b.
    rewrite Hw2, Hw1, Hm, missing_cons, Em. split; [by left|]. intros [?|(? & ? & E & <- & ?)]; [done|]. injection E as <- <-. congruence.
  - assert (Hmiss : forall b, missing (table s) (r :: reqs) b <-> missing (table s) reqs b \/ b = binding row).
    { intros b. rewrite missing_cons, Em. apply or_iff_compat_l. split; [intros (? & ? & E & <- & _); by injection E as <- <-|]. intros ->. by eexists _, _. }
    unfold warn. rewrite Hb2, Hb1. destruct Hw as [Hn Hbs]. case_bool_decide as Ewb.
    + exists s2. split; [done|]. split; [done|]. split; [done|]. split; [|congruence]. intros b.
      rewrite Hw2, Hw1, Hmiss, <- Hm. split; [by left|]. intros [?| ->]; [done|]. by apply Hbs.
    + eexists. split; [reflexivity|]. split; [exact Hc2'|]. unfold warned_ok. cbn [warnings warnedBindings table]. rewrite Hw2, Hw1.
      split; [split|split; [|congruence]].
      * apply NoDup_app. split; [done|]. split; [|apply NoDup_singleton]. intros b Hb E%list_elem_of_singleton. subst. by apply Ewb, Hbs.
      * intros b. rewrite elem_of_app, list_elem_of_singleton, elem_of_cons, Hbs. tauto.
      * intros b. by rewrite Hmiss, elem_of_app, list_elem_of_singleton, Hm.
Qed.

Fixpoint serve_all (rs : list Request) (s : route) : list (option answer) * route :=
  match rs with
  | [] => ([], s)
  | r :: rs => let '(s, a) := serve set_pathname wired r s in
               let '(l, s) := serve_all rs s in
               (match a with Ok o => o | Throw e => match e with end end :: l, s)
  end.

Lemma serve_all_spec t rs : forall reqs s, distinct_ids (rs ++ reqs) -> good reqs t s ->
  (serve_all rs s).1 = map (expected t) rs /\ NoDup (warnings (serve_all rs s).2) /\
  forall b, b ∈ warnings (serve_all rs s).2 <-> missing t (rs ++ reqs) b.
Proof.
  induction rs as [|r rs IH]; intros reqs s Hd Hg; cbn [serve_all app]; [split; [done|by destruct Hg as (_ & [? _] & ? & _)]|].
  destruct (serve_spec reqs t r s) as (s1 & -> & Hg1); [|done|].
  { intros q q' Hq Hq'. apply Hd; (inversion Hq; inversion Hq'; subst; set_solver). }
  specialize (IH (r :: reqs) s1). destruct (serve_all rs s1) as [l s2]. cbn [fst snd] in *.
  destruct IH as (-> & Hn & Hw); [|done|].
  { intros q q' Hq Hq'. apply Hd; set_solver. }
  split; [done|]. split; [done|]. intros b. rewrite Hw. unfold missing. by setoid_rewrite elem_of_app; setoid_rewrite elem_of_cons; setoid_rewrite elem_of_app;
    split; intros (q & row & st & Hq & Hr); exists q, row, st; (split; [tauto|done]).
Qed.

(** The row a request belongs to, and the path inside it: the row of its host, or else the first of the prefix
    rows whose prefix its path is or continues at a slash. *)
Definition routed (rows : list TenantDispatchRow) (r : Request) (row : TenantDispatchRow) (stripped : jsstr) : Prop :=
  exists before after, rows = before ++ row :: after /\
    ((mode row = SNI /\ matchValue row = hostname r /\ stripped = pathname r) \/
     (mode row = PATH_PREFIX /\ match_prefix (matchValue row) (pathname r) = Some stripped /\
      (forall row', row' ∈ rows -> mode row' = SNI -> matchValue row' <> hostname r) /\
      (forall row', row' ∈ before -> mode row' = PATH_PREFIX -> match_prefix (matchValue row') (pathname r) = None))).

Definition unrouted (rows : list TenantDispatchRow) (r : Request) : Prop :=
  (forall row, row ∈ rows -> mode row = SNI -> matchValue row <> hostname r) /\
  (forall row, row ∈ rows -> mode row = PATH_PREFIX -> match_prefix (matchValue row) (pathname r) = None).

Lemma elem_of_by_mode m rows row : row ∈ by_mode m rows <-> mode row = m /\ row ∈ rows.
Proof. unfold by_mode. by rewrite list_elem_of_filter. Qed.

Lemma first_match_by_mode path rows row s : first_match path (by_mode PATH_PREFIX rows) = Some (row, s) <->
  exists before after, rows = before ++ row :: after /\ mode row = PATH_PREFIX /\ match_prefix (matchValue row) path = Some s /\
    (forall row', row' ∈ before -> mode row' = PATH_PREFIX -> match_prefix (matchValue row') path = None).
Proof.
  unfold by_mode. induction rows as [|q rows IH].
  { split; [done|]. intros ([|? ?] & after & E & _); done. }
  destruct (decide (mode q = PATH_PREFIX)) as [Hq|Hq].
  - rewrite filter_cons_True by done. cbn [first_match]. destruct (match_prefix (matchValue q) path) as [s'|] eqn:E.
    + split.
      * intros [= <- <-]. exists [], rows. split; [done|]. split; [done|]. split; [done|]. by intros ? ?%elem_of_nil.
      * intros ([|q' before] & after & [= -> ->] & Hm & Hp & Hb); [by rewrite E in Hp; injection Hp as ->|].
        rewrite (Hb q') in E by (by left || done). done.
    + rewrite IH. split.
      * intros (before & after & -> & Hm & Hp & Hb). exists (q :: before), after. split; [done|]. split; [done|]. split; [done|].
        intros row' [->|Hr]%elem_of_cons; [done|by apply Hb].
      * intros ([|q' before] & after & [= -> ->] & Hm & Hp & Hb); [by rewrite E in Hp|]. exists before, after. split; [done|].
        split; [done|]. split; [done|]. intros row' Hr. apply Hb. by right.
  - rewrite filter_cons_False by done. rewrite IH. split.
    + intros (before & after & -> & Hm & Hp & Hb). exists (q :: before), after. split; [done|]. split; [done|]. split; [done|].
      intros row' [->|Hr]%elem_of_cons; [done|by apply Hb].
    + intros ([|q' before] & after & [= -> ->] & Hm & Hp & Hb); [done|]. exists before, after. split; [done|].
      split; [done|]. split; [done|]. intros row' Hr. apply Hb. by right.
Qed.

Lemma no_host_iff rows h : assoc h (map keyed (by_mode SNI rows)) = None <->
  forall row, row ∈ rows -> mode row = SNI -> matchValue row <> h.
Proof.
  rewrite assoc_keyed, list_elem_of_fmap. setoid_rewrite elem_of_by_mode. split.
  - intros Hn row Hr Hm E. apply Hn. by exists row.
  - intros Hn (row & E & Hm & Hr). by apply (Hn row Hr Hm).
Qed.

Lemma host_iff rows h row : NoDup (map matchValue (by_mode SNI rows)) ->
  assoc h (map keyed (by_mode SNI rows)) = Some row <-> row ∈ rows /\ mode row = SNI /\ matchValue row = h.
Proof.
  intros Hn. split.
  - intros (row' & [= -> ->] & Hr)%assoc_in%list_elem_of_fmap. by apply elem_of_by_mode in Hr as [? ?].
  - intros (Hr & Hm & <-). assert (Hi : row ∈ by_mode SNI rows) by by apply elem_of_by_mode. clear Hr Hm. revert Hn Hi.
    generalize (by_mode SNI rows). intros l. induction l as [|q l IH]; [by intros _ ?%elem_of_nil|]. cbn [map assoc keyed].
    intros [Hq Hn]%NoDup_cons [->|Hi]%elem_of_cons; [by rewrite decide_True|]. rewrite decide_False; [by apply IH|].
    intros E. apply Hq. rewrite <- E. apply list_elem_of_fmap. by exists row.
Qed.

Lemma match_iff rows r : spec_ok rows ->
  let t := mkTable (map keyed (by_mode SNI rows)) (by_mode PATH_PREFIX rows) in
  (forall row stripped, matchTenant t r = Some (row, stripped) <-> routed rows r row stripped) /\
  (matchTenant t r = None <-> unrouted rows r).
Proof.
  intros (_ & _ & Hd) t. unfold matchTenant, t. cbn [sni pathPrefix]. rewrite scan_first.
  destruct (assoc (hostname r) (map keyed (by_mode SNI rows))) as [row0|] eqn:Ea.
  - apply host_iff in Ea as (Hr0 & Hm0 & Hh0); [|done]. split.
    + intros row stripped. split.
      * intros [= -> <-]. apply list_elem_of_split in Hr0 as (l1 & l2 & E). exists l1, l2. split; [done|]. by left.
      * intros (before & after & E & [(Hm & Hh & ->)|(_ & _ & Hno & _)]); [|by destruct (Hno row0 Hr0 Hm0)].
        assert (E1 : assoc (hostname r) (map keyed (by_mode SNI rows)) = Some row) by (apply host_iff; [done|]; split; [rewrite E; set_solver|done]).
        assert (E2 : assoc (hostname r) (map keyed (by_mode SNI rows)) = Some row0) by by apply host_iff. congruence.
    + split; [done|]. intros [Hno _]. by destruct (Hno row0 Hr0 Hm0).
  - pose proof (proj1 (no_host_iff _ _) Ea) as Hno0. clear Ea. rename Hno0 into Ea. split.
    + intros row stripped. rewrite first_match_by_mode. split.
      * intros (before & after & E & Hm & Hp & Hb). exists before, after. split; [done|]. right. by repeat split.
      * intros (before & after & E & [(Hm & Hh & _)|(Hm & Hp & _ & Hb)]); [exfalso; apply (Ea row); [rewrite E; set_solver|done..]|].
        by exists before, after.
    + split.
      * intros Hf. split; [done|]. intros row Hrow Hm. destruct (match_prefix _ _) as [st|] eqn:Emp; [|done]. exfalso.
        assert (Hb : row ∈ by_mode PATH_PREFIX rows) by by apply elem_of_by_mode. clear -Hf Hb Emp.
        induction (by_mode PATH_PREFIX rows) as [|q l IH]; [by apply not_elem_of_nil in Hb|]. cbn [first_match] in Hf.
        destruct (match_prefix (matchValue q) (pathname r)) eqn:Eq; [done|]. apply elem_of_cons in Hb as [->|Hb]; [congruence|by apply IH].
      * intros [_ Hn]. destruct (first_match _ _) as [[row st]|] eqn:Ef; [|done].
        apply first_match_by_mode in Ef as (before & after & E & Hm & Hp & _). rewrite (Hn row) in Hp; [done|rewrite E; set_solver|done].
Qed.

(** C16: Requests reach their own tenant, and nothing else does.  However many requests a route serves,
    in any order, each one is answered by its own match alone, caches and warnings notwithstanding:
    it goes to the binding of the row whose host it names, or else of the first row whose prefix its
    path is or continues at a slash, with the path inside the prefix; a row whose binding is missing
    is answered with the endpoint's fixed 404, and a request that matches no row is left to the routes
    after this one.  The warnings are exactly the missing bindings some request was for, each once.
    (Requests are objects: two of the sequence with one identity are one object.) *)
Theorem tenants_are_isolated rows s0 rs :
  new_route rows = Ok s0 -> distinct_ids rs ->
  (NoDup (warnings (serve_all rs s0).2) /\
   forall b, b ∈ warnings (serve_all rs s0).2 <->
     wired b = false /\ exists r row stripped, r ∈ rs /\ routed rows r row stripped /\ binding row = b) /\
  forall i r, rs !! i = Some r ->
    (unrouted rows r /\ (serve_all rs s0).1 !! i = Some None) \/
    exists row stripped, routed rows r row stripped /\
      (serve_all rs s0).1 !! i = Some (Some
        (if wired (binding row) then Forwarded (binding row) (forward_url set_pathname r stripped) else NotFound notFoundResponse)).
Proof.
  unfold new_route. intros (t & Et & [= <-])%rbind_ok Hd. apply compile_iff in Et as [Hok ->].
  set (t := mkTable _ _). set (s0 := mkRoute t [] ∅ []).
  assert (Hg : good [] t s0).
  { split; [by intros i m; unfold s0; cbn [matchCache]; rewrite lookup_empty|]. split; [split; [constructor|done]|]. split; [|done].
    intros b. split; [by intros ?%elem_of_nil|]. by intros (? & ? & ? & Hx & _); apply elem_of_nil in Hx. }
  destruct (serve_all_spec t rs [] s0) as (Hl & Hn & Hw); [by rewrite app_nil_r|done|]. split; [split; [done|]|].
  - intros b. rewrite Hw, app_nil_r. unfold missing. split.
    + intros (r & row & st & Hr & Hm & Hb & Hf). split; [done|]. exists r, row, st. by apply (match_iff rows r Hok) in Hm.
    + intros (Hf & r & row & st & Hr & Hm & Hb). exists r, row, st. by apply (match_iff rows r Hok) in Hm.
  - intros i r Hi. rewrite Hl, list_lookup_fmap, Hi. cbn [fmap option_fmap option_map]. unfold expected.
    destruct (match_iff rows r Hok) as [Hs Hno]. fold t in Hs, Hno. destruct (matchTenant t r) as [[row st]|].
    + right. exists row, st. split; [by apply Hs|done].
    + left. split; [by apply Hno|done].
Qed.
End dispatch.

(** ** A concrete table *)

Section demo.

#[local] Definition alice : TenantDispatchRow := mkRow (js "alice") SNI (js "alice.example.com") (js "TENANT_ALICE").
#[local] Definition bob : TenantDispatchRow := mkRow (js "bob") PATH_PREFIX (js "/t/bob") (js "TENANT_BOB").
#[local] Definition carol : TenantDispatchRow := mkRow (js "carol") PATH_PREFIX (js "/t/carol/") (js "TENANT_CAROL").
#[local] Definition dave : TenantDispatchRow := mkRow (js "dave") SNI (js "Dave.example.com") (js "TENANT_DAVE").
#[local] Definition rows : list TenantDispatchRow := [alice; bob; carol; dave].

#[local] Definition at_ (i : Z) (host path : string) : Request :=
  mkRequest i (js "https://" ++ js host ++ js path) (js host) (js path).
(** The URLs of the demonstration have a host of one length and a path alone. *)
#[local] Definition set_path (u p : jsstr) : jsstr := take (length (js "https://gw.example.com")) u ++ p.
#[local] Definition wired (b : jsstr) : bool := bool_decide (b = js "TENANT_BOB").

#[local] Definition start : route := mkRoute (mkTable (map keyed [alice; dave]) [bob; carol]) [] ∅ [].

#[local] Definition traffic : list Request :=
  [at_ 1 "gw.example.com" "/t/bob/interlace"; at_ 2 "gw.example.com" "/t/bobby";
   at_ 3 "alice.example.com" "/x"; at_ 4 "alice.example.com" "/y";
   at_ 5 "gw.example.com" "/t/carol/x"; at_ 6 "dave.example.com" "/x"].

(** The sixth request is for [dave]'s host, in the lower case a URL's host always has: the table's
    spelling of it matches no request. *)
Example traffic_served :
  serve_all set_path wired traffic start =
  ([Some (Forwarded (js "TENANT_BOB") (js "https://gw.example.com/interlace")); None;
    Some (NotFound notFoundResponse); Some (NotFound notFoundResponse); None; None],
   snd (serve_all set_path wired traffic start)) /\
  warnings (snd (serve_all set_path wired traffic start)) = [js "TENANT_ALICE"].
Proof. split; vm_compute; reflexivity. Qed.

(** A prefix that is written with its closing slash takes the path that equals it and that path with
    two slashes, and nothing below it. *)
Lemma closing_slash_matches prefix path stripped :
  match_prefix (prefix ++ [SLASH]) path = Some stripped ->
  path = prefix ++ [SLASH] \/ exists rest, path = prefix ++ [SLASH; SLASH] ++ rest.
Proof.
  rewrite match_prefix_iff. intros [[-> _]|(rest & -> & _)]; [by left|]. right. exists rest. by rewrite <- app_assoc.
Qed.

(** What a probe tells apart: a tenant whose binding is missing is answered with the fixed 404, a
    name that is no tenant's falls through to the routes after this one, and in the end to the
    router's own answer. *)
Example unknown_tenant_falls_through :
  (serve set_path wired (at_ 1 "gw.example.com" "/t/nobody/x") start).2 = Ok None /\
  (serve set_path wired (at_ 2 "alice.example.com" "/x") start).2 = Ok (Some (NotFound notFoundResponse)).
Proof. split; vm_compute; reflexivity. Qed.

Lemma tenants_are_isolated_witness :
  new_route rows = Ok start /\ NoDup (warnings (serve_all set_path wired traffic start).2).
Proof.
  assert (E : new_route rows = Ok start) by (vm_compute; reflexivity).
  split; [exact E|]. refine (proj1 (proj1 (tenants_are_isolated set_path wired rows start traffic E _))).
  intros q q' Hq Hq'. unfold traffic in *.
  repeat (apply elem_of_cons in Hq as [->|Hq]); [..|by apply not_elem_of_nil in Hq];
  (repeat (apply elem_of_cons in Hq' as [->|Hq']); [..|by apply not_elem_of_nil in Hq']);
  cbn [id at_]; first [reflexivity|discriminate].
Defined.
End demo.

End Tenant.
