(* ===== verification/Backends.v ===== *)
(** The other tool backends: a Durable Object (src/manifest/backends/durable-object.ts), a service
    binding (service-binding.ts), and the two that go through the companion process, a Unix-domain
    socket (uds-forward.ts) and the network bridge (leyline-net.ts).

    A backend keeps no state.  Its environment says which bindings and variables are set; what it
    calls is a function of the request to the reply.  The texts of exceptions of the platform are
    parameters. *)
From S2P Require Import Prelude JsString Json JsonText JsConvert Canonical Bead Base64 Codec WireMessages McpRoute McpProxy.

Module Backends.
Import JsonText JsConvert.

(** ** What they share *)

Inductive exn :=
  | JsonRpcError (code : option Json) (message : jsstr)
  | FetchThrew (message : jsstr)
  | BodyThrew
  | CanonicalThrew (e : Canonical.canonical_error)
  | EncodeThrew (e : Codec.wire_error)
  | TypeErrorThrew
  | OutsideModel.

(** The value of a call; [None] is [undefined]. *)
Abbreviation outcome := (result exn (option Json)).

Definition INTERNAL : option Json := Some (JNum (-32603)).
Definition internal {A} (m : jsstr) : result exn A := Throw (JsonRpcError INTERNAL m).

(** Empty prefix: the advertised names; otherwise the prefix. *)
Definition handles (handlesPrefix : jsstr) (tools : list McpRoute.McpTool) (toolName : jsstr) : bool :=
  if bool_decide (handlesPrefix = []) then bool_decide (toolName ∈ map McpRoute.t_name tools)
  else starts_with handlesPrefix toolName.

(** [super(message)] of an error whose message is a property. *)
Definition error_text (o : option Json) : result exn jsstr :=
  match o with
  | None => Ok []
  | Some v => match to_string v with Some t => Ok t | None => Throw TypeErrorThrew end
  end.

Definition snippet (r : McpProxy.response) : jsstr :=
  let body := default [] (McpProxy.text r) in
  if (200 <? length body)%nat then take 200 body ++ [8230] else body.

(** [`<who> HTTP <status>: <snippet>`] *)
Definition http_failure (who : string) (r : McpProxy.response) : jsstr :=
  js who ++ js_dec (McpProxy.status r) ++ match snippet r with [] => [] | t => js ": " ++ t end.

(** [body.error], where it is truthy, as an exception. *)
Definition raise_error (body : Json) : result exn unit :=
  if is_null body then Throw TypeErrorThrew
  else
    let err := get_prop body (js "error") in
    if truthy err then
      let? m := error_text (opt_prop err (js "message")) in Throw (JsonRpcError (opt_prop err (js "code")) m)
    else Ok tt.

(** [text === '' ? null : JSON.parse(text)], or the text itself where that throws. *)
Definition parse_or_text (text : jsstr) : result exn Json :=
  match text with
  | [] => Ok JNull
  | _ => match json_parse text with
         | Ok v => Ok v
         | Throw Unrepresentable => Throw OutsideModel
         | Throw _ => Ok (JStr text)
         end
  end.

(** A request that leaves the worker. *)
Record wire_post := mkPost { w_to : jsstr; w_headers : list (jsstr * jsstr); w_body : bytes }.

Definition JSON_HEADERS : list (jsstr * jsstr) := [(js "content-type", js "application/json")].

Section backends.
(** The far side, and the texts of the platform's exceptions. *)
Context (up : wire_post -> McpProxy.reply) (json_error_text : jsstr) (wire_error_text : Codec.wire_error -> jsstr).

Definition fetch (p : wire_post) : result exn McpProxy.response :=
  match up p with McpProxy.NetworkError m => Throw (FetchThrew m) | McpProxy.Reply r => Ok r end.

(** [res.json()]: [None] where it throws. *)
Definition json (r : McpProxy.response) : result exn (option Json) :=
  match McpProxy.text r with
  | None => Ok None
  | Some t => match json_parse t with Ok v => Ok (Some v) | Throw Unrepresentable => Throw OutsideModel | Throw _ => Ok None end
  end.

(** ** A Durable Object *)

Record DoBackend := mkDo { binding : jsstr; keyArg : jsstr }.

Definition do_request (toolName : jsstr) (args : Json) : Json :=
  JObj [(js "jsonrpc", JStr (js "2.0")); (js "method", JStr toolName); (js "params", args); (js "id", JNum 0)].

(** [String(args[keyArg] ?? '')]; a stub is addressed by its name. *)
Definition do_key (keyArg : jsstr) (args : Json) : result exn jsstr :=
  error_text (Some (nullish (get_prop args keyArg) (JStr []))).

Definition do_invoke (spec : DoBackend) (handlesPrefix : jsstr) (bound : jsstr -> bool) (toolName : jsstr)
    (args : Json) : outcome :=
  if negb (bound (binding spec)) then
    internal (js "manifest: DO binding " ++ [34] ++ binding spec ++ [34] ++ js " not present in env")
  else
    let? key := do_key (keyArg spec) args in
    if bool_decide (key = []) then
      Throw (JsonRpcError (Some (JNum (-32602))) (keyArg spec ++ js " is required for " ++ handlesPrefix ++ js "* tools"))
    else
      let? res := fetch (mkPost key JSON_HEADERS (utf8_encode (json_stringify (do_request toolName args)))) in
      let? body := json res in
      match body with
      | None => Throw BodyThrew
      | Some body => let? _ := raise_error body in Ok (get_prop body (js "result"))
      end.

(** ** A service binding *)

Definition sb_request (toolName : jsstr) (args : Json) : Json :=
  JObj [(js "jsonrpc", JStr (js "2.0")); (js "id", JNum 0); (js "method", JStr (js "tools/call"));
        (js "params", JObj [(js "name", JStr toolName); (js "arguments", args)])].

(** [JSON.parse(text)] of a text that may be any value. *)
Definition parse_any (t : Json) : result exn Json :=
  match t with
  | JStr s => parse_or_text s
  | _ => match to_string t with
         | None => Ok t
         | Some s => match json_parse s with Ok v => Ok v | Throw Unrepresentable => Throw OutsideModel | Throw _ => Ok t end
         end
  end.

Definition sb_unwrap (result : option Json) : outcome :=
  match opt_prop result (js "content") with
  | Some (JArr (c :: _)) =>
      if is_null c then Throw TypeErrorThrew
      else let? v := parse_any (nullish (get_prop c (js "text")) (JStr [])) in Ok (Some v)
  | _ => internal (js "upstream returned no MCP content")
  end.

Definition sb_invoke (binding : jsstr) (bound : jsstr -> bool) (toolName : jsstr) (args : Json) : outcome :=
  if negb (bound binding) then
    internal (js "manifest: service binding " ++ [34] ++ binding ++ [34] ++ js " not present in env")
  else
    let? res := fetch (mkPost (js "https://upstream/mcp") JSON_HEADERS (utf8_encode (json_stringify (sb_request toolName args)))) in
    if negb (McpProxy.is_ok res) then internal (http_failure "upstream returned HTTP " res)
    else
      let? body := json res in
      match body with
      | None => internal (js "upstream response not JSON: " ++ json_error_text)
      | Some body => let? _ := raise_error body in sb_unwrap (get_prop body (js "result"))
      end.

(** ** The companion *)

Definition CAPNP_CALL : jsstr * jsstr := (js "content-type", js "application/x-capnp; type=ToolCall").

(** The first text, or what its JSON says under [error]. *)
Fixpoint errorMessageFromContent (content : list WireMessages.Content) (toolName : jsstr) : result exn jsstr :=
  match content with
  | [] => Ok (js "tool " ++ toolName ++ js " failed")
  | WireMessages.CText t :: _ =>
      match json_parse t with
      | Throw Unrepresentable => Throw OutsideModel
      | Ok (JObj m) => match assoc (js "error") m with Some e => error_text (Some e) | None => Ok t end
      | _ => Ok t
      end
  | _ :: content => errorMessageFromContent content toolName
  end.

Definition bytesToBase64 (bs : bytes) : jsstr := Base64.btoa bs.

Definition contentToJsonShape (c : WireMessages.Content) : Json :=
  match c with
  | WireMessages.CText t => JObj [(js "type", JStr (js "text")); (js "text", JStr t)]
  | WireMessages.CBinary b =>
      JObj [(js "type", JStr (js "image")); (js "data", JStr (bytesToBase64 (WireMessages.bin_data b)));
            (js "mimeType", JStr (WireMessages.mimeType b))]
  | WireMessages.CResource r =>
      JObj [(js "type", JStr (js "resource")); (js "text", JStr (utf8_decode_lossy r)); (js "bytes", JStr (bytesToBase64 r))]
  end.

(** What the caller gets for a result. *)
Definition result_value (r : WireMessages.ToolResult) (toolName : jsstr) : outcome :=
  if WireMessages.isError r then
    let? m := errorMessageFromContent (WireMessages.tr_content r) toolName in Throw (JsonRpcError (Some (JNum (-32000))) m)
  else
    match WireMessages.tr_content r with
    | [WireMessages.CText t] => let? v := parse_or_text t in Ok (Some v)
    | cs => Ok (Some (JArr (map contentToJsonShape cs)))
    end.

(** The bytes of a call. *)
Definition call_bytes (upstreamId toolName : jsstr) (args : Json) : result exn bytes :=
  match Canonical.canonical (Bead.of_json args) with
  | Throw e => Throw (CanonicalThrew e)
  | Ok argumentsJson =>
      match WireMessages.encodeToolCall (WireMessages.mkToolCall upstreamId toolName argumentsJson) with
      | Throw e => Throw (EncodeThrew e)
      | Ok bs => Ok bs
      end
  end.

(** From the companion's reply to the value. *)
Definition companion_answer (p : wire_post) (toolName : jsstr) : outcome :=
  match up p with
  | McpProxy.NetworkError m => internal (js "companion unreachable: " ++ m)
  | McpProxy.Reply res =>
      if negb (McpProxy.is_ok res) then internal (http_failure "companion HTTP " res)
      else
        match McpProxy.broken res with
        | Some m => internal (js "companion returned non-binary body: " ++ m)
        | None =>
            match WireMessages.decodeToolResult (concat (McpProxy.chunks res)) with
            | Throw e => internal (js "companion response not valid capnp ToolResult: " ++ wire_error_text e)
            | Ok r => result_value r toolName
            end
        end
  end.

Record LeylineNetBackend := mkLeyline { companionUrlBinding : jsstr; ll_upstreamId : jsstr }.

Definition or_name (handlesPrefix toolName : jsstr) : jsstr := match handlesPrefix with [] => toolName | p => p end.

Definition leyline_invoke (spec : LeylineNetBackend) (handlesPrefix : jsstr) (var : jsstr -> option jsstr) (toolName : jsstr)
    (args : Json) : outcome :=
  match var (companionUrlBinding spec) with
  | Some ((_ :: _) as url) =>
      let? bs := call_bytes (ll_upstreamId spec) toolName args in
      companion_answer (mkPost url [CAPNP_CALL] bs) toolName
  | _ => internal (js "manifest: " ++ companionUrlBinding spec ++ js " not configured " ++ [8212] ++ js " cannot route " ++
                   or_name handlesPrefix toolName ++ js "* calls")
  end.

Definition COMPANION_URL_BINDING : jsstr := js "COMPANION_URL".

(** [handlesPrefix.replace(/_$/, '')] *)
Definition drop_underscore (s : jsstr) : jsstr := if ends_with [95] s then take (length s - 1) s else s.

Definition uds_upstreamId (handlesPrefix toolName : jsstr) : jsstr :=
  if bool_decide (handlesPrefix = []) then toolName else drop_underscore handlesPrefix.

Definition uds_headers (socketPath : jsstr) : list (jsstr * jsstr) :=
  [CAPNP_CALL; (js "x-cloister-transport", js "uds"); (js "x-cloister-socket-path", socketPath)].

Definition uds_invoke (socketPath handlesPrefix : jsstr) (var : jsstr -> option jsstr) (toolName : jsstr) (args : Json) : outcome :=
  match var COMPANION_URL_BINDING with
  | Some ((_ :: _) as url) =>
      let? bs := call_bytes (uds_upstreamId handlesPrefix toolName) toolName args in
      companion_answer (mkPost url (uds_headers socketPath) bs) toolName
  | _ => internal (js "manifest: " ++ COMPANION_URL_BINDING ++ js " not configured " ++ [8212] ++ js " cannot route " ++
                   or_name handlesPrefix toolName ++ js "* calls to UDS socket " ++ [34] ++ socketPath ++ [34])
  end.

End backends.

(** ** What the companion reads *)

Lemma of_json_data v : Canonical.to_json (Bead.of_json v) = Some v.
Proof.
  induction v as [| | | |l Hl|m Hm] using json_tree_ind; try done; cbn [Bead.of_json Canonical.to_json].
  - assert (E : Canonical.all_some (map Canonical.to_json (map Bead.of_json l)) = Some l); [|by rewrite E].
    induction Hl as [|v l Hv Hl IH]; [done|]. cbn [map Canonical.all_some]. by rewrite Hv, IH.
  - match goal with |- context [Canonical.all_some ?l] => assert (E : Canonical.all_some l = Some m); [|exact (f_equal (fun o => xs ← o; Some (JObj xs)) E)] end.
    induction Hm as [|[k v] m Hv Hm IH]; [done|]. cbn [map fst snd]. cbn [snd] in Hv.
    assert (En : Canonical.is_undefined (Bead.of_json v) = false) by by destruct v.
    cbn [omap list_omap fst snd]. unfold Canonical.data_property at 1. cbn [fst snd]. rewrite En, Hv.
    cbn [mbind option_bind]. exact (f_equal (fun o => xs ← o; Some ((k, v) :: xs)) IH).
Qed.

Lemma of_json_keys v : Canonical.value_keys (Bead.of_json v) = Canonical.distinct_keys v.
Proof.
  induction v as [| | | |l Hl|m Hm] using json_tree_ind; try done; cbn [Bead.of_json Canonical.value_keys Canonical.distinct_keys].
  - induction Hl as [|v l Hv Hl IH]; [done|]. cbn [map forallb]. by rewrite Hv, IH.
  - rewrite map_map. change (map (fun kv : jsstr * Json => (kv.1, Bead.of_json kv.2).1) m) with (map (@fst jsstr Json) m).
    f_equal. induction Hm as [|[k v] m Hv Hm IH]; [done|]. cbn [map forallb snd]. cbn [snd] in Hv. by rewrite Hv, IH.
Qed.

Lemma stringify_no_bom v : has_bom (json_stringify v) = false.
Proof.
  destruct v as [|[]|z|q|l|m]; try reflexivity. cbn [json_stringify].
  pose proof (js_dec_units z) as Hz. unfold has_bom. destruct (js_dec z) as [|c t]; [done|].
  inversion Hz as [|? ? Hc]; subst. apply Z.eqb_neq. unfold BOM. destruct Hc; lia.
Qed.

(** The companion reads the call that was made.  For a tool name and a tag that are proper texts, and
    arguments of JSON data with distinct keys, within the codec's sizes, the bytes posted decode to
    the tag, the name, and argument bytes whose JSON is the arguments up to the order of their
    keys. *)
Theorem companion_reads_the_call id n args :
  well_formed id = true -> has_bom id = false -> well_formed n = true -> has_bom n = false ->
  representable args = true -> Canonical.distinct_keys args = true ->
  Codec.blen (WireMessages.encodeTextWithNul id) < 2 ^ 27 -> Codec.blen (WireMessages.encodeTextWithNul n) < 2 ^ 27 ->
  Codec.blen (utf8_encode (json_stringify (Canonical.sort_keys args))) < 2 ^ 27 ->
  exists bs tc, call_bytes id n args = Ok bs /\ WireMessages.decodeToolCall bs = Ok tc /\
    WireMessages.upstreamId tc = id /\ WireMessages.toolName tc = n /\
    json_parse (utf8_decode_lossy (WireMessages.argumentsJson tc)) = Ok (as_parsed (Canonical.sort_keys args)).
Proof.
  intros W1 B1 W2 B2 Hr Hd L1 L2 L3. unfold call_bytes.
  rewrite (Canonical.canonical_json _ args) by (by rewrite ?of_json_keys, ?of_json_data).
  set (tc := WireMessages.mkToolCall id n (utf8_encode (json_stringify (Canonical.sort_keys args)))) in *.
  destruct (WireMessages.toolcall_roundtrip tc W1 B1 W2 B2 L1 L2 L3) as (bs & -> & E).
  assert (Hrs : representable (Canonical.sort_keys args) = true) by by rewrite Canonical.sort_keys_representable.
  exists bs, tc. do 4 (split; [done|]). unfold tc. cbn [WireMessages.argumentsJson].
  rewrite utf8_lossy_encode; [|by apply stringify_well_formed|apply stringify_no_bom]. by apply json_roundtrip.
Qed.

Lemma companion_reads_the_call_witness :
  let args := JObj [(js "repo", JStr (js "r")); (js "n", JNum 3)] in
  exists bs tc, call_bytes (js "rosary") (js "rsry_add") args = Ok bs /\ WireMessages.decodeToolCall bs = Ok tc /\
    WireMessages.upstreamId tc = js "rosary" /\ WireMessages.toolName tc = js "rsry_add" /\
    json_parse (utf8_decode_lossy (WireMessages.argumentsJson tc)) = Ok (JObj [(js "n", JNum 3); (js "repo", JStr (js "r"))]).
Proof. intros args. apply (companion_reads_the_call (js "rosary") (js "rsry_add") args); vm_compute; reflexivity. Defined.

(** ** Same reply, other outcome *)

(** The three backends that read a result are said to look alike to a caller.  A result that is
    marked as an error is one for the companion's backends; the service binding returns it as the
    value of a call that worked. *)
Example service_binding_ignores_is_error :
  sb_unwrap (Some (JObj [(js "isError", JBool true);
      (js "content", JArr [JObj [(js "type", JStr (js "text")); (js "text", JStr (js "no such repo"))]])])) =
    Ok (Some (JStr (js "no such repo"))) /\
  result_value (WireMessages.mkToolResult [WireMessages.CText (js "no such repo")] true) (js "t") =
    Throw (JsonRpcError (Some (JNum (-32000))) (js "no such repo")).
Proof. split; vm_compute; reflexivity. Qed.

End Backends.
