(* ===== verification/VaultProxy.v ===== *)
(** The credential proxy: the handler (src/routes/vault-proxy.ts), its route
    (src/routes/vault-proxy-route.ts) and the two credential stores
    (src/routes/vault-proxy-credential-store.ts, src/routes/vault-do-credential-store.ts).

    The route runs over the burst buckets, the lease gate, the rate windows, the credential
    stores and the vault objects, one per bundle name; what it sends upstream, the receipts, the
    metrics and the denials it logs are part of its state.  The URL parser's pathname is an
    argument, the upstream a function of the request it gets, and the default lease verifier is
    the one modelled. *)
From S2P Require Import Prelude JsString Platform Json JsonText Base64 CaBundle TrustStore Lease ReceiptEmit RateBucket Vault VaultStore.

Module VaultProxy.
Import JsonText.

(** ** Services *)

Inductive InjectionStrategy :=
  | authorizationBearer
  | authorizationBasic
  | headerNamed (name : jsstr)
  | queryParam (name : jsstr)
  | bodyField (path : jsstr)
  | passthrough.

Record VaultProxyService := mkService {
  name : jsstr;
  upstreamBaseUrl : jsstr;
  injection : InjectionStrategy;
  defaultAllowedSubs : list jsstr;
  rateLimitPerMinute : Z;
}.

(** ** Requests and responses *)

Abbreviation Headers := (gmap (list Z) jsstr).

(** The request, and the URL parser's pathname. *)
Record Request := mkRequest { incoming : Vault.Incoming; pathname : jsstr }.

Definition r_headers (r : Request) : Headers := list_to_map (Vault.i_headers (incoming r)).
Definition header (r : Request) (n : string) : option jsstr := r_headers r !! js n.
Definition r_method (r : Request) : jsstr := Vault.i_method (incoming r).

Record Response := mkResponse { status : Z; headers : Headers; body : bytes }.

Definition CONSTANT_TIME_ERROR_BODY : jsstr :=
  json_stringify (JObj [(js "error", JStr (js "unauthorized"));
                        (js "reason", JStr (js "credential not available or caller not authorized"))]).
Definition SHAPE_U_ERROR_BODY : jsstr := json_stringify (JObj [(js "error", JStr (js "upstream_unavailable"))]).

Definition REQUIRED_ERROR_HEADERS : list (jsstr * jsstr) :=
  [(js "content-type", js "application/json"); (js "cache-control", js "no-store");
   (js "x-content-type-options", js "nosniff")].

(** [{ ...REQUIRED_ERROR_HEADERS, ...extraHeaders }] *)
Definition errorResponse (st : Z) (b : jsstr) (extraHeaders : list (jsstr * jsstr)) : Response :=
  mkResponse st (list_to_map (extraHeaders ++ REQUIRED_ERROR_HEADERS)) (utf8_encode b).

Definition rejection (st : Z) : Response := errorResponse st CONSTANT_TIME_ERROR_BODY [].

Definition PROXY_SERVER_HEADER_VALUE : jsstr := js "cloister/credential-isolation/v1".

Definition stampReservedHeaders (res : Response) : Response :=
  mkResponse (status res) (<[js "server" := PROXY_SERVER_HEADER_VALUE]> (headers res)) (body res).

Definition isAccessFailure (st : Z) : bool := bool_decide (st ∈ [401; 403; 404; 429]).
Definition isUpstreamFailure (st : Z) : bool := bool_decide (st ∈ [502; 503]).

Definition collapseWireShape (res : Response) : Response :=
  if (200 <=? status res) && (status res <? 400) then stampReservedHeaders res
  else if negb (isAccessFailure (status res)) && negb (isUpstreamFailure (status res)) then res
  else
    let canonicalBody := if isAccessFailure (status res) then CONSTANT_TIME_ERROR_BODY else SHAPE_U_ERROR_BODY in
    let extra := match headers res !! js "retry-after" with
                 | Some ((_ :: _) as retryAfter) => [(js "retry-after", retryAfter)]
                 | _ => []
                 end in
    stampReservedHeaders (errorResponse (status res) canonicalBody extra).

(** ** Paths *)

Definition PATH_PREFIX : jsstr := js "/vault/proxy/".
Definition SLASH : Z := 47.

Definition name_start (c : Z) : bool := ((97 <=? c) && (c <=? 122)) || is_digit c.
Definition name_rest (c : Z) : bool := name_start c || (c =? 46) || (c =? 95) || (c =? 45).

Definition isValidServiceName (n : jsstr) : bool :=
  match n with c :: rest => name_start c && forallb name_rest rest && (length rest <=? 62)%nat | [] => false end.

(** The text before the first slash, and the text from it on, if there is one. *)
Fixpoint cut_slash (s : jsstr) : jsstr * option jsstr :=
  match s with
  | [] => ([], None)
  | c :: s' => if c =? SLASH then ([], Some s) else let '(a, b) := cut_slash s' in (c :: a, b)
  end.

Definition parseVaultProxyPath (p : jsstr) : option (jsstr * jsstr) :=
  if negb (starts_with PATH_PREFIX p) then None
  else
    let '(service, upstreamPath) := cut_slash (drop (length PATH_PREFIX) p) in
    if isValidServiceName service then Some (service, default [] upstreamPath) else None.

(** ** Credential stores *)

Record CredentialLookup := mkLookup { credential : jsstr; username : option jsstr }.

(** The store's methods on its state; the innermost [None] is an exception. *)
Record CredentialStore (S : Type) := mkStore {
  resolve : jsstr -> jsstr -> S -> S * option (option CredentialLookup);
  forward : option (jsstr -> jsstr -> jsstr -> Request -> S -> S * option Response);
}.
Arguments mkStore {S}.
Arguments resolve {S}.
Arguments forward {S}.

Module InMemoryCredentialStore.
Definition key (peerFp service : jsstr) : jsstr := peerFp ++ js "::" ++ service.
Definition set (peerFp service : jsstr) (l : CredentialLookup) (m : gmap (list Z) CredentialLookup) := <[key peerFp service := l]> m.
Definition delete (peerFp service : jsstr) (m : gmap (list Z) CredentialLookup) : gmap (list Z) CredentialLookup * bool :=
  (base.delete (key peerFp service) m, bool_decide (is_Some (m !! key peerFp service))).
Definition size_of (m : gmap (list Z) CredentialLookup) : nat := size m.
Definition clear (m : gmap (list Z) CredentialLookup) : gmap (list Z) CredentialLookup := ∅.
Definition store : CredentialStore (gmap (list Z) CredentialLookup) :=
  mkStore (fun p s m => (m, Some (m !! key p s))) None.
End InMemoryCredentialStore.

(** ** The state *)

Record ProxyCallReceipt := mkReceipt {
  peerFp : jsstr;
  service : jsstr;
  upstreamStatus : Z;
  upstreamUrlPath : jsstr;
  requestSizeBytes : parsed;
  responseSizeBytes : Z;
  wallClockMs : Z;
  tsMs : Z;
  nonceHex : jsstr;
}.

(** The labels of [vault_proxy_call]. *)
Record metric := mkMetric { m_service : jsstr; m_peer_fp : jsstr; m_status : Z; m_injection_kind : jsstr }.

Inductive VaultDenialEvent :=
  | rate_limited_burst | lease_failed | service_undeclared | manifest_deny | store_unavailable.

Record denial := mkDenial {
  d_event : VaultDenialEvent;
  d_callerSub : option jsstr;
  d_service : option jsstr;
  d_reason : option jsstr;
  d_retryAfterSec : option Z;
}.

(** [buildDenialAuditEntry], without its time stamp; the route names no [subjectFp]. *)
Definition buildDenialAuditEntry (d : denial) : denial :=
  mkDenial (d_event d)
    ((fun s => if (16 <? length s)%nat then take 16 s ++ [8230] else s) <$> d_callerSub d)
    (d_service d) (d_reason d) (d_retryAfterSec d).

Record bucket := mkBucket { count : Z; windowStart : Z }.

Section route.
Context `{Sha256} `{Ed25519} `{Lease.CertPath} `{CaBundle.CborX} `{Vault.Url} `{VaultStore.Envelope}.

(** [vaults] are the vault objects by bundle name. *)
Record world (S : Type) := mkWorld {
  w_gate : Lease.world;
  w_burst : RateBucket.buckets;
  RATE_BUCKETS : gmap (list Z) bucket;
  w_creds : S;
  vaults : gmap (list Z) VaultStore.T;
  w_sent : list Vault.ProxyRequest;
  w_receipts : list ProxyCallReceipt;
  w_metrics : list metric;
  w_denials : list denial;
}.
Arguments mkWorld {S}.
Arguments w_gate {S}.
Arguments w_burst {S}.
Arguments RATE_BUCKETS {S}.
Arguments w_creds {S}.
Arguments vaults {S}.
Arguments w_sent {S}.
Arguments w_receipts {S}.
Arguments w_metrics {S}.
Arguments w_denials {S}.

Inductive exn :=
  | TypeErrorThrew
  | SyntaxErrorThrew
  | URIErrorThrew
  | BadCharacter
  | PassthroughReached
  | NetworkFailed
  | StoreThrew
  | GateThrew (e : Lease.exn)
  | OutsideModel.

(** ** Rate windows *)

Definition RATE_WINDOW_MS : Z := 60 * 1000.
Definition rate_key (peerFp service : jsstr) : jsstr := peerFp ++ js "::" ++ service.

Definition open_bucket (b : option bucket) (now : Z) : bucket :=
  match b with
  | Some b => if RATE_WINDOW_MS <=? now - windowStart b then mkBucket 0 now else b
  | None => mkBucket 0 now
  end.

Definition consumeRateBudget (peerFp : jsstr) (cfg : VaultProxyService) (now : Z) (m : gmap (list Z) bucket)
    : gmap (list Z) bucket * bool :=
  if rateLimitPerMinute cfg <=? 0 then (m, true)
  else
    let key := rate_key peerFp (name cfg) in
    let bucket := open_bucket (m !! key) now in
    if rateLimitPerMinute cfg <=? count bucket then (<[key := bucket]> m, false)
    else (<[key := mkBucket (count bucket + 1) (windowStart bucket)]> m, true).

(** ** Injection *)

(** [encodeURIComponent]; [None] is a [URIError]. *)
Definition uri_unreserved (c : Z) : bool := Vault.is_alnum c || bool_decide (c ∈ js "-_.!~*'()").
Definition hex_upper (n : Z) : Z := if n <? 10 then 48 + n else 55 + n.
Definition percent (b : byte) : jsstr := [37; hex_upper (b2z b / 16); hex_upper (b2z b mod 16)].
Definition encodeURIComponent (s : jsstr) : option jsstr :=
  if well_formed s
  then Some (concat (map (fun c => if uri_unreserved c then [c] else concat (map percent (utf8_of c))) (scalars s)))
  else None.

Definition appendQueryParam (urlStr n v : jsstr) : option jsstr :=
  let sep := if includes 63 urlStr then [38] else [63] in
  n ← encodeURIComponent n;
  v ← encodeURIComponent v;
  Some (urlStr ++ sep ++ n ++ [61] ++ v).

(** [btoa]; [None] is the exception for a character above a byte. *)
Definition btoa (s : jsstr) : option jsstr :=
  if forallb (fun c => c <=? 255) s then Some (Base64.btoa (map z2b s)) else None.

(** A copy of the own properties, or a new object. *)
Definition as_object (v : option Json) : list (jsstr * Json) :=
  match v with Some (JObj m) => m | _ => [] end.

Definition PROTO : jsstr := js "__proto__".

(** [None] where an assignment would reach [__proto__], which the model does not cover. *)
Fixpoint deep_set (m : list (jsstr * Json)) (segments : list jsstr) (v : jsstr) : option (list (jsstr * Json)) :=
  match segments with
  | [] => Some m
  | seg :: rest =>
      if bool_decide (seg = PROTO) then None
      else match rest with
           | [] => Some (obj_set seg (JStr v) m)
           | _ => child ← deep_set (as_object (assoc seg m)) rest v; Some (obj_set seg (JObj child) m)
           end
  end.

Definition DOT : Z := 46.
Definition deepSetPath (obj : Json) (path v : jsstr) : option Json :=
  m ← deep_set (as_object (Some obj)) (split_on DOT path) v; Some (JObj m).

Definition to_upper (s : jsstr) : jsstr := map (fun c => if (97 <=? c) && (c <=? 122) then c - 32 else c) s.
Definition methodCanHaveBody (method : jsstr) : bool :=
  let m := to_upper method in negb (bool_decide (m = js "GET")) && negb (bool_decide (m = js "HEAD")).

Fixpoint drop_slashes (s : jsstr) : jsstr :=
  match s with c :: s' => if c =? SLASH then drop_slashes s' else s | [] => [] end.
Definition upstream_url (cfg : VaultProxyService) (upstreamPath : jsstr) : jsstr :=
  reverse (drop_slashes (reverse (upstreamBaseUrl cfg))) ++ upstreamPath.

Definition without_interlace (h : Headers) : Headers :=
  filter (fun kv : jsstr * jsstr => starts_with (js "x-interlace-") (to_lower kv.1) = false) h.

(** The headers [passthroughToUpstream] deletes. *)
Definition internal_header (k : jsstr) : bool :=
  starts_with (js "x-interlace-") k || starts_with (js "x-signet-") k ||
  bool_decide (k = js "authorization") || bool_decide (k = js "host").

(** Content-length, as far as it is a size. *)
Definition size_header (o : option jsstr) : Z :=
  match o with Some cl => match parse_int cl with Int n => if 0 <=? n then n else 0 | _ => 0 end | None => 0 end.
(** [Number.parseInt(x ?? '0', 10) || 0] *)
Definition declared_size (r : Request) : parsed :=
  match parse_int (default (js "0") (header r "content-length")) with NaN => Int 0 | p => p end.

Definition kind_of (i : InjectionStrategy) : jsstr :=
  match i with
  | authorizationBearer => js "authorizationBearer"
  | authorizationBasic => js "authorizationBasic"
  | headerNamed _ => js "headerNamed"
  | queryParam _ => js "queryParam"
  | bodyField _ => js "bodyField"
  | passthrough => js "passthrough"
  end.

(** The text before the first question mark. *)
Definition before_query (s : jsstr) : jsstr := default [] (head (split_on 63 s)).

(** ** What the route depends on *)

Record Env := mkEnv {
  e_gate : CaBundle.Env;
  VAULT_STORE : bool;
  DEV_ALLOWED_SUBS : option jsstr;
  DEV_PASSTHROUGH_SERVICES : option jsstr;
}.

(** [credentials] is an explicit store; [upstream] answers [None] where the network fails. *)
Record VaultProxyRouteDeps (S : Type) := mkDeps {
  credentials : option (CredentialStore S);
  services : jsstr -> option VaultProxyService;
  upstream : Vault.ProxyRequest -> option Response;
  receipts : bool;
  metrics : bool;
  bundleIdName : option jsstr;
}.
Arguments mkDeps {S}.
Arguments credentials {S}.
Arguments services {S}.
Arguments upstream {S}.
Arguments receipts {S}.
Arguments metrics {S}.
Arguments bundleIdName {S}.

(** One request's surroundings: the clock at each reading, the answer of the bundle service, the
    fate of the gate's call to the trust store, and the random bytes of the receipt. *)
Record surroundings := mkSurroundings {
  t_burst : Z;
  t_gate : Z;
  clock : Z;
  t_rate : Z;
  t_start : Z;
  t_end : Z;
  notme : CaBundle.reply;
  on_verify : rpc;
  nonce : bytes;
}.

Definition DEFAULT_BUNDLE_ID_NAME : jsstr := js "router".
Definition bundle_name (o : option jsstr) : jsstr :=
  match o with Some ((_ :: _) as n) => n | _ => DEFAULT_BUNDLE_ID_NAME end.

(** ** Development overlays *)

Definition is_dev (env : Env) : bool := bool_decide (CaBundle.CLOISTER_MODE (e_gate env) = Some (js "dev")).
Definition comma_names (s : jsstr) : list jsstr :=
  filter (fun t => t <> []) (map trim (split_on 44 s)).

Definition json_strings (l : list Json) : option (list jsstr) :=
  mapM (fun v => match v with JStr t => Some t | _ => None end) l.

(** [None]: a JSON list with an element that is no text, or a number outside the model. *)
Definition dev_subs (raw : jsstr) : option (list jsstr) :=
  if starts_with [91] raw then
    match json_parse raw with
    | Ok (JArr l) => json_strings l
    | Ok _ | Throw Unrepresentable => None
    | Throw _ => Some (comma_names raw)
    end
  else Some (comma_names raw).

Definition with_subs (cfg : VaultProxyService) (subs : list jsstr) : VaultProxyService :=
  mkService (name cfg) (upstreamBaseUrl cfg) (injection cfg) (defaultAllowedSubs cfg ++ subs) (rateLimitPerMinute cfg).
Definition with_injection (cfg : VaultProxyService) (i : InjectionStrategy) : VaultProxyService :=
  mkService (name cfg) (upstreamBaseUrl cfg) i (defaultAllowedSubs cfg) (rateLimitPerMinute cfg).

Definition applyDevAllowedSubs (cfg : option VaultProxyService) (env : Env) : option (option VaultProxyService) :=
  match cfg, DEV_ALLOWED_SUBS env with
  | Some c, Some ((_ :: _) as v) =>
      if negb (is_dev env) then Some cfg else subs ← dev_subs (trim v); Some (Some (with_subs c subs))
  | _, _ => Some cfg
  end.

Definition applyDevPassthrough (cfg : option VaultProxyService) (env : Env) : option VaultProxyService :=
  match cfg, DEV_PASSTHROUGH_SERVICES env with
  | Some c, Some ((_ :: _) as v) =>
      if is_dev env && bool_decide (name c ∈ comma_names v) then Some (with_injection c passthrough) else cfg
  | _, _ => cfg
  end.

Context {S : Type}.
Context (deps : VaultProxyRouteDeps S) (env : Env) (x : surroundings).
(** The vault object: its surroundings, its own upstream, and the fate of the call. *)
Context (vault_ctx : VaultStore.Ctx) (vault_upstream : VaultStore.Upstream) (on_vault : rpc).

Definition P (A : Type) : Type := M (world S) exn A.

Definition or_throw {A} (e : exn) (o : option A) : P A := match o with Some a => ret a | None => throw e end.

(** ** Effects *)

Definition log_denial (d : denial) : P unit := fun w =>
  (mkWorld (w_gate w) (w_burst w) (RATE_BUCKETS w) (w_creds w) (vaults w) (w_sent w) (w_receipts w) (w_metrics w)
     (w_denials w ++ [buildDenialAuditEntry d]), Ok tt).

Definition set_rate (m : gmap (list Z) bucket) (w : world S) : world S :=
  mkWorld (w_gate w) (w_burst w) m (w_creds w) (vaults w) (w_sent w) (w_receipts w) (w_metrics w) (w_denials w).
Definition set_burst (m : RateBucket.buckets) (w : world S) : world S :=
  mkWorld (w_gate w) m (RATE_BUCKETS w) (w_creds w) (vaults w) (w_sent w) (w_receipts w) (w_metrics w) (w_denials w).
Definition set_gate (g : Lease.world) (w : world S) : world S :=
  mkWorld g (w_burst w) (RATE_BUCKETS w) (w_creds w) (vaults w) (w_sent w) (w_receipts w) (w_metrics w) (w_denials w).
Definition set_creds (c : S) (w : world S) : world S :=
  mkWorld (w_gate w) (w_burst w) (RATE_BUCKETS w) c (vaults w) (w_sent w) (w_receipts w) (w_metrics w) (w_denials w).
Definition set_vaults (v : gmap (list Z) VaultStore.T) (w : world S) : world S :=
  mkWorld (w_gate w) (w_burst w) (RATE_BUCKETS w) (w_creds w) v (w_sent w) (w_receipts w) (w_metrics w) (w_denials w).

(** [new Request(url, init)], then [upstream.fetch]. *)
Definition fetch (req : Vault.ProxyRequest) : P Response := fun w =>
  match Vault.url_parse (Vault.p_url req) with
  | None => (w, Throw TypeErrorThrew)
  | Some _ =>
      (mkWorld (w_gate w) (w_burst w) (RATE_BUCKETS w) (w_creds w) (vaults w) (w_sent w ++ [req]) (w_receipts w)
         (w_metrics w) (w_denials w),
       match upstream deps req with Some r => Ok r | None => Throw NetworkFailed end)
  end.

Definition buildUpstreamRequest (url : jsstr) (r : Request) (h : Headers) (overrideBody : option bytes) : Vault.ProxyRequest :=
  Vault.mkProxy url (r_method r) h
    (match overrideBody with
     | Some b => Some b
     | None => if methodCanHaveBody (r_method r) then Some (Vault.i_body (incoming r)) else None
     end).

(** ** Telemetry *)

Definition receipt_fields : list jsstr :=
  map js ["capability"; "peerFp"; "service"; "upstreamStatus"; "upstreamUrlPath"; "requestSizeBytes";
          "responseSizeBytes"; "wallClockMs"; "tsMs"; "nonceHex"]%string.
Definition label_fields : list jsstr := map js ["service"; "peer_fp"; "status"; "injection_kind"]%string.

Definition refuseIfForbidden (fields : list jsstr) : bool :=
  match ReceiptEmit.findForbiddenReceiptField fields with None => false | Some _ => true end.

Definition receipt_of (peer : jsstr) (cfg : VaultProxyService) (path : jsstr) (st : Z) (req_size : parsed) (resp_size : Z)
    : ProxyCallReceipt :=
  mkReceipt peer (name cfg) st (before_query path) req_size resp_size (t_end x - t_start x) (t_start x) (toHex (nonce x)).

Definition emitProxyCallTelemetry (peer : jsstr) (cfg : VaultProxyService) (path : jsstr) (st : Z) (req_size : parsed)
    (resp_size : Z) (w : world S) : world S :=
  let refused := refuseIfForbidden receipt_fields in
  let rs := if receipts deps && negb refused then w_receipts w ++ [receipt_of peer cfg path st req_size resp_size]
            else w_receipts w in
  let ms := if metrics deps && negb (receipts deps && refused) && negb (refuseIfForbidden label_fields)
            then w_metrics w ++ [mkMetric (name cfg) peer st (kind_of (injection cfg))] else w_metrics w in
  mkWorld (w_gate w) (w_burst w) (RATE_BUCKETS w) (w_creds w) (vaults w) (w_sent w) rs ms (w_denials w).

(** Runs [m], then emits what its outcome says. *)
Definition forwardWithReceipt (peer : jsstr) (cfg : VaultProxyService) (path : jsstr) (req_size : parsed) (m : P Response)
    : P Response := fun w =>
  let '(w, r) := m w in
  let '(st, resp_size) := match r with
                          | Ok res => (status res, size_header (headers res !! js "content-length"))
                          | Throw _ => (0, 0)
                          end in
  (emitProxyCallTelemetry peer cfg path st req_size resp_size w, r).

(** ** Upstream calls *)

Definition applyHeaderInjection (h : Headers) (i : InjectionStrategy) (cred user : jsstr) : P Headers :=
  match i with
  | authorizationBasic =>
      let* token := or_throw BadCharacter (btoa (user ++ [58] ++ cred)) in
      or_throw TypeErrorThrew (Vault.headers_set (js "Authorization") (js "Basic " ++ token) h)
  | headerNamed n => or_throw TypeErrorThrew (Vault.headers_set n cred h)
  | _ => or_throw TypeErrorThrew (Vault.headers_set (js "Authorization") (js "Bearer " ++ cred) h)
  end.

Definition proxyToUpstream (r : Request) (path cred user : jsstr) (cfg : VaultProxyService) : P Response :=
  let baseUrl := upstream_url cfg path in
  let h := without_interlace (r_headers r) in
  match injection cfg with
  | passthrough => throw PassthroughReached
  | queryParam n =>
      let* url := or_throw URIErrorThrew (appendQueryParam baseUrl n cred) in
      fetch (buildUpstreamRequest url r h None)
  | bodyField p =>
      let original := utf8_decode_lossy (Vault.i_body (incoming r)) in
      let* parsed := (match original with
                      | [] => ret (JObj [])
                      | _ => match json_parse original with
                             | Ok v => ret v
                             | Throw Unrepresentable => throw OutsideModel
                             | Throw _ => throw SyntaxErrorThrew
                             end
                      end) in
      let* merged := or_throw OutsideModel (deepSetPath parsed p cred) in
      fetch (buildUpstreamRequest baseUrl r (<[js "content-type" := js "application/json"]> h)
               (Some (utf8_encode (json_stringify merged))))
  | i =>
      let* h := applyHeaderInjection h i cred user in
      fetch (buildUpstreamRequest baseUrl r h None)
  end.

Definition passthroughToUpstream (cfg : VaultProxyService) (path : jsstr) (r : Request) : P Response :=
  let h := filter (fun kv : jsstr * jsstr => internal_header (to_lower kv.1) = false) (r_headers r) in
  let h := match header r "x-harness-authorization" with
           | Some ((_ :: _) as harnessAuth) => delete (js "x-harness-authorization") (<[js "authorization" := harnessAuth]> h)
           | _ => h
           end in
  fetch (buildUpstreamRequest (upstream_url cfg path) r h None).

(** ** The handler *)

Definition rate_limited_body (service : jsstr) : jsstr :=
  json_stringify (JObj [(js "error", JStr (js "rate_limited")); (js "service", JStr service)]).

Definition vaultProxyHandler (r : Request) (path : jsstr) (lease : option Lease.VerifiedLease)
    (cfg : option VaultProxyService) (stored : option CredentialLookup) : P Response :=
  match lease, cfg with
  | None, _ => ret (rejection 401)
  | Some _, None => ret (rejection 404)
  | Some l, Some c =>
      let peer := Lease.v_peerFp l in
      if negb (Vault.checkAccess (defaultAllowedSubs c) peer) then ret (rejection 403)
      else match stored with
           | None => ret (rejection 404)
           | Some cred =>
               let* free := (fun w => let '(m, ok) := consumeRateBudget peer c (t_rate x) (RATE_BUCKETS w) in
                                      (set_rate m w, Ok ok)) in
               if negb free then ret (errorResponse 429 (rate_limited_body (name c)) [])
               else forwardWithReceipt peer c path (Int (size_header (header r "content-length")))
                      (proxyToUpstream r path (credential cred) (default (name c) (username cred)) c)
           end
  end.

(** ** The vault object's store *)

Definition of_reply (r : VaultStore.Reply) : Response :=
  match r with
  | VaultStore.ErrorReply st b retry =>
      errorResponse st (json_stringify (JObj [(js "error", JStr (Vault.error b)); (js "service", JStr (Vault.service b))]))
        (match retry with Some n => [(js "retry-after", js_dec n)] | None => [] end)
  | VaultStore.UpstreamReply (st, h, b) => mkResponse st h b
  end.

(** [VaultDoCredentialStore.forward]; an exception of the call is answered 502. *)
Definition vault_forward (peer service callerSub : jsstr) (r : Request) : P Response := fun w =>
  let id := bundle_name (bundleIdName deps) in
  let t := default VaultStore.empty (vaults w !! id) in
  let '(t', reply) := remote (VaultStore.UpstreamFailed) on_vault
                        (VaultStore.proxyRequest vault_ctx vault_upstream peer service callerSub (incoming r)) t in
  (set_vaults (<[id := t']> (vaults w)) w,
   Ok (match reply with Ok a => of_reply a | Throw _ => errorResponse 502 SHAPE_U_ERROR_BODY [] end)).

(** What [selectCredentialStore] picks. *)
Inductive selected := Explicit (c : CredentialStore S) | VaultDo.

Definition selectCredentialStore : option selected :=
  match credentials deps with
  | Some c => Some (Explicit c)
  | None => if VAULT_STORE env then Some VaultDo else None
  end.

(** The store's [forward], where it has one. *)
Definition store_forward (s : selected) : option (jsstr -> jsstr -> jsstr -> Request -> P Response) :=
  match s with
  | VaultDo => Some vault_forward
  | Explicit c =>
      (fun f p sv sub r w => let '(st, o) := f p sv sub r (w_creds w) in
                             (set_creds st w, match o with Some a => Ok a | None => Throw StoreThrew end)) <$> forward c
  end.

Definition store_resolve (s : selected) (p sv : jsstr) : P (option CredentialLookup) :=
  match s with
  | VaultDo => ret None
  | Explicit c => fun w => let '(st, o) := resolve c p sv (w_creds w) in
                           (set_creds st w, match o with Some a => Ok a | None => Throw StoreThrew end)
  end.

(** ** The route *)

Definition matches (r : Request) : bool := starts_with PATH_PREFIX (pathname r).

Definition lease_request (r : Request) : Lease.Request :=
  Lease.mkRequest (r_method r) (Vault.i_url (incoming r)) (fun n => r_headers r !! n).

Definition verify_args (r : Request) (parsed : option (jsstr * jsstr)) : Lease.verify_args :=
  let body := if bool_decide (r_method r = js "GET") || bool_decide (r_method r = js "HEAD") then []
              else utf8_decode_lossy (Vault.i_body (incoming r)) in
  let params := match parsed with
                | Some (sv, p) => JObj [(js "service", JStr sv); (js "upstreamPath", JStr p)]
                | None => JObj []
                end in
  Lease.mkArgs (lease_request r) body (Some (JStr (js "vaultProxy"))) (Some params) None.

(** A lease, or the status to refuse with. *)
Definition defaultLeaseVerifier (r : Request) (parsed : option (jsstr * jsstr)) : P (Lease.VerifiedLease + Z) := fun w =>
  let '(g, v) := Lease.gateAndVerify (on_verify x) (e_gate env) (t_gate x) (clock x) (notme x) (verify_args r parsed) true (w_gate w) in
  (set_gate g w,
   match v with
   | Ok (Lease.G_pass lease) => Ok (inl lease)
   | Ok (Lease.G_reject code _) => Ok (inr (if code =? Lease.ERR_CA_UNAVAILABLE then 503 else 401))
   | Ok Lease.G_off => Ok (inr 401)
   | Throw e => Throw (GateThrew e)
   end).

Definition burst (r : Request) : P (option Z) := fun w =>
  let '(m, refused) := RateBucket.preAuthBurstLimit (header r "cf-connecting-ip") (t_burst x) (w_burst w) in
  (set_burst m w, Ok refused).

Definition deny (d : denial) (res : Response) : P Response := do* log_denial d in ret res.

(** The service's configuration, with the development overlays. *)
Definition service_config (parsed : option (jsstr * jsstr)) : option (option VaultProxyService) :=
  match applyDevAllowedSubs (sv ← parsed; services deps sv.1) env with
  | Some cfg => Some (applyDevPassthrough cfg env)
  | None => None
  end.

(** [serviceConfig.injection.kind === 'passthrough'] *)
Definition passthrough_config (cfg : option VaultProxyService) : option VaultProxyService :=
  match cfg with
  | Some c => match injection c with passthrough => Some c | _ => None end
  | None => None
  end.

(** A call through the telemetry wrapper, its answer in the wire's shape. *)
Definition relayed (peer : jsstr) (cfg : VaultProxyService) (path : jsstr) (r : Request) (m : P Response) : P Response :=
  let* res := forwardWithReceipt peer cfg path (declared_size r) m in ret (collapseWireShape res).

(** Through the selected store: its own [forward], or a lookup and the handler. *)
Definition through_store (r : Request) (parsed : option (jsstr * jsstr)) (sv path : jsstr) (lease : Lease.VerifiedLease)
    (cfg : option VaultProxyService) : P Response :=
  let peer := Lease.v_peerFp lease in
  match selectCredentialStore with
  | None => deny (mkDenial store_unavailable (Some peer) (Some sv) None None) (errorResponse 503 SHAPE_U_ERROR_BODY [])
  | Some st =>
      match store_forward st, parsed, cfg with
      | Some f, Some _, Some c => relayed peer c path r (f peer sv peer r)
      | _, _, _ =>
          let* lookup := (match sv with [] => ret None | _ => store_resolve st peer sv end) in
          vaultProxyHandler r path (Some lease) cfg lookup
      end
  end.

(** The gates of the service, then the call. *)
Definition serve (r : Request) (parsed : option (jsstr * jsstr)) (lease : Lease.VerifiedLease) (cfg : option VaultProxyService)
    : P Response :=
  let peer := Lease.v_peerFp lease in
  let sv := default [] (fst <$> parsed) in
  let path := default [SLASH] (snd <$> parsed) in
  match parsed, cfg with
  | Some _, None => deny (mkDenial service_undeclared (Some peer) (Some sv) None None) (rejection 404)
  | _, _ =>
      if match parsed, cfg with
         | Some _, Some c => negb (Vault.checkAccess (defaultAllowedSubs c) peer)
         | _, _ => false
         end
      then deny (mkDenial manifest_deny (Some peer) (Some sv) None None) (rejection 404)
      else
        match passthrough_config cfg with
        | Some c => relayed peer c path r (passthroughToUpstream c path r)
        | None => through_store r parsed sv path lease cfg
        end
  end.

(** After the lease. *)
Definition admitted (r : Request) (parsed : option (jsstr * jsstr)) (lease : Lease.VerifiedLease) : P Response :=
  let* cfg := or_throw OutsideModel (service_config parsed) in serve r parsed lease cfg.

Definition handle (r : Request) : P Response :=
  let parsed := parseVaultProxyPath (pathname r) in
  let* refused := burst r in
  match refused with
  | Some retry =>
      deny (mkDenial rate_limited_burst None (fst <$> parsed) (Some (js "pre-auth IP burst limit (lease-verify protection)"))
              (Some retry))
        (errorResponse 429 CONSTANT_TIME_ERROR_BODY [(js "retry-after", js_dec retry)])
  | None =>
      let* verdict := defaultLeaseVerifier r parsed in
      match verdict with
      | inr st =>
          deny (mkDenial (if st =? 503 then store_unavailable else lease_failed) None (fst <$> parsed)
                  (Some (js "lease verifier status " ++ js_dec st)) None)
            (errorResponse st CONSTANT_TIME_ERROR_BODY [])
      | inl lease => admitted r parsed lease
      end
  end.

(** ** What a call changes *)

(** Nothing but the burst buckets, the gate and the log has changed. *)
Definition quiet (w w' : world S) : Prop :=
  RATE_BUCKETS w' = RATE_BUCKETS w /\ w_creds w' = w_creds w /\ vaults w' = vaults w /\
  w_sent w' = w_sent w /\ w_receipts w' = w_receipts w /\ w_metrics w' = w_metrics w.

Lemma quiet_refl w : quiet w w.
Proof. done. Qed.
Lemma quiet_trans w1 w2 w3 : quiet w1 w2 -> quiet w2 w3 -> quiet w1 w3.
Proof. unfold quiet. intros (? & ? & ? & ? & ? & ?) (? & ? & ? & ? & ? & ?). repeat split; congruence. Qed.

Lemma deny_run d res w w' r : deny d res w = (w', r) -> quiet w w' /\ r = Ok res.
Proof. by intros [= <- <-]. Qed.

Lemma burst_run r w : exists w' refused, burst r w = (w', Ok refused) /\ quiet w w' /\ w_gate w' = w_gate w /\
  refused = (RateBucket.preAuthBurstLimit (header r "cf-connecting-ip") (t_burst x) (w_burst w)).2.
Proof.
  unfold burst. destruct (RateBucket.preAuthBurstLimit _ _ _) as [m o]. by eexists _, _.
Qed.

(** The lease a request carries, against the bundle the gate resolves. *)
Definition holds_lease (r : Request) (parsed : option (jsstr * jsstr)) (lease : Lease.VerifiedLease) (w : world S) : Prop :=
  CaBundle.leaseEnforced (e_gate env) = true /\
  exists bundle store,
    (CaBundle.resolveCABundle (e_gate env) (t_gate x) (clock x) (notme x) (Lease.w_cache (w_gate w))).2 = Ok bundle /\
    Lease.verifyAndUpsertLease (on_verify x) (verify_args r parsed) bundle (t_gate x) (Lease.w_store (w_gate w)) = (store, Ok (inr lease)).

Lemma verifier_run r p w w' v : defaultLeaseVerifier r p w = (w', v) ->
  quiet w w' /\
  match v with
  | Ok (inl lease) => holds_lease r p lease w
  | Ok (inr st) => st = 401 \/ st = 503
  | Throw e => exists e', e = GateThrew e'
  end.
Proof.
  unfold defaultLeaseVerifier. destruct (Lease.gateAndVerify _ _ _ _ _ _ _ _) as [g r'] eqn:Eg.
  intros [= <- <-]. split; [done|]. destruct r' as [[|lease|code m]|e]; [by left| |destruct (code =? _); auto|by eexists].
  destruct (Lease.gate_verdicts _ _ _ _ _ _ _ _ _ _ Eg) as (_ & Hp & _). destruct (Hp lease eq_refl) as (Hf & b & Hb & Hv).
  split; [done|]. by exists b, (Lease.w_store g).
Qed.

Lemma fields_are_clean : refuseIfForbidden receipt_fields = false /\ refuseIfForbidden label_fields = false.
Proof. split; vm_compute; reflexivity. Qed.

(** What one call leaves. *)
Definition new_receipts (peer : jsstr) (cfg : VaultProxyService) (path : jsstr) (n : parsed) (res : result exn Response)
    : list ProxyCallReceipt :=
  if receipts deps then
    [match res with
     | Ok a => receipt_of peer cfg path (status a) n (size_header (headers a !! js "content-length"))
     | Throw _ => receipt_of peer cfg path 0 n 0
     end]
  else [].
Definition new_metrics (peer : jsstr) (cfg : VaultProxyService) (res : result exn Response) : list metric :=
  if metrics deps then
    [mkMetric (name cfg) peer match res with Ok a => status a | Throw _ => 0 end (kind_of (injection cfg))]
  else [].

Lemma forwardWithReceipt_run peer cfg path n (m : P Response) w :
  forwardWithReceipt peer cfg path n m w =
  (mkWorld (w_gate (m w).1) (w_burst (m w).1) (RATE_BUCKETS (m w).1) (w_creds (m w).1) (vaults (m w).1) (w_sent (m w).1)
     (w_receipts (m w).1 ++ new_receipts peer cfg path n (m w).2) (w_metrics (m w).1 ++ new_metrics peer cfg (m w).2)
     (w_denials (m w).1), (m w).2).
Proof.
  unfold forwardWithReceipt, emitProxyCallTelemetry, new_receipts, new_metrics.
  destruct fields_are_clean as [-> ->]. destruct (m w) as [w1 res]. cbn [fst snd negb]. rewrite !andb_true_r, andb_false_r.
  cbn [negb]. rewrite andb_true_r. destruct res; destruct (receipts deps), (metrics deps); by rewrite ?app_nil_r.
Qed.

(** Nothing was sent, handed to a vault, or recorded; at most the peer's own credential was looked up. *)
Definition looked_up (peer sv : jsstr) (w w' : world S) : Prop :=
  w_creds w' = w_creds w \/
  exists st, selectCredentialStore = Some (Explicit st) /\ w_creds w' = (resolve st peer sv (w_creds w)).1.
Definition idle (peer sv : jsstr) (w w' : world S) : Prop :=
  vaults w' = vaults w /\ w_sent w' = w_sent w /\ w_receipts w' = w_receipts w /\ w_metrics w' = w_metrics w /\ looked_up peer sv w w'.

(** The request a method sends, if any: it is the same in every world, and nothing else is changed. *)
Definition set_sent (l : list Vault.ProxyRequest) (w : world S) : world S :=
  mkWorld (w_gate w) (w_burst w) (RATE_BUCKETS w) (w_creds w) (vaults w) l (w_receipts w) (w_metrics w) (w_denials w).
Definition sends {A} (m : P A) (o : option Vault.ProxyRequest) : Prop := forall w, (m w).1 = set_sent (w_sent w ++ option_list o) w.

(** At most one request of [m] was sent, and the credentials are [creds]. *)
Definition sent_by (m : P Response) (creds : S) (w w' : world S) : Prop :=
  w_creds w' = creds /\ vaults w' = vaults w /\ exists o, sends m o /\ w_sent w' = w_sent w ++ option_list o.

(** One call at most, on the peer's behalf: the request as it came, the request with the credential that was
    stored for the peer and the service, or a call of the store or of the vault object that names them. *)
Inductive one_call (peer sv path : jsstr) (cfg : VaultProxyService) (r : Request) (w w' : world S) : Prop :=
  | as_it_came : injection cfg = passthrough -> sent_by (passthroughToUpstream cfg path r) (w_creds w) w w' ->
      one_call peer sv path cfg r w w'
  | with_credential st creds lk : selectCredentialStore = Some (Explicit st) ->
      resolve st peer sv (w_creds w) = (creds, Some (Some lk)) ->
      sent_by (proxyToUpstream r path (credential lk) (default (name cfg) (username lk)) cfg) creds w w' ->
      one_call peer sv path cfg r w w'
  | by_store st f : selectCredentialStore = Some (Explicit st) -> forward st = Some f ->
      w_creds w' = (f peer sv peer r (w_creds w)).1 -> vaults w' = vaults w -> w_sent w' = w_sent w ->
      one_call peer sv path cfg r w w'
  | by_vault : selectCredentialStore = Some VaultDo -> w_creds w' = w_creds w -> w_sent w' = w_sent w ->
      (let id := bundle_name (bundleIdName deps) in
       vaults w' = <[id := (remote (VaultStore.UpstreamFailed) on_vault
         (VaultStore.proxyRequest vault_ctx vault_upstream peer sv peer (incoming r)) (default VaultStore.empty (vaults w !! id))).1]> (vaults w)) ->
      one_call peer sv path cfg r w w'.

(** The books have one entry more, of a call whose outcome is [st]. *)
Definition recorded (peer : jsstr) (cfg : VaultProxyService) (path : jsstr) (st : Z) (w w' : world S) : Prop :=
  (if receipts deps
   then exists rc, w_receipts w' = w_receipts w ++ [rc] /\ peerFp rc = peer /\ service rc = name cfg /\
          upstreamUrlPath rc = before_query path /\ upstreamStatus rc = st
   else w_receipts w' = w_receipts w) /\
  (if metrics deps
   then w_metrics w' = w_metrics w ++ [mkMetric (name cfg) peer st (kind_of (injection cfg))]
   else w_metrics w' = w_metrics w).

Definition books (w w' : world S) : Prop := w_receipts w' = w_receipts w /\ w_metrics w' = w_metrics w.

#[local] Instance books_pre : PreOrder books.
Proof. split; [by split|]. intros ??? [] []. split; congruence. Qed.

Lemma fetch_books q : keeps books (fetch q).
Proof. intros w. unfold fetch. by destruct (Vault.url_parse _). Qed.
Lemma or_throw_books {A} e (o : option A) : keeps books (or_throw e o).
Proof. by destruct o. Qed.

Lemma passthrough_books cfg path r : keeps books (passthroughToUpstream cfg path r).
Proof. apply fetch_books. Qed.

Lemma injection_books h i c u : keeps books (applyHeaderInjection h i c u).
Proof.
  destruct i; try apply or_throw_books. apply (keeps_bind _); [apply or_throw_books|intros; apply or_throw_books].
Qed.

Lemma proxy_books r path c u cfg : keeps books (proxyToUpstream r path c u cfg).
Proof.
  unfold proxyToUpstream. destruct (injection cfg); cbv zeta;
    try (apply (keeps_bind _); [apply injection_books || apply or_throw_books|intros; apply fetch_books]); [|by intros w].
  apply (keeps_bind _).
  { intros w. destruct (utf8_decode_lossy _) as [|z l]; [done|]. by destruct (json_parse (z :: l)) as [|[]]. }
  intros v. apply (keeps_bind _); [apply or_throw_books|intros; apply fetch_books].
Qed.

Lemma store_forward_books st f p sv sub r : store_forward st = Some f -> keeps books (f p sv sub r).
Proof.
  destruct st as [c|]; cbn [store_forward].
  - destruct (forward c) as [g|]; [|done]. intros [= <-] w. by destruct (g p sv sub r (w_creds w)).
  - intros [= <-] w. unfold vault_forward. by destruct (remote _ _ _ _).
Qed.

Lemma with_receipt_recorded peer cfg path n (m : P Response) w :
  keeps books m ->
  recorded peer cfg path (match (m w).2 with Ok a => status a | Throw _ => 0 end) w (forwardWithReceipt peer cfg path n m w).1.
Proof.
  intros Hm. destruct (Hm w) as [Hr Hs]. rewrite forwardWithReceipt_run. unfold recorded, new_receipts, new_metrics.
  cbn [fst w_receipts w_metrics]. rewrite Hr, Hs.
  split; [|by destruct (metrics deps); rewrite ?app_nil_r].
  destruct (receipts deps); rewrite ?app_nil_r; [|done]. destruct (m w).2; by eexists.
Qed.

Lemma collapse_status res : status (collapseWireShape res) = status res.
Proof. unfold collapseWireShape. repeat case_match; done. Qed.

Definition outcome (res : result exn Response) : Z := match res with Ok a => status a | Throw _ => 0 end.

(** A call through the wrapper, its answer collapsed or not. *)
Lemma call_recorded peer cfg path n (m : P Response) (f : Response -> Response) w :
  keeps books m -> (forall a, status (f a) = status a) ->
  let run := (let* res := forwardWithReceipt peer cfg path n m in ret (f res)) w in
  recorded peer cfg path (outcome run.2) w run.1.
Proof.
  intros Hm Hf. cbv zeta. pose proof (with_receipt_recorded peer cfg path n m w Hm) as Hr.
  unfold bind. pose proof (forwardWithReceipt_run peer cfg path n m w) as E. rewrite E in *. cbn [fst snd] in *.
  destruct (m w).2; cbn [outcome ret fst snd]; [by rewrite Hf|done].
Qed.

(** *** What is sent *)

Definition add_sent (q : Vault.ProxyRequest) (w : world S) : world S :=
  mkWorld (w_gate w) (w_burst w) (RATE_BUCKETS w) (w_creds w) (vaults w) (w_sent w ++ [q]) (w_receipts w) (w_metrics w)
    (w_denials w).

(** One request goes upstream and its answer comes back, or nothing is sent and something is thrown. *)
Definition one_request (m : P Response) : Prop :=
  (exists e, forall w, m w = (w, Throw e)) \/
  (exists q, forall w, m w = (add_sent q w, match upstream deps q with Some a => Ok a | None => Throw NetworkFailed end)).

Lemma fetch_one_request q : one_request (fetch q).
Proof. unfold fetch. destruct (Vault.url_parse _); [right; exists q|left; eexists]; by intros w. Qed.

(** A step that reads nothing and changes nothing. *)
Definition constant {A} (m : P A) : Prop := (exists a, m = ret a) \/ (exists e, m = throw e).

Lemma or_throw_constant {A} e (o : option A) : constant (or_throw e o).
Proof. destruct o; [left|right]; by eexists. Qed.

Lemma constant_one_request {A} (m : P A) k : constant m -> (forall a, one_request (k a)) -> one_request (bind m k).
Proof. intros [[a ->]|[e ->]] Hk; [exact (Hk a)|left; by exists e]. Qed.

Lemma injection_one_request h i c u k : (forall h', one_request (k h')) -> one_request (bind (applyHeaderInjection h i c u) k).
Proof.
  intros Hk. destruct i; try (apply constant_one_request; [apply or_throw_constant|done]).
  cbn [applyHeaderInjection]. destruct (btoa _) as [t|].
  - change (one_request (bind (or_throw TypeErrorThrew (Vault.headers_set (js "Authorization") (js "Basic " ++ t) h)) k)).
    apply constant_one_request; [apply or_throw_constant|done].
  - left. by eexists.
Qed.

Lemma proxy_one_request r path c u cfg : one_request (proxyToUpstream r path c u cfg).
Proof.
  assert (Hf : forall A (m : P A) k, constant m -> (forall a, exists q, k a = fetch q) -> one_request (bind m k)).
  { intros A m k Hm Hk. apply constant_one_request; [done|]. intros a. destruct (Hk a) as [q ->]. apply fetch_one_request. }
  unfold proxyToUpstream. destruct (injection cfg); cbv zeta.
  1-3: apply injection_one_request; intros; apply fetch_one_request.
  - apply Hf; [apply or_throw_constant|by eexists].
  - apply constant_one_request.
    + destruct (utf8_decode_lossy _) as [|z l]; [left; by eexists|].
      destruct (json_parse (z :: l)) as [|[]]; (left; by eexists) || (right; by eexists).
    + intros v. apply Hf; [apply or_throw_constant|by eexists].
  - left. by eexists.
Qed.

Lemma one_request_sends m : one_request m -> exists o, sends m o.
Proof.
  intros [[e He]|[q Hq]]; [exists None|exists (Some q)]; intros w; rewrite ?He, ?Hq; [|done].
  unfold set_sent. cbn [option_list fst]. rewrite app_nil_r. by destruct w.
Qed.

Lemma passthrough_sends cfg path r : exists o, sends (passthroughToUpstream cfg path r) o.
Proof. apply one_request_sends, fetch_one_request. Qed.

Lemma proxy_sends r path c u cfg : exists o, sends (proxyToUpstream r path c u cfg) o.
Proof. apply one_request_sends, proxy_one_request. Qed.

(** A call through the wrapper leaves what its method leaves, and the books. *)
Lemma receipt_sent peer cfg path n (m : P Response) (f : Response -> Response) w :
  (exists o, sends m o) -> sent_by m (w_creds w) w ((let* res := forwardWithReceipt peer cfg path n m in ret (f res)) w).1.
Proof.
  intros [o Ho]. unfold bind. pose proof (forwardWithReceipt_run peer cfg path n m w) as E. rewrite E. rewrite Ho.
  destruct (m w).2; cbn [fst ret]; (split; [done|split; [done|by exists o]]).
Qed.

Lemma handler_run r path lease cfg stored w :
  let run := vaultProxyHandler r path (Some lease) (Some cfg) stored w in
  Vault.checkAccess (defaultAllowedSubs cfg) (Lease.v_peerFp lease) = true ->
  (w_creds run.1 = w_creds w /\ vaults run.1 = vaults w /\ w_sent run.1 = w_sent w /\ w_receipts run.1 = w_receipts w /\
     w_metrics run.1 = w_metrics w) \/
  recorded (Lease.v_peerFp lease) cfg path (outcome run.2) w run.1 /\
  exists lk, stored = Some lk /\
    sent_by (proxyToUpstream r path (credential lk) (default (name cfg) (username lk)) cfg) (w_creds w) w run.1.
Proof.
  cbv zeta. intros Hc. unfold vaultProxyHandler. rewrite Hc. cbn [negb]. destruct stored as [c|]; [|by left].
  unfold bind. destruct (consumeRateBudget _ _ _ _) as [m ok]. destruct ok; cbn [negb]; [right|by left].
  set (w1 := set_rate m w). set (call := proxyToUpstream _ _ _ _ _). set (n := Int _).
  pose proof (with_receipt_recorded (Lease.v_peerFp lease) cfg path n call w1 (proxy_books _ _ _ _ _)) as Hr.
  destruct (proxy_sends r path (credential c) (default (name cfg) (username c)) cfg) as [o Ho]. fold call in Ho.
  rewrite forwardWithReceipt_run in *. split; [exact Hr|]. exists c. split; [done|]. rewrite Ho. cbn [fst]. split; [done|].
  split; [done|]. by exists o.
Qed.

Lemma relayed_run peer cfg path r (m : P Response) w : keeps books m ->
  recorded peer cfg path (outcome (relayed peer cfg path r m w).2) w (relayed peer cfg path r m w).1.
Proof. intros Hm. by apply call_recorded, collapse_status. Qed.

Lemma quiet_one_call peer sv path cfg r w w1 w' : quiet w w1 -> one_call peer sv path cfg r w1 w' -> one_call peer sv path cfg r w w'.
Proof.
  intros (_ & Hc & Hv & Hs & _) Hone. assert (Hb : forall m c, sent_by m c w1 w' -> sent_by m c w w').
  { unfold sent_by. by rewrite Hv, Hs. }
  destruct Hone as [Hi Hm|st creds lk He Hr Hm|st f He Hf Ha He2 He3|He Ha He2 He3].
  - apply as_it_came; [done|]. rewrite <- Hc. by apply Hb.
  - eapply with_credential; [done|rewrite <- Hc; exact Hr|by apply Hb].
  - eapply by_store; [done|done|rewrite <- Hc; exact Ha|congruence..].
  - apply by_vault; [done|congruence..|]. by rewrite <- Hv.
Qed.

Lemma quiet_idle peer sv w w1 w' : quiet w w1 -> idle peer sv w1 w' -> idle peer sv w w'.
Proof.
  intros (_ & Hc & ? & ? & ? & ?) (? & ? & ? & ? & Hl). do 4 (split; [congruence|]). unfold looked_up in *. by rewrite Hc in Hl.
Qed.

Lemma quiet_recorded peer cfg path st w w1 w' : quiet w w1 -> recorded peer cfg path st w1 w' -> recorded peer cfg path st w w'.
Proof. intros (_ & _ & _ & _ & Hr & Hm) [Ha Hb]. rewrite Hr in Ha. rewrite Hm in Hb. by split. Qed.

(** What the route does for an admitted peer: nothing, or one call that is recorded. *)
Definition served (peer sv path : jsstr) (cfg : VaultProxyService) (r : Request) (res : result exn Response) (w w' : world S) : Prop :=
  idle peer sv w w' \/ one_call peer sv path cfg r w w' /\ recorded peer cfg path (outcome res) w w'.

Lemma one_call_same peer sv path cfg r w w1 w' :
  (w_creds w' = w_creds w1 /\ vaults w' = vaults w1 /\ w_sent w' = w_sent w1) ->
  one_call peer sv path cfg r w w1 -> one_call peer sv path cfg r w w'.
Proof.
  intros (Hc & Hv & Hs) Hone. assert (Hb : forall m c, sent_by m c w w1 -> sent_by m c w w').
  { unfold sent_by. by rewrite Hc, Hv, Hs. }
  destruct Hone as [Hi Hm|st creds lk He Hr Hm|st f He Hf Ha Hb' Hd|He Ha Hb' Hd].
  - by apply as_it_came, Hb.
  - by eapply with_credential, Hb.
  - eapply by_store; [done|done|congruence..].
  - apply by_vault; [done|congruence|congruence|by rewrite Hv].
Qed.

Lemma forward_call st f peer sv path cfg r w :
  selectCredentialStore = Some st -> store_forward st = Some f ->
  one_call peer sv path cfg r w (relayed peer cfg path r (f peer sv peer r) w).1.
Proof.
  intros Hs Hf. unfold relayed, bind. rewrite forwardWithReceipt_run.
  assert (Hone : one_call peer sv path cfg r w (f peer sv peer r w).1).
  { destruct st as [c|]; cbn [store_forward] in Hf.
    - destruct (forward c) as [g|] eqn:Eg; [|done]. injection Hf as <-. eapply by_store; [done|done|..];
        by destruct (g peer sv peer r (w_creds w)).
    - injection Hf as <-. apply by_vault; [done|..]; unfold vault_forward; by destruct (remote _ _ _ _). }
  eapply one_call_same; [|exact Hone]. by destruct (f peer sv peer r w).2.
Qed.

Lemma through_store_run r sv path path' lease cfg w :
  Vault.checkAccess (defaultAllowedSubs cfg) (Lease.v_peerFp lease) = true ->
  let run := through_store r (Some (sv, path')) sv path lease (Some cfg) w in
  served (Lease.v_peerFp lease) sv path cfg r run.2 w run.1.
Proof.
  intros Ha. cbv zeta. unfold through_store. destruct selectCredentialStore as [st|] eqn:Est; [|left; do 4 (split; [done|]); by left].
  destruct (store_forward st) as [f|] eqn:Ef.
  { right. split; [by apply forward_call with st|]. apply relayed_run. by eapply store_forward_books. }
  destruct st as [c|]; [|done]. unfold bind. destruct sv as [|z sv].
  { cbn [ret]. destruct (handler_run r path lease cfg None w Ha) as [(He1 & He2 & He3 & He4 & He5)|(_ & lk & [=] & _)].
    left. do 4 (split; [done|]). by left. }
  cbn [store_resolve]. destruct (resolve c (Lease.v_peerFp lease) (z :: sv) (w_creds w)) as [creds o] eqn:Er.
  assert (Hl : forall w', w_creds w' = creds -> looked_up (Lease.v_peerFp lease) (z :: sv) w w').
  { intros w' Hw. right. exists c. split; [done|]. by rewrite Er. }
  destruct o as [l|]; [|left; do 4 (split; [done|]); by apply Hl].
  destruct (handler_run r path lease cfg l (set_creds creds w) Ha) as [(He1 & He2 & He3 & He4 & He5)|(Hr & lk & -> & Hm)].
  - left. do 4 (split; [done|]). by apply Hl.
  - right. split; [|exact Hr]. by eapply with_credential.
Qed.

Lemma no_path_no_service cfg : service_config None = Some cfg -> cfg = None.
Proof. unfold service_config, applyDevAllowedSubs. cbn. by intros [= <-]. Qed.

(** After the lease: what the route does, it does for a declared service that admits the peer. *)
Lemma admitted_run r parsed lease w :
  let run := admitted r parsed lease w in
  quiet w run.1 \/
  exists sv path cfg, parsed = Some (sv, path) /\ service_config parsed = Some (Some cfg) /\
    Vault.checkAccess (defaultAllowedSubs cfg) (Lease.v_peerFp lease) = true /\
    served (Lease.v_peerFp lease) sv path cfg r run.2 w run.1.
Proof.
  cbv zeta. unfold admitted. destruct (service_config parsed) as [cfg|] eqn:Es; [|by left].
  change ((let* cfg := or_throw OutsideModel (Some cfg) in serve r parsed lease cfg) w) with (serve r parsed lease cfg w).
  unfold serve. destruct parsed as [[sv path]|].
  - destruct cfg as [cfg|]; [|by left]. change (default [] (fst <$> Some (sv, path))) with sv.
    change (default [SLASH] (snd <$> Some (sv, path))) with path.
    destruct (Vault.checkAccess (defaultAllowedSubs cfg) (Lease.v_peerFp lease)) eqn:Ha; cbn [negb]; [|by left].
    right. exists sv, path, cfg. repeat (split; [done|]). destruct (passthrough_config (Some cfg)) as [c|] eqn:Ep.
    + assert (c = cfg) as -> by (revert Ep; unfold passthrough_config; destruct (injection cfg); congruence).
      right. split; [|apply relayed_run, passthrough_books].
      apply as_it_came; [revert Ep; unfold passthrough_config; by destruct (injection cfg)|].
      apply receipt_sent, passthrough_sends.
    + by apply through_store_run.
  - left. apply no_path_no_service in Es as ->. unfold through_store. destruct selectCredentialStore as [st|]; [|done]. by destruct (store_forward st).
Qed.

(** C12: No call goes out unauthorised or unrecorded.  Whatever the store and the upstream do, a request
    either changes nothing beyond the burst buckets, the gate and the log, or it names a valid path,
    is within its burst, carries a lease the gate verified, and asks for a declared service whose
    manifest admits the lease's peer.  Then either nothing is sent, handed to a vault or recorded, and at
    most the credential of this peer and service is looked up; or at most one call is made, on that peer's
    behalf (one request goes upstream, as it came or with the credential stored for this peer and service,
    or the store or the vault object is called once, with this peer and service), and exactly one receipt
    and one metric, where the deployment keeps them, are kept of it, with its outcome and its path cut at
    the query. *)
Theorem calls_are_authorized r w w' res :
  handle r w = (w', res) ->
  quiet w w' \/
  exists sv path lease cfg,
    parseVaultProxyPath (pathname r) = Some (sv, path) /\
    (RateBucket.preAuthBurstLimit (header r "cf-connecting-ip") (t_burst x) (w_burst w)).2 = None /\
    holds_lease r (Some (sv, path)) lease w /\
    service_config (Some (sv, path)) = Some (Some cfg) /\
    Vault.checkAccess (defaultAllowedSubs cfg) (Lease.v_peerFp lease) = true /\
    (idle (Lease.v_peerFp lease) sv w w' \/
     one_call (Lease.v_peerFp lease) sv path cfg r w w' /\ recorded (Lease.v_peerFp lease) cfg path (outcome res) w w').
Proof.
  unfold handle, bind at 1. destruct (burst_run r w) as (w1 & o & -> & Hq1 & Hg & Ho).
  destruct o as [retry|].
  { intros [Hq2 _]%deny_run. left. by eapply quiet_trans. }
  unfold bind at 1. destruct (defaultLeaseVerifier r _ w1) as [w2 v] eqn:Ev. apply verifier_run in Ev as [Hq2 Hv].
  assert (Hq : quiet w w2) by by eapply quiet_trans. destruct v as [[lease|st]|e]; [| |intros [= <- <-]; by left].
  - intros E. destruct (admitted_run r (parseVaultProxyPath (pathname r)) lease w2) as [Hq3|(sv & path & cfg & Hp & Hs & Ha & Hr)];
      rewrite E in *; cbn [fst snd] in *; [left; by eapply quiet_trans|right].
    rewrite Hp in *. exists sv, path, lease, cfg. unfold holds_lease in Hv. rewrite Hg in Hv.
    split; [done|]. split; [done|]. split; [exact Hv|]. do 2 (split; [done|]).
    destruct Hr as [Hr|[Hc Hr]]; [left; by eapply quiet_idle|right]. split; [by eapply quiet_one_call|by eapply quiet_recorded].
  - intros [Hq3 _]%deny_run. left. by eapply quiet_trans.
Qed.

(** ** What a refusal shows *)

(** The body and the headers of a refusal, but for who answers and when to retry. *)
Definition one_shape (res : Response) : Prop :=
  body res = utf8_encode CONSTANT_TIME_ERROR_BODY /\
  forall n : jsstr, n <> js "server" -> n <> js "retry-after" -> headers res !! n = assoc n REQUIRED_ERROR_HEADERS.

Definition shaped (res : Response) : Prop := isAccessFailure (status res) = true -> one_shape res.

Lemma assoc_list_to_map (l : list (jsstr * jsstr)) (n : jsstr) : (list_to_map l : Headers) !! n = assoc n l.
Proof.
  induction l as [|[k v] l IH]; [apply lookup_empty|]. cbn [list_to_map foldr fst snd assoc]. case_decide as E.
  - subst. apply lookup_insert_eq.
  - by rewrite lookup_insert_ne by done.
Qed.

Lemma errorResponse_shape st (retry : option jsstr) :
  one_shape (errorResponse st CONSTANT_TIME_ERROR_BODY (match retry with Some v => [(js "retry-after", v)] | None => [] end)).
Proof.
  split; [reflexivity|]. intros n _ Hn. unfold errorResponse. cbn [headers]. rewrite assoc_list_to_map.
  destruct retry as [v|]; [|done]. cbn [app assoc]. by rewrite decide_False.
Qed.

Lemma stamp_shape res : one_shape res -> one_shape (stampReservedHeaders res).
Proof.
  intros [Hb Hh]. split; [done|]. intros n Hs Hn. unfold stampReservedHeaders. cbn [headers].
  rewrite lookup_insert_ne by congruence. by apply Hh.
Qed.

Lemma collapse_shaped res : shaped (collapseWireShape res).
Proof.
  unfold shaped. rewrite collapse_status. intros Ha. unfold collapseWireShape.
  destruct ((200 <=? status res) && (status res <? 400)) eqn:Er.
  { exfalso. apply bool_decide_eq_true in Ha. rewrite !elem_of_cons, elem_of_nil in Ha. lia. }
  rewrite Ha. cbn [negb andb]. apply stamp_shape.
  pose proof (errorResponse_shape (status res) (match headers res !! js "retry-after" with Some [] => None | o => o end)) as Hs.
  destruct (headers res !! js "retry-after") as [[|]|]; exact Hs.
Qed.

Definition answers (Q : Response -> Prop) (m : P Response) : Prop := forall w w' res, m w = (w', Ok res) -> Q res.

Lemma answers_bind {A} Q (m : P A) k : (forall a, answers Q (k a)) -> answers Q (bind m k).
Proof. intros Hk w w' res. unfold bind. destruct (m w) as [w1 [a|e]]; [apply Hk|done]. Qed.
Lemma answers_ret Q res : (Q res : Prop) -> answers Q (ret res).
Proof. by intros Hq w w' res' [= _ <-]. Qed.
Lemma answers_deny Q d res : (Q res : Prop) -> answers Q (deny d res).
Proof. intros Hq. by apply answers_bind; intros; apply answers_ret. Qed.

Lemma rejection_shaped st : shaped (rejection st).
Proof. intros _. apply (errorResponse_shape st None). Qed.

Lemma relayed_shaped peer cfg path r m : answers shaped (relayed peer cfg path r m).
Proof. apply answers_bind. intros res. apply answers_ret, collapse_shaped. Qed.

(** C14: Who is refused does not learn why.  In production, every refusal of the route (401, 403, 404
    and 429), whether its own or the vault's, has the same body, and the same headers but for
    [retry-after] and [server]. *)
Theorem refusals_share_a_body r w w' res :
  credentials deps = None -> VAULT_STORE env = true ->
  handle r w = (w', Ok res) -> isAccessFailure (status res) = true -> one_shape res.
Proof.
  intros Hc Hv E. revert w w' res E. change (answers shaped (handle r)). unfold handle. apply answers_bind. intros [retry|].
  { apply answers_deny. intros _. apply (errorResponse_shape 429 (Some _)). }
  apply answers_bind. intros [lease|st]; [|apply answers_deny; intros _; apply (errorResponse_shape st None)].
  unfold admitted. destruct (service_config _) as [cfg|] eqn:Es; [|by intros w w' res'].
  change (answers shaped (serve r (parseVaultProxyPath (pathname r)) lease cfg)).
  assert (Hs : forall parsed sv path, cfg = None \/ parsed <> None -> answers shaped (through_store r parsed sv path lease cfg)).
  { intros parsed sv path Hd. unfold through_store, selectCredentialStore. rewrite Hc, Hv. cbn [store_forward].
    destruct parsed as [p|], cfg as [c|]; [apply relayed_shaped| |by destruct Hd|];
      (apply answers_bind; intros l; apply answers_ret, rejection_shaped). }
  unfold serve. destruct (parseVaultProxyPath (pathname r)) as [[sv path]|].
  - destruct cfg as [c|]; [|apply answers_deny, rejection_shaped].
    destruct (negb _); [apply answers_deny, rejection_shaped|].
    destruct (passthrough_config _); [apply relayed_shaped|]. by apply Hs; right.
  - apply no_path_no_service in Es as ->. by apply Hs; left.
Qed.

(** ** The credential's reach *)

(** Everything but the requests sent. *)
Definition forget_sent (w : world S) : world S :=
  mkWorld (w_gate w) (w_burst w) (RATE_BUCKETS w) (w_creds w) (vaults w) [] (w_receipts w) (w_metrics w) (w_denials w).

(** Two calls that differ only in the request they send differ in nothing else. *)
Lemma handler_sends r path lease cfg l w w' res :
  vaultProxyHandler r path lease cfg (Some l) w = (w', res) -> w_sent w' <> w_sent w ->
  exists lv c q, lease = Some lv /\ cfg = Some c /\
    (w', res) = forwardWithReceipt (Lease.v_peerFp lv) c path (Int (size_header (header r "content-length")))
      (fun w => (add_sent q w, match upstream deps q with Some a => Ok a | None => Throw NetworkFailed end))
      (set_rate (consumeRateBudget (Lease.v_peerFp lv) c (t_rate x) (RATE_BUCKETS w)).1 w).
Proof.
  unfold vaultProxyHandler. destruct lease as [lv|]; [|by intros [= <- <-]]. destruct cfg as [c|]; [|by intros [= <- <-]].
  destruct (negb (Vault.checkAccess _ _)); [by intros [= <- <-]|]. unfold bind.
  destruct (consumeRateBudget _ _ _ _) as [m ok] eqn:Ec. destruct ok; cbn [negb]; [|by intros [= <- <-]].
  intros E Hs. exists lv, c. rewrite Ec. cbn [fst]. set (w1 := set_rate m w) in *.
  destruct (proxy_one_request r path (credential l) (default (name c) (username l)) c) as [[e Ee]|[q Eq]].
  - exfalso. apply Hs. rewrite forwardWithReceipt_run, Ee in E. injection E as <- _. reflexivity.
  - exists q. do 2 (split; [done|]). rewrite <- E, !forwardWithReceipt_run, Eq. reflexivity.
Qed.

(** C13: A credential shows in nothing but the request it is injected in.  For two credentials, when both
    calls reach the upstream and the upstream answers them alike, the caller gets the same answer,
    and the receipts, the metrics, the log and the rest of the state are the same. *)
Theorem credential_is_confined a r path lease cfg l1 l2 w w1 w2 res1 res2 :
  (forall q, upstream deps q = a) ->
  vaultProxyHandler r path lease cfg (Some l1) w = (w1, res1) ->
  vaultProxyHandler r path lease cfg (Some l2) w = (w2, res2) ->
  w_sent w1 <> w_sent w -> w_sent w2 <> w_sent w ->
  res1 = res2 /\ forget_sent w1 = forget_sent w2.
Proof.
  intros Hu E1 E2 Hs1 Hs2.
  destruct (handler_sends _ _ _ _ _ _ _ _ E1 Hs1) as (lv & c & q1 & -> & -> & R1).
  destruct (handler_sends _ _ _ _ _ _ _ _ E2 Hs2) as (lv' & c' & q2 & [= <-] & [= <-] & R2).
  rewrite forwardWithReceipt_run in R1, R2. cbn [fst snd] in R1, R2. rewrite Hu in R1, R2.
  injection R1 as -> ->. injection R2 as -> ->. by split.
Qed.

(** ** Rate windows *)

(** The times of the calls let through, of calls at [ts]. *)
Fixpoint let_through (peer : jsstr) (cfg : VaultProxyService) (m : gmap (list Z) bucket) (ts : list Z) : list Z :=
  match ts with
  | [] => []
  | t :: ts => let '(m, ok) := consumeRateBudget peer cfg t m in (if ok then [t] else []) ++ let_through peer cfg m ts
  end.

Definition within (t0 : Z) (ts : list Z) : nat := length (filter (fun t => t0 <= t < t0 + RATE_WINDOW_MS) ts).

(** What a bucket can still let through in the interval that starts at [t0]. *)
Definition credit (limit t0 : Z) (b : option bucket) : Z :=
  match b with
  | None => 2 * limit - 1
  | Some b =>
      if windowStart b + RATE_WINDOW_MS <=? t0 then 2 * limit - 1
      else if windowStart b <? t0 then 2 * limit - count b
      else if windowStart b <? t0 + RATE_WINDOW_MS then limit - count b
      else 0
  end.

Lemma let_through_credit peer cfg t0 ts : forall m,
  0 < rateLimitPerMinute cfg -> StronglySorted Z.le ts ->
  match m !! rate_key peer (name cfg) with
  | Some b => 1 <= count b <= rateLimitPerMinute cfg /\ Forall (fun t => windowStart b <= t) ts
  | None => True
  end ->
  Z.of_nat (within t0 (let_through peer cfg m ts)) <= credit (rateLimitPerMinute cfg) t0 (m !! rate_key peer (name cfg)).
Proof.
  induction ts as [|t ts IH]; intros m Hl Hs Hb; cbn [let_through].
  { cbn. destruct (m !! _) as [b|]; cbn [credit]; [|lia]. destruct Hb as [Hb _]. repeat case_match; lia. }
  inversion Hs as [|? ? Hs' Ht]; subst. unfold consumeRateBudget.
  rewrite (proj2 (Z.leb_gt (rateLimitPerMinute cfg) 0) Hl). set (k := rate_key peer (name cfg)) in *.
  assert (Hstep : forall b, 1 <= count b <= rateLimitPerMinute cfg -> windowStart b <= t ->
    Z.of_nat (within t0 (let_through peer cfg (<[k := b]> m) ts)) <= credit (rateLimitPerMinute cfg) t0 (Some b)).
  { intros b Hc Hw. specialize (IH (<[k := b]> m) Hl Hs'). rewrite lookup_insert_eq in IH. apply IH. split; [done|].
    eapply Forall_impl; [exact Ht|]. cbn. lia. }
  assert (Hone : forall l, Z.of_nat (within t0 ([t] ++ l)) =
    (if decide (t0 <= t < t0 + RATE_WINDOW_MS) then 1 else 0) + Z.of_nat (within t0 l)).
  { intros l. unfold within. rewrite filter_app, length_app. destruct (decide _) as [Hd|Hd].
    - rewrite filter_cons_True by done. change (filter _ []) with (@nil Z). simpl length. lia.
    - rewrite filter_cons_False by done. change (filter _ []) with (@nil Z). simpl length. lia. }
  destruct (m !! k) as [b|]; cbn [open_bucket].
  - destruct Hb as [Hb Hf]. inversion Hf as [|? ? Hw _]; subst. unfold open_bucket.
    destruct (Z.leb_spec RATE_WINDOW_MS (t - windowStart b)); cbn [count windowStart].
    + rewrite (proj2 (Z.leb_gt (rateLimitPerMinute cfg) 0) Hl). rewrite Hone.
      specialize (Hstep (mkBucket (0 + 1) t)). cbn [count windowStart credit] in *.
      specialize (Hstep ltac:(lia) ltac:(lia)). unfold RATE_WINDOW_MS in *. destruct (decide _); repeat case_match; lia.
    + destruct (Z.leb_spec (rateLimitPerMinute cfg) (count b)).
      * cbn [app]. apply Hstep; [done|done].
      * rewrite Hone. specialize (Hstep (mkBucket (count b + 1) (windowStart b))). cbn [count windowStart credit] in *.
        specialize (Hstep ltac:(lia) ltac:(lia)). unfold RATE_WINDOW_MS in *. destruct (decide _); repeat case_match; lia.
  - cbn [count windowStart]. rewrite (proj2 (Z.leb_gt (rateLimitPerMinute cfg) 0) Hl). rewrite Hone.
    specialize (Hstep (mkBucket (0 + 1) t)). cbn [count windowStart credit] in *.
    specialize (Hstep ltac:(lia) ltac:(lia)). unfold RATE_WINDOW_MS in *. destruct (decide _); repeat case_match; lia.
Qed.

(** C15: The windows bound what one peer sends to a service: with a limit of [n] a minute, and as long as
    the clock the budget reads does not go back, in every interval of a minute, wherever it starts, at most
    [2 n - 1] calls are let through.  (With a clock that is set back more are: [clock_set_back].) *)
Theorem minute_is_bounded peer cfg ts t0 :
  0 < rateLimitPerMinute cfg -> StronglySorted Z.le ts ->
  Z.of_nat (within t0 (let_through peer cfg ∅ ts)) <= 2 * rateLimitPerMinute cfg - 1.
Proof. intros Hl Hs. pose proof (let_through_credit peer cfg t0 ts ∅ Hl Hs) as H'. rewrite lookup_empty in H'. by apply H'. Qed.

(** ** The path in production *)

(** The vault builds its request from the credential's own address: of the caller's URL it takes the
    query parameters and nothing else. *)
Theorem production_ignores_the_path peer sv sub r r' w :
  is_Some (Vault.url_parse (Vault.i_url (incoming r))) -> is_Some (Vault.url_parse (Vault.i_url (incoming r'))) ->
  Vault.url_params (Vault.i_url (incoming r)) = Vault.url_params (Vault.i_url (incoming r')) ->
  r_method r = r_method r' -> Vault.i_headers (incoming r) = Vault.i_headers (incoming r') ->
  Vault.i_body (incoming r) = Vault.i_body (incoming r') ->
  vault_forward peer sv sub r w = vault_forward peer sv sub r' w.
Proof.
  intros [u Hu] [u' Hu'] Hp Hm Hh Hb.
  assert (E : forall t, VaultStore.proxyRequest vault_ctx vault_upstream peer sv sub (incoming r) t =
                        VaultStore.proxyRequest vault_ctx vault_upstream peer sv sub (incoming r') t).
  { assert (Ei : forall t, VaultStore.proxyRequestInner vault_ctx vault_upstream peer sv sub (incoming r) t =
                           VaultStore.proxyRequestInner vault_ctx vault_upstream peer sv sub (incoming r') t).
    { intros t. unfold VaultStore.proxyRequestInner.
      assert (Ebuild : forall cred, Vault.buildProxyRequest (incoming r) cred = Vault.buildProxyRequest (incoming r') cred).
      { intros cred. unfold Vault.buildProxyRequest, Vault.forwarded. rewrite Hu, Hu', Hp, Hh, Hb.
        unfold r_method in Hm. by rewrite Hm. }
      unfold bind, read. destruct (VaultStore.credentials t !! _) as [row|]; [|done].
      destruct (negb _); [done|]. destruct (VaultStore.getKEK vault_ctx t) as [t1 [k|]]; [|done].
      destruct (VaultStore.decrypt _ k); [|done]. by rewrite Ebuild. }
    intros t. unfold VaultStore.proxyRequest, bind. destruct (VaultStore.enterProxy vault_ctx peer sv sub t) as [t1 [[d|]|e]]; [done| |done].
    unfold VaultStore.finally. by rewrite Ei. }
  unfold vault_forward, remote. destruct on_vault; by rewrite ?E.
Qed.
End route.

Arguments mkDeps {S}.
Arguments w_sent {_ S}.
Arguments w_receipts {_ S}.
Arguments mkWorld {_ S}.

(** ** Paths and body fields *)

Lemma cut_slash_spec s a b : cut_slash s = (a, b) ->
  s = a ++ default [] b /\ SLASH ∉ a /\ match b with Some t => exists t', t = SLASH :: t' | None => True end.
Proof.
  revert a b. induction s as [|c s IH]; intros a b; cbn [cut_slash].
  { intros [= <- <-]. split; [done|]. split; [apply not_elem_of_nil|done]. }
  destruct (Z.eqb_spec c SLASH) as [->|Hc].
  - intros [= <- <-]. split; [done|]. split; [apply not_elem_of_nil|by eexists].
  - destruct (cut_slash s) as [a' b'] eqn:E. intros [= <- <-]. destruct (IH _ _ eq_refl) as (Hs & Ha & Hb).
    split; [cbn; by f_equal|]. split; [|done]. rewrite not_elem_of_cons. by split.
Qed.

Lemma cut_slash_app a b : SLASH ∉ a -> cut_slash (a ++ SLASH :: b) = (a, Some (SLASH :: b)).
Proof.
  induction a as [|c a IH]; intros Ha; cbn [cut_slash app]; [by rewrite Z.eqb_refl|].
  apply not_elem_of_cons in Ha as [Hc Ha]. rewrite (proj2 (Z.eqb_neq c SLASH)) by congruence. by rewrite IH.
Qed.
Lemma cut_slash_none a : SLASH ∉ a -> cut_slash a = (a, None).
Proof.
  induction a as [|c a IH]; intros Ha; cbn [cut_slash]; [done|].
  apply not_elem_of_cons in Ha as [Hc Ha]. rewrite (proj2 (Z.eqb_neq c SLASH)) by congruence. by rewrite IH.
Qed.

Lemma valid_name_no_slash n : isValidServiceName n = true -> SLASH ∉ n.
Proof.
  destruct n as [|c n]; [done|]. cbn [isValidServiceName]. intros [[Hc Hn]%andb_prop _]%andb_prop.
  rewrite forallb_forall in Hn. intros Hin. apply elem_of_cons in Hin as [<-|Hin]; [by vm_compute in Hc|].
  apply list_elem_of_In, Hn in Hin. by vm_compute in Hin.
Qed.

(** A path names a service in exactly one way: the prefix, a valid name, and what follows it, which
    is empty or starts with a slash. *)
Theorem path_parse_iff p sv path :
  parseVaultProxyPath p = Some (sv, path) <->
  p = PATH_PREFIX ++ sv ++ path /\ isValidServiceName sv = true /\ (path = [] \/ exists t, path = SLASH :: t).
Proof.
  unfold parseVaultProxyPath. split.
  - destruct (starts_with PATH_PREFIX p) eqn:Es; [|done]. apply starts_with_iff in Es as [t ->].
    rewrite drop_app_length. cbn [negb]. destruct (cut_slash t) as [a b] eqn:Ec.
    destruct (isValidServiceName a) eqn:Ev; [|done]. intros [= <- <-].
    apply cut_slash_spec in Ec as (-> & _ & Hb). split; [done|]. split; [done|]. destruct b; [right|left]; done.
  - intros (-> & Hv & Hp). assert (Es : starts_with PATH_PREFIX (PATH_PREFIX ++ sv ++ path) = true) by (apply starts_with_iff; by eexists).
    rewrite Es, drop_app_length. cbn [negb]. pose proof (valid_name_no_slash sv Hv) as Hs.
    destruct Hp as [->|[t ->]]; [rewrite app_nil_r, cut_slash_none by done|rewrite cut_slash_app by done]; by rewrite Hv.
Qed.

(** The value under a path of member names. *)
Fixpoint at_path (v : Json) (segs : list jsstr) : option Json :=
  match segs with
  | [] => Some v
  | s :: segs => c ← (match v with JObj m => assoc s m | _ => None end); at_path c segs
  end.

(** The two paths part somewhere. *)
Fixpoint diverge (p q : list jsstr) : Prop :=
  match p, q with a :: p, b :: q => a <> b \/ (a = b /\ diverge p q) | _, _ => False end.

Lemma at_path_as_object v s segs : at_path v (s :: segs) = at_path (JObj (as_object (Some v))) (s :: segs).
Proof. by destruct v. Qed.

Lemma deep_set_spec v segs : forall m m', deep_set m segs v = Some m' -> segs <> [] ->
  at_path (JObj m') segs = Some (JStr v) /\
  forall q, diverge segs q -> at_path (JObj m') q = at_path (JObj m) q.
Proof.
  induction segs as [|s segs IH]; intros m m' E Hne; [done|]. cbn [deep_set] in E. case_bool_decide; [done|].
  assert (Hoff : forall w t q, s <> t -> at_path (JObj (obj_set s w m)) (t :: q) = at_path (JObj m) (t :: q)).
  { intros w t q Ht. cbn [at_path]. rewrite assoc_obj_set, decide_False by congruence. done. }
  destruct segs as [|s2 segs].
  - injection E as <-. split; [cbn [at_path]; by rewrite assoc_obj_set, decide_True by done|].
    intros [|t q] Hd; [done|]. destruct Hd as [Ht|[_ Hd]]; [by apply Hoff|by destruct q].
  - destruct (deep_set (as_object (assoc s m)) (s2 :: segs) v) as [child|] eqn:Ec; [|done]. injection E as <-.
    destruct (IH _ _ Ec) as [Hv Hq]; [done|]. split.
    + cbn [at_path]. rewrite assoc_obj_set, decide_True by done. exact Hv.
    + intros [|t q] Hd; [done|]. destruct Hd as [Ht|[<- Hd]]; [by apply Hoff|].
      cbn [at_path]. rewrite assoc_obj_set, decide_True by done. cbn [mbind option_bind]. rewrite Hq by done.
      destruct q as [|t q]; [by destruct Hd|]. destruct (assoc s m) as [w|] eqn:Ea; cbn [as_object].
      * symmetry. exact (at_path_as_object w t q).
      * done.
Qed.

(** The credential lands where the configuration says, and nowhere else: after the injection the
    body holds it under the configured path, and every member the path does not run through is as
    the caller wrote it. *)
Theorem body_field_is_injected obj path v merged :
  deepSetPath obj path v = Some merged ->
  at_path merged (split_on DOT path) = Some (JStr v) /\
  forall q, diverge (split_on DOT path) q -> at_path merged q = at_path obj q.
Proof.
  unfold deepSetPath. destruct (deep_set _ _ v) as [m|] eqn:E; [|done]. intros [= <-].
  destruct (deep_set_spec _ _ _ _ E) as [Hv Hq]; [by destruct path as [|c p]; cbn; repeat case_match|].
  split; [done|]. intros [|t q] Hd; [by destruct (split_on DOT path)|]. by rewrite Hq, (at_path_as_object obj).
Qed.

(** ** Witnesses and concrete behaviour *)

Section demo.
#[local] Instance demo_hash : Sha256 := demo_sha256.
#[local] Instance demo_verifier : Ed25519 := demo_ed25519.
#[local] Existing Instance Vault.demo_url.
#[local] Existing Instance VaultStore.demo_envelope.
#[local] Instance demo_cbor : CaBundle.CborX := CaBundle.demo_cborx.

(** A certificate that grants everything to the peer [peer]. *)
Definition demo_claims : Json :=
  JObj [(js "epk", JStr (Base64.b64encode Lease.demo_key)); (js "nb", JNum 0); (js "na", JNum 100);
        (js "ep", JNum 3); (js "pf", JStr (js "peer")); (js "sc", JStr (js "*"))].
#[local] Instance demo_paths : Lease.CertPath := fun _ _ => Some (Some demo_claims).

Definition demo_env (vault : bool) : Env :=
  mkEnv (CaBundle.mkEnv (Some (js "dev")) (Some (Base64.btoa Lease.demo_key)) (Some (js "3")) None) vault None None.
Definition demo_x : surroundings :=
  mkSurroundings 6000 6000 6000 6000 6000 6007 CaBundle.NetworkThrew Delivered (replicate 16 (z2b 9)).

Definition demo_signed (path : string) : Request :=
  let url := js "https://c" ++ js path in
  let sig := Lease.demo_key ++ @sha256 demo_sha256
               (Lease.canonicalRequestBytes (js "GET") url 5000 Lease.demo_nonce []) in
  mkRequest (Vault.mkIncoming url (js "GET")
    [(js "authorization", js "Signet QQ"); (js "x-signet-nonce", Base64.b64encode Lease.demo_nonce);
     (js "x-signet-sig", Base64.b64encode sig); (js "x-signet-ts", js "5000")] []) (js path).

Definition demo_service : VaultProxyService :=
  mkService (js "api") (js "https://api.example.com/") (headerNamed (js "apikey")) [js "*"] 2.
Definition demo_services (n : jsstr) : option VaultProxyService :=
  if bool_decide (n = js "api") then Some demo_service else None.
Definition demo_answer : Response := mkResponse 200 {[ js "content-length" := js "5" ]} [].

(** An explicit store, or the vault object. *)
Definition demo_deps (explicit : bool) : VaultProxyRouteDeps (gmap (list Z) CredentialLookup) :=
  mkDeps (if explicit then Some InMemoryCredentialStore.store else None) demo_services (fun _ => Some demo_answer) true true None.

Definition demo_world (vault : VaultStore.T) : world (gmap (list Z) CredentialLookup) :=
  mkWorld (Lease.mkWorld None TrustStore.empty) [] ∅
    (InMemoryCredentialStore.set (js "peer") (js "api") (mkLookup (js "sk-1") None) ∅)
    {[ DEFAULT_BUNDLE_ID_NAME := vault ]} [] [] [] [].

Definition demo_handle (explicit : bool) (vault : VaultStore.T) (path : string) :=
  handle (demo_deps explicit) (demo_env true) demo_x VaultStore.demo_ctx VaultStore.demo_upstream Delivered
    (demo_signed path) (demo_world vault).

(** The request's own path, not a certificate or a store, decides nothing here: one call, one receipt. *)
Lemma calls_are_authorized_witness :
  let p := demo_handle true VaultStore.empty "/vault/proxy/api/v1" in
  length (w_receipts p.1) = 1%nat /\
  exists lease, holds_lease (demo_env true) demo_x (demo_signed "/vault/proxy/api/v1") (Some (js "api", js "/v1")) lease
                  (demo_world VaultStore.empty).
Proof.
  intros p. split; [vm_compute; reflexivity|].
  destruct (calls_are_authorized (demo_deps true) (demo_env true) demo_x VaultStore.demo_ctx VaultStore.demo_upstream Delivered
    (demo_signed "/vault/proxy/api/v1") (demo_world VaultStore.empty) p.1 p.2) as [Hq|(sv & path & lease & cfg & Hp & _ & Hl & _)].
  - by apply surjective_pairing.
  - exfalso. destruct Hq as (_ & _ & _ & _ & Hr & _). apply (f_equal length) in Hr. vm_compute in Hr. discriminate Hr.
  - vm_compute in Hp. exists lease. injection Hp as <- <-. exact Hl.
Defined.

(** A service that is not declared. *)
Lemma refusals_share_a_body_witness :
  let p := demo_handle false VaultStore.empty "/vault/proxy/other" in
  exists res, p.2 = Ok res /\ status res = 404 /\ one_shape res.
Proof.
  intros p. assert (Hs : match p.2 with Ok res => status res =? 404 | Throw _ => false end = true) by (vm_compute; reflexivity).
  destruct p.2 as [res|e] eqn:E; [|done]. apply Z.eqb_eq in Hs. exists res. split; [done|]. split; [done|].
  apply (refusals_share_a_body (demo_deps false) (demo_env true) demo_x VaultStore.demo_ctx VaultStore.demo_upstream Delivered
    (demo_signed "/vault/proxy/other") (demo_world VaultStore.empty) p.1 res).
  - reflexivity.
  - reflexivity.
  - by apply pair_snd.
  - rewrite Hs. reflexivity.
Defined.

Definition demo_lease : Lease.VerifiedLease :=
  Lease.mkVerified (js "peer") (js "*") 3 [] [] 6000 [] [] None.
Definition demo_call (secret : string) :=
  vaultProxyHandler (demo_deps true) demo_x (demo_signed "/vault/proxy/api/v1") (js "/v1") (Some demo_lease) (Some demo_service)
    (Some (mkLookup (js secret) None)) (demo_world VaultStore.empty).

Lemma credential_is_confined_witness :
  w_sent (demo_call "sk-1").1 <> w_sent (demo_call "sk-2").1 /\
  (demo_call "sk-1").2 = (demo_call "sk-2").2 /\ forget_sent (demo_call "sk-1").1 = forget_sent (demo_call "sk-2").1.
Proof.
  assert (Hn : forall secret, w_sent (demo_call secret).1 = [] -> length (w_sent (demo_call secret).1) = 0%nat) by (intros secret ->; done).
  split.
  { intros E. assert (Eh : Vault.p_headers <$> head (w_sent (demo_call "sk-1").1) = Vault.p_headers <$> head (w_sent (demo_call "sk-2").1))
      by by rewrite E. apply (f_equal (fun o => o ≫= fun h : Headers => h !! js "apikey")) in Eh. vm_compute in Eh. discriminate Eh. }
  apply (credential_is_confined (demo_deps true) demo_x (Some demo_answer) (demo_signed "/vault/proxy/api/v1") (js "/v1")
    (Some demo_lease) (Some demo_service) (mkLookup (js "sk-1") None) (mkLookup (js "sk-2") None) (demo_world VaultStore.empty)).
  - reflexivity.
  - by apply surjective_pairing.
  - by apply surjective_pairing.
  - intros E%Hn. vm_compute in E. discriminate E.
  - intros E%Hn. vm_compute in E. discriminate E.
Defined.

(** Three calls within one minute, for a limit of two: the bound is attained. *)
Lemma minute_is_bounded_witness :
  let ts := [0; 59998; 60000; 60001; 60002] in
  within 59998 (let_through (js "peer") demo_service ∅ ts) = 3%nat /\
  Z.of_nat (within 59998 (let_through (js "peer") demo_service ∅ ts)) <= 2 * 2 - 1.
Proof.
  intros ts. split; [vm_compute; reflexivity|]. apply (minute_is_bounded (js "peer") demo_service ts 59998); [reflexivity|].
  repeat constructor; lia.
Defined.

(** A clock that runs ahead opens a new window each time, and one that is set back falls into it: with two
    calls a minute, four are let through within one. *)
Example clock_set_back :
  within 100000 (let_through (js "peer") demo_service ∅ [100000; 100001; 160000; 100002; 220000; 100003]) = 4%nat.
Proof. vm_compute. reflexivity. Qed.

Definition demo_vault : VaultStore.T :=
  (VaultStore.putCredential VaultStore.demo_ctx (js "peer") (js "api")
     (Vault.mkCred (js "https://api.example.com/") [(js "apiKey", js "sk-1")] [js "*"]) VaultStore.empty).1.

(** Two paths of one service are one request to the vault. *)
Lemma production_ignores_the_path_witness :
  let unsigned p := mkRequest (Vault.mkIncoming (js "https://c/vault/proxy/api" ++ js p) (js "GET") [] []) [] in
  vault_forward (demo_deps false) VaultStore.demo_ctx VaultStore.demo_upstream Delivered (js "peer") (js "api") (js "peer")
    (unsigned "/v1/chat") (demo_world demo_vault) =
  vault_forward (demo_deps false) VaultStore.demo_ctx VaultStore.demo_upstream Delivered (js "peer") (js "api") (js "peer")
    (unsigned "/v1/files") (demo_world demo_vault).
Proof. intros unsigned. apply production_ignores_the_path; try reflexivity; by eexists. Defined.

Lemma body_field_is_injected_witness :
  let obj := JObj [(js "auth", JObj [(js "id", JNum 1)]); (js "q", JStr (js "x"))] in
  let merged := JObj [(js "auth", JObj [(js "id", JNum 1); (js "secret", JStr (js "sk"))]); (js "q", JStr (js "x"))] in
  at_path merged [js "auth"; js "secret"] = Some (JStr (js "sk")) /\ at_path merged [js "auth"; js "id"] = at_path obj [js "auth"; js "id"].
Proof.
  intros obj merged. destruct (body_field_is_injected obj (js "auth.secret") (js "sk") merged) as [Hv Hq].
  - vm_compute. reflexivity.
  - split; [exact Hv|]. apply (Hq [js "auth"; js "id"]). vm_compute. right. split; [reflexivity|]. left. discriminate.
Defined.

Definition server_of (p : world (gmap (list Z) CredentialLookup) * result exn Response) : option (Z * option jsstr) :=
  match p.2 with Ok res => Some (status res, headers res !! js "server") | Throw _ => None end.

(** The header tells a declared service without a credential from one that is not declared. *)
Example server_header_tells_declared :
  server_of (demo_handle false VaultStore.empty "/vault/proxy/other") = Some (404, None) /\
  server_of (demo_handle false VaultStore.empty "/vault/proxy/api") = Some (404, Some PROXY_SERVER_HEADER_VALUE).
Proof. split; vm_compute; reflexivity. Qed.

Definition lease_headers (o : option Vault.ProxyRequest) : option (option jsstr * bool) :=
  (fun q => (Vault.p_headers q !! js "authorization", bool_decide (is_Some (Vault.p_headers q !! js "x-signet-sig")))) <$> o.

(** The caller's lease goes upstream with an injected header; through the vault, its signature and
    nonce do. *)
Example lease_goes_upstream :
  lease_headers (head (w_sent (demo_handle true VaultStore.empty "/vault/proxy/api/v1").1)) = Some (Some (js "Signet QQ"), true) /\
  lease_headers (Vault.buildProxyRequest (incoming (demo_signed "/vault/proxy/api/v1"))
    (Vault.mkCred (js "https://api.example.com/") [(js "apiKey", js "sk-1")] [js "*"])) = Some (None, true).
Proof. split; vm_compute; reflexivity. Qed.

(** Other statuses pass with the upstream's own [server]. *)
Example server_error_names_upstream :
  headers (collapseWireShape (mkResponse 500 {[ js "server" := js "nginx" ]} [])) !! js "server" = Some (js "nginx").
Proof. vm_compute. reflexivity. Qed.

(** Without a trust anchor the answer is 503 with the body of a refusal. *)
Example unavailable_gate_looks_refused :
  let env := mkEnv (CaBundle.mkEnv None None None None) true None None in
  match (handle (demo_deps false) env demo_x VaultStore.demo_ctx VaultStore.demo_upstream Delivered
           (demo_signed "/vault/proxy/api") (demo_world VaultStore.empty)).2 with
  | Ok res => status res = 503 /\ body res = utf8_encode CONSTANT_TIME_ERROR_BODY
  | Throw _ => False
  end.
Proof. vm_compute. split; reflexivity. Qed.
End demo.

End VaultProxy.
