(* ===== verification/Gateway.v ===== *)
(** The manifest's runtime (src/manifest/runtime.ts, src/manifest/vault-proxy-services.ts): the
    validation of a manifest, the route table it becomes, which backend a tool's name reaches, and the
    generic HTTP proxy.

    The URL parser, its resolution of a reference against a base, and the test of a URL pattern are
    parameters. *)
From S2P Require Import Prelude JsString Json JsonText McpRoute McpProxy Backends Vault VaultProxy Tenant.

Module Gateway.
Import JsonText.

(** ** The services of the vault proxy *)

(** What a number of the manifest can be. *)
Inductive js_number := NotANumber | NotFinite | Fraction | Whole (z : Z).

(** A field that holds no string is [None]. *)
Inductive VaultProxyInjection :=
  | authorizationBearer | authorizationBasic
  | headerNamed (name : option jsstr) | queryParam (name : option jsstr) | bodyField (path : option jsstr)
  | passthrough.

Record VaultProxyServiceConfig := mkServiceConfig {
  c_name : option jsstr; c_upstreamBaseUrl : option jsstr; c_defaultAllowedSubs : option (list jsstr);
  c_rateLimitPerMinute : js_number; c_injection : VaultProxyInjection;
}.

Inductive service_error :=
  | NameEmpty | NameHasSlash (n : jsstr) | UrlEmpty (n : jsstr) | UrlInvalid (n url : jsstr)
  | UrlScheme (n protocol : jsstr) | UrlHasQuery (n : jsstr) | BadRate (n : jsstr)
  | HeaderNameEmpty (n : jsstr) | HeaderNameBad (n h : jsstr) | QueryNameEmpty (n : jsstr)
  | PathEmpty (n : jsstr) | PathEmptySegment (n p : jsstr) | DuplicateService (n : jsstr).

(** [new URL(s)], and what is read of it. *)
Record base_url := mkBase { protocol : jsstr; search : jsstr; hash : jsstr }.

(** /^[!#$%&'*+\-.^_`|~0-9A-Za-z]+$/ *)
Definition HTTP_HEADER_TOKEN_RE (n : jsstr) : bool := bool_decide (n <> []) && forallb Vault.is_token n.

Definition toRouteInjection (inj : VaultProxyInjection) (serviceName : jsstr) : result service_error VaultProxy.InjectionStrategy :=
  match inj with
  | authorizationBearer => Ok VaultProxy.authorizationBearer
  | authorizationBasic => Ok VaultProxy.authorizationBasic
  | passthrough => Ok VaultProxy.passthrough
  | headerNamed (Some ((_ :: _) as n)) =>
      if HTTP_HEADER_TOKEN_RE n then Ok (VaultProxy.headerNamed n) else Throw (HeaderNameBad serviceName n)
  | headerNamed _ => Throw (HeaderNameEmpty serviceName)
  | queryParam (Some ((_ :: _) as n)) => Ok (VaultProxy.queryParam n)
  | queryParam _ => Throw (QueryNameEmpty serviceName)
  | bodyField (Some ((_ :: _) as p)) =>
      if bool_decide ([] ∈ split_on VaultProxy.DOT p) then Throw (PathEmptySegment serviceName p)
      else Ok (VaultProxy.bodyField p)
  | bodyField _ => Throw (PathEmpty serviceName)
  end.

Definition has_slash (n : jsstr) : bool :=
  includes VaultProxy.SLASH n || includes_str (js "%2F") n || includes_str (js "%2f") n.

Section services.
Context (new_url : jsstr -> option base_url).

Definition toRouteVaultProxyService (cfg : VaultProxyServiceConfig) : result service_error VaultProxy.VaultProxyService :=
  let n := default [] (c_name cfg) in
  let url := default [] (c_upstreamBaseUrl cfg) in
  if bool_decide (n = []) then Throw NameEmpty
  else if has_slash n then Throw (NameHasSlash n)
  else if bool_decide (url = []) then Throw (UrlEmpty n)
  else
    match new_url url with
    | None => Throw (UrlInvalid n url)
    | Some parsed =>
        if negb (bool_decide (protocol parsed = js "http:")) && negb (bool_decide (protocol parsed = js "https:"))
        then Throw (UrlScheme n (protocol parsed))
        else if negb (bool_decide (search parsed = [])) || negb (bool_decide (hash parsed = [])) then Throw (UrlHasQuery n)
        else
          match c_rateLimitPerMinute cfg with
          | Whole rate =>
              if rate <? 0 then Throw (BadRate n)
              else
                let? injection := toRouteInjection (c_injection cfg) n in
                Ok (VaultProxy.mkService n url injection (default [] (c_defaultAllowedSubs cfg)) rate)
          | _ => Throw (BadRate n)
          end
    end.

(** The map, in the order of its entries. *)
Fixpoint build (configs : list VaultProxyServiceConfig) (map : list (jsstr * VaultProxy.VaultProxyService))
    : result service_error (list (jsstr * VaultProxy.VaultProxyService)) :=
  match configs with
  | [] => Ok map
  | cfg :: configs =>
      let? converted := toRouteVaultProxyService cfg in
      if bool_decide (is_Some (assoc (VaultProxy.name converted) map)) then Throw (DuplicateService (VaultProxy.name converted))
      else build configs (map ++ [(VaultProxy.name converted, converted)])
  end.

Definition buildServiceRegistry (configs : list VaultProxyServiceConfig)
    : result service_error (list (jsstr * VaultProxy.VaultProxyService)) := build configs [].

End services.

(** ** The manifest *)

Record HttpForwardSpec := mkHttpForward {
  f_urlBinding : jsstr; f_tools : list McpProxy.McpToolSpec; f_dynamicTools : option bool; f_stripPrefix : option jsstr;
  f_requiresSession : option bool; f_protocolMode : option jsstr; f_serviceBinding : option jsstr; f_claims : option (list jsstr);
}.

Inductive BackendKind :=
  | durableObject (binding keyArg : jsstr) (tools : list McpProxy.McpToolSpec)
  | mcpProxy (spec : HttpForwardSpec)
  | serviceBinding (binding : jsstr) (tools : list McpProxy.McpToolSpec)
  | udsForward (socketPath : jsstr) (tools : list McpProxy.McpToolSpec)
  | leylineNet (companionUrlBinding upstreamId : jsstr) (tools : list McpProxy.McpToolSpec).

Record Backend := mkBackend { b_name : jsstr; handlesPrefix : jsstr; b_kind : BackendKind }.

Inductive RouteKind :=
  | health
  | mcp (backends : list Backend)
  | serviceBindingProxy (binding upstreamHost stripPrefix : jsstr)
  | httpProxy (urlBinding stripPrefix : jsstr)
  | wellKnownInterlace | disclosure | wellKnownIdentityBridge | ociRegistry | wellKnownMcpRegistry | caBundle
  | vaultProxy (bundleIdName : jsstr)
  | tenantDispatch (tenants : list Tenant.TenantDispatchRow).

Record Route := mkRoute { path : jsstr; kind : RouteKind }.

(** What the instantiation reads of a manifest. *)
Record GatewaySpec := mkGateway {
  routes : list Route; supportedProtocolVersions : option (list jsstr);
  vaultProxyServices : option (list VaultProxyServiceConfig);
}.

Inductive manifest_error :=
  | DuplicatePath (p : jsstr)
  | SharesClaimlessPrefix (b prefix : jsstr) | DuplicatePrefix (b prefix : jsstr)
  | DynamicNeedsPrefix (b : jsstr) | ToolOutsidePrefix (tool prefix : jsstr) | DuplicateTool (tool : jsstr)
  | WrongPath (wanted got : jsstr) | WrongBinding (got : jsstr) | WrongHost (got : jsstr)
  | BadSchema (e : json_error) | BadService (e : service_error) | BadTenants (e : Tenant.table_error).

(** ** Validation *)

Definition tools_of (k : BackendKind) : list McpProxy.McpToolSpec :=
  match k with
  | durableObject _ _ ts | serviceBinding _ ts | udsForward _ ts | leylineNet _ _ ts => ts
  | mcpProxy spec => f_tools spec
  end.

Definition claims_of (k : BackendKind) : list jsstr := match k with mcpProxy spec => default [] (f_claims spec) | _ => [] end.
Definition has_claims (b : Backend) : bool := negb (bool_decide (claims_of (b_kind b) = [])).
Definition is_dynamic (k : BackendKind) : bool := match k with mcpProxy spec => default false (f_dynamicTools spec) | _ => false end.

(** The four sets, but the paths. *)
Record seen := mkSeen { seenPrefixes : list jsstr; seenClaimsPrefixes : list jsstr; seenToolNames : list jsstr }.

Fixpoint check_tools (prefix : jsstr) (tools : list McpProxy.McpToolSpec) (names : list jsstr) : result manifest_error (list jsstr) :=
  match tools with
  | [] => Ok names
  | t :: tools =>
      if negb (bool_decide (prefix = [])) && negb (starts_with prefix (McpProxy.s_name t))
      then Throw (ToolOutsidePrefix (McpProxy.s_name t) prefix)
      else if bool_decide (McpProxy.s_name t ∈ names) then Throw (DuplicateTool (McpProxy.s_name t))
      else check_tools prefix tools (McpProxy.s_name t :: names)
  end.

Definition check_prefix (b : Backend) (s : seen) : result manifest_error seen :=
  let p := handlesPrefix b in
  if bool_decide (p = []) then Ok s
  else
    let prefixSeenBefore := bool_decide (p ∈ seenPrefixes s) in
    let claimed := bool_decide (p ∈ seenClaimsPrefixes s) in
    let bothClaimsBacked := has_claims b && claimed in
    if prefixSeenBefore && negb bothClaimsBacked
    then Throw (if has_claims b || claimed then SharesClaimlessPrefix (b_name b) p else DuplicatePrefix (b_name b) p)
    else Ok (mkSeen (p :: seenPrefixes s) (if has_claims b then p :: seenClaimsPrefixes s else seenClaimsPrefixes s) (seenToolNames s)).

Definition check_backend (b : Backend) (s : seen) : result manifest_error seen :=
  let? s := check_prefix b s in
  if is_dynamic (b_kind b) && bool_decide (handlesPrefix b = []) && negb (has_claims b)
  then Throw (DynamicNeedsPrefix (b_name b))
  else
    let? names := check_tools (handlesPrefix b) (tools_of (b_kind b)) (seenToolNames s) in
    Ok (mkSeen (seenPrefixes s) (seenClaimsPrefixes s) names).

Fixpoint check_backends (bs : list Backend) (s : seen) : result manifest_error seen :=
  match bs with
  | [] => Ok s
  | b :: bs => let? s := check_backend b s in check_backends bs s
  end.

Definition backends_of (r : Route) : list Backend := match kind r with mcp bs => bs | _ => [] end.

Fixpoint check_routes (rs : list Route) (seenPaths : list jsstr) (s : seen) : result manifest_error unit :=
  match rs with
  | [] => Ok tt
  | r :: rs =>
      if bool_decide (path r ∈ seenPaths) then Throw (DuplicatePath (path r))
      else let? s := check_backends (backends_of r) s in check_routes rs (path r :: seenPaths) s
  end.

Definition validate (g : GatewaySpec) : result manifest_error unit := check_routes (routes g) [] (mkSeen [] [] []).

(** ** Instantiation *)

Inductive tool_kind :=
  | DurableObjectToolBackend (d : Backends.DoBackend)
  | McpProxyToolBackend (spec : McpProxy.HttpForwardBackend)
  | ServiceBindingToolBackend (binding : jsstr)
  | UdsForwardToolBackend (socketPath : jsstr)
  | LeylineNetToolBackend (spec : Backends.LeylineNetBackend).

Record ToolBackend := mkToolBackend { tb_kind : tool_kind; tb_prefix : jsstr; tb_tools : list McpRoute.McpTool }.

Definition tool_kind_of (b : Backend) (tools : list McpRoute.McpTool) : tool_kind :=
  match b_kind b with
  | durableObject binding keyArg _ => DurableObjectToolBackend (Backends.mkDo binding keyArg)
  | mcpProxy f =>
      McpProxyToolBackend (McpProxy.mkSpec (f_urlBinding f) tools (default false (f_dynamicTools f)) (default [] (f_stripPrefix f))
        (default false (f_requiresSession f)) (McpProxy.normalizeProtocolMode (f_protocolMode f)) (default [] (f_serviceBinding f))
        (default [] (f_claims f)) (handlesPrefix b))
  | serviceBinding binding _ => ServiceBindingToolBackend binding
  | udsForward socketPath _ => UdsForwardToolBackend socketPath
  | leylineNet url id _ => LeylineNetToolBackend (Backends.mkLeyline url id)
  end.

Definition toToolBackend (b : Backend) : result manifest_error ToolBackend :=
  match McpProxy.toolsFromSpecs (tools_of (b_kind b)) with
  | Throw e => Throw (BadSchema e)
  | Ok tools => Ok (mkToolBackend (tool_kind_of b tools) (handlesPrefix b) tools)
  end.

(** [handles] of a backend that has not been refreshed yet. *)
Definition handles (b : ToolBackend) (toolName : jsstr) : bool :=
  match tb_kind b with
  | McpProxyToolBackend spec => McpProxy.handles_name spec McpProxy.initial toolName
  | _ => Backends.handles (tb_prefix b) (tb_tools b) toolName
  end.

Inductive EdgeRoute :=
  | HealthRoute
  | McpEdgeRoute (backends : list ToolBackend) (supported : option (list jsstr))
  | NotmeIdentityRoute
  | HttpProxyRoute (path urlBinding stripPrefix : jsstr)
  | WellKnownInterlaceRoute (path : jsstr) (manifest : GatewaySpec)
  | DisclosureRoute
  | WellKnownIdentityBridgeRoute (manifest : GatewaySpec)
  | OciRegistryRoute
  | WellKnownMcpRegistryRoute (manifest : GatewaySpec)
  | CaBundleRoute
  | VaultProxyRoute (services : list (jsstr * VaultProxy.VaultProxyService)) (bundleIdName : jsstr)
  | TenantDispatchRoute (route : Tenant.route).

Fixpoint traverse {A B E} (f : A -> result E B) (l : list A) : result E (list B) :=
  match l with [] => Ok [] | a :: l => let? b := f a in let? bs := traverse f l in Ok (b :: bs) end.

Definition at_path (wanted : string) (r : Route) (e : result manifest_error EdgeRoute) : result manifest_error EdgeRoute :=
  if bool_decide (path r = js wanted) then e else Throw (WrongPath (js wanted) (path r)).

Definition toEdgeRoute (new_url : jsstr -> option base_url) (r : Route) (manifest : GatewaySpec) : result manifest_error EdgeRoute :=
  match kind r with
  | health => at_path "/health" r (Ok HealthRoute)
  | mcp backends =>
      at_path "/mcp" r (let? bs := traverse toToolBackend backends in Ok (McpEdgeRoute bs (supportedProtocolVersions manifest)))
  | serviceBindingProxy binding upstreamHost _ =>
      at_path "/identity" r
        (if negb (bool_decide (binding = js "NOTME")) then Throw (WrongBinding binding)
         else if negb (bool_decide (upstreamHost = js "notme-bot")) then Throw (WrongHost upstreamHost)
         else Ok NotmeIdentityRoute)
  | httpProxy urlBinding stripPrefix => Ok (HttpProxyRoute (path r) urlBinding stripPrefix)
  | wellKnownInterlace => Ok (WellKnownInterlaceRoute (path r) manifest)
  | disclosure => Ok DisclosureRoute
  | wellKnownIdentityBridge => Ok (WellKnownIdentityBridgeRoute manifest)
  | ociRegistry => Ok OciRegistryRoute
  | wellKnownMcpRegistry => Ok (WellKnownMcpRegistryRoute manifest)
  | caBundle => Ok CaBundleRoute
  | vaultProxy bundleIdName =>
      match buildServiceRegistry new_url (default [] (vaultProxyServices manifest)) with
      | Throw e => Throw (BadService e)
      | Ok registry => Ok (VaultProxyRoute registry bundleIdName)
      end
  | tenantDispatch tenants =>
      match Tenant.new_route tenants with Throw e => Throw (BadTenants e) | Ok route => Ok (TenantDispatchRoute route) end
  end.

Definition instantiate (new_url : jsstr -> option base_url) (manifest : GatewaySpec) : result manifest_error (list EdgeRoute) :=
  let? _ := validate manifest in traverse (fun r => toEdgeRoute new_url r manifest) (routes manifest).

(** ** The generic proxy *)

Definition BACKSLASH : Z := 92.
(** [.*+?^${}()|[]] and the backslash. *)
Definition SPECIAL : list Z := [46; 42; 43; 63; 94; 36; 123; 125; 40; 41; 124; 91; 93; 92].

Definition escapeRegex (s : jsstr) : jsstr :=
  concat (map (fun c => if bool_decide (c ∈ SPECIAL) then [BACKSLASH; c] else [c]) s).

(** The text a pattern of literals matches; [None] for a pattern with an operator. *)
Fixpoint literal_pattern (p : jsstr) : option jsstr :=
  match p with
  | [] => Some []
  | c :: p' =>
      if c =? BACKSLASH then
        match p' with d :: p'' => if bool_decide (d ∈ SPECIAL) then cons d <$> literal_pattern p'' else None | [] => None end
      else if bool_decide (c ∈ SPECIAL) then None
      else cons c <$> literal_pattern p'
  end.

(** [text.replace(new RegExp('^' + pattern), '')] of a pattern of literals. *)
Definition remove_at_start (pattern text : jsstr) : option jsstr :=
  lit ← literal_pattern pattern;
  Some (if starts_with lit text then drop (length lit) text else text).

Inductive proxy_answer := NotConfigured (binding : jsstr) | TypeErrorThrew | Fetched (target : jsstr).

Section http_proxy.
(** [new URLPattern({ pathname }).test(url)]; [new URL(reference, base).toString()]. *)
Context (pattern_test : jsstr -> jsstr -> bool) (resolve : jsstr -> jsstr -> option jsstr).

Definition http_match (routePath url : jsstr) : bool := pattern_test routePath url || pattern_test (routePath ++ js "/*") url.

(** The reference that is resolved; [||] replaces an empty text. *)
Definition http_reference (stripPrefix pathname search : jsstr) : option jsstr :=
  stripped ← (if bool_decide (stripPrefix = []) then Some pathname
              else rest ← remove_at_start (escapeRegex stripPrefix) pathname;
                   Some (match rest with [] => js "/" | _ => rest end));
  Some (stripped ++ search).

Definition http_handle (urlBinding stripPrefix : jsstr) (var : jsstr -> option jsstr) (pathname search : jsstr) : proxy_answer :=
  match var urlBinding with
  | Some ((_ :: _) as upstream) =>
      match (reference ← http_reference stripPrefix pathname search; resolve reference upstream) with
      | Some target => Fetched target
      | None => TypeErrorThrew
      end
  | _ => NotConfigured urlBinding
  end.
End http_proxy.

(** ** What validation accepts *)

Definition tool_names (b : Backend) : list jsstr := map McpProxy.s_name (tools_of (b_kind b)).

(** Two backends with one prefix route by their claims. *)
Definition compatible (b b' : Backend) : Prop :=
  handlesPrefix b = handlesPrefix b' -> handlesPrefix b <> [] -> has_claims b = true /\ has_claims b' = true.

Definition backend_ok (b : Backend) : Prop :=
  (is_dynamic (b_kind b) = true -> handlesPrefix b = [] -> has_claims b = true) /\
  Forall (fun n => handlesPrefix b <> [] -> starts_with (handlesPrefix b) n = true) (tool_names b).

Definition backends_ok (bs : list Backend) : Prop :=
  Forall backend_ok bs /\ ForallOrdPairs compatible bs /\ NoDup (concat (map tool_names bs)).

Definition all_backends (g : GatewaySpec) : list Backend := concat (map backends_of (routes g)).

Definition manifest_ok (g : GatewaySpec) : Prop := NoDup (map path (routes g)) /\ backends_ok (all_backends g).

(** The sets after the backends [done]. *)
Record represents (s : seen) (done : list Backend) : Prop := {
  rep_prefixes p : p ∈ seenPrefixes s <-> p <> [] /\ exists b, b ∈ done /\ handlesPrefix b = p;
  rep_claims p : p ∈ seenClaimsPrefixes s <-> p <> [] /\ exists b, b ∈ done /\ handlesPrefix b = p /\ has_claims b = true;
  rep_names n : n ∈ seenToolNames s <-> n ∈ concat (map tool_names done);
}.

Lemma check_tools_iff prefix tools names names' :
  check_tools prefix tools names = Ok names' <->
  names' = reverse (map McpProxy.s_name tools) ++ names /\
  Forall (fun n => prefix <> [] -> starts_with prefix n = true) (map McpProxy.s_name tools) /\
  NoDup (map McpProxy.s_name tools) /\ (forall n, n ∈ map McpProxy.s_name tools -> n ∉ names).
Proof.
  revert names. induction tools as [|t tools IH]; intros names; cbn [check_tools map].
  { rewrite reverse_nil. cbn [app]. split; [intros [= ->]|intros [-> _]]; [|done].
    split; [done|]. split; [constructor|]. split; [constructor|]. intros n Hn. by apply not_elem_of_nil in Hn. }
  rewrite Forall_cons, NoDup_cons, reverse_cons, <- app_assoc. cbn [app]. set (n := McpProxy.s_name t).
  destruct (bool_decide_reflect (prefix = [])) as [Hp|Hp], (starts_with prefix n) eqn:Es; cbn [negb andb];
    try (split; [done|]; by intros (_ & [Hf _] & _); specialize (Hf Hp)).
  all: destruct (bool_decide_reflect (n ∈ names)) as [Hn|Hn];
    [split; [done|intros (_ & _ & _ & Hx); by destruct (Hx n); [left|]]|].
  all: rewrite IH; split;
    [intros (-> & Hf & Hnd & Hx); repeat split; try done; [intros Hin; apply (Hx n Hin); by left|];
     intros m Hm; apply elem_of_cons in Hm as [->|Hm]; [done|]; intros Hin; apply (Hx m Hm); by right
    |intros (-> & [_ Hf] & [Hni Hnd] & Hx); repeat split; try done; intros m Hm; rewrite not_elem_of_cons; split;
     [intros ->; done|apply Hx; by right]].
Qed.

Lemma ForallOrdPairs_snoc {A} (P : A -> A -> Prop) l a :
  ForallOrdPairs P (l ++ [a]) <-> ForallOrdPairs P l /\ Forall (fun b => P b a) l.
Proof.
  induction l as [|b l IH]; cbn [app]; [split; [intros _; split; constructor|intros _; repeat constructor]|].
  split.
  - inversion 1 as [|? ? Hb Hl]; subst. apply IH in Hl as [Hl Ha]. apply Forall_app in Hb as [Hb Hba].
    rewrite Forall_singleton in Hba. split; [by constructor|by constructor].
  - intros [Hbl Ha]. inversion Hbl as [|? ? Hb Hl]; subst. inversion Ha; subst. constructor; [|by apply IH].
    apply Forall_app. split; [done|]. by constructor.
Qed.

Lemma backends_ok_snoc done b :
  backends_ok (done ++ [b]) <->
  backends_ok done /\ backend_ok b /\ Forall (fun b' => compatible b' b) done /\ NoDup (tool_names b) /\
  (forall n, n ∈ tool_names b -> n ∉ concat (map tool_names done)).
Proof.
  unfold backends_ok. rewrite Forall_app, Forall_singleton, ForallOrdPairs_snoc, map_app, concat_app, NoDup_app.
  cbn [map concat]. rewrite app_nil_r.
  assert (E : (forall n, n ∈ concat (map tool_names done) -> n ∉ tool_names b) <->
              (forall n, n ∈ tool_names b -> n ∉ concat (map tool_names done))) by (split; intros Hx n Ha Hb; by apply (Hx n)).
  rewrite E. tauto.
Qed.

Lemma backends_ok_app_l done bs : backends_ok (done ++ bs) -> backends_ok done.
Proof.
  revert done. induction bs as [|b bs IH]; intros done; [by rewrite app_nil_r|].
  replace (done ++ b :: bs) with ((done ++ [b]) ++ bs) by by rewrite <- app_assoc.
  intros H%IH. by apply backends_ok_snoc in H as [H _].
Qed.

(** The prefix check of one backend compares it with all of those before it. *)
Lemma check_prefix_iff b s done s1 : represents s done -> backends_ok done ->
  check_prefix b s = Ok s1 <->
  Forall (fun b' => compatible b' b) done /\
  s1 = (if bool_decide (handlesPrefix b = []) then s
        else mkSeen (handlesPrefix b :: seenPrefixes s) (if has_claims b then handlesPrefix b :: seenClaimsPrefixes s else seenClaimsPrefixes s) (seenToolNames s)).
Proof.
  intros Hr (_ & Hc & _). unfold check_prefix. destruct (bool_decide_reflect (handlesPrefix b = [])) as [Hp|Hp].
  { split; [intros [= <-]|by intros [_ ->]]. split; [|done]. apply Forall_forall. intros b' _ E Hne. by rewrite E in Hne. }
  set (s2 := mkSeen _ _ _).
  destruct (bool_decide_reflect (handlesPrefix b ∈ seenPrefixes s)) as [Hin|Hin]; cbn [andb].
  2: { split; [intros [= <-]|by intros [_ ->]]. split; [|done]. apply Forall_forall. intros b' Hb' E Hne. exfalso. apply Hin, Hr.
       split; [done|]. exists b'. by split. }
  apply Hr in Hin as [_ (b0 & Hb0 & Ep0)].
  destruct (has_claims b) eqn:Eh; cbn [andb].
  2: { split; [done|]. intros [Hf _]. rewrite Forall_forall in Hf.
       destruct (Hf b0 Hb0 Ep0) as [_ ?]; [congruence|congruence]. }
  destruct (bool_decide_reflect (handlesPrefix b ∈ seenClaimsPrefixes s)) as [Hcl|Hcl]; cbn [negb].
  - split; [intros [= <-]|by intros [_ ->]]. split; [|done]. apply Hr in Hcl as [_ (b1 & Hb1 & Ep1 & Hh1)].
    apply Forall_forall. intros b' Hb' E Hne. split; [|done].
    destruct (decide (has_claims b' = true)) as [|Hn]; [done|]. exfalso.
    destruct (ForallOrdPairs_In Hc b' b1) as [->|[Hx|Hx]]; [by apply list_elem_of_In|by apply list_elem_of_In|congruence| |].
    + destruct Hx as [? _]; [congruence|done|congruence].
    + destruct Hx as [_ ?]; [congruence|congruence|congruence].
  - split; [done|]. intros [Hf _]. rewrite Forall_forall in Hf. exfalso. apply Hcl, Hr. split; [done|].
    destruct (Hf b0 Hb0 Ep0) as [Hh _]; [congruence|]. by exists b0.
Qed.

Lemma exists_snoc {A} (Q : A -> Prop) l b : (exists x, x ∈ l ++ [b] /\ Q x) <-> (exists x, x ∈ l /\ Q x) \/ Q b.
Proof.
  setoid_rewrite elem_of_app. setoid_rewrite list_elem_of_singleton. split.
  - intros (x & [Hx| ->] & HQ); [left; by exists x|by right].
  - intros [(x & Hx & HQ)|HQ]; [exists x|exists b]; auto.
Qed.

Lemma check_backend_iff b s done : represents s done -> backends_ok done ->
  (exists s', check_backend b s = Ok s' /\ represents s' (done ++ [b]) /\ backends_ok (done ++ [b])) \/
  (exists e, check_backend b s = Throw e) /\ ~ backends_ok (done ++ [b]).
Proof.
  intros Hr Hok. rewrite backends_ok_snoc. unfold check_backend.
  destruct (check_prefix b s) as [s1|e] eqn:E1; cbn [rbind].
  2: { right. split; [by eexists|]. intros (_ & _ & Hf & _).
       by rewrite (proj2 (check_prefix_iff b s done _ Hr Hok) (conj Hf eq_refl)) in E1. }
  apply (check_prefix_iff b s done s1 Hr Hok) in E1 as [Hf E1].
  destruct (is_dynamic (b_kind b) && bool_decide (handlesPrefix b = []) && negb (has_claims b)) eqn:Ed.
  { right. split; [by eexists|]. intros (_ & [Hd _] & _). apply andb_prop in Ed as [[Hdy Hp]%andb_prop Hh].
    apply bool_decide_eq_true in Hp. rewrite (Hd Hdy Hp) in Hh. done. }
  assert (Hdyn : is_dynamic (b_kind b) = true -> handlesPrefix b = [] -> has_claims b = true).
  { intros Hd Hp. rewrite Hd, bool_decide_true in Ed by done. by destruct (has_claims b). }
  assert (En : seenToolNames s1 = seenToolNames s) by (rewrite E1; by destruct (bool_decide _)).
  rewrite En. destruct (check_tools _ _ _) as [names|e] eqn:Et; cbn [rbind].
  - left. apply check_tools_iff in Et as (-> & Hs & Hnd & Hx). eexists. split; [reflexivity|]. split.
    + split; cbn [seenPrefixes seenClaimsPrefixes seenToolNames].
      * intros p. rewrite exists_snoc, E1. destruct (bool_decide_reflect (handlesPrefix b = [])) as [Hp|Hp]; cbn [seenPrefixes];
          [|rewrite elem_of_cons]; rewrite (rep_prefixes _ _ Hr); naive_solver.
      * intros p. rewrite exists_snoc, E1. destruct (bool_decide_reflect (handlesPrefix b = [])) as [Hp|Hp]; cbn [seenClaimsPrefixes];
          [|destruct (has_claims b); [rewrite elem_of_cons|]]; rewrite (rep_claims _ _ Hr); intuition (subst; congruence).
      * intros n. rewrite elem_of_app, elem_of_reverse, (rep_names _ _ Hr), map_app, concat_app, elem_of_app.
        cbn [map concat]. rewrite app_nil_r. unfold tool_names. tauto.
    + apply backends_ok_snoc. do 4 (split; [done|]). intros n Hn. rewrite <- (rep_names _ _ Hr). by apply Hx.
  - right. split; [by eexists|]. intros (_ & [_ Hs] & _ & Hnd & Hx).
    assert (Ht : check_tools (handlesPrefix b) (tools_of (b_kind b)) (seenToolNames s) = Ok (reverse (tool_names b) ++ seenToolNames s)).
    { apply check_tools_iff. repeat split; try done. intros n Hn. rewrite (rep_names _ _ Hr). by apply Hx. }
    by rewrite Ht in Et.
Qed.

Lemma check_backends_iff bs : forall s done, represents s done -> backends_ok done ->
  (exists s', check_backends bs s = Ok s' /\ represents s' (done ++ bs) /\ backends_ok (done ++ bs)) \/
  (exists e, check_backends bs s = Throw e) /\ ~ backends_ok (done ++ bs).
Proof.
  induction bs as [|b bs IH]; intros s done Hr Hok; cbn [check_backends].
  { left. rewrite app_nil_r. by exists s. }
  replace (done ++ b :: bs) with ((done ++ [b]) ++ bs) by by rewrite <- app_assoc.
  destruct (check_backend_iff b s done Hr Hok) as [(s1 & -> & Hr1 & Hok1)|[[e ->] Hno]]; cbn [rbind].
  - by apply IH.
  - right. split; [by eexists|]. by intros H%backends_ok_app_l.
Qed.

Lemma check_routes_iff rs : forall seenPaths s done, represents s done -> backends_ok done ->
  check_routes rs seenPaths s = Ok tt <->
  NoDup (map path rs) /\ (forall p, p ∈ map path rs -> p ∉ seenPaths) /\ backends_ok (done ++ concat (map backends_of rs)).
Proof.
  induction rs as [|r rs IH]; intros seenPaths s done Hr Hok; cbn [check_routes map concat].
  { rewrite app_nil_r. split; [intros _|done]. split; [constructor|]. split; [|done]. intros p Hp. by apply not_elem_of_nil in Hp. }
  rewrite NoDup_cons. destruct (bool_decide_reflect (path r ∈ seenPaths)) as [Hp|Hp].
  { split; [done|]. intros (_ & Hx & _). by destruct (Hx (path r)); [left|]. }
  assert (E : (forall p, p ∈ path r :: map path rs -> p ∉ seenPaths) /\ path r ∉ map path rs <->
              (forall p, p ∈ map path rs -> p ∉ path r :: seenPaths)).
  { split.
    - intros [Hx Hn] p Hin. apply not_elem_of_cons. split; [by intros ->|]. apply Hx. by right.
    - intros Hx. split; [|intros Hin; apply (Hx _ Hin); by left]. intros p Hin%elem_of_cons. destruct Hin as [->|Hin]; [done|].
      apply Hx, not_elem_of_cons in Hin. tauto. }
  rewrite app_assoc. destruct (check_backends_iff (backends_of r) s done Hr Hok) as [(s1 & -> & Hr1 & Hok1)|[[e ->] Hno]]; cbn [rbind].
  - rewrite (IH _ _ _ Hr1 Hok1). tauto.
  - split; [done|]. intros (_ & _ & H%backends_ok_app_l). done.
Qed.

(** C18: Validation accepts exactly the sound manifests: no two routes share a path; over all the backends,
    tool names are unique and start with their backend's prefix, two backends with one prefix both
    have claims, and a dynamic backend has a prefix or claims. *)
Theorem validate_iff g : validate g = Ok tt <-> manifest_ok g.
Proof.
  unfold validate, manifest_ok. rewrite (check_routes_iff (routes g) [] _ []).
  - cbn [app]. split; [by intros (? & _ & ?)|]. intros [? ?]. split; [done|]. split; [|done]. intros p _. apply not_elem_of_nil.
  - split; intros ?; cbn [seenPrefixes seenClaimsPrefixes seenToolNames map concat].
    + split; [intros H; by apply not_elem_of_nil in H|]. intros [_ (b & H & _)]. by apply not_elem_of_nil in H.
    + split; [intros H; by apply not_elem_of_nil in H|]. intros [_ (b & H & _)]. by apply not_elem_of_nil in H.
    + done.
  - split; [constructor|]. split; [constructor|]. constructor.
Qed.

(** ** Which backend a tool's name reaches *)

Definition tb_claims (b : ToolBackend) : list jsstr := match tb_kind b with McpProxyToolBackend spec => McpProxy.claims spec | _ => [] end.
Definition tb_strip (b : ToolBackend) : jsstr := match tb_kind b with McpProxyToolBackend spec => McpProxy.stripPrefix spec | _ => [] end.

(** The first backend that handles a name, as the route's call of a tool finds it. *)
Definition first_handler (bs : list ToolBackend) (toolName : jsstr) : option (nat * ToolBackend) :=
  list_find (fun b => handles b toolName = true) bs.

(** A name a backend with claims takes: one it claims, or one that continues its prefix to one. *)
Definition claims_name (b : ToolBackend) (n : jsstr) : Prop :=
  n ∈ tb_claims b \/ tb_strip b <> [] /\ exists c, n = tb_strip b ++ c /\ c ∈ tb_claims b.

Lemma traverse_Forall2 {A B E} (f : A -> result E B) l bs :
  traverse f l = Ok bs <-> Forall2 (fun a b => f a = Ok b) l bs.
Proof.
  revert bs. induction l as [|a l IH]; intros bs; cbn [traverse].
  - split; [intros [= <-]; constructor|by inversion 1].
  - split.
    + intros (b & Ea & (bs' & Eb & [= <-])%rbind_ok)%rbind_ok. constructor; [done|by apply IH].
    + inversion 1 as [|? b ? bs' Ea Eb]; subst. rewrite Ea. cbn [rbind]. by rewrite (proj2 (IH _) Eb).
Qed.

Lemma toolsFromSpecs_names specs ts : McpProxy.toolsFromSpecs specs = Ok ts -> map McpRoute.t_name ts = map McpProxy.s_name specs.
Proof.
  revert ts. induction specs as [|s specs IH]; intros ts; cbn [McpProxy.toolsFromSpecs]; [by intros [= <-]|].
  unfold McpProxy.toolFromSpec.
  intros (t & (v & _ & [= <-])%rbind_ok & (ts' & Es & [= <-])%rbind_ok)%rbind_ok.
  cbn [map]. unfold McpProxy.make_tool at 1. cbn [McpRoute.t_name]. by rewrite (IH _ Es).
Qed.

(** What the runtime backend keeps of the manifest's. *)
Lemma toToolBackend_spec b tb : toToolBackend b = Ok tb ->
  tb_prefix tb = handlesPrefix b /\ map McpRoute.t_name (tb_tools tb) = tool_names b /\ tb_claims tb = claims_of (b_kind b) /\
  (forall spec, tb_kind tb = McpProxyToolBackend spec -> McpProxy.handlesPrefix spec = handlesPrefix b /\ McpProxy.assertedTools spec = tb_tools tb).
Proof.
  unfold toToolBackend. destruct (McpProxy.toolsFromSpecs _) as [ts|] eqn:E; [|done]. intros [= <-].
  cbn [tb_prefix tb_tools tb_kind]. split; [done|]. split; [by apply toolsFromSpecs_names|].
  unfold tb_claims, tool_kind_of, claims_of. cbn [tb_kind].
  destruct (b_kind b); (split; [done|]); intros spec'; [done|intros [= <-]; by split|done..].
Qed.

(** [handles], by the claims and the prefix alone. *)
Lemma handles_iff b tb n : toToolBackend b = Ok tb ->
  handles tb n = true <->
  (tb_claims tb <> [] /\ claims_name tb n) \/
  (tb_claims tb = [] /\ tb_prefix tb <> [] /\ starts_with (tb_prefix tb) n = true) \/
  (tb_claims tb = [] /\ tb_prefix tb = [] /\ n ∈ map McpRoute.t_name (tb_tools tb)).
Proof.
  intros Et. destruct (toToolBackend_spec b tb Et) as (Ep & _ & _ & Hs). unfold handles.
  assert (Hb : tb_claims tb = [] -> Backends.handles (tb_prefix tb) (tb_tools tb) n = true <->
    (tb_claims tb <> [] /\ claims_name tb n) \/
    (tb_claims tb = [] /\ tb_prefix tb <> [] /\ starts_with (tb_prefix tb) n = true) \/
    (tb_claims tb = [] /\ tb_prefix tb = [] /\ n ∈ map McpRoute.t_name (tb_tools tb))).
  { intros Hc. unfold Backends.handles. destruct (bool_decide_reflect (tb_prefix tb = [])); rewrite ?bool_decide_eq_true; tauto. }
  destruct (tb_kind tb) as [d|spec|sb|sock|l] eqn:Ek; try (apply Hb; unfold tb_claims; by rewrite Ek). clear Hb.
  destruct (Hs spec eq_refl) as [Ehp Ets]. unfold claims_name, tb_claims, tb_strip. rewrite !Ek, Ep, <- Ets, <- Ehp.
  unfold McpProxy.handles_name, McpProxy.has_claims, McpProxy.assertedNames. cbn [McpProxy.derivedByUpstreamName McpProxy.initial map].
  rewrite (bool_decide_false (n ∈ [])) by apply not_elem_of_nil. rewrite orb_false_r.
  destruct (bool_decide_reflect (McpProxy.claims spec = [])) as [Hc|Hc]; cbn [negb].
  - destruct (bool_decide_reflect (McpProxy.handlesPrefix spec = [])) as [Hp|Hp]; cbn [negb]; rewrite ?bool_decide_eq_true; tauto.
  - assert (Hclaims : n ∈ McpProxy.claims spec \/
        McpProxy.stripPrefix spec <> [] /\ (exists c, n = McpProxy.stripPrefix spec ++ c /\ c ∈ McpProxy.claims spec) <->
        (if bool_decide (n ∈ McpProxy.claims spec) then true
         else if negb (bool_decide (McpProxy.stripPrefix spec = [])) && starts_with (McpProxy.stripPrefix spec) n
              then bool_decide (drop (length (McpProxy.stripPrefix spec)) n ∈ McpProxy.claims spec) else false) = true).
    { destruct (bool_decide_reflect (n ∈ McpProxy.claims spec)) as [Hn|Hn]; [tauto|].
      destruct (bool_decide_reflect (McpProxy.stripPrefix spec = [])) as [Hsp|Hsp]; cbn [negb andb]; [split; [intros [?|[? _]]; done|done]|].
      destruct (starts_with (McpProxy.stripPrefix spec) n) eqn:Es.
      - apply starts_with_iff in Es as [c ->]. rewrite drop_app_length, bool_decide_eq_true. split.
        + intros [?|(_ & c' & E & ?)]; [done|]. by apply app_inv_head in E as ->.
        + intros Hin. right. split; [done|]. by exists c.
      - split; [|done]. intros [?|(_ & c' & -> & _)]; [done|]. exfalso.
        assert (starts_with (McpProxy.stripPrefix spec) (McpProxy.stripPrefix spec ++ c') = true) by (apply starts_with_iff; by exists c').
        congruence. }
    rewrite <- Hclaims. tauto.
Qed.

Lemma ForallOrdPairs_lookup {A} (P : A -> A -> Prop) l i j a b :
  ForallOrdPairs P l -> l !! i = Some a -> l !! j = Some b -> (i < j)%nat -> P a b.
Proof.
  intros Hl. revert i j. induction Hl as [|x l Hx Hl IH]; intros i j Hi Hj Hlt; [done|].
  destruct j as [|j]; [lia|]. destruct i as [|i]; cbn in *.
  - injection Hi as ->. rewrite Forall_forall in Hx. apply Hx. by eapply list_elem_of_lookup_2.
  - apply (IH i j); [done|done|lia].
Qed.

Lemma NoDup_concat_lookup {A} (ls : list (list A)) i j a b x :
  NoDup (concat ls) -> ls !! i = Some a -> ls !! j = Some b -> x ∈ a -> x ∈ b -> (i < j)%nat -> False.
Proof.
  revert i j. induction ls as [|l ls IH]; intros i j Hnd Hi Hj Ha Hb Hlt; [done|]. cbn [concat] in Hnd.
  apply NoDup_app in Hnd as (_ & Hd & Hnd). destruct j as [|j]; [lia|]. destruct i as [|i]; cbn in Hi, Hj.
  - injection Hi as ->. apply (Hd x Ha). apply list_elem_of_In, in_concat. exists b. split; [|by apply list_elem_of_In].
    apply list_elem_of_In. by eapply list_elem_of_lookup_2.
  - apply (IH i j); try done. lia.
Qed.

Lemma backends_ok_app_r done bs : backends_ok (done ++ bs) -> backends_ok bs.
Proof.
  unfold backends_ok. rewrite Forall_app, map_app, concat_app, NoDup_app. intros ([_ Hf] & Hp & (_ & _ & Hn)).
  split; [done|]. split; [|done]. clear -Hp. induction done as [|d done IH]; [done|]. inversion Hp; subst. by apply IH.
Qed.

Lemma backends_ok_route g r : backends_ok (all_backends g) -> r ∈ routes g -> backends_ok (backends_of r).
Proof.
  unfold all_backends. intros Hok (l1 & l2 & E)%list_elem_of_split. rewrite E, map_app, concat_app in Hok. cbn [map concat] in Hok.
  by apply backends_ok_app_r, backends_ok_app_l in Hok.
Qed.

Lemma instantiate_ok new_url g es : instantiate new_url g = Ok es ->
  manifest_ok g /\ Forall2 (fun r e => toEdgeRoute new_url r g = Ok e) (routes g) es.
Proof. intros ([] & Hv%validate_iff & Ht%traverse_Forall2)%rbind_ok. by split. Qed.

Lemma toEdgeRoute_mcp new_url r g bs v : toEdgeRoute new_url r g = Ok (McpEdgeRoute bs v) ->
  path r = js "/mcp" /\ Forall2 (fun b tb => toToolBackend b = Ok tb) (backends_of r) bs.
Proof.
  unfold toEdgeRoute, backends_of, at_path. destruct (kind r); try (repeat case_match; discriminate).
  - case_bool_decide; [|discriminate]. intros (bs' & E & [= <- _])%rbind_ok. split; [done|]. by apply traverse_Forall2.
Qed.

(** A name reaches the backend that asserts it, or one that an earlier declaration puts in front.
    In the table of an accepted manifest, a tool that a backend without claims asserts is found by the
    route: at that backend, unless an earlier one has claims and claims the name, or has no claims and
    another prefix that the name starts with as well.  *)
Theorem asserted_tool_is_found new_url g es bs v i b t :
  instantiate new_url g = Ok es -> McpEdgeRoute bs v ∈ es ->
  bs !! i = Some b -> t ∈ tb_tools b -> tb_claims b = [] ->
  exists j b', first_handler bs (McpRoute.t_name t) = Some (j, b') /\
    (j = i \/
     (j < i)%nat /\
     ((tb_claims b' <> [] /\ claims_name b' (McpRoute.t_name t)) \/
      (tb_claims b' = [] /\ tb_prefix b' <> [] /\ tb_prefix b' <> tb_prefix b /\
       starts_with (tb_prefix b') (McpRoute.t_name t) = true))).
Proof.
  intros ([_ Hok] & Hes)%instantiate_ok Hin Hi Ht Hc. set (n := McpRoute.t_name t).
  apply list_elem_of_lookup in Hin as [k Hk]. destruct (Forall2_lookup_r _ _ _ _ _ Hes Hk) as (r & Hr & He).
  apply toEdgeRoute_mcp in He as [_ Hbs]. apply (backends_ok_route g r) in Hok; [|by eapply list_elem_of_lookup_2].
  destruct Hok as (Hf & Hpairs & Hnd).
  destruct (Forall2_lookup_r _ _ _ _ _ Hbs Hi) as (mb & Hmb & Eb). destruct (toToolBackend_spec mb b Eb) as (Ep & En & Ecl & _).
  assert (Hn : n ∈ tool_names mb) by (rewrite <- En; by apply list_elem_of_fmap_2).
  assert (Hown : handles b n = true).
  { apply (handles_iff mb b n Eb). right. destruct (decide (tb_prefix b = [])) as [Hp|Hp]; [right|left].
    - by rewrite En.
    - split; [done|]. split; [done|]. rewrite Forall_forall in Hf.
      destruct (Hf mb) as [_ Hs]; [by eapply list_elem_of_lookup_2|]. rewrite Forall_forall in Hs. rewrite Ep in *. by apply Hs. }
  unfold first_handler. destruct (list_find (fun b => handles b n = true) bs) as [[j b']|] eqn:Ef.
  2: { apply list_find_None in Ef. rewrite Forall_forall in Ef. exfalso. apply (Ef b); [by eapply list_elem_of_lookup_2|done]. }
  exists j, b'. split; [done|]. apply list_find_Some in Ef as (Hj & Hh & Hfirst).
  destruct (decide (j = i)) as [->|Hne]; [by left|]. right.
  assert (Hlt : (j < i)%nat) by (destruct (decide (i < j)%nat) as [Hij|]; [exfalso; by apply (Hfirst i b Hi Hij)|lia]).
  split; [done|]. destruct (Forall2_lookup_r _ _ _ _ _ Hbs Hj) as (mb' & Hmb' & Eb').
  destruct (toToolBackend_spec mb' b' Eb') as (Ep' & En' & Ecl' & _).
  apply (handles_iff mb' b' n Eb') in Hh as [Hcl|[(Hc' & Hp' & Hs')|(Hc' & _ & Hin')]]; [by left| |].
  - right. split; [done|]. split; [done|]. split; [|done]. intros E.
    destruct (ForallOrdPairs_lookup _ _ _ _ _ _ Hpairs Hmb' Hmb Hlt) as [Hh' _]; [congruence|congruence|].
    unfold has_claims in Hh'. by rewrite <- Ecl', Hc' in Hh'.
  - exfalso. rewrite En' in Hin'. eapply (NoDup_concat_lookup _ j i (tool_names mb') (tool_names mb) n Hnd); try done.
    + by rewrite list_lookup_fmap, Hmb'.
    + by rewrite list_lookup_fmap, Hmb.
Qed.

(** ** The registry *)

Definition named (s : VaultProxy.VaultProxyService) : jsstr * VaultProxy.VaultProxyService := (VaultProxy.name s, s).

Lemma assoc_named k svcs : assoc k (map named svcs) = None <-> k ∉ map VaultProxy.name svcs.
Proof.
  induction svcs as [|s svcs IH]; cbn [map assoc named]; [split; [intros _; apply not_elem_of_nil|done]|].
  rewrite not_elem_of_cons. case_decide; [split; [done|by intros []]|]. rewrite IH. tauto.
Qed.

Lemma assoc_named_in s svcs : NoDup (map VaultProxy.name svcs) -> s ∈ svcs -> assoc (VaultProxy.name s) (map named svcs) = Some s.
Proof.
  induction svcs as [|s' svcs IH]; cbn [map assoc named]; [intros _ H; by apply not_elem_of_nil in H|].
  intros [Hn Hnd]%NoDup_cons Hs%elem_of_cons. case_decide as E.
  - destruct Hs as [->|Hs]; [done|]. exfalso. apply Hn. rewrite <- E. by apply list_elem_of_fmap_2.
  - destruct Hs as [->|Hs]; [done|by apply IH].
Qed.

Lemma build_iff new_url cfgs : forall before m, NoDup (map VaultProxy.name before) ->
  build new_url cfgs (map named before) = Ok m <->
  exists svcs, Forall2 (fun c s => toRouteVaultProxyService new_url c = Ok s) cfgs svcs /\
    NoDup (map VaultProxy.name (before ++ svcs)) /\ m = map named (before ++ svcs).
Proof.
  induction cfgs as [|c cfgs IH]; intros before m Hb; cbn [build].
  { split.
    - intros [= <-]. exists []. rewrite app_nil_r. by split.
    - intros (svcs & Hs & _ & ->). inversion Hs; subst. by rewrite app_nil_r. }
  assert (Ex : (exists svcs, Forall2 (fun c s => toRouteVaultProxyService new_url c = Ok s) (c :: cfgs) svcs /\
      NoDup (map VaultProxy.name (before ++ svcs)) /\ m = map named (before ++ svcs)) <->
    exists s, toRouteVaultProxyService new_url c = Ok s /\ NoDup (map VaultProxy.name (before ++ [s])) /\
      exists svcs, Forall2 (fun c s => toRouteVaultProxyService new_url c = Ok s) cfgs svcs /\
        NoDup (map VaultProxy.name ((before ++ [s]) ++ svcs)) /\ m = map named ((before ++ [s]) ++ svcs)).
  { split.
    - intros (svcs & Hs & Hnd & ->). inversion Hs as [|? s ? svcs' Es Hs']; subst. exists s. split; [done|].
      split; [|exists svcs'; rewrite <- app_assoc; by split].
      replace (before ++ s :: svcs') with ((before ++ [s]) ++ svcs') in Hnd by by rewrite <- app_assoc.
      rewrite map_app in Hnd. by apply NoDup_app in Hnd as [? _].
    - intros (s & Es & _ & svcs & Hs & Hnd & ->). exists (s :: svcs). rewrite <- app_assoc in *. split; [by constructor|by split]. }
  rewrite Ex. destruct (toRouteVaultProxyService new_url c) as [s|e]; cbn [rbind].
  2: { split; [done|]. by intros (s & ? & _). }
  assert (Hdup : is_Some (assoc (VaultProxy.name s) (map named before)) <-> ~ NoDup (map VaultProxy.name (before ++ [s]))).
  { rewrite map_app, NoDup_app. cbn [map]. rewrite <- not_eq_None_Some, assoc_named. split.
    - intros Hin (_ & Hd & _). apply Hin. intros H. by apply (Hd _ H), list_elem_of_singleton.
    - intros Hn Hin. apply Hn. split; [done|]. split; [|apply NoDup_singleton]. intros x Hx E%list_elem_of_singleton. by subst. }
  destruct (bool_decide_reflect (is_Some (assoc (VaultProxy.name s) (map named before)))) as [Hd|Hd].
  - split; [done|]. intros (s' & [= <-] & Hnd & _). by apply Hdup in Hd.
  - assert (Hnd : NoDup (map VaultProxy.name (before ++ [s]))) by (apply dec_stable; by rewrite <- Hdup).
    change [(VaultProxy.name s, s)] with (map named [s]). rewrite <- map_app, (IH _ m Hnd). split.
    + intros Hs. exists s. by split.
    + by intros (s' & [= <-] & _ & Hs).
Qed.

(** An injection that cannot fail on account of what the manifest says. *)
Definition injection_ok (i : VaultProxy.InjectionStrategy) : Prop :=
  match i with
  | VaultProxy.headerNamed n =>
      forall cred h, Vault.value_ok (Vault.normalize cred) = true -> is_Some (Vault.headers_set n cred h)
  | VaultProxy.queryParam n => n <> []
  | VaultProxy.bodyField p => [] ∉ split_on VaultProxy.DOT p
  | _ => True
  end.

Lemma toRouteInjection_ok inj n i : toRouteInjection inj n = Ok i -> injection_ok i.
Proof.
  destruct inj as [| |[[|c h]|]|[[|c q]|]|[[|c p]|]|]; cbn [toRouteInjection]; try (intros [= <-]; cbn [injection_ok]; done); try done.
  - destruct (HTTP_HEADER_TOKEN_RE (c :: h)) eqn:E; [|done]. intros [= <-] cred hs Hv. unfold HTTP_HEADER_TOKEN_RE in E.
    unfold Vault.headers_set. rewrite E, Hv. by eexists.
  - case_bool_decide as E; [done|]. intros [= <-]. exact E.
Qed.

Lemma toRouteVaultProxyService_ok new_url c s : toRouteVaultProxyService new_url c = Ok s ->
  VaultProxy.name s <> [] /\ has_slash (VaultProxy.name s) = false /\
  (exists u, new_url (VaultProxy.upstreamBaseUrl s) = Some u /\ search u = [] /\ hash u = [] /\
     (protocol u = js "http:" \/ protocol u = js "https:")) /\
  0 <= VaultProxy.rateLimitPerMinute s /\ injection_ok (VaultProxy.injection s) /\
  VaultProxy.defaultAllowedSubs s = default [] (c_defaultAllowedSubs c) /\ VaultProxy.name s = default [] (c_name c).
Proof.
  unfold toRouteVaultProxyService. case_bool_decide as En; [done|]. destruct (has_slash _) eqn:Eh; [done|]. case_bool_decide; [done|].
  destruct (new_url _) as [u|] eqn:Eu; [|done]. destruct (_ && _) eqn:Ep; [done|]. destruct (_ || _) eqn:Eq; [done|].
  destruct (c_rateLimitPerMinute c) as [| | |rate]; try done. destruct (Z.ltb_spec rate 0); [done|].
  intros (i & Ei & [= <-])%rbind_ok.
  cbn [VaultProxy.name VaultProxy.upstreamBaseUrl VaultProxy.rateLimitPerMinute VaultProxy.injection VaultProxy.defaultAllowedSubs].
  apply orb_false_iff in Eq as [Es Ehs]. apply negb_false_iff, bool_decide_eq_true in Es, Ehs.
  do 2 (split; [done|]). split; [|split; [done|]; split; [by eapply toRouteInjection_ok|done]].
  exists u. do 3 (split; [done|]). apply andb_false_iff in Ep. rewrite !negb_false_iff, !bool_decide_eq_true in Ep. tauto.
Qed.

(** The registry is sound and complete for what its services promise.  It is built exactly when every
    entry is accepted and names are unique, and a declared service is found under its name; it has a
    base URL over HTTP with no query, a limit that is not negative, and an injection that the manifest
    cannot make fail; and some path reaches it exactly when its name is one that the route's path
    parser accepts. *)
Theorem registry_serves new_url cfgs m :
  buildServiceRegistry new_url cfgs = Ok m ->
  length m = length cfgs /\
  forall i c, cfgs !! i = Some c ->
    exists s, m !! i = Some (VaultProxy.name s, s) /\ assoc (VaultProxy.name s) m = Some s /\
      Some (VaultProxy.name s) = c_name c /\
      VaultProxy.defaultAllowedSubs s = default [] (c_defaultAllowedSubs c) /\
      (exists u, new_url (VaultProxy.upstreamBaseUrl s) = Some u /\ search u = [] /\ hash u = [] /\
         (protocol u = js "http:" \/ protocol u = js "https:")) /\
      0 <= VaultProxy.rateLimitPerMinute s /\ injection_ok (VaultProxy.injection s) /\
      ((exists p rest, VaultProxy.parseVaultProxyPath p = Some (VaultProxy.name s, rest)) <->
       VaultProxy.isValidServiceName (VaultProxy.name s) = true).
Proof.
  unfold buildServiceRegistry. intros (svcs & Hs & Hnd & ->)%(build_iff new_url cfgs []); [|constructor]. cbn [app] in *.
  split; [rewrite length_map; symmetry; by apply Forall2_length in Hs|]. intros i c Hi.
  destruct (Forall2_lookup_l _ _ _ _ _ Hs Hi) as (s & Hsi & Es). exists s.
  pose proof (toRouteVaultProxyService_ok new_url c s Es) as (Hn & _ & Hu & Hr & Hi' & Ha & Hname).
  split; [by rewrite list_lookup_fmap, Hsi|]. split; [apply assoc_named_in; [done|by eapply list_elem_of_lookup_2]|].
  split; [rewrite Hname in *; by destruct (c_name c)|].
  do 4 (split; [done|]). split.
  - intros (p & rest & E). by apply VaultProxy.path_parse_iff in E as (_ & ? & _).
  - intros Hv. exists (VaultProxy.PATH_PREFIX ++ VaultProxy.name s ++ []), []. apply VaultProxy.path_parse_iff.
    split; [done|]. split; [done|by left].
Qed.

(** ** The generic proxy *)

Lemma literal_escape s : literal_pattern (escapeRegex s) = Some s.
Proof.
  unfold escapeRegex. induction s as [|c s IH]; [done|]. cbn [map concat].
  destruct (bool_decide_reflect (c ∈ SPECIAL)) as [Hc|Hc]; cbn [app literal_pattern].
  - cbn [Z.eqb BACKSLASH Pos.eqb]. rewrite bool_decide_true by done. by rewrite IH.
  - destruct (Z.eqb_spec c BACKSLASH) as [->|Hb]; [exfalso; apply Hc; unfold SPECIAL, BACKSLASH; set_solver|].
    rewrite bool_decide_false by done. by rewrite IH.
Qed.

(** The prefix is taken literally, whatever characters it has: a path that starts with it loses it,
    and any other path is kept. *)
Lemma http_reference_strips stripPrefix rest search : stripPrefix <> [] ->
  http_reference stripPrefix (stripPrefix ++ rest) search = Some (match rest with [] => js "/" | _ => rest end ++ search).
Proof.
  intros Hne. unfold http_reference, remove_at_start. rewrite bool_decide_false by done. rewrite literal_escape.
  cbn [mbind option_bind]. rewrite (proj2 (starts_with_iff _ _)) by by exists rest. by rewrite drop_app_length.
Qed.

Lemma http_reference_keeps stripPrefix pathname search : starts_with stripPrefix pathname = false -> pathname <> [] ->
  http_reference stripPrefix pathname search = Some (pathname ++ search).
Proof.
  intros Hs Hp. unfold http_reference, remove_at_start. destruct (bool_decide _) eqn:E; [done|].
  rewrite literal_escape. cbn [mbind option_bind]. rewrite Hs. by destruct pathname.
Qed.

(** The path of a request may go on with two slashes after the prefix.  What is left is then resolved
    as a reference that names a host of its own, and the configured upstream gives the scheme alone. *)
Lemma http_reference_names_a_host stripPrefix host_and_path : stripPrefix <> [] ->
  http_reference stripPrefix (stripPrefix ++ js "//" ++ host_and_path) [] = Some (js "//" ++ host_and_path).
Proof. intros Hne. rewrite http_reference_strips by done. cbn [js app]. by rewrite app_nil_r. Qed.

(** ** A concrete manifest *)

Section demo.

#[local] Definition tool (n : string) : McpProxy.McpToolSpec := McpProxy.mkToolSpec (js n) [] (js "{}").
#[local] Definition kv : Backend := mkBackend (js "kv") (js "kv_") (durableObject (js "KV") (js "key") [tool "kv_get"]).
#[local] Definition kv_admin : Backend :=
  mkBackend (js "kv-admin") (js "kv_admin_") (serviceBinding (js "ADMIN") [tool "kv_admin_wipe"]).
#[local] Definition claiming (tools : list McpProxy.McpToolSpec) (claims : list jsstr) : Backend :=
  mkBackend (js "up") (js "up_") (mcpProxy (mkHttpForward (js "UP") tools (Some true) None None None None (Some claims))).
#[local] Definition service (n : string) : VaultProxyServiceConfig :=
  mkServiceConfig (Some (js n)) (Some (js "https://api.example")) None (Whole 5) (headerNamed (Some (js "x-api-key"))).
#[local] Definition gateway (bs : list Backend) (services : list VaultProxyServiceConfig) : GatewaySpec :=
  mkGateway [mkRoute (js "/health") health; mkRoute (js "/mcp") (mcp bs); mkRoute (js "/vault") (vaultProxy [])] None (Some services).
#[local] Definition parsed (_ : jsstr) : option base_url := Some (mkBase (js "https:") [] []).

#[local] Definition routed (bs : list Backend) (n : string) : option nat :=
  match traverse toToolBackend bs with Ok tbs => fst <$> first_handler tbs (js n) | Throw _ => None end.

(** The manifest is accepted, and the second backend's tool is answered by the first. *)
Example nested_prefix_shadows :
  validate (gateway [kv; kv_admin] []) = Ok tt /\
  routed [kv; kv_admin] "kv_admin_wipe" = Some 0%nat /\ routed [kv_admin; kv] "kv_admin_wipe" = Some 0%nat.
Proof. repeat split; vm_compute; reflexivity. Qed.

(** An asserted tool that its own backend does not claim is listed and reaches no backend. *)
Example unclaimed_tool_is_lost :
  validate (gateway [claiming [tool "up_extra"] [js "echo"]] []) = Ok tt /\
  routed [claiming [tool "up_extra"] [js "echo"]] "up_extra" = None.
Proof. split; vm_compute; reflexivity. Qed.

(** A service is declared under a name that no path reaches. *)
Example capital_service_is_unreachable :
  match buildServiceRegistry parsed [service "OpenAI"] with Ok m => map fst m | Throw _ => [] end = [js "OpenAI"] /\
  VaultProxy.parseVaultProxyPath (js "/vault/proxy/OpenAI/v1/models") = None.
Proof. split; vm_compute; reflexivity. Qed.

(** A request under a stripped prefix names the host it is forwarded to. *)
Example proxy_resolves_a_host resolve :
  http_handle resolve (js "ROSARY_URL") (js "/rosary") (fun _ => Some (js "https://rosary.example"))
    (js "/rosary//evil.example/x") [] =
  match resolve (js "//evil.example/x") (js "https://rosary.example") with
  | Some target => Fetched target
  | None => TypeErrorThrew
  end.
Proof. reflexivity. Qed.

Lemma asserted_tool_is_found_witness :
  exists es bs v b t j b', instantiate parsed (gateway [kv; kv_admin] []) = Ok es /\ McpEdgeRoute bs v ∈ es /\
    bs !! 1%nat = Some b /\ t ∈ tb_tools b /\ first_handler bs (McpRoute.t_name t) = Some (j, b').
Proof.
  destruct (instantiate parsed (gateway [kv; kv_admin] [])) as [es|] eqn:E; [|by vm_compute in E].
  pose proof E as E'. vm_compute in E'. injection E' as <-.
  eexists _, _, _, _, _.
  lazymatch type of E with _ = Ok [?h; McpEdgeRoute [?b1; ?b2] ?v; ?p] =>
    destruct (asserted_tool_is_found parsed (gateway [kv; kv_admin] []) [h; McpEdgeRoute [b1; b2] v; p] [b1; b2] v 1 b2
                (McpRoute.mkTool (js "kv_admin_wipe") [(js "description", JStr []); (js "inputSchema", JObj [])])) as (j & b' & Hf & _)
  end; [exact E|right; left|reflexivity|left|reflexivity|].
  exists j, b'. split; [exact E|]. split; [right; left|]. split; [reflexivity|]. split; [left|]. exact Hf.
Defined.

Lemma registry_serves_witness :
  match buildServiceRegistry parsed [service "openai"; service "github"] with Ok m => length m = 2%nat | Throw _ => False end.
Proof.
  destruct (buildServiceRegistry parsed [service "openai"; service "github"]) as [m|] eqn:E; [|by vm_compute in E].
  exact (proj1 (registry_serves parsed _ m E)).
Defined.
End demo.

End Gateway.
