(* ===== verification/Zod.v ===== *)
(** The schema of a cluster (src/generated/cluster.zod.ts): the part of the schema language that the
    generator emits, with its [parse], and the schemas themselves.

    An absent key is [None]; every leaf carries its default, an object and a union carry none. *)
From S2P Require Import Prelude JsString Sql Json JsonText Canonical.

Module Zod.
Import Canonical.

Inductive Schema :=
  | Str                                     (** [z.string().default("")] *)
  | Bool (d : bool)                         (** [z.boolean().default(d)] *)
  | Uint                                    (** [z.number().int().nonnegative().default(0)] *)
  | Enum (values : list jsstr) (d : jsstr)  (** [z.enum(values).default(d)] *)
  | Null                                    (** [z.null()] *)
  | Arr (s : Schema)                        (** [z.array(s).readonly().default([])] *)
  | Obj (fields : list (jsstr * Schema))    (** [z.object({...}).strict()] *)
  | OneOf (variants : list (jsstr * Schema)).  (** [z.union] of strict objects of one key *)

Definition MAX_SAFE_INTEGER : Z := 9007199254740991.

Definition declared (ks : list jsstr) (k : jsstr) : bool := bool_decide (k ∈ ks).

(** [schema.parse(v)]; the output has the keys of the schema in its order. *)
Fixpoint parse (s : Schema) (v : option Json) : option Json :=
  match s with
  | Str => match v with None => Some (JStr []) | Some (JStr t) => Some (JStr t) | _ => None end
  | Bool d => match v with None => Some (JBool d) | Some (JBool b) => Some (JBool b) | _ => None end
  | Uint =>
      match v with
      | None => Some (JNum 0)
      | Some (JNum z) => if (0 <=? z) && (z <=? MAX_SAFE_INTEGER) then Some (JNum z) else None
      | _ => None
      end
  | Enum values d =>
      match v with
      | None => Some (JStr d)
      | Some (JStr t) => if bool_decide (t ∈ values) then Some (JStr t) else None
      | _ => None
      end
  | Null => match v with Some JNull => Some JNull | _ => None end
  | Arr s =>
      match v with
      | None => Some (JArr [])
      | Some (JArr l) =>
          xs ← (fix go l := match l with
                | [] => Some []
                | x :: l => y ← parse s (Some x); ys ← go l; Some (y :: ys)
                end) l;
          Some (JArr xs)
      | _ => None
      end
  | Obj fields =>
      match v with
      | Some (JObj m) =>
          if forallb (fun kv => declared (map fst fields) kv.1) m then
            kvs ← (fix go fields := match fields with
                   | [] => Some []
                   | (k, s) :: fields => y ← parse s (assoc k m); ys ← go fields; Some ((k, y) :: ys)
                   end) fields;
            Some (JObj kvs)
          else None
      | _ => None
      end
  | OneOf variants =>
      match v with
      | Some (JObj m) =>
          (fix go variants := match variants with
           | [] => None
           | (k, s) :: variants =>
               if forallb (fun kv => declared [k] kv.1) m then
                 match parse s (assoc k m) with Some y => Some (JObj [(k, y)]) | None => go variants end
               else go variants
           end) variants
      | _ => None
      end
  end.

(** ** The generated schemas *)

Definition fields (l : list (string * Schema)) : Schema := Obj (map (fun '(k, s) => (js k, s)) l).
Definition union (l : list (string * Schema)) : Schema := OneOf (map (fun '(k, s) => (js k, s)) l).

Definition TierSchema : Schema := Enum [js "hypervisor"; js "cluster"] (js "hypervisor").
Definition ClusterMetadataSchema : Schema := fields [("name", Str); ("version", Str)].
Definition StoragePolicySchema : Schema := fields [("doStoragePath", Str)].
Definition EdgeSpecSchema : Schema := fields [("from", Str); ("to", Str); ("appProtocol", Str); ("transport", Str)].
Definition WorkerdBundleSchema : Schema := fields [("entryPoint", Str)].
Definition EnvVarSchema : Schema := fields [("name", Str); ("value", Str)].
Definition ExternalBundleSchema : Schema :=
  fields [("image", Str); ("ipcSocket", Str); ("httpPort", Uint); ("args", Arr Str); ("env", Arr EnvVarSchema);
          ("entryPoint", Str); ("executionMode", Str); ("executionModeRationale", Str)].
Definition FsAllowEntrySchema : Schema := fields [("path", Str); ("mode", Str)].
Definition ConfinementFsSchema : Schema := fields [("allow", Arr FsAllowEntrySchema)].
Definition ConfinementNetworkSchema : Schema := fields [("allowHosts", Arr Str)].
Definition ConfinementPortSchema : Schema := fields [("bind", Uint); ("address", Str)].
Definition ConfinementSchema : Schema :=
  fields [("fs", ConfinementFsSchema); ("network", ConfinementNetworkSchema); ("port", ConfinementPortSchema); ("credentialSource", Str)].
Definition BundleSchema : Schema :=
  fields [("name", Str); ("description", Str); ("tier", TierSchema); ("holdsCredential", Arr Str); ("workerdServiceName", Str);
          ("hypervisorRationale", Str); ("perTenant", Bool false); ("confinement", ConfinementSchema);
          ("kind", union [("workerd", WorkerdBundleSchema); ("external", ExternalBundleSchema)])].
Definition WireSchema : Schema :=
  fields [("from", Str); ("to", Str); ("binding", Str); ("transport", union [("uds", Null); ("leylineNet", Null)])].
Definition TenancySpecSchema : Schema :=
  fields [("mode", Str); ("workerdId", Str); ("trustedTier", Bool false); ("sharesWorkerdWith", Arr Str)].
Definition ConnectionSchema : Schema :=
  fields [("socketPath", Str); ("vaultSlice", Str); ("transport", union [("unset", Null); ("uds", Null)])].
Definition InputSpecSchema : Schema :=
  fields [("name", Str); ("ref", Str); ("version", Str); ("digest", Str); ("from", Str); ("provides", Arr Str); ("requires", Arr Str);
          ("urlBinding", Str); ("serviceBinding", Str); ("tenancy", TenancySpecSchema); ("requiresSessionRetired", Bool false);
          ("connection", ConnectionSchema); ("mutableTagReason", Str)].
Definition McpToolSchema : Schema := fields [("name", Str); ("description", Str); ("inputSchemaJson", Str)].
Definition DoBackendSchema : Schema := fields [("binding", Str); ("keyArg", Str); ("tools", Arr McpToolSchema)].
Definition ServiceBindingBackendSchema : Schema := fields [("binding", Str); ("tools", Arr McpToolSchema)].
Definition UdsForwardBackendSchema : Schema := fields [("socketPath", Str); ("tools", Arr McpToolSchema)].
Definition LeylineNetBackendSchema : Schema := fields [("companionUrlBinding", Str); ("upstreamId", Str); ("tools", Arr McpToolSchema)].
Definition HttpForwardBackendSchema : Schema :=
  fields [("urlBinding", Str); ("tools", Arr McpToolSchema); ("dynamicTools", Bool false); ("stripPrefix", Str);
          ("requiresSession", Bool false); ("protocolMode", Str); ("serviceBinding", Str); ("claims", Arr Str)].
Definition BackendSchema : Schema :=
  fields [("name", Str); ("handlesPrefix", Str);
          ("kind", union [("durableObject", DoBackendSchema); ("serviceBinding", ServiceBindingBackendSchema);
                          ("udsForward", UdsForwardBackendSchema); ("leylineNet", LeylineNetBackendSchema);
                          ("mcpProxy", HttpForwardBackendSchema)])].
Definition McpRouteSpecSchema : Schema := fields [("backends", Arr BackendSchema)].
Definition ServiceBindingProxySpecSchema : Schema := fields [("binding", Str); ("upstreamHost", Str); ("stripPrefix", Str)].
Definition HttpProxySpecSchema : Schema := fields [("urlBinding", Str); ("stripPrefix", Str)].
Definition VaultProxySpecSchema : Schema := fields [("bundleIdName", Str)].
Definition TenantDispatchRowSchema : Schema := fields [("name", Str); ("mode", Str); ("matchValue", Str); ("binding", Str)].
Definition TenantDispatchSpecSchema : Schema := fields [("tenants", Arr TenantDispatchRowSchema)].
Definition RouteSchema : Schema :=
  fields [("path", Str);
          ("kind", union [("health", Null); ("mcp", McpRouteSpecSchema); ("serviceBindingProxy", ServiceBindingProxySpecSchema);
                          ("httpProxy", HttpProxySpecSchema); ("wellKnownInterlace", Null); ("disclosure", Null);
                          ("wellKnownIdentityBridge", Null); ("ociRegistry", Null); ("wellKnownMcpRegistry", Null);
                          ("caBundle", Null); ("vaultProxy", VaultProxySpecSchema); ("tenantDispatch", TenantDispatchSpecSchema)])].
Definition GatewayMetadataSchema : Schema := fields [("name", Str); ("version", Str); ("metaNamespace", Str)].
Definition ActorSchema : Schema :=
  fields [("fingerprint", Str); ("algorithm", Str); ("pubkeyBinding", Str); ("attestationRepo", Str); ("tunnelEndpoint", Str)].
Definition InterlacePolicySchema : Schema := fields [("maxCertLifetimeSeconds", Uint); ("requireInterlock", Bool false); ("minAlgorithm", Str)].
Definition HeaderNamedSpecSchema : Schema := fields [("name", Str)].
Definition QueryParamSpecSchema : Schema := fields [("name", Str)].
Definition BodyFieldSpecSchema : Schema := fields [("path", Str)].
Definition VaultProxyServiceSchema : Schema :=
  fields [("name", Str); ("upstreamBaseUrl", Str); ("defaultAllowedSubs", Arr Str); ("rateLimitPerMinute", Uint);
          ("injection", union [("authorizationBearer", Null); ("authorizationBasic", Null); ("headerNamed", HeaderNamedSpecSchema);
                               ("queryParam", QueryParamSpecSchema); ("bodyField", BodyFieldSpecSchema)])].
Definition HarnessTargetSchema : Schema :=
  fields [("name", Str); ("service", Str); ("entryPoint", Str); ("apiKeyEnv", Str); ("baseUrlEnv", Str); ("stripEnv", Arr Str);
          ("stateDirEnv", Str); ("stateDir", Str); ("authModes", Arr Str); ("provenance", Str); ("executable", Str);
          ("subscriptionTokenEnv", Str)].
Definition SkillDeclarationSchema : Schema := fields [("name", Str); ("digest", Str)].
Definition GatewaySchema : Schema :=
  fields [("metadata", GatewayMetadataSchema); ("actor", ActorSchema); ("policy", InterlacePolicySchema);
          ("vaultProxyServices", Arr VaultProxyServiceSchema); ("harnessTargets", Arr HarnessTargetSchema);
          ("skills", Arr SkillDeclarationSchema)].
Definition ClusterSchema : Schema :=
  fields [("metadata", ClusterMetadataSchema); ("bundles", Arr BundleSchema); ("wires", Arr WireSchema); ("storage", StoragePolicySchema);
          ("inputs", Arr InputSpecSchema); ("routes", Arr RouteSchema); ("gateway", GatewaySchema); ("edges", Arr EdgeSpecSchema)].
Definition GeneratedBackendSchema : Schema :=
  fields [("name", Str); ("input", Str); ("handlesPrefix", Str); ("stripPrefix", Str); ("urlBinding", Str); ("serviceBinding", Str);
          ("dynamicTools", Bool true); ("requiresSession", Bool false); ("claims", Arr Str)].

(** The keys of a strict object, in the order of its shape. *)
Definition shape (s : Schema) : list jsstr := match s with Obj fs => map fst fs | _ => [] end.

(** ** Facts of the schema language *)

Section induction.
Context (P : Schema -> Prop) (HStr : P Str) (HBool : forall d, P (Bool d)) (HUint : P Uint)
  (HEnum : forall vs d, P (Enum vs d)) (HNull : P Null) (HArr : forall s, P s -> P (Arr s))
  (HObj : forall fs, Forall (fun ks => P ks.2) fs -> P (Obj fs))
  (HOneOf : forall vs, Forall (fun ks => P ks.2) vs -> P (OneOf vs)).

Fixpoint schema_ind (s : Schema) : P s :=
  let all := fix go (l : list (jsstr * Schema)) : Forall (fun ks => P ks.2) l :=
    match l with [] => @List.Forall_nil _ _ | ks :: l => @List.Forall_cons _ _ ks l (schema_ind ks.2) (go l) end in
  match s with
  | Str => HStr | Bool d => HBool d | Uint => HUint | Enum vs d => HEnum vs d | Null => HNull
  | Arr s => HArr s (schema_ind s)
  | Obj fs => HObj fs (all fs)
  | OneOf vs => HOneOf vs (all vs)
  end.
End induction.

Definition parse_field (m : list (jsstr * Json)) (ks : jsstr * Schema) : option (jsstr * Json) :=
  y ← parse ks.2 (assoc ks.1 m); Some (ks.1, y).

Lemma parse_arr s l : parse (Arr s) (Some (JArr l)) = xs ← mapM (fun x => parse s (Some x)) l; Some (JArr xs).
Proof. reflexivity. Qed.

Lemma parse_obj fs m : parse (Obj fs) (Some (JObj m)) =
  if forallb (fun kv => declared (map fst fs) kv.1) m then kvs ← mapM (parse_field m) fs; Some (JObj kvs) else None.
Proof.
  cbn [parse]. destruct (forallb _ m); [|done].
  match goal with |- (kvs ← ?go fs; _) = _ => assert (E : forall fs, go fs = mapM (parse_field m) fs) end; [|by rewrite E].
  clear fs. induction fs as [|[k s] fs IH]; [done|]. rewrite IH. cbn [mapM].
  assert (Ef : parse_field m (k, s) = y ← parse s (assoc k m); Some (k, y)) by done. rewrite Ef.
  by destruct (parse s (assoc k m)).
Qed.

Fixpoint parse_variant (vs : list (jsstr * Schema)) (m : list (jsstr * Json)) : option Json :=
  match vs with
  | [] => None
  | (k, s) :: vs =>
      if forallb (fun kv => declared [k] kv.1) m then
        match parse s (assoc k m) with Some y => Some (JObj [(k, y)]) | None => parse_variant vs m end
      else parse_variant vs m
  end.

Lemma parse_oneof vs m : parse (OneOf vs) (Some (JObj m)) = parse_variant vs m.
Proof. induction vs as [|[k s] vs IH]; [done|]. cbn [parse_variant]. by rewrite <- IH. Qed.

(** ** Values that differ in the order of keys alone *)

Definition alike (v w : Json) : Prop := sort_keys v = sort_keys w.

#[global] Instance alike_equivalence : Equivalence alike.
Proof. split; unfold alike; [by intros ?|by intros ?? ->|by intros ??? -> ->]. Qed.

Lemma assoc_map_snd {A B} (f : A -> B) k (m : list (jsstr * A)) :
  assoc k (map (fun kv => (kv.1, f kv.2)) m) = f <$> assoc k m.
Proof. induction m as [|[k' v] m IH]; [done|]. cbn [map assoc fst snd]. by case_decide. Qed.

Lemma assoc_reorder {A} k (m m' : list (jsstr * A)) : NoDup (map fst m) -> m ≡ₚ m' -> assoc k m = assoc k m'.
Proof.
  intros Hn Hp. assert (Hn' : NoDup (map fst m')) by by rewrite <- Hp.
  destruct (assoc k m) as [v|] eqn:E.
  - apply elem_of_assoc in E; [|done]. symmetry. apply elem_of_assoc; [done|]. by rewrite <- Hp.
  - destruct (assoc k m') as [v|] eqn:E'; [|done]. apply elem_of_assoc in E'; [|done].
    rewrite <- Hp in E'. apply elem_of_assoc in E'; [|done]. congruence.
Qed.

Lemma assoc_None {A} k (m : list (jsstr * A)) : assoc k m = None <-> k ∉ map fst m.
Proof.
  induction m as [|[k' v] m IH]; cbn [assoc map fst]; [split; [intros _; apply not_elem_of_nil|done]|].
  rewrite not_elem_of_cons. case_decide; [split; [done|by intros []]|]. rewrite IH. tauto.
Qed.

Lemma alike_obj m w : NoDup (map fst m) -> alike (JObj m) w ->
  exists m', w = JObj m' /\ map fst m' ≡ₚ map fst m /\ forall k, sort_keys <$> assoc k m' = sort_keys <$> assoc k m.
Proof.
  intros Hn. unfold alike. destruct w as [| | | | |m']; cbn [sort_keys]; try done. intros [= E]. exists m'. split; [done|].
  assert (Hp : map (fun kv => (kv.1, sort_keys kv.2)) m' ≡ₚ map (fun kv => (kv.1, sort_keys kv.2)) m).
  { rewrite <- (merge_sort_Permutation key_le (map (fun kv => (kv.1, sort_keys kv.2)) m')).
    unfold Sql.order_by in E. rewrite <- E. apply merge_sort_Permutation. }
  assert (Hk : map fst m' ≡ₚ map fst m).
  { apply (Permutation_map fst) in Hp. by rewrite !map_map in Hp. }
  split; [done|]. intros k. rewrite <- !assoc_map_snd. apply assoc_reorder; [|done].
  rewrite map_map. cbn [fst]. by rewrite Hk.
Qed.

Lemma alike_arr l w : alike (JArr l) w -> exists l', w = JArr l' /\ Forall2 alike l l'.
Proof.
  unfold alike. destruct w as [| | | |l'|]; cbn [sort_keys]; try done. intros [= E]. exists l'. split; [done|].
  revert l' E. induction l as [|x l IH]; intros [|x' l'] E; try discriminate; [constructor|].
  injection E as Ex El. constructor; [done|by apply IH].
Qed.

Lemma distinct_obj m : distinct_keys (JObj m) = true -> NoDup (map fst m) /\ forall k v, assoc k m = Some v -> distinct_keys v = true.
Proof.
  cbn [distinct_keys]. intros [Hn Hd]%andb_prop. apply bool_decide_eq_true in Hn. split; [done|]. intros k v E.
  apply elem_of_assoc in E; [|done]. rewrite forallb_forall in Hd. apply (Hd (k, v)). by apply list_elem_of_In.
Qed.

Lemma forallb_keys {A} (P : jsstr -> bool) (m : list (jsstr * A)) : forallb (fun kv => P kv.1) m = forallb P (map fst m).
Proof. induction m as [|kv m IH]; [done|]. cbn. by rewrite IH. Qed.

Lemma forallb_perm {A} (P : A -> bool) l l' : l ≡ₚ l' -> forallb P l = forallb P l'.
Proof. induction 1; cbn; try congruence. by rewrite !andb_assoc, (andb_comm (P x)). Qed.

Lemma mapM_ext_Forall {A B} (f g : A -> option B) l : Forall (fun x => f x = g x) l -> mapM f l = mapM g l.
Proof. induction 1 as [|x l Hx Hl IH]; [done|]. cbn [mapM]. by rewrite Hx, IH. Qed.

(** A schema does not read the order of keys. *)
Lemma parse_alike s : forall v w, distinct_keys v = true -> alike v w -> parse s (Some v) = parse s (Some w).
Proof.
  assert (Hopt : forall s, (forall v w, distinct_keys v = true -> alike v w -> parse s (Some v) = parse s (Some w)) ->
    forall k m m', (forall k v, assoc k m = Some v -> distinct_keys v = true) ->
      sort_keys <$> assoc k m' = sort_keys <$> assoc k m -> parse s (assoc k m) = parse s (assoc k m')).
  { intros s' IH k m m' Hd E. destruct (assoc k m) as [x|] eqn:Ex, (assoc k m') as [x'|]; try done.
    injection E as E. apply IH; [by eapply Hd|done]. }
  assert (Hother : forall v w, alike v w -> match v with JArr _ | JObj _ => True | _ => w = v end).
  { intros v w. unfold alike. by destruct v, w; cbn [sort_keys]; intros E; try done; injection E as ->. }
  induction s as [|d| |vs d| |s IH|fs IH|vs IH] using schema_ind; intros v w Hd Ha;
    try (pose proof (Hother v w Ha) as Hv; destruct v as [| | | |l|m]; try (by subst w);
         [apply alike_arr in Ha as (l' & -> & _)|apply distinct_obj in Hd as [Hn _]; apply (alike_obj _ _ Hn) in Ha as (m' & -> & _)]; done).
  - pose proof (Hother v w Ha) as Hv. destruct v as [| | | |l|m]; try (by subst w).
    + apply alike_arr in Ha as (l' & -> & Hl). rewrite !parse_arr. f_equal. cbn [distinct_keys] in Hd. clear Hv.
      induction Hl as [|x x' l l' Hx Hl IHl]; [done|]. cbn [forallb] in Hd. apply andb_prop in Hd as [Hdx Hdl].
      cbn [mapM]. by rewrite (IH x x'), IHl.
    + apply distinct_obj in Hd as [Hn _]. by apply (alike_obj _ _ Hn) in Ha as (m' & -> & _).
  - pose proof (Hother v w Ha) as Hv. destruct v as [| | | |l|m]; try (by subst w); [by apply alike_arr in Ha as (l' & -> & _)|].
    apply distinct_obj in Hd as [Hn Hd]. apply (alike_obj _ _ Hn) in Ha as (m' & -> & Hk & Ha). rewrite !parse_obj.
    rewrite !(forallb_keys (declared (map fst fs))), (forallb_perm _ _ _ Hk). destruct (forallb _ _); [|done]. f_equal.
    apply mapM_ext_Forall. eapply Forall_impl; [exact IH|]. intros [k s] Hs. unfold parse_field. cbn [fst snd] in *.
    by rewrite (Hopt s Hs k m m' Hd (Ha k)).
  - pose proof (Hother v w Ha) as Hv. destruct v as [| | | |l|m]; try (by subst w); [by apply alike_arr in Ha as (l' & -> & _)|].
    apply distinct_obj in Hd as [Hn Hd]. apply (alike_obj _ _ Hn) in Ha as (m' & -> & Hk & Ha). rewrite !parse_oneof.
    clear Hv. induction IH as [|[k s] vs Hs IH IHf]; [done|]. cbn [parse_variant fst snd] in *.
    rewrite !(forallb_keys (declared [k])), (forallb_perm _ _ _ Hk), IHf.
    by rewrite (Hopt s Hs k m m' Hd (Ha k)).
Qed.

(** ** What a schema puts out *)

(** The keys of an object's shape are distinct, at every level. *)
Fixpoint wf (s : Schema) : bool :=
  match s with
  | Arr s => wf s
  | Obj fs => bool_decide (NoDup (map fst fs)) && forallb (fun ks => wf ks.2) fs
  | OneOf vs => bool_decide (NoDup (map fst vs)) && forallb (fun ks => wf ks.2) vs
  | Enum values d => bool_decide (d ∈ values)
  | _ => true
  end.

(** A value that is its own output. *)
Definition conforms (s : Schema) (v : Json) : Prop := parse s (Some v) = Some v.

Lemma mapM_fields_keys m fs kvs : mapM (parse_field m) fs = Some kvs -> map fst kvs = map fst fs.
Proof.
  intros H%mapM_Some. induction H as [|[k s] kv fs kvs E H IH]; [done|]. unfold parse_field in E. cbn [fst snd] in E.
  destruct (parse s (assoc k m)) as [y|]; [|done]. injection E as <-. cbn [map fst]. by rewrite IH.
Qed.

Lemma mapM_fields_lookup m fs kvs : NoDup (map fst fs) -> mapM (parse_field m) fs = Some kvs ->
  forall k s, (k, s) ∈ fs -> assoc k kvs = parse s (assoc k m).
Proof.
  intros Hn H%mapM_Some. induction H as [|[k0 s0] kv fs kvs E H IH]; intros k s Hin; [by apply not_elem_of_nil in Hin|].
  unfold parse_field in E. cbn [fst snd] in E. destruct (parse s0 (assoc k0 m)) as [y|] eqn:Ey; [|done]. injection E as <-.
  cbn [map fst] in Hn. apply NoDup_cons in Hn as [Hn0 Hn]. cbn [assoc]. apply elem_of_cons in Hin as [[= -> ->]|Hin].
  - by rewrite decide_True.
  - rewrite decide_False; [by apply IH|]. intros ->. apply Hn0. change k0 with (k0, s).1. by apply list_elem_of_fmap_2.
Qed.

Lemma mapM_fields_total m fs kvs k : mapM (parse_field m) fs = Some kvs -> k ∈ map fst fs ->
  exists s y, (k, s) ∈ fs /\ parse s (assoc k m) = Some y.
Proof.
  intros H%mapM_Some Hk. induction H as [|[k0 s0] kv fs kvs E H IH]; [by apply not_elem_of_nil in Hk|].
  unfold parse_field in E. cbn [fst snd] in E. destruct (parse s0 (assoc k0 m)) as [y|] eqn:Ey; [|done].
  cbn [map fst] in Hk. apply elem_of_cons in Hk as [->|Hk]; [exists s0, y; by split; [left|]|].
  destruct (IH Hk) as (s & z & ? & ?). exists s, z. by split; [right|].
Qed.

Lemma forallb_declared {A} ks (m : list (jsstr * A)) : forallb (fun kv => declared ks kv.1) m = true <-> forall k, k ∈ map fst m -> k ∈ ks.
Proof.
  rewrite (forallb_keys (declared ks)), forallb_forall. unfold declared. setoid_rewrite bool_decide_eq_true.
  setoid_rewrite list_elem_of_In. done.
Qed.

Lemma parse_field_eq m k s : parse_field m (k, s) = y ← parse s (assoc k m); Some (k, y).
Proof. reflexivity. Qed.

(** The object with the fields [m] is read as [v], field by field. *)
Lemma parse_obj_to fs m v : map fst v = map fst fs -> NoDup (map fst fs) ->
  (forall k, k ∈ map fst m -> k ∈ map fst fs) -> (forall k s, (k, s) ∈ fs -> parse s (assoc k m) = assoc k v) ->
  parse (Obj fs) (Some (JObj m)) = Some (JObj v).
Proof.
  intros Hk Hn Hm Hf. rewrite parse_obj. rewrite (proj2 (forallb_declared (map fst fs) m) Hm).
  assert (E : mapM (parse_field m) fs = Some v); [|by rewrite E]. clear Hm. revert v Hk Hf.
  induction fs as [|[k s] fs IH]; intros [|[k' x] v] Hk Hf; try discriminate; [done|]. injection Hk as -> Hk.
  cbn [map fst] in Hn. apply NoDup_cons in Hn as [Hn0 Hn]. cbn [mapM]. rewrite parse_field_eq.
  rewrite (Hf k s) by (by left). cbn [assoc]. rewrite decide_True by done. cbn [mbind option_bind].
  rewrite (IH Hn v Hk); [done|]. intros k' s' Hin. rewrite (Hf k' s') by (by right). cbn [assoc]. rewrite decide_False; [done|].
  intros ->. apply Hn0. change k with (k, s').1. by apply list_elem_of_fmap_2.
Qed.

Lemma wf_obj fs : wf (Obj fs) = true -> NoDup (map fst fs) /\ forall k s, (k, s) ∈ fs -> wf s = true.
Proof.
  cbn [wf]. intros [Hn Hw]%andb_prop. apply bool_decide_eq_true in Hn. split; [done|]. intros k s Hin.
  rewrite forallb_forall in Hw. apply (Hw (k, s)). by apply list_elem_of_In.
Qed.

(** An object of one key is read by the variant of that key. *)
Lemma parse_oneof_to vs k s x y : NoDup (map fst vs) -> (k, s) ∈ vs -> parse s (Some x) = Some y ->
  parse (OneOf vs) (Some (JObj [(k, x)])) = Some (JObj [(k, y)]).
Proof.
  intros Hn Hin Ey. rewrite parse_oneof. induction vs as [|[k0 s0] vs IH]; [by apply not_elem_of_nil in Hin|].
  cbn [map fst] in Hn. apply NoDup_cons in Hn as [Hn0 Hn]. cbn [parse_variant forallb andb fst].
  apply elem_of_cons in Hin as [[= <- <-]|Hin].
  - unfold declared. rewrite bool_decide_true by (by left). cbn [andb assoc]. rewrite decide_True by done. by rewrite Ey.
  - unfold declared. rewrite bool_decide_false; [by apply IH|]. rewrite list_elem_of_singleton. intros ->. apply Hn0.
    change k0 with (k0, s).1. by apply list_elem_of_fmap_2.
Qed.

(** What is put out is its own output. *)
Lemma parse_conforms s : wf s = true -> forall o v, parse s o = Some v -> conforms s v.
Proof.
  unfold conforms. induction s as [|d| |vs d| |s IH|fs IH|vs IH] using schema_ind; intros Hw o v.
  - destruct o as [[]|]; cbn [parse]; try done; by intros [= <-].
  - destruct o as [[]|]; cbn [parse]; try done; by intros [= <-].
  - destruct o as [[]|]; cbn [parse]; try done; [|by intros [= <-]]. destruct (_ && _) eqn:E; [|done]. intros [= <-]. by rewrite E.
  - cbn [wf] in Hw. destruct o as [[| | |t| |]|]; cbn [parse]; try done; [|intros [= <-]; by rewrite Hw].
    destruct (bool_decide (t ∈ vs)) eqn:E; [|done]. intros [= <-]. by rewrite E.
  - destruct o as [[]|]; cbn [parse]; try done; by intros [= <-].
  - destruct o as [[| | | |l|]|]; try done; [|by intros [= <-]]. rewrite parse_arr.
    destruct (mapM _ l) as [xs|] eqn:E; [|done]. intros [= <-]. rewrite parse_arr.
    assert (E' : mapM (fun x => parse s (Some x)) xs = Some xs); [|by rewrite E'].
    apply mapM_Some in E. apply mapM_Some. induction E as [|x y l xs Ex E IHl]; constructor; [by apply (IH Hw (Some x))|done].
  - destruct o as [[| | | | |m]|]; try done. rewrite parse_obj. destruct (forallb _ m); [|done].
    destruct (mapM _ fs) as [kvs|] eqn:E; [|done]. intros [= <-]. apply wf_obj in Hw as [Hn Hw].
    pose proof (mapM_fields_keys _ _ _ E) as Hk.
    apply parse_obj_to; [done|done|by rewrite Hk|]. intros k s Hin.
    rewrite (mapM_fields_lookup _ _ _ Hn E k s Hin).
    destruct (mapM_fields_total _ _ _ k E) as (s' & y & Hin' & Ey); [change k with (k, s).1; by apply list_elem_of_fmap_2|].
    assert (s' = s) as ->.
    { apply elem_of_assoc in Hin, Hin'; [|done..]. congruence. }
    rewrite Ey. rewrite Forall_forall in IH. apply (IH (k, s) Hin (Hw _ _ Hin) _ _ Ey).
  - destruct o as [[| | | | |m]|]; try done. rewrite parse_oneof. cbn [wf] in Hw. apply andb_prop in Hw as [Hn Hw].
    apply bool_decide_eq_true in Hn. intros E.
    assert (Hv : exists k s y, v = JObj [(k, y)] /\ (k, s) ∈ vs /\ parse s (assoc k m) = Some y).
    { clear -E. induction vs as [|[k s] vs IH]; cbn [parse_variant] in E; [done|].
      destruct (forallb _ m); [destruct (parse s (assoc k m)) as [y|] eqn:Ey|].
      - injection E as <-. exists k, s, y. split; [done|]. by split; [left|].
      - destruct (IH E) as (k' & s' & y & ? & ? & ?). exists k', s', y. split; [done|]. by split; [right|].
      - destruct (IH E) as (k' & s' & y & ? & ? & ?). exists k', s', y. split; [done|]. by split; [right|]. }
    destruct Hv as (k & s & y & -> & Hin & Ey).
    assert (Ey' : parse s (Some y) = Some y).
    { rewrite Forall_forall in IH. apply (IH (k, s) Hin) with (o := assoc k m); [|done].
      rewrite forallb_forall in Hw. apply (Hw (k, s)). by apply list_elem_of_In. }
    by eapply parse_oneof_to.
Qed.

Lemma conforms_obj fs v : NoDup (map fst fs) -> conforms (Obj fs) v ->
  exists m, v = JObj m /\ map fst m = map fst fs /\ forall k s, (k, s) ∈ fs -> exists x, assoc k m = Some x /\ conforms s x.
Proof.
  intros Hn. unfold conforms. destruct v as [| | | | |m]; try done. rewrite parse_obj. destruct (forallb _ m); [|done].
  destruct (mapM _ fs) as [kvs|] eqn:E; [|done]. intros [= ->]. exists m. split; [done|].
  split; [by apply (mapM_fields_keys m)|]. intros k s Hin. pose proof (mapM_fields_lookup _ _ _ Hn E k s Hin) as El.
  destruct (mapM_fields_total _ _ _ k E) as (s' & y & Hin' & Ey); [change k with (k, s).1; by apply list_elem_of_fmap_2|].
  assert (s' = s) as -> by (apply elem_of_assoc in Hin, Hin'; [congruence|done..]).
  exists y. rewrite Ey in El. split; [done|]. by rewrite El in Ey.
Qed.

Lemma conforms_arr s v : conforms (Arr s) v -> exists l, v = JArr l /\ Forall (conforms s) l.
Proof.
  unfold conforms. destruct v as [| | | |l|]; try done. rewrite parse_arr. destruct (mapM _ l) as [xs|] eqn:E; [|done].
  intros [= ->]. exists l. split; [done|]. apply mapM_Some in E. apply Forall_forall. intros x Hx.
  apply list_elem_of_lookup in Hx as [i Hi]. destruct (Forall2_lookup_l _ _ _ _ _ E Hi) as (y & Hy & E'). congruence.
Qed.

Lemma conforms_str v : conforms Str v -> exists t, v = JStr t.
Proof. unfold conforms. destruct v; try done. by eexists. Qed.

Lemma conforms_strs v : conforms (Arr Str) v -> exists ts, v = JArr (map JStr ts).
Proof.
  intros (l & -> & Hl)%conforms_arr. induction Hl as [|x l (t & ->)%conforms_str Hl (ts & E)]; [by exists []|].
  injection E as ->. by exists (t :: ts).
Qed.

Lemma conforms_bool d v : conforms (Bool d) v -> exists b, v = JBool b.
Proof. unfold conforms. destruct v; try done. by eexists. Qed.
Lemma conforms_uint v : conforms Uint v -> exists z, v = JNum z /\ 0 <= z.
Proof. unfold conforms. destruct v; try done. cbn [parse]. destruct (Z.leb_spec 0 z); [|done]. by eexists. Qed.

Lemma conforms_oneof vs v : conforms (OneOf vs) v -> exists k s y, (k, s) ∈ vs /\ v = JObj [(k, y)] /\ conforms s y.
Proof.
  unfold conforms. destruct v as [| | | | |m]; try done. rewrite parse_oneof. intros E.
  assert (Hv : exists k s y, JObj m = JObj [(k, y)] /\ (k, s) ∈ vs /\ parse s (assoc k m) = Some y).
  { revert E. generalize (JObj m) at 1 2. intros v E. clear -E. induction vs as [|[k s] vs IH]; cbn [parse_variant] in E; [done|].
    destruct (forallb _ m); [destruct (parse s (assoc k m)) as [y|] eqn:Ey|].
    - injection E as <-. exists k, s, y. split; [done|]. by split; [left|].
    - destruct (IH E) as (k' & s' & y & ? & ? & ?). exists k', s', y. split; [done|]. by split; [right|].
    - destruct (IH E) as (k' & s' & y & ? & ? & ?). exists k', s', y. split; [done|]. by split; [right|]. }
  destruct Hv as (k & s & y & [= ->] & Hin & Ey). exists k, s, y. split; [done|]. split; [done|]. cbn [assoc] in Ey.
  by rewrite decide_True in Ey.
Qed.

(** What conforms to a schema has distinct keys. *)
Lemma conforms_distinct s : wf s = true -> forall v, conforms s v -> distinct_keys v = true.
Proof.
  induction s as [|d| |vs d| |s IH|fs IH|vs IH] using schema_ind; intros Hw v Hv;
    try (unfold conforms in Hv; by destruct v).
  - apply conforms_arr in Hv as (l & -> & Hl). cbn [distinct_keys]. apply forallb_forall. intros x Hx%list_elem_of_In.
    rewrite Forall_forall in Hl. by apply IH, Hl.
  - apply wf_obj in Hw as [Hn Hw]. apply (conforms_obj _ _ Hn) in Hv as (m & -> & Hk & Hf). cbn [distinct_keys].
    rewrite bool_decide_true by by rewrite Hk. apply forallb_forall. intros [k x] Hx%list_elem_of_In. cbn [snd].
    assert (Hin : k ∈ map fst fs) by (rewrite <- Hk; change k with (k, x).1; by apply list_elem_of_fmap_2).
    apply list_elem_of_fmap in Hin as ([k' s] & -> & Hin). destruct (Hf _ _ Hin) as (x' & Ex & Hx').
    apply elem_of_assoc in Hx; [|by rewrite Hk]. cbn [fst] in Hx. assert (x' = x) as -> by congruence.
    rewrite Forall_forall in IH. apply (IH _ Hin); [by eapply Hw|done].
  - apply conforms_oneof in Hv as (k & s & y & Hin & -> & Hy). cbn [distinct_keys map fst forallb snd].
    rewrite bool_decide_true by apply NoDup_singleton. rewrite Forall_forall in IH. cbn [andb]. rewrite andb_true_r.
    apply (IH _ Hin); [|done]. cbn [wf] in Hw. apply andb_prop in Hw as [_ Hw]. rewrite forallb_forall in Hw.
    apply (Hw (k, s)). by apply list_elem_of_In.
Qed.

End Zod.
