(* ===== verification/ClusterToml.v ===== *)
(** The cluster manifest, both ways: cluster.toml to the cluster (cli/lib/cluster/toml-to-cluster.mjs),
    the cluster to cluster.toml (cli/lib/cluster/cluster-to-toml.mjs), and the emitters' own validation
    (manifest/cluster-types.ts).

    A TOML document is a JSON value without [null]: its parser and its printer are parameters, and its
    floats and dates are outside the model.  A row of the reverse leg that is [null], on which the code
    throws, is outside as well, and so is the order in which an object lists keys that are array
    indices, except in the table of the inputs, whose keys are the operator's names. *)
From S2P Require Import Prelude JsString Sql Json JsonText JsConvert Canonical ConfinementJson Matchmaker Zod.

Module ClusterToml.
Import JsonText Zod.

(** ** Objects *)

Definition prop (v : Json) (k : string) : option Json := get_prop v (js k).

(** An object literal, some of whose properties are set under a condition. *)
Definition object (l : list (string * option Json)) : list (jsstr * Json) :=
  omap (fun ko => (fun v => (js ko.1, v)) <$> ko.2) l.

(** [{ ...m, k: v, ... }] *)
Definition spread (m : list (jsstr * Json)) (l : list (string * Json)) : list (jsstr * Json) :=
  foldl (fun m kv => assoc_set (js kv.1) kv.2 m) m l.

(** The rest of a destructuring, or what is left by [delete]. *)
Definition omit (ks : list jsstr) (m : list (jsstr * Json)) : list (jsstr * Json) := filter (fun kv => kv.1 ∉ ks) m.

Definition is_obj (o : option Json) : bool := match o with Some (JObj _) => true | _ => false end.

(** [typeof v === "string" ? v : ""], and the like. *)
Definition text_or (o : option Json) : Json := match o with Some (JStr t) => JStr t | _ => JStr [] end.
Definition number_or (o : option Json) : Json := match o with Some (JNum z) => JNum z | _ => JNum 0 end.
Definition bool_or (o : option Json) : Json := match o with Some (JBool b) => JBool b | _ => JBool false end.
Definition list_or (o : option Json) : Json := match o with Some (JArr l) => JArr l | _ => JArr [] end.
Definition object_or (o : option Json) : Json := match o with Some (JObj m) => JObj m | _ => JObj [] end.

(** ** From TOML *)

Inductive cluster_error :=
  | TomlError | SchemaError | Required (path : jsstr)
  | DuplicateBundle (n : jsstr) | DuplicateBinding (n : jsstr) | UnknownEndpoint (n : jsstr)
  | DuplicateEntry (label n : jsstr) | NoProvenance (n : jsstr) | BadProvenance (n p : jsstr) | UnknownService (n s : jsstr)
  | Lattice (e : Matchmaker.MatchError)
  | BadFingerprint (fp : jsstr) | UnknownInputKey (n k : jsstr).

Definition FP_PREFIX : jsstr := js "sha256:".
Definition isSha256Hex (s : jsstr) : bool :=
  (length s =? 64)%nat && forallb (fun c => includes c (js "0123456789abcdef")) s.
Definition assertActorFingerprint (fp : jsstr) : result cluster_error jsstr :=
  if bool_decide (fp = []) then Ok fp
  else if starts_with FP_PREFIX fp && isSha256Hex (drop (length FP_PREFIX) fp) then Ok fp
  else Throw (BadFingerprint fp).

Definition unflattenEdge (e : Json) : Json :=
  JObj (object [("from", Some (text_or (prop e "from"))); ("to", Some (text_or (prop e "to")));
                ("appProtocol", Some (text_or (prop e "appProtocol"))); ("transport", Some (text_or (prop e "transport")))]).

Definition unflattenEdges (raw : option Json) : Json :=
  match raw with Some (JArr l) => JArr (map unflattenEdge l) | _ => JArr [] end.

(** [{ kind: tag, [tag]: payload, ...rest }] to [{ ...rest, kind: { [tag]: payload } }]; a property that
    is [undefined] is left out. *)
Definition nest (k tag : jsstr) (payload : option Json) (m : list (jsstr * Json)) : Json :=
  JObj (assoc_set k (JObj (match payload with Some p => [(tag, p)] | None => [] end)) (omit [k; tag] m)).

Definition KIND : jsstr := js "kind".

Definition unflattenBackend (b : Json) : Json :=
  match b with
  | JObj m => match assoc KIND m with Some (JStr tag) => nest KIND tag (assoc tag m) m | _ => b end
  | _ => b
  end.

Definition unflattenMcpRouteSpec (spec : option Json) : option Json :=
  match spec with
  | Some (JObj m) =>
      Some (JObj (spread m [("backends", match assoc (js "backends") m with
                                         | Some (JArr l) => JArr (map unflattenBackend l) | _ => JArr [] end)]))
  | Some (JArr l) => Some (JObj (imap (fun i x => (js_dec (Z.of_nat i), x)) l ++ [(js "backends", JArr [])]))
  | o => o
  end.

Definition VOID_ROUTE_KINDS : list jsstr :=
  map js ["health"; "wellKnownInterlace"; "disclosure"; "wellKnownIdentityBridge"; "ociRegistry"; "wellKnownMcpRegistry"; "caBundle"]%string.

Definition unflattenRoute (r : Json) : Json :=
  match r with
  | JObj m =>
      match assoc KIND m with
      | Some (JStr tag) =>
          nest KIND tag
            (if bool_decide (tag ∈ VOID_ROUTE_KINDS) then Some JNull
             else if bool_decide (tag = js "mcp") then unflattenMcpRouteSpec (assoc tag m)
             else assoc tag m) m
      | _ => r
      end
  | _ => r
  end.

Definition unflattenRoutes (raw : option Json) : Json :=
  match raw with Some (JArr l) => JArr (map unflattenRoute l) | _ => JArr [] end.

Definition unflattenWireTransport (w : Json) : Json :=
  match w with
  | JObj m =>
      match assoc (js "transport") m with
      | Some (JStr t) => JObj (assoc_set (js "transport") (JObj [(t, JNull)]) (omit [js "transport"] m))
      | _ => w
      end
  | _ => w
  end.

Definition normalizeConnection (raw : option Json) : Json :=
  let c := object_or raw in
  let t := match prop c "transport" with Some (JStr t) => trim t | _ => [] end in
  JObj (object [("transport", Some (JObj [((if bool_decide (t = js "uds") then js "uds" else js "unset"), JNull)]));
                ("socketPath", Some (text_or (prop c "socketPath"))); ("vaultSlice", Some (text_or (prop c "vaultSlice")))]).

Definition normalizeInputDefaults (spec : Json) : Json :=
  let t := object_or (prop spec "tenancy") in
  JObj (object
    [("name", Some (text_or (prop spec "name"))); ("ref", Some (text_or (prop spec "ref")));
     ("version", Some (text_or (prop spec "version"))); ("digest", Some (text_or (prop spec "digest")));
     ("from", Some (text_or (prop spec "from"))); ("provides", Some (list_or (prop spec "provides")));
     ("requires", Some (list_or (prop spec "requires"))); ("urlBinding", Some (text_or (prop spec "urlBinding")));
     ("serviceBinding", Some (text_or (prop spec "serviceBinding"))); ("requiresSessionRetired", Some (JBool false));
     ("connection", Some (normalizeConnection (prop spec "connection")));
     ("mutableTagReason", Some (text_or (prop spec "mutableTagReason")));
     ("tenancy", Some (JObj (object
        [("mode", Some (text_or (prop t "mode"))); ("workerdId", Some (text_or (prop t "workerdId")));
         ("trustedTier", Some (bool_or (prop t "trustedTier")));
         ("sharesWorkerdWith", Some (list_or (prop t "sharesWorkerdWith")))])))]).

(** [Object.keys(v ?? {})] *)
Definition own_keys (v : Json) : list jsstr :=
  match v with
  | JObj m => map fst m
  | JArr l => imap (fun i _ => js_dec (Z.of_nat i)) l
  | JStr t => imap (fun i _ => js_dec (Z.of_nat i)) t
  | _ => []
  end.

Fixpoint assertDeclaredInputKeys (n : jsstr) (ks inputShape : list jsstr) : result cluster_error unit :=
  match ks with
  | [] => Ok tt
  | k :: ks => if bool_decide (k ∈ inputShape) then assertDeclaredInputKeys n ks inputShape else Throw (UnknownInputKey n k)
  end.

(** [{ name, ...spec }] *)
Definition named_spec (n : jsstr) (spec : Json) : Json :=
  JObj (foldl (fun m kv => assoc_set kv.1 kv.2 m) [(js "name", JStr n)] (match spec with JObj m => m | _ => [] end)).

Fixpoint unflatten_entries (m : list (jsstr * Json)) : result cluster_error (list Json) :=
  match m with
  | [] => Ok []
  | (n, spec) :: m =>
      let? _ := assertDeclaredInputKeys n (own_keys spec) (shape InputSpecSchema) in
      let? l := unflatten_entries m in Ok (normalizeInputDefaults (named_spec n spec) :: l)
  end.

Definition unflattenInputs (raw : option Json) : result cluster_error Json :=
  match raw with
  | Some (JArr l) => Ok (JArr (map normalizeInputDefaults l))
  | Some (JObj m) => let? l := unflatten_entries m in Ok (JArr l)
  | _ => Ok (JArr [])
  end.

Definition fs_entry (e : Json) : Json :=
  match e with
  | JStr t => JObj (object [("path", Some (JStr t)); ("mode", Some (JStr []))])
  | _ => JObj (object [("path", Some (text_or (prop e "path")));
                       ("mode", Some (JStr (match prop e "mode" with Some (JStr t) => if bool_decide (t = js "rw") then js "rw" else [] | _ => [] end)))])
  end.

Definition normalizeConfinement (c : option Json) : Json :=
  let src := object_or c in
  let fs := object_or (prop src "fs") in
  let network := object_or (prop src "network") in
  let port := object_or (prop src "port") in
  JObj (object
    [("fs", Some (JObj (object [("allow", Some (JArr (match prop fs "allow" with Some (JArr l) => map fs_entry l | _ => [] end)))])));
     ("network", Some (JObj (object [("allowHosts", Some (list_or (prop network "allowHosts")))])));
     ("port", Some (JObj (object [("bind", Some (number_or (prop port "bind"))); ("address", Some (text_or (prop port "address")))])));
     ("credentialSource", Some (text_or (prop src "credentialSource")))]).

Definition normalize_external (external : Json) : Json :=
  JObj (object
    [("image", Some (text_or (prop external "image"))); ("ipcSocket", Some (text_or (prop external "ipcSocket")));
     ("httpPort", Some (number_or (prop external "httpPort"))); ("args", Some (list_or (prop external "args")));
     ("env", Some (list_or (prop external "env"))); ("entryPoint", Some (text_or (prop external "entryPoint")));
     ("executionMode", Some (text_or (prop external "executionMode")));
     ("executionModeRationale", Some (text_or (prop external "executionModeRationale")))]).

Definition normalizeBundleDefaults (m : list (jsstr * Json)) : Json :=
  let m := spread m
    [("description", text_or (assoc (js "description") m)); ("holdsCredential", list_or (assoc (js "holdsCredential") m));
     ("workerdServiceName", text_or (assoc (js "workerdServiceName") m));
     ("hypervisorRationale", text_or (assoc (js "hypervisorRationale") m)); ("perTenant", bool_or (assoc (js "perTenant") m));
     ("confinement", normalizeConfinement (assoc (js "confinement") m))] in
  match assoc KIND m with
  | Some (JObj k) =>
      if truthy (assoc (js "external") k)
      then JObj (assoc_set KIND (JObj (assoc_set (js "external") (normalize_external (object_or (assoc (js "external") k))) k)) m)
      else JObj m
  | _ => JObj m
  end.

(** The default of [perTenant] set first is the one the last step would set. *)
Definition unflattenBundleKind (b : Json) : Json :=
  match b with
  | JObj m =>
      match assoc KIND m with
      | Some (JObj _) => normalizeBundleDefaults (assoc_set (js "perTenant") (bool_or (assoc (js "perTenant") m)) m)
      | Some (JStr tag) =>
          match nest KIND tag (assoc tag m) m with
          | JObj m => normalizeBundleDefaults (assoc_set (js "perTenant") (bool_or (assoc (js "perTenant") m)) m)
          | v => v
          end
      | _ => b
      end
  | _ => b
  end.

(** The named payload's name, or path. *)
Definition injection_payload (tag field : string) (svc : Json) : Json :=
  let payload := object_or (prop svc tag) in
  JObj [(js tag, JObj [(js field, text_or (prop payload field))])].

Definition normalizeVaultProxyInjection (svc : Json) : Json :=
  match prop svc "injection" with
  | Some (JObj m) => JObj m
  | Some JNull => JNull
  | o =>
      let tag := match o with Some (JStr t) => t | _ => [] end in
      if bool_decide (tag = js "authorizationBearer") then JObj [(js "authorizationBearer", JNull)]
      else if bool_decide (tag = js "authorizationBasic") then JObj [(js "authorizationBasic", JNull)]
      else if bool_decide (tag = js "headerNamed") then injection_payload "headerNamed" "name" svc
      else if bool_decide (tag = js "queryParam") then injection_payload "queryParam" "name" svc
      else if bool_decide (tag = js "bodyField") then injection_payload "bodyField" "path" svc
      else JObj [(tag, JNull)]
  end.

Definition normalize_service (svc : Json) : Json :=
  let s := object_or (Some svc) in
  JObj (object
    [("name", Some (text_or (prop s "name"))); ("upstreamBaseUrl", Some (text_or (prop s "upstreamBaseUrl")));
     ("defaultAllowedSubs", Some (list_or (prop s "defaultAllowedSubs")));
     ("rateLimitPerMinute", Some (number_or (prop s "rateLimitPerMinute")));
     ("injection", Some (normalizeVaultProxyInjection s))]).

(** Elements of a list, or none. *)
Definition rows (o : option Json) : list Json := match o with Some (JArr l) => l | _ => [] end.

Definition normalizeVaultProxyServices (raw : option Json) : Json := JArr (map normalize_service (rows raw)).

(** Every field of the shape is a default around its type, and so is none that names an array. *)
Definition defaultFor (key : jsstr) : Json := JStr [].

Definition normalize_target (t : Json) : Json :=
  let h := object_or (Some t) in
  JObj (map (fun key => (key, match get_prop h key with Some JNull | None => defaultFor key | Some v => v end)) (shape HarnessTargetSchema)).

Definition normalizeHarnessTargets (raw : option Json) : Json := JArr (map normalize_target (rows raw)).

Definition normalize_skill (t : Json) : Json :=
  let k := object_or (Some t) in
  JObj (object [("name", Some (text_or (prop k "name"))); ("digest", Some (text_or (prop k "digest")))]).

Definition normalizeSkills (raw : option Json) : Json := JArr (map normalize_skill (rows raw)).

Definition normalizeGateway (raw : option Json) : result cluster_error Json :=
  let g := object_or raw in
  let metadata := object_or (prop g "metadata") in
  let actor := object_or (prop g "actor") in
  let policy := object_or (prop g "policy") in
  let? fp := assertActorFingerprint (match prop actor "fingerprint" with Some (JStr t) => t | _ => [] end) in
  Ok (JObj (object
    [("metadata", Some (JObj (object
        [("name", Some (text_or (prop metadata "name"))); ("version", Some (text_or (prop metadata "version")));
         ("metaNamespace", Some (text_or (prop metadata "metaNamespace")))])));
     ("actor", Some (JObj (object
        [("fingerprint", Some (JStr fp)); ("algorithm", Some (text_or (prop actor "algorithm")));
         ("pubkeyBinding", Some (text_or (prop actor "pubkeyBinding")));
         ("attestationRepo", Some (text_or (prop actor "attestationRepo")));
         ("tunnelEndpoint", Some (text_or (prop actor "tunnelEndpoint")))])));
     ("policy", Some (JObj (object
        [("maxCertLifetimeSeconds", Some (number_or (prop policy "maxCertLifetimeSeconds")));
         ("requireInterlock", Some (bool_or (prop policy "requireInterlock")));
         ("minAlgorithm", Some (text_or (prop policy "minAlgorithm")))])));
     ("vaultProxyServices", Some (normalizeVaultProxyServices (prop g "vaultProxyServices")));
     ("harnessTargets", Some (normalizeHarnessTargets (prop g "harnessTargets")));
     ("skills", Some (normalizeSkills (prop g "skills")))])).

(** [Array.isArray(raw.k) ? raw.k.map(f) : raw.k] *)
Definition map_rows (k : string) (f : Json -> Json) (m : list (jsstr * Json)) : list (jsstr * Json) :=
  match assoc (js k) m with Some (JArr l) => assoc_set (js k) (JArr (map f l)) m | _ => m end.

Definition unflattenForSchema (raw : list (jsstr * Json)) : result cluster_error (list (jsstr * Json)) :=
  let out := map_rows "wires" unflattenWireTransport (map_rows "bundles" unflattenBundleKind raw) in
  let? inputs := unflattenInputs (assoc (js "inputs") raw) in
  let? gateway := normalizeGateway (assoc (js "gateway") raw) in
  Ok (spread out [("inputs", inputs); ("routes", unflattenRoutes (assoc (js "routes") raw));
                  ("gateway", gateway); ("edges", unflattenEdges (assoc (js "edges") raw))]).

(** ** The pipeline *)

Definition str_of (o : option Json) : jsstr := match o with Some (JStr t) => t | _ => [] end.
Definition strs_of (o : option Json) : list jsstr := map (fun v => str_of (Some v)) (rows o).

Fixpoint firstDuplicate (seen arr : list jsstr) : option jsstr :=
  match arr with
  | [] => None
  | v :: arr => if bool_decide (v ∈ seen) then Some v else firstDuplicate (v :: seen) arr
  end.

(** [if (dup) throw]: the empty text is not an error. *)
Definition reject_dup (dup : option jsstr) (e : jsstr -> cluster_error) : result cluster_error unit :=
  match dup with Some ((_ :: _) as d) => Throw (e d) | _ => Ok tt end.

(** [for (const x of l) check(x)] *)
Fixpoint each {A} (l : list A) (f : A -> result cluster_error unit) : result cluster_error unit :=
  match l with [] => Ok tt | x :: l => let? _ := f x in each l f end.

Definition required (path : string) (o : option Json) : result cluster_error unit :=
  match o with Some (JStr (_ :: _)) => Ok tt | _ => Throw (Required (js path)) end.

Definition check_provenance (t : Json) : result cluster_error unit :=
  let p := trim (str_of (prop t "provenance")) in
  if bool_decide (p = []) then Throw (NoProvenance (str_of (prop t "name")))
  else if starts_with (js "http://") p || starts_with (js "https://") p then Ok tt
  else Throw (BadProvenance (str_of (prop t "name")) p).

Definition SUBSTRATE_CAPABILITIES : list jsstr := [js "cloister/credential-isolation/v1"; js "cloister/confinement/v1"].

Definition matchmaker_input (i : Json) : option Matchmaker.Input :=
  Some (Matchmaker.Build_Input (str_of (prop i "name")) (Some (strs_of (prop i "provides"))) (Some (strs_of (prop i "requires")))).

(** The checks on a value of the schema. *)
Definition semantic_checks (c : Json) : result cluster_error unit :=
  let metadata := object_or (prop c "metadata") in
  let bundleNames := map (fun b => str_of (prop b "name")) (rows (prop c "bundles")) in
  let wires := rows (prop c "wires") in
  let gateway := object_or (prop c "gateway") in
  let services := rows (prop gateway "vaultProxyServices") in
  let targets := rows (prop gateway "harnessTargets") in
  let names := map (fun x => str_of (prop x "name")) in
  let? _ := required "metadata.name" (prop metadata "name") in
  let? _ := required "metadata.version" (prop metadata "version") in
  let? _ := reject_dup (firstDuplicate [] bundleNames) DuplicateBundle in
  let? _ := reject_dup (firstDuplicate [] (map (fun w => str_of (prop w "binding")) wires)) DuplicateBinding in
  let? _ := each wires (fun w => each ["from"; "to"]%string (fun endpoint =>
              if bool_decide (str_of (prop w endpoint) ∈ bundleNames) then Ok tt else Throw (UnknownEndpoint (str_of (prop w endpoint))))) in
  let? _ := reject_dup (firstDuplicate [] (names services)) (DuplicateEntry (js "gateway.vaultProxyServices")) in
  let? _ := reject_dup (firstDuplicate [] (names targets)) (DuplicateEntry (js "gateway.harnessTargets")) in
  let? _ := each targets check_provenance in
  let? _ := each targets (fun t =>
              if existsb (fun svc => bool_decide (str_of (prop svc "name") = str_of (prop t "service"))) services then Ok tt
              else Throw (UnknownService (str_of (prop t "name")) (str_of (prop t "service")))) in
  match Matchmaker.matchCapabilities (Some (map matchmaker_input (rows (prop c "inputs")))) ∅ SUBSTRATE_CAPABILITIES with
  | Throw e => Throw (Lattice e)
  | Ok _ => Ok tt
  end.

(** From the parsed document. *)
Definition build (raw : list (jsstr * Json)) : result cluster_error Json :=
  let? transformed := unflattenForSchema raw in
  match parse ClusterSchema (Some (JObj transformed)) with
  | None => Throw SchemaError
  | Some validated => let? _ := semantic_checks validated in Ok validated
  end.

Definition LF : Z := 10.
Definition lines (l : list jsstr) : jsstr := concat (map (fun t => t ++ [LF]) l).

Definition quoted (t : string) : jsstr := [34] ++ js t ++ [34].

Definition ts_header : jsstr := lines
  [js "// SPDX-License-Identifier: AGPL-3.0-or-later"; js "//";
   js "// AUTO-GENERATED by cloister cluster generate. Do NOT edit by hand.";
   js "// Regenerate via `cloister cluster generate` after editing cluster.toml."; [];
   js "// Source: cluster.toml " ++ [8594] ++ js " ClusterSchema.parse " ++ [8594] ++ js " this file.";
   js "// See ADR-0025 for the bidi pipeline (TOML overlay, capnp substrate)."; [];
   js "// Side-effect import: keeps cluster.zod.ts in the dependency graph";
   js "// so `task lint`'s tsc pass type-checks the schema-bridge codegen";
   js "// alongside this emitted module. This is the structural anchor for the";
   js "// migration off hand-authored cluster-types.ts (ADR-0025).";
   js "import type {} from " ++ quoted "./cluster.zod.js" ++ js ";"; [];
   js "import type { Cluster } from " ++ quoted "../manifest/cluster-types.js" ++ js ";"; []].

Definition renderClusterTs (cluster : Json) : jsstr :=
  ts_header ++ js "export const cluster: Cluster = " ++ ConfinementJson.pretty 0 cluster ++ js " as const;" ++ [LF].

Section pipeline.
(** The TOML parser: the top-level table, or an exception. *)
Context (parseToml : jsstr -> option (list (jsstr * Json))).

Definition parseTomlToCluster (tomlString : jsstr) : result cluster_error Json :=
  match parseToml tomlString with None => Throw TomlError | Some raw => build raw end.

(** The exit code and the file that is written, by the file that is read. *)
Definition main (input : option jsstr) : Z * option jsstr :=
  match input with
  | None => (1, None)
  | Some tomlString =>
      match parseTomlToCluster tomlString with
      | Throw _ => (1, None)
      | Ok cluster => (0, Some (renderClusterTs cluster))
      end
  end.
End pipeline.

(** ** To TOML *)

Inductive writer_error := BadUnion (label : jsstr) (keys : nat) | BadBundle | BadWire | BadRoute | BadBackend.
Abbreviation canon := (result writer_error).

Fixpoint sortKeys (v : Json) : Json :=
  match v with
  | JObj m => JObj (order_by Canonical.key_le (map (fun kv => (kv.1, sortKeys kv.2)) m))
  | v => v
  end.

(** A string that is not empty; a list that is not empty. *)
Definition nonempty_text (o : option Json) : option Json := match o with Some (JStr (_ :: _)) => o | _ => None end.
Definition nonempty_list (o : option Json) : option Json := match o with Some (JArr (_ :: _)) => o | _ => None end.

Definition pickUnionTag (union : list (jsstr * Json)) (label : string) : canon (jsstr * Json) :=
  match union with [(tag, payload)] => Ok (tag, payload) | _ => Throw (BadUnion (js label) (length union)) end.

Definition own_entries (v : Json) : list (jsstr * Json) :=
  match v with JObj m => m | JArr l => imap (fun i x => (js_dec (Z.of_nat i), x)) l | _ => [] end.

(** The elements of a list, each with its keys sorted; any other value as it is. *)
Definition sort_entry (v : Json) : Json := match v with JArr l => JArr (map sortKeys l) | v => v end.

Definition canonicalizeKindPayload (p : Json) : Json :=
  match p with
  | JObj _ | JArr _ =>
      JObj (order_by Canonical.key_le (map (fun kv => (kv.1, sort_entry kv.2)) (own_entries p)))
  | p => p
  end.

(** [if (test(o.k)) delete o.k], for each of the tests. *)
Definition prune (tests : list (string * Json)) (m : list (jsstr * Json)) : list (jsstr * Json) :=
  filter (fun kv => match assoc kv.1 (map (fun t => (js t.1, t.2)) tests), kv.2 with
                    | Some (JStr []), JStr [] | Some (JNum 0), JNum 0 | Some (JArr []), JArr [] | Some (JBool false), JBool false => false
                    | _, _ => true
                    end = true) m.

Definition canonicalizeBundleKindPayload (tag : jsstr) (payload : Json) : Json :=
  match canonicalizeKindPayload payload with
  | JObj m =>
      if bool_decide (tag = js "external") then
        JObj (prune [("image", JStr []); ("ipcSocket", JStr []); ("httpPort", JNum 0); ("args", JArr []); ("env", JArr []);
                     ("entryPoint", JStr []); ("executionMode", JStr []); ("executionModeRationale", JStr [])]%string m)
      else JObj m
  | sorted => sorted
  end.

Definition is_zero (o : option Json) : bool := match o with None | Some JNull | Some (JNum 0) => true | _ => false end.
Definition is_blank (o : option Json) : bool := match o with None | Some JNull | Some (JStr []) => true | _ => false end.
Definition is_some (o : option Json) : bool := match o with Some _ => true | None => false end.

Definition isEmptyConfinement (c : option Json) : bool :=
  match c with
  | Some (JObj _) =>
      negb (is_some (nonempty_list (opt_prop (opt_prop c (js "fs")) (js "allow")))) &&
      negb (is_some (nonempty_list (opt_prop (opt_prop c (js "network")) (js "allowHosts")))) &&
      (negb (truthy (opt_prop c (js "port"))) ||
       is_zero (opt_prop (opt_prop c (js "port")) (js "bind")) && is_blank (opt_prop (opt_prop c (js "port")) (js "address"))) &&
      is_blank (opt_prop c (js "credentialSource"))
  | _ => true
  end.

Definition pruneConfinementDefaults (c : option Json) : Json :=
  let at_ k k' := opt_prop (opt_prop c (js k)) (js k') in
  let keep (b : bool) (o : option Json) := if b then o else None in
  JObj (object
    [("fs", keep (is_some (nonempty_list (at_ "fs" "allow")%string)) (opt_prop c (js "fs")));
     ("network", keep (is_some (nonempty_list (at_ "network" "allowHosts")%string)) (opt_prop c (js "network")));
     ("port", keep (negb (is_zero (at_ "port" "bind")%string) || negb (is_blank (at_ "port" "address")%string))
                (Some (JObj (object [("bind", keep (negb (is_zero (at_ "port" "bind")%string)) (at_ "port" "bind")%string);
                                     ("address", keep (negb (is_blank (at_ "port" "address")%string)) (at_ "port" "address")%string)]))));
     ("credentialSource", keep (negb (is_blank (opt_prop c (js "credentialSource")))) (opt_prop c (js "credentialSource")))]).

Definition CONFINEMENT : jsstr := js "confinement".

Definition pruneBundleScalarDefaults (scalars : list (jsstr * Json)) : list (jsstr * Json) :=
  let flat := prune [("description", JStr []); ("holdsCredential", JArr []); ("workerdServiceName", JStr []);
                     ("hypervisorRationale", JStr []); ("perTenant", JBool false)]%string scalars in
  if isEmptyConfinement (assoc CONFINEMENT flat) then omit [CONFINEMENT] flat
  else assoc_set CONFINEMENT (pruneConfinementDefaults (assoc CONFINEMENT flat)) flat.

Definition fields_of (v : Json) : list (jsstr * Json) := match v with JObj m => m | _ => [] end.

Definition canonicalizeBundle (b : Json) : canon Json :=
  let flat := pruneBundleScalarDefaults (omit [KIND] (fields_of b)) in
  match prop b "kind" with
  | Some (JObj k) =>
      let? tp := pickUnionTag k "Bundle.kind" in
      Ok (sortKeys (JObj (assoc_set tp.1 (canonicalizeBundleKindPayload tp.1 tp.2) (assoc_set KIND (JStr tp.1) flat))))
  | Some (JStr tag) =>
      let flat := assoc_set KIND (JStr tag) flat in
      Ok (sortKeys (JObj (match assoc tag (omit [KIND] (fields_of b)) with
                          | Some payload => assoc_set tag (canonicalizeBundleKindPayload tag payload) flat
                          | None => flat
                          end)))
  | _ => Throw BadBundle
  end.

Definition canonicalizeWire (w : Json) : canon Json :=
  let flat := omit [js "transport"] (fields_of w) in
  match prop w "transport" with
  | Some (JObj t) => let? tp := pickUnionTag t "Wire.transport" in Ok (sortKeys (JObj (assoc_set (js "transport") (JStr tp.1) flat)))
  | Some (JStr t) => Ok (sortKeys (JObj (assoc_set (js "transport") (JStr t) flat)))
  | _ => Throw BadWire
  end.

Fixpoint traverse {A} (f : A -> canon Json) (l : list A) : canon (list Json) :=
  match l with [] => Ok [] | x :: l => let? y := f x in let? ys := traverse f l in Ok (y :: ys) end.

Definition canonicalizeBackend (b : Json) : canon Json :=
  let flat := omit [KIND] (fields_of b) in
  match prop b "kind" with
  | Some (JObj k) =>
      let? tp := pickUnionTag k "Backend.kind" in
      Ok (sortKeys (JObj (assoc_set tp.1 (canonicalizeKindPayload tp.2) (assoc_set KIND (JStr tp.1) flat))))
  | Some (JStr tag) =>
      let flat' := assoc_set KIND (JStr tag) flat in
      Ok (sortKeys (JObj (match assoc tag flat with
                          | Some payload => assoc_set tag (canonicalizeKindPayload payload) flat'
                          | None => flat'
                          end)))
  | _ => Throw BadBackend
  end.

Definition canonicalizeMcpRouteSpec (spec : Json) : canon Json :=
  match spec with
  | JObj _ | JArr _ =>
      let? backends := traverse canonicalizeBackend (rows (prop spec "backends")) in
      Ok (sortKeys (JObj (assoc_set (js "backends") (JArr backends) (own_entries spec))))
  | _ => Ok spec
  end.

Definition canonicalize_payload (tag : jsstr) (payload : Json) : canon Json :=
  if bool_decide (tag = js "mcp") then canonicalizeMcpRouteSpec payload else Ok (canonicalizeKindPayload payload).

Definition canonicalizeRoute (r : Json) : canon Json :=
  let flat := omit [KIND] (fields_of r) in
  let with_payload tag payload :=
    let flat' := assoc_set KIND (JStr tag) flat in
    match payload with
    | None | Some JNull => Ok (sortKeys (JObj flat'))
    | Some payload => let? p := canonicalize_payload tag payload in Ok (sortKeys (JObj (assoc_set tag p flat')))
    end in
  match prop r "kind" with
  | Some (JObj k) => let? tp := pickUnionTag k "Route.kind" in with_payload tp.1 (Some tp.2)
  | Some (JStr tag) => with_payload tag (assoc tag flat)
  | _ => Throw BadRoute
  end.

Definition connection_body (conn : option Json) : option Json :=
  match conn with
  | Some (JObj _) =>
      match opt_prop conn (js "transport") with
      | Some (JObj t) =>
          if bool_decide (is_Some (assoc (js "uds") t)) then
            Some (sortKeys (JObj (object [("transport", Some (JStr (js "uds"))); ("socketPath", nonempty_text (opt_prop conn (js "socketPath")));
                                          ("vaultSlice", nonempty_text (opt_prop conn (js "vaultSlice")))])))
          else None
      | _ => None
      end
  | _ => None
  end.

Definition tenancy_body (t : option Json) : option Json :=
  match t with
  | Some (JObj _) =>
      match object [("mode", nonempty_text (opt_prop t (js "mode"))); ("workerdId", nonempty_text (opt_prop t (js "workerdId")));
                    ("trustedTier", match opt_prop t (js "trustedTier") with Some (JBool true) => Some (JBool true) | _ => None end);
                    ("sharesWorkerdWith", nonempty_list (opt_prop t (js "sharesWorkerdWith")))] with
      | [] => None
      | body => Some (JObj body)
      end
  | _ => None
  end.

Definition input_body (inp : Json) : list (jsstr * Json) :=
  object
    [("ref", nonempty_text (prop inp "ref")); ("version", nonempty_text (prop inp "version")); ("digest", nonempty_text (prop inp "digest"));
     ("from", nonempty_text (prop inp "from")); ("urlBinding", nonempty_text (prop inp "urlBinding"));
     ("serviceBinding", nonempty_text (prop inp "serviceBinding")); ("mutableTagReason", nonempty_text (prop inp "mutableTagReason"));
     ("connection", connection_body (prop inp "connection")); ("provides", nonempty_list (prop inp "provides"));
     ("requires", nonempty_list (prop inp "requires")); ("tenancy", tenancy_body (prop inp "tenancy"))].

(** [out[k] = v] on a plain object: an assignment to [__proto__] makes no property. *)
Definition assign {A} (k : jsstr) (v : A) (m : list (jsstr * A)) : list (jsstr * A) :=
  if decide (k = js "__proto__") then m else obj_set k v m.

Definition canonicalizeInputs (arr : list Json) : list (jsstr * Json) :=
  foldl (fun out inp => match prop inp "name" with
                        | Some (JStr ((_ :: _) as n)) => assign n (JObj (input_body inp)) out
                        | _ => out
                        end) [] arr.

Definition canonicalizeEdge (e : Json) : Json :=
  JObj (object [("from", nonempty_text (prop e "from")); ("to", nonempty_text (prop e "to"));
                ("appProtocol", nonempty_text (prop e "appProtocol")); ("transport", nonempty_text (prop e "transport"))]).

Definition canonicalizeHarnessTarget (t : Json) : Json :=
  sortKeys (JObj (filter (fun kv => match kv.2 with JStr (_ :: _) | JArr _ | JNum _ | JBool _ => true | _ => false end = true) (own_entries t))).

Definition canonicalizeVaultProxyService (svc : Json) : canon Json :=
  let body := object
    [("name", nonempty_text (prop svc "name")); ("upstreamBaseUrl", nonempty_text (prop svc "upstreamBaseUrl"));
     ("defaultAllowedSubs", match prop svc "defaultAllowedSubs" with Some (JArr l) => Some (JArr l) | _ => None end);
     ("rateLimitPerMinute", match prop svc "rateLimitPerMinute" with Some (JNum z) => Some (JNum z) | _ => None end)] in
  let? tp := pickUnionTag (match prop svc "injection" with Some (JObj m) => m | _ => [] end) "gateway.vaultProxyServices.injection" in
  let body := assoc_set (js "injection") (JStr tp.1) body in
  Ok (sortKeys (JObj (match tp.2 with JNull => body | payload => assoc_set tp.1 (canonicalizeKindPayload payload) body end))).

(** [digest] is kept where it is empty. *)
Definition canonicalize_skills (l : list Json) : list Json :=
  map (fun k => sortKeys (JObj (object [("name", prop k "name"); ("digest", Some (text_or (prop k "digest")))])))
      (filter (fun k => is_some (nonempty_text (prop k "name")) = true) l).

Definition nonempty_table (m : list (jsstr * Json)) : option Json := match m with [] => None | _ => Some (sortKeys (JObj m)) end.
Definition nonempty_rows (l : list Json) : option Json := match l with [] => None | _ => Some (JArr l) end.

Definition policy_body (policy : Json) : list (jsstr * Json) :=
  let body := object
    [("maxCertLifetimeSeconds", match prop policy "maxCertLifetimeSeconds" with
                                | Some (JNum z) => if 0 <? z then Some (JNum z) else None | _ => None end);
     ("minAlgorithm", nonempty_text (prop policy "minAlgorithm"))] in
  match body, prop policy "requireInterlock" with
  | _ :: _, Some (JBool b) => assoc_set (js "requireInterlock") (JBool b) body
  | _, _ => body
  end.

Definition canonicalizeGateway (g : option Json) : canon (option Json) :=
  match g with
  | Some (JObj _) =>
      let at_ k := object_or (opt_prop g (js k)) in
      let? services := traverse canonicalizeVaultProxyService (rows (opt_prop g (js "vaultProxyServices"))) in
      let targets := map canonicalizeHarnessTarget (rows (opt_prop g (js "harnessTargets"))) in
      let skills := canonicalize_skills (rows (opt_prop g (js "skills"))) in
      let meta := object [("name", nonempty_text (prop (at_ "metadata"%string) "name")); ("version", nonempty_text (prop (at_ "metadata"%string) "version"));
                          ("metaNamespace", nonempty_text (prop (at_ "metadata"%string) "metaNamespace"))] in
      let actor := object (map (fun k => (k, nonempty_text (prop (at_ "actor"%string) k)))
                             ["fingerprint"; "algorithm"; "pubkeyBinding"; "attestationRepo"; "tunnelEndpoint"]%string) in
      let policy := policy_body (at_ "policy"%string) in
      match object [("metadata", nonempty_table meta); ("actor", nonempty_table actor); ("policy", nonempty_table policy);
                    ("vaultProxyServices", nonempty_rows services); ("harnessTargets", nonempty_rows targets);
                    ("skills", nonempty_rows skills)] with
      | [] => Ok None
      | out => Ok (Some (sortKeys (JObj out)))
      end
  | _ => Ok None
  end.

(** [if (c.k) out.k = sortKeys(c.k)] *)
Definition sorted_table (o : option Json) : option Json := if truthy o then sortKeys <$> o else None.

Definition canonicalizeCluster (c : Json) : canon (list (jsstr * Json)) :=
  let? bundles := traverse canonicalizeBundle (rows (prop c "bundles")) in
  let? wires := traverse canonicalizeWire (rows (prop c "wires")) in
  let inputs := canonicalizeInputs (rows (prop c "inputs")) in
  let? routes := traverse canonicalizeRoute (rows (prop c "routes")) in
  let? gateway := canonicalizeGateway (prop c "gateway") in
  Ok (object
    [("metadata", sorted_table (prop c "metadata")); ("bundles", Some (JArr bundles)); ("wires", Some (JArr wires));
     ("inputs", match inputs with [] => None | _ => Some (JObj inputs) end); ("routes", nonempty_rows routes);
     ("gateway", gateway); ("edges", nonempty_rows (map canonicalizeEdge (rows (prop c "edges"))));
     ("storage", sorted_table (prop c "storage"))]).

Definition clusterToToml (stringifyToml : list (jsstr * Json) -> jsstr) (cluster : Json) : canon jsstr :=
  let? canonical := canonicalizeCluster cluster in Ok (stringifyToml canonical).

(** ** The emitters' validation *)

Inductive validate_error :=
  | NoMetadataName | NoMetadataVersion | NoBundleName | DuplicateName (n : jsstr) | UnknownTier (n t : jsstr) | NoRationale (n : jsstr)
  | IncompleteWire (from to binding : jsstr) | UndeclaredFrom (n : jsstr) | UndeclaredTo (n : jsstr) | SelfWire (n : jsstr).

Definition field (v : Json) (k : string) : jsstr := str_of (prop v k).

(** The loop over the bundles, with the names it has seen. *)
Fixpoint validate_bundles (names : list jsstr) (bundles : list Json) : result validate_error (list jsstr) :=
  match bundles with
  | [] => Ok names
  | b :: bundles =>
      let name := field b "name" in let tier := field b "tier" in
      if bool_decide (name = []) then Throw NoBundleName
      else if bool_decide (name ∈ names) then Throw (DuplicateName name)
      else if negb (bool_decide (tier = js "hypervisor")) && negb (bool_decide (tier = js "cluster")) then Throw (UnknownTier name tier)
      else if bool_decide (tier = js "hypervisor") && bool_decide (field b "hypervisorRationale" = []) then Throw (NoRationale name)
      else validate_bundles (name :: names) bundles
  end.

Definition validate_wire (names : list jsstr) (w : Json) : result validate_error unit :=
  let from := field w "from" in let to := field w "to" in let binding := field w "binding" in
  if bool_decide (from = []) || bool_decide (to = []) || bool_decide (binding = []) then Throw (IncompleteWire from to binding)
  else if negb (bool_decide (from ∈ names)) then Throw (UndeclaredFrom from)
  else if negb (bool_decide (to ∈ names)) then Throw (UndeclaredTo to)
  else if bool_decide (from = to) then Throw (SelfWire from)
  else Ok tt.

Fixpoint validate_wires (names : list jsstr) (wires : list Json) : result validate_error unit :=
  match wires with [] => Ok tt | w :: wires => let? _ := validate_wire names w in validate_wires names wires end.

(** Of a value of the schema. *)
Definition validateCluster (c : Json) : result validate_error unit :=
  let metadata := object_or (prop c "metadata") in
  if bool_decide (field metadata "name" = []) then Throw NoMetadataName
  else if bool_decide (field metadata "version" = []) then Throw NoMetadataVersion
  else let? names := validate_bundles [] (rows (prop c "bundles")) in validate_wires names (rows (prop c "wires")).

(** What the validation asks. *)
Record valid_bundle (b : Json) : Prop := {
  named : field b "name" <> [];
  tiered : field b "tier" = js "hypervisor" /\ field b "hypervisorRationale" <> [] \/ field b "tier" = js "cluster" }.

Record valid_wire (names : list jsstr) (w : Json) : Prop := {
  wire_from : field w "from" <> [] /\ field w "from" ∈ names;
  wire_to : field w "to" <> [] /\ field w "to" ∈ names;
  wire_binding : field w "binding" <> [];
  wire_ends : field w "from" <> field w "to" }.

Lemma validate_bundles_iff names bundles names' : NoDup names ->
  validate_bundles names bundles = Ok names' <->
  Forall valid_bundle bundles /\ NoDup (map (fun b => field b "name") bundles ++ names) /\
  names' = rev (map (fun b => field b "name") bundles) ++ names.
Proof.
  revert names. induction bundles as [|b bundles IH]; intros names Hn; cbn [validate_bundles map rev app].
  - split; [intros [= <-]; by repeat split|by intros (_ & _ & ->)].
  - assert (Hth : forall e P, (P -> False) -> (Throw e = Ok names' :> result validate_error (list jsstr)) <-> P) by (intros ? ? HP; split; [done|by intros ?%HP]).
    case_bool_decide as E1; [apply Hth; intros ([[Hb _] _]%Forall_cons & _); by apply Hb|].
    case_bool_decide as E2; [apply Hth; intros (_ & [Hd _]%NoDup_cons & _); apply Hd, elem_of_app; by right|].
    destruct (bool_decide (field b "tier" = js "hypervisor")) eqn:E3; cbn [negb andb].
    + apply bool_decide_eq_true in E3. case_bool_decide as E4.
      { apply Hth. intros ([[_ Hb] _]%Forall_cons & _). destruct Hb as [[_ ?]|Hb]; [done|]. rewrite Hb in E3. by apply js_inj in E3. }
      rewrite IH by by apply NoDup_cons. rewrite <- Permutation_middle, <- app_assoc. cbn [app]. rewrite Forall_cons.
      assert (Hb : valid_bundle b) by (split; [done|by left]). tauto.
    + apply bool_decide_eq_false in E3. case_bool_decide as E4; cbn [negb].
      * rewrite IH by by apply NoDup_cons. rewrite <- Permutation_middle, <- app_assoc. cbn [app]. rewrite Forall_cons.
        assert (Hb : valid_bundle b) by (split; [done|by right]). tauto.
      * apply Hth. intros ([[_ Hb] _]%Forall_cons & _). by destruct Hb as [[? _]|?].
Qed.

Lemma validate_wires_iff names wires : validate_wires names wires = Ok tt <-> Forall (valid_wire names) wires.
Proof.
  induction wires as [|w wires IH]; cbn [validate_wires]; [by split|]. rewrite Forall_cons, <- IH. unfold validate_wire.
  repeat case_bool_decide; cbn [orb negb rbind]; (split; [try done; intros ?; by repeat split|intros [[[? ?] [? ?] ? ?] ?]; done]).
Qed.

(** What [validateCluster] accepts. *)
Lemma validateCluster_iff c : validateCluster c = Ok tt <->
  field (object_or (prop c "metadata")) "name" <> [] /\ field (object_or (prop c "metadata")) "version" <> [] /\
  Forall valid_bundle (rows (prop c "bundles")) /\ NoDup (map (fun b => field b "name") (rows (prop c "bundles"))) /\
  Forall (valid_wire (map (fun b => field b "name") (rows (prop c "bundles")))) (rows (prop c "wires")).
Proof.
  unfold validateCluster. case_bool_decide as E1; [split; [done|tauto]|]. case_bool_decide as E2; [split; [done|tauto]|].
  assert (Hperm : forall l l', l ≡ₚ l' -> Forall (valid_wire l) (rows (prop c "wires")) -> Forall (valid_wire l') (rows (prop c "wires"))).
  { intros l l' Hp Hw. eapply Forall_impl; [exact Hw|]. intros w [[? ?] [? ?] ? ?]. split; [by rewrite <- Hp..|done|done]. }
  destruct (validate_bundles [] (rows (prop c "bundles"))) as [names|e] eqn:E; cbn [rbind].
  - apply validate_bundles_iff in E as (Hb & Hn & ->); [|constructor]. rewrite !app_nil_r in *. rewrite validate_wires_iff.
    split; [intros Hw; repeat split; try done; eapply Hperm; [|exact Hw]; symmetry; apply Permutation_rev|intros (_ & _ & _ & _ & Hw); eapply Hperm; [|exact Hw]; apply Permutation_rev].
  - split; [done|]. intros (_ & _ & Hb & Hn & _).
    assert (E' : validate_bundles [] (rows (prop c "bundles")) = Ok (rev (map (fun b => field b "name") (rows (prop c "bundles"))) ++ [])).
    { apply validate_bundles_iff; [constructor|]. by rewrite app_nil_r. }
    congruence.
Qed.

End ClusterToml.
