(* ===== verification/ClusterRoundtrip.v ===== *)
(** The round trip of the cluster manifest: what the reverse leg writes, the forward leg reads back as
    the same cluster, whatever order the document's reader gives the keys of a table in.  The files
    that are mapped are those of ClusterToml.v; this one holds the proof. *)
From S2P Require Import Prelude JsString Sql Json JsonText JsConvert Canonical Zod ClusterToml.

Module ClusterRoundtrip.
Import JsonText Zod ClusterToml Canonical.

(** ** Lookups in literals *)

Fixpoint find_field (k : string) (l : list (string * option Json)) : option Json :=
  match l with [] => None | (k', o) :: l => if String.eqb k k' then o else find_field k l end.

Fixpoint find_value (k : string) (l : list (string * Json)) : option Json :=
  match l with [] => None | (k', v) :: l => if String.eqb k k' then Some v else find_value k l end.

Lemma assoc_js_cons {A} k k' (v : A) m : assoc (js k) ((js k', v) :: m) = if String.eqb k k' then Some v else assoc (js k) m.
Proof.
  cbn [assoc]. destruct (String.eqb_spec k k') as [->|Hne]; [by rewrite decide_True|].
  rewrite decide_False; [done|]. by intros E%js_inj.
Qed.

Lemma find_field_none k l : k ∉ map fst l -> find_field k l = None.
Proof.
  induction l as [|[k' o] l IH]; [done|]. cbn [map fst find_field]. rewrite not_elem_of_cons. intros [Hne Hn].
  destruct (String.eqb_spec k k'); [done|by apply IH].
Qed.

Lemma keys_object l k : k ∈ map fst (object l) -> exists k', k = js k' /\ k' ∈ map fst l.
Proof.
  unfold object. induction l as [|[k' [v|]] l IH]; cbn [omap list_omap fst snd fmap option_fmap option_map map].
  - intros H. by apply not_elem_of_nil in H.
  - intros [->|H]%elem_of_cons; [exists k'; by split; [|left]|]. destruct (IH H) as (k0 & -> & ?). exists k0. by split; [|right].
  - intros H. destruct (IH H) as (k0 & -> & ?). exists k0. by split; [|right].
Qed.

Lemma assoc_object k l : NoDup (map fst l) -> assoc (js k) (object l) = find_field k l.
Proof.
  intros Hn. induction l as [|[k' o] l IH]; [done|]. cbn [map fst] in Hn. apply NoDup_cons in Hn as [Hk Hn].
  cbn [find_field]. specialize (IH Hn). unfold object in *. cbn [omap list_omap fst snd].
  destruct o as [v|]; cbn [fmap option_fmap option_map].
  - rewrite assoc_js_cons. by destruct (String.eqb k k').
  - rewrite IH. destruct (String.eqb_spec k k') as [->|]; [|done]. by apply find_field_none.
Qed.

Lemma object_nodup l : NoDup (map fst l) -> NoDup (map fst (object l)).
Proof.
  intros Hn. induction l as [|[k o] l IH]; [constructor|]. cbn [map fst] in Hn. apply NoDup_cons in Hn as [Hk Hn].
  specialize (IH Hn). pose proof (keys_object l) as Hkeys. unfold object in *. cbn [omap list_omap fst snd].
  destruct o as [v|]; cbn [fmap option_fmap option_map map fst]; [|done]. apply NoDup_cons. split; [|done].
  intros H. destruct (Hkeys _ H) as (k' & E & ?). apply js_inj in E. by subst.
Qed.

Lemma elem_object k v l : (js k, v) ∈ object l -> exists o, (k, o) ∈ l /\ o = Some v.
Proof.
  unfold object. intros ([k' o] & Hin & E)%list_elem_of_omap. cbn [fst snd] in E. destruct o as [x|]; [|done].
  injection E as E ->. apply js_inj in E. subst. by exists (Some v).
Qed.

(** What [distinct_keys] asks of a literal. *)
Lemma distinct_object l : NoDup (map fst l) ->
  Forall (fun ko => match ko.2 with Some v => distinct_keys v = true | None => True end) l ->
  distinct_keys (JObj (object l)) = true.
Proof.
  intros Hn Hf. cbn [distinct_keys]. rewrite bool_decide_true by by apply object_nodup. apply forallb_forall.
  intros [k v] Hin%list_elem_of_In. cbn [snd]. rewrite Forall_forall in Hf.
  unfold object in Hin. apply list_elem_of_omap in Hin as ([k' o] & Hin & E). cbn [fst snd] in E. destruct o as [x|]; [|done].
  injection E as _ ->. apply (Hf _ Hin).
Qed.

Lemma assoc_set_lookup {A} k k' (v : A) m : assoc k (assoc_set k' v m) = if decide (k = k') then Some v else assoc k m.
Proof. apply assoc_assoc_set. Qed.

Lemma assoc_omit k ks m : assoc k (omit ks m) = if decide (k ∈ ks) then None else assoc k m.
Proof.
  unfold omit. induction m as [|[k' v] m IH]; [by case_decide|]. rewrite filter_cons. cbn [fst].
  destruct (decide (k' ∉ ks)) as [Hk'|Hk']; cbn [assoc]; rewrite IH.
  - destruct (decide (k = k')) as [->|]; [|done]. by destruct (decide (k' ∈ ks)).
  - destruct (decide (k = k')) as [->|]; [|done].
    destruct (decide (k' ∈ ks)) as [|Hn]; [done|]. by destruct Hk'.
Qed.

Lemma keys_omit k ks m : k ∈ map fst (omit ks m) <-> k ∈ map fst m /\ k ∉ ks.
Proof.
  unfold omit. rewrite !list_elem_of_fmap. split.
  - intros ([k' v] & -> & [? ?]%list_elem_of_filter). split; [by exists (k', v)|done].
  - intros [([k' v] & -> & ?) ?]. exists (k', v). split; [done|]. by apply list_elem_of_filter.
Qed.

Lemma NoDup_omit ks m : NoDup (map fst m) -> NoDup (map fst (omit ks m)).
Proof.
  induction m as [|[k v] m IH]; [done|]. cbn [map fst]. intros [Hk Hn]%NoDup_cons. unfold omit. rewrite filter_cons. cbn [fst].
  destruct (decide (k ∉ ks)); [|by apply IH]. cbn [map fst]. apply NoDup_cons. split; [|by apply IH].
  intros H. by apply keys_omit in H as [H _].
Qed.

Lemma distinct_assoc_set k v m : distinct_keys (JObj m) = true -> distinct_keys v = true -> distinct_keys (JObj (assoc_set k v m)) = true.
Proof.
  cbn [distinct_keys]. intros [Hn Hd]%andb_prop Hv. apply bool_decide_eq_true in Hn. apply andb_true_iff. split.
  - apply bool_decide_eq_true. by apply NoDup_assoc_set.
  - clear Hn. induction m as [|[k' v'] m IH]; cbn [assoc_set forallb snd] in *; [by rewrite Hv|]. apply andb_prop in Hd as [Hd' Hd].
    case_decide; cbn [forallb snd]; [by rewrite Hv, Hd|by rewrite Hd', IH].
Qed.

Lemma distinct_omit ks m : distinct_keys (JObj m) = true -> distinct_keys (JObj (omit ks m)) = true.
Proof.
  cbn [distinct_keys]. intros [Hn Hd]%andb_prop. apply bool_decide_eq_true in Hn. apply andb_true_iff. split.
  - apply bool_decide_eq_true. by apply NoDup_omit.
  - rewrite forallb_forall in *. intros kv Hin%list_elem_of_In. unfold omit in Hin. apply list_elem_of_filter in Hin as [_ Hin]. by apply Hd, list_elem_of_In.
Qed.

(** ** Sorting *)

Lemma sorted_keys_perm (m : list (jsstr * Json)) : order_by key_le m ≡ₚ m.
Proof. apply merge_sort_Permutation. Qed.

Lemma assoc_sorted k (m : list (jsstr * Json)) : NoDup (map fst m) -> assoc k (order_by key_le m) = assoc k m.
Proof. intros Hn. symmetry. apply assoc_reorder; [done|]. symmetry. apply sorted_keys_perm. Qed.

Lemma fst_map_snd {A B} (f : A -> B) (m : list (jsstr * A)) : map fst (map (fun kv => (kv.1, f kv.2)) m) = map fst m.
Proof. by rewrite map_map. Qed.

Lemma distinct_ordered m : distinct_keys (JObj m) = true -> distinct_keys (JObj (order_by key_le m)) = true.
Proof.
  cbn [distinct_keys]. intros [Hn Hd]%andb_prop. apply bool_decide_eq_true in Hn. apply andb_true_iff. split.
  - apply bool_decide_eq_true. by rewrite sorted_keys_perm.
  - by rewrite (forallb_perm _ _ _ (sorted_keys_perm m)).
Qed.

(** Values that are equal but for the order of keys, property by property. *)
Lemma alike_map (f : Json -> Json) m m' : NoDup (map fst m) -> m' ≡ₚ map (fun kv => (kv.1, f kv.2)) m ->
  Forall (fun kv => alike (f kv.2) kv.2) m -> alike (JObj m') (JObj m).
Proof.
  intros Hn Hp Hf. unfold alike. cbn [sort_keys]. f_equal. apply sort_perm.
  - rewrite fst_map_snd. rewrite Hp, fst_map_snd. done.
  - rewrite Hp, map_map. cbn [fst snd]. erewrite map_ext_Forall; [reflexivity|]. eapply Forall_impl; [exact Hf|].
    intros [k v] E. cbn [fst snd] in *. by rewrite E.
Qed.

Lemma sortKeys_distinct v : distinct_keys v = true -> distinct_keys (sortKeys v) = true.
Proof.
  induction v as [| | | |l Hl|m Hm] using json_tree_ind; intros Hd; try done. cbn [sortKeys]. apply distinct_ordered.
  cbn [distinct_keys] in *. apply andb_prop in Hd as [Hn Hd]. rewrite fst_map_snd, Hn. cbn [andb]. rewrite forallb_forall in *.
  intros x Hx. apply in_map_iff in Hx as ([k v] & <- & Hv). cbn [snd fst]. rewrite Forall_forall in Hm.
  apply (Hm (k, v)); [by apply list_elem_of_In|]. apply (Hd (k, v) Hv).
Qed.

Lemma sortKeys_alike v : distinct_keys v = true -> alike (sortKeys v) v.
Proof.
  induction v as [| | | |l Hl|m Hm] using json_tree_ind; intros Hd; try done. cbn [sortKeys].
  apply distinct_obj in Hd as [Hn Hd]. apply (alike_map sortKeys); [done|apply sorted_keys_perm|].
  rewrite Forall_forall in *. intros [k v] Hin. apply (Hm _ Hin). apply (Hd k). by apply elem_of_assoc.
Qed.

Lemma sort_entry_spec v : distinct_keys v = true -> alike (sort_entry v) v /\ distinct_keys (sort_entry v) = true.
Proof.
  destruct v as [| | | |l|]; cbn [sort_entry]; intros Hd; [by split..| |by split]. cbn [distinct_keys] in *. rewrite forallb_forall in Hd. split.
  - unfold alike. cbn [sort_keys]. f_equal. rewrite map_map. apply map_ext_in. intros x Hx. by apply sortKeys_alike, Hd.
  - apply forallb_forall. intros y Hy. apply in_map_iff in Hy as (x & <- & Hx). by apply sortKeys_distinct, Hd.
Qed.

(** A payload is kept, but for the order of keys. *)
Lemma kind_payload_spec m : distinct_keys (JObj m) = true ->
  exists m', canonicalizeKindPayload (JObj m) = JObj m' /\ alike (JObj m') (JObj m) /\ distinct_keys (JObj m') = true.
Proof.
  intros Hd. exists (order_by key_le (map (fun kv => (kv.1, sort_entry kv.2)) m)).
  split; [reflexivity|]. pose proof (distinct_obj _ Hd) as [Hn Hv]. split.
  - apply (alike_map sort_entry); [done|apply sorted_keys_perm|]. rewrite Forall_forall. intros [k v] Hin.
    apply sort_entry_spec, (Hv k). by apply elem_of_assoc.
  - apply distinct_ordered. cbn [distinct_keys]. rewrite fst_map_snd, bool_decide_true by done. apply forallb_forall.
    intros x Hx. apply in_map_iff in Hx as ([k v] & <- & Hin). cbn [snd]. apply sort_entry_spec, (Hv k). apply elem_of_assoc; [done|].
    by apply list_elem_of_In.
Qed.

(** ** Reading what was written *)

(** Reading [k] of [w] gives [o], but for the order of keys. *)
Definition sees (w : Json) (k : string) (o : option Json) : Prop := sort_keys <$> prop w k = sort_keys <$> o.

Lemma sees_obj m w k : distinct_keys (JObj m) = true -> alike (JObj m) w -> sees w k (assoc (js k) m).
Proof. intros [Hn _]%distinct_obj (m' & -> & _ & Ha)%alike_obj; [|done]. apply Ha. Qed.

Lemma sees_literal l w k : NoDup (map fst l) -> distinct_keys (JObj (object l)) = true -> alike (JObj (object l)) w -> sees w k (find_field k l).
Proof. intros Hn Hd Ha. rewrite <- assoc_object by done. by apply sees_obj. Qed.

Lemma sort_keys_str v t : sort_keys v = JStr t -> v = JStr t.
Proof. by destruct v. Qed.
Lemma sort_keys_num v z : sort_keys v = JNum z -> v = JNum z.
Proof. by destruct v. Qed.
Lemma sort_keys_bool v b : sort_keys v = JBool b -> v = JBool b.
Proof. by destruct v. Qed.

Lemma sees_none w k : sees w k None -> prop w k = None.
Proof. unfold sees. by destruct (prop w k). Qed.
Lemma sees_some w k v : sees w k (Some v) -> exists v', prop w k = Some v' /\ alike v v'.
Proof. unfold sees. destruct (prop w k) as [v'|]; [|done]. intros [= E]. by exists v'. Qed.
Lemma sees_str w k t : sees w k (Some (JStr t)) -> prop w k = Some (JStr t).
Proof. intros (v' & -> & E)%sees_some. unfold alike in E. cbn [sort_keys] in E. by rewrite (sort_keys_str v' t). Qed.
Lemma sees_num w k z : sees w k (Some (JNum z)) -> prop w k = Some (JNum z).
Proof. intros (v' & -> & E)%sees_some. unfold alike in E. cbn [sort_keys] in E. by rewrite (sort_keys_num v' z). Qed.
Lemma sees_bool w k b : sees w k (Some (JBool b)) -> prop w k = Some (JBool b).
Proof. intros (v' & -> & E)%sees_some. unfold alike in E. cbn [sort_keys] in E. by rewrite (sort_keys_bool v' b). Qed.
Lemma sees_arr w k l : sees w k (Some (JArr l)) -> exists l', prop w k = Some (JArr l') /\ Forall2 alike l l'.
Proof. intros (v' & -> & E)%sees_some. apply alike_arr in E as (l' & -> & ?). by exists l'. Qed.

Lemma alike_strs ts l : Forall2 alike (map JStr ts) l -> l = map JStr ts.
Proof.
  revert l. induction ts as [|t ts IH]; intros l; inversion 1 as [|? x ? l' E Hl]; subst; [done|].
  cbn [map]. rewrite (IH _ Hl). unfold alike in E. by rewrite (sort_keys_str x t).
Qed.

Lemma read_text w k t : sees w k (nonempty_text (Some (JStr t))) -> text_or (prop w k) = JStr t.
Proof. destruct t as [|c t]; cbn [nonempty_text]; [by intros ->%sees_none|by intros ->%sees_str]. Qed.

Lemma read_strs w k ts : sees w k (nonempty_list (Some (JArr (map JStr ts)))) -> list_or (prop w k) = JArr (map JStr ts).
Proof.
  destruct ts as [|t ts]; [by intros ->%sees_none|].
  change (nonempty_list (Some (JArr (map JStr (t :: ts))))) with (Some (JArr (map JStr (t :: ts)))).
  intros (l & -> & Hl)%sees_arr. by rewrite (alike_strs _ _ Hl).
Qed.

(** ** Schemas, field by field *)

Lemma map_js_nodup (l : list string) : NoDup l -> NoDup (map js l).
Proof. intros Hn. by apply (NoDup_fmap_2 js). Qed.

Lemma fst_fields (l : list (string * Schema)) : map fst (map (fun '(k, s) => (js k, s)) l) = map js (map fst l).
Proof. rewrite !map_map. apply map_ext. by intros []. Qed.

Lemma conforms_fields l v : NoDup (map fst l) -> conforms (fields l) v ->
  exists m, v = JObj m /\ map fst m = map js (map fst l) /\ Forall (fun ks => exists x, prop v ks.1 = Some x /\ conforms ks.2 x) l.
Proof.
  intros Hn Hv. apply conforms_obj in Hv as (m & -> & Hk & Hf); [|rewrite fst_fields; by apply map_js_nodup].
  rewrite fst_fields in Hk. exists m. split; [done|]. split; [done|]. rewrite Forall_forall. intros [k s] Hin.
  apply Hf. apply list_elem_of_fmap. by exists (k, s).
Qed.

Lemma parse_fields_to l m w : NoDup (map fst l) -> map fst m = map js (map fst l) ->
  (forall k, k ∈ map fst w -> k ∈ map js (map fst l)) ->
  Forall (fun ks => parse ks.2 (assoc (js ks.1) w) = assoc (js ks.1) m) l ->
  parse (fields l) (Some (JObj w)) = Some (JObj m).
Proof.
  intros Hn Hm Hw Hf. apply parse_obj_to; rewrite ?fst_fields; [done|by apply map_js_nodup|done|].
  intros k s Hin. apply list_elem_of_fmap in Hin as ([k' s'] & [= -> ->] & Hin). rewrite Forall_forall in Hf. apply (Hf _ Hin).
Qed.

(** The keys of a literal are those of a schema. *)
Definition same_fields (lit : list (string * option Json)) (l : list (string * Schema)) : bool :=
  forallb (fun k => existsb (String.eqb k) (map fst l)) (map fst lit) && bool_decide (NoDup (map fst lit)) && bool_decide (NoDup (map fst l)).

Lemma parse_literal l m lit : same_fields lit l = true -> map fst m = map js (map fst l) ->
  Forall (fun ks => parse ks.2 (find_field ks.1 lit) = assoc (js ks.1) m) l ->
  parse (fields l) (Some (JObj (object lit))) = Some (JObj m).
Proof.
  unfold same_fields. intros [[Hk Hn]%andb_prop Hl]%andb_prop Hm Hf. apply bool_decide_eq_true in Hn, Hl.
  apply parse_fields_to; [done|done| |].
  - intros k (k' & -> & Hin)%keys_object. rewrite forallb_forall in Hk. apply list_elem_of_In, Hk, existsb_exists in Hin as (k0 & H0 & E).
    apply String.eqb_eq in E as <-. apply list_elem_of_fmap_2. by apply list_elem_of_In.
  - eapply Forall_impl; [exact Hf|]. intros [k s]. cbn [fst snd]. by rewrite assoc_object.
Qed.

(** ** The rows *)

(** What is written of [v] is read back as [v]. *)
Definition recovers (s : Schema) (read : Json -> Json) (v w : Json) : Prop :=
  distinct_keys w = true /\ forall w', alike w w' -> parse s (Some (read w')) = Some v.

Ltac each_field := repeat (apply Forall_cons; split); [..|by apply Forall_nil]; cbn [fst snd].
Ltac split_fields H :=
  repeat (rewrite Forall_cons in H); cbn [fst snd] in H.

Lemma nodup_strings (l : list string) : bool_decide (NoDup l) = true -> NoDup l.
Proof. apply bool_decide_eq_true. Qed.
Lemma nodup_keys (l : list jsstr) : bool_decide (NoDup l) = true -> NoDup l.
Proof. apply bool_decide_eq_true. Qed.

Lemma distinct_text t : match nonempty_text (Some (JStr t)) with Some v => distinct_keys v = true | None => True end.
Proof. by destruct t. Qed.

Lemma distinct_strs ts : distinct_keys (JArr (map JStr ts)) = true.
Proof. cbn [distinct_keys]. by induction ts. Qed.

Lemma parse_strs ts : parse (Arr Str) (Some (JArr (map JStr ts))) = Some (JArr (map JStr ts)).
Proof.
  rewrite parse_arr. assert (E : mapM (fun x => parse Str (Some x)) (map JStr ts) = Some (map JStr ts)); [|by rewrite E].
  induction ts as [|t ts IH]; [done|]. cbn [map mapM]. by rewrite IH.
Qed.

Lemma edge_recovers v : conforms EdgeSpecSchema v -> recovers EdgeSpecSchema unflattenEdge v (canonicalizeEdge v).
Proof.
  intros Hv. apply conforms_fields in Hv as (m & Em & Hk & Hf); [|by apply nodup_strings; vm_compute]. split_fields Hf.
  destruct Hf as ((x1 & E1 & (t1 & ->)%conforms_str) & (x2 & E2 & (t2 & ->)%conforms_str) & (x3 & E3 & (t3 & ->)%conforms_str) & (x4 & E4 & (t4 & ->)%conforms_str) & _).
  unfold canonicalizeEdge. rewrite E1, E2, E3, E4. set (lit := [_; _; _; _]).
  assert (Hn : NoDup (map fst lit)) by (apply nodup_strings; vm_compute; reflexivity).
  assert (Hd : distinct_keys (JObj (object lit)) = true) by (apply distinct_object; [done|]; repeat constructor; apply distinct_text).
  split; [done|]. intros w Ha. pose proof (fun k => sees_literal lit w k Hn Hd Ha) as Hs. rewrite Em in *. unfold prop in E1, E2, E3, E4. cbn [get_prop] in E1, E2, E3, E4.
  apply parse_literal; [vm_compute; reflexivity|done|]. each_field.
  - rewrite E1. cbn [find_field String.eqb Ascii.eqb Bool.eqb]. by rewrite (read_text _ _ t1 (Hs "from"%string)).
  - rewrite E2. cbn [find_field String.eqb Ascii.eqb Bool.eqb]. by rewrite (read_text _ _ t2 (Hs "to"%string)).
  - rewrite E3. cbn [find_field String.eqb Ascii.eqb Bool.eqb]. by rewrite (read_text _ _ t3 (Hs "appProtocol"%string)).
  - rewrite E4. cbn [find_field String.eqb Ascii.eqb Bool.eqb]. by rewrite (read_text _ _ t4 (Hs "transport"%string)).
Qed.

(** Objects that agree on every key. *)
Lemma alike_by_lookup m m' : NoDup (map fst m) -> NoDup (map fst m') ->
  (forall k, sort_keys <$> assoc k m = sort_keys <$> assoc k m') -> alike (JObj m) (JObj m').
Proof.
  intros Hn Hn' Ha. unfold alike. cbn [sort_keys]. f_equal. apply sort_perm; [by rewrite fst_map_snd|].
  apply NoDup_Permutation.
  - eapply NoDup_fmap_1. by rewrite <- (fst_map_snd sort_keys) in Hn.
  - eapply NoDup_fmap_1. by rewrite <- (fst_map_snd sort_keys) in Hn'.
  - intros [k v]. rewrite !elem_of_assoc by by rewrite fst_map_snd. by rewrite !assoc_map_snd, Ha.
Qed.


(** A union that was written flat is nested back. *)
Lemma nest_back k tag y q m m' :
  NoDup (map fst m) -> NoDup (map fst m') -> assoc k m = Some (JObj [(tag, y)]) -> assoc tag m = None -> alike q y ->
  (forall j, j <> k -> j <> tag -> sort_keys <$> assoc j m' = sort_keys <$> assoc j m) ->
  alike (JObj m) (nest k tag (Some q) m').
Proof.
  intros Hn Hn' Ek Et Hq Hj. unfold nest. apply alike_by_lookup; [done|by apply NoDup_assoc_set, NoDup_omit|].
  intros j. rewrite assoc_set_lookup, assoc_omit. destruct (decide (j = k)) as [->|Hk].
  - rewrite Ek. cbn [fmap option_fmap option_map sort_keys map fst snd]. unfold alike in Hq. by rewrite Hq.
  - destruct (decide (j ∈ [k; tag])) as [Hin|Hin].
    + assert (j = tag) as -> by (rewrite !elem_of_cons in Hin; destruct Hin as [?|[?|Hx]]; [done|done|by apply not_elem_of_nil in Hx]).
      by rewrite Et.
    + rewrite Hj; [done|done|]. intros ->. apply Hin. right. by left.
Qed.

Lemma recovers_alike s read v w : wf s = true -> conforms s v -> distinct_keys w = true ->
  (forall w', alike w w' -> alike v (read w')) -> recovers s read v w.
Proof.
  intros Hw Hv Hd Ha. split; [done|]. intros w' Hw'. rewrite <- (parse_alike s v); [done|by eapply conforms_distinct|by apply Ha].
Qed.

Lemma alike_keys m m' : NoDup (map fst m) -> alike (JObj m) (JObj m') -> NoDup (map fst m') /\
  forall k, sort_keys <$> assoc k m' = sort_keys <$> assoc k m.
Proof. intros Hn (m1 & [= <-] & Hp & Ha)%alike_obj; [|done]. split; [by rewrite Hp|done]. Qed.

Lemma wire_recovers v : conforms WireSchema v ->
  exists w, canonicalizeWire v = Ok w /\ recovers WireSchema unflattenWireTransport v w.
Proof.
  intros Hv. pose proof (conforms_distinct WireSchema eq_refl v Hv) as Hd.
  pose proof Hv as Hv'. apply conforms_fields in Hv' as (m & -> & Hk & Hf); [|by apply nodup_strings; vm_compute].
  split_fields Hf. destruct Hf as (_ & _ & _ & (x & E & Hx) & _). apply conforms_oneof in Hx as (tag & s & y & Hin & -> & Hy).
  unfold canonicalizeWire. rewrite E. cbn [pickUnionTag rbind fst]. eexists. split; [reflexivity|]. cbn [fields_of].
  assert (y = JNull) as ->.
  { cbn [map] in Hin. rewrite !elem_of_cons in Hin. destruct Hin as [[= _ ->]|[[= _ ->]|Hin]]; [| |by apply not_elem_of_nil in Hin];
    unfold conforms in Hy; by destruct y. }
  unfold prop in E. cbn [get_prop] in E. pose proof (distinct_obj _ Hd) as [Hn _].
  assert (Hd' : distinct_keys (JObj (assoc_set (js "transport") (JStr tag) (omit [js "transport"] m))) = true)
    by (apply distinct_assoc_set; [by apply distinct_omit|done]).
  apply recovers_alike; [vm_compute; reflexivity|done|by apply sortKeys_distinct|].
  intros w Ha. rewrite sortKeys_alike in Ha by done. pose proof (distinct_obj _ Hd') as [Hn' _].
  destruct (alike_obj _ _ Hn' Ha) as (m' & -> & Hp & Hl). cbn [unflattenWireTransport].
  assert (Et : assoc (js "transport") m' = Some (JStr tag)).
  { specialize (Hl (js "transport")). rewrite assoc_set_lookup, decide_True in Hl by done.
    destruct (assoc (js "transport") m') as [x|]; [|done]. injection Hl as Ex. by rewrite (sort_keys_str x tag). }
  rewrite Et. apply alike_by_lookup; [done|apply NoDup_assoc_set, NoDup_omit; by rewrite Hp|].
  intros j. rewrite assoc_set_lookup, assoc_omit. destruct (decide (j = js "transport")) as [->|Hj]; [by rewrite E|].
  rewrite decide_False by by rewrite list_elem_of_singleton. rewrite Hl, assoc_set_lookup, decide_False, assoc_omit, decide_False; [done| |done].
  by rewrite list_elem_of_singleton.
Qed.

(** ** Unions written flat *)

(** [{ ...m without k, k: tag, tag: p }], where the payload is written. *)
Definition flat (k tag : jsstr) (p : option Json) (m : list (jsstr * Json)) : list (jsstr * Json) :=
  let m := assoc_set k (JStr tag) (omit [k] m) in match p with Some p => assoc_set tag p m | None => m end.

Lemma flat_read k tag p m w : distinct_keys (JObj m) = true -> match p with Some p => distinct_keys p = true | None => True end ->
  tag <> k -> assoc tag m = None -> alike (sortKeys (JObj (flat k tag p m))) w ->
  exists m', w = JObj m' /\ NoDup (map fst m') /\ assoc k m' = Some (JStr tag) /\
    sort_keys <$> assoc tag m' = sort_keys <$> p /\
    (forall j, j <> k -> j <> tag -> sort_keys <$> assoc j m' = sort_keys <$> assoc j m) /\
    (forall j, j ∈ map fst m' -> j ∈ map fst m \/ j = k \/ j = tag).
Proof.
  intros Hd Hp Hne Ht Ha.
  assert (Hd' : distinct_keys (JObj (flat k tag p m)) = true).
  { unfold flat. destruct p; [apply distinct_assoc_set; [|done]|]; (apply distinct_assoc_set; [by apply distinct_omit|done]). }
  rewrite sortKeys_alike in Ha by done. pose proof (distinct_obj _ Hd') as [Hn' _].
  destruct (alike_obj _ _ Hn' Ha) as (m' & -> & Hperm & Hl). exists m'. split; [done|]. split; [by rewrite Hperm|].
  assert (Hlook : forall j, assoc j (flat k tag p m) =
            if decide (j = tag) then p else if decide (j = k) then Some (JStr tag) else assoc j m).
  { intros j. unfold flat. destruct p as [p|]; rewrite ?assoc_set_lookup, assoc_omit.
    - case_decide as E1; [done|]. case_decide as E2; [done|]. rewrite decide_False; [done|]. by rewrite list_elem_of_singleton.
    - destruct (decide (j = tag)) as [->|]; [rewrite decide_False by done; by rewrite decide_False by by rewrite list_elem_of_singleton|].
      case_decide as E2; [done|]. rewrite decide_False; [done|]. by rewrite list_elem_of_singleton. }
  repeat split.
  - specialize (Hl k). rewrite Hlook, decide_False, decide_True in Hl by done.
    destruct (assoc k m') as [x|]; [|done]. injection Hl as Ex. by rewrite (sort_keys_str x tag).
  - specialize (Hl tag). by rewrite Hlook, decide_True in Hl.
  - intros j Hk Hj. rewrite Hl, Hlook. by rewrite !decide_False.
  - intros j Hj. rewrite Hperm in Hj. destruct (decide (j = k)) as [|Hk]; [by right; left|]. destruct (decide (j = tag)) as [|Ht']; [by right; right|].
    left. destruct (assoc j m) as [x|] eqn:Ex.
    + apply elem_of_assoc in Ex; [|by apply distinct_obj in Hd as [? _]]. change j with (j, x).1. by apply list_elem_of_fmap_2.
    + exfalso. assert (En : assoc j (flat k tag p m) = None) by by rewrite Hlook, !decide_False. by apply assoc_None in En.
Qed.

(** The object is nested back, and read as it was. *)
Lemma parse_nested l vs k tag s q y m m' :
  NoDup (map fst l) -> wf (fields l) = true -> (k, OneOf vs) ∈ l -> NoDup (map fst vs) -> (tag, s) ∈ vs -> tag ∉ map js (map fst l) ->
  conforms (fields l) (JObj m) -> assoc (js k) m = Some (JObj [(tag, y)]) -> parse s (Some q) = Some y ->
  NoDup (map fst m') ->
  (forall j, j <> js k -> j <> tag -> sort_keys <$> assoc j m' = sort_keys <$> assoc j m) ->
  (forall j, j ∈ map fst m' -> j ∈ map fst m \/ j = js k \/ j = tag) ->
  parse (fields l) (Some (nest (js k) tag (Some q) m')) = Some (JObj m).
Proof.
  intros Hn Hw Hkl Hvs Hin Htag Hc Ek Eq Hn' Hj Hkeys. unfold nest.
  pose proof (conforms_distinct _ Hw _ Hc) as Hd. pose proof (distinct_obj _ Hd) as [_ Hdv].
  apply conforms_fields in Hc as (m0 & [= <-] & Hk & Hf); [|done].
  assert (Hkin : js k ∈ map js (map fst l)).
  { apply list_elem_of_fmap_2. change k with (k, OneOf vs).1. by apply list_elem_of_fmap_2. }
  assert (Hkt : js k <> tag) by by intros <-.
  apply parse_fields_to; [done|done| |].
  - intros j Hjm. destruct (decide (j = js k)) as [->|Hne]; [done|].
    assert (Hin' : j ∈ map fst (omit [js k; tag] m')).
    { apply list_elem_of_fmap in Hjm as ([j' x] & -> & Hx). cbn [fst] in *. apply elem_of_assoc in Hx; [|by apply NoDup_assoc_set, NoDup_omit].
      rewrite assoc_set_lookup, decide_False in Hx by done. apply elem_of_assoc in Hx; [|by apply NoDup_omit].
      change j' with (j', x).1. by apply list_elem_of_fmap_2. }
    apply keys_omit in Hin' as [Hjm' Hno]. rewrite <- Hk. destruct (Hkeys j Hjm') as [?|[?|?]]; [done|done|].
    subst. exfalso. apply Hno. right. by left.
  - rewrite Forall_forall in *. intros [k' s'] Hin'. cbn [fst snd]. destruct (Hf _ Hin') as (x & Ex & Hx). cbn [fst snd] in *.
    unfold prop in Ex. cbn [get_prop] in Ex. rewrite Ex, assoc_set_lookup. destruct (decide (js k' = js k)) as [E|Hne].
    + apply js_inj in E as ->. assert (s' = OneOf vs) as ->.
      { clear -Hn Hin' Hkl. induction l as [|[k0 s0] l IH]; [by apply not_elem_of_nil in Hin'|]. cbn [map fst] in Hn. apply NoDup_cons in Hn as [Hk0 Hn].
        apply elem_of_cons in Hin' as [[= <- <-]|Hin'], Hkl as [[= <-]|Hkl]; try done.
        - exfalso. apply Hk0. change k with (k, OneOf vs).1. by apply list_elem_of_fmap_2.
        - exfalso. apply Hk0. change k with (k, s').1. by apply list_elem_of_fmap_2.
        - by apply IH. }
      rewrite Ek in Ex. injection Ex as <-. by eapply parse_oneof_to.
    + assert (Ht : js k' <> tag).
      { intros <-. apply Htag. apply list_elem_of_fmap_2. change k' with (k', s').1. by apply list_elem_of_fmap_2. }
      rewrite assoc_omit, decide_False by (rewrite !elem_of_cons; intros [?|[?|H]]; [done|done|by apply not_elem_of_nil in H]).
      specialize (Hj (js k') Hne Ht). rewrite Ex in Hj. destruct (assoc (js k') m') as [x'|]; [|done]. injection Hj as E.
      rewrite <- (parse_alike s' x x'); [done|by apply (Hdv (js k'))|done].
Qed.

(** What is written of a union, read back through [nest]. *)
Lemma flat_recovers l vs k tag s y p m (readp : option Json -> option Json) (read : Json -> Json) :
  NoDup (map fst l) -> wf (fields l) = true -> (k, OneOf vs) ∈ l -> NoDup (map fst vs) -> (tag, s) ∈ vs -> tag ∉ map js (map fst l) ->
  conforms (fields l) (JObj m) -> assoc (js k) m = Some (JObj [(tag, y)]) ->
  match p with Some p => distinct_keys p = true | None => True end ->
  (forall o, sort_keys <$> o = sort_keys <$> p -> exists q, readp o = Some q /\ parse s (Some q) = Some y) ->
  (forall m', assoc (js k) m' = Some (JStr tag) -> read (JObj m') = nest (js k) tag (readp (assoc tag m')) m') ->
  recovers (fields l) read (JObj m) (sortKeys (JObj (flat (js k) tag p m))).
Proof.
  intros Hn Hw Hkl Hvs Hin Htag Hc Ek Hp Hq Hr. pose proof (conforms_distinct _ Hw _ Hc) as Hd.
  assert (Hkt : tag <> js k).
  { intros ->. apply Htag. apply list_elem_of_fmap_2. change k with (k, OneOf vs).1. by apply list_elem_of_fmap_2. }
  assert (Ht : assoc tag m = None).
  { apply assoc_None. pose proof Hc as Hc'. apply conforms_fields in Hc' as (m0 & [= <-] & -> & _); done. }
  split.
  - apply sortKeys_distinct. unfold flat. destruct p; [apply distinct_assoc_set; [|done]|]; (apply distinct_assoc_set; [by apply distinct_omit|done]).
  - intros w Ha. destruct (flat_read (js k) tag p m w Hd Hp Hkt Ht Ha) as (m' & -> & Hn' & E1 & E2 & Hj & Hkeys).
    rewrite (Hr m' E1). destruct (Hq _ E2) as (q & -> & Eq). by eapply parse_nested.
Qed.

(** A payload that is kept whole. *)
Lemma payload_read s m y : wf s = true -> y = JObj m -> conforms s y ->
  distinct_keys (canonicalizeKindPayload y) = true /\
  forall o, sort_keys <$> o = sort_keys <$> Some (canonicalizeKindPayload y) -> exists q, o = Some q /\ parse s (Some q) = Some y.
Proof.
  intros Hw -> Hy. pose proof (conforms_distinct s Hw _ Hy) as Hd. destruct (kind_payload_spec m Hd) as (m' & E & Ha & Hd').
  rewrite E. split; [done|]. intros [q|] Eq; [|done]. injection Eq as Eq. exists q. split; [done|].
  rewrite <- (parse_alike s (JObj m) q); [done|done|]. rewrite <- Ha. done.
Qed.

(** ** Rows *)

Definition reads_back (s : Schema) (write : Json -> canon Json) (read : Json -> Json) : Prop :=
  forall v, conforms s v -> exists w, write v = Ok w /\ recovers s read v w.

Lemma traverse_recovers s write read l : (forall v, v ∈ l -> exists w, write v = Ok w /\ recovers s read v w) ->
  exists ws, traverse write l = Ok ws /\ Forall2 (recovers s read) l ws.
Proof.
  induction l as [|v l IH]; intros H; [exists []; by split|]. destruct (H v ltac:(by left)) as (w & E & Hw).
  destruct IH as (ws & E' & Hws); [intros x Hx; apply H; by right|]. exists (w :: ws). cbn [traverse]. rewrite E. cbn [rbind]. rewrite E'. split; [done|by constructor].
Qed.

Lemma rows_recover s read l ws : Forall2 (recovers s read) l ws ->
  distinct_keys (JArr ws) = true /\
  forall ws', Forall2 alike ws ws' -> parse (Arr s) (Some (JArr (map read ws'))) = Some (JArr l).
Proof.
  intros H. split.
  - cbn [distinct_keys]. induction H as [|v w l ws [Hd _] H IH]; [done|]. cbn [forallb]. by rewrite Hd.
  - intros ws' Ha. rewrite parse_arr. assert (E : mapM (fun x => parse s (Some x)) (map read ws') = Some l); [|by rewrite E].
    revert ws' Ha. induction H as [|v w l ws [_ Hr] H IH]; intros ws' Ha; inversion Ha as [|? w' ? ws0 Hw Hws]; subst; [done|].
    cbn [map mapM]. rewrite (Hr w' Hw). cbn [mbind option_bind]. by rewrite IH.
Qed.

Lemma map_recovers s write read l : Forall (fun v => recovers s read v (write v)) l -> Forall2 (recovers s read) l (map write l).
Proof. induction 1; constructor; done. Qed.

(** ** Backends and routes *)

Lemma in_map_js k l : js k ∈ map js l <-> k ∈ l.
Proof.
  rewrite list_elem_of_fmap. split; [intros (x & E%js_inj & ?); by subst|by exists k].
Qed.

Ltac cases_in H := apply elem_of_cons in H as [H|H]; [|first [by apply not_elem_of_nil in H|cases_in H]].

Lemma backend_recovers : reads_back BackendSchema canonicalizeBackend unflattenBackend.
Proof.
  intros v Hv. pose proof Hv as Hv'. apply conforms_fields in Hv' as (m & -> & Hk & Hf); [|by apply nodup_strings; vm_compute].
  split_fields Hf. destruct Hf as (_ & _ & (x & E & Hx) & _). apply conforms_oneof in Hx as (tag & s & y & Hin & -> & Hy).
  unfold canonicalizeBackend. rewrite E. cbn [pickUnionTag rbind fst snd]. eexists. split; [reflexivity|]. cbn [fields_of].
  assert (Hy' : wf s = true /\ exists my, y = JObj my).
  { cbn [map] in Hin. cases_in Hin; injection Hin as _ ->; (split; [vm_compute; reflexivity|]);
    (apply conforms_fields in Hy as (my & -> & _); [by eexists|by apply nodup_strings; vm_compute]). }
  destruct Hy' as (Hw & my & Ey). destruct (payload_read s my y Hw Ey Hy) as [Hd Hq].
  assert (Htag : tag ∉ map js ["name"; "handlesPrefix"; "kind"]%string).
  { cbn [map] in Hin. cases_in Hin; injection Hin as -> _; by rewrite in_map_js, !not_elem_of_cons; repeat split; [..|apply not_elem_of_nil]. }
  refine (flat_recovers _ _ "kind" tag s y (Some (canonicalizeKindPayload y)) m (fun o => o) unflattenBackend _ _ _ _ Hin _ Hv E Hd Hq _).
  - apply nodup_strings. vm_compute. reflexivity.
  - vm_compute. reflexivity.
  - right. right. left.
  - apply nodup_keys. vm_compute. reflexivity.
  - exact Htag.
  - intros m' Em. cbn [unflattenBackend]. unfold KIND. by rewrite Em.
Qed.

Lemma order_one (kv : jsstr * Json) : order_by key_le [kv] = [kv].
Proof. reflexivity. Qed.

Lemma mcp_recovers v : conforms McpRouteSpecSchema v ->
  exists w, canonicalizeMcpRouteSpec v = Ok w /\ distinct_keys w = true /\
    forall w', alike w w' -> exists q, unflattenMcpRouteSpec (Some w') = Some q /\ parse McpRouteSpecSchema (Some q) = Some v.
Proof.
  intros Hv. apply conforms_fields in Hv as (m & -> & Hk & Hf); [|by apply nodup_strings; vm_compute].
  split_fields Hf. destruct Hf as ((x & E & (l & -> & Hl)%conforms_arr) & _). unfold prop in E. cbn [get_prop] in E.
  destruct m as [|[k0 v0] [|]]; try discriminate. injection Hk as ->. rewrite assoc_js_cons in E. injection E as ->.
  unfold canonicalizeMcpRouteSpec, prop. cbn [get_prop]. rewrite assoc_js_cons. cbn [String.eqb Ascii.eqb Bool.eqb rows].
  destruct (traverse_recovers BackendSchema canonicalizeBackend unflattenBackend l) as (ws & -> & Hws).
  { intros v Hin. apply backend_recovers. rewrite Forall_forall in Hl. by apply Hl. }
  destruct (rows_recover _ _ _ _ Hws) as [Hd Hr]. cbn [rbind own_entries assoc_set]. rewrite decide_True by done.
  cbn [sortKeys map fst snd]. rewrite order_one. eexists. split; [reflexivity|].
  assert (Hd' : distinct_keys (JObj [(js "backends", JArr ws)]) = true).
  { cbn [distinct_keys forallb snd map fst]. rewrite bool_decide_true by apply NoDup_singleton. cbn [distinct_keys] in Hd. by rewrite Hd. }
  split; [done|]. intros w' Ha. destruct (alike_obj [(js "backends", JArr ws)] w') as (m' & -> & Hp & Hl'); [apply NoDup_singleton|done|].
  cbn [map fst] in Hp. apply Permutation_sym, Permutation_length_1_inv in Hp. destruct m' as [|[k0 x'] [|]]; try discriminate. injection Hp as ->.
  specialize (Hl' (js "backends")). rewrite !assoc_js_cons in Hl'. cbn [String.eqb Ascii.eqb Bool.eqb fmap option_fmap option_map] in Hl'.
  injection Hl' as Ex. symmetry in Ex. apply alike_arr in Ex as (ws' & -> & Hws'). cbn [unflattenMcpRouteSpec].
  rewrite assoc_js_cons. cbn [String.eqb Ascii.eqb Bool.eqb]. eexists. split; [reflexivity|].
  unfold spread. cbn [foldl fst snd assoc_set]. rewrite decide_True by done.
  apply parse_fields_to; [by apply nodup_strings; vm_compute|done|done|]. each_field.
  rewrite !assoc_js_cons. cbn [String.eqb Ascii.eqb Bool.eqb]. by apply Hr.
Qed.

(** What a route's payload is written as: a void kind has none. *)
Lemma route_payload tag s y : (tag, s) ∈ map (fun '(k, s) => (js k, s))
    [("health", Null); ("mcp", McpRouteSpecSchema); ("serviceBindingProxy", ServiceBindingProxySpecSchema);
     ("httpProxy", HttpProxySpecSchema); ("wellKnownInterlace", Null); ("disclosure", Null);
     ("wellKnownIdentityBridge", Null); ("ociRegistry", Null); ("wellKnownMcpRegistry", Null);
     ("caBundle", Null); ("vaultProxy", VaultProxySpecSchema); ("tenantDispatch", TenantDispatchSpecSchema)]%string -> conforms s y ->
  s = Null /\ y = JNull /\ tag ∈ VOID_ROUTE_KINDS \/
  s = McpRouteSpecSchema /\ tag = js "mcp" /\ (exists m, y = JObj m) \/
  wf s = true /\ tag ∉ VOID_ROUTE_KINDS /\ tag <> js "mcp" /\ exists m, y = JObj m.
Proof.
  intros Hin Hy. cbn [map] in Hin.
  assert (Hobj : forall l, s = fields l -> NoDup (map fst l) -> exists m, y = JObj m).
  { intros l -> Hn. apply conforms_fields in Hy as (my & -> & _); [by eexists|done]. }
  assert (Hmap : forall l, s = fields l -> bool_decide (NoDup (map fst l)) = true -> exists m, y = JObj m).
  { intros l E Hn. by eapply Hobj, nodup_strings. }
  assert (Hnull : s = Null -> y = JNull) by (intros ->; unfold conforms in Hy; by destruct y).
  assert (Hout : forall k, bool_decide (js k ∈ VOID_ROUTE_KINDS) = false -> js k ∉ VOID_ROUTE_KINDS) by (by intros k ?%bool_decide_eq_false).
  assert (Hvoid : forall k, bool_decide (js k ∈ VOID_ROUTE_KINDS) = true -> js k ∈ VOID_ROUTE_KINDS) by (by intros k ?%bool_decide_eq_true).
  cases_in Hin; injection Hin as -> Es.
  1, 5, 6, 7, 8, 9, 10: left; split; [exact Es|]; split; [by apply Hnull|by apply Hvoid; vm_compute].
  1: right; left; split; [exact Es|]; split; [done|]; by apply (Hmap _ Es); vm_compute.
  all: right; right; rewrite Es; split; [vm_compute; reflexivity|]; split; [by apply Hout; vm_compute|];
    split; [by intros ?%js_inj|]; by apply (Hmap _ Es); vm_compute.
Qed.

Lemma mcp_not_void : js "mcp" ∉ VOID_ROUTE_KINDS.
Proof. apply (bool_decide_eq_false _). vm_compute. reflexivity. Qed.

Lemma route_recovers : reads_back RouteSchema canonicalizeRoute unflattenRoute.
Proof.
  intros v Hv. pose proof Hv as Hv'. apply conforms_fields in Hv' as (m & -> & Hk & Hf); [|by apply nodup_strings; vm_compute].
  split_fields Hf. destruct Hf as (_ & (x & E & Hx) & _). apply conforms_oneof in Hx as (tag & s & y & Hin & -> & Hy).
  unfold canonicalizeRoute. rewrite E. cbn [pickUnionTag rbind fst snd fields_of]. unfold canonicalize_payload.
  assert (Htag : tag ∉ map js ["path"; "kind"]%string).
  { clear -Hin. cbn [map] in Hin. cases_in Hin; injection Hin as -> _; by rewrite in_map_js, !not_elem_of_cons; repeat split; [..|apply not_elem_of_nil]. }
  pose (readp := fun o => if bool_decide (tag ∈ VOID_ROUTE_KINDS) then Some JNull
                          else if bool_decide (tag = js "mcp") then unflattenMcpRouteSpec o else o).
  assert (Hback : forall p, match p with Some p => distinct_keys p = true | None => True end ->
    (forall o, sort_keys <$> o = sort_keys <$> p -> exists q, readp o = Some q /\ parse s (Some q) = Some y) ->
    recovers RouteSchema unflattenRoute (JObj m) (sortKeys (JObj (flat KIND tag p m)))).
  { intros p Hp Hq. refine (flat_recovers _ _ "kind" tag s y p m readp unflattenRoute _ _ _ _ Hin _ Hv E Hp Hq _).
    - apply nodup_strings. vm_compute. reflexivity.
    - vm_compute. reflexivity.
    - right. left.
    - apply nodup_keys. vm_compute. reflexivity.
    - exact Htag.
    - intros m' Em. cbn [unflattenRoute]. unfold KIND. by rewrite Em. }
  destruct (route_payload tag s y Hin Hy) as [(-> & -> & Hvoid)|[(-> & -> & my & ->)|(Hw & Hvoid & Hmcp & my & Ey)]].
  - eexists. split; [reflexivity|]. apply (Hback None); [done|]. intros o _. exists JNull. unfold readp.
    by rewrite bool_decide_true.
  - rewrite bool_decide_true by done. destruct (mcp_recovers _ Hy) as (w & -> & Hd & Hr). cbn [rbind]. eexists. split; [reflexivity|].
    apply (Hback (Some w)); [done|]. intros [q|] Eq; [|done]. injection Eq as Eq.
    destruct (Hr q) as (q' & E1 & E2); [done|]. exists q'. unfold readp. rewrite (bool_decide_false (js "mcp" ∈ VOID_ROUTE_KINDS)) by apply mcp_not_void.
    by rewrite bool_decide_true.
  - destruct (payload_read s my y Hw Ey Hy) as [Hd Hq]. rewrite (bool_decide_false (tag = js "mcp")) by done. cbn [rbind].
    exists (sortKeys (JObj (flat KIND tag (Some (canonicalizeKindPayload y)) m))). split; [by rewrite Ey|]. apply Hback; [done|].
    intros o Ho. unfold readp. rewrite !bool_decide_false by done. by apply Hq.
Qed.

(** ** Tables *)

(** What is read of a table that is written when it has content. *)
Lemma table_back lit o k : NoDup (map fst lit) -> distinct_keys (JObj (object lit)) = true ->
  sort_keys <$> o = sort_keys <$> match object lit with [] => None | b => Some (JObj b) end ->
  sees (object_or o) k (find_field k lit).
Proof.
  intros Hn Hd Ho. rewrite <- assoc_object by done. revert Ho. generalize (object lit) Hd. intros b Hb Ho.
  destruct b as [|kv b]; [by destruct o|]. destruct o as [w|]; [|done]. injection Ho as Ho.
  assert (Ha : alike (JObj (kv :: b)) w) by (by symmetry).
  destruct w as [| | | | |m']; try done. by apply sees_obj.
Qed.

Lemma nonempty_table_sorted lit : distinct_keys (JObj (object lit)) = true ->
  sort_keys <$> nonempty_table (object lit) = sort_keys <$> match object lit with [] => None | b => Some (JObj b) end.
Proof.
  generalize (object lit). intros b Hd. destruct b as [|kv b]; [done|]. cbn [nonempty_table fmap option_fmap option_map]. f_equal. by apply sortKeys_alike.
Qed.

(** Every property of a literal has distinct keys: its texts, its lists of texts, and its flags. *)
Ltac distinct_fields := apply distinct_object; [by apply nodup_strings; vm_compute|]; repeat (apply Forall_cons; split); [..|by apply Forall_nil];
  cbn [snd]; try done; try (apply distinct_text); try (apply distinct_strs).

Lemma distinct_nonempty_strs ts : match nonempty_list (Some (JArr (map JStr ts))) with Some v => distinct_keys v = true | None => True end.
Proof. destruct ts; [done|]. exact (distinct_strs (_ :: _)). Qed.

Ltac field E := rewrite E; cbn [find_field String.eqb Ascii.eqb Bool.eqb].
Ltac lookups H := unfold prop in H; cbn [get_prop] in H.

Lemma written o v : sort_keys <$> o = sort_keys <$> Some v -> exists w, o = Some w /\ alike v w.
Proof. destruct o as [w|]; [|done]. intros [= E]. exists w. split; [done|]. by unfold alike. Qed.

(** ** Inputs *)

Definition is_uds (connection : option Json) : bool := bool_decide (is_Some (opt_prop (opt_prop connection (js "transport")) (js "uds"))).

(** A connection without a transport is not written, nor is the retired flag. *)
Definition kept_connection (c : option Json) : bool := is_uds c || is_blank (opt_prop c (js "socketPath")) && is_blank (opt_prop c (js "vaultSlice")).
Definition kept_input (v : Json) : bool :=
  negb (is_blank (prop v "name")) && match prop v "requiresSessionRetired" with Some (JBool b) => negb b | _ => false end &&
  kept_connection (prop v "connection").

Definition distinct_opt (o : option Json) : Prop := match o with Some v => distinct_keys v = true | None => True end.

Lemma connection_back v : conforms ConnectionSchema v -> kept_connection (Some v) = true ->
  distinct_opt (connection_body (Some v)) /\
  forall o, sort_keys <$> o = sort_keys <$> connection_body (Some v) -> parse ConnectionSchema (Some (normalizeConnection o)) = Some v.
Proof.
  intros Hv Hk. apply conforms_fields in Hv as (m & -> & Hm & Hf); [|by apply nodup_strings; vm_compute]. split_fields Hf.
  destruct Hf as ((x1 & E1 & (t1 & ->)%conforms_str) & (x2 & E2 & (t2 & ->)%conforms_str) & (x3 & E3 & Hx) & _).
  apply conforms_oneof in Hx as (tag & s & y & Hin & -> & Hy). lookups E1. lookups E2. lookups E3.
  unfold kept_connection, is_uds in Hk. unfold connection_body. cbn [opt_prop option_bind get_prop mbind] in *. rewrite E1, E2 in *.
  rewrite E3 in *. cbn [get_prop] in Hk. cbn [map] in Hin. cases_in Hin; injection Hin as -> ->;
    (assert (y = JNull) as -> by (unfold conforms in Hy; by destruct y)); rewrite assoc_js_cons in *; cbn [String.eqb Ascii.eqb Bool.eqb assoc] in *.
  - rewrite bool_decide_false in * by by intros []. cbn [orb] in Hk.
    destruct t1; [|done]. destruct t2; [|done]. split; [done|]. intros [|] Ho; [done|].
    unfold normalizeConnection. apply parse_literal; [vm_compute; reflexivity|done|]. by each_field; [field E1|field E2|field E3].
  - rewrite bool_decide_true in * by by eexists. set (lit := [_; _; _]).
    assert (Hd : distinct_keys (JObj (object lit)) = true) by distinct_fields.
    split; [by apply sortKeys_distinct|]. intros o (w & -> & Ho)%written. rewrite (sortKeys_alike _ Hd) in Ho.
    pose proof (fun k => sees_literal lit w k ltac:(by apply nodup_strings; vm_compute) Hd Ho) as Hs.
    destruct (alike_obj (object lit) w) as (m' & -> & _ & _); [by apply distinct_obj in Hd as [? _]|done|].
    unfold normalizeConnection. cbn [object_or]. apply parse_literal; [vm_compute; reflexivity|done|]. each_field.
    + field E1. by rewrite (read_text _ _ t1 (Hs "socketPath"%string)).
    + field E2. by rewrite (read_text _ _ t2 (Hs "vaultSlice"%string)).
    + field E3. by rewrite (sees_str _ _ _ (Hs "transport"%string)).
Qed.

Lemma tenancy_back v : conforms TenancySpecSchema v ->
  distinct_opt (tenancy_body (Some v)) /\
  forall o, sort_keys <$> o = sort_keys <$> tenancy_body (Some v) ->
    let t := object_or o in
    parse TenancySpecSchema (Some (JObj (object
      [("mode", Some (text_or (prop t "mode"))); ("workerdId", Some (text_or (prop t "workerdId")));
       ("trustedTier", Some (bool_or (prop t "trustedTier")));
       ("sharesWorkerdWith", Some (list_or (prop t "sharesWorkerdWith")))]%string))) = Some v.
Proof.
  intros Hv. apply conforms_fields in Hv as (m & -> & Hm & Hf); [|by apply nodup_strings; vm_compute]. split_fields Hf.
  destruct Hf as ((x1 & E1 & (t1 & ->)%conforms_str) & (x2 & E2 & (t2 & ->)%conforms_str) & (x3 & E3 & (b & ->)%conforms_bool) &
                  (x4 & E4 & (ts & ->)%conforms_strs) & _). lookups E1. lookups E2. lookups E3. lookups E4.
  unfold tenancy_body. cbn [opt_prop option_bind get_prop mbind]. rewrite E1, E2, E3, E4. set (lit := [_; _; _; _]).
  assert (Hd : distinct_keys (JObj (object lit)) = true) by (distinct_fields; [by destruct b|by apply distinct_nonempty_strs]).
  split; [by destruct (object lit)|]. intros o Ho. cbv zeta.
  pose proof (fun k => table_back lit o k ltac:(by apply nodup_strings; vm_compute) Hd Ho) as Hs.
  apply parse_literal; [vm_compute; reflexivity|done|]. each_field.
  - field E1. by rewrite (read_text _ _ t1 (Hs "mode"%string)).
  - field E2. by rewrite (read_text _ _ t2 (Hs "workerdId"%string)).
  - field E3. specialize (Hs "trustedTier"%string). destruct b; [by rewrite (sees_bool _ _ _ Hs)|by rewrite (sees_none _ _ Hs)].
  - field E4. rewrite (read_strs _ _ ts (Hs "sharesWorkerdWith"%string)). apply parse_strs.
Qed.

Lemma assoc_spread k (l acc : list (jsstr * Json)) : NoDup (map fst l) ->
  assoc k (foldl (fun m kv => assoc_set kv.1 kv.2 m) acc l) = match assoc k l with Some v => Some v | None => assoc k acc end.
Proof.
  revert acc. induction l as [|[k' v] l IH]; intros acc Hn; [done|]. cbn [map fst] in Hn. apply NoDup_cons in Hn as [Hk Hn].
  cbn [foldl fst snd assoc]. rewrite IH by done. rewrite assoc_set_lookup. case_decide as E; [|done]. subst.
  apply assoc_None in Hk. by rewrite Hk.
Qed.

Lemma sees_named n w k o : distinct_keys w = true -> k <> "name"%string -> sees w k o -> (exists m, w = JObj m) -> sees (named_spec n w) k o.
Proof.
  intros Hd Hk Hs [m ->]. apply distinct_obj in Hd as [Hn _]. revert Hs. unfold sees, prop, named_spec. cbn [get_prop].
  rewrite assoc_spread by done. destruct (assoc (js k) m); [done|]. cbn [assoc]. by rewrite decide_False by by intros ?%js_inj.
Qed.

Lemma alike_distinct v w : distinct_keys v = true -> alike v w -> distinct_keys w = true.
Proof.
  revert w. induction v as [| | | |l IH|m IH] using json_tree_ind; intros w Hd Ha;
    try (unfold alike in Ha; by destruct w).
  - apply alike_arr in Ha as (l' & -> & Hl). cbn [distinct_keys] in *. clear -IH Hd Hl.
    induction Hl as [|x y l l' Hx Hl IHl]; [done|]. cbn [forallb] in *. apply andb_prop in Hd as [Hx' Hd].
    apply Forall_cons in IH as [IHx IH]. by rewrite (IHx y Hx' Hx), IHl.
  - pose proof (distinct_obj _ Hd) as [Hn Hv]. destruct (alike_obj _ _ Hn Ha) as (m' & -> & Hp & Hl). cbn [distinct_keys].
    assert (Hn' : NoDup (map fst m')) by by rewrite Hp. rewrite bool_decide_true by done. cbn [andb]. apply forallb_forall.
    intros [k y] Hin%list_elem_of_In. cbn [snd]. apply elem_of_assoc in Hin; [|done]. specialize (Hl k). rewrite Hin in Hl.
    destruct (assoc k m) as [x|] eqn:Ex; [|done]. assert (E : sort_keys y = sort_keys x) by (by injection Hl).
    rewrite Forall_forall in IH. apply elem_of_assoc in Ex as Hx; [|done]. apply (IH _ Hx); [by eapply Hv|by symmetry].
Qed.

Lemma object_keys_within lit ks : forallb (fun k => existsb (String.eqb k) ks) (map fst lit) = true ->
  forall k, k ∈ map fst (object lit) -> k ∈ map js ks.
Proof.
  intros Hf k (k' & -> & Hk)%keys_object. rewrite forallb_forall in Hf. apply list_elem_of_In, Hf, existsb_exists in Hk as (x & Hx & E).
  apply String.eqb_eq in E as ->. by apply list_elem_of_fmap_2, list_elem_of_In.
Qed.

Lemma input_back v n : conforms InputSpecSchema v -> kept_input v = true -> prop v "name" = Some (JStr n) ->
  distinct_keys (JObj (input_body v)) = true /\
  forall w, alike (JObj (input_body v)) w ->
    (forall k, k ∈ own_keys w -> k ∈ shape InputSpecSchema) /\
    parse InputSpecSchema (Some (normalizeInputDefaults (named_spec n w))) = Some v.
Proof.
  intros Hv Hkept En. pose proof Hv as Hv'.
  apply conforms_fields in Hv' as (m & -> & Hm & Hf); [|by apply nodup_strings; vm_compute]. split_fields Hf.
  destruct Hf as (_ & (x2 & E2 & (t2 & ->)%conforms_str) & (x3 & E3 & (t3 & ->)%conforms_str) & (x4 & E4 & (t4 & ->)%conforms_str) &
    (x5 & E5 & (t5 & ->)%conforms_str) & (x6 & E6 & (ts6 & ->)%conforms_strs) & (x7 & E7 & (ts7 & ->)%conforms_strs) &
    (x8 & E8 & (t8 & ->)%conforms_str) & (x9 & E9 & (t9 & ->)%conforms_str) & (tn & E10 & H10) & (x11 & E11 & (b & ->)%conforms_bool) &
    (cn & E12 & H12) & (x13 & E13 & (t13 & ->)%conforms_str) & _).
  unfold kept_input in Hkept. rewrite E11, E12 in Hkept. apply andb_prop in Hkept as [[_ Hb]%andb_prop Hc].
  assert (b = false) as -> by by destruct b.
  destruct (connection_back cn H12 Hc) as [Hdc Hcn]. destruct (tenancy_back tn H10) as [Hdt Htn].
  unfold input_body. rewrite E2, E3, E4, E5, E6, E7, E8, E9, E10, E12, E13. set (lit := [_; _; _; _; _; _; _; _; _; _; _]).
  assert (Hd : distinct_keys (JObj (object lit)) = true) by (distinct_fields; by apply distinct_nonempty_strs).
  split; [done|]. intros w Ha. assert (Hdw : distinct_keys w = true) by by eapply alike_distinct.
  destruct (alike_obj (object lit) w) as (mw & Ew & Hp & _); [by apply distinct_obj in Hd as [? _]|done|].
  split.
  { rewrite Ew. cbn [own_keys]. intros k Hk. rewrite Hp in Hk.
    apply (object_keys_within lit ["name"; "ref"; "version"; "digest"; "from"; "provides"; "requires"; "urlBinding"; "serviceBinding";
      "tenancy"; "requiresSessionRetired"; "connection"; "mutableTagReason"]%string) in Hk; [done|by vm_compute]. }
  assert (Hs : forall k, k <> "name"%string -> sees (named_spec n w) k (find_field k lit)).
  { intros k Hk. apply sees_named; [done|done| |by eexists]. apply sees_literal; [by apply nodup_strings; vm_compute|done|done]. }
  assert (Hname : prop (named_spec n w) "name" = Some (JStr n)).
  { rewrite Ew in *. unfold prop, named_spec. cbn [get_prop]. rewrite assoc_spread by by apply distinct_obj in Hdw as [? _].
    assert (assoc (js "name") mw = None) as ->; [|by rewrite assoc_js_cons].
    apply assoc_None. rewrite Hp. intros (k' & E & Hk)%keys_object. apply js_inj in E as <-. revert Hk.
    apply (bool_decide_eq_false _). vm_compute. reflexivity. }
  unfold normalizeInputDefaults. lookups En. lookups E2. lookups E3. lookups E4. lookups E5. lookups E6. lookups E7. lookups E8. lookups E9.
  lookups E10. lookups E11. lookups E12. lookups E13.
  apply parse_literal; [vm_compute; reflexivity|done|]. each_field.
  - field En. by rewrite Hname.
  - field E2. by rewrite (read_text _ _ t2 (Hs "ref"%string ltac:(done))).
  - field E3. by rewrite (read_text _ _ t3 (Hs "version"%string ltac:(done))).
  - field E4. by rewrite (read_text _ _ t4 (Hs "digest"%string ltac:(done))).
  - field E5. by rewrite (read_text _ _ t5 (Hs "from"%string ltac:(done))).
  - field E6. rewrite (read_strs _ _ ts6 (Hs "provides"%string ltac:(done))). apply parse_strs.
  - field E7. rewrite (read_strs _ _ ts7 (Hs "requires"%string ltac:(done))). apply parse_strs.
  - field E8. by rewrite (read_text _ _ t8 (Hs "urlBinding"%string ltac:(done))).
  - field E9. by rewrite (read_text _ _ t9 (Hs "serviceBinding"%string ltac:(done))).
  - field E10. apply Htn. exact (Hs "tenancy"%string ltac:(done)).
  - by field E11.
  - field E12. apply Hcn. exact (Hs "connection"%string ltac:(done)).
  - field E13. by rewrite (read_text _ _ t13 (Hs "mutableTagReason"%string ltac:(done))).
Qed.

Definition name_of (v : Json) : jsstr := str_of (prop v "name").
Definition input_entry (v : Json) : jsstr * Json := (name_of v, JObj (input_body v)).

Lemma assoc_set_fresh (k : jsstr) (v : Json) m : k ∉ map fst m -> assoc_set k v m = m ++ [(k, v)].
Proof.
  induction m as [|[k' v'] m IH]; [done|]. cbn [map fst assoc_set]. rewrite not_elem_of_cons. intros [Hne Hn].
  rewrite decide_False by done. by rewrite IH.
Qed.

(** A new property that goes behind those an object has. *)
Definition goes_last (seen : list jsstr) (n : jsstr) : bool :=
  forallb (fun m => negb (bool_decide (n = m)) && negb (own_before n m)) seen.

(** The names that, assigned one after the other, are the keys of the object in that order. *)
Fixpoint listed_in_order (seen names : list jsstr) : bool :=
  match names with
  | [] => true
  | n :: names => negb (bool_decide (n = js "__proto__")) && goes_last seen n && listed_in_order (seen ++ [n]) names
  end.

Lemma goes_last_not_in seen n : goes_last seen n = true -> n ∉ seen.
Proof.
  unfold goes_last. rewrite forallb_forall. intros H Hin%list_elem_of_In. apply H in Hin. apply andb_prop in Hin as [Hin _].
  apply negb_true_iff, bool_decide_eq_false in Hin. done.
Qed.

Lemma assign_last {A} n (v : A) m : n <> js "__proto__" -> goes_last (map fst m) n = true -> assign n v m = m ++ [(n, v)].
Proof.
  intros Hp. unfold assign. rewrite decide_False by done. unfold goes_last. clear Hp.
  induction m as [|[k w] m IH]; [done|]. cbn [map fst forallb obj_set]. intros [[Hk Ho]%andb_prop H]%andb_prop.
  apply negb_true_iff, bool_decide_eq_false in Hk. apply negb_true_iff in Ho. rewrite decide_False, Ho, IH by done. done.
Qed.

Lemma listed_NoDup names seen : NoDup seen -> listed_in_order seen names = true -> NoDup (seen ++ names).
Proof.
  revert seen. induction names as [|n names IH]; intros seen Hs; [by rewrite app_nil_r|]. cbn [listed_in_order].
  intros [[_ Hn%goes_last_not_in]%andb_prop H]%andb_prop. apply IH in H; [by rewrite <- app_assoc in H|].
  apply NoDup_app. split; [done|]. split; [|apply NoDup_singleton]. intros x Hx ->%list_elem_of_singleton. done.
Qed.

Lemma kept_name v : kept_input v = true -> conforms InputSpecSchema v -> exists c n, prop v "name" = Some (JStr (c :: n)) /\ name_of v = c :: n.
Proof.
  intros Hk Hv. apply conforms_fields in Hv as (m & -> & _ & Hf); [|by apply nodup_strings; vm_compute]. split_fields Hf.
  destruct Hf as ((x & E & (t & ->)%conforms_str) & _). unfold kept_input in Hk. unfold name_of. rewrite E in *.
  destruct t as [|c t]; [done|]. by exists c, t.
Qed.

Lemma canonicalizeInputs_entries l : Forall (conforms InputSpecSchema) l -> Forall (fun v => kept_input v = true) l ->
  listed_in_order [] (map name_of l) = true -> canonicalizeInputs l = map input_entry l.
Proof.
  intros Hc Hk. unfold canonicalizeInputs.
  assert (H : forall acc, listed_in_order (map fst acc) (map name_of l) = true ->
    foldl (fun out inp => match prop inp "name" with
                          | Some (JStr ((_ :: _) as n)) => assign n (JObj (input_body inp)) out | _ => out end) acc l = acc ++ map input_entry l).
  { induction l as [|v l IH]; intros acc Hn; [by rewrite app_nil_r|].
    apply Forall_cons in Hc as [Hv Hc], Hk as [Hkv Hk]. cbn [map listed_in_order] in Hn.
    apply andb_prop in Hn as [[Hp%negb_true_iff%bool_decide_eq_false Hl]%andb_prop Hn].
    destruct (kept_name v Hkv Hv) as (c & n & E & En). cbn [foldl]. rewrite E. rewrite En in *.
    rewrite assign_last by done. rewrite IH; [|done..|by rewrite map_app].
    rewrite <- app_assoc. cbn [map app]. unfold input_entry at 2. by rewrite En. }
  apply (H []).
Qed.

Lemma entries_lookup m m' : NoDup (map fst m) -> map fst m' = map fst m ->
  (forall k, sort_keys <$> assoc k m' = sort_keys <$> assoc k m) -> Forall2 (fun kv kv' => kv'.1 = kv.1 /\ alike kv.2 kv'.2) m m'.
Proof.
  revert m'. induction m as [|[k v] m IH]; intros [|[k' v'] m'] Hn Hk Hl; try discriminate; [constructor|].
  cbn [map fst] in *. injection Hk as -> Hk. apply NoDup_cons in Hn as [Hkm Hn]. constructor.
  - split; [done|]. cbn [snd]. specialize (Hl k). cbn [assoc] in Hl. rewrite !decide_True in Hl by done. injection Hl as E. by symmetry.
  - apply IH; [done|done|]. intros j. specialize (Hl j). cbn [assoc] in Hl. case_decide as E; [|done]. subst.
    assert (assoc k m = None) as -> by by apply assoc_None. assert (assoc k m' = None) as -> by (apply assoc_None; by rewrite Hk). done.
Qed.

Lemma declared_keys_pass n ks shape : (forall k, k ∈ ks -> k ∈ shape) -> assertDeclaredInputKeys n ks shape = Ok tt.
Proof.
  induction ks as [|k ks IH]; intros H; [done|]. cbn [assertDeclaredInputKeys]. rewrite bool_decide_true by (apply H; by left).
  apply IH. intros j Hj. apply H. by right.
Qed.

Lemma inputs_back l : Forall (conforms InputSpecSchema) l -> Forall (fun v => kept_input v = true) l -> listed_in_order [] (map name_of l) = true ->
  distinct_keys (JObj (canonicalizeInputs l)) = true /\
  forall m', alike (JObj (canonicalizeInputs l)) (JObj m') -> map fst m' = map fst (canonicalizeInputs l) ->
    exists l', unflatten_entries m' = Ok l' /\ parse (Arr InputSpecSchema) (Some (JArr l')) = Some (JArr l).
Proof.
  intros Hc Hk Ho. rewrite canonicalizeInputs_entries by done. pose proof (listed_NoDup _ [] (NoDup_nil_2) Ho) as Hn. cbn [app] in Hn.
  assert (Hfst : map fst (map input_entry l) = map name_of l) by by rewrite map_map.
  assert (Hback : Forall (fun v => distinct_keys (JObj (input_body v)) = true /\
    forall w, alike (JObj (input_body v)) w -> (forall k, k ∈ own_keys w -> k ∈ shape InputSpecSchema) /\
      parse InputSpecSchema (Some (normalizeInputDefaults (named_spec (name_of v) w))) = Some v) l).
  { rewrite Forall_forall in *. intros v Hv. destruct (kept_name v (Hk v Hv) (Hc v Hv)) as (c & n & E & En).
    apply input_back; [by apply Hc|by apply Hk|by rewrite En]. }
  split.
  - cbn [distinct_keys]. rewrite Hfst, bool_decide_true by done. apply forallb_forall. intros kv Hin. apply in_map_iff in Hin as (v & <- & Hv%list_elem_of_In).
    rewrite Forall_forall in Hback. by apply Hback.
  - intros m' Ha Hkeys. destruct (alike_obj (map input_entry l) (JObj m')) as (m0 & E0 & _ & Hl); [by rewrite Hfst|done|].
    assert (m0 = m') as -> by by injection E0. apply entries_lookup in Hl; [|by rewrite Hfst|done]. clear -Hback Hl.
    revert m' Hl. induction Hback as [|v l [_ Hv] Hback IH]; intros m' Hl; inversion Hl as [|? [n' w] ? m0 [En Hw] Hm]; subst; [by exists []|].
    cbn [fst snd input_entry] in *. subst. destruct (Hv w Hw) as [Hd Hp]. destruct (IH m0 Hm) as (l' & El & Epl).
    cbn [unflatten_entries]. rewrite declared_keys_pass by done. cbn [rbind]. rewrite El. cbn [rbind]. eexists. split; [reflexivity|].
    rewrite parse_arr in *. cbn [mapM]. rewrite Hp. cbn [mbind option_bind]. by destruct (mapM _ l') as [ys|]; [injection Epl as ->|].
Qed.

(** ** Bundles *)

Lemma assoc_set_js k k' v (m : list (jsstr * Json)) : assoc (js k) (assoc_set (js k') v m) = if String.eqb k k' then Some v else assoc (js k) m.
Proof.
  rewrite assoc_set_lookup. destruct (String.eqb_spec k k') as [->|]; [by rewrite decide_True|]. by rewrite decide_False by by intros ?%js_inj.
Qed.

Lemma assoc_omit_js k ks m : assoc (js k) (omit (map js ks) m) = if existsb (String.eqb k) ks then None else assoc (js k) m.
Proof.
  rewrite assoc_omit. destruct (existsb (String.eqb k) ks) eqn:E.
  - rewrite decide_True; [done|]. apply existsb_exists in E as (k' & Hin & ->%String.eqb_eq). by apply in_map_js, list_elem_of_In.
  - rewrite decide_False; [done|]. intros Hin%in_map_js%list_elem_of_In. assert (existsb (String.eqb k) ks = true) as H; [|by rewrite H in E].
    apply existsb_exists. exists k. split; [done|]. by apply String.eqb_eq.
Qed.

Lemma assoc_spread_js k l m : assoc (js k) (spread m l) =
  foldl (fun o kv => if String.eqb k kv.1 then Some kv.2 else o) (assoc (js k) m) l.
Proof.
  unfold spread. revert m. induction l as [|[k' v] l IH]; intros m; [done|]. cbn [foldl fst snd]. rewrite IH, assoc_set_js. done.
Qed.

(** Whether a property is one that is dropped. *)
Definition is_default (d v : Json) : bool :=
  match d, v with JStr [], JStr [] | JNum 0, JNum 0 | JArr [], JArr [] | JBool false, JBool false => true | _, _ => false end.

Lemma assoc_prune k tests m : NoDup (map fst m) ->
  assoc (js k) (prune tests m) =
  match assoc (js k) m, find_value k tests with Some v, Some d => if is_default d v then None else Some v | o, _ => o end.
Proof.
  intros Hn.
  assert (Ht : assoc (js k) (map (fun t => (js t.1, t.2)) tests) = find_value k tests).
  { induction tests as [|[k' d] tests IH]; [done|]. cbn [map fst snd find_value]. rewrite assoc_js_cons. by rewrite IH. }
  unfold prune. induction m as [|[k' v] m IH]; [by destruct (find_value k tests)|]. cbn [map fst] in Hn. apply NoDup_cons in Hn as [Hk' Hn].
  rewrite filter_cons. cbn [fst snd]. destruct (decide (js k = k')) as [<-|Hne].
  - cbn [assoc]. rewrite (decide_True (P := js k = js k)) by done. rewrite Ht.
    assert (Hnone : assoc (js k) m = None) by by apply assoc_None. rewrite Hnone in IH.
    destruct (find_value k tests) as [d|]; [|by rewrite decide_True; cbn [assoc]; [rewrite decide_True|]].
    destruct (is_default d v) eqn:Ed.
    + rewrite decide_False; [by apply IH|]. destruct d as [|[]|[]|[]|[]|], v as [|[]|[]|[]|[]|]; done.
    + rewrite decide_True; [cbn [assoc]; by rewrite decide_True|]. destruct d as [|[]|[]|[]|[]|], v as [|[]|[]|[]|[]|]; done.
  - case_decide; cbn [assoc]; [rewrite decide_False by done|]; rewrite IH by done; by rewrite (decide_False (P := js k = k')) by done.
Qed.

Lemma keys_filter {A} (P : jsstr * A -> Prop) `{!forall x, Decision (P x)} (m : list (jsstr * A)) k : k ∈ map fst (filter P m) -> k ∈ map fst m.
Proof. rewrite !list_elem_of_fmap. intros (kv & -> & [_ ?]%list_elem_of_filter). by exists kv. Qed.

Lemma distinct_filter (P : jsstr * Json -> Prop) `{!forall x, Decision (P x)} m : distinct_keys (JObj m) = true -> distinct_keys (JObj (filter P m)) = true.
Proof.
  cbn [distinct_keys]. intros [Hn Hd]%andb_prop. apply bool_decide_eq_true in Hn. apply andb_true_iff. split.
  - apply bool_decide_eq_true. induction m as [|[k v] m IH]; [done|]. cbn [map fst] in Hn. apply NoDup_cons in Hn as [Hk Hn].
    cbn [forallb] in Hd. apply andb_prop in Hd as [_ Hd]. rewrite filter_cons. case_decide; [|by apply IH]. cbn [map fst]. apply NoDup_cons. split; [|by apply IH].
    by intros ?%keys_filter.
  - rewrite forallb_forall in *. intros kv Hin%list_elem_of_In. apply list_elem_of_filter in Hin as [_ Hin]. by apply Hd, list_elem_of_In.
Qed.

(** The only modes that are read are none and [rw]. *)
Definition kept_fs_entry (e : Json) : bool := match prop e "mode" with Some (JStr t) => bool_decide (t = [] \/ t = js "rw") | _ => false end.

Lemma fs_entry_recovers e : conforms FsAllowEntrySchema e -> kept_fs_entry e = true -> recovers FsAllowEntrySchema fs_entry e e.
Proof.
  intros He Hk. pose proof (conforms_distinct FsAllowEntrySchema eq_refl e He) as Hd. split; [done|]. intros w Ha.
  apply conforms_fields in He as (m & -> & Hm & Hf); [|by apply nodup_strings; vm_compute]. split_fields Hf.
  destruct Hf as ((x1 & E1 & (t1 & ->)%conforms_str) & (x2 & E2 & (t2 & ->)%conforms_str) & _). unfold kept_fs_entry in Hk. rewrite E2 in Hk.
  apply bool_decide_eq_true in Hk. pose proof (fun k => sees_obj m w k Hd Ha) as Hs. destruct (alike_obj m w) as (m' & -> & _); [by apply distinct_obj in Hd as [? _]|done|].
  lookups E1. lookups E2. unfold fs_entry. apply parse_literal; [vm_compute; reflexivity|done|]. each_field.
  - field E1. specialize (Hs "path"%string). rewrite E1 in Hs. by rewrite (sees_str _ _ _ Hs).
  - field E2. specialize (Hs "mode"%string). rewrite E2 in Hs. rewrite (sees_str _ _ _ Hs). destruct Hk as [->| ->]; [done|].
    by rewrite bool_decide_true.
Qed.

Definition kept_confinement (c : option Json) : bool := forallb kept_fs_entry (rows (opt_prop (opt_prop c (js "fs")) (js "allow"))).

Lemma is_blank_text t : is_blank (Some (JStr t)) = bool_decide (t = []).
Proof. by destruct t. Qed.
Lemma is_zero_num z : is_zero (Some (JNum z)) = bool_decide (z = 0).
Proof. by destruct z. Qed.

(** What is written of a text, of a number, when it is not the default. *)
Lemma kept_text t : (if negb (is_blank (Some (JStr t))) then Some (JStr t) else None) = nonempty_text (Some (JStr t)).
Proof. by destruct t. Qed.

Definition nonzero (z : Z) : option Json := if bool_decide (z = 0) then None else Some (JNum z).
Lemma kept_number z : (if negb (is_zero (Some (JNum z))) then Some (JNum z) else None) = nonzero z.
Proof. unfold nonzero. by destruct z. Qed.
Lemma read_number w k z : sees w k (nonzero z) -> number_or (prop w k) = JNum z.
Proof. unfold nonzero. case_bool_decide as E; [intros ->%sees_none; by rewrite E|by intros ->%sees_num]. Qed.

Lemma sees_inner k w k0 m (b : bool) : sees w k0 (if b then Some (JObj m) else None) -> distinct_keys (JObj m) = true ->
  sees (object_or (prop w k0)) k (if b then assoc (js k) m else None).
Proof.
  intros Hs Hd. destruct b; [|by rewrite (sees_none _ _ Hs)]. apply sees_some in Hs as (v & -> & Ha).
  destruct (alike_obj m v) as (m' & -> & _); [by apply distinct_obj in Hd as [? _]|done|]. by apply sees_obj.
Qed.

(** A table of one list, written when the list has elements. *)
Lemma sees_list_table k w k0 m l : sees w k0 (if is_some (nonempty_list (Some (JArr l))) then Some (JObj m) else None) ->
  distinct_keys (JObj m) = true -> assoc (js k) m = Some (JArr l) ->
  exists l', list_or (prop (object_or (prop w k0)) k) = JArr l' /\ Forall2 alike l l'.
Proof.
  intros Hs Hd E. apply (sees_inner k) in Hs; [|done]. rewrite E in Hs. destruct l as [|x l].
  - rewrite (sees_none _ _ Hs). by exists [].
  - cbn [nonempty_list is_some] in Hs. apply sees_arr in Hs as (l' & -> & Hl). by exists l'.
Qed.

Lemma conforms_port v : conforms ConfinementPortSchema v -> exists m z t, v = JObj m /\ assoc (js "bind") m = Some (JNum z) /\
  assoc (js "address") m = Some (JStr t) /\ map fst m = map js ["bind"; "address"]%string.
Proof.
  intros Hv. apply conforms_fields in Hv as (m & -> & Hm & Hf); [|by apply nodup_strings; vm_compute]. split_fields Hf.
  destruct Hf as ((x1 & E1 & (z & -> & _)%conforms_uint) & (x2 & E2 & (t & ->)%conforms_str) & _). by exists m, z, t.
Qed.

Definition port_lit (z : Z) (t : jsstr) : list (string * option Json) :=
  [("bind"%string, nonzero z); ("address"%string, nonempty_text (Some (JStr t)))].

Lemma port_back o v m z t : conforms ConfinementPortSchema v -> v = JObj m -> assoc (js "bind") m = Some (JNum z) -> assoc (js "address") m = Some (JStr t) ->
  map fst m = map js ["bind"; "address"]%string ->
  sort_keys <$> o = sort_keys <$> match object (port_lit z t) with [] => None | b => Some (JObj b) end ->
  parse ConfinementPortSchema (Some (JObj (object [("bind", Some (number_or (prop (object_or o) "bind")));
    ("address", Some (text_or (prop (object_or o) "address")))]%string))) = Some v.
Proof.
  intros Hv -> E1 E2 Hm Ho.
  assert (Hd : distinct_keys (JObj (object (port_lit z t))) = true).
  { unfold port_lit. distinct_fields. unfold nonzero. by case_bool_decide. }
  pose proof (fun k => table_back (port_lit z t) o k ltac:(by apply nodup_strings; vm_compute) Hd Ho) as Hs.
  apply conforms_fields in Hv as (m0 & [= <-] & _ & Hf); [|by apply nodup_strings; vm_compute]. split_fields Hf.
  destruct Hf as ((x1 & E1' & Hx1) & _). lookups E1'. assert (x1 = JNum z) as -> by congruence.
  apply parse_literal; [vm_compute; reflexivity|done|]. each_field.
  - field E1. by rewrite (read_number _ _ z (Hs "bind"%string)).
  - field E2. by rewrite (read_text _ _ t (Hs "address"%string)).
Qed.

Definition confinement_lit (fs : list Json) (mfs : list (jsstr * Json)) (hosts : list Json) (mnet : list (jsstr * Json)) (z : Z) (t cs : jsstr) : list (string * option Json) :=
  [("fs"%string, if is_some (nonempty_list (Some (JArr fs))) then Some (JObj mfs) else None);
   ("network"%string, if is_some (nonempty_list (Some (JArr hosts))) then Some (JObj mnet) else None);
   ("port"%string, match object (port_lit z t) with [] => None | b => Some (JObj b) end);
   ("credentialSource"%string, nonempty_text (Some (JStr cs)))].

Lemma confinement_body_lit c mfs mnet mp fs hosts z t cs :
  assoc (js "fs") c = Some (JObj mfs) -> assoc (js "network") c = Some (JObj mnet) -> assoc (js "port") c = Some (JObj mp) ->
  assoc (js "credentialSource") c = Some (JStr cs) -> assoc (js "allow") mfs = Some (JArr fs) -> assoc (js "allowHosts") mnet = Some (JArr hosts) ->
  assoc (js "bind") mp = Some (JNum z) -> assoc (js "address") mp = Some (JStr t) ->
  (if isEmptyConfinement (Some (JObj c)) then None else Some (pruneConfinementDefaults (Some (JObj c)))) =
  match object (confinement_lit fs mfs hosts mnet z t cs) with [] => None | b => Some (JObj b) end.
Proof.
  intros E1 E2 E3 E4 E5 E6 E7 E8. unfold isEmptyConfinement, pruneConfinementDefaults. cbn [opt_prop option_bind get_prop mbind].
  rewrite E1, E2, E3, E4. cbn [opt_prop option_bind get_prop mbind]. rewrite E5, E6, E7, E8. cbn [truthy negb orb].
  unfold confinement_lit, port_lit, nonzero. rewrite is_zero_num, !is_blank_text.
  destruct fs, hosts, (bool_decide (z = 0)), t, cs; try reflexivity.
Qed.

Lemma fs_back v : conforms ConfinementFsSchema v -> kept_confinement (Some (JObj [(js "fs", v)])) = true ->
  exists m l, v = JObj m /\ map fst m = map js ["allow"%string] /\ assoc (js "allow") m = Some (JArr l) /\
    forall l', Forall2 alike l l' -> parse ConfinementFsSchema (Some (JObj (object [("allow"%string, Some (JArr (map fs_entry l')))]))) = Some v.
Proof.
  intros Hv Hk. apply conforms_fields in Hv as (m & -> & Hm & Hf); [|by apply nodup_strings; vm_compute]. split_fields Hf.
  destruct Hf as ((x & E & (l & -> & Hl)%conforms_arr) & _). lookups E. exists m, l. split; [done|]. split; [done|]. split; [done|].
  intros l' Ha. unfold kept_confinement in Hk. cbn [opt_prop option_bind get_prop mbind] in Hk. rewrite assoc_js_cons in Hk.
  cbn [String.eqb Ascii.eqb Bool.eqb opt_prop get_prop] in Hk. rewrite E in Hk. cbn [rows] in Hk.
  assert (Hr : Forall2 (recovers FsAllowEntrySchema fs_entry) l l).
  { clear -Hl Hk. induction Hl as [|e l He Hl IH]; [constructor|]. cbn [forallb] in Hk. apply andb_prop in Hk as [Hke Hk].
    constructor; [by apply fs_entry_recovers|by apply IH]. }
  destruct (rows_recover _ _ _ _ Hr) as [_ Hrows]. apply parse_literal; [vm_compute; reflexivity|done|]. each_field. field E. by apply Hrows.
Qed.

Lemma network_back v : conforms ConfinementNetworkSchema v ->
  exists m ts, v = JObj m /\ map fst m = map js ["allowHosts"%string] /\ assoc (js "allowHosts") m = Some (JArr (map JStr ts)) /\
    parse ConfinementNetworkSchema (Some (JObj (object [("allowHosts"%string, Some (JArr (map JStr ts)))]))) = Some v.
Proof.
  intros Hv. apply conforms_fields in Hv as (m & -> & Hm & Hf); [|by apply nodup_strings; vm_compute]. split_fields Hf.
  destruct Hf as ((x & E & (ts & ->)%conforms_strs) & _). lookups E. exists m, ts. repeat split; [done..|].
  apply parse_literal; [vm_compute; reflexivity|done|]. each_field. field E. apply parse_strs.
Qed.

Definition confinement_body (c : option Json) : option Json := if isEmptyConfinement c then None else Some (pruneConfinementDefaults c).

Lemma confinement_back v : conforms ConfinementSchema v -> kept_confinement (Some v) = true ->
  distinct_opt (confinement_body (Some v)) /\
  forall o, sort_keys <$> o = sort_keys <$> confinement_body (Some v) -> parse ConfinementSchema (Some (normalizeConfinement o)) = Some v.
Proof.
  intros Hv Hk. pose proof (conforms_distinct ConfinementSchema eq_refl v Hv) as Hdv.
  apply conforms_fields in Hv as (m & -> & Hm & Hf); [|by apply nodup_strings; vm_compute]. split_fields Hf.
  destruct Hf as ((x1 & E1 & H1) & (x2 & E2 & H2) & (x3 & E3 & H3) & (x4 & E4 & (cs & ->)%conforms_str) & _).
  lookups E1. lookups E2. lookups E3. lookups E4. pose proof (distinct_obj _ Hdv) as [_ Hd].
  assert (Hk1 : kept_confinement (Some (JObj [(js "fs", x1)])) = true).
  { unfold kept_confinement in *. cbn [opt_prop option_bind get_prop mbind] in *. rewrite assoc_js_cons. by rewrite E1 in Hk. }
  destruct (fs_back x1 H1 Hk1) as (m1 & fs & -> & _ & Efs & Hfs). destruct (network_back x2 H2) as (m2 & hosts & -> & _ & Enet & Hnet).
  destruct (conforms_port x3 H3) as (m3 & z & t & -> & Eb & Et & Hm3). unfold confinement_body.
  rewrite (confinement_body_lit m m1 m2 m3 fs (map JStr hosts) z t cs) by done. set (lit := confinement_lit _ _ _ _ _ _ _).
  assert (Hp : distinct_keys (JObj (object (port_lit z t))) = true) by (unfold port_lit; distinct_fields; unfold nonzero; by case_bool_decide).
  assert (Hdl : distinct_keys (JObj (object lit)) = true).
  { subst lit. unfold confinement_lit. distinct_fields.
    - pose proof (Hd _ _ E1). by destruct (is_some _).
    - pose proof (Hd _ _ E2). by destruct (is_some _).
    - revert Hp. by destruct (object (port_lit z t)). }
  split; [revert Hdl; by destruct (object lit)|]. intros o Ho.
  pose proof (fun k => table_back lit o k ltac:(by apply nodup_strings; vm_compute) Hdl Ho) as Hs.
  unfold normalizeConfinement. apply parse_literal; [vm_compute; reflexivity|done|]. each_field.
  - field E1. destruct (sees_list_table "allow" _ _ _ _ (Hs "fs"%string) (Hd _ _ E1) Efs) as (l' & El & Hl).
    rewrite <- (Hfs l' Hl). destruct (prop (object_or (prop _ "fs")) "allow") as [[]|]; cbn [list_or] in El; by try (injection El as <-).
  - field E2. destruct (sees_list_table "allowHosts" _ _ _ _ (Hs "network"%string) (Hd _ _ E2) Enet) as (l' & El & Hl).
    rewrite El. apply alike_strs in Hl as ->. exact Hnet.
  - field E3. exact (port_back _ _ m3 z t H3 eq_refl Eb Et Hm3 (Hs "port"%string)).
  - field E4. by rewrite (read_text _ _ cs (Hs "credentialSource"%string)).
Qed.

(** What is read of an object whose defaults are dropped. *)
Definition undefault (d : Json) (o : option Json) : option Json := match o with Some v => if is_default d v then None else Some v | None => None end.

Lemma undefault_text t : undefault (JStr []) (Some (JStr t)) = nonempty_text (Some (JStr t)).
Proof. by destruct t. Qed.
Lemma undefault_number z : undefault (JNum 0) (Some (JNum z)) = nonzero z.
Proof. unfold nonzero. by destruct z. Qed.
Lemma undefault_list l : undefault (JArr []) (Some (JArr l)) = nonempty_list (Some (JArr l)).
Proof. by destruct l. Qed.

Lemma is_default_sorted d v : is_default d (sort_entry v) = is_default d v.
Proof. by destruct v as [| | | |[|]|]. Qed.

Lemma sees_pruned tests m w k d : distinct_keys (JObj m) = true -> alike (JObj (prune tests (order_by key_le (map (fun kv => (kv.1, sort_entry kv.2)) m)))) w ->
  find_value k tests = Some d -> sees w k (undefault d (assoc (js k) m)).
Proof.
  intros Hd Ha Hk. pose proof (distinct_obj _ Hd) as [Hn Hv].
  assert (Hds : distinct_keys (JObj (order_by key_le (map (fun kv => (kv.1, sort_entry kv.2)) m))) = true).
  { destruct (kind_payload_spec m Hd) as (m' & E & _ & Hd'). unfold canonicalizeKindPayload in E. cbn [own_entries] in E. by rewrite E. }
  apply (sees_obj _ w k) in Ha; [|by apply distinct_filter]. unfold sees in *. rewrite Ha. clear Ha.
  rewrite assoc_prune by by apply distinct_obj in Hds as [? _]. rewrite assoc_sorted by by rewrite fst_map_snd. rewrite assoc_map_snd, Hk.
  specialize (Hv (js k)). destruct (assoc (js k) m) as [v|]; [|done]. cbn [fmap option_fmap option_map undefault]. rewrite is_default_sorted.
  destruct (is_default d v); [done|]. cbn [fmap option_fmap option_map]. f_equal. by apply sort_entry_spec, Hv.
Qed.

Lemma external_back y : conforms ExternalBundleSchema y ->
  exists m, canonicalizeBundleKindPayload (js "external") y = JObj m /\ distinct_keys (JObj m) = true /\
    forall w, alike (JObj m) w -> exists mw, w = JObj mw /\ parse ExternalBundleSchema (Some (normalize_external w)) = Some y.
Proof.
  intros Hy. pose proof (conforms_distinct ExternalBundleSchema eq_refl y Hy) as Hd. pose proof Hy as Hy'.
  apply conforms_fields in Hy' as (m & -> & Hm & Hf); [|by apply nodup_strings; vm_compute]. split_fields Hf.
  destruct Hf as ((x1 & E1 & (t1 & ->)%conforms_str) & (x2 & E2 & (t2 & ->)%conforms_str) & (x3 & E3 & H3) &
    (x4 & E4 & (t4 & ->)%conforms_strs) & (x5 & E5 & H5) & (x6 & E6 & (t6 & ->)%conforms_str) & (x7 & E7 & (t7 & ->)%conforms_str) &
    (x8 & E8 & (t8 & ->)%conforms_str) & _).
  pose proof H3 as (z3 & -> & _)%conforms_uint.
  lookups E1. lookups E2. lookups E3. lookups E4. lookups E5. lookups E6. lookups E7. lookups E8.
  eexists. split; [unfold canonicalizeBundleKindPayload, canonicalizeKindPayload; rewrite bool_decide_true by done; cbn [own_entries]; reflexivity|].
  set (tests := [_; _; _; _; _; _; _; _]). split.
  { apply distinct_filter. by destruct (kind_payload_spec m Hd) as (m' & [= <-] & _ & Hd'). }
  intros w Ha. pose proof (fun k d => sees_pruned tests m w k d Hd Ha) as Hs.
  assert (Hw : exists mw, w = JObj mw) by (unfold alike in Ha; destruct w; try done; by eexists).
  destruct Hw as [mw ->]. exists mw. split; [done|]. unfold normalize_external. apply parse_literal; [vm_compute; reflexivity|done|].
  pose proof (Hs "image"%string _ eq_refl) as S1. rewrite E1, undefault_text in S1.
  pose proof (Hs "ipcSocket"%string _ eq_refl) as S2. rewrite E2, undefault_text in S2.
  pose proof (Hs "httpPort"%string _ eq_refl) as S3. rewrite E3, undefault_number in S3.
  pose proof (Hs "args"%string _ eq_refl) as S4. rewrite E4, undefault_list in S4.
  pose proof (Hs "env"%string _ eq_refl) as S5. rewrite E5 in S5.
  pose proof (Hs "entryPoint"%string _ eq_refl) as S6. rewrite E6, undefault_text in S6.
  pose proof (Hs "executionMode"%string _ eq_refl) as S7. rewrite E7, undefault_text in S7.
  pose proof (Hs "executionModeRationale"%string _ eq_refl) as S8. rewrite E8, undefault_text in S8.
  each_field.
  - field E1. by rewrite (read_text _ _ _ S1).
  - field E2. by rewrite (read_text _ _ _ S2).
  - field E3. by rewrite (read_number _ _ _ S3).
  - field E4. rewrite (read_strs _ _ _ S4). apply parse_strs.
  - field E5. pose proof (conforms_distinct (Arr EnvVarSchema) eq_refl _ H5) as Hd5. pose proof H5 as H5'. apply conforms_arr in H5' as (l & -> & _). rewrite undefault_list in S5.
    destruct l as [|e l]; [by rewrite (sees_none _ _ S5)|]. change (nonempty_list (Some (JArr (e :: l)))) with (Some (JArr (e :: l))) in S5.
    apply sees_some in S5 as (v & -> & Hv). destruct (alike_arr _ _ Hv) as (l' & -> & _). cbn [list_or]. rewrite <- (parse_alike _ (JArr (e :: l))); done.
  - field E6. by rewrite (read_text _ _ _ S6).
  - field E7. by rewrite (read_text _ _ _ S7).
  - field E8. by rewrite (read_text _ _ _ S8).
Qed.

Definition SCALAR_DEFAULTS : list (string * Json) :=
  [("description", JStr []); ("holdsCredential", JArr []); ("workerdServiceName", JStr []); ("hypervisorRationale", JStr []); ("perTenant", JBool false)]%string.

(** What is written at a key of a bundle, its kind aside. *)
Definition bundle_written (m : list (jsstr * Json)) (k : string) : option Json :=
  if String.eqb k "kind" then None
  else if String.eqb k "confinement" then confinement_body (assoc (js k) m)
  else match find_value k SCALAR_DEFAULTS with Some d => undefault d (assoc (js k) m) | None => assoc (js k) m end.

Lemma distinct_body o : conforms ConfinementSchema o -> kept_confinement (Some o) = true -> isEmptyConfinement (Some o) = false ->
  distinct_keys (pruneConfinementDefaults (Some o)) = true.
Proof. intros Hc Hk He. destruct (confinement_back o Hc Hk) as [Hd _]. unfold confinement_body in Hd. by rewrite He in Hd. Qed.

Lemma bundle_flat m c : distinct_keys (JObj m) = true -> assoc CONFINEMENT m = Some c -> conforms ConfinementSchema c -> kept_confinement (Some c) = true ->
  let flat := pruneBundleScalarDefaults (omit [KIND] m) in
  distinct_keys (JObj flat) = true /\ (forall k, k ∈ map fst flat -> k ∈ map fst m /\ k <> KIND) /\
  forall k, assoc (js k) flat = bundle_written m k.
Proof.
  intros Hd Ec Hc Hk. cbv zeta. unfold pruneBundleScalarDefaults. fold SCALAR_DEFAULTS.
  pose proof (distinct_omit [KIND] m Hd) as Hdo. pose proof (distinct_obj _ Hdo) as [Hno _].
  set (flat := prune SCALAR_DEFAULTS (omit [KIND] m)).
  assert (Hdf : distinct_keys (JObj flat) = true) by by apply distinct_filter.
  assert (Hl : forall k, assoc (js k) flat = if String.eqb k "kind" then None else match find_value k SCALAR_DEFAULTS with Some d => undefault d (assoc (js k) m) | None => assoc (js k) m end).
  { intros k. subst flat. rewrite assoc_prune by done. change [KIND] with (map js ["kind"%string]). rewrite assoc_omit_js. cbn [existsb]. rewrite orb_false_r.
    destruct (String.eqb k "kind"); [done|]. unfold undefault. by destruct (assoc (js k) m), (find_value k SCALAR_DEFAULTS). }
  assert (Hkeys : forall k, k ∈ map fst flat -> k ∈ map fst m /\ k <> KIND).
  { intros k Hin%keys_filter%keys_omit. destruct Hin as [? Hn]. split; [done|]. intros ->. apply Hn. by left. }
  assert (Ecf : assoc CONFINEMENT flat = Some c) by (unfold CONFINEMENT in *; rewrite Hl, Ec; done).
  rewrite Ecf. unfold bundle_written, confinement_body. destruct (isEmptyConfinement (Some c)) eqn:He.
  - split; [by apply distinct_omit|]. split; [by intros k [? _]%keys_omit; apply Hkeys|]. intros k.
    change [CONFINEMENT] with (map js ["confinement"%string]). rewrite assoc_omit_js, Hl. cbn [existsb]. rewrite orb_false_r.
    destruct (String.eqb_spec k "kind") as [->|]; [done|]. destruct (String.eqb_spec k "confinement") as [->|]; [|done].
    unfold CONFINEMENT in Ec. by rewrite Ec, He.
  - split; [apply distinct_assoc_set; [done|by apply distinct_body]|]. split.
    + intros k [->|?]%elem_of_keys_assoc_set; [|by apply Hkeys]. split; [|by intros ?%js_inj]. apply elem_of_assoc in Ec; [|by apply distinct_obj in Hd as [? _]].
      change CONFINEMENT with (CONFINEMENT, c).1. by apply list_elem_of_fmap_2.
    + intros k. unfold CONFINEMENT at 1. rewrite assoc_set_js, Hl. destruct (String.eqb_spec k "confinement") as [->|].
      * unfold CONFINEMENT in Ec. by rewrite Ec, He.
      * by destruct (String.eqb_spec k "kind").
Qed.

Lemma assoc_set_id k (v : Json) m : assoc k m = Some v -> assoc_set k v m = m.
Proof. induction m as [|[k' v'] m IH]; [done|]. cbn [assoc assoc_set]. case_decide; [by intros [= ->]; subst|]. intros E. by rewrite IH. Qed.

Lemma omit_fresh k m : k ∉ map fst m -> omit [k] m = m.
Proof.
  intros Hk. unfold omit. induction m as [|[k' v] m IH]; [done|]. cbn [map fst] in Hk. rewrite not_elem_of_cons in Hk. destruct Hk as [Hne Hk].
  rewrite filter_cons. cbn [fst]. rewrite decide_True by by rewrite list_elem_of_singleton. by rewrite IH.
Qed.

Definition kept_bundle (b : Json) : bool := kept_confinement (prop b "confinement").

Definition with_defaults (m : list (jsstr * Json)) : list (jsstr * Json) :=
  let m := assoc_set (js "perTenant") (bool_or (assoc (js "perTenant") m)) m in
  spread m
    [("description", text_or (assoc (js "description") m)); ("holdsCredential", list_or (assoc (js "holdsCredential") m));
     ("workerdServiceName", text_or (assoc (js "workerdServiceName") m));
     ("hypervisorRationale", text_or (assoc (js "hypervisorRationale") m)); ("perTenant", bool_or (assoc (js "perTenant") m));
     ("confinement", normalizeConfinement (assoc (js "confinement") m))]%string.

Lemma normalizeBundle_fields m tag q : assoc KIND m = Some (JObj [(tag, q)]) -> (tag = js "external" -> exists mq, q = JObj mq) ->
  normalizeBundleDefaults (assoc_set (js "perTenant") (bool_or (assoc (js "perTenant") m)) m) =
  JObj (assoc_set KIND (JObj [(tag, if bool_decide (tag = js "external") then normalize_external q else q)]) (with_defaults m)).
Proof.
  intros Ek Hq. unfold normalizeBundleDefaults. fold (with_defaults m).
  assert (E : assoc KIND (with_defaults m) = Some (JObj [(tag, q)])).
  { unfold with_defaults, KIND. rewrite assoc_spread_js. cbn [foldl fst snd String.eqb Ascii.eqb Bool.eqb]. by rewrite assoc_set_js. }
  rewrite E. cbn [assoc]. destruct (decide (js "external" = tag)) as [<-|Hne].
  - destruct (Hq eq_refl) as [mq ->]. cbn [truthy object_or assoc_set]. rewrite (bool_decide_true _ eq_refl), decide_True by done. done.
  - cbn [truthy]. rewrite bool_decide_false by congruence. by rewrite assoc_set_id.
Qed.

Lemma bundle_read m N kv' c : conforms BundleSchema (JObj m) -> assoc CONFINEMENT m = Some c -> kept_confinement (Some c) = true ->
  (forall k, k ∈ map fst N -> k ∈ map fst m) ->
  (forall k, k <> "kind"%string -> sort_keys <$> assoc (js k) N = sort_keys <$> bundle_written m k) ->
  parse (union [("workerd", WorkerdBundleSchema); ("external", ExternalBundleSchema)]%string) (Some kv') = assoc KIND m ->
  parse BundleSchema (Some (JObj (assoc_set KIND kv' (with_defaults N)))) = Some (JObj m).
Proof.
  intros Hm Ec Hkc Hkeys Hw Hkind. pose proof (conforms_distinct BundleSchema eq_refl _ Hm) as Hd.
  apply conforms_fields in Hm as (m0 & [= <-] & Hk & Hf); [|by apply nodup_strings; vm_compute]. split_fields Hf.
  destruct Hf as ((x1 & E1 & H1) & (x2 & E2 & (t2 & ->)%conforms_str) & (x3 & E3 & H3) & (x4 & E4 & (t4 & ->)%conforms_strs) &
    (x5 & E5 & (t5 & ->)%conforms_str) & (x6 & E6 & (t6 & ->)%conforms_str) & (x7 & E7 & (b & ->)%conforms_bool) & (x8 & E8 & H8) & (x9 & E9 & H9) & _).
  lookups E1. lookups E2. lookups E3. lookups E4. lookups E5. lookups E6. lookups E7. lookups E8. lookups E9.
  unfold CONFINEMENT in Ec. assert (x8 = c) as -> by congruence.
  assert (S : forall k, k <> "kind"%string -> sees (JObj N) k (bundle_written m k)) by exact Hw.
  unfold bundle_written in S.
  pose proof (S "name"%string ltac:(done)) as S1. pose proof (S "description"%string ltac:(done)) as S2.
  pose proof (S "tier"%string ltac:(done)) as S3. pose proof (S "holdsCredential"%string ltac:(done)) as S4.
  pose proof (S "workerdServiceName"%string ltac:(done)) as S5. pose proof (S "hypervisorRationale"%string ltac:(done)) as S6.
  pose proof (S "perTenant"%string ltac:(done)) as S7. pose proof (S "confinement"%string ltac:(done)) as S8. clear S.
  cbn [String.eqb Ascii.eqb Bool.eqb find_value SCALAR_DEFAULTS] in S1, S2, S3, S4, S5, S6, S7, S8.
  rewrite E1 in S1. rewrite E2, undefault_text in S2. rewrite E3 in S3. rewrite E4, undefault_list in S4. rewrite E5, undefault_text in S5.
  rewrite E6, undefault_text in S6. rewrite E7 in S7. rewrite E8 in S8.
  pose proof (distinct_obj _ Hd) as [_ Hdv].
  apply parse_fields_to; [by apply nodup_strings; vm_compute|done| |].
  - assert (Hin : forall k, existsb (String.eqb k) ["kind"; "perTenant"; "description"; "holdsCredential"; "workerdServiceName"; "hypervisorRationale"; "confinement"]%string = true ->
      js k ∈ map fst m).
    { intros k (k' & Hin & ->%String.eqb_eq)%existsb_exists. rewrite Hk. apply in_map_js. cbn [map fst]. apply list_elem_of_In in Hin. clear -Hin.
      revert k' Hin. apply Forall_forall. repeat (apply Forall_cons; split); [apply (bool_decide_eq_true _); reflexivity..|by apply Forall_nil]. }
    intros k. rewrite <- Hk. rewrite elem_of_keys_assoc_set. intros [->|Hin']; [by apply Hin|].
    unfold with_defaults, spread in Hin'. cbn [foldl fst snd] in Hin'. rewrite !elem_of_keys_assoc_set in Hin'.
    repeat (destruct Hin' as [->|Hin']; [by apply Hin|]). by apply Hkeys.
  - unfold KIND, with_defaults. each_field; rewrite ?assoc_set_js, ?assoc_spread_js; cbn [String.eqb Ascii.eqb Bool.eqb foldl fst snd]; rewrite ?assoc_set_js; cbn [String.eqb Ascii.eqb Bool.eqb].
    + apply sees_some in S1 as (v & Ev & Hv). lookups Ev. rewrite Ev, E1, <- (parse_alike Str x1 v); [exact H1|by eapply Hdv|done].
    + rewrite E2. pose proof (read_text _ _ _ S2) as R. lookups R. by rewrite R.
    + apply sees_some in S3 as (v & Ev & Hv). lookups Ev. rewrite Ev, E3, <- (parse_alike TierSchema x3 v); [exact H3|by eapply Hdv|done].
    + rewrite E4. pose proof (read_strs _ _ _ S4) as R. lookups R. rewrite R. apply parse_strs.
    + rewrite E5. pose proof (read_text _ _ _ S5) as R. lookups R. by rewrite R.
    + rewrite E6. pose proof (read_text _ _ _ S6) as R. lookups R. by rewrite R.
    + rewrite E7. destruct b; [pose proof (sees_bool _ _ _ S7) as R|pose proof (sees_none _ _ S7) as R]; lookups R; by rewrite R.
    + rewrite E8. apply confinement_back; [done|done|exact S8].
    + exact Hkind.
Qed.

(** What is written of a bundle's payload. *)
Lemma bundle_payload tag s y : (tag, s) ∈ map (fun '(k, s) => (js k, s)) [("workerd", WorkerdBundleSchema); ("external", ExternalBundleSchema)]%string ->
  conforms s y -> distinct_keys (canonicalizeBundleKindPayload tag y) = true /\
  forall q, alike (canonicalizeBundleKindPayload tag y) q ->
    (tag = js "external" -> exists mq, q = JObj mq) /\
    parse s (Some (if bool_decide (tag = js "external") then normalize_external q else q)) = Some y.
Proof.
  intros Hin Hy. cbn [map] in Hin. cases_in Hin; injection Hin as -> ->.
  - rewrite (bool_decide_false (js "workerd" = js "external")) by by intros ?%js_inj.
    assert (Ho : exists my, y = JObj my) by (apply conforms_fields in Hy as (my & -> & _); [by eexists|by apply nodup_strings; vm_compute]).
    destruct Ho as [my Ey]. destruct (payload_read WorkerdBundleSchema my y eq_refl Ey Hy) as [Hd Hq].
    assert (E : canonicalizeBundleKindPayload (js "workerd") y = canonicalizeKindPayload y).
    { unfold canonicalizeBundleKindPayload. rewrite (bool_decide_false (js "workerd" = js "external")) by by intros ?%js_inj. by rewrite Ey. }
    rewrite E. split; [done|]. intros q Ha. split; [by intros ?%js_inj|]. destruct (Hq (Some q)) as (q' & [= <-] & Hp); [|done].
    cbn [fmap option_fmap option_map]. by f_equal.
  - rewrite bool_decide_true by done. destruct (external_back y Hy) as (my & -> & Hd & Hr). split; [done|]. intros q Ha.
    destruct (Hr q Ha) as (mq & -> & Hp). split; [by eexists|done].
Qed.

Lemma bundle_recovers v : conforms BundleSchema v -> kept_bundle v = true ->
  exists w, canonicalizeBundle v = Ok w /\ recovers BundleSchema unflattenBundleKind v w.
Proof.
  intros Hv Hk. pose proof Hv as Hv'. pose proof (conforms_distinct BundleSchema eq_refl v Hv) as Hd.
  apply conforms_fields in Hv' as (m & -> & Hm & Hf); [|by apply nodup_strings; vm_compute].
  split_fields Hf. destruct Hf as (_ & _ & _ & _ & _ & _ & _ & (c & Ec & Hc) & (x & E & Hx) & _).
  apply conforms_oneof in Hx as (tag & s & y & Hin & -> & Hy). unfold kept_bundle in Hk. rewrite Ec in Hk.
  unfold canonicalizeBundle. rewrite E. cbn [pickUnionTag rbind fst snd fields_of]. lookups Ec. lookups E.
  destruct (bundle_flat m c Hd Ec Hc Hk) as (Hdf & Hkf & Hl). set (flat' := pruneBundleScalarDefaults (omit [KIND] m)) in *.
  destruct (bundle_payload tag s y Hin Hy) as [Hdp Hp]. set (p := canonicalizeBundleKindPayload tag y) in *.
  assert (Htag : exists t, tag = js t /\ t <> "kind"%string /\ js t ∉ map fst m).
  { clear -Hin Hm. rewrite Hm. cbn [map] in Hin. cases_in Hin; injection Hin as -> _; eexists; (split; [reflexivity|]); (split; [done|]);
      apply (bool_decide_eq_false _); vm_compute; reflexivity. }
  destruct Htag as (t & -> & Htk & Htm). assert (Hne : js t <> KIND) by by intros ?%js_inj.
  assert (Hnf : assoc (js t) flat' = None) by (apply assoc_None; by intros [? _]%Hkf).
  assert (Ekf : KIND ∉ map fst flat') by by intros [_ ?]%Hkf.
  exists (sortKeys (JObj (flat KIND (js t) (Some p) flat'))). split; [unfold flat; by rewrite omit_fresh|].
  split.
  { apply sortKeys_distinct. unfold flat. apply distinct_assoc_set; [|done]. apply distinct_assoc_set; [by apply distinct_omit|done]. }
  intros w Ha. destruct (flat_read KIND (js t) (Some p) flat' w Hdf Hdp Hne Hnf Ha) as (m' & -> & Hn' & Ek & Et & Hj & Hkeys).
  apply written in Et as (q & Eq & Hq). destruct (Hp q Hq) as [Hobj Hpq]. unfold unflattenBundleKind. rewrite Ek.
  unfold nest. rewrite Eq. rewrite (normalizeBundle_fields _ (js t) q); [|by rewrite assoc_set_lookup, decide_True|done].
  apply (bundle_read m _ _ c); [done|done|done| | |].
  - intros k [->|Hk']%elem_of_keys_assoc_set.
    + rewrite Hm. apply in_map_js. apply (bool_decide_eq_true _). reflexivity.
    + apply keys_omit in Hk' as [Hk' Hno]. rewrite !not_elem_of_cons in Hno. destruct (Hkeys k Hk') as [?|[?|?]]; [by apply Hkf|tauto|tauto].
  - intros k Hkk. unfold KIND at 1. rewrite assoc_set_js. destruct (String.eqb_spec k "kind") as [|_]; [done|].
    change [KIND; js t] with (map js ["kind"%string; t]). rewrite assoc_omit_js. cbn [existsb]. destruct (String.eqb_spec k "kind") as [|_]; [done|].
    cbn [orb]. rewrite orb_false_r. destruct (String.eqb_spec k t) as [->|Hkt].
    + by rewrite <- Hl, Hnf.
    + rewrite Hj by by intros ?%js_inj. by rewrite Hl.
  - unfold KIND. rewrite E. eapply parse_oneof_to; [|exact Hin|exact Hpq]. apply nodup_keys. vm_compute. reflexivity.
Qed.

(** ** The gateway *)

Lemma object_snoc lit k (v : Json) : k ∉ map fst lit -> assoc_set (js k) v (object lit) = object (lit ++ [(k, Some v)]).
Proof.
  intros Hk. rewrite assoc_set_fresh by (intros (k' & E & ?)%keys_object; apply js_inj in E; by subst).
  unfold object. by rewrite omap_app.
Qed.

Lemma object_skip lit k : object (lit ++ [(k, None)]) = object lit.
Proof. unfold object. rewrite omap_app. apply app_nil_r. Qed.

Definition service_lit (n u : jsstr) (subs : list jsstr) (rate : Z) (t : string) (p : option Json) : list (string * option Json) :=
  [("name", nonempty_text (Some (JStr n))); ("upstreamBaseUrl", nonempty_text (Some (JStr u))); ("defaultAllowedSubs", Some (JArr (map JStr subs)));
   ("rateLimitPerMinute", Some (JNum rate)); ("injection", Some (JStr (js t))); (t, p)]%string.

(** What is read of the injection. *)
Definition injection_kinds : list (string * Schema) :=
  [("authorizationBearer", Null); ("authorizationBasic", Null); ("headerNamed", HeaderNamedSpecSchema); ("queryParam", QueryParamSpecSchema);
   ("bodyField", BodyFieldSpecSchema)]%string.

Lemma one_text k v : conforms (fields [(k, Str)]) v -> exists t, v = JObj [(js k, JStr t)].
Proof.
  intros Hv. apply conforms_fields in Hv as (m & -> & Hm & Hf); [|apply NoDup_singleton]. split_fields Hf.
  destruct Hf as ((x & E & (t & ->)%conforms_str) & _). lookups E. destruct m as [|[k0 v0] [|]]; try discriminate. injection Hm as ->.
  rewrite assoc_js_cons, String.eqb_refl in E. injection E as ->. by exists t.
Qed.

Lemma kind_payload_text k t : canonicalizeKindPayload (JObj [(k, JStr t)]) = JObj [(k, JStr t)].
Proof. reflexivity. Qed.

(** The payload that is written, and how it is read. *)
Lemma injection_back t s y : (t, s) ∈ injection_kinds -> conforms s y ->
  exists p, (match y with JNull => None | payload => Some (canonicalizeKindPayload payload) end) = p /\ distinct_opt p /\
    forall m, sees (JObj m) "injection" (Some (JStr (js t))) -> sees (JObj m) t p -> normalizeVaultProxyInjection (JObj m) = JObj [(js t, y)].
Proof.
  intros Hin Hy. unfold injection_kinds in Hin.
  assert (Hread : forall k field x m, sees (JObj m) k (Some (JObj [(js field, JStr x)])) -> injection_payload k field (JObj m) = JObj [(js k, JObj [(js field, JStr x)])]).
  { intros k field x m (v & E & Ha)%sees_some. unfold injection_payload. rewrite E.
    destruct (alike_obj [(js field, JStr x)] v) as (m' & -> & _); [apply NoDup_singleton|done|]. cbn [object_or].
    apply (sees_obj _ _ field) in Ha; [|by cbn [distinct_keys map fst forallb snd]; rewrite bool_decide_true by apply NoDup_singleton].
    rewrite assoc_js_cons, String.eqb_refl in Ha. by rewrite (sees_str _ _ _ Ha). }
  cases_in Hin; injection Hin as -> ->.
  1, 2: (assert (y = JNull) as -> by (unfold conforms in Hy; by destruct y)); exists None; split; [done|]; split; [done|];
    intros m Hi _; unfold normalizeVaultProxyInjection; rewrite (sees_str _ _ _ Hi); reflexivity.
  all: apply one_text in Hy as [x ->]; eexists; split; [reflexivity|]; rewrite kind_payload_text; split; [reflexivity|];
    intros m Hi Hp; unfold normalizeVaultProxyInjection; rewrite (sees_str _ _ _ Hi); exact (Hread _ _ _ _ Hp).
Qed.

Lemma service_recovers : reads_back VaultProxyServiceSchema canonicalizeVaultProxyService normalize_service.
Proof.
  intros v Hv. apply conforms_fields in Hv as (m & -> & Hm & Hf); [|by apply nodup_strings; vm_compute]. split_fields Hf.
  destruct Hf as ((x1 & E1 & (t1 & ->)%conforms_str) & (x2 & E2 & (t2 & ->)%conforms_str) & (x3 & E3 & (t3 & ->)%conforms_strs) & (x4 & E4 & H4) &
    (x5 & E5 & H5) & _). pose proof H4 as (z & -> & _)%conforms_uint. apply conforms_oneof in H5 as (tag & s & y & Hin & -> & Hy).
  assert (Ht : exists t, tag = js t /\ (t, s) ∈ injection_kinds).
  { apply list_elem_of_fmap in Hin as ([t s'] & [= -> ->] & ?). by exists t. }
  destruct Ht as (t & -> & Ht). clear Hin. destruct (injection_back t s y Ht Hy) as (p & Ep & Hdp & Hread).
  assert (Hnt : t ∉ ["name"; "upstreamBaseUrl"; "defaultAllowedSubs"; "rateLimitPerMinute"; "injection"]%string).
  { clear -Ht. unfold injection_kinds in Ht. cases_in Ht; injection Ht as -> _; apply (bool_decide_eq_false _); reflexivity. }
  unfold canonicalizeVaultProxyService. rewrite E1, E2, E3, E4, E5. cbn [pickUnionTag rbind fst snd].
  exists (sortKeys (JObj (object (service_lit t1 t2 t3 z t p)))). split.
  { f_equal. f_equal. f_equal. rewrite object_snoc by by apply (bool_decide_eq_false _).
    cbn [app]. destruct y; subst p; try (by rewrite object_snoc); unfold service_lit. symmetry. apply (object_skip [_; _; _; _; _]). }
  assert (Hn : NoDup (map fst (service_lit t1 t2 t3 z t p))).
  { change (map fst (service_lit t1 t2 t3 z t p)) with (["name"; "upstreamBaseUrl"; "defaultAllowedSubs"; "rateLimitPerMinute"; "injection"]%string ++ [t]).
    apply NoDup_app. split; [by apply nodup_strings; vm_compute|]. split; [|apply NoDup_singleton]. intros k Hk ->%list_elem_of_singleton. done. }
  assert (Hd : distinct_keys (JObj (object (service_lit t1 t2 t3 z t p))) = true).
  { apply distinct_object; [done|]. repeat (apply Forall_cons; split); [..|by apply Forall_nil]; cbn [snd]; try done; [apply distinct_text..|apply distinct_strs]. }
  split; [by apply sortKeys_distinct|]. intros w Ha. rewrite sortKeys_alike in Ha by done.
  pose proof (fun k => sees_literal _ w k Hn Hd Ha) as Hs. destruct (alike_obj _ w ltac:(by apply distinct_obj in Hd as [? _]) Ha) as (m' & -> & _).
  unfold normalize_service. cbn [object_or].
  pose proof (Hs "name"%string) as S1. pose proof (Hs "upstreamBaseUrl"%string) as S2. pose proof (Hs "defaultAllowedSubs"%string) as S3.
  pose proof (Hs "rateLimitPerMinute"%string) as S4. pose proof (Hs "injection"%string) as S5. specialize (Hs t).
  cbn [find_field service_lit String.eqb Ascii.eqb Bool.eqb] in S1, S2, S3, S4, S5.
  assert (Hft : find_field t (service_lit t1 t2 t3 z t p) = p).
  { unfold service_lit. cbn [find_field]. rewrite !not_elem_of_cons in Hnt. destruct Hnt as (? & ? & ? & ? & ? & _).
    do 5 (rewrite (proj2 (String.eqb_neq t _)) by done). by rewrite String.eqb_refl. }
  rewrite Hft in Hs. rewrite (Hread m' S5 Hs). lookups E1. lookups E2. lookups E3. lookups E4. lookups E5.
  apply parse_literal; [vm_compute; reflexivity|done|]. each_field.
  - field E1. by rewrite (read_text _ _ _ S1).
  - field E2. by rewrite (read_text _ _ _ S2).
  - field E3. apply sees_arr in S3 as (l & -> & ->%alike_strs). apply parse_strs.
  - field E4. by rewrite (sees_num _ _ _ S4).
  - field E5. apply parse_oneof_to with (s := s); [apply nodup_keys; vm_compute; reflexivity| |exact Hy].
    change (js t, s) with ((fun '(k, s) => (js k, s)) (t, s)). by apply list_elem_of_fmap_2.
Qed.

Lemma assoc_filter (P : jsstr * Json -> Prop) `{!forall x, Decision (P x)} k m : NoDup (map fst m) ->
  assoc k (filter P m) = match assoc k m with Some v => if decide (P (k, v)) then Some v else None | None => None end.
Proof.
  induction m as [|[k' v] m IH]; [done|]. cbn [map fst]. intros [Hk' Hn]%NoDup_cons. rewrite filter_cons. cbn [assoc].
  destruct (decide (k = k')) as [<-|Hne].
  - destruct (decide (P (k, v))); [cbn [assoc]; by rewrite decide_True|]. rewrite IH by done.
    assert (assoc k m = None) as -> by by apply assoc_None. done.
  - destruct (decide (P (k', v))); [cbn [assoc]; rewrite decide_False by done|]; by apply IH.
Qed.

Lemma map_keys_same {A} (f : jsstr -> A) m : (forall k v, (k, v) ∈ m -> f k = v) -> map (fun k => (k, f k)) (map fst m) = m.
Proof.
  induction m as [|[k v] m IH]; intros H; [done|]. cbn [map fst]. rewrite (H k v) by (by left). rewrite IH; [done|].
  intros k' v' Hin. apply H. by right.
Qed.

Lemma target_recovers v : conforms HarnessTargetSchema v -> recovers HarnessTargetSchema normalize_target v (canonicalizeHarnessTarget v).
Proof.
  intros Hv. pose proof (conforms_distinct HarnessTargetSchema eq_refl v Hv) as Hd. pose proof Hv as Hv'.
  apply conforms_fields in Hv' as (m & -> & Hm & Hf); [|by apply nodup_strings; vm_compute].
  assert (Hval : forall k x, assoc k m = Some x -> (exists t, x = JStr t) \/ (exists ts, x = JArr (map JStr ts))).
  { intros k x Ex. apply elem_of_assoc in Ex as Hin; [|by apply distinct_obj in Hd as [? _]].
    assert (Hk : k ∈ map fst m) by (change k with (k, x).1; by apply list_elem_of_fmap_2). rewrite Hm in Hk.
    apply list_elem_of_fmap in Hk as (k' & -> & Hk). apply list_elem_of_fmap in Hk as ([k0 s] & -> & Hks). cbn [fst] in *.
    rewrite Forall_forall in Hf. destruct (Hf _ Hks) as (x' & Ex' & Hx'). cbn [fst snd] in *. lookups Ex'. assert (x' = x) as -> by congruence.
    assert (s = Str \/ s = Arr Str) as [-> | ->] by (clear -Hks; cases_in Hks; injection Hks as _ ->; auto);
      [left; by apply conforms_str|right; by apply conforms_strs]. }
  unfold canonicalizeHarnessTarget. cbn [own_entries]. set (keep := filter _ m).
  assert (Hdk : distinct_keys (JObj keep) = true) by by apply distinct_filter.
  split; [by apply sortKeys_distinct|]. intros w Ha. rewrite sortKeys_alike in Ha by done.
  destruct (alike_obj keep w) as (m' & -> & _ & Hl); [by apply distinct_obj in Hdk as [? _]|done|].
  assert (E : normalize_target (JObj m') = JObj m); [|by rewrite E].
  unfold normalize_target. cbn [object_or get_prop]. f_equal.
  assert (Hshape : shape HarnessTargetSchema = map fst m) by by rewrite Hm. rewrite Hshape.
  apply map_keys_same. intros k x Hin. pose proof (distinct_obj _ Hd) as [Hn _]. apply elem_of_assoc in Hin; [|done].
  specialize (Hl k). unfold keep in Hl. rewrite assoc_filter in Hl by done. rewrite Hin in Hl. destruct (Hval k x Hin) as [[t ->]|[ts ->]].
  - destruct t as [|c t]; cbn [fst snd] in Hl.
    + rewrite decide_False in Hl by done. by destruct (assoc k m').
    + rewrite decide_True in Hl by done. destruct (assoc k m') as [y|]; [|done]. injection Hl as Ey. by rewrite (sort_keys_str y _ Ey).
  - cbn [snd] in Hl. rewrite decide_True in Hl by done. apply written in Hl as (y & -> & Hy).
    apply alike_arr in Hy as (l & -> & ->%alike_strs). done.
Qed.

Definition kept_skill (k : Json) : bool := negb (is_blank (prop k "name")).

Lemma skills_recover l : Forall (conforms SkillDeclarationSchema) l -> Forall (fun k => kept_skill k = true) l ->
  Forall2 (recovers SkillDeclarationSchema normalize_skill) l (canonicalize_skills l).
Proof.
  induction 1 as [|v l Hv Hl IH]; intros Hk; [constructor|]. apply Forall_cons in Hk as [Hkv Hk].
  apply conforms_fields in Hv as (m & -> & Hm & Hf); [|by apply nodup_strings; vm_compute]. split_fields Hf.
  destruct Hf as ((x1 & E1 & (t1 & ->)%conforms_str) & (x2 & E2 & (t2 & ->)%conforms_str) & _).
  unfold canonicalize_skills. rewrite filter_cons. unfold kept_skill in Hkv. rewrite E1 in Hkv. destruct t1 as [|c t1]; [done|].
  rewrite decide_True by by rewrite E1. cbn [map]. constructor; [|by apply IH]. rewrite E1, E2. cbn [text_or]. set (lit := [_; _]).
  assert (Hd : distinct_keys (JObj (object lit)) = true) by distinct_fields.
  split; [by apply sortKeys_distinct|]. intros w Ha. rewrite sortKeys_alike in Ha by done.
  pose proof (fun k => sees_literal lit w k ltac:(by apply nodup_strings; vm_compute) Hd Ha) as Hs.
  destruct (alike_obj (object lit) w) as (m' & -> & _ & _); [by apply distinct_obj in Hd as [? _]|done|]. lookups E1. lookups E2.
  unfold normalize_skill. cbn [object_or]. apply parse_literal; [vm_compute; reflexivity|done|]. each_field.
  - field E1. by rewrite (sees_str _ _ _ (Hs "name"%string)).
  - field E2. by rewrite (sees_str _ _ _ (Hs "digest"%string)).
Qed.

Lemma read_rows w k ws : sees w k (nonempty_rows ws) -> exists ws', rows (prop w k) = ws' /\ Forall2 alike ws ws'.
Proof.
  destruct ws as [|x ws]; cbn [nonempty_rows]; [intros ->%sees_none; exists []; by split|].
  intros (l & -> & Hl)%sees_arr. by exists l.
Qed.

(** A table of texts: the empty ones are not written. *)
Definition texts_lit (ks : list string) (m : list (jsstr * Json)) : list (string * option Json) := map (fun k => (k, nonempty_text (assoc (js k) m))) ks.

Lemma find_map k ks f : k ∈ ks -> NoDup ks -> find_field k (map (fun k => (k, f k)) ks) = f k.
Proof.
  induction ks as [|k' ks IH]; [by intros ?%not_elem_of_nil|]. intros Hin [Hn Hk]%NoDup_cons. cbn [map find_field].
  destruct (String.eqb_spec k k') as [->|Hne]; [done|]. apply elem_of_cons in Hin as [?|?]; [done|by apply IH].
Qed.

Lemma texts_back ks m : NoDup ks -> conforms (fields (map (fun k => (k, Str)) ks)) (JObj m) ->
  distinct_opt (nonempty_table (object (texts_lit ks m))) /\
  (forall k, k ∈ ks -> exists t, assoc (js k) m = Some (JStr t)) /\
  forall o, sort_keys <$> o = sort_keys <$> nonempty_table (object (texts_lit ks m)) ->
    (forall k, k ∈ ks -> Some (text_or (prop (object_or o) k)) = assoc (js k) m) /\
    parse (fields (map (fun k => (k, Str)) ks)) (Some (JObj (object (map (fun k => (k, Some (text_or (prop (object_or o) k)))) ks)))) = Some (JObj m).
Proof.
  intros Hn Hc. assert (Hfst : forall A (f : string -> A), map fst (map (fun k => (k, f k)) ks) = ks) by (intros; rewrite map_map; apply map_id).
  apply conforms_fields in Hc as (m0 & [= <-] & Hm & Hf); [|by rewrite Hfst]. rewrite Hfst in Hm.
  assert (Ht : forall k, k ∈ ks -> exists t, assoc (js k) m = Some (JStr t)).
  { intros k Hk. rewrite Forall_forall in Hf. destruct (Hf (k, Str)) as (x & E & (t & ->)%conforms_str); [|by exists t].
    change (k, Str) with ((fun k => (k, Str)) k). by apply list_elem_of_fmap_2. }
  assert (Hd : distinct_keys (JObj (object (texts_lit ks m))) = true).
  { apply distinct_object; [by unfold texts_lit; rewrite Hfst|]. apply Forall_forall. intros [k o] (k' & [= -> ->] & Hk)%list_elem_of_fmap. cbn [snd].
    destruct (Ht k' Hk) as [t ->]. apply distinct_text. }
  split; [|split; [done|]].
  { unfold distinct_opt, nonempty_table. destruct (object _) as [|kv b]; [done|]. by apply sortKeys_distinct. }
  intros o Ho. rewrite nonempty_table_sorted in Ho by done.
  assert (Hr : forall k, k ∈ ks -> Some (text_or (prop (object_or o) k)) = assoc (js k) m).
  { intros k Hk. pose proof (table_back _ o k ltac:(by unfold texts_lit; rewrite Hfst) Hd Ho) as Hs. unfold texts_lit in Hs. rewrite find_map in Hs by done.
    destruct (Ht k Hk) as [t E]. rewrite E in *. by rewrite (read_text _ _ _ Hs). }
  split; [done|]. apply parse_fields_to; [by rewrite Hfst|by rewrite Hfst| |].
  - rewrite Hfst. intros k (k' & -> & Hk)%keys_object. rewrite Hfst in Hk. by apply in_map_js.
  - apply Forall_forall. intros [k s] (k' & [= -> ->] & Hk)%list_elem_of_fmap. cbn [fst snd]. rewrite assoc_object by by rewrite Hfst.
    rewrite find_map, Hr by done. by destruct (Ht k' Hk) as [t ->].
Qed.

(** The flag is written beside another setting alone. *)
Definition kept_policy (policy : Json) : bool :=
  match prop policy "requireInterlock" with
  | Some (JBool true) => negb (is_zero (prop policy "maxCertLifetimeSeconds")) || negb (is_blank (prop policy "minAlgorithm"))
  | _ => true
  end.

Lemma policy_back v : conforms InterlacePolicySchema v -> kept_policy v = true ->
  distinct_opt (nonempty_table (policy_body v)) /\
  forall o, sort_keys <$> o = sort_keys <$> nonempty_table (policy_body v) ->
    let w := object_or o in
    parse InterlacePolicySchema (Some (JObj (object
        [("maxCertLifetimeSeconds", Some (number_or (prop w "maxCertLifetimeSeconds")));
         ("requireInterlock", Some (bool_or (prop w "requireInterlock")));
         ("minAlgorithm", Some (text_or (prop w "minAlgorithm")))]%string))) = Some v.
Proof.
  intros Hv Hk. apply conforms_fields in Hv as (m & -> & Hm & Hf); [|by apply nodup_strings; vm_compute]. split_fields Hf.
  destruct Hf as ((x1 & E1 & H1) & (x2 & E2 & (b & ->)%conforms_bool) & (x3 & E3 & (t & ->)%conforms_str) & _).
  pose proof H1 as (z & -> & Hz)%conforms_uint. unfold kept_policy in Hk. rewrite E1, E2, E3 in Hk. rewrite is_zero_num, is_blank_text in Hk.
  pose (lit := [("maxCertLifetimeSeconds"%string, nonzero z); ("minAlgorithm"%string, nonempty_text (Some (JStr t)));
                ("requireInterlock"%string, if bool_decide (z = 0) && bool_decide (t = []) then None else Some (JBool b))]).
  assert (El : policy_body (JObj m) = object lit).
  { unfold policy_body, lit, nonzero. rewrite E1, E2, E3. destruct (Z.ltb_spec 0 z).
    - rewrite bool_decide_false by lia. destruct t; reflexivity.
    - rewrite (bool_decide_true (z = 0)) by lia. destruct t; reflexivity. }
  assert (Hd : distinct_keys (JObj (object lit)) = true).
  { unfold lit. distinct_fields; [unfold nonzero; by case_bool_decide|by destruct (_ && _)]. }
  rewrite El. split; [unfold distinct_opt, nonempty_table; destruct (object lit); [done|by apply sortKeys_distinct]|].
  intros o Ho. cbv zeta. rewrite nonempty_table_sorted in Ho by done.
  pose proof (fun k => table_back lit o k ltac:(by apply nodup_strings; vm_compute) Hd Ho) as Hs.
  lookups E1. lookups E2. lookups E3. apply parse_literal; [vm_compute; reflexivity|done|]. each_field.
  - field E1. by rewrite (read_number _ _ _ (Hs "maxCertLifetimeSeconds"%string)).
  - field E2. specialize (Hs "requireInterlock"%string). cbn [find_field lit String.eqb Ascii.eqb Bool.eqb] in Hs.
    destruct (bool_decide (z = 0)) eqn:Ez, (bool_decide (t = [])) eqn:Et; cbn [andb] in Hs; try (by rewrite (sees_bool _ _ _ Hs)).
    destruct b; [done|]. by rewrite (sees_none _ _ Hs).
  - field E3. by rewrite (read_text _ _ _ (Hs "minAlgorithm"%string)).
Qed.

Definition kept_gateway (g : Json) : bool :=
  match assertActorFingerprint (str_of (prop (object_or (prop g "actor")) "fingerprint")) with Ok _ => true | Throw _ => false end &&
  kept_policy (object_or (prop g "policy")) && forallb kept_skill (rows (prop g "skills")).

Lemma fingerprint_same fp fp' : assertActorFingerprint fp = Ok fp' -> fp' = fp.
Proof. unfold assertActorFingerprint. case_bool_decide; [congruence|]. destruct (_ && _); congruence. Qed.

Lemma distinct_rows ws : distinct_keys (JArr ws) = true -> distinct_opt (nonempty_rows ws).
Proof. by destruct ws. Qed.

Lemma gateway_back v : conforms GatewaySchema v -> kept_gateway v = true ->
  exists p, canonicalizeGateway (Some v) = Ok p /\ distinct_opt p /\
    forall o, sort_keys <$> o = sort_keys <$> p -> exists q, normalizeGateway o = Ok q /\ parse GatewaySchema (Some q) = Some v.
Proof.
  intros Hv Hk. apply conforms_fields in Hv as (m & -> & Hm & Hf); [|by apply nodup_strings; vm_compute]. split_fields Hf.
  destruct Hf as ((x1 & E1 & H1) & (x2 & E2 & H2) & (x3 & E3 & H3) & (x4 & E4 & (services & -> & H4)%conforms_arr) &
    (x5 & E5 & (targets & -> & H5)%conforms_arr) & (x6 & E6 & (skills & -> & H6)%conforms_arr) & _).
  assert (Hobj : forall l x, conforms (fields l) x -> bool_decide (NoDup (map fst l)) = true -> exists m, x = JObj m).
  { intros l x Hx Hn%nodup_strings. apply conforms_fields in Hx as (m' & -> & _); [by eexists|done]. }
  destruct (Hobj _ _ H1 eq_refl) as [m1 ->]. destruct (Hobj _ _ H2 eq_refl) as [m2 ->]. destruct (Hobj _ _ H3 eq_refl) as [m3 ->]. clear Hobj.
  unfold kept_gateway in Hk. rewrite E2, E3, E6 in Hk. cbn [object_or rows] in Hk. apply andb_prop in Hk as [[Hfp Hpol]%andb_prop Hsk].
  destruct (texts_back ["name"; "version"; "metaNamespace"]%string m1 ltac:(by apply nodup_strings; vm_compute) H1) as (Hd1 & _ & R1).
  destruct (texts_back ["fingerprint"; "algorithm"; "pubkeyBinding"; "attestationRepo"; "tunnelEndpoint"]%string m2 ltac:(by apply nodup_strings; vm_compute) H2) as (Hd2 & Ht2 & R2).
  destruct (policy_back _ H3 Hpol) as [Hd3 R3].
  destruct (traverse_recovers VaultProxyServiceSchema canonicalizeVaultProxyService normalize_service services) as (ws & Ews & Hws).
  { intros s Hs. apply service_recovers. rewrite Forall_forall in H4. by apply H4. }
  destruct (rows_recover _ _ _ _ Hws) as [Hd4 R4].
  assert (Hts : Forall2 (recovers HarnessTargetSchema normalize_target) targets (map canonicalizeHarnessTarget targets)).
  { apply map_recovers. eapply Forall_impl; [exact H5|]. exact target_recovers. }
  destruct (rows_recover _ _ _ _ Hts) as [Hd5 R5].
  assert (Hsk' : Forall (fun k => kept_skill k = true) skills) by (apply Forall_forall; intros k Hin; rewrite forallb_forall in Hsk; by apply Hsk, list_elem_of_In).
  destruct (rows_recover _ _ _ _ (skills_recover skills H6 Hsk')) as [Hd6 R6].
  lookups E1. lookups E2. lookups E3. lookups E4. lookups E5. lookups E6.
  unfold canonicalizeGateway. cbn [opt_prop get_prop]. rewrite E1, E2, E3, E4, E5, E6. cbn [object_or rows]. rewrite Ews. cbn [rbind].
  set (lit := [_; _; _; _; _; _]).
  assert (Hd : distinct_keys (JObj (object lit)) = true).
  { apply distinct_object; [by apply nodup_strings; vm_compute|]. repeat (apply Forall_cons; split); [..|by apply Forall_nil]; cbn [snd];
      [exact Hd1|exact Hd2|exact Hd3|exact (distinct_rows _ Hd4)|exact (distinct_rows _ Hd5)|exact (distinct_rows _ Hd6)]. }
  exists (nonempty_table (object lit)). split; [by destruct (object lit)|].
  split; [revert Hd; destruct (object lit); [done|]; intros Hd; by apply sortKeys_distinct|]. intros o Ho.
  rewrite nonempty_table_sorted in Ho by done.
  pose proof (fun k => table_back lit o k ltac:(by apply nodup_strings; vm_compute) Hd Ho) as Hs.
  pose proof (Hs "metadata"%string) as S1. pose proof (Hs "actor"%string) as S2. pose proof (Hs "policy"%string) as S3.
  pose proof (Hs "vaultProxyServices"%string) as S4. pose proof (Hs "harnessTargets"%string) as S5. pose proof (Hs "skills"%string) as S6.
  cbn [find_field lit String.eqb Ascii.eqb Bool.eqb] in S1, S2, S3, S4, S5, S6. clear Hs Ho.
  apply read_rows in S4 as (ws4 & A4 & B4). apply read_rows in S5 as (ws5 & A5 & B5). apply read_rows in S6 as (ws6 & A6 & B6).
  destruct (R1 _ S1) as [_ P1]. destruct (R2 _ S2) as [T2 P2]. pose proof (R3 _ S3) as P3.
  unfold normalizeGateway, normalizeVaultProxyServices, normalizeHarnessTargets, normalizeSkills. rewrite A4, A5, A6.
  destruct (Ht2 "fingerprint"%string ltac:(by left)) as [fp Efp]. pose proof (T2 "fingerprint"%string ltac:(by left)) as Tfp. rewrite Efp in Tfp.
  assert (Etxt : forall x, match x with Some (JStr t) => t | _ => [] end = str_of (Some (text_or x))) by (by intros [[]|]).
  rewrite Etxt. assert (Eq : text_or (prop (object_or (prop (object_or o) "actor")) "fingerprint") = JStr fp) by (by injection Tfp).
  rewrite Eq. cbn [str_of]. unfold prop in Hfp. cbn [get_prop] in Hfp. rewrite Efp in Hfp. cbn [str_of] in Hfp.
  destruct (assertActorFingerprint fp) as [fp'|] eqn:Ef; [|done]. apply fingerprint_same in Ef as ->. cbn [rbind]. rewrite <- Eq.
  eexists. split; [reflexivity|]. apply parse_literal; [vm_compute; reflexivity|done|]. each_field.
  - field E1. exact P1.
  - field E2. exact P2.
  - field E3. exact P3.
  - field E4. by apply R4.
  - field E5. by apply R5.
  - field E6. by apply R6.
Qed.

(** ** The cluster *)

(** The clusters that survive: what is left out here is dropped by the writer, or read as something
    else. *)
Definition kept (c : Json) : bool :=
  forallb kept_bundle (rows (prop c "bundles")) && forallb kept_input (rows (prop c "inputs")) &&
  listed_in_order [] (map name_of (rows (prop c "inputs"))) && kept_gateway (object_or (prop c "gateway")).

(** [t'] is what a TOML reader makes of the printed [t]: the order of keys may change, except that of
    the inputs, which are tables one and all and are printed one after the other. *)
Definition rereads (t t' : list (jsstr * Json)) : Prop :=
  alike (JObj t) (JObj t') /\ own_keys (object_or (assoc (js "inputs") t')) = own_keys (object_or (assoc (js "inputs") t)).

Lemma sorted_back s v : wf s = true -> (exists m, v = JObj m) -> conforms s v ->
  exists p, sorted_table (Some v) = Some p /\ distinct_keys p = true /\
    forall o, sort_keys <$> o = sort_keys <$> Some p -> parse s o = Some v.
Proof.
  intros Hw [m ->] Hv. pose proof (conforms_distinct s Hw _ Hv) as Hd. exists (sortKeys (JObj m)). split; [done|].
  split; [by apply sortKeys_distinct|]. intros o (w & -> & Ha)%written. rewrite sortKeys_alike in Ha by done.
  by rewrite <- (parse_alike s (JObj m) w).
Qed.

Definition inputs_table (l : list Json) : option Json := match canonicalizeInputs l with [] => None | _ => Some (JObj (canonicalizeInputs l)) end.

Lemma inputs_read l o : Forall (conforms InputSpecSchema) l -> Forall (fun v => kept_input v = true) l -> listed_in_order [] (map name_of l) = true ->
  sort_keys <$> o = sort_keys <$> inputs_table l -> own_keys (object_or o) = own_keys (object_or (inputs_table l)) ->
  exists q, unflattenInputs o = Ok q /\ parse (Arr InputSpecSchema) (Some q) = Some (JArr l).
Proof.
  intros Hc Hk Hn Ho Hkeys. destruct (inputs_back l Hc Hk Hn) as [Hd Hr]. unfold inputs_table in *.
  destruct (canonicalizeInputs l) as [|kv m] eqn:E.
  - destruct o; [done|]. exists (JArr []). split; [done|]. destruct l as [|v l]; [done|].
    rewrite canonicalizeInputs_entries in E by done. done.
  - apply written in Ho as (w & -> & Ha). destruct (alike_obj (kv :: m) w) as (m' & -> & _); [by apply distinct_obj in Hd as [? _]|done|].
    destruct (Hr m' Ha Hkeys) as (l' & El & Ep). exists (JArr l'). cbn [unflattenInputs]. rewrite El. by split.
Qed.

Lemma map_rows_lookup k f m j : assoc (js j) (map_rows k f m) =
  if String.eqb j k then match assoc (js k) m with Some (JArr l) => Some (JArr (map f l)) | o => o end else assoc (js j) m.
Proof.
  unfold map_rows. destruct (String.eqb_spec j k) as [->|Hne].
  - destruct (assoc (js k) m) as [[]|] eqn:E; rewrite ?E; try done. by rewrite assoc_set_js, String.eqb_refl.
  - destruct (assoc (js k) m) as [[]|]; try done. rewrite assoc_set_js. by rewrite (proj2 (String.eqb_neq j k)).
Qed.

Lemma map_rows_keys k f m j : j ∈ map fst (map_rows k f m) -> j ∈ map fst m.
Proof.
  unfold map_rows. destruct (assoc (js k) m) as [[]|] eqn:E; try done. intros [->|?]%elem_of_keys_assoc_set; [|done].
  destruct (decide (js k ∈ map fst m)) as [|Hn]; [done|]. by apply assoc_None in Hn; rewrite Hn in E.
Qed.

(** Rows that are always written are mapped where they are. *)
Lemma mapped_rows k f m ws : sort_keys <$> assoc (js k) m = sort_keys <$> Some (JArr ws) ->
  exists ws', assoc (js k) (map_rows k f m) = Some (JArr (map f ws')) /\ Forall2 alike ws ws'.
Proof.
  intros (v & E & Ha)%written. apply alike_arr in Ha as (ws' & -> & Hw). exists ws'. by rewrite map_rows_lookup, String.eqb_refl, E.
Qed.

Lemma optional_rows o ws f : sort_keys <$> o = sort_keys <$> nonempty_rows ws ->
  exists ws', match o with Some (JArr l) => JArr (map f l) | _ => JArr [] end = JArr (map f ws') /\ Forall2 alike ws ws'.
Proof.
  destruct ws as [|x ws]; [destruct o; [done|]; exists []; by split|]. intros (v & -> & Ha)%written. apply alike_arr in Ha as (ws' & -> & Hw).
  by exists ws'.
Qed.

Lemma holds_of_all {A} (P : A -> bool) l : forallb P l = true -> Forall (fun x => P x = true) l.
Proof. intros H. apply Forall_forall. intros x Hx. rewrite forallb_forall in H. by apply H, list_elem_of_In. Qed.

Lemma rows_write s write read (good : Json -> bool) l :
  (forall v, conforms s v -> good v = true -> exists w, write v = Ok w /\ recovers s read v w) ->
  Forall (conforms s) l -> Forall (fun v => good v = true) l ->
  exists ws, traverse write l = Ok ws /\ distinct_keys (JArr ws) = true /\
    forall ws', Forall2 alike ws ws' -> parse (Arr s) (Some (JArr (map read ws'))) = Some (JArr l).
Proof.
  intros Hw Hc Hg. destruct (traverse_recovers s write read l) as (ws & E & Hws).
  { intros v Hin. rewrite Forall_forall in Hc, Hg. by apply Hw; [apply Hc|apply Hg]. }
  exists ws. split; [done|]. by apply rows_recover.
Qed.

Lemma cluster_back c : conforms ClusterSchema c -> kept c = true ->
  exists t, canonicalizeCluster c = Ok t /\
    forall t', rereads t t' -> exists u, unflattenForSchema t' = Ok u /\ parse ClusterSchema (Some (JObj u)) = Some c.
Proof.
  intros Hc Hk. pose proof (conforms_distinct ClusterSchema eq_refl _ Hc) as Hdc.
  apply conforms_fields in Hc as (m & -> & Hm & Hf); [|by apply nodup_strings; vm_compute]. split_fields Hf.
  destruct Hf as ((x1 & E1 & H1) & (x2 & E2 & (bundles & -> & H2)%conforms_arr) & (x3 & E3 & (wires & -> & H3)%conforms_arr) & (x4 & E4 & H4) &
    (x5 & E5 & (inputs & -> & H5)%conforms_arr) & (x6 & E6 & (routes & -> & H6)%conforms_arr) & (x7 & E7 & H7) &
    (x8 & E8 & (edges & -> & H8)%conforms_arr) & _).
  unfold kept in Hk. rewrite E2, E5, E7 in Hk. cbn [rows] in Hk. apply andb_prop in Hk as [[[Kb%holds_of_all Ki%holds_of_all]%andb_prop Kn]%andb_prop Kg].
  assert (Hobj : forall l x, conforms (fields l) x -> bool_decide (NoDup (map fst l)) = true -> exists m, x = JObj m).
  { intros l x Hx Hn%nodup_strings. apply conforms_fields in Hx as (m' & -> & _); [by eexists|done]. }
  pose proof (Hobj _ _ H7 eq_refl) as [m7 Em7]. rewrite Em7 in Kg. cbn [object_or] in Kg. rewrite <- Em7 in Kg.
  destruct (sorted_back ClusterMetadataSchema x1 eq_refl (Hobj _ _ H1 eq_refl) H1) as (p1 & S1 & D1 & R1).
  destruct (rows_write _ _ _ kept_bundle bundles bundle_recovers H2 Kb) as (w2 & S2 & D2 & R2).
  destruct (rows_write WireSchema canonicalizeWire unflattenWireTransport (fun _ => true) wires) as (w3 & S3 & D3 & R3); [by intros v Hv _; apply wire_recovers|done|by apply Forall_true|].
  destruct (sorted_back StoragePolicySchema x4 eq_refl (Hobj _ _ H4 eq_refl) H4) as (p4 & S4 & D4 & R4).
  destruct (inputs_back inputs H5 Ki Kn) as [D5 _].
  destruct (rows_write RouteSchema canonicalizeRoute unflattenRoute (fun _ => true) routes) as (w6 & S6 & D6 & R6); [by intros v Hv _; apply route_recovers|done|by apply Forall_true|].
  destruct (gateway_back x7 H7 Kg) as (p7 & S7 & D7 & R7).
  assert (Hed : Forall2 (recovers EdgeSpecSchema unflattenEdge) edges (map canonicalizeEdge edges)).
  { apply map_recovers. eapply Forall_impl; [exact H8|]. exact edge_recovers. }
  destruct (rows_recover _ _ _ _ Hed) as [D8 R8]. clear Hobj Hed.
  unfold canonicalizeCluster. rewrite E1, E2, E3, E4, E5, E6, E7, E8. cbn [rows]. rewrite S2. cbn [rbind]. rewrite S3. cbn [rbind].
  rewrite S6. cbn [rbind]. rewrite S7. cbn [rbind]. rewrite S1, S4. fold (inputs_table inputs). set (lit := [_; _; _; _; _; _; _; _]).
  assert (Hn : NoDup (map fst lit)) by (apply nodup_strings; vm_compute; reflexivity).
  assert (Hd : distinct_keys (JObj (object lit)) = true).
  { apply distinct_object; [done|]. repeat (apply Forall_cons; split); [..|by apply Forall_nil]; cbn [snd];
      [exact D1|exact D2|exact D3| |exact (distinct_rows _ D6)|exact D7|exact (distinct_rows _ D8)|exact D4].
    unfold inputs_table. by destruct (canonicalizeInputs inputs). }
  exists (object lit). split; [done|]. intros t' [Ha Hkeys].
  pose proof (fun k => sees_literal lit (JObj t') k Hn Hd Ha) as Hs. unfold sees, prop in Hs. cbn [get_prop] in Hs.
  rewrite (assoc_object "inputs" lit Hn) in Hkeys.
  assert (Hin : forall k, k ∈ map fst t' -> k ∈ map js (map fst lit)).
  { intros k Hk. destruct (alike_obj (object lit) (JObj t')) as (t0 & [= <-] & Hp & _); [by apply distinct_obj in Hd as [? _]|done|].
    rewrite Hp in Hk. apply keys_object in Hk as (k' & -> & Hk). by apply list_elem_of_fmap_2. }
  clear Ha. pose proof (Hs "metadata"%string) as T1. pose proof (Hs "bundles"%string) as T2. pose proof (Hs "wires"%string) as T3.
  pose proof (Hs "storage"%string) as T4. pose proof (Hs "inputs"%string) as T5. pose proof (Hs "routes"%string) as T6.
  pose proof (Hs "gateway"%string) as T7. pose proof (Hs "edges"%string) as T8. clear Hs.
  cbn [find_field lit String.eqb Ascii.eqb Bool.eqb] in T1, T2, T3, T4, T5, T6, T7, T8, Hkeys.
  apply (inputs_read inputs _ H5 Ki Kn) in T5 as (q5 & U5 & P5); [|exact Hkeys]. apply R7 in T7 as (q7 & U7 & P7).
  apply (optional_rows _ _ unflattenRoute) in T6 as (l6 & U6 & A6). apply (optional_rows _ _ unflattenEdge) in T8 as (l8 & U8 & A8).
  apply (mapped_rows _ unflattenBundleKind) in T2 as (l2 & U2 & A2). apply (mapped_rows _ unflattenWireTransport) in T3 as (l3 & U3 & A3).
  unfold unflattenForSchema. rewrite U5. cbn [rbind]. rewrite U7. cbn [rbind]. eexists. split; [reflexivity|].
  unfold unflattenRoutes, unflattenEdges. rewrite U6, U8.
  lookups E1. lookups E2. lookups E3. lookups E4. lookups E5. lookups E6. lookups E7. lookups E8.
  apply parse_fields_to; [by apply nodup_strings; vm_compute|done| |].
  - assert (Hall : forall k, existsb (String.eqb k) ["metadata"; "bundles"; "wires"; "storage"; "inputs"; "routes"; "gateway"; "edges"]%string = true ->
      js k ∈ map js (map fst [("metadata", ClusterMetadataSchema); ("bundles", Arr BundleSchema); ("wires", Arr WireSchema); ("storage", StoragePolicySchema);
          ("inputs", Arr InputSpecSchema); ("routes", Arr RouteSchema); ("gateway", GatewaySchema); ("edges", Arr EdgeSpecSchema)]%string)).
    { intros k (k' & Hk & ->%String.eqb_eq)%existsb_exists. apply in_map_js. by apply list_elem_of_In. }
    intros k Hk. unfold spread in Hk. cbn [foldl fst snd] in Hk. rewrite !elem_of_keys_assoc_set in Hk.
    repeat (destruct Hk as [->|Hk]; [by apply Hall|]). apply map_rows_keys, map_rows_keys, Hin in Hk.
    apply list_elem_of_fmap in Hk as (k' & -> & Hk). apply Hall, existsb_exists. exists k'. split; [|apply String.eqb_refl].
    apply list_elem_of_In in Hk. cbn [lit map fst] in Hk. clear -Hk. cbn [In] in *. tauto.
  - each_field; rewrite !assoc_spread_js; cbn [foldl fst snd String.eqb Ascii.eqb Bool.eqb]; rewrite ?map_rows_lookup; cbn [String.eqb Ascii.eqb Bool.eqb].
    + rewrite E1. by apply R1.
    + rewrite E2. rewrite map_rows_lookup in U2. cbn [String.eqb Ascii.eqb Bool.eqb] in U2. rewrite U2. by apply R2.
    + rewrite E3. rewrite map_rows_lookup in U3. cbn [String.eqb Ascii.eqb Bool.eqb] in U3. rewrite U3. by apply R3.
    + rewrite E4. by apply R4.
    + by rewrite E5.
    + rewrite E6. by apply R6.
    + by rewrite E7.
    + rewrite E8. by apply R8.
Qed.

(** C17: A cluster that was read from a document is written to a text that is read back as the very same
    cluster, under two conditions.  The cluster must hold nothing that the writer drops or the reader
    reads otherwise ([kept]): every input has a name, the names are distinct, none is [__proto__], and
    those that are array indices come first and in order, as the keys of an object do; no input has the
    retired session flag; a connection without a transport has no socket path and no vault slice;
    every skill has a name; the modes of the file system rows are empty or [rw]; the gateway's
    fingerprint is one the reader takes; and [requireInterlock] is not set in a policy that sets neither
    of its other two fields.  And the TOML library must read what it
    printed, the keys of every table in any order it likes, but the inputs in the order they were
    written. *)
Theorem cluster_roundtrips parseToml stringifyToml doc c :
  parseTomlToCluster parseToml doc = Ok c -> kept c = true ->
  (forall t, canonicalizeCluster c = Ok t -> exists t', parseToml (stringifyToml t) = Some t' /\ rereads t t') ->
  exists text, clusterToToml stringifyToml c = Ok text /\ parseTomlToCluster parseToml text = Ok c.
Proof.
  unfold parseTomlToCluster, clusterToToml. intros Hdoc Hk Hlib. destruct (parseToml doc) as [raw|]; [|done].
  unfold build in Hdoc. destruct (unflattenForSchema raw) as [u|]; [|done]. cbn [rbind] in Hdoc.
  destruct (parse ClusterSchema (Some (JObj u))) as [c0|] eqn:Ep; [|done].
  destruct (semantic_checks c0) as [[]|] eqn:Es; [|done]. cbn [rbind] in Hdoc. injection Hdoc as ->.
  destruct (cluster_back c) as (t & Et & Hback); [by apply (parse_conforms ClusterSchema eq_refl _ _ Ep)|done|].
  destruct (Hlib t Et) as (t' & Er & Hr). rewrite Et. eexists. split; [reflexivity|]. rewrite Er.
  destruct (Hback t' Hr) as (u' & Eu & Epu). unfold build. rewrite Eu. cbn [rbind]. rewrite Epu, Es. done.
Qed.

Section demo.
Let obj (l : list (string * Json)) : Json := JObj (map (fun kv => (js kv.1, kv.2)) l).
Let text (s : string) : Json := JStr (js s).

Let gateway (policy : Json) : Json := obj
  [("metadata", obj [("name", text "gw")]); ("actor", obj [("algorithm", text "ed25519")]); ("policy", policy);
   ("vaultProxyServices", JArr [obj [("name", text "api"); ("upstreamBaseUrl", text "https://api.test"); ("injection", text "headerNamed");
                                     ("headerNamed", obj [("name", text "x-key")])]]);
   ("harnessTargets", JArr [obj [("name", text "tool"); ("service", text "api"); ("stripEnv", JArr [text "KEY"]); ("authModes", JArr []);
                                 ("provenance", text "https://doc.test")]]);
   ("skills", JArr [obj [("name", text "skill")]])]%string.

Let document (gateway : Json) : list (jsstr * Json) := fields_of (obj
  [("metadata", obj [("name", text "demo"); ("version", text "1")]); ("storage", obj []);
   ("bundles", JArr
      [obj [("name", text "front"); ("kind", text "workerd"); ("workerd", obj [("entryPoint", text "a.js")])];
       obj [("name", text "tool"); ("tier", text "cluster"); ("kind", text "external"); ("external", obj [("image", text "i"); ("httpPort", JNum 80)]);
            ("confinement", obj [("fs", obj [("allow", JArr [text "/data"; obj [("path", text "/tmp"); ("mode", text "rw")]])]);
                                 ("port", obj [("bind", JNum 90)])])]]);
   ("wires", JArr [obj [("from", text "front"); ("to", text "tool"); ("binding", text "TOOL"); ("transport", text "uds")]]);
   ("inputs", obj [("second", obj [("ref", text "b"); ("connection", obj [("transport", text "uds"); ("socketPath", text "/s")])]);
                   ("first", obj [("ref", text "a"); ("tenancy", obj [("trustedTier", JBool true)])])]);
   ("routes", JArr [obj [("path", text "/health"); ("kind", text "health")];
                    obj [("path", text "/mcp"); ("kind", text "mcp");
                         ("mcp", obj [("backends", JArr [obj [("name", text "b"); ("handlesPrefix", text "b_"); ("kind", text "durableObject");
                                                              ("durableObject", obj [("binding", text "DO")])]])])]]);
   ("gateway", gateway); ("edges", JArr [obj [("from", text "front"); ("to", text "tool")]])]%string).

Let policy : Json := obj [("minAlgorithm", text "ed25519"); ("requireInterlock", JBool true)]%string.
Let raw : list (jsstr * Json) := Eval vm_compute in document (gateway policy).
Let cluster : Json := Eval vm_compute in match build raw with Ok c => c | Throw _ => JNull end.
Let written_doc : list (jsstr * Json) := Eval vm_compute in match canonicalizeCluster cluster with Ok t => t | Throw _ => [] end.
(** The empty text is the first document; the reader lists the tables in another order. *)
Let reader (t : jsstr) : option (list (jsstr * Json)) := match t with [] => Some raw | _ => Some (reverse written_doc) end.
Let printer (t : list (jsstr * Json)) : jsstr := [0].

Lemma cluster_roundtrips_witness :
  parseTomlToCluster reader [] = Ok cluster /\ exists text, clusterToToml printer cluster = Ok text /\ parseTomlToCluster reader text = Ok cluster.
Proof.
  assert (E : parseTomlToCluster reader [] = Ok cluster) by (vm_compute; reflexivity). split; [exact E|].
  apply (cluster_roundtrips reader printer [] cluster E); [vm_compute; reflexivity|]. intros t Et.
  assert (t = written_doc) as -> by (assert (E' : canonicalizeCluster cluster = Ok written_doc) by (vm_compute; reflexivity); congruence).
  exists (reverse written_doc). split; [reflexivity|]. split; vm_compute; reflexivity.
Defined.

Definition gateway_policy (c : Json) (k : string) : option Json := prop (object_or (prop (object_or (prop c "gateway")) "policy")) k.

(** A gateway that requires the interlock and says no more about its policy loses that in the round trip. *)
Example lone_interlock_is_lost :
  match build (document (gateway (obj [("requireInterlock", JBool true)]%string))) with
  | Ok c => gateway_policy c "requireInterlock" = Some (JBool true) /\
      match canonicalizeCluster c with
      | Ok t => match build t with Ok c' => gateway_policy c' "requireInterlock" = Some (JBool false) | _ => False end
      | _ => False
      end
  | _ => False
  end.
Proof. vm_compute. by split. Qed.

(** Two inputs of a document that names one of them [__proto__], or, were the reader to list them as they are
    written, one of them [7] behind another name, come back fewer, or in another order. *)
Example input_names_are_keys :
  let input n := obj [("name", text n)]%string in
  let names ns := map fst (canonicalizeInputs (map input ns)) in
  names ["b"; "a"]%string = map js ["b"; "a"]%string /\ names ["b"; "__proto__"]%string = [js "b"] /\
  names ["b"; "7"; "3"]%string = map js ["3"; "7"; "b"]%string /\
  listed_in_order [] (map js ["3"; "7"; "b"; "a"]%string) = true.
Proof. vm_compute. by repeat split. Qed.

(** Rows without a name are not told apart, and hide the duplicates after them. *)
Example blank_duplicates_pass :
  let bundle n := obj ([("name", text n); ("kind", text "workerd"); ("workerd", obj [])]%string) in
  let doc ns := fields_of (obj [("metadata", obj [("name", text "demo"); ("version", text "1")]); ("storage", obj []);
                                ("bundles", JArr (map bundle ns)); ("wires", JArr [])]%string) in
  match build (doc [""; ""; "a"; "a"]%string), build (doc ["a"; "a"]%string) with
  | Ok c, Throw (DuplicateBundle _) => validateCluster c = Throw NoBundleName
  | _, _ => False
  end.
Proof. vm_compute. reflexivity. Qed.

(** A harness target that leaves a list out is refused: the list is read as a text. *)
Example absent_list_is_refused :
  let target l := obj ([("name", text "tool"); ("service", text "api"); ("provenance", text "https://doc.test")]%string ++ l) in
  let gw l := obj [("vaultProxyServices", JArr [obj [("name", text "api"); ("injection", text "authorizationBearer")]]); ("harnessTargets", JArr [target l])]%string in
  build (document (gw [])) = Throw SchemaError /\
  match build (document (gw [("stripEnv", JArr []); ("authModes", JArr [])]%string)) with Ok _ => True | _ => False end.
Proof. split; vm_compute; [reflexivity|exact I]. Qed.

(** What the emitters refuse is built: a bundle in the hypervisor without a reason. *)
Example build_skips_validation :
  match build raw with Ok c => validateCluster c = Throw (NoRationale (js "front")) | _ => False end.
Proof. vm_compute. reflexivity. Qed.
End demo.

End ClusterRoundtrip.
