(* ===== verification/VaultKey.v ===== *)
(** The vault's keys: where the key-encryption secret comes from (vault/src/kek-source.ts), its scope
    (vault/src/kek-scope.ts), and the envelope a credential is sealed in (vault/src/crypto.ts), which
    implements the interface VaultStore.v is written against.

    Web Crypto is a parameter, with the laws of AES-GCM that the envelope relies on; so are the URL
    parser's reading of a file URL, the services of the environment, and the jitter of a pause.  The
    bytes of an answer arrive whole. *)
From S2P Require Import Prelude JsString Sql Platform Base64 Json JsonText RateBucket Vault VaultStore VaultProxy.

Module VaultKey.
Import JsonText Base64.

(** ** Key sources *)

(** What a service answers to its [n]-th request: a rejected [fetch], with its message, or a response. *)
Inductive outcome := NetworkError (message : jsstr) | Response (status : Z) (body : bytes).
Definition Fetcher : Type := jsstr -> nat -> outcome.

(** A binding of the environment: a text, a service, or anything else that is truthy and neither. *)
Inductive binding := TextBinding (t : jsstr) | ServiceBinding (f : Fetcher) | OtherBinding.
Definition KekSourceEnv : Type := jsstr -> option binding.

(** What is thrown: the module's own error with its message, or a [TypeError] or [URIError] of the
    platform. *)
Inductive kek_error := KekError (message : jsstr) | PlatformError.

(** [resolve()]: the requests that are sent, the pauses between them in milliseconds, and the secret. *)
Record run := mkRun { requests : list jsstr; pauses : list Z; outcome_of : result kek_error jsstr }.
Definition silent (r : result kek_error jsstr) : run := mkRun [] [] r.

Definition HELPER_SCHEMES : list jsstr :=
  map js ["keychain://"; "secret-tool://"; "op://"; "apple-password://"; "keyring://"; "http://"; "https://"]%string.

Fixpoint strip_newlines (reversed : jsstr) : jsstr :=
  match reversed with
  | c :: r => if (c =? 10) || (c =? 13) then strip_newlines r else reversed
  | [] => []
  end.
Definition stripTrailingNewlines (s : jsstr) : jsstr := reverse (strip_newlines (reverse s)).

Definition schemeOf (spec : jsstr) : jsstr :=
  match index_of (js "://") spec with
  | Some ((S _) as idx) => take idx spec ++ js "://"
  | _ => spec
  end.

Definition is_ok (status : Z) : bool := (200 <=? status) && (status <=? 299).

(** [EnvKekSource]: its constructor, and [resolve]. *)
Definition env_name_ok (name : jsstr) : bool :=
  negb (bool_decide (name = [])) && forallb (fun c => Vault.is_alnum c || (c =? 95)) name.

Definition EnvKekSource (env : KekSourceEnv) (varName : jsstr) : result kek_error run :=
  if env_name_ok varName then
    Ok (silent (match env varName with
                | Some (TextBinding ((_ :: _) as raw)) => Ok raw
                | _ => Throw (KekError (js "kek-source: env://" ++ varName ++ js " is unset or empty " ++ [8212] ++ js " vault cannot derive its key"))
                end))
  else Throw (KekError (js "kek-source: env:// var name " ++ quote varName ++ js " must be alphanumeric + underscore only")).

(** What a truthy binding is, where a service is meant. *)
Definition service_of (o : option binding) : option (result kek_error Fetcher) :=
  match o with
  | None | Some (TextBinding []) => None
  | Some (ServiceBinding f) => Some (Ok f)
  | Some _ => Some (Throw PlatformError)
  end.

Definition KEK_DISK : jsstr := js "KEK_DISK".
Definition KEK_HELPER : jsstr := js "KEK_HELPER".

Section source.
(** [new URL(spec)] of a [file:] URL: its host and its path. *)
Context (parse_file_url : jsstr -> option (jsstr * jsstr)).
(** [Math.floor(Math.random() * 50)], by the pause. *)
Context (jitter : nat -> Z).

Definition disk_resolve (disk : Fetcher) (path : jsstr) : run :=
  let url := js "http://kek-disk" ++ path in
  mkRun [url] []
    (match disk url 0%nat with
     | NetworkError _ => Throw PlatformError
     | Response status body =>
         if negb (is_ok status) then
           Throw (KekError (js "kek-source: KEK_DISK GET " ++ path ++ js " failed (status " ++ js_dec status ++ js ")"))
         else match stripTrailingNewlines (utf8_decode_lossy body) with
              | [] => Throw (KekError (js "kek-source: file://" ++ path ++ js " resolved to empty bytes " ++ [8212] ++ js " vault cannot derive its key"))
              | secret => Ok secret
              end
     end).

Definition FileKekSource (env : KekSourceEnv) (spec : jsstr) : result kek_error run :=
  match parse_file_url spec with
  | None => Throw (KekError (js "kek-source: file:// URL is malformed: " ++ quote spec))
  | Some (hostname, pathname) =>
      if negb (bool_decide (hostname = [])) then
        Throw (KekError (js "kek-source: file:// host must be empty (use file:///path, not file://host/path)"))
      else if bool_decide (pathname = []) || bool_decide (pathname = js "/") then
        Throw (KekError (js "kek-source: file:// path must be non-empty (use file:///kek.bin)"))
      else Ok (match service_of (env KEK_DISK) with
               | None => silent (Throw (KekError (js "kek-source: file:// requires the KEK_DISK service binding (a workerd disk service)")))
               | Some (Throw e) => silent (Throw e)
               | Some (Ok disk) => disk_resolve disk pathname
               end)
  end.

Definition ATTEMPTS : nat := 3.
Definition BACKOFF_MS : list Z := [100; 250].

Definition gave_up (scheme : jsstr) (lastErr : option jsstr) : kek_error :=
  KekError (js "kek-source: KEK_HELPER " ++ scheme ++ js " failed after " ++ js_dec (Z.of_nat ATTEMPTS) ++ js " attempts (last: " ++
            default (js "unknown") lastErr ++ js ")").

(** The pause after an attempt that is not the last. *)
Definition pause_after (attempt : nat) : list Z :=
  if (attempt <? ATTEMPTS - 1)%nat then [default 0 (BACKOFF_MS !! attempt) + jitter attempt] else [].

(** The loop from [attempt], with [left] attempts left. *)
Fixpoint helper_loop (helper : Fetcher) (url scheme : jsstr) (left attempt : nat) (lastErr : option jsstr) : run :=
  match left with
  | O => silent (Throw (gave_up scheme lastErr))
  | S left' =>
      let again lastErr :=
        let rest := helper_loop helper url scheme left' (S attempt) (Some lastErr) in
        mkRun (url :: requests rest) (pause_after attempt ++ pauses rest) (outcome_of rest) in
      match helper url attempt with
      | NetworkError message => again (js "fetch: " ++ message)
      | Response status body =>
          if is_ok status then
            mkRun [url] [] (match stripTrailingNewlines (utf8_decode_lossy body) with
                            | [] => Throw (KekError (js "kek-source: KEK_HELPER " ++ scheme ++ js " returned empty body"))
                            | secret => Ok secret
                            end)
          else if (400 <=? status) && (status <? 500) then
            mkRun [url] [] (Throw (KekError (js "kek-source: KEK_HELPER " ++ scheme ++ js " lookup returned " ++ js_dec status)))
          else again (js "status " ++ js_dec status)
      end
  end.

Definition HelperKekSource (env : KekSourceEnv) (spec : jsstr) : run :=
  match service_of (env KEK_HELPER) with
  | None => silent (Throw (KekError (js "kek-source: " ++ schemeOf spec ++ js " requires the KEK_HELPER service binding " ++
                                     js "(start leyline-sign-helper and bind it as KEK_HELPER " ++ [8212] ++ js " see ADR-0019)")))
  | Some helper =>
      match VaultProxy.encodeURIComponent spec with
      | None => silent (Throw PlatformError)
      | Some encoded =>
          let call := match helper with Ok f => f | Throw _ => fun _ _ => NetworkError (js "helper.fetch is not a function") end in
          helper_loop call (js "http://kek-helper/resolve?url=" ++ encoded) (schemeOf spec) ATTEMPTS 0 None
      end
  end.

(** A source, or what its construction throws. *)
Definition buildKekSource (spec : jsstr) (env : KekSourceEnv) : result kek_error run :=
  if bool_decide (spec = []) then Throw (KekError (js "kek-source: spec must be a non-empty URL string"))
  else if starts_with (js "env://") spec then EnvKekSource env (drop (length (js "env://")) spec)
  else if starts_with (js "file://") spec then FileKekSource env spec
  else if existsb (fun prefix => starts_with prefix spec) HELPER_SCHEMES then Ok (HelperKekSource env spec)
  else Throw (KekError (js "kek-source: unsupported URL scheme in spec " ++ quote spec ++ js " (supported: env://, file://, " ++
                        join (js ", ") HELPER_SCHEMES ++ js ")")).

(** ** Scopes *)

Inductive KekScope := ClusterScope (tenantName : jsstr) | ServiceScope (name : jsstr).

Definition HKDF_INFO_PREFIX : jsstr := js "cloister/cred-iso/v1/tenant/".

Definition isValidTenantName (name : jsstr) : bool :=
  negb (bool_decide (name = [])) && (length name <=? 253)%nat &&
  forallb (fun c => ((97 <=? c) && (c <=? 122)) || ((48 <=? c) && (c <=? 57)) || (c =? 45) || (c =? 46)) name &&
  negb (starts_with (js ".") name || ends_with (js ".") name) && negb (starts_with (js "-") name || ends_with (js "-") name) &&
  negb (includes_str (js "..") name).

(** [crypto.subtle.deriveBits] of HKDF-SHA-256: the key material, the salt, the information, the bytes. *)
Context (hkdf_bits : bytes -> bytes -> bytes -> nat -> bytes).

Definition deriveClusterTenantKek (rootKek tenantName : jsstr) : result kek_error jsstr :=
  if negb (isValidTenantName tenantName) then Throw (KekError (js "kek-scope: tenantName failed validation"))
  else if bool_decide (rootKek = []) then Throw (KekError (js "kek-scope: rootKek must be a non-empty string"))
  else Ok (toHex (hkdf_bits (utf8_encode rootKek) [] (utf8_encode (HKDF_INFO_PREFIX ++ tenantName)) 32)).

Definition buildKekScopeSource (scope : KekScope) (clusterRootSpec : jsstr) (serviceSpecs : list (jsstr * jsstr)) (env : KekSourceEnv)
    : result kek_error run :=
  match scope with
  | ClusterScope tenantName =>
      Ok (match buildKekSource clusterRootSpec env with
          | Throw e => silent (Throw e)
          | Ok r => mkRun (requests r) (pauses r) (let? root := outcome_of r in deriveClusterTenantKek root tenantName)
          end)
  | ServiceScope name =>
      match assoc name serviceSpecs with
      | None => Throw (KekError (js "kek-scope: no URL spec declared for service " ++ quote name ++ js " (operator must add it to the [[services]] table)"))
      | Some spec => buildKekSource spec env
      end
  end.

(** [this.#resolveKekSource().resolve()] of the vault object, under the specification it has pinned. *)
Definition resolve_source (env : KekSourceEnv) (explicit : jsstr) (scope : option jsstr) : result kek_error jsstr :=
  let? r := match scope with
            | Some tenantName => buildKekScopeSource (ClusterScope tenantName) explicit [] env
            | None => buildKekSource explicit env
            end in
  outcome_of r.
End source.

(** ** The envelope *)

(** What the envelope takes from Web Crypto. [None] is a rejected promise. *)
Class WebCrypto := {
  CryptoKey : Type;
  hkdf_aes_key : bytes -> bytes -> bytes -> CryptoKey;   (** HKDF-SHA-256 to an AES-256-GCM key: material, salt, information *)
  raw_aes_key : bytes -> option CryptoKey;                (** a raw AES key *)
  gcm_seal : CryptoKey -> bytes -> bytes -> bytes;        (** key, iv, plaintext *)
  gcm_open : CryptoKey -> bytes -> bytes -> option bytes;
}.
(** AES-GCM opens what it has sealed under the same key and iv, and 256 bits are a key. *)
Class WebCryptoLaws `{WebCrypto} : Prop := {
  gcm_open_seal k iv p : gcm_open k iv (gcm_seal k iv p) = Some p;
  raw_aes_256 raw : length raw = 32%nat -> is_Some (raw_aes_key raw);
}.

Record SealedCredential := mkSealed { wrappedDek : jsstr; iv : jsstr; ciphertext : jsstr }.

(** The key and the two ivs that are drawn for one envelope. *)
Record Drawn := mkDrawn { dek : bytes; iv_bytes : bytes; wrapIv : bytes; dek_size : length dek = 32%nat; wrap_size : length wrapIv = 12%nat }.

Section envelope.
Context `{WebCrypto}.

Definition HKDF_SALT : bytes := utf8_encode (js "notme-vault-kek-v1").
Definition HKDF_INFO : bytes := utf8_encode (js "credential-encryption").
Definition deriveKEK (secret : jsstr) : CryptoKey := hkdf_aes_key (utf8_encode secret) HKDF_SALT HKDF_INFO.

(** Encryption under a key of 256 bits does not fail. *)
Definition encrypt (d : Drawn) (headers : list (jsstr * jsstr)) (kek : CryptoKey) : SealedCredential :=
  let plaintext := utf8_encode (json_stringify (VaultStore.header_object headers)) in
  let ciphertextBuf := match raw_aes_key (dek d) with Some key => gcm_seal key (iv_bytes d) plaintext | None => [] end in
  let wrappedDekBuf := gcm_seal kek (wrapIv d) (dek d) in
  mkSealed (b64encode (wrapIv d ++ wrappedDekBuf)) (b64encode (iv_bytes d)) (b64encode ciphertextBuf).

(** The headers of a value that was parsed; what is no object of texts is none of this program's. *)
Definition headers_of (v : Json) : option (list (jsstr * jsstr)) :=
  match v with
  | JObj m => mapM (fun kv => match kv.2 with JStr t => Some (kv.1, t) | _ => None end) m
  | _ => None
  end.

Definition decrypt (sealed : SealedCredential) (kek : CryptoKey) : option (list (jsstr * jsstr)) :=
  wrappedWithIv ← b64decode (wrappedDek sealed);
  iv ← b64decode (iv sealed);
  ciphertext ← b64decode (ciphertext sealed);
  raw ← gcm_open kek (take 12 wrappedWithIv) (drop 12 wrappedWithIv);
  dek ← raw_aes_key raw;
  plainBuf ← gcm_open dek iv ciphertext;
  match json_parse (utf8_decode_lossy plainBuf) with Ok v => headers_of v | Throw _ => None end.
End envelope.

(** ** The envelope opens what it sealed *)

Lemma obj_set_map {A B} (f : A -> B) k v m :
  obj_set k (f v) (map (fun kv => (kv.1, f kv.2)) m) = map (fun kv => (kv.1, f kv.2)) (obj_set k v m).
Proof.
  induction m as [|[k' v'] m IH]; [done|]. cbn [map obj_set fst snd]. case_decide; [done|]. destruct (own_before k k'); [done|].
  cbn [map fst snd]. by rewrite IH.
Qed.

Lemma obj_build_map {A B} (f : A -> B) m : forall acc,
  obj_build (map (fun kv => (kv.1, f kv.2)) acc) (map (fun kv => (kv.1, f kv.2)) m) = map (fun kv => (kv.1, f kv.2)) (obj_build acc m).
Proof.
  unfold obj_build. induction m as [|[k v] m IH]; intros acc; [done|]. cbn [map foldl fst snd]. by rewrite obj_set_map, IH.
Qed.

Lemma record_parsed hs : VaultStore.header_record hs = true ->
  json_parse (json_stringify (VaultStore.header_object hs)) = Ok (VaultStore.header_object hs).
Proof.
  intros [Hr Ho]%andb_prop. apply bool_decide_eq_true in Ho. rewrite json_roundtrip by done. unfold VaultStore.header_object. cbn [as_parsed].
  rewrite map_map. cbn [fst snd as_parsed]. do 2 f_equal. pose proof (obj_build_map JStr hs []) as E. cbn [map] in E.
  etransitivity; [exact E|]. by rewrite Ho.
Qed.

Lemma headers_of_object hs : headers_of (VaultStore.header_object hs) = Some hs.
Proof. unfold VaultStore.header_object, headers_of. induction hs as [|[k v] hs IH]; [done|]. cbn [map mapM fst snd mbind option_bind]. by rewrite IH. Qed.

#[global] Instance envelope `{WebCrypto} : VaultStore.Envelope :=
  {| VaultStore.Kek := CryptoKey; VaultStore.Sealed := SealedCredential; VaultStore.Entropy := Drawn;
     VaultStore.encrypt := encrypt; VaultStore.decrypt := decrypt |}.

#[global] Instance envelope_laws `{WebCryptoLaws} : VaultStore.EnvelopeLaws.
Proof.
  intros d hs k Hr. cbn [VaultStore.decrypt VaultStore.encrypt envelope]. unfold decrypt, encrypt. cbn [wrappedDek iv ciphertext].
  rewrite !b64decode_encode. cbn [mbind option_bind]. rewrite <- (wrap_size d), take_app_length, drop_app_length, gcm_open_seal.
  cbn [mbind option_bind]. destruct (raw_aes_256 (dek d) (dek_size d)) as [key ->]. cbn [mbind option_bind]. rewrite gcm_open_seal. cbn [mbind option_bind].
  rewrite utf8_lossy_encode; [by rewrite record_parsed, headers_of_object| |].
  - apply stringify_well_formed. by apply andb_prop in Hr as [Hr _].
  - unfold VaultStore.header_object. reflexivity.
Qed.

(** ** The helper *)

(** An answer after which the request is repeated. *)
Definition transient (o : outcome) : bool :=
  match o with NetworkError _ => true | Response status _ => negb (is_ok status) && negb ((400 <=? status) && (status <? 500)) end.

Lemma helper_loop_bounds jitter helper url scheme left : forall attempt lastErr,
  (forall n, 0 <= jitter n < 50) ->
  let r := helper_loop jitter helper url scheme left attempt lastErr in
  (length (requests r) <= left)%nat /\ Forall (eq url) (requests r) /\ (length (pauses r) <= ATTEMPTS - 1 - attempt)%nat /\ Forall (fun p => p < 300) (pauses r).
Proof.
  induction left as [|left IH]; intros attempt lastErr Hj; cbv zeta; [cbn; repeat split; try constructor; lia|]. cbn [helper_loop].
  assert (Hagain : forall e, let rest := helper_loop jitter helper url scheme left (S attempt) (Some e) in
    (length (url :: requests rest) <= S left)%nat /\ Forall (eq url) (url :: requests rest) /\
    (length (pause_after jitter attempt ++ pauses rest) <= ATTEMPTS - 1 - attempt)%nat /\
    Forall (fun p => p < 300) (pause_after jitter attempt ++ pauses rest)).
  { intros e. cbv zeta. destruct (IH (S attempt) (Some e) Hj) as (H1 & H2 & H3 & H4). cbv zeta in *. specialize (Hj attempt).
    split; [cbn [length]; lia|]. split; [by constructor|]. unfold pause_after. destruct (Nat.ltb_spec attempt (ATTEMPTS - 1)) as [Hlt|Hge]; cbn [app length].
    - split; [lia|]. constructor; [|done]. unfold ATTEMPTS in Hlt. destruct attempt as [|[|]]; cbn; lia.
    - split; [lia|done]. }
  destruct (helper url attempt) as [message|status body]; [apply Hagain|].
  destruct (is_ok status); [cbn; repeat split; try lia; repeat constructor|]. destruct (_ && _); [cbn; repeat split; try lia; repeat constructor|apply Hagain].
Qed.

Lemma helper_loop_ok jitter helper url scheme secret left : forall attempt lastErr,
  outcome_of (helper_loop jitter helper url scheme left attempt lastErr) = Ok secret <->
  exists n, (attempt <= n < attempt + left)%nat /\ (forall i, (attempt <= i < n)%nat -> transient (helper url i) = true) /\
    exists status body, helper url n = Response status body /\ is_ok status = true /\
      stripTrailingNewlines (utf8_decode_lossy body) = secret /\ secret <> [].
Proof.
  induction left as [|left IH]; intros attempt lastErr; [split; [done|intros (n & ? & _); lia]|]. cbn [helper_loop].
  assert (Hfirst : forall P, transient (helper url attempt) = true -> P <-> (exists n, (S attempt <= n < S attempt + left)%nat /\
      (forall i, (S attempt <= i < n)%nat -> transient (helper url i) = true) /\ exists status body, helper url n = Response status body /\ is_ok status = true /\
      stripTrailingNewlines (utf8_decode_lossy body) = secret /\ secret <> []) ->
    P <-> (exists n, (attempt <= n < attempt + S left)%nat /\ (forall i, (attempt <= i < n)%nat -> transient (helper url i) = true) /\
      exists status body, helper url n = Response status body /\ is_ok status = true /\ stripTrailingNewlines (utf8_decode_lossy body) = secret /\ secret <> [])).
  { intros P Ht ->. split; intros (n & Hn & Hi & status & body & Hr).
    - exists n. split; [lia|]. split; [|by exists status, body]. intros i Hin. destruct (decide (i = attempt)) as [->|]; [done|]. apply Hi. lia.
    - assert (n <> attempt) by (intros ->; destruct Hr as (E & Ho & _); rewrite E in Ht; cbn [transient] in Ht; by rewrite Ho in Ht).
      exists n. split; [lia|]. split; [intros i Hin; apply Hi; lia|by exists status, body]. }
  assert (Hlast : transient (helper url attempt) = false ->
    (exists n, (attempt <= n < attempt + S left)%nat /\ (forall i, (attempt <= i < n)%nat -> transient (helper url i) = true) /\
      exists status body, helper url n = Response status body /\ is_ok status = true /\ stripTrailingNewlines (utf8_decode_lossy body) = secret /\ secret <> []) ->
    exists status body, helper url attempt = Response status body /\ is_ok status = true /\ stripTrailingNewlines (utf8_decode_lossy body) = secret /\ secret <> []).
  { intros Ht (n & Hn & Hi & Hr). destruct (decide (n = attempt)) as [->|]; [done|]. rewrite Hi in Ht by lia. done. }
  destruct (helper url attempt) as [message|status body] eqn:E; [by apply Hfirst; [|apply IH]|].
  destruct (is_ok status) eqn:Eo.
  - cbn [outcome_of]. destruct (stripTrailingNewlines (utf8_decode_lossy body)) as [|c t] eqn:Es.
    + split; [done|]. intros (st & b & [= <- <-] & _ & Eq & Hne)%Hlast; [congruence|]. cbn [transient]. by rewrite Eo.
    + split; [intros [= <-]|].
      * exists attempt. split; [lia|]. split; [intros i ?; lia|]. by exists status, body.
      * intros (st & b & [= <- <-] & _ & Eq & Hne)%Hlast; [congruence|]. cbn [transient]. by rewrite Eo.
  - destruct ((400 <=? status) && (status <? 500)) eqn:E4.
    + split; [done|]. intros (st & b & [= <- <-] & Hok & _)%Hlast; [congruence|]. cbn [transient]. by rewrite Eo, E4.
    + cbn [outcome_of]. apply Hfirst; [cbn [transient]; by rewrite Eo, E4|apply IH].
Qed.

(** ** What is shown of the sources *)

(** The helper is asked at most three times, with pauses under 300 milliseconds, and the secret is the
    answer to the first request that does not fail in passing. *)
Theorem helper_answers jitter env spec helper encoded secret :
  env KEK_HELPER = Some (ServiceBinding helper) -> VaultProxy.encodeURIComponent spec = Some encoded -> (forall n, 0 <= jitter n < 50) ->
  let url := js "http://kek-helper/resolve?url=" ++ encoded in
  let r := HelperKekSource jitter env spec in
  (length (requests r) <= 3)%nat /\ Forall (eq url) (requests r) /\ (length (pauses r) <= 2)%nat /\ Forall (fun p => p < 300) (pauses r) /\
  (outcome_of r = Ok secret <->
   exists n, (n < 3)%nat /\ (forall i, (i < n)%nat -> transient (helper url i) = true) /\
     exists status body, helper url n = Response status body /\ is_ok status = true /\
       stripTrailingNewlines (utf8_decode_lossy body) = secret /\ secret <> []).
Proof.
  intros Henv Henc Hj. cbv zeta. unfold HelperKekSource. rewrite Henv. cbn [service_of]. rewrite Henc.
  destruct (helper_loop_bounds jitter helper (js "http://kek-helper/resolve?url=" ++ encoded) (schemeOf spec) ATTEMPTS 0 None Hj) as (H1 & H2 & H3 & H4).
  repeat split; try done; rewrite helper_loop_ok.
  - intros (n & Hn & Hi & Hr). exists n. split; [unfold ATTEMPTS in Hn; lia|]. split; [intros i ?; apply Hi; lia|done].
  - intros (n & Hn & Hi & Hr). exists n. split; [unfold ATTEMPTS; lia|]. split; [intros i ?; apply Hi; lia|done].
Qed.

Lemma helper_loop_same jitter helper helper' url url' scheme left : forall attempt lastErr,
  (forall n, helper url n = helper' url' n) ->
  outcome_of (helper_loop jitter helper url scheme left attempt lastErr) = outcome_of (helper_loop jitter helper' url' scheme left attempt lastErr).
Proof.
  induction left as [|left IH]; intros attempt lastErr Hf; [done|]. cbn [helper_loop]. rewrite Hf.
  destruct (helper' url' attempt) as [message|status body]; [by apply IH|].
  destruct (is_ok status); [done|]. destruct (_ && _); [done|by apply IH].
Qed.

(** What the helper's source answers or throws tells no more of a specification than its scheme and
    what the helper says. *)
Theorem helper_hides_the_spec jitter env env' spec spec' helper helper' encoded encoded' :
  env KEK_HELPER = Some (ServiceBinding helper) -> env' KEK_HELPER = Some (ServiceBinding helper') ->
  VaultProxy.encodeURIComponent spec = Some encoded -> VaultProxy.encodeURIComponent spec' = Some encoded' -> schemeOf spec = schemeOf spec' ->
  (forall n, helper (js "http://kek-helper/resolve?url=" ++ encoded) n = helper' (js "http://kek-helper/resolve?url=" ++ encoded') n) ->
  outcome_of (HelperKekSource jitter env spec) = outcome_of (HelperKekSource jitter env' spec').
Proof.
  intros He He' Hs Hs' Hsch Hf. unfold HelperKekSource. rewrite He, He'. cbn [service_of]. rewrite Hs, Hs', Hsch. by apply helper_loop_same.
Qed.

Lemma strip_newlines_suffix r : exists nl, r = nl ++ strip_newlines r /\ Forall (fun c => c = 10 \/ c = 13) nl.
Proof.
  induction r as [|c r (nl & E & Hnl)]; [by exists []|]. cbn [strip_newlines]. destruct ((c =? 10) || (c =? 13)) eqn:Ec; [|by exists []].
  exists (c :: nl). split; [by rewrite E at 1|]. constructor; [|done]. apply orb_true_iff in Ec as [?%Z.eqb_eq|?%Z.eqb_eq]; auto.
Qed.

(** Nothing but the newlines at the end is dropped. *)
Lemma strip_trailing_spec s : exists nl, s = stripTrailingNewlines s ++ nl /\ Forall (fun c => c = 10 \/ c = 13) nl /\
  forall c, last (stripTrailingNewlines s) = Some c -> c <> 10 /\ c <> 13.
Proof.
  destruct (strip_newlines_suffix (reverse s)) as (nl & E & Hnl). exists (reverse nl). unfold stripTrailingNewlines. split; [|split].
  - rewrite <- reverse_app, <- E. by rewrite reverse_involutive.
  - by apply Forall_reverse.
  - intros c. rewrite last_reverse. clear. induction (reverse s) as [|d r IH]; [done|]. cbn [strip_newlines].
    destruct ((d =? 10) || (d =? 13)) eqn:Ed; [done|]. intros [= <-]. apply orb_false_iff in Ed as [?%Z.eqb_neq ?%Z.eqb_neq]. done.
Qed.

(** ** Tenants *)

Lemma toHex_inj bs bs' : toHex bs = toHex bs' -> bs = bs'.
Proof.
  revert bs'. induction bs as [|b bs IH]; intros [|b' bs']; try done. rewrite !toHex_cons. intros [= E1 E2 E].
  destruct (hex_nibbles b) as [H1 H2], (hex_nibbles b') as [H3 H4]. apply hex_digit_inj in E1, E2; try done. f_equal; [|by apply IH].
  apply b2z_inj. rewrite (Z.div_mod (b2z b) 16), (Z.div_mod (b2z b') 16) by done. by rewrite E1, E2.
Qed.

Lemma valid_tenant_ascii name : isValidTenantName name = true -> is_ascii name.
Proof.
  unfold isValidTenantName. rewrite !andb_true_iff. intros ((((_ & Hf) & _) & _) & _). apply Forall_forall. intros c Hc.
  rewrite forallb_forall in Hf. apply list_elem_of_In, Hf in Hc. lia.
Qed.

Lemma info_inj a b : isValidTenantName a = true -> isValidTenantName b = true ->
  utf8_encode (HKDF_INFO_PREFIX ++ a) = utf8_encode (HKDF_INFO_PREFIX ++ b) -> a = b.
Proof.
  intros Ha Hb E. apply utf8_encode_inj in E; [by apply app_inv_head in E|..];
    (apply well_formed_app; [reflexivity|by apply ascii_well_formed, valid_tenant_ascii]).
Qed.

(** Tenants of one root have keys of their own, as far as HKDF tells their information apart, and a name
    that is not valid has none. *)
Theorem tenants_have_own_keys (hkdf : bytes -> bytes -> bytes -> nat -> bytes) root a b k :
  (forall i i', hkdf (utf8_encode root) [] i 32%nat = hkdf (utf8_encode root) [] i' 32%nat -> i = i') ->
  deriveClusterTenantKek hkdf root a = Ok k -> deriveClusterTenantKek hkdf root b = Ok k -> a = b /\ isValidTenantName a = true.
Proof.
  unfold deriveClusterTenantKek. intros Hh Ha Hb. destruct (isValidTenantName a) eqn:Ea; [|done]. destruct (isValidTenantName b) eqn:Eb; [|done].
  cbn [negb] in Ha, Hb. destruct (bool_decide (root = [])); [done|]. split; [|done].
  assert (E : toHex (hkdf (utf8_encode root) [] (utf8_encode (HKDF_INFO_PREFIX ++ a)) 32%nat) =
              toHex (hkdf (utf8_encode root) [] (utf8_encode (HKDF_INFO_PREFIX ++ b)) 32%nat)) by congruence.
  apply toHex_inj, Hh in E. by apply info_inj.
Qed.

(** ** With the vault object *)

Section vault.
Context `{WebCryptoLaws} `{Vault.Url}.
Context (parse_file_url : jsstr -> option (jsstr * jsstr)) (hkdf_bits : bytes -> bytes -> bytes -> nat -> bytes).

(** A call of the object over the key source: the clock, the entropy, the name of the object, the
    environment as the object reads it and as the source does, and the jitter. *)
Definition source_ctx (now : Z) (d : Drawn) (tenantName : option jsstr) (e : VaultStore.Env) (kekEnv : KekSourceEnv) (jitter : nat -> Z) : VaultStore.Ctx :=
  VaultStore.mkCtx e now (fun explicit scope => match resolve_source parse_file_url jitter hkdf_bits kekEnv explicit scope with
                                                | Ok secret => Some (deriveKEK secret) | Throw _ => None end) tenantName d.

(** The key of an instance that has none yet is pinned, and derived again by every later one whose
    source answers alike. *)
Lemma getKEK_again c c' s s1 s2 k :
  VaultStore.kekPromise s = None -> VaultStore.getKEK c s = (s1, Ok k) ->
  VaultStore.env c' = VaultStore.env c -> VaultStore.tenantName c' = VaultStore.tenantName c ->
  (forall explicit scope, VaultStore.resolve c' explicit scope = VaultStore.resolve c explicit scope) ->
  VaultStore.kekPromise s2 = None -> VaultStore.vault_state s2 = VaultStore.vault_state s1 ->
  VaultStore.getKEK c' s2 = (VaultStore.set_kek (Some k) s2, Ok k).
Proof.
  intros Hm Hg He Ht Hr Hm2 Hv. unfold VaultStore.getKEK, bind, read in *. rewrite Hm in Hg. rewrite Hm2.
  unfold VaultStore.assertKekSourceSpecPinned, VaultStore.resolveKek, bind, read in *. rewrite He, Ht, Hv.
  set (spec := VaultStore.trimmed (VaultStore.VAULT_KEK_SOURCE (VaultStore.env c))) in *.
  set (flag := if VaultStore.tenant_scoped (VaultStore.env c) then js "1" else js "0") in *.
  set (scope := if VaultStore.tenant_scoped (VaultStore.env c) then Some (default (js "cluster") (VaultStore.tenantName c)) else None) in *.
  assert (Hpin : VaultStore.vault_state s1 !! VaultStore.KEK_SOURCE = Some spec /\ VaultStore.vault_state s1 !! VaultStore.KEK_SCOPED = Some flag /\
                 spec <> [] /\ VaultStore.resolve c spec scope = Some k).
  { destruct (VaultStore.vault_state s !! VaultStore.KEK_SOURCE) as [pinned|] eqn:Es.
    - case_bool_decide as E1; [|done]. cbn [negb] in Hg. case_bool_decide as E2; [|done]. cbn [negb ret] in Hg.
      case_bool_decide as E3; [done|]. destruct (VaultStore.resolve c spec scope) as [k'|] eqn:Er; [|done]. unfold ret, exec in Hg.
      injection Hg as <- <-. cbn [VaultStore.vault_state VaultStore.set_kek]. subst pinned. done.
    - unfold VaultStore.insert_state, insert_strict in Hg. rewrite Es in Hg. cbn [VaultStore.vault_state VaultStore.set_vault_state] in Hg.
      destruct (<[VaultStore.KEK_SOURCE := spec]> (VaultStore.vault_state s) !! VaultStore.KEK_SCOPED) eqn:E2; [done|].
      case_bool_decide as E3; [done|]. destruct (VaultStore.resolve c spec scope) as [k'|] eqn:Er; [|done]. unfold ret, exec in Hg.
      injection Hg as <- <-. cbn [VaultStore.vault_state VaultStore.set_kek VaultStore.set_vault_state].
      split; [rewrite lookup_insert_ne by done; apply lookup_insert_eq|]. split; [apply lookup_insert_eq|done]. }
  destruct Hpin as (-> & -> & Hne & Hres). rewrite !bool_decide_true by done. cbn [negb ret]. rewrite bool_decide_false by done.
  unfold ret. rewrite Hr, Hres. reflexivity.
Qed.

(** The state a put leaves: the key was taken from the one after the charge. *)
Lemma put_key c p sv cred s s1 : VaultStore.putCredential c p sv cred s = (s1, Ok tt) ->
  exists sb sc k, VaultStore.kekPromise sb = VaultStore.kekPromise s /\ VaultStore.getKEK c sb = (sc, Ok k) /\
    VaultStore.kekPromise s1 = Some k /\ VaultStore.vault_state s1 = VaultStore.vault_state sc.
Proof.
  unfold VaultStore.putCredential, VaultStore.writeRow, bind.
  assert (Ha : (VaultStore.assertSubjectFp p s).1 = s) by (unfold VaultStore.assertSubjectFp, throw, ret; destruct p; [done|]; by destruct (Vault.has_control _)).
  destruct (VaultStore.assertSubjectFp p s) as [sa [ua|]]; [|done]. cbn [fst] in Ha. subst sa.
  assert (Hc : VaultStore.kekPromise (VaultStore.charge c p RateBucket.COST_write s).1 = VaultStore.kekPromise s).
  { unfold VaultStore.charge, bind, VaultStore.consumeBudget, exec, throw, ret. by destruct (RateBucket.tryConsume _ _). }
  destruct (VaultStore.charge c p _ s) as [sb [ub|]]; [|done]. cbn [fst] in Hc.
  destruct (Vault.validateCredentialPayload cred); [|done].
  destruct (VaultStore.getKEK c sb) as [sc [k|]] eqn:Eg; [|done]. unfold exec. intros [= <-]. exists sb, sc, k.
  split; [done|]. split; [done|]. split; [by apply VaultStore.getKEK_memo in Eg|done].
Qed.

(** C24: A stored credential outlives the instance that stored it: whatever was drawn for its envelope, an
    instance that starts on the same tables, with a source that answers the same secret, sends exactly
    the stored headers to the stored upstream. *)
Theorem credential_outlives_the_instance now d now' d' tenant e kekEnv kekEnv' jitter jitter' p sv cred s s1 s2 up sub inc req resp out :
  let c := source_ctx now d tenant e kekEnv jitter in
  let c' := source_ctx now' d' tenant e kekEnv' jitter' in
  VaultStore.kekPromise s = None -> VaultStore.putCredential c p sv cred s = (s1, Ok tt) -> VaultStore.header_record (Vault.headers cred) = true ->
  (forall explicit scope, resolve_source parse_file_url jitter' hkdf_bits kekEnv' explicit scope = resolve_source parse_file_url jitter hkdf_bits kekEnv explicit scope) ->
  VaultStore.kekPromise s2 = None -> VaultStore.credentials s2 = VaultStore.credentials s1 -> VaultStore.vault_state s2 = VaultStore.vault_state s1 ->
  Vault.checkAccess (Vault.allowedSubs cred) sub = true -> Vault.buildProxyRequest inc cred = Some req -> up req = Some resp -> Vault.sanitizeResponse resp = Some out ->
  (VaultStore.proxyRequestInner c' up p sv sub inc s2).2 = Ok (VaultStore.UpstreamReply out).
Proof.
  intros c c' Hk Hput Hrec Hres Hk2 Hc2 Hv2 Ha Hb Hu Ho.
  destruct (put_key _ _ _ _ _ _ Hput) as (sb & sc & k & Hkb & Hg & Hk1 & Hv1). rewrite Hk in Hkb.
  destruct (VaultStore.put_then_proxy c p sv cred s s1 Hput Hrec) as (k' & Hk' & Hproxy). assert (k' = k) as -> by congruence.
  rewrite (Hproxy c' up sub inc req resp out s2 (VaultStore.set_kek (Some k) s2)); try done.
  apply (getKEK_again c c' sb sc s2 k); try done; [|by rewrite Hv2].
  intros explicit scope. cbn [VaultStore.resolve c c' source_ctx]. by rewrite Hres.
Qed.
End vault.

(** ** Closed examples *)

(** A cipher that is none: the key and the iv are written before the text and compared. *)
Definition demo_open (k i c : bytes) : option bytes :=
  if decide (take (length (k ++ i)) c = k ++ i) then Some (drop (length (k ++ i)) c) else None.
#[local] Instance demo_crypto : WebCrypto :=
  {| CryptoKey := bytes; hkdf_aes_key m s i := m ++ s ++ i; raw_aes_key raw := Some raw;
     gcm_seal k i p := (k ++ i) ++ p; gcm_open := demo_open |}.
#[local] Instance demo_crypto_laws : WebCryptoLaws.
Proof.
  split; [|by eexists]. intros k i p. cbn [gcm_open gcm_seal demo_crypto]. unfold demo_open.
  rewrite take_app_length, drop_app_length. by rewrite decide_True.
Qed.
#[local] Existing Instance Vault.demo_url.

Definition demo_drawn (x : byte) : Drawn.
Proof. refine (mkDrawn (replicate 32 x) (replicate 12 x) (replicate 12 x) _ _); reflexivity. Defined.

(** Two bad answers, then the secret with a newline. *)
Definition demo_helper : Fetcher := fun _ n =>
  match n with 0%nat => NetworkError (js "reset") | 1%nat => Response 503 [] | _ => Response 200 (utf8_encode (js "key") ++ [z2b 10]) end.
Definition demo_kek_env : KekSourceEnv := fun name =>
  if bool_decide (name = KEK_HELPER) then Some (ServiceBinding demo_helper)
  else if bool_decide (name = js "ROOT") then Some (TextBinding (js "root")) else None.
Definition demo_jitter : nat -> Z := fun _ => 7.
Definition demo_hkdf : bytes -> bytes -> bytes -> nat -> bytes := fun _ _ info _ => info.

Example helper_run :
  HelperKekSource demo_jitter demo_kek_env (js "op://v/i") =
  let url := js "http://kek-helper/resolve?url=op%3A%2F%2Fv%2Fi" in mkRun [url; url; url] [107; 257] (Ok (js "key")).
Proof. vm_compute. reflexivity. Qed.

Lemma helper_answers_witness :
  let url := js "http://kek-helper/resolve?url=op%3A%2F%2Fv%2Fi" in
  let r := HelperKekSource demo_jitter demo_kek_env (js "op://v/i") in
  outcome_of r = Ok (js "key") /\
  ((length (requests r) <= 3)%nat /\ Forall (eq url) (requests r) /\ (length (pauses r) <= 2)%nat /\ Forall (fun p => p < 300) (pauses r) /\
   (outcome_of r = Ok (js "key") <->
    exists n, (n < 3)%nat /\ (forall i, (i < n)%nat -> transient (demo_helper url i) = true) /\
      exists status body, demo_helper url n = Response status body /\ is_ok status = true /\
        stripTrailingNewlines (utf8_decode_lossy body) = js "key" /\ js "key" <> [])).
Proof.
  intros url r. split; [vm_compute; reflexivity|].
  apply (helper_answers demo_jitter demo_kek_env (js "op://v/i") demo_helper (js "op%3A%2F%2Fv%2Fi") (js "key")); [reflexivity|vm_compute; reflexivity|].
  intros n. unfold demo_jitter. lia.
Defined.

Lemma helper_hides_the_spec_witness :
  outcome_of (HelperKekSource demo_jitter demo_kek_env (js "op://v/i")) = outcome_of (HelperKekSource demo_jitter demo_kek_env (js "op://w/j")).
Proof.
  apply (helper_hides_the_spec demo_jitter demo_kek_env demo_kek_env (js "op://v/i") (js "op://w/j") demo_helper demo_helper
           (js "op%3A%2F%2Fv%2Fi") (js "op%3A%2F%2Fw%2Fj")); [reflexivity|reflexivity|vm_compute; reflexivity|vm_compute; reflexivity|vm_compute; reflexivity|].
  intros n. reflexivity.
Defined.

Lemma tenants_have_own_keys_witness :
  match deriveClusterTenantKek demo_hkdf (js "root") (js "a.example") with
  | Ok k => js "a.example" = js "a.example" /\ isValidTenantName (js "a.example") = true
  | Throw _ => False
  end.
Proof.
  destruct (deriveClusterTenantKek demo_hkdf (js "root") (js "a.example")) as [k|] eqn:E; [|vm_compute in E; discriminate].
  apply (tenants_have_own_keys demo_hkdf (js "root") (js "a.example") (js "a.example") k); [intros i i' Ei; exact Ei|exact E|exact E].
Defined.

Definition demo_vault_env : VaultStore.Env := VaultStore.mkEnv None VaultStore.NoSeed (Some (js "op://v/i")) (Some (js "1")).
Definition demo_source (now : Z) (x : byte) : VaultStore.Ctx :=
  source_ctx (fun _ => None) demo_hkdf now (demo_drawn x) (Some (js "tenant-a")) demo_vault_env demo_kek_env demo_jitter.
Definition demo_stored : VaultStore.T :=
  (VaultStore.putCredential (demo_source 1000 (z2b 1)) (js "peer") (js "api") Vault.demo_cred VaultStore.empty).1.
Definition demo_restarted : VaultStore.T := VaultStore.set_kek None demo_stored.
Definition demo_answer : Vault.Response := Vault.mkResponse 200 [] [].

Lemma credential_outlives_the_instance_witness :
  (VaultStore.proxyRequestInner (demo_source 5000 (z2b 2)) (fun _ => Some demo_answer) (js "peer") (js "api") (js "repo:org/venturi:main") Vault.demo_incoming
     demo_restarted).2 = Ok (VaultStore.UpstreamReply (200, ∅, [])).
Proof.
  eapply (@credential_outlives_the_instance demo_crypto demo_crypto_laws Vault.demo_url (fun _ => None) demo_hkdf 1000 (demo_drawn (z2b 1)) 5000 (demo_drawn (z2b 2)) (Some (js "tenant-a"))
    demo_vault_env demo_kek_env demo_kek_env demo_jitter demo_jitter (js "peer") (js "api") Vault.demo_cred VaultStore.empty demo_stored).
  - reflexivity.
  - apply pair_snd. vm_compute. reflexivity.
  - vm_compute. reflexivity.
  - reflexivity.
  - reflexivity.
  - reflexivity.
  - reflexivity.
  - vm_compute. reflexivity.
  - vm_compute. reflexivity.
  - reflexivity.
  - vm_compute. reflexivity.
Defined.

(** A specification of another scheme is quoted in what is thrown. *)
Example bad_scheme_echoes_the_spec :
  match buildKekSource (fun _ => None) demo_jitter (js "vault://secret") demo_kek_env with
  | Throw (KekError message) => includes_str (js "vault://secret") message = true
  | _ => False
  end.
Proof. vm_compute. reflexivity. Qed.

(** An object without a name takes the key of the tenant that is called [cluster]. *)
Example unnamed_object_is_a_tenant :
  isValidTenantName (js "cluster") = true /\
  forall s, VaultStore.resolveKek (source_ctx (fun _ => None) demo_hkdf 0 (demo_drawn (z2b 1)) None demo_vault_env demo_kek_env demo_jitter) s =
            VaultStore.resolveKek (source_ctx (fun _ => None) demo_hkdf 0 (demo_drawn (z2b 1)) (Some (js "cluster")) demo_vault_env demo_kek_env demo_jitter) s.
Proof. by split. Qed.

(** A redirect is repeated like a failure of the server. *)
Example redirects_are_repeated : requests (helper_loop demo_jitter (fun _ _ => Response 302 []) (js "u") (js "op://") ATTEMPTS 0 None) = [js "u"; js "u"; js "u"].
Proof. vm_compute. reflexivity. Qed.

End VaultKey.
