(* ===== verification/VaultHandler.v ===== *)
(** The standalone vault worker's request router, vault/src/handler.ts, over the storage interface of
    vault/src/vault.ts.

    The storage, the resolution of a caller's identity, and the path to the Durable Object are
    parameters, as they are in the code.  The body of a PUT is typed as the code types it: one whose
    fields have other types is outside the model. *)
From S2P Require Import Prelude JsString Json Vault.

Module VaultHandler.

(** [VaultStorage], and the CRUD functions over it; an operation may reject. *)
Class VaultStorage := {
  Store : Type;
  Rejection : Type;
  get : jsstr -> M Store Rejection (option Vault.StoredCredential);
  put : jsstr -> Vault.StoredCredential -> M Store Rejection unit;
  delete : jsstr -> M Store Rejection bool;
  list_ : M Store Rejection (list jsstr);
}.

(** A JSON reply; the reply of the Durable Object; or an exception of the handler itself. *)
Inductive Answer (R : Type) := JsonAnswer (status : Z) (body : Json) | Relayed (r : R) | Crashed.
Arguments JsonAnswer {R} status body.
Arguments Relayed {R} r.
Arguments Crashed {R}.

Section handler.
Context `{VaultStorage} `{Vault.Url}.

Definition storeCredential (service : jsstr) (cred : Vault.StoredCredential) : M Store Rejection unit := put service cred.
Definition getCredential (service : jsstr) : M Store Rejection (option Vault.StoredCredential) := get service.
Definition deleteCredential (service : jsstr) : M Store Rejection bool := delete service.
Definition listServices : M Store Rejection (list jsstr) := list_.

(** What [request.json()] gives: it throws, or the value [null], or an object with its fields. *)
Inductive put_body :=
  | BadJson
  | NullBody
  | Body (upstream : option jsstr) (headers : option (list (jsstr * jsstr))) (allowedSubs : option (list jsstr)).

(** A request: the path of its URL, its method and its body, and what of it is forwarded. *)
Record Request := mkRequest { pathname : jsstr; method : jsstr; json_body : put_body; incoming : Vault.Incoming }.

Record AuditEntry := mkAudit { event : jsstr; a_sub : jsstr; a_service : jsstr; a_method : jsstr; a_status : Z; ts : Z }.

Definition buildAuditEntry (now : Z) (event sub service method : jsstr) (status : Z) : AuditEntry := mkAudit event sub service method status now.

Definition obj (l : list (string * Json)) : Json := JObj (map (fun kv => (js kv.1, kv.2)) l).
Definition error_body (text : string) : Json := obj [("error", JStr (js text))]%string.
Definition vault_error (b : Vault.ErrorBody) : Json := obj [("error", JStr (Vault.error b)); ("service", JStr (Vault.service b))]%string.

(** The method's first path segment. *)
Definition service_segment (pathname : jsstr) : jsstr := match split_on 47 pathname with _ :: s :: _ => s | _ => [] end.

Definition service_row (name : jsstr) (cred : Vault.StoredCredential) : Json :=
  obj [("name", JStr name); ("upstream", JStr (Vault.upstream cred)); ("allowedSubs", JArr (map JStr (Vault.allowedSubs cred)))]%string.

Section request.
Context {R : Type} (resolveIdentity : Request -> option jsstr) (adminSub : jsstr) (now : Z).
Context (proxyViaVault : option (jsstr -> Request -> M Store Rejection R)).

(** A reply, and the audit entries that are logged. *)
Definition Handled : Type := Answer R * list AuditEntry.
Definition reply (status : Z) (body : Json) : M Store Rejection Handled := ret (JsonAnswer status body, []).

(** [for (const name of names)]: the services that are still there. *)
Fixpoint service_rows (names : list jsstr) : M Store Rejection (list Json) :=
  match names with
  | [] => ret []
  | name :: names =>
      let* cred := getCredential name in
      let* rest := service_rows names in
      ret (match cred with Some cred => service_row name cred :: rest | None => rest end)
  end.

Definition handle_put (service sub : jsstr) (request : Request) : M Store Rejection Handled :=
  if negb (bool_decide (sub = adminSub)) then reply 403 (error_body "admin only")
  else match json_body request with
  | BadJson => reply 400 (error_body "invalid JSON body")
  | NullBody => ret (Crashed, [])
  | Body upstream headers allowedSubs =>
      match upstream with
      | Some ((_ :: _) as u) =>
          if negb (Vault.validateUpstreamUrl u) then reply 400 (error_body "invalid or missing upstream URL")
          else
            do* storeCredential service (Vault.mkCred u (default [] headers) (default [] allowedSubs)) in
            ret (JsonAnswer 200 (obj [("ok", JBool true); ("service", JStr service)]%string),
                 [buildAuditEntry now (js "credential_stored") sub service (js "PUT") 200])
      | _ => reply 400 (error_body "invalid or missing upstream URL")
      end
  end.

Definition handle_delete (service sub : jsstr) : M Store Rejection Handled :=
  if negb (bool_decide (sub = adminSub)) then reply 403 (error_body "admin only")
  else
    let* deleted := deleteCredential service in
    if negb deleted then reply 404 (error_body "not found")
    else ret (JsonAnswer 200 (obj [("ok", JBool true); ("service", JStr service)]%string),
              [buildAuditEntry now (js "credential_deleted") sub service (js "DELETE") 200]).

Definition handle_proxy (service sub : jsstr) (request : Request) : M Store Rejection Handled :=
  let* cred := getCredential service in
  match cred with
  | None => reply 404 (vault_error (Vault.buildErrorResponse (js "not_found") sub service None))
  | Some cred =>
      if negb (Vault.checkAccess (Vault.allowedSubs cred) sub)
      then reply 403 (vault_error (Vault.buildErrorResponse (js "forbidden") sub service (Some cred)))
      else
        let audit := [buildAuditEntry now (js "proxy") sub service (method request) 0] in
        match proxyViaVault with
        | Some proxy => let* r := proxy service request in ret (Relayed r, audit)
        | None =>
            match Vault.buildProxyRequest (incoming request) cred with
            | None => ret (Crashed, audit)
            | Some proxyReq =>
                ret (JsonAnswer 200 (obj [("_proxy", JBool true); ("url", JStr (Vault.p_url proxyReq)); ("method", JStr (Vault.p_method proxyReq))]%string), audit)
            end
        end
  end.

Definition handleRequest (request : Request) : M Store Rejection Handled :=
  if bool_decide (pathname request = js "/admin/services") && bool_decide (method request = js "GET") then
    match resolveIdentity request with
    | None | Some [] => reply 401 (error_body "identity required")
    | Some sub =>
        if negb (bool_decide (sub = adminSub)) then reply 403 (error_body "admin only")
        else
          let* names := listServices in
          let* services := service_rows names in
          reply 200 (obj [("services", JArr services)]%string)
    end
  else
    let service := service_segment (pathname request) in
    if negb (Vault.validateServiceName service) then reply 400 (error_body "invalid service name")
    else match resolveIdentity request with
    | None | Some [] => reply 401 (error_body "identity required")
    | Some sub =>
        if bool_decide (method request = js "PUT") then handle_put service sub request
        else if bool_decide (method request = js "DELETE") then handle_delete service sub
        else handle_proxy service sub request
    end.
End request.
End handler.

(** ** What is shown *)

(** Reading does not write. *)
Class VaultStorageLaws `{VaultStorage} : Prop := {
  get_reads k s : (get k s).1 = s;
  list_reads s : (list_ s).1 = s;
}.

Section facts.
Context `{VaultStorageLaws} `{Vault.Url} {R : Type} (resolveIdentity : Request -> option jsstr) (adminSub : jsstr) (now : Z).
Context (proxyViaVault : option (jsstr -> Request -> M Store Rejection R)).
Let handle := handleRequest resolveIdentity adminSub now proxyViaVault.

Lemma service_rows_reads names s : (service_rows names s).1 = s.
Proof.
  revert s. induction names as [|n names IH]; intros s; [done|]. cbn [service_rows]. unfold bind, getCredential.
  pose proof (get_reads n s) as Hg. destruct (get n s) as [s1 [o|e]]; cbn [fst] in Hg; subst s1; [|done].
  specialize (IH s). destruct (service_rows names s) as [s2 [l|e]]; cbn [fst] in IH; by subst.
Qed.

(** The store is changed for the administrator's own PUT and DELETE alone, or by the Durable Object for
    a caller that a credential of the service admits. *)
Theorem changes_are_authorized r s : (handle r s).1 = s \/
  exists sub, resolveIdentity r = Some sub /\ sub <> [] /\
    (sub = adminSub /\ (method r = js "PUT" \/ method r = js "DELETE") \/
     exists cred proxy, (get (service_segment (pathname r)) s).2 = Ok (Some cred) /\ Vault.checkAccess (Vault.allowedSubs cred) sub = true /\
       proxyViaVault = Some proxy).
Proof.
  unfold handle, handleRequest. destruct (_ && _).
  - destruct (resolveIdentity r) as [[|c sub]|]; [by left| |by left]. destruct (negb _); [by left|]. left. unfold bind, listServices.
    pose proof (list_reads s) as Hl. destruct (list_ s) as [s1 [names|e]]; cbn [fst] in Hl; subst s1; [|done].
    pose proof (service_rows_reads names s) as Hr. by destruct (service_rows names s) as [s2 [l|e]]; cbn [fst] in Hr; subst s2.
  - destruct (negb (Vault.validateServiceName _)); [by left|]. destruct (resolveIdentity r) as [[|c sub]|] eqn:Er; [by left| |by left].
    case_bool_decide as Ep; [|case_bool_decide as Ed].
    + unfold handle_put. case_bool_decide as Ea; cbn [negb]; [right; exists (c :: sub); by repeat split; auto|by left].
    + unfold handle_delete. case_bool_decide as Ea; cbn [negb]; [right; exists (c :: sub); by repeat split; auto|by left].
    + unfold handle_proxy, bind, getCredential. pose proof (get_reads (service_segment (pathname r)) s) as Hg.
      destruct (get _ s) as [s1 [[cred|]|e]] eqn:Eg; cbn [fst] in Hg; subst s1; [|by left..].
      destruct (Vault.checkAccess _ _) eqn:Ec; cbn [negb]; [|by left]. destruct proxyViaVault as [proxy|].
      * right. exists (c :: sub). split; [done|]. split; [done|]. right. exists cred, proxy. done.
      * left. by destruct (Vault.buildProxyRequest _ _).
Qed.

Definition without_headers (r : result Rejection (option Vault.StoredCredential)) : result Rejection (option (jsstr * list jsstr)) :=
  match r with Ok o => Ok ((fun c => (Vault.upstream c, Vault.allowedSubs c)) <$> o) | Throw e => Throw e end.

(** Stores that differ in the headers of credentials alone, as far as a reader and the writers' own
    answers tell. *)
Record same_but_headers (s s' : Store) : Prop := {
  same_get k : without_headers (get k s).2 = without_headers (get k s').2;
  same_list : (list_ s).2 = (list_ s').2;
  same_put k c : (put k c s).2 = (put k c s').2;
  same_delete k : (delete k s).2 = (delete k s').2;
}.

Lemma service_rows_same names s s' : same_but_headers s s' -> (service_rows names s).2 = (service_rows names s').2.
Proof.
  intros Hs. induction names as [|n names IH]; [done|]. cbn [service_rows]. unfold bind, getCredential.
  pose proof (get_reads n s) as Hr1. pose proof (get_reads n s') as Hr2. pose proof (same_get _ _ Hs n) as Hg.
  destruct (get n s) as [s1 o1], (get n s') as [s2 o2]. cbn [fst snd] in *. subst s1 s2.
  destruct o1 as [o1|e1], o2 as [o2|e2]; cbn [without_headers] in Hg; try congruence; [|by injection Hg as ->].
  destruct (service_rows names s) as [t1 r1], (service_rows names s') as [t2 r2]. cbn [snd] in IH. subst r2.
  destruct r1 as [l|e]; [|done]. unfold ret. cbn [snd]. destruct o1 as [c1|], o2 as [c2|]; try done.
  injection Hg as E1 E2. unfold service_row. by rewrite E1, E2.
Qed.

(** No answer of the router tells anything of a stored header: they are read by the Durable Object. *)
Theorem answers_hide_the_headers proxy r s s' : proxyViaVault = Some proxy -> same_but_headers s s' ->
  (forall service req, (proxy service req s).2 = (proxy service req s').2) -> (handle r s).2 = (handle r s').2.
Proof.
  intros Hp Hs Hx. unfold handle, handleRequest. destruct (_ && _).
  - destruct (resolveIdentity r) as [[|c sub]|]; [done| |done]. destruct (negb _); [done|]. unfold bind, listServices.
    pose proof (list_reads s) as Hr1. pose proof (list_reads s') as Hr2. pose proof (same_list _ _ Hs) as Hl.
    destruct (list_ s) as [s1 o1], (list_ s') as [s2 o2]. cbn [fst snd] in *. subst s1 s2 o2. destruct o1 as [names|e]; [|done].
    pose proof (service_rows_same names s s' Hs) as Hr. destruct (service_rows names s) as [t1 r1], (service_rows names s') as [t2 r2].
    cbn [snd] in Hr. subst r2. by destruct r1.
  - destruct (negb (Vault.validateServiceName _)); [done|]. destruct (resolveIdentity r) as [[|c sub]|]; [done| |done].
    case_bool_decide; [|case_bool_decide].
    + unfold handle_put. destruct (negb _); [done|]. destruct (json_body r) as [| |[[|u0 u]|] hs subs]; try done. destruct (negb _); [done|].
      unfold bind, storeCredential. pose proof (same_put _ _ Hs (service_segment (pathname r)) (Vault.mkCred (u0 :: u) (default [] hs) (default [] subs))) as E.
      destruct (put _ _ s) as [s1 o1], (put _ _ s') as [s2 o2]. cbn [snd] in E. subst o2. by destruct o1.
    + unfold handle_delete. destruct (negb _); [done|]. unfold bind, deleteCredential. pose proof (same_delete _ _ Hs (service_segment (pathname r))) as E.
      destruct (delete _ s) as [s1 o1], (delete _ s') as [s2 o2]. cbn [snd] in E. subst o2. destruct o1 as [[]|]; done.
    + unfold handle_proxy, bind, getCredential. set (k := service_segment (pathname r)).
      pose proof (get_reads k s) as Hr1. pose proof (get_reads k s') as Hr2. pose proof (same_get _ _ Hs k) as Hg.
      destruct (get k s) as [s1 o1], (get k s') as [s2 o2]. cbn [fst snd] in *. subst s1 s2.
      destruct o1 as [o1|e1], o2 as [o2|e2]; cbn [without_headers] in Hg; try congruence; [|by injection Hg as ->]. destruct o1 as [c1|], o2 as [c2|]; try done.
      injection Hg as E1 E2. rewrite E2. destruct (negb _); [done|]. rewrite Hp. specialize (Hx k r).
      destruct (proxy k r s) as [t1 r1], (proxy k r s') as [t2 r2]. cbn [snd] in Hx. subst r2. by destruct r1.
Qed.
End facts.

(** ** A closed example: an in-memory storage *)

#[local] Instance demo_storage : VaultStorage :=
  {| Store := list (jsstr * Vault.StoredCredential); Rejection := Empty_set;
     get k := read (assoc k); put k c := exec (fun m => (assoc_set k c m, tt));
     delete k := exec (fun m => (filter (fun kv => kv.1 <> k) m, bool_decide (is_Some (assoc k m))));
     list_ := read (map fst) |}.
#[local] Instance demo_storage_laws : VaultStorageLaws.
Proof. by split. Qed.
#[local] Existing Instance Vault.demo_url.

Definition demo_identity (r : Request) : option jsstr := Some (js "repo:org").
Definition demo_stores (key : jsstr) : list (jsstr * Vault.StoredCredential) :=
  [(js "api", Vault.mkCred (js "https://api.test") [(js "apikey", key)] [js "repo:*"])].
Definition demo_proxy : jsstr -> Request -> M Store Rejection Z := fun _ _ => ret 200.
Definition demo_get : Request := mkRequest (js "/api/x") (js "GET") BadJson Vault.demo_incoming.

Lemma answers_hide_the_headers_witness :
  (handleRequest demo_identity (js "root") 0 (Some demo_proxy) demo_get (demo_stores (js "a"))).2 =
  (handleRequest demo_identity (js "root") 0 (Some demo_proxy) demo_get (demo_stores (js "b"))).2.
Proof.
  apply (answers_hide_the_headers demo_identity (js "root") 0 (Some demo_proxy) demo_proxy); [reflexivity| |reflexivity].
  split; try reflexivity.
  - intros k. unfold get, demo_storage, read, demo_stores. cbn [snd assoc]. by destruct (decide (k = js "api")).
  - intros k. unfold delete, demo_storage, exec, demo_stores. cbn [snd assoc]. by destruct (decide (k = js "api")).
Defined.

Example caller_is_relayed :
  handleRequest demo_identity (js "root") 0 (Some demo_proxy) demo_get (demo_stores (js "a")) =
  (demo_stores (js "a"), Ok (Relayed 200, [mkAudit (js "proxy") (js "repo:org") (js "api") (js "GET") 0 0])).
Proof. vm_compute. reflexivity. Qed.

(** A body that is [null] is no bad request. *)
Example null_body_crashes :
  (handleRequest demo_identity (js "repo:org") 0 (Some demo_proxy) (mkRequest (js "/api") (js "PUT") NullBody Vault.demo_incoming) []).2 = Ok (Crashed, []).
Proof. vm_compute. reflexivity. Qed.

End VaultHandler.
