(* ===== verification/BundleAuth.v ===== *)
(** The composed bundle-to-vault decision, src/routes/bundle-auth.ts, over the policy helpers of
    src/routes/bundle-token-verify.ts.

    The notme SDK, which verifies the token and its proof, is a parameter: its [verifyDPoPToken] with the
    replay callback it is given, its base64url decoder, and its stable error codes.  The import of the
    authority's key is one too.  The two callbacks of the context are programs over a state of the
    caller's. *)
From S2P Require Import Prelude JsString Platform Base64 Json JsonText Vault VaultStore.

Module BundleAuth.
Import JsonText.

(** ** The SDK *)

(** [aud] is a text or, as RFC 7519 allows, a list of them. *)
Inductive audience_claim := AudText (t : jsstr) | AudList (l : list jsstr).
Record VerifiedTokenClaims := mkClaims { sub : jsstr; aud : audience_claim; scope : jsstr }.

(** What [verifyDPoPToken] answers: the claims, or an exception, a [DPoPVerificationError] with its code
    or any other. *)
Inductive verdict := Verified (claims : VerifiedTokenClaims) | VerificationError (code : jsstr) | OtherError.

Class Sdk := {
  CryptoKey : Type;
  (** [crypto.subtle.importKey] of a raw Ed25519 key. *)
  import_key : bytes -> option CryptoKey;
  base64urlDecode : jsstr -> option bytes;
  (** Token, proof, method, url, key, audience, issuer and tolerance, after the replay callback. *)
  verifyDPoPToken {S E : Type} (checkAndRecordJti : jsstr -> M S E bool) (token proof method url : jsstr)
    (publicKey : CryptoKey) (audience issuer : jsstr) (clockTolerance : Z) : S -> S * verdict;
}.

(** What the SDK documents of replay: a proof is accepted only when the callback, asked for the proof's
    own [jti], answered that it was not there, and the callback is all that the SDK changes. *)
Class SdkLaws `{Sdk} := {
  proof_jti : jsstr -> option jsstr;
  verified_once {S E} (check : jsstr -> M S E bool) token proof method url key audience issuer tolerance (s s' : S) claims :
    verifyDPoPToken check token proof method url key audience issuer tolerance s = (s', Verified claims) ->
    exists jti, proof_jti proof = Some jti /\ check jti s = (s', Ok false);
}.

(** ** Scopes: bundle-token-verify.ts *)

(** [s.split(/\s+/)]; [gap] says that the last unit was white space. *)
Fixpoint split_spaces (gap : bool) (s : jsstr) : list jsstr :=
  match s with
  | [] => [[]]
  | c :: s =>
      if js_space c then (if gap then split_spaces true s else [] :: split_spaces true s)
      else match split_spaces false s with seg :: segs => (c :: seg) :: segs | [] => [[c]] end
  end.

Definition entry_grants (requested g : jsstr) : bool :=
  bool_decide (g = requested) || (ends_with (js ":*") g && starts_with (take (length g - 1) g) requested).

Definition scopeGrants (granted requested : jsstr) : bool :=
  existsb (entry_grants requested) (filter (fun g => g <> []) (split_spaces false granted)).

Definition deriveSubjectFp `{Sha256} (s : jsstr) : jsstr := js "sha256:" ++ toHex (take 12 (sha256 (utf8_encode s))).

(** ** The decision: bundle-auth.ts *)

Section decision.
Context `{Sdk} `{Sha256}.

(** The object of a part of a compact JWS, or nothing when the part is malformed. *)
Definition jwtPart (jwt : jsstr) (index : nat) : result json_error (option Json) :=
  let parts := split_on 46 jwt in
  if negb (length parts =? 3)%nat then Ok None
  else match base64urlDecode (nth index parts []) with
  | None => Ok None
  | Some bs =>
      match json_parse (utf8_decode_lossy bs) with
      | Ok v => Ok (Some v)
      | Throw Unrepresentable => Throw Unrepresentable
      | Throw _ => Ok None
      end
  end.

Definition REASON_BY_CODE : list (jsstr * jsstr) := map (fun kv => (js kv.1, js kv.2))
  [("TOKEN_TYP_INVALID", "typ"); ("CLAIM_AUD_MISMATCH", "audience"); ("CLAIM_AUD_MISSING", "audience");
   ("CLAIM_ISS_MISMATCH", "issuer"); ("CLAIM_ISS_MISSING", "issuer"); ("CLAIM_NBF_NOT_YET_VALID", "not yet valid");
   ("PROOF_REPLAY", "replay (jti seen)"); ("PROOF_ATH_MISSING", "ath missing"); ("PROOF_ATH_MISMATCH", "ath mismatch")]%string.

(** Of an exception: the code of a [DPoPVerificationError], or none. *)
Definition mapVerifyFailureReason (code : option jsstr) : jsstr :=
  default (js "dpop-verify") (code ≫= fun c => assoc c REASON_BY_CODE).

(** The context of a request; [S] is the state of the caller, [E] what its revocation check throws. *)
Record BundleAuthContext (S E : Type) := mkContext {
  token : option jsstr;
  proof : option jsstr;
  notmePub : bytes;
  resolvedKid : jsstr;
  expectedSub : jsstr;
  audience : jsstr;
  requiredScope : jsstr;
  issuer : jsstr;
  htm : jsstr;
  htu : jsstr;
  checkAndRecordJti : jsstr -> M S E bool;
  isRevoked : jsstr -> M S E bool;
}.

Inductive BundleAuthResult := Granted (subjectFp sub : jsstr) | Denied (reason : jsstr).

(** The call rejects with what the revocation check throws; a number outside the safe integers in the
    token's header is outside the model. *)
Inductive rejection (E : Type) := Rejected (e : E) | OutsideModel.
Arguments Rejected {E} e.
Arguments OutsideModel {E}.

Definition deny {S E} (reason : string) : M S E BundleAuthResult := ret (Denied (js reason)).

Definition kid_of (tokenHeader : option Json) : jsstr :=
  match tokenHeader with
  | Some (JObj m) => match assoc (js "kid") m with Some (JStr kid) => kid | _ => [] end
  | _ => []
  end.

(** [/^[0-9a-f]{16}([0-9a-f]{16})?$/] *)
Definition kid_shape (kid : jsstr) : bool :=
  forallb is_hex_unit kid && ((length kid =? 16)%nat || (length kid =? 32)%nat).

(** [SameValue] of the claim with the one audience. *)
Definition is_audience (a : audience_claim) (wanted : jsstr) : bool :=
  match a with AudText t => bool_decide (t = wanted) | AudList _ => false end.

Definition CLOCK_TOLERANCE : Z := 60.

(** What is left to check of a token the SDK accepts. *)
Definition cloister_checks {S E} (ctx : BundleAuthContext S E) (tok : jsstr) (claims : VerifiedTokenClaims) : M S (rejection E) BundleAuthResult :=
  match jwtPart tok 0 with
  | Throw _ => throw OutsideModel
  | Ok tokenHeader =>
      let kid := kid_of tokenHeader in
      if bool_decide (kid = []) then deny "kid"
      else if negb (kid_shape kid) then deny "kid shape (not 16/32 lowercase hex)"
      else if negb (bool_decide (kid = resolvedKid _ _ ctx)) then deny "kid mismatch (header != resolving key)"
      else if negb (is_audience (aud claims) (audience _ _ ctx)) then deny "audience"
      else if bool_decide (js "*" ∈ split_spaces false (scope claims)) then deny "wildcard/admin scope forbidden on bundle token"
      else if negb (scopeGrants (scope claims) (requiredScope _ _ ctx)) then deny "scope"
      else if negb (bool_decide (sub claims = expectedSub _ _ ctx)) then deny "sub mismatch (token not for this bundle's DO)"
      else fun s =>
        match isRevoked _ _ ctx kid s with
        | (s, Throw e) => (s, Throw (Rejected e))
        | (s, Ok true) => deny "revoked" s
        | (s, Ok false) => (s, Ok (Granted (deriveSubjectFp (sub claims)) (sub claims)))
        end
  end.

Definition authenticateBundleRequest {S E} (ctx : BundleAuthContext S E) : M S (rejection E) BundleAuthResult :=
  match token _ _ ctx with
  | None | Some [] => deny "no token (bundle path is token-or-deny)"
  | Some tok =>
      match proof _ _ ctx with
      | None | Some [] => deny "no dpop proof"
      | Some prf =>
          match import_key (notmePub _ _ ctx) with
          | None => deny "bad notme key"
          | Some publicKey => fun s =>
              let '(s, v) := verifyDPoPToken (checkAndRecordJti _ _ ctx) tok prf (htm _ _ ctx) (htu _ _ ctx) publicKey
                               (audience _ _ ctx) (issuer _ _ ctx) CLOCK_TOLERANCE s in
              match v with
              | Verified claims => cloister_checks ctx tok claims s
              | VerificationError code => (s, Ok (Denied (mapVerifyFailureReason (Some code))))
              | OtherError => (s, Ok (Denied (mapVerifyFailureReason None)))
              end
          end
      end
  end.
End decision.
Arguments mkContext {S E} _ _ _ _ _ _ _ _ _ _ _ _.
Arguments token {S E} _.
Arguments proof {S E} _.
Arguments notmePub {S E} _.
Arguments resolvedKid {S E} _.
Arguments expectedSub {S E} _.
Arguments audience {S E} _.
Arguments requiredScope {S E} _.
Arguments issuer {S E} _.
Arguments htm {S E} _.
Arguments htu {S E} _.
Arguments checkAndRecordJti {S E} _ _.
Arguments isRevoked {S E} _ _.
Arguments Rejected {E} e.
Arguments OutsideModel {E}.

(** ** What is shown of scopes *)

Lemma entry_grants_iff requested g : entry_grants requested g = true <->
  g = requested \/ exists p t, g = p ++ js ":*" /\ requested = p ++ js ":" ++ t.
Proof.
  unfold entry_grants. rewrite orb_true_iff, andb_true_iff, bool_decide_eq_true, ends_with_iff, starts_with_iff.
  assert (Ht : forall p, take (length (p ++ js ":*") - 1) (p ++ js ":*") = p ++ js ":").
  { intros p. rewrite length_app. change (js ":*") with (js ":" ++ js "*"). rewrite (app_assoc p). apply take_app_length'.
    rewrite !length_app. change (length (js ":")) with 1%nat. change (length (js "*")) with 1%nat. lia. }
  split; (intros [Hg|Hg]; [by left|right]).
  - destruct Hg as [[p ->] [t Et]]. exists p, t. split; [done|]. by rewrite Et, Ht, <- app_assoc.
  - destruct Hg as (p & t & -> & ->). split; [by exists p|]. exists t. by rewrite Ht, <- app_assoc.
Qed.

Lemma scopeGrants_iff granted requested : scopeGrants granted requested = true <->
  exists g, g ∈ split_spaces false granted /\ g <> [] /\ (g = requested \/ exists p t, g = p ++ js ":*" /\ requested = p ++ js ":" ++ t).
Proof.
  unfold scopeGrants. rewrite existsb_exists. split.
  - intros (g & Hg%list_elem_of_In & He). apply list_elem_of_filter in Hg as [Hne Hg]. exists g. by rewrite <- entry_grants_iff.
  - intros (g & Hg & Hne & He%entry_grants_iff). exists g. split; [|done]. apply list_elem_of_In, list_elem_of_filter. done.
Qed.

Lemma split_spaces_entry (g : jsstr) rest : forallb (fun c => negb (js_space c)) g = true ->
  split_spaces false (g ++ 32 :: rest) = g :: split_spaces true rest.
Proof.
  induction g as [|c g IH]; intros Hg; [done|]. cbn [forallb] in Hg. apply andb_prop in Hg as [Hc Hg]. cbn [app split_spaces].
  apply negb_true_iff in Hc. by rewrite Hc, IH.
Qed.

Lemma split_spaces_last (g : jsstr) : forallb (fun c => negb (js_space c)) g = true -> split_spaces false g = [g].
Proof.
  induction g as [|c g IH]; intros Hg; [done|]. cbn [forallb] in Hg. apply andb_prop in Hg as [Hc Hg]. cbn [split_spaces].
  apply negb_true_iff in Hc. by rewrite Hc, IH.
Qed.

Definition scope_entry (g : jsstr) : bool := negb (bool_decide (g = [])) && forallb (fun c => negb (js_space c)) g.

(** A scope that is minted by joining its entries is split into them again. *)
Lemma split_minted gs : gs <> [] -> forallb scope_entry gs = true -> split_spaces false (join [32] gs) = gs.
Proof.
  induction gs as [|g gs IH]; intros Hne Hgs; [done|]. cbn [forallb] in Hgs. apply andb_prop in Hgs as [Hg Hgs].
  unfold scope_entry in Hg. apply andb_prop in Hg as [_ Hg]. destruct gs as [|g' gs]; [cbn [join]; by apply split_spaces_last|].
  specialize (IH ltac:(done) Hgs). cbn [forallb] in Hgs. apply andb_prop in Hgs as [[Hn%negb_true_iff Hg']%andb_prop _].
  change (join [32] (g :: g' :: gs)) with (g ++ 32 :: join [32] (g' :: gs)). rewrite split_spaces_entry by done. f_equal.
  rewrite bool_decide_eq_false in Hn. destruct g' as [|c g']; [done|]. cbn [forallb] in Hg'. apply andb_prop in Hg' as [Hc%negb_true_iff _].
  revert IH. destruct gs; cbn [join app split_spaces]; by rewrite Hc.
Qed.

Lemma minted_scope_grants gs requested : gs <> [] -> forallb scope_entry gs = true ->
  scopeGrants (join [32] gs) requested = existsb (entry_grants requested) gs.
Proof.
  intros Hne Hgs. unfold scopeGrants. rewrite split_minted by done. clear Hne. induction gs as [|g gs IH]; [done|].
  cbn [forallb] in Hgs. apply andb_prop in Hgs as [Hg Hgs]. unfold scope_entry in Hg. apply andb_prop in Hg as [Hg%negb_true_iff _].
  rewrite bool_decide_eq_false in Hg. rewrite filter_cons_True by done. cbn [existsb]. by rewrite IH.
Qed.

(** ** What is shown of the decision *)

Section facts.
Context `{Sdk} `{Sha256}.

(** The checks of this file on a token that the SDK accepts with these claims. *)
Record cleared {S E} (ctx : BundleAuthContext S E) (tok : jsstr) (claims : VerifiedTokenClaims) : Prop := {
  c_kid : (let? h := jwtPart tok 0 in Ok (kid_of h)) = Ok (resolvedKid ctx);
  c_shape : kid_shape (resolvedKid ctx) = true;
  c_aud : aud claims = AudText (audience ctx);
  c_admin : js "*" ∉ split_spaces false (scope claims);
  c_scope : scopeGrants (scope claims) (requiredScope ctx) = true;
  c_sub : sub claims = expectedSub ctx;
}.

Lemma kid_shape_nonempty kid : kid_shape kid = true -> kid <> [].
Proof. by intros Hk ->. Qed.

Lemma cloister_checks_iff {S E} (ctx : BundleAuthContext S E) tok claims s s' fp who :
  cloister_checks ctx tok claims s = (s', Ok (Granted fp who)) <->
  cleared ctx tok claims /\ isRevoked ctx (resolvedKid ctx) s = (s', Ok false) /\
  who = expectedSub ctx /\ fp = deriveSubjectFp (expectedSub ctx).
Proof.
  unfold cloister_checks, deny, ret, throw. split.
  - destruct (jwtPart tok 0) as [h|] eqn:Eh; [|done]. case_bool_decide as E1; [done|]. destruct (kid_shape _) eqn:E2; [|done]. cbn [negb].
    case_bool_decide as E3; [|done]. cbn [negb]. destruct (is_audience _ _) eqn:E4; [|done]. cbn [negb]. case_bool_decide as E5; [done|].
    destruct (scopeGrants _ _) eqn:E6; [|done]. cbn [negb]. case_bool_decide as E7; [|done]. cbn [negb]. rewrite E3 in *.
    destruct (isRevoked ctx (resolvedKid ctx) s) as [s1 [[]|]]; [done| |done]. intros [= <- <- <-]. rewrite E7.
    split; [|done]. split; try done; [by rewrite Eh, <- E3|]. destruct (aud claims); [|done]. cbn in E4. by apply bool_decide_eq_true in E4 as ->.
  - intros [Hc (Hr & -> & ->)]. destruct Hc as [Hk Hs Ha Hadm Hsc Hsub]. destruct (jwtPart tok 0) as [h|]; [|done]. cbn [rbind] in Hk.
    assert (kid_of h = resolvedKid ctx) as -> by congruence. rewrite (bool_decide_false (resolvedKid ctx = [])) by by apply kid_shape_nonempty.
    rewrite Hs. rewrite (bool_decide_true (_ = _)) by done. cbn [negb]. rewrite Ha. cbn [is_audience]. rewrite (bool_decide_true (audience ctx = _)) by done.
    cbn [negb]. rewrite bool_decide_false by done. rewrite Hsc. cbn [negb]. rewrite (bool_decide_true (sub claims = _)) by done. cbn [negb].
    by rewrite Hr, Hsub.
Qed.

(** C36: A request is granted exactly when it has a token and a proof that the SDK verifies under the
    authority's key for this audience, issuer, method and URL; the token names, in the shape of a key
    identifier, the key that verified it, which is not revoked; it is for this audience alone, carries no
    admin scope and one that covers the required one; and it is for the bundle this object is pinned to,
    from which the subject is derived. *)
Theorem bundle_granted_iff {S E} (ctx : BundleAuthContext S E) s s2 fp who :
  authenticateBundleRequest ctx s = (s2, Ok (Granted fp who)) <->
  exists tok prf key claims s1,
    token ctx = Some tok /\ tok <> [] /\ proof ctx = Some prf /\ prf <> [] /\ import_key (notmePub ctx) = Some key /\
    verifyDPoPToken (checkAndRecordJti ctx) tok prf (htm ctx) (htu ctx) key (audience ctx) (issuer ctx) CLOCK_TOLERANCE s = (s1, Verified claims) /\
    cleared ctx tok claims /\ isRevoked ctx (resolvedKid ctx) s1 = (s2, Ok false) /\
    who = expectedSub ctx /\ fp = deriveSubjectFp (expectedSub ctx).
Proof.
  unfold authenticateBundleRequest, deny, ret. split.
  - destruct (token ctx) as [[|t0 tok]|]; [done| |done]. destruct (proof ctx) as [[|p0 prf]|]; [done| |done].
    destruct (import_key _) as [key|]; [|done]. destruct (verifyDPoPToken _ _ _ _ _ _ _ _ _ s) as [s1 [claims|c|]] eqn:Ev; [|done..].
    intros (Hc & Hr & -> & ->)%cloister_checks_iff. by exists (t0 :: tok), (p0 :: prf), key, claims, s1.
  - intros (tok & prf & key & claims & s1 & -> & Ht & -> & Hp & -> & Hv & Hc & Hr & -> & ->).
    destruct tok as [|t0 tok]; [done|]. destruct prf as [|p0 prf]; [done|]. rewrite Hv. by apply cloister_checks_iff.
Qed.

Lemma granted_records `{!SdkLaws} {S E} (ctx : BundleAuthContext S E) s s2 fp who :
  authenticateBundleRequest ctx s = (s2, Ok (Granted fp who)) ->
  exists prf jti s1, proof ctx = Some prf /\ proof_jti prf = Some jti /\ checkAndRecordJti ctx jti s = (s1, Ok false) /\
    isRevoked ctx (resolvedKid ctx) s1 = (s2, Ok false).
Proof.
  intros Hg. unfold authenticateBundleRequest, deny, ret in Hg.
  destruct (token ctx) as [[|t0 tok]|]; [done| |done]. destruct (proof ctx) as [[|p0 prf]|]; [done| |done].
  destruct (import_key _) as [key|]; [|done]. destruct (verifyDPoPToken _ _ _ _ _ _ _ _ _ s) as [s1 [claims|c|]] eqn:Ev; [|done..].
  apply cloister_checks_iff in Hg as (_ & Hr & _). apply verified_once in Ev as (jti & Hj & Hc). by exists (p0 :: prf), jti, s1.
Qed.

(** A proof is granted at most once: over a ledger that keeps what it records, as its contract asks, two
    requests with one proof are not both granted, whatever tokens, audiences or keys they come with. *)
Theorem proof_granted_once `{!SdkLaws} {S E} (recorded : jsstr -> S -> Prop) (later : S -> S -> Prop) (ctx ctx' : BundleAuthContext S E) s s1 s2 s3 fp fp' who who' :
  (forall c, c = ctx \/ c = ctx' -> forall jti t t' b, checkAndRecordJti c jti t = (t', Ok b) -> (b = true <-> recorded jti t) /\ recorded jti t') ->
  (forall kid t t' r, isRevoked ctx kid t = (t', r) -> later t t') ->
  (forall jti t t', later t t' -> recorded jti t -> recorded jti t') ->
  proof ctx = proof ctx' ->
  authenticateBundleRequest ctx s = (s1, Ok (Granted fp who)) -> later s1 s2 -> authenticateBundleRequest ctx' s2 <> (s3, Ok (Granted fp' who')).
Proof.
  intros Hcheck Hrev Hlater Hp (prf & jti & t & Hprf & Hj & Hc & Hr)%granted_records Hl (prf' & jti' & t' & Hprf' & Hj' & Hc' & _)%granted_records.
  assert (prf' = prf) as -> by congruence. assert (jti' = jti) as -> by congruence.
  apply Hcheck in Hc as [_ Hrec]; [|by left]. apply Hcheck in Hc' as [[_ Hn] _]; [|by right].
  discriminate Hn. eauto.
Qed.

(** The subject is one that the vault object accepts. *)
Lemma subject_is_accepted `{VaultStore.Envelope} s (v : VaultStore.T) : (VaultStore.assertSubjectFp (deriveSubjectFp s) v).2 = Ok tt.
Proof.
  unfold VaultStore.assertSubjectFp, deriveSubjectFp. set (h := toHex _).
  assert (Hh : Vault.has_control (js "sha256:" ++ h) = false); [|by destruct (js "sha256:" ++ h) eqn:E; [|rewrite Hh]].
  unfold Vault.has_control. rewrite existsb_app. apply orb_false_iff. split; [reflexivity|].
  pose proof (toHex_units (take 12 (sha256 (utf8_encode s)))) as Hu. fold h in Hu. clearbody h. induction h as [|c h IH]; [done|].
  cbn [forallb existsb] in *. apply andb_prop in Hu as [Hc Hu]. rewrite IH by done. unfold is_hex_unit in Hc. lia.
Qed.
End facts.

(** ** A closed example: an SDK that accepts every token, for a proof that is its own [jti] *)

Section demo.
Definition demo_claims : VerifiedTokenClaims := mkClaims (js "rosary") (AudText (js "cloister")) (js "openid  vault:proxy:*").

#[local] Instance demo_sdk : Sdk :=
  {| CryptoKey := bytes; import_key := fun k => if decide (length k = 32%nat) then Some k else None; base64urlDecode := Base64.b64decode;
     verifyDPoPToken := fun S E check _ proof _ _ _ _ _ _ s =>
       match check proof s with
       | (s', Ok false) => (s', Verified demo_claims)
       | (s', Ok true) => (s', VerificationError (js "PROOF_REPLAY"))
       | (s', Throw _) => (s', OtherError)
       end |}.

#[local] Instance demo_sdk_laws : SdkLaws.
Proof.
  refine {| proof_jti := Some |}. intros S E check token proof method url key audience issuer tolerance s s' claims. cbn.
  destruct (check proof s) as [s1 [[]|]] eqn:Ec; [done| |done]. intros [= <- _]. by exists proof.
Defined.

#[local] Instance demo_sha : Sha256 := fun bs => bs ++ repeat Byte.x07 32.

Definition demo_kid : jsstr := js "9408457aefd071ce".
Definition demo_header (kid : jsstr) : jsstr := Base64.b64encode (utf8_encode (json_stringify (JObj [(js "kid", JStr kid)]))).
Definition demo_check (jti : jsstr) : M (list jsstr) Empty_set bool :=
  fun seen => if bool_decide (jti ∈ seen) then (seen, Ok true) else (jti :: seen, Ok false).

Lemma demo_check_records jti t t' b : demo_check jti t = (t', Ok b) -> (b = true <-> jti ∈ t) /\ jti ∈ t'.
Proof.
  unfold demo_check. case_bool_decide as Hin; intros [= <- <-]; [done|]. split; [done|by left].
Qed.

(** A request with this token and proof, for this key identifier, bundle and scope. *)
Definition demo_request (kid resolved bundle scope : jsstr) (revoked : list jsstr) : BundleAuthContext (list jsstr) Empty_set :=
  mkContext (Some (demo_header kid ++ js ".e30.e30")) (Some (js "p1")) (repeat Byte.x01 32) resolved bundle (js "cloister") scope
    (js "https://auth.notme.bot") (js "POST") (js "https://cloister.example/vault/anthropic") demo_check
    (fun k seen => (seen, Ok (bool_decide (k ∈ revoked)))).

Example demo_granted :
  authenticateBundleRequest (demo_request demo_kid demo_kid (js "rosary") (js "vault:proxy:anthropic") []) [] =
  ([js "p1"], Ok (Granted (deriveSubjectFp (js "rosary")) (js "rosary"))).
Proof. vm_compute. reflexivity. Qed.

(** Each denial, and that the ledger has recorded the proof all the same. *)
Example demo_denials :
  map (fun c => authenticateBundleRequest c [])
    [demo_request (js "other-kid") (js "other-kid") (js "rosary") (js "vault:proxy:anthropic") [];
     demo_request demo_kid (js "ffffffffffffffff") (js "rosary") (js "vault:proxy:anthropic") [];
     demo_request demo_kid demo_kid (js "rosary") (js "vault:admin") [];
     demo_request demo_kid demo_kid (js "mache") (js "vault:proxy:anthropic") [];
     demo_request demo_kid demo_kid (js "rosary") (js "vault:proxy:anthropic") [demo_kid]] =
  map (fun reason => ([js "p1"], Ok (Denied (js reason))))
    ["kid shape (not 16/32 lowercase hex)"; "kid mismatch (header != resolving key)"; "scope";
     "sub mismatch (token not for this bundle's DO)"; "revoked"]%string.
Proof. vm_compute. reflexivity. Qed.

Lemma proof_granted_once_witness :
  let c := demo_request demo_kid demo_kid (js "rosary") (js "vault:proxy:anthropic") [] in
  let fp := deriveSubjectFp (js "rosary") in
  authenticateBundleRequest c [] = ([js "p1"], Ok (Granted fp (js "rosary"))) /\
  authenticateBundleRequest c [js "p1"] <> ([js "p1"], Ok (Granted fp (js "rosary"))).
Proof.
  assert (E : authenticateBundleRequest (demo_request demo_kid demo_kid (js "rosary") (js "vault:proxy:anthropic") []) [] =
              ([js "p1"], Ok (Granted (deriveSubjectFp (js "rosary")) (js "rosary")))) by (vm_compute; reflexivity).
  split; [exact E|].
  refine (proof_granted_once (fun jti seen => jti ∈ seen) (fun seen seen' => seen = seen') _ _ [] [js "p1"] [js "p1"] [js "p1"] _ _ _ _ _ _ _ eq_refl E eq_refl).
  - intros c Hc jti t t' b E'. assert (E2 : demo_check jti t = (t', Ok b)) by (destruct Hc as [-> | ->]; exact E'). by apply demo_check_records.
  - intros kid t t' r [= <- _]. done.
  - by intros jti t t' <-.
Defined.
End demo.

End BundleAuth.
