(* ===== verification/Discovery.v ===== *)
(** The published documents of an actor: which fingerprint it has (src/routes/actor-fingerprint.ts), the
    Interlace discovery document (src/routes/well-known.ts), and the archive of its key epochs
    (src/routes/ca-bundle.ts).

    The trust store is the one of TrustStore.v, each call to it with a fate.  What the URL parser and the
    URL pattern read of a request are arguments. *)
From S2P Require Import Prelude JsString Sql Platform Json JsonText ConfinementJson McpProxy Gateway Receipts TrustStore.

Module Discovery.
Import JsonText.

(** A reply with a body that is text: its status, its headers in the order they are written. *)
Record Response := mkResponse { status : Z; headers : list (jsstr * jsstr); body : jsstr }.
Definition header (n v : string) : jsstr * jsstr := (js n, js v).
Definition plain (status : Z) (text : string) : Response := mkResponse status [] (js text).

(** ** The manifest's identity *)

Record Actor := mkActor {
  fingerprint : jsstr; pubkeyBinding : jsstr; algorithm : jsstr; attestationRepo : jsstr; tunnelEndpoint : jsstr;
}.
Record InterlacePolicy := mkPolicy { maxCertLifetimeSeconds : Z; requireInterlock : bool; minAlgorithm : jsstr }.

(** What these routes read of a manifest; the namespace is [metadata?.metaNamespace] when it is a string. *)
Record Manifest := mkManifest { actor : Actor; policy : InterlacePolicy; metaNamespace : option jsstr; routes : list Gateway.Route }.

(** The string bindings of the environment. *)
Definition Env : Type := jsstr -> option jsstr.

(** ** actor-fingerprint.ts *)

Definition ACTOR_FP_BINDING : jsstr := js "INTERLACE_ACTOR_FP".

(** /^sha256:[0-9a-f]{64}$/ *)
Definition FINGERPRINT_RE (s : jsstr) : bool := starts_with (js "sha256:") s && isDigest (drop 7 s).

Record ActorFingerprintError := mkFpError { message : jsstr }.

Definition resolveActorFingerprint (manifest : Manifest) (env : Env) : result ActorFingerprintError (option jsstr) :=
  match fingerprint (actor manifest) with
  | (_ :: _) as declared => Ok (Some declared)
  | [] =>
      match env ACTOR_FP_BINDING with
      | None => Ok None
      | Some fromEnv =>
          let trimmed := trim fromEnv in
          if bool_decide (trimmed = []) then Ok None
          else if FINGERPRINT_RE trimmed then Ok (Some trimmed)
          else Throw (mkFpError (ACTOR_FP_BINDING ++ js " is set but malformed: expected " ++ quote (js "sha256:<64 lowercase hex>") ++
                                 js ", got " ++ quote (take 80 trimmed)))
      end
  end.

Definition fingerprintFromPubkey `{Sha256} (pubkey : bytes) : jsstr := js "sha256:" ++ toHex (sha256 pubkey).

(** ** well-known.ts *)

(** [undefined] is [None]. *)
Definition readEnvString (env : Env) (binding : jsstr) : option jsstr :=
  match binding with [] => None | _ => env binding end.

Definition fld (n : string) (v : Json) : jsstr * Json := (js n, v).
Definition obj (l : list (jsstr * Json)) : Json := JObj l.
Definition or_null {A} (f : A -> Json) (o : option A) : Json := match o with Some a => f a | None => JNull end.
(** A field that is left out when it is empty. *)
Definition optional (name : string) (v : Json) (keep : bool) : list (jsstr * Json) := if keep then [fld name v] else [].
Definition nonempty (o : option jsstr) : bool := match o with Some (_ :: _) => true | _ => false end.

Definition pickTools (b : Gateway.Backend) : list McpProxy.McpToolSpec := Gateway.tools_of (Gateway.b_kind b).
Definition scopeFor (toolName _prefix : jsstr) : jsstr := toolName ++ js ":*".

Definition backendCapabilities (b : Gateway.Backend) : list Json :=
  map (fun tool => obj [fld "name" (JStr (McpProxy.s_name tool)); fld "description" (JStr (McpProxy.s_description tool));
                        fld "scopes" (JArr [JStr (scopeFor (McpProxy.s_name tool) (Gateway.handlesPrefix b))])]) (pickTools b).
Definition routeCapabilities (r : Gateway.Route) : list Json :=
  match Gateway.kind r with Gateway.mcp backends => concat (map backendCapabilities backends) | _ => [] end.

Definition status_text (s : Receipts.BundleStatus) : jsstr := match s with Receipts.active => js "active" | Receipts.retired => js "retired" end.

Definition toEpochDoc (e : Receipts.ActorCaBundleEntry) : Json :=
  obj ([fld "epoch" (JNum (Receipts.epoch e)); fld "pubkey" (JStr (Receipts.signing_key_pubkey_b64u e));
        fld "status" (JStr (status_text (Receipts.bundle_status e))); fld "issued_at_ms" (JNum (Receipts.issued_at_ms e));
        fld "retired_at_ms" (or_null JNum (Receipts.retired_at_ms e)); fld "compromise_notice" (or_null JStr (Receipts.compromise_notice_b64u e))] ++
       optional "external_anchor_uri" (or_null JStr (Receipts.external_anchor_uri e)) (nonempty (Receipts.external_anchor_uri e))).

Definition toPolicyDoc (p : InterlacePolicy) : Json :=
  obj [fld "max_cert_lifetime_seconds" (JNum (maxCertLifetimeSeconds p)); fld "require_interlock" (JBool (requireInterlock p));
       fld "min_algorithm" (JStr (minAlgorithm p))].

Definition actorDoc (a : Actor) (masterKeyB64 : jsstr) : Json :=
  obj ([fld "fingerprint" (JStr (fingerprint a)); fld "master_public_key" (JStr masterKeyB64); fld "algorithm" (JStr (algorithm a))] ++
       optional "attestation_repo" (JStr (attestationRepo a)) (nonempty (Some (attestationRepo a))) ++
       optional "tunnel" (obj [fld "endpoint" (JStr (tunnelEndpoint a))]) (nonempty (Some (tunnelEndpoint a)))).

(** [epochDocs.find((e) => e.status === "active")?.epoch] *)
Definition current_epoch (epochs : list Receipts.ActorCaBundleEntry) : option Z :=
  Receipts.epoch <$> find (fun e => bool_decide (Receipts.bundle_status e = Receipts.active)) epochs.

Definition capabilities (m : Manifest) : list Json := concat (map routeCapabilities (routes m)).

Definition synthesize (m : Manifest) (env : Env) (epochs : list Receipts.ActorCaBundleEntry) : Json :=
  obj [fld "version" (JStr (js "0.2.0"));
       fld "actor" (actorDoc (actor m) (default [] (readEnvString env (pubkeyBinding (actor m)))));
       fld "capabilities" (JArr (capabilities m));
       fld "policy" (toPolicyDoc (policy m));
       fld "current_epoch" (or_null JNum (current_epoch epochs));
       fld "epochs" (JArr (map toEpochDoc epochs))].

Definition weakEtag (m : Manifest) (epochs : list Receipts.ActorCaBundleEntry) : jsstr :=
  js "W/" ++ [34] ++ fingerprint (actor m) ++ js "-" ++ js_dec (Z.of_nat (length (capabilities m))) ++ js "-" ++
  match current_epoch epochs with Some e => js_dec e | None => js "none" end ++ [34].

(** The epochs of the store, or none when there is no binding or the call fails; [bound] says whether the
    environment has the binding. *)
Definition fetchEpochSummaries {E} (bound : bool) (fate : rpc) : M TrustStore.T E (list Receipts.ActorCaBundleEntry) := fun s =>
  if bound then
    match remote TrustStore.SqlStatementFailed fate TrustStore.listCaBundleEpochs s with
    | (s, Ok epochs) => (s, Ok epochs)
    | (s, Throw _) => (s, Ok [])
    end
  else (s, Ok []).

Definition INTERLACE_HEADERS : list (jsstr * jsstr) :=
  [header "content-type" "application/json; charset=utf-8"; header "cache-control" "public, max-age=300, must-revalidate"].

Definition interlace_match (routePath method pathname : jsstr) : bool :=
  bool_decide (method = js "GET") && bool_decide (pathname = routePath).

Definition interlace_handle (m : Manifest) (env : Env) (bound : bool) (fate : rpc) : M TrustStore.T ActorFingerprintError Response :=
  match resolveActorFingerprint m env with
  | Throw e => throw e
  | Ok None => ret (plain 404 "interlace discovery disabled")
  | Ok (Some _) =>
      let* epochs := fetchEpochSummaries bound fate in
      ret (mkResponse 200 (INTERLACE_HEADERS ++ [(js "etag", weakEtag m epochs)]) (ConfinementJson.pretty 0 (synthesize m env epochs)))
  end.

(** ** ca-bundle.ts *)

Definition PATTERN_LIST : jsstr := js "/interlace/ca-bundle".

Definition list_entry (e : Receipts.ActorCaBundleEntry) : Json :=
  obj [fld "epoch" (JNum (Receipts.epoch e)); fld "status" (JStr (status_text (Receipts.bundle_status e)));
       fld "issued_at_ms" (JNum (Receipts.issued_at_ms e)); fld "retired_at_ms" (or_null JNum (Receipts.retired_at_ms e));
       fld "signing_key_pubkey" (JStr (Receipts.signing_key_pubkey_b64u e));
       fld "external_anchor_uri" (or_null JStr (Receipts.external_anchor_uri e));
       fld "has_compromise_notice" (JBool (bool_decide (is_Some (Receipts.compromise_notice_b64u e))))].

Definition entry_body (e : Receipts.ActorCaBundleEntry) : Json :=
  obj ([fld "version" (JStr (js "v1")); fld "epoch" (JNum (Receipts.epoch e)); fld "status" (JStr (status_text (Receipts.bundle_status e)));
        fld "signing_key_pubkey" (JStr (Receipts.signing_key_pubkey_b64u e)); fld "issued_at_ms" (JNum (Receipts.issued_at_ms e));
        fld "retired_at_ms" (or_null JNum (Receipts.retired_at_ms e)); fld "external_anchor_uri" (or_null JStr (Receipts.external_anchor_uri e))] ++
       optional "cert_der" (or_null JStr (Receipts.cert_der_b64u e)) (bool_decide (is_Some (Receipts.cert_der_b64u e))) ++
       optional "compromise_notice" (or_null JStr (Receipts.compromise_notice_b64u e)) (bool_decide (is_Some (Receipts.compromise_notice_b64u e)))).

Definition jsonResponse (body : Json) (status : Z) : Response :=
  mkResponse status [header "content-type" "application/json; charset=utf-8"; header "cache-control" "public, max-age=60"] (ConfinementJson.pretty 0 body).

Definition notFound : Response :=
  mkResponse 404 [header "content-type" "application/json; charset=utf-8"; header "cache-control" "no-store"]
    (json_stringify (obj [fld "version" (JStr (js "v1")); fld "error" (JStr (js "not_found"))])).

(** The call to the store rejects; a number above the safe integers, which a JavaScript number rounds, is
    outside the model.  (A text that is no canonical decimal is not the text of the rounded number
    either.) *)
Inductive bundle_error := StoreThrew | OutsideModel.

Definition bundle_match (method pathname : jsstr) (pattern_test : bool) : bool :=
  if negb (bool_decide (method = js "GET")) then false
  else if bool_decide (pathname = PATTERN_LIST) then true else pattern_test.

Definition trust {A} (m : M TrustStore.T TrustStore.exn A) (fate : rpc) : M TrustStore.T bundle_error A := fun s =>
  match remote TrustStore.SqlStatementFailed fate m s with
  | (s, Ok a) => (s, Ok a)
  | (s, Throw _) => (s, Throw StoreThrew)
  end.

(** The pattern's group: what it has of the request, [None] when it does not match. *)
Definition bundle_handle (pathname : jsstr) (group : option jsstr) (fate : rpc) : M TrustStore.T bundle_error Response :=
  if bool_decide (pathname = PATTERN_LIST) then
    let* entries := trust TrustStore.listCaBundleEpochs fate in
    ret (jsonResponse (obj [fld "version" (JStr (js "v1")); fld "epochs" (JArr (map list_entry entries))]) 200)
  else
    match group with
    | None | Some [] => ret notFound
    | Some epochRaw =>
        match parse_int epochRaw with
        | NaN | Infinite _ => ret notFound
        | Int epoch =>
            if (epoch <? 0) || negb (bool_decide (js_dec epoch = epochRaw)) then ret notFound
            else if MAX_SAFE_INTEGER <? epoch then throw OutsideModel
            else
              let* entry := trust (TrustStore.getCaBundle epoch) fate in
              match entry with
              | None => ret notFound
              | Some e => ret (jsonResponse (entry_body e) 200)
              end
        end
    end.

(** ** What is shown *)

Lemma parse_int_dec e : 0 <= e <= MAX_SAFE_INTEGER -> parse_int (js_dec e) = Int e.
Proof.
  intros He. destruct (js_dec_decimal e) as (ds & (Hf & Hne & Hd & _) & ->). rewrite (proj2 (Z.ltb_ge e 0)) by lia.
  assert (Ht : trim_start ds = ds).
  { apply trim_start_no_space. rewrite forallb_forall in *. intros c Hc%Hf. unfold js_space, is_digit in *.
    apply negb_true_iff, bool_decide_eq_false. rewrite !elem_of_cons, elem_of_nil. lia. }
  unfold parse_int. rewrite Ht. destruct ds as [|c ds]; [done|]. cbn [forallb] in Hf. apply andb_prop in Hf as [Hc Hf].
  pose proof Hc as Hc'. unfold is_digit in Hc'. rewrite (proj2 (Z.eqb_neq c 45)), (proj2 (Z.eqb_neq c 43)) by lia. rewrite Hc, Hd.
  unfold MAX_SAFE_INTEGER in He. rewrite (proj2 (Z.leb_gt INFINITE (Z.abs e))) by (rewrite Z.abs_eq by lia; unfold INFINITE; lia).
  by rewrite Z.abs_eq by lia.
Qed.

Lemma isDigest_trimmed s : isDigest s = true -> forallb (fun c => negb (js_space c)) s = true /\ s <> [].
Proof.
  intros [Hl Hf]%andb_prop. split; [|by intros ->]. rewrite forallb_forall in *. intros c Hc%Hf. unfold js_space, is_hex_unit in *.
  apply negb_true_iff, bool_decide_eq_false. rewrite !elem_of_cons, elem_of_nil. lia.
Qed.

Lemma trim_no_space s : forallb (fun c => negb (js_space c)) s = true -> trim s = s.
Proof.
  intros Hs. unfold trim. rewrite (trim_start_no_space s) by done. rewrite trim_start_no_space; [by rewrite reverse_involutive|].
  rewrite forallb_forall in *. intros c Hc. apply Hs, list_elem_of_In, elem_of_reverse. by apply list_elem_of_In.
Qed.

(** The fingerprint that is published: the manifest's own, or else the environment's, which is a digest. *)
Theorem fingerprint_iff m env fp : resolveActorFingerprint m env = Ok (Some fp) <->
  fp <> [] /\ (fingerprint (actor m) = fp \/
               fingerprint (actor m) = [] /\ exists v, env ACTOR_FP_BINDING = Some v /\ trim v = fp /\ FINGERPRINT_RE fp = true).
Proof.
  unfold resolveActorFingerprint. destruct (fingerprint (actor m)) as [|c t].
  - destruct (env ACTOR_FP_BINDING) as [v|].
    + case_bool_decide as E; [split; [done|]|destruct (FINGERPRINT_RE (trim v)) eqn:Er; split].
      * intros (Hn & [<-|(_ & v' & [= <-] & Ht & _)]); congruence.
      * intros [= <-]. split; [done|]. right. split; [done|]. by exists v.
      * intros (Hn & [<-|(_ & v' & [= <-] & Ht & _)]); congruence.
      * done.
      * intros (Hn & [<-|(_ & v' & [= <-] & Ht & Hr)]); congruence.
    + split; [done|]. by intros (Hn & [<-|(_ & v' & ? & _)]).
  - split; [intros [= <-]; split; [done|by left]|]. intros (_ & [<-|[? _]]); done.
Qed.

(** The fingerprint that is derived of a key is one the environment may name, with white space or
    without. *)
Theorem derived_fingerprint_resolves `{Sha256Len} m env pubkey :
  fingerprint (actor m) = [] -> env ACTOR_FP_BINDING = Some (fingerprintFromPubkey pubkey) ->
  resolveActorFingerprint m env = Ok (Some (fingerprintFromPubkey pubkey)).
Proof.
  intros Hm He. assert (Hd : isDigest (toHex (sha256 pubkey)) = true) by apply isDigest_sha256.
  apply fingerprint_iff. split; [done|]. right. split; [done|]. eexists. split; [done|].
  unfold fingerprintFromPubkey. split.
  - apply trim_no_space. rewrite forallb_app. apply andb_true_intro. split; [reflexivity|]. by apply isDigest_trimmed.
  - unfold FINGERPRINT_RE. apply andb_true_intro. split; [apply starts_with_iff; by eexists|]. exact Hd.
Qed.

(** A published document only reads the store, whatever becomes of the call; it is a 404 exactly when the
    actor has no fingerprint, and has the store's epochs, or none when they cannot be had. *)
Theorem discovery_degrades m env bound fate s :
  (interlace_handle m env bound fate s).1 = s /\
  (forall r, (interlace_handle m env bound fate s).2 = Ok r ->
     (status r = 404 <-> resolveActorFingerprint m env = Ok None) /\
     (status r <> 404 ->
        let epochs := if bound then match fate with Delivered => Receipts.listActorCaBundleEpochs (TrustStore.actor_ca_bundle s) | _ => [] end else [] in
        body r = ConfinementJson.pretty 0 (synthesize m env epochs))).
Proof.
  unfold interlace_handle, ret, throw. destruct (resolveActorFingerprint m env) as [[fp|]|e].
  - unfold bind, fetchEpochSummaries, remote, TrustStore.listCaBundleEpochs, read. destruct bound, fate;
      (split; [done|]); intros r [= <-]; (split; [split; [by intros [=]|done]|done]).
  - split; [done|]. intros r [= <-]. split; [done|]. by intros Hn.
  - split; [done|]. by intros r [=].
Qed.

(** The current epoch of a document is the latest active epoch of the store, and there is none only when no
    epoch is active. *)
Theorem current_epoch_iff b e : Receipts.bundles_wf b ->
  current_epoch (Receipts.listActorCaBundleEpochs b) = Some e <->
  exists x, b !! e = Some x /\ Receipts.bundle_status x = Receipts.active /\
    forall e' x', b !! e' = Some x' -> Receipts.bundle_status x' = Receipts.active -> e' <= e.
Proof.
  intros Hw. unfold current_epoch.
  set (l := Receipts.listActorCaBundleEpochs b).
  assert (Hs : StronglySorted Receipts.epoch_desc l) by apply (order_by_sorted Receipts.epoch_desc).
  assert (Hl : forall x, x ∈ l <-> exists k, b !! k = Some x).
  { intros x. unfold l, Receipts.listActorCaBundleEpochs. rewrite elem_of_order_by, elem_of_select_where. split; intros (k & Hk); exists k; tauto. }
  assert (Hfind : forall l, StronglySorted Receipts.epoch_desc l ->
    match find (fun e => bool_decide (Receipts.bundle_status e = Receipts.active)) l with
    | Some x => x ∈ l /\ Receipts.bundle_status x = Receipts.active /\ forall y, y ∈ l -> Receipts.bundle_status y = Receipts.active -> Receipts.epoch y <= Receipts.epoch x
    | None => forall y, y ∈ l -> Receipts.bundle_status y <> Receipts.active
    end).
  { clear. induction 1 as [|x l Hs IH Hx]; [by intros y ?%elem_of_nil|]. cbn [find]. case_bool_decide as Ea.
    - split; [by left|]. split; [done|]. intros y [->|Hy]%elem_of_cons _; [done|]. rewrite Forall_forall in Hx. by apply Hx.
    - destruct (find _ l) as [z|].
      + destruct IH as (Hz & Ha & Hm). split; [by right|]. split; [done|]. intros y [->|Hy]%elem_of_cons Hya; [done|]. by apply Hm.
      + intros y [->|Hy]%elem_of_cons; [done|]. by apply IH. }
  specialize (Hfind l Hs). destruct (find _ l) as [x|]; cbn.
  - destruct Hfind as (Hx & Ha & Hm). apply Hl in Hx as (k & Hk). assert (Receipts.epoch x = k) as <- by by apply Hw. split.
    + intros [= <-]. exists x. split; [done|]. split; [done|]. intros e' x' Hk' Ha'. rewrite <- (Hw _ _ Hk'). apply Hm; [|done]. apply Hl. by exists e'.
    + intros (x' & Hk' & Ha' & Hm'). f_equal. apply Z.le_antisymm; [by apply (Hm' _ x)|]. rewrite <- (Hw _ _ Hk'). apply Hm; [|done]. apply Hl. by exists e.
  - split; [done|]. intros (x & Hk & Ha & _). exfalso. apply (Hfind x); [|done]. apply Hl. by exists e.
Qed.

(** Every archived epoch is found under its decimal number and only there, retired or not; every other text,
    and an epoch that is unknown, gets one and the same reply. *)
Theorem archive_is_complete pathname s e : Receipts.bundles_wf (TrustStore.actor_ca_bundle s) ->
  pathname <> PATTERN_LIST -> 0 <= e <= MAX_SAFE_INTEGER ->
  bundle_handle pathname (Some (js_dec e)) Delivered s =
    (s, Ok (match TrustStore.actor_ca_bundle s !! e with Some x => jsonResponse (entry_body x) 200 | None => notFound end)) /\
  (TrustStore.actor_ca_bundle s !! e <> None <-> exists x, x ∈ Receipts.listActorCaBundleEpochs (TrustStore.actor_ca_bundle s) /\ Receipts.epoch x = e) /\
  (forall raw fate, (forall e', 0 <= e' -> raw <> js_dec e') -> bundle_handle pathname (Some raw) fate s = (s, Ok notFound)).
Proof.
  intros Hw Hp He. unfold bundle_handle. rewrite bool_decide_false by done. split; [|split].
  - rewrite parse_int_dec by done. rewrite (proj2 (Z.ltb_ge e 0)) by lia. rewrite bool_decide_true by done. cbn [orb negb].
    rewrite (proj2 (Z.ltb_ge _ _)) by lia. destruct (js_dec e) eqn:E.
    + destruct (js_dec_decimal e) as (ds & (_ & Hne & _) & E'). rewrite (proj2 (Z.ltb_ge e 0)) in E' by lia. congruence.
    + unfold bind, trust, remote, TrustStore.getCaBundle, read, Receipts.getActorCaBundle. by destruct (_ !! e).
  - split.
    + intros Hne. destruct (_ !! e) as [x|] eqn:Ex; [|done]. exists x. split; [|by apply Hw].
      unfold Receipts.listActorCaBundleEpochs. rewrite elem_of_order_by, elem_of_select_where. by exists e.
    + intros (x & Hx & <-). unfold Receipts.listActorCaBundleEpochs in Hx. rewrite elem_of_order_by, elem_of_select_where in Hx.
      destruct Hx as (k & Hk & _). by rewrite (Hw _ _ Hk), Hk.
  - intros raw fate Hraw. destruct raw as [|c raw]; [done|]. destruct (parse_int _) as [| |e']; [done..|].
    destruct (Z.ltb_spec e' 0) as [|Hge]; [done|]. rewrite bool_decide_false; [done|]. intros E. by apply (Hraw e').
Qed.

(** ** Closed examples *)

Section demo.
Definition demo_fp : jsstr := js "sha256:" ++ repeat 97 64.
Definition demo_manifest (fp : jsstr) : Manifest :=
  mkManifest (mkActor fp (js "MASTER_PUB") (js "ed25519") [] []) (mkPolicy 300 false (js "ed25519")) None [Gateway.mkRoute (js "/vault/proxy") (Gateway.vaultProxy [])].
Definition demo_env : Env := fun n =>
  if bool_decide (n = ACTOR_FP_BINDING) then Some (js "  " ++ demo_fp ++ [10]) else if bool_decide (n = js "MASTER_PUB") then Some (js "k+/=") else None.
Definition demo_bundle (e : Z) (st : Receipts.BundleStatus) : Receipts.ActorCaBundleEntry := Receipts.mkBundle e (js "key") None 5 None st None None.
Definition demo_store : TrustStore.T :=
  TrustStore.set_bundles (<[3 := demo_bundle 3 Receipts.active]> (<[4 := demo_bundle 4 Receipts.retired]> (<[2 := demo_bundle 2 Receipts.active]> ∅))) TrustStore.empty.

(** A fingerprint that comes from the environment turns discovery on, and the document it turns on has
    none. *)
Example env_fingerprint_is_lost :
  resolveActorFingerprint (demo_manifest []) demo_env = Ok (Some demo_fp) /\
  match synthesize (demo_manifest []) demo_env [] with
  | JObj m => match assoc (js "actor") m with Some (JObj a) => assoc (js "fingerprint") a | _ => None end
  | _ => None
  end = Some (JStr []).
Proof. split; vm_compute; reflexivity. Qed.

#[local] Instance demo_sha : Sha256 := fun _ => repeat Byte.x07 32.
#[local] Instance demo_sha_len : Sha256Len.
Proof. done. Qed.

Lemma derived_fingerprint_resolves_witness :
  resolveActorFingerprint (demo_manifest []) (fun _ => Some (fingerprintFromPubkey [])) = Ok (Some (fingerprintFromPubkey [])).
Proof. by apply derived_fingerprint_resolves. Defined.

Lemma demo_store_wf : Receipts.bundles_wf (TrustStore.actor_ca_bundle demo_store).
Proof.
  intros k x. cbn. rewrite !lookup_insert. repeat case_decide; subst; by intros [= <-].
Qed.

Lemma current_epoch_iff_witness :
  current_epoch (Receipts.listActorCaBundleEpochs (TrustStore.actor_ca_bundle demo_store)) = Some 3 /\
  exists x, TrustStore.actor_ca_bundle demo_store !! 3 = Some x /\ Receipts.bundle_status x = Receipts.active.
Proof.
  assert (E : current_epoch (Receipts.listActorCaBundleEpochs (TrustStore.actor_ca_bundle demo_store)) = Some 3) by (vm_compute; reflexivity).
  split; [exact E|]. destruct (proj1 (current_epoch_iff _ 3 demo_store_wf) E) as (x & Hx & Ha & _). by exists x.
Defined.

Lemma archive_is_complete_witness :
  bundle_handle (js "/interlace/ca-bundle/4") (Some (js "4")) Delivered demo_store = (demo_store, Ok (jsonResponse (entry_body (demo_bundle 4 Receipts.retired)) 200)) /\
  bundle_handle (js "/interlace/ca-bundle/9") (Some (js "9")) Delivered demo_store = (demo_store, Ok notFound).
Proof.
  split; [exact (proj1 (archive_is_complete (js "/interlace/ca-bundle/4") demo_store 4 demo_store_wf ltac:(done) ltac:(done)))
         |exact (proj1 (archive_is_complete (js "/interlace/ca-bundle/9") demo_store 9 demo_store_wf ltac:(done) ltac:(done)))].
Defined.

Example other_texts_are_not_found :
  map (fun raw => (bundle_handle (js "/interlace/ca-bundle/x") (Some (js raw)) Delivered demo_store).2) ["04"; "+4"; "4x"; "-4"; "4.0"; "x"]%string =
  replicate 6 (Ok notFound).
Proof. vm_compute. reflexivity. Qed.
End demo.

End Discovery.
