(* ===== verification/UriText.v ===== *)
(** Percent encoding, as the platform does it: [decodeURIComponent], and the parser of
    [URLSearchParams] for queries and form bodies.  The result is that both read what
    [encodeURIComponent] writes. *)
From S2P Require Import Prelude JsString Json JsonText Vault VaultProxy Disclosure.

Module UriText.

(** [decodeURIComponent]; [None] is a [URIError].  The state is the UTF-8 decoder's, inside a run of
    escapes. *)
Fixpoint uri_decode (st : dec_state) (s : jsstr) : option jsstr :=
  match s with
  | [] => match st with Idle => Some [] | Inside _ _ _ _ => None end
  | c :: r =>
      if c =? 37 then
        match r with
        | a :: b :: r' =>
            match JsonText.hex_value a, JsonText.hex_value b with
            | Some x, Some y =>
                let '(ev, st') := dec_step st (16 * x + y) in
                cs ← mapM id ev; t ← uri_decode st' r'; Some (utf16_all cs ++ t)
            | _, _ => None
            end
        | _ => None
        end
      else match st with Idle => cons c <$> uri_decode Idle r | Inside _ _ _ _ => None end
  end.
Definition decodeURIComponent (s : jsstr) : option jsstr := uri_decode Idle s.

(** The percent decoder of a form, over byte values: an escape that is none is kept. *)
Fixpoint percent_decode (s : list Z) : list Z :=
  match s with
  | [] => []
  | c :: r =>
      if c =? 37 then
        match r with
        | a :: b :: r' =>
            match JsonText.hex_value a, JsonText.hex_value b with
            | Some x, Some y => 16 * x + y :: percent_decode r'
            | _, _ => c :: percent_decode r
            end
        | _ => c :: percent_decode r
        end
      else c :: percent_decode r
  end.

(** The part before the first [c], and the part after it. *)
Fixpoint cut (c : Z) (s : list Z) : list Z * list Z :=
  match s with [] => ([], []) | x :: s => if x =? c then ([], s) else let '(a, b) := cut c s in (x :: a, b) end.

Definition form_text (s : list Z) : jsstr :=
  utf16_all (map (default REPLACEMENT) (dec_events Idle (map z2b (percent_decode (map (fun c => if c =? 43 then 32 else c) s))))).

(** [new URLSearchParams(s)], as its list. *)
Definition form_parse (s : jsstr) : list (jsstr * jsstr) :=
  let input := match s with c :: r => if c =? 63 then r else s | [] => [] end in
  map (fun seq => let '(n, v) := cut 61 seq in (form_text n, form_text v))
    (List.filter (fun seq => negb (bool_decide (seq = []))) (split_on 38 (map b2z (utf8_encode input)))).
Definition form_get (name : jsstr) (s : jsstr) : option jsstr := assoc name (form_parse s).

(** ** What is shown *)

Definition escaped_unit (c : Z) : Prop := VaultProxy.uri_unreserved c = true \/ c = 37 \/ is_digit c = true \/ 65 <= c <= 70.

Lemma hex_upper_value n : 0 <= n < 16 -> JsonText.hex_value (VaultProxy.hex_upper n) = Some n /\ escaped_unit (VaultProxy.hex_upper n).
Proof.
  unfold VaultProxy.hex_upper, JsonText.hex_value, escaped_unit, is_digit. intros Hn. destruct (Z.ltb_spec n 10).
  - split; [|right; right; left; lia]. replace ((48 <=? 48 + n) && (48 + n <=? 57)) with true by lia. f_equal. lia.
  - split; [|do 3 right; lia]. replace ((48 <=? 55 + n) && (55 + n <=? 57)) with false by lia.
    replace ((97 <=? 55 + n) && (55 + n <=? 102)) with false by lia. replace ((65 <=? 55 + n) && (55 + n <=? 70)) with true by lia. f_equal. lia.
Qed.

Lemma unreserved_ascii c : VaultProxy.uri_unreserved c = true -> 0 <= c < 128 /\ c <> 37 /\ c <> 38 /\ c <> 61 /\ c <> 43 /\ c <> 63.
Proof.
  unfold VaultProxy.uri_unreserved, Vault.is_alnum. intros [H|H]%orb_true_iff; [unfold is_digit in *; lia|].
  apply bool_decide_eq_true in H. revert c H. apply Forall_forall. vm_compute. repeat (constructor; [repeat split; discriminate|]). constructor.
Qed.

Lemma b2z_halves b : 0 <= b2z b / 16 < 16 /\ 0 <= b2z b mod 16 < 16 /\ 16 * (b2z b / 16) + b2z b mod 16 = b2z b.
Proof.
  pose proof (b2z_range b). split; [|split]; [split; [apply Z.div_pos; lia|apply Z.div_lt_upper_bound; lia]|apply Z.mod_pos_bound; lia|].
  symmetry. apply Z.div_mod. lia.
Qed.

Lemma uri_decode_percent st b rest : uri_decode st (VaultProxy.percent b ++ rest) =
  (let '(ev, st') := dec_step st (b2z b) in cs ← mapM id ev; t ← uri_decode st' rest; Some (utf16_all cs ++ t)).
Proof.
  destruct (b2z_halves b) as (H1 & H2 & E). cbn [VaultProxy.percent app uri_decode]. change (37 =? 37) with true. cbn [andb].
  rewrite (proj1 (hex_upper_value _ H1)), (proj1 (hex_upper_value _ H2)), E. done.
Qed.


Lemma bind_some {A} (o : option A) : (o ≫= fun t => Some t) = o.
Proof. by destruct o. Qed.

#[local] Opaque VaultProxy.percent.
#[local] Arguments uri_decode : simpl never.
#[local] Arguments utf16_all : simpl never.

(** One escape through the decoder. *)
Ltac uri_byte := rewrite uri_decode_percent, b2z_z2b_small by lia; unfold dec_step, dec_start; z_case; rewrite ?bind_some.

Lemma uri_decode_scalar c rest : is_scalar c ->
  uri_decode Idle (concat (map VaultProxy.percent (utf8_of c)) ++ rest) = (t ← uri_decode Idle rest; Some (utf16_of c ++ t)).
Proof.
  intros [Hr Hs]. unfold utf8_of.
  pose proof (div64_split c 1 ltac:(lia) ltac:(lia)) as H1.
  pose proof (div64_split c 64 ltac:(lia) ltac:(lia)) as H2.
  pose proof (div64_split c 4096 ltac:(lia) ltac:(lia)) as H3.
  rewrite Z.div_1_r in H1. change (64 * 1) with 64 in *. change (64 * 64) with 4096 in *. change (64 * 4096) with 262144 in *.
  pose proof (Z.mod_pos_bound c 64 ltac:(lia)). pose proof (Z.mod_pos_bound (c / 64) 64 ltac:(lia)).
  pose proof (Z.mod_pos_bound (c / 4096) 64 ltac:(lia)).
  assert (Hfin : forall x, x = c -> (t ← uri_decode Idle rest; Some (utf16_all [x] ++ t)) = (t ← uri_decode Idle rest; Some (utf16_of c ++ t))).
  { intros x ->. unfold utf16_all. cbn [map concat]. by rewrite app_nil_r. }
  destruct (Z.ltb_spec c 128).
  { cbn [map concat]. rewrite <- ?app_assoc, ?app_nil_l.
    uri_byte. by apply Hfin. }
  destruct (Z.ltb_spec c 2048).
  { cbn [map concat]. rewrite <- ?app_assoc, ?app_nil_l.
    uri_byte.
    uri_byte. apply Hfin. lia. }
  destruct (Z.ltb_spec c 65536); cbn [map concat]; rewrite <- ?app_assoc, ?app_nil_l.
  - uri_byte; uri_byte; uri_byte; apply Hfin; lia.
  - uri_byte; uri_byte; uri_byte; uri_byte; apply Hfin; lia.
Qed.

#[local] Transparent VaultProxy.percent.

Lemma uri_decode_plain c s : c <> 37 -> uri_decode Idle (c :: s) = cons c <$> uri_decode Idle s.
Proof. intros Hc. unfold uri_decode at 1. fold uri_decode. by rewrite (proj2 (Z.eqb_neq c 37)). Qed.

(** What a scalar becomes. *)
Definition encode_scalar (c : Z) : jsstr := if VaultProxy.uri_unreserved c then [c] else concat (map VaultProxy.percent (utf8_of c)).

Lemma encode_spec s e : VaultProxy.encodeURIComponent s = Some e ->
  well_formed s = true /\ e = concat (map encode_scalar (scalars s)).
Proof. unfold VaultProxy.encodeURIComponent. destruct (well_formed s); [|done]. by intros [= <-]. Qed.

Lemma percent_units b : Forall escaped_unit (VaultProxy.percent b).
Proof.
  destruct (b2z_halves b) as (H1 & H2 & _). unfold VaultProxy.percent.
  constructor; [right; by left|]. constructor; [by apply hex_upper_value|]. constructor; [by apply hex_upper_value|]. constructor.
Qed.

Lemma encoded_units s e : VaultProxy.encodeURIComponent s = Some e -> Forall escaped_unit e.
Proof.
  intros [_ ->]%encode_spec. apply Forall_concat, Forall_map, Forall_forall. intros c _. cbn. unfold encode_scalar.
  destruct (VaultProxy.uri_unreserved c) eqn:E; [constructor; [by left|constructor]|].
  apply Forall_concat, Forall_map, Forall_forall. intros b _. apply percent_units.
Qed.

Lemma escaped_not c : escaped_unit c -> 0 <= c < 128 /\ c <> 38 /\ c <> 61 /\ c <> 43 /\ c <> 63.
Proof.
  intros [H|[->|[H|H]]]; [|lia|unfold is_digit in H; lia|lia]. apply unreserved_ascii in H. lia.
Qed.

Lemma encoded_ascii s e : VaultProxy.encodeURIComponent s = Some e -> is_ascii e.
Proof. intros H%encoded_units. eapply Forall_impl; [exact H|]. intros c ?%escaped_not. cbn. lia. Qed.

(** [decodeURIComponent] undoes [encodeURIComponent]. *)
Theorem decode_encode s e : VaultProxy.encodeURIComponent s = Some e -> decodeURIComponent e = Some s.
Proof.
  intros [Hw ->]%encode_spec. destruct (well_formed_scalars s Hw) as [HF HE]. rewrite <- HE at 2. clear HE Hw. unfold decodeURIComponent.
  induction HF as [|c cs Hc _ IH]; [done|]. cbn [map concat]. unfold encode_scalar at 1.
  destruct (VaultProxy.uri_unreserved c) eqn:E.
  - apply unreserved_ascii in E as (Hr & Hp & _). unfold utf16_all in *. cbn [app map concat].
    rewrite uri_decode_plain by done. rewrite IH. cbn. by rewrite utf16_of_scalars_low by lia.
  - rewrite uri_decode_scalar by done. by rewrite IH.
Qed.

Lemma percent_decode_percent b rest : percent_decode (VaultProxy.percent b ++ rest) = b2z b :: percent_decode rest.
Proof.
  destruct (b2z_halves b) as (H1 & H2 & E). cbn [VaultProxy.percent app percent_decode]. change (37 =? 37) with true. cbn [andb].
  by rewrite (proj1 (hex_upper_value _ H1)), (proj1 (hex_upper_value _ H2)), E.
Qed.

(** A form's decoder reads a component, too. *)
Lemma form_text_encode s e : VaultProxy.encodeURIComponent s = Some e -> form_text e = s.
Proof.
  intros He. pose proof (encoded_units _ _ He) as Hu. apply encode_spec in He as [Hw ->].
  destruct (well_formed_scalars s Hw) as [HF HE]. rewrite <- HE at 2. clear HE Hw. unfold form_text.
  replace (map (fun c => if c =? 43 then 32 else c) (concat (map encode_scalar (scalars s)))) with (concat (map encode_scalar (scalars s))).
  2: { symmetry. clear -Hu. induction Hu as [|c l Hc _ IH]; [done|]. cbn [map]. rewrite IH. f_equal. apply escaped_not in Hc.
       rewrite (proj2 (Z.eqb_neq c 43)) by lia. done. }
  assert (E : map z2b (percent_decode (concat (map encode_scalar (scalars s)))) = concat (map utf8_of (scalars s))).
  { clear Hu. induction HF as [|c cs Hc _ IH]; [done|]. cbn [map concat]. unfold encode_scalar at 1.
    destruct (VaultProxy.uri_unreserved c) eqn:E.
    - apply unreserved_ascii in E as (Hr & Hp & _). cbn [app percent_decode]. rewrite (proj2 (Z.eqb_neq c 37)) by done. cbn [map]. rewrite IH.
      unfold utf8_of at 2. by rewrite (proj2 (Z.ltb_lt c 128)) by lia.
    - rewrite <- IH. generalize (utf8_of c). intros bs. induction bs as [|b bs IHb]; [done|]. cbn [map concat].
      rewrite <- app_assoc, percent_decode_percent. cbn [map app]. by rewrite z2b_b2z, IHb. }
  rewrite E, dec_utf8_all by done. rewrite map_map. cbn. by rewrite map_id.
Qed.

Lemma cut_app c a b : c ∉ a -> cut c (a ++ c :: b) = (a, b).
Proof.
  induction a as [|x a IH]; intros Ha; cbn [app cut]; [by rewrite Z.eqb_refl|]. rewrite not_elem_of_cons in Ha. destruct Ha as [Hx Ha].
  rewrite (proj2 (Z.eqb_neq x c)) by done. by rewrite IH.
Qed.

(** A query of one parameter, as it is built and read. *)
Lemma form_get_query n s e : Forall (fun c => VaultProxy.uri_unreserved c = true) n -> form_text n = n -> VaultProxy.encodeURIComponent s = Some e ->
  form_get n (63 :: n ++ 61 :: e) = Some s.
Proof.
  intros Hn Hnt He. pose proof (encoded_ascii _ _ He) as Ha. pose proof (encoded_units _ _ He) as Hu. unfold form_get, form_parse.
  change (63 =? 63) with true. cbn iota.
  assert (Hna : is_ascii n) by (eapply Forall_impl; [exact Hn|]; intros c ?%unreserved_ascii; cbn; lia).
  assert (Hall : is_ascii (n ++ 61 :: e)) by (apply Forall_app; split; [done|]; constructor; [lia|done]).
  rewrite ascii_utf8, map_map by done.
  assert (Hid : map (fun x => b2z (z2b x)) (n ++ 61 :: e) = n ++ 61 :: e).
  { revert Hall. generalize (n ++ 61 :: e). intros l. induction 1 as [|c l Hc _ IH]; [done|]. cbn [map]. by rewrite IH, b2z_z2b_small by lia. }
  rewrite Hid. rewrite Disclosure.split_on_none.
  - cbn [List.filter map]. rewrite bool_decide_false by (by destruct n). cbn [negb map].
    rewrite cut_app; [|intros Hin; rewrite Forall_forall in Hn; apply Hn, unreserved_ascii in Hin; lia].
    rewrite Hnt, (form_text_encode s e) by done. cbn [assoc]. by rewrite decide_True.
  - rewrite not_elem_of_app, not_elem_of_cons. rewrite Forall_forall in Hn, Hu. split; [|split; [done|]].
    + intros Hin%Hn%unreserved_ascii. lia.
    + intros Hin%Hu%escaped_not. lia.
Qed.
End UriText.
