(* ===== verification/IdentityBridge.v ===== *)
(** The identity bridge (src/routes/well-known-identity.ts): discovery, key set, WebFinger, Nostr and the
    token endpoint, over one actor; and the forwarding of /identity (src/routes/notme-identity.ts).

    The signer behind the [NOTME_JWT] binding is a parameter of the environment; so is, for the
    forwarding, the resolution of a URL against a base.  What is logged is part of an answer. *)
From S2P Require Import Prelude JsString Sql Platform Base64 Json JsonText ConfinementJson VaultProxy Disclosure McpProxy Gateway Receipts TrustStore Discovery UriText.

Module IdentityBridge.
Import JsonText UriText.
Import Discovery (Manifest, Response, mkResponse, header, plain, obj, fld, actor, fingerprint, pubkeyBinding, resolveActorFingerprint).

(** ** The environment *)

(** What the signer's calls come to: an exception with its message, a refusal with its code (any answer
    that is not [ok]), or an answer; a signature that is no byte array is [None]. *)
Inductive key_answer := KeyThrew (detail : jsstr) | KeyRefused (code : option jsstr) | KeyServed (publicRawB64 : jsstr).
Inductive sign_answer := SignThrew (detail : jsstr) | SignRefused (code : option jsstr) | Signed (signature : option bytes).

(** A binding may lack either method. *)
Record Signer := mkSigner { issuerPublicKey : option (jsstr -> key_answer); signJwt : option (jsstr -> jsstr -> jsstr -> sign_answer) }.
Record Env := mkEnv { strings : Discovery.Env; NOTME_JWT : option Signer; now_ms : Z }.

(** What is read of a request: its URL, its content type, and its text, which may fail to arrive. *)
Record Request := mkRequest {
  method : jsstr; protocol : jsstr; host : jsstr; pathname : jsstr; search : jsstr; content_type : option jsstr; text : option jsstr;
}.

Inductive LogEvent :=
  | JwksUnreachable (detail : jsstr) | JwksRefused (code issuer : jsstr)
  | NoSignerBinding | SignerRefused (code issuer : jsstr) | SignerUnreachable (detail : jsstr).

(** An exception of a handler: of the fingerprint, of [atob], or of [encodeURIComponent]. *)
Inductive bridge_error := BadFingerprint (e : Discovery.ActorFingerprintError) | InvalidCharacter | BadUri.
Definition Answer : Type := result bridge_error Response * list LogEvent.
Definition answer (r : Response) : Answer := (Ok r, []).

(** ** Paths *)

Definition PATH_OIDC_DISCOVERY : jsstr := js "/.well-known/openid-configuration".
Definition PATH_JWKS : jsstr := js "/.well-known/jwks.json".
Definition PATH_WEBFINGER : jsstr := js "/.well-known/webfinger".
Definition PATH_NOSTR_NIP05 : jsstr := js "/.well-known/nostr.json".
Definition PATH_OAUTH_TOKEN : jsstr := js "/oauth/token".
Definition ALL_PATHS : list jsstr := [PATH_OIDC_DISCOVERY; PATH_JWKS; PATH_WEBFINGER; PATH_NOSTR_NIP05; PATH_OAUTH_TOKEN].

Definition bridge_match (r : Request) : bool :=
  if negb (bool_decide (pathname r ∈ ALL_PATHS)) then false
  else if bool_decide (pathname r = PATH_OAUTH_TOKEN) then bool_decide (method r = js "POST")
  else bool_decide (method r = js "GET").

(** ** Helpers *)

Definition baseUrl (r : Request) : jsstr := protocol r ++ js "//" ++ host r.

(** An empty binding reads as none. *)
Definition readEnvString (env : Discovery.Env) (binding : jsstr) : option jsstr :=
  match Discovery.readEnvString env binding with Some ((_ :: _) as v) => Some v | _ => None end.

Definition JSON_TYPE : jsstr * jsstr := header "content-type" "application/json; charset=utf-8".
Definition CACHED : jsstr * jsstr := header "cache-control" "public, max-age=300, must-revalidate".
Definition ANY_ORIGIN : jsstr * jsstr := header "access-control-allow-origin" "*".

Definition jsonResponse (body : Json) : Response := mkResponse 200 [JSON_TYPE; CACHED] (ConfinementJson.pretty 0 body).

Definition oauthError (code : string) (description : jsstr) (status : Z) : Response :=
  mkResponse status [JSON_TYPE; header "cache-control" "no-store"]
    (json_stringify (obj [fld "error" (JStr (js code)); fld "error_description" (JStr description)])).

Definition base64StdToBase64Url (s : jsstr) : jsstr := Base64.strip_eq (map Base64.to_url s).
Definition base64StdToHex (s : jsstr) : option jsstr := toHex <$> Base64.atob s.
Definition base64UrlEncodeUtf8 (s : jsstr) : jsstr := base64StdToBase64Url (Base64.btoa (utf8_encode s)).

Definition jwkFor (pubkeyB64 kid : jsstr) : Json :=
  obj [fld "kty" (JStr (js "OKP")); fld "crv" (JStr (js "Ed25519")); fld "x" (JStr (base64StdToBase64Url pubkeyB64));
       fld "kid" (JStr kid); fld "alg" (JStr (js "EdDSA")); fld "use" (JStr (js "sig"))].
Definition jwks (pubkeyB64 kid : jsstr) : Response := jsonResponse (obj [fld "keys" (JArr [jwkFor pubkeyB64 kid])]).

(** ** The handlers *)

Definition handleOidcDiscovery (r : Request) : Answer :=
  let base := baseUrl r in
  answer (jsonResponse (obj
    [fld "issuer" (JStr base); fld "jwks_uri" (JStr (base ++ PATH_JWKS)); fld "token_endpoint" (JStr (base ++ PATH_OAUTH_TOKEN));
     fld "id_token_signing_alg_values_supported" (JArr [JStr (js "EdDSA")]); fld "subject_types_supported" (JArr [JStr (js "public")]);
     fld "response_types_supported" (JArr [JStr (js "id_token")]); fld "grant_types_supported" (JArr [JStr (js "client_credentials")])])).

Section handlers.
Context (manifest : Manifest) (fp : jsstr).

Definition handleJwks (r : Request) (env : Env) : Answer :=
  match NOTME_JWT env ≫= issuerPublicKey with
  | Some ask =>
      match ask (baseUrl r) with
      | KeyThrew detail => (Ok (plain 503 "jwks: signer unreachable"), [JwksUnreachable detail])
      | KeyRefused code => (Ok (plain 503 "jwks: issuer not delegated"), [JwksRefused (default (js "unknown") code) (baseUrl r)])
      | KeyServed publicRawB64 => answer (jwks publicRawB64 fp)
      end
  | None =>
      match readEnvString (strings env) (pubkeyBinding (actor manifest)) with
      | None => answer (plain 503 "jwks: master pubkey binding unset")
      | Some masterB64 => answer (jwks masterB64 fp)
      end
  end.

Definition account (r : Request) : jsstr := js "acct:cluster@" ++ host r.

Definition handleWebFinger (r : Request) : Answer :=
  match form_get (js "resource") (search r) with
  | None | Some [] => answer (plain 400 "webfinger: missing resource parameter")
  | Some resource =>
      if negb (bool_decide (resource = account r)) then answer (plain 404 "webfinger: unknown account")
      else
        match VaultProxy.encodeURIComponent (account r) with
        | None => (Throw BadUri, [])
        | Some encoded =>
            let base := baseUrl r in
            let jrd := obj
              [fld "subject" (JStr (account r));
               fld "links" (JArr
                 [obj [fld "rel" (JStr (js "http://openid.net/specs/connect/1.0/issuer")); fld "href" (JStr base)];
                  obj [fld "rel" (JStr (js "self")); fld "type" (JStr (js "application/jrd+json"));
                       fld "href" (JStr (base ++ PATH_WEBFINGER ++ 63 :: js "resource" ++ 61 :: encoded))]])] in
            answer (mkResponse 200 [header "content-type" "application/jrd+json; charset=utf-8"; ANY_ORIGIN; CACHED] (ConfinementJson.pretty 0 jrd))
        end
  end.

Definition handleNostrNip05 (r : Request) (env : Env) : Answer :=
  match readEnvString (strings env) (pubkeyBinding (actor manifest)) with
  | None => answer (plain 503 "nostr: master pubkey binding unset")
  | Some masterB64 =>
      match base64StdToHex masterB64 with
      | None => (Throw InvalidCharacter, [])
      | Some pubHex =>
          let named := match form_get (js "name") (search r) with None => true | Some n => bool_decide (n = js "cluster") end in
          let names := if named then obj [fld "cluster" (JStr pubHex)] else obj [] in
          answer (mkResponse 200 [JSON_TYPE; ANY_ORIGIN; CACHED] (json_stringify (obj [fld "names" names; fld "relays" (obj [])])))
      end
  end.

Definition fetchJwtSignature (env : Env) (issuer headerB64 payloadB64 : jsstr) : option jsstr * list LogEvent :=
  match NOTME_JWT env ≫= signJwt with
  | None => (None, [NoSignerBinding])
  | Some sign =>
      match sign issuer headerB64 payloadB64 with
      | SignThrew detail => (None, [SignerUnreachable detail])
      | SignRefused code => (None, [SignerRefused (default (js "unknown") code) issuer])
      | Signed (Some sig) => if (length sig =? 64)%nat then (Some (base64StdToBase64Url (Base64.btoa sig)), []) else (None, [])
      | Signed None => (None, [])
      end
  end.

Definition ttlSec : Z := 300.
Definition jwt_header : Json := obj [fld "alg" (JStr (js "EdDSA")); fld "typ" (JStr (js "JWT")); fld "kid" (JStr fp)].
Definition scope_field (requestedScope : jsstr) : list (jsstr * Json) :=
  match requestedScope with [] => [] | _ => [fld "scope" (JStr requestedScope)] end.
Definition jwt_payload (iss aud : jsstr) (nowSec : Z) (requestedScope : jsstr) : Json :=
  obj ([fld "iss" (JStr iss); fld "aud" (JStr aud); fld "sub" (JStr fp); fld "iat" (JNum nowSec); fld "exp" (JNum (nowSec + ttlSec))] ++
       scope_field requestedScope).

Definition token_body (jwt requestedScope : jsstr) : Json :=
  obj ([fld "access_token" (JStr jwt); fld "token_type" (JStr (js "Bearer")); fld "expires_in" (JNum ttlSec)] ++ scope_field requestedScope).
Definition UNAVAILABLE : Response := oauthError "temporarily_unavailable" (js "token signing service unavailable") 503.

Definition handleOauthToken (r : Request) (env : Env) : Answer :=
  if negb (starts_with (js "application/x-www-form-urlencoded") (to_lower (default [] (content_type r))))
  then answer (oauthError "invalid_request" (js "content-type must be application/x-www-form-urlencoded") 400)
  else
    match text r with
    | None => answer (oauthError "invalid_request" (js "could not parse form body") 400)
    | Some form =>
        let grantType := form_get (js "grant_type") form in
        if negb (bool_decide (grantType = Some (js "client_credentials")))
        then answer (oauthError "unsupported_grant_type" (js "grant_type " ++ [34] ++ default [] grantType ++ [34] ++ js " not supported") 400)
        else
          let requestedScope := default [] (form_get (js "scope") form) in
          let base := baseUrl r in
          let audience := default base (form_get (js "audience") form) in
          let nowSec := now_ms env / 1000 in
          let headerB64u := base64UrlEncodeUtf8 (json_stringify jwt_header) in
          let payloadB64u := base64UrlEncodeUtf8 (json_stringify (jwt_payload base audience nowSec requestedScope)) in
          let signingInput := headerB64u ++ js "." ++ payloadB64u in
          let '(signature, logs) := fetchJwtSignature env base headerB64u payloadB64u in
          match signature with
          | None => (Ok UNAVAILABLE, logs)
          | Some signature =>
              (Ok (mkResponse 200 [JSON_TYPE; header "cache-control" "no-store"; header "pragma" "no-cache"]
                     (json_stringify (token_body (signingInput ++ js "." ++ signature) requestedScope))), logs)
          end
    end.
End handlers.

Definition bridge_handle (manifest : Manifest) (r : Request) (env : Env) : Answer :=
  match resolveActorFingerprint manifest (strings env) with
  | Throw e => (Throw (BadFingerprint e), [])
  | Ok None => answer (plain 404 "identity bridge disabled")
  | Ok (Some fp) =>
      if bool_decide (pathname r = PATH_OIDC_DISCOVERY) then handleOidcDiscovery r
      else if bool_decide (pathname r = PATH_JWKS) then handleJwks manifest fp r env
      else if bool_decide (pathname r = PATH_WEBFINGER) then handleWebFinger r
      else if bool_decide (pathname r = PATH_NOSTR_NIP05) then handleNostrNip05 manifest r env
      else if bool_decide (pathname r = PATH_OAUTH_TOKEN) then handleOauthToken fp r env
      else answer (plain 404 "not found")
  end.

(** [capabilityNames], of the manifest's tools. *)
Definition capabilityNames (m : Manifest) : list jsstr :=
  concat (map (fun route => match Gateway.kind route with
                            | Gateway.mcp backends => concat (map (fun b => map McpProxy.s_name (Discovery.pickTools b)) backends)
                            | _ => [] end) (Discovery.routes m)).

(** ** notme-identity.ts *)

Definition identity_prefix : jsstr := js "/identity".

(** [url.pathname.replace(/^\/identity/, "") || "/"] *)
Definition stripped (pathname : jsstr) : jsstr :=
  match (if starts_with identity_prefix pathname then drop (length identity_prefix) pathname else pathname) with
  | [] => js "/"
  | rest => rest
  end.

(** The URL that is fetched, over the URL parser's resolution against a base; [None] is its exception. *)
Definition identity_target (resolve : jsstr -> jsstr -> option jsstr) (pathname search : jsstr) : option jsstr :=
  resolve (stripped pathname ++ search) (js "https://notme-bot/").

(** ** What is shown *)

Section facts.
Context (manifest : Manifest).

(** The parts of a compact JWS. *)
Lemma jws_parts (a b c : bytes) :
  split_on 46 ((Base64.b64encode a ++ js "." ++ Base64.b64encode b) ++ js "." ++ Base64.b64encode c) = [Base64.b64encode a; Base64.b64encode b; Base64.b64encode c].
Proof.
  rewrite <- app_assoc. change (js ".") with [46]. rewrite <- (app_assoc [46]). cbn [app].
  rewrite !Disclosure.split_on_app by apply Disclosure.b64u_no_dot. by rewrite Disclosure.split_on_none by apply Disclosure.b64u_no_dot.
Qed.

Lemma bridge_at path r env : pathname r = path -> path ∈ ALL_PATHS ->
  bridge_handle manifest r env =
  match resolveActorFingerprint manifest (strings env) with
  | Throw e => (Throw (BadFingerprint e), [])
  | Ok None => answer (plain 404 "identity bridge disabled")
  | Ok (Some fp) =>
      nth (default 0%nat (fst <$> list_find (fun p => p = path) ALL_PATHS))
        [handleOidcDiscovery r; handleJwks manifest fp r env; handleWebFinger r; handleNostrNip05 manifest r env; handleOauthToken fp r env]
        (answer (plain 404 "not found"))
  end.
Proof.
  intros Hp Hin. unfold bridge_handle. destruct (resolveActorFingerprint _ _) as [[fp|]|]; [|done..]. rewrite Hp. clear Hp.
  unfold ALL_PATHS in Hin. rewrite !elem_of_cons, elem_of_nil in Hin.
  destruct Hin as [-> |[-> |[-> |[-> |[-> |[]]]]]]; repeat (rewrite bool_decide_false by done); rewrite ?bool_decide_true by done; reflexivity.
Qed.

Ltac in_paths := unfold ALL_PATHS; rewrite !elem_of_cons; tauto.

(** The signer's own contract: what it signs is verified by the key that it says is the issuer's. *)
Definition signer_is_honest `{Ed25519} (signer : Signer) : Prop :=
  forall sign issuer h p sig, signJwt signer = Some sign -> sign issuer h p = Signed (Some sig) ->
    exists ask pub, issuerPublicKey signer = Some ask /\ ask issuer = KeyServed (Base64.btoa pub) /\
      ed25519_verify pub (utf8_encode (h ++ js "." ++ p)) sig = Some true.

(** C19: Suppose the signer behind the binding is honest: it serves its public key for every issuer it signs
    for ([issuerPublicKey] is there and answers), and a signature it returns is one that this key
    verifies ([signer_is_honest]).  Then a token that is issued has the actor's fingerprint as its key
    identifier and its subject, expires five minutes after it was issued, and its signature, of 64 bytes,
    is verified by the key that the key set of the same origin publishes under that identifier. *)
Theorem issued_tokens_verify `{Ed25519} r env signer resp logs :
  NOTME_JWT env = Some signer -> signer_is_honest signer ->
  pathname r = PATH_OAUTH_TOKEN -> bridge_handle manifest r env = (Ok resp, logs) -> Discovery.status resp = 200 ->
  exists fp aud scope (h p sig : bytes) pub,
    resolveActorFingerprint manifest (strings env) = Ok (Some fp) /\ length sig = 64%nat /\
    h = utf8_encode (json_stringify (jwt_header fp)) /\
    p = utf8_encode (json_stringify (jwt_payload fp (baseUrl r) aud (now_ms env / 1000) scope)) /\
    (exists token, Discovery.body resp = json_stringify (token_body token scope) /\
       map Base64.b64decode (split_on 46 token) = [Some h; Some p; Some sig]) /\
    ed25519_verify pub (utf8_encode (Base64.b64encode h ++ js "." ++ Base64.b64encode p)) sig = Some true /\
    (forall r', pathname r' = PATH_JWKS -> baseUrl r' = baseUrl r -> bridge_handle manifest r' env = (Ok (jwks (Base64.btoa pub) fp), [])) /\
    base64StdToBase64Url (Base64.btoa pub) = Base64.b64encode pub.
Proof.
  intros Hs Hhonest Hp Hh H200. rewrite (bridge_at PATH_OAUTH_TOKEN r env Hp) in Hh by in_paths.
  destruct (resolveActorFingerprint manifest (strings env)) as [[fp|]|e] eqn:Hfp; [|by injection Hh as <- <-|done].
  change (handleOauthToken fp r env = (Ok resp, logs)) in Hh. unfold handleOauthToken in Hh.
  destruct (negb (starts_with _ _)); [by injection Hh as <- <-|]. destruct (text r) as [form|]; [|by injection Hh as <- <-].
  destruct (negb (bool_decide _)); [by injection Hh as <- <-|].
  set (scope := default [] (form_get (js "scope") form)) in *. set (aud := default (baseUrl r) (form_get (js "audience") form)) in *.
  set (h := utf8_encode (json_stringify (jwt_header fp))). set (p := utf8_encode (json_stringify (jwt_payload fp (baseUrl r) aud (now_ms env / 1000) scope))).
  change (base64UrlEncodeUtf8 (json_stringify (jwt_header fp))) with (Base64.b64encode h) in Hh.
  change (base64UrlEncodeUtf8 (json_stringify (jwt_payload fp (baseUrl r) aud (now_ms env / 1000) scope))) with (Base64.b64encode p) in Hh.
  unfold fetchJwtSignature in Hh. rewrite Hs in Hh. cbn [mbind option_bind] in Hh.
  destruct (signJwt signer) as [sign|] eqn:Hsign; [|by injection Hh as <- <-].
  destruct (sign (baseUrl r) (Base64.b64encode h) (Base64.b64encode p)) as [d|c|[sig|]] eqn:Hsig; [by injection Hh as <- <-..| |by injection Hh as <- <-].
  destruct (Nat.eqb_spec (length sig) 64) as [Hl|]; [|by injection Hh as <- <-].
  destruct (Hhonest sign _ _ _ _ Hsign Hsig) as (ask & pub & Hask & Hkey & Hv).
  change (base64StdToBase64Url (Base64.btoa sig)) with (Base64.b64encode sig) in Hh.
  exists fp, aud, scope, h, p, sig, pub. split; [done|]. split; [done|]. split; [done|]. split; [done|]. split; [|split; [done|split; [|done]]].
  - exists ((Base64.b64encode h ++ js "." ++ Base64.b64encode p) ++ js "." ++ Base64.b64encode sig). split; [by injection Hh as <- _|].
    rewrite jws_parts. cbn [map]. by rewrite !Base64.b64decode_encode.
  - intros r' Hp' Hb. rewrite (bridge_at PATH_JWKS r' env Hp') by in_paths. rewrite Hfp.
    change (handleJwks manifest fp r' env = (Ok (jwks (Base64.btoa pub) fp), [])). unfold handleJwks. rewrite Hs. cbn [mbind option_bind].
    by rewrite Hask, Hb, Hkey.
Qed.

(** A key set never falls back: with a signer that serves its keys, what the environment names as the master
    key is not published, whatever the signer answers, and a refusal is a 503. *)
Theorem jwks_fails_closed r env env' signer ask fp :
  pathname r = PATH_JWKS -> NOTME_JWT env = Some signer -> issuerPublicKey signer = Some ask ->
  resolveActorFingerprint manifest (strings env) = Ok (Some fp) ->
  NOTME_JWT env' = NOTME_JWT env -> resolveActorFingerprint manifest (strings env') = Ok (Some fp) ->
  bridge_handle manifest r env' = bridge_handle manifest r env /\
  (forall k, ask (baseUrl r) = KeyServed k -> bridge_handle manifest r env = (Ok (jwks k fp), [])) /\
  ((forall k, ask (baseUrl r) <> KeyServed k) -> exists resp logs, bridge_handle manifest r env = (Ok resp, logs) /\ Discovery.status resp = 503 /\ logs <> []).
Proof.
  intros Hp Hs Hask Hfp Hs' Hfp'. rewrite !(bridge_at PATH_JWKS r _ Hp) by in_paths. rewrite Hfp, Hfp'.
  change (handleJwks manifest fp r env' = handleJwks manifest fp r env /\
    (forall k, ask (baseUrl r) = KeyServed k -> handleJwks manifest fp r env = (Ok (jwks k fp), [])) /\
    ((forall k, ask (baseUrl r) <> KeyServed k) -> exists resp logs, handleJwks manifest fp r env = (Ok resp, logs) /\ Discovery.status resp = 503 /\ logs <> [])).
  unfold handleJwks. rewrite Hs', Hs. cbn [mbind option_bind]. rewrite Hask. split; [done|]. split; [by intros k ->|].
  intros Hn. destruct (ask (baseUrl r)) as [d|c|k]; [by eexists _, _..|]. by destruct (Hn k).
Qed.

(** A token that cannot be signed is refused alike for every reason: the caller learns nothing of the
    signer. *)
Theorem token_failures_look_alike r env env' resp resp' logs logs' :
  pathname r = PATH_OAUTH_TOKEN -> strings env' = strings env ->
  bridge_handle manifest r env = (Ok resp, logs) -> bridge_handle manifest r env' = (Ok resp', logs') ->
  Discovery.status resp <> 200 -> Discovery.status resp' <> 200 -> resp = resp'.
Proof.
  intros Hp He Hh Hh' Hn Hn'. rewrite (bridge_at PATH_OAUTH_TOKEN r env Hp) in Hh by in_paths. rewrite (bridge_at PATH_OAUTH_TOKEN r env' Hp) in Hh' by in_paths. rewrite He in Hh'.
  destruct (resolveActorFingerprint manifest (strings env)) as [[fp|]|e]; [|unfold answer in *; congruence|done].
  change (handleOauthToken fp r env = (Ok resp, logs)) in Hh. change (handleOauthToken fp r env' = (Ok resp', logs')) in Hh'.
  unfold handleOauthToken in Hh, Hh'. destruct (negb (starts_with _ _)); [unfold answer in *; congruence|].
  destruct (text r) as [form|]; [|unfold answer in *; congruence]. destruct (negb (bool_decide _)); [unfold answer in *; congruence|].
  destruct (fetchJwtSignature env _ _ _) as [[sig|] l]; [by injection Hh as <- <-|].
  destruct (fetchJwtSignature env' _ _ _) as [[sig'|] l']; [by injection Hh' as <- <-|]. congruence.
Qed.

(** WebFinger answers for the account of the host that was asked and for none other, and the self link of
    its answer asks for that account again. *)
Theorem webfinger_finds_itself r env fp resp logs :
  resolveActorFingerprint manifest (strings env) = Ok (Some fp) -> pathname r = PATH_WEBFINGER ->
  bridge_handle manifest r env = (Ok resp, logs) -> Discovery.status resp = 200 ->
  form_get (js "resource") (search r) = Some (account r) /\
  exists encoded, VaultProxy.encodeURIComponent (account r) = Some encoded /\
    forall r', pathname r' = PATH_WEBFINGER -> protocol r' = protocol r -> host r' = host r -> search r' = 63 :: js "resource" ++ 61 :: encoded ->
      bridge_handle manifest r' env = bridge_handle manifest r env.
Proof.
  intros Hfp Hp. rewrite (bridge_at PATH_WEBFINGER r env Hp), Hfp by in_paths.
  change (handleWebFinger r = (Ok resp, logs) -> Discovery.status resp = 200 -> form_get (js "resource") (search r) = Some (account r) /\
    exists encoded, VaultProxy.encodeURIComponent (account r) = Some encoded /\ forall r', pathname r' = PATH_WEBFINGER -> protocol r' = protocol r -> host r' = host r ->
      search r' = 63 :: js "resource" ++ 61 :: encoded -> bridge_handle manifest r' env = handleWebFinger r).
  intros Hh H200. unfold handleWebFinger in Hh. destruct (form_get _ (search r)) as [[|c res]|] eqn:Hr; [by injection Hh as <- <-| |by injection Hh as <- <-].
  case_bool_decide as Ea; cbn [negb] in Hh; [|by injection Hh as <- <-].
  destruct (VaultProxy.encodeURIComponent (account r)) as [encoded|] eqn:He; [|done]. split; [by rewrite Ea|]. exists encoded. split; [done|].
  intros r' Hp' Hproto Hhost Hs. rewrite (bridge_at PATH_WEBFINGER r' env Hp'), Hfp by in_paths. change (handleWebFinger r' = handleWebFinger r).
  assert (Hacc : account r' = account r) by (unfold account; by rewrite Hhost).
  assert (Hget : form_get (js "resource") (search r') = Some (account r)).
  { rewrite Hs. apply form_get_query; [repeat constructor|reflexivity|done]. }
  unfold handleWebFinger. rewrite Hget, Hr, Ea, Hacc. unfold baseUrl. by rewrite Hproto, Hhost.
Qed.
End facts.

(** ** Closed examples *)

Section demo.
Definition demo_manifest : Manifest := Discovery.demo_manifest Discovery.demo_fp.
Definition demo_pub : bytes := repeat Byte.x05 32.
Definition demo_signature (pub msg : bytes) : bytes := take 64 (pub ++ msg ++ repeat Byte.x00 64).
#[local] Instance demo_ed25519 : Ed25519 := fun pub msg sig => Some (bool_decide (sig = demo_signature pub msg)).

Definition demo_signer : Signer :=
  mkSigner (Some (fun _ => KeyServed (Base64.btoa demo_pub))) (Some (fun _ h p => Signed (Some (demo_signature demo_pub (utf8_encode (h ++ js "." ++ p)))))).
Definition demo_env (signer : option Signer) : Env := mkEnv Discovery.demo_env signer 1700000000123.
Definition demo_request (path : jsstr) (search : jsstr) : Request :=
  mkRequest (js "POST") (js "https:") (js "c.example") path search (Some (js "Application/X-WWW-Form-Urlencoded; charset=utf-8"))
    (Some (js "grant_type=client%5Fcredentials&scope=a+b&&audience=%E2%82%AC")).

Lemma demo_signer_honest : signer_is_honest demo_signer.
Proof.
  intros sign issuer h p sig [= <-] [= <-]. exists (fun _ => KeyServed (Base64.btoa demo_pub)), demo_pub. split; [done|]. split; [done|].
  unfold ed25519_verify, demo_ed25519. by rewrite bool_decide_true.
Qed.

Definition response_of (a : Answer) : Response := match a with (Ok r, _) => r | _ => plain 0 "" end.
Definition demo_token : Response := response_of (bridge_handle demo_manifest (demo_request PATH_OAUTH_TOKEN []) (demo_env (Some demo_signer))).

Lemma issued_tokens_verify_witness :
  exists pub, bridge_handle demo_manifest (demo_request PATH_JWKS []) (demo_env (Some demo_signer)) = (Ok (jwks (Base64.btoa pub) Discovery.demo_fp), []).
Proof.
  assert (E : bridge_handle demo_manifest (demo_request PATH_OAUTH_TOKEN []) (demo_env (Some demo_signer)) = (Ok demo_token, [])) by (vm_compute; reflexivity).
  destruct (issued_tokens_verify demo_manifest (demo_request PATH_OAUTH_TOKEN []) (demo_env (Some demo_signer)) demo_signer demo_token [] eq_refl demo_signer_honest eq_refl E ltac:(vm_compute; reflexivity))
    as (fp & aud & scope & h & p & sig & pub & Hfp & _ & _ & _ & _ & _ & Hj & _).
  assert (E' : resolveActorFingerprint demo_manifest (strings (demo_env (Some demo_signer))) = Ok (Some Discovery.demo_fp)) by (vm_compute; reflexivity).
  exists pub. assert (fp = Discovery.demo_fp) as -> by congruence.
  exact (Hj (demo_request PATH_JWKS []) eq_refl eq_refl).
Defined.

(** A signer that signs and does not serve its key: the token is issued, the key set publishes the master
    key of the manifest, and that key does not verify the token. *)
Definition demo_keyless : Signer := mkSigner None (signJwt demo_signer).

Example unserved_key_is_replaced :
  response_of (bridge_handle demo_manifest (demo_request PATH_OAUTH_TOKEN []) (demo_env (Some demo_keyless))) = demo_token /\ Discovery.status demo_token = 200 /\
  bridge_handle demo_manifest (demo_request PATH_JWKS []) (demo_env (Some demo_keyless)) = (Ok (jwks (js "k+/=") Discovery.demo_fp), []) /\
  exists master, Base64.atob (js "k+/=") = Some master /\
    forall sign issuer h p, signJwt demo_keyless = Some sign -> exists sig, sign issuer h p = Signed (Some sig) /\
      ed25519_verify master (utf8_encode (h ++ js "." ++ p)) sig = Some false.
Proof.
  split; [vm_compute; reflexivity|]. split; [vm_compute; reflexivity|]. split; [vm_compute; reflexivity|].
  eexists. split; [vm_compute; reflexivity|]. intros sign issuer h p [= <-]. eexists. split; [reflexivity|].
  reflexivity.
Qed.

Definition demo_refusing : Signer := mkSigner (Some (fun _ => KeyRefused None)) (Some (fun _ _ _ => Signed (Some [Byte.x00]))).

Lemma jwks_fails_closed_witness :
  exists resp logs, bridge_handle demo_manifest (demo_request PATH_JWKS []) (demo_env (Some demo_refusing)) = (Ok resp, logs) /\ Discovery.status resp = 503 /\ logs <> [].
Proof.
  refine (proj2 (proj2 (jwks_fails_closed demo_manifest (demo_request PATH_JWKS []) (demo_env (Some demo_refusing)) (demo_env (Some demo_refusing)) demo_refusing
    (fun _ => KeyRefused None) Discovery.demo_fp eq_refl eq_refl eq_refl _ eq_refl _)) _); [vm_compute; reflexivity..|done].
Defined.

Lemma token_failures_look_alike_witness :
  response_of (bridge_handle demo_manifest (demo_request PATH_OAUTH_TOKEN []) (demo_env None)) =
  response_of (bridge_handle demo_manifest (demo_request PATH_OAUTH_TOKEN []) (demo_env (Some demo_refusing))).
Proof.
  exact (token_failures_look_alike demo_manifest (demo_request PATH_OAUTH_TOKEN []) (demo_env None) (demo_env (Some demo_refusing)) UNAVAILABLE UNAVAILABLE [NoSignerBinding] []
    eq_refl eq_refl ltac:(vm_compute; reflexivity) ltac:(vm_compute; reflexivity) ltac:(done) ltac:(done)).
Defined.

Lemma webfinger_finds_itself_witness :
  let r := demo_request PATH_WEBFINGER (js "?resource=acct:cluster@c.example") in
  form_get (js "resource") (search r) = Some (account r).
Proof.
  refine (proj1 (webfinger_finds_itself demo_manifest (demo_request PATH_WEBFINGER (js "?resource=acct:cluster@c.example")) (demo_env None) Discovery.demo_fp
    (response_of (bridge_handle demo_manifest (demo_request PATH_WEBFINGER (js "?resource=acct:cluster@c.example")) (demo_env None))) [] _ eq_refl _ _)); vm_compute; reflexivity.
Defined.

(** An unknown name has an empty mapping, and a key that is no base64 makes the Nostr document throw. *)
Example nostr_throws_on_a_bad_key :
  (bridge_handle demo_manifest (demo_request PATH_NOSTR_NIP05 (js "?name=eve")) (mkEnv (fun _ => Some (js "AQI=")) None 0)).1 =
    Ok (mkResponse 200 [JSON_TYPE; ANY_ORIGIN; CACHED] (json_stringify (obj [fld "names" (obj []); fld "relays" (obj [])]))) /\
  (bridge_handle demo_manifest (demo_request PATH_NOSTR_NIP05 (js "?name=eve")) (mkEnv (fun _ => Some (js "A")) None 0)).1 = Throw InvalidCharacter.
Proof. split; vm_compute; reflexivity. Qed.

(** Stripping the prefix can leave a reference that begins with two slashes, which names a host. *)
Example stripped_may_name_a_host :
  map (fun p => stripped (js p)) ["/identity/"; "/identity/authorize"; "/identity//evil.example/x"]%string = map js ["/"; "/authorize"; "//evil.example/x"]%string.
Proof. vm_compute. reflexivity. Qed.
End demo.

End IdentityBridge.
