(* ===== verification/McpRegistry.v ===== *)
(** The manifest's catalogue as a private MCP registry (src/routes/well-known-mcp-registry.ts).

    What the URL patterns say of a request is an argument: whether the list matches, and the name group of
    the detail pattern. *)
From S2P Require Import Prelude JsString Sql Json JsonText JsConvert ConfinementJson VaultProxy McpProxy Gateway Receipts TrustStore Discovery UriText.

Module McpRegistry.
Import JsonText.
Import Discovery (Manifest, Response, mkResponse, header, obj, fld, routes, metaNamespace).

Definition SERVER_NAME_PREFIX : jsstr := js "art.agentic-research/cloister/".
Definition SERVER_JSON_SCHEMA_URL : jsstr := js "https://modelcontextprotocol.io/schemas/draft/2025-12-01/server.schema.json".
Definition META_REGISTRY_KEY : jsstr := js "io.modelcontextprotocol.registry/official".
Definition META_CLOISTER_KEY_DEFAULT : jsstr := js "art.cloister/v1".

Definition metaKey (m : Manifest) : jsstr := match metaNamespace m with Some ((_ :: _) as declared) => declared | _ => META_CLOISTER_KEY_DEFAULT end.

Definition ROUTE_CAPABILITY : list (jsstr * jsstr) := [(js "vaultProxy", js "cloister/credential-isolation/v1")].

(** The key under which a route's kind is. *)
Definition kind_key (k : Gateway.RouteKind) : jsstr :=
  match k with
  | Gateway.health => js "health" | Gateway.mcp _ => js "mcp" | Gateway.serviceBindingProxy _ _ _ => js "serviceBindingProxy"
  | Gateway.httpProxy _ _ => js "httpProxy" | Gateway.wellKnownInterlace => js "wellKnownInterlace" | Gateway.disclosure => js "disclosure"
  | Gateway.wellKnownIdentityBridge => js "wellKnownIdentityBridge" | Gateway.ociRegistry => js "ociRegistry"
  | Gateway.wellKnownMcpRegistry => js "wellKnownMcpRegistry" | Gateway.caBundle => js "caBundle"
  | Gateway.vaultProxy _ => js "vaultProxy" | Gateway.tenantDispatch _ => js "tenantDispatch"
  end.

(** [Set.add] *)
Definition set_add (x : jsstr) (l : list jsstr) : list jsstr := if bool_decide (x ∈ l) then l else l ++ [x].

Definition found_capabilities (m : Manifest) : list jsstr :=
  foldl (fun found r => foldl (fun found kc => if bool_decide (kc.1 = kind_key (Gateway.kind r)) then set_add kc.2 found else found) found ROUTE_CAPABILITY) [] (routes m).
Definition deriveCapabilities (m : Manifest) : list jsstr :=
  JsConvert.sort_by JsConvert.unit_le (found_capabilities m).

Definition MAX_DESCRIPTION : nat := 100.
Definition describeBackend (b : Gateway.Backend) (toolCount : nat) (dynamic : bool) : jsstr :=
  let prefix := match Gateway.handlesPrefix b with
                | [] => Gateway.b_name b
                | p => Gateway.b_name b ++ js " (" ++ p ++ js "* tools)"
                end in
  let tail := if dynamic then js "dynamic tools" else js_dec (Z.of_nat toolCount) ++ js " tool" ++ (if (toolCount =? 1)%nat then [] else js "s") in
  let text := prefix ++ js " " ++ [8212] ++ js " proxied through cloister, " ++ tail in
  if (MAX_DESCRIPTION <? length text)%nat then take 97 text ++ js "..." else text.

Record ServerDetail := mkDetail { name : jsstr; description : jsstr; url : jsstr }.

Definition server_name (b : Gateway.Backend) : jsstr := SERVER_NAME_PREFIX ++ Gateway.b_name b.

Definition buildDetailFromHttpForward (b : Gateway.Backend) (forward : Gateway.HttpForwardSpec) (base : jsstr) : ServerDetail :=
  mkDetail (server_name b) (describeBackend b (length (Gateway.f_tools forward)) (default false (Gateway.f_dynamicTools forward))) (base ++ js "/mcp").
Definition buildDetailFromLeylineNet (b : Gateway.Backend) (base : jsstr) : ServerDetail :=
  mkDetail (server_name b) (describeBackend b 0 true) (base ++ js "/mcp").

Definition synthesizeOne (b : Gateway.Backend) (base : jsstr) : option ServerDetail :=
  match Gateway.b_kind b with
  | Gateway.mcpProxy forward => Some (buildDetailFromHttpForward b forward base)
  | Gateway.leylineNet _ _ _ => Some (buildDetailFromLeylineNet b base)
  | _ => None
  end.

Definition detail_json (d : ServerDetail) : Json :=
  obj [fld "$schema" (JStr SERVER_JSON_SCHEMA_URL); fld "name" (JStr (name d)); fld "description" (JStr (description d)); fld "version" (JStr (js "0.0.0"));
       fld "remotes" (JArr [obj [fld "type" (JStr (js "streamable-http")); fld "url" (JStr (url d))]])].

Definition registry_entry (serverName : jsstr) : Json :=
  obj [fld "id" (JStr (js "cloister:" ++ serverName)); fld "publishedAt" (JStr (js "1970-01-01T00:00:00Z")); fld "updatedAt" (JStr (js "1970-01-01T00:00:00Z"));
       fld "isLatest" (JBool true); fld "status" (JStr (js "active"))].

(** The two entries of [_meta], the second assigned after the first. *)
Definition buildMetaEnvelope (serverName : jsstr) (capabilities : list jsstr) (cloisterKey : jsstr) : list (jsstr * Json) :=
  let official := [(META_REGISTRY_KEY, registry_entry serverName)] in
  match capabilities with
  | [] => official
  | _ => obj_set cloisterKey (obj [fld "capabilities" (JArr (map JStr capabilities))]) official
  end.

Record ServerEnvelope := mkEnvelope { server : ServerDetail; meta : list (jsstr * Json) }.
Definition envelope_json (e : ServerEnvelope) : Json := obj [fld "server" (detail_json (server e)); fld "_meta" (JObj (meta e))].

Definition synthesizeAll (m : Manifest) (base : jsstr) : list ServerEnvelope :=
  let capabilities := deriveCapabilities m in
  omap (fun b => (fun d => mkEnvelope d (buildMetaEnvelope (name d) capabilities (metaKey m))) <$> synthesizeOne b base)
       (concat (map Gateway.backends_of (routes m))).

Definition findByName (m : Manifest) (base n : jsstr) : option ServerEnvelope :=
  find (fun e => bool_decide (name (server e) = n)) (synthesizeAll m base).

Definition JSON_TYPE : jsstr * jsstr := header "content-type" "application/json; charset=utf-8".
Definition jsonResponse (body : Json) : Response :=
  mkResponse 200 [JSON_TYPE; header "cache-control" "public, max-age=300, must-revalidate"] (ConfinementJson.pretty 0 body).

Definition not_found_body : jsstr :=
  json_stringify (obj [fld "error" (JStr (js "not_found")); fld "message" (JStr (js "server not found")); fld "_pad" (JStr (repeat 48 192))]).
Definition constantTime404 : Response :=
  mkResponse 404 [JSON_TYPE; header "cache-control" "no-store"; (js "content-length", js_dec (Z.of_nat (length (utf8_encode not_found_body))))] not_found_body.

Definition registry_match (method : jsstr) (list_test detail_test : bool) : bool := bool_decide (method = js "GET") && (list_test || detail_test).

(** The catalogue as it is listed. *)
Definition list_body (servers : list ServerEnvelope) : Json :=
  obj [fld "servers" (JArr (map envelope_json servers));
       fld "metadata" (obj [fld "count" (JNum (Z.of_nat (length servers))); fld "nextCursor" JNull])].

Definition registry_handle (m : Manifest) (base : jsstr) (list_test : bool) (group : option jsstr) : Response :=
  if list_test then jsonResponse (list_body (synthesizeAll m base))
  else
    match group with
    | Some raw =>
        match UriText.decodeURIComponent raw with
        | None => constantTime404
        | Some decoded =>
            match findByName m base decoded with
            | None => constantTime404
            | Some entry => jsonResponse (envelope_json entry)
            end
        end
    | None => constantTime404
    end.

(** ** What is shown *)

(** A backend that is a server of its own. *)
Definition external (b : Gateway.Backend) : Prop :=
  match Gateway.b_kind b with Gateway.mcpProxy _ | Gateway.leylineNet _ _ _ => True | _ => False end.
Definition all_backends (m : Manifest) : list Gateway.Backend := concat (map Gateway.backends_of (routes m)).

Lemma synthesizeOne_external b base : is_Some (synthesizeOne b base) <-> external b.
Proof. unfold synthesizeOne, external. destruct (Gateway.b_kind b); split; try done; by intros []. Qed.

Lemma synthesizeOne_name b base d : synthesizeOne b base = Some d -> name d = server_name b.
Proof. unfold synthesizeOne. destruct (Gateway.b_kind b); by intros [= <-]. Qed.

Lemma describeBackend_length b n dyn : (length (describeBackend b n dyn) <= MAX_DESCRIPTION)%nat.
Proof.
  unfold describeBackend. match goal with |- context [(MAX_DESCRIPTION <? length ?t)%nat] => destruct (Nat.ltb_spec MAX_DESCRIPTION (length t)) end; [|done].
  rewrite length_app, length_take. change (length (js "...")) with 3%nat. unfold MAX_DESCRIPTION. lia.
Qed.

Lemma elem_of_synthesizeAll m base e : e ∈ synthesizeAll m base <->
  exists b d, b ∈ all_backends m /\ synthesizeOne b base = Some d /\ e = mkEnvelope d (buildMetaEnvelope (name d) (deriveCapabilities m) (metaKey m)).
Proof.
  unfold synthesizeAll. rewrite list_elem_of_omap. split.
  - intros (b & Hb & (d & Hd & ->)%fmap_Some). eauto.
  - intros (b & d & Hb & Hd & ->). exists b. split; [done|]. by rewrite Hd.
Qed.

(** What the registry lists: one entry for every backend that is a server of its own, under its name, with a
    description that the specification's limit admits; no backend inside the cluster is listed. *)
Theorem registry_lists_external m base e : e ∈ synthesizeAll m base ->
  exists b, b ∈ all_backends m /\ external b /\ name (server e) = server_name b /\ (length (description (server e)) <= 100)%nat.
Proof.
  intros (b & d & Hb & Hd & ->)%elem_of_synthesizeAll. exists b. split; [done|]. split; [apply (synthesizeOne_external b base); eauto|].
  split; [by eapply synthesizeOne_name|]. unfold synthesizeOne in Hd. destruct (Gateway.b_kind b); try done; injection Hd as <-; apply describeBackend_length.
Qed.

Lemma findByName_Some m base n e : findByName m base n = Some e -> e ∈ synthesizeAll m base /\ name (server e) = n.
Proof. unfold findByName. intros [Hin Hb]%find_some. split; [by apply list_elem_of_In|]. by apply bool_decide_eq_true in Hb. Qed.

(** The entry of a backend. *)
Definition envelope_of (m : Manifest) (b : Gateway.Backend) (d : ServerDetail) : ServerEnvelope :=
  mkEnvelope d (buildMetaEnvelope (server_name b) (deriveCapabilities m) (metaKey m)).

(** Every external backend is found under its name, as a client writes it into a path, unless another has
    the name; every path that spells no external backend's name, be it that of a backend inside the
    cluster, gets one and the same reply. *)
Theorem registry_detail m base b d encoded :
  b ∈ all_backends m -> synthesizeOne b base = Some d ->
  (forall b', b' ∈ all_backends m -> external b' -> Gateway.b_name b' = Gateway.b_name b -> b' = b) ->
  VaultProxy.encodeURIComponent (server_name b) = Some encoded ->
  registry_handle m base false (Some encoded) = jsonResponse (envelope_json (envelope_of m b d)) /\
  (forall raw, (forall b', b' ∈ all_backends m -> external b' -> UriText.decodeURIComponent raw <> Some (server_name b')) ->
     registry_handle m base false (Some raw) = constantTime404).
Proof.
  intros Hb Hd Hu He. split.
  - cbn [registry_handle]. rewrite (UriText.decode_encode _ _ He). destruct (findByName m base (server_name b)) as [e|] eqn:Ef.
    + apply findByName_Some in Ef as [Hin Hn]. apply elem_of_synthesizeAll in Hin as (b' & d' & Hb' & Hd' & ->). cbn [server] in Hn.
      rewrite (synthesizeOne_name _ _ _ Hd') in Hn. assert (b' = b) as ->.
      { apply Hu; [done|apply (synthesizeOne_external b' base); eauto|]. unfold server_name in Hn. by apply app_inv_head in Hn. }
      assert (d' = d) as -> by congruence. unfold envelope_of. by rewrite (synthesizeOne_name _ _ _ Hd).
    + exfalso. unfold findByName in Ef. assert (Hin : envelope_of m b d ∈ synthesizeAll m base).
      { apply elem_of_synthesizeAll. exists b, d. split; [done|]. split; [done|]. unfold envelope_of. by rewrite (synthesizeOne_name _ _ _ Hd). }
      apply list_elem_of_In in Hin. apply (find_none _ _ Ef) in Hin. cbn [server envelope_of] in Hin. rewrite (synthesizeOne_name _ _ _ Hd) in Hin.
      by rewrite bool_decide_true in Hin.
  - intros raw Hraw. cbn [registry_handle]. destruct (UriText.decodeURIComponent raw) as [n|] eqn:Er; [|done].
    destruct (findByName m base n) as [e|] eqn:Ef; [|done]. apply findByName_Some in Ef as [Hin <-].
    apply elem_of_synthesizeAll in Hin as (b' & d' & Hb' & Hd' & ->). exfalso. apply (Hraw b' Hb').
    + apply (synthesizeOne_external b' base). eauto.
    + cbn [server]. by rewrite <- (synthesizeOne_name _ _ _ Hd').
Qed.

Lemma elem_of_set_add c x l : c ∈ set_add x l <-> c ∈ l \/ c = x.
Proof.
  unfold set_add. case_bool_decide as Hin; [split; [by left|by intros [?| ->]]|]. by rewrite elem_of_app, list_elem_of_singleton.
Qed.

(** The credential-isolation capability is advertised exactly when a route proxies the vault. *)
Lemma capabilities_iff m c : c ∈ deriveCapabilities m <->
  c = js "cloister/credential-isolation/v1" /\ exists r bundle, r ∈ routes m /\ Gateway.kind r = Gateway.vaultProxy bundle.
Proof.
  unfold deriveCapabilities. rewrite (JsConvert.sort_by_perm JsConvert.unit_le). unfold found_capabilities.
  assert (H : forall acc, c ∈ foldl (fun found r => foldl (fun found kc => if bool_decide (kc.1 = kind_key (Gateway.kind r)) then set_add kc.2 found else found) found ROUTE_CAPABILITY) acc (routes m) <->
    c ∈ acc \/ c = js "cloister/credential-isolation/v1" /\ exists r bundle, r ∈ routes m /\ Gateway.kind r = Gateway.vaultProxy bundle).
  { induction (routes m) as [|r rs IH]; intros acc; cbn [foldl].
    - split; [by left|]. intros [?|(_ & r & b & Hr%elem_of_nil & _)]; done.
    - rewrite IH. clear IH. unfold ROUTE_CAPABILITY. cbn [foldl fst snd].
      assert (Hk : js "vaultProxy" = kind_key (Gateway.kind r) <-> exists b, Gateway.kind r = Gateway.vaultProxy b).
      { split; [|by intros [b ->]]. destruct (Gateway.kind r); try (intros E; exfalso; revert E; vm_compute; discriminate). eauto. }
      assert (Hstep : (exists r' b, r' ∈ r :: rs /\ Gateway.kind r' = Gateway.vaultProxy b) <->
                (exists b, Gateway.kind r = Gateway.vaultProxy b) \/ (exists r' b, r' ∈ rs /\ Gateway.kind r' = Gateway.vaultProxy b)).
      { split.
        - intros (r' & b & [->|Hr]%elem_of_cons & Hb); [left|right]; eauto.
        - intros [[b Hb]|(r' & b & Hr & Hb)]; [exists r, b; split; [by left|done]|exists r', b; split; [by right|done]]. }
      rewrite Hstep, <- Hk. case_bool_decide as E; [rewrite elem_of_set_add|]; tauto. }
  rewrite H. split; [by intros [?%elem_of_nil|?]|by right].
Qed.

(** ** Closed examples *)

Section demo.
Definition demo_forward : Gateway.HttpForwardSpec := Gateway.mkHttpForward (js "MACHE_URL") [] (Some true) None None None None None.
Definition demo_backend : Gateway.Backend := Gateway.mkBackend (js "mache lsp") (js "mache_") (Gateway.mcpProxy demo_forward).
Definition demo_internal : Gateway.Backend := Gateway.mkBackend (js "beads") (js "bead_") (Gateway.durableObject (js "BEADS") (js "k") []).
Definition demo_manifest (namespace : option jsstr) : Manifest :=
  Discovery.mkManifest (Discovery.actor (Discovery.demo_manifest [])) (Discovery.policy (Discovery.demo_manifest [])) namespace
    [Gateway.mkRoute (js "/mcp") (Gateway.mcp [demo_internal; demo_backend]); Gateway.mkRoute (js "/vault/proxy") (Gateway.vaultProxy [])].
Definition demo_base : jsstr := js "https://c.example".
Definition demo_detail : ServerDetail := buildDetailFromHttpForward demo_backend demo_forward demo_base.

Example demo_description : description demo_detail = js "mache lsp (mache_* tools) " ++ [8212] ++ js " proxied through cloister, dynamic tools".
Proof. vm_compute. reflexivity. Qed.

Lemma registry_lists_external_witness :
  let e := envelope_of (demo_manifest None) demo_backend demo_detail in
  e ∈ synthesizeAll (demo_manifest None) demo_base /\ (length (description (server e)) <= 100)%nat.
Proof.
  assert (Hin : envelope_of (demo_manifest None) demo_backend demo_detail ∈ synthesizeAll (demo_manifest None) demo_base).
  { apply (eq_ind_r (fun l => _ ∈ l) (x := [envelope_of (demo_manifest None) demo_backend demo_detail])); [by left|vm_compute; reflexivity]. }
  split; [exact Hin|]. destruct (registry_lists_external _ _ _ Hin) as (b & _ & _ & _ & Hl). exact Hl.
Defined.

Lemma demo_unique b' : b' ∈ all_backends (demo_manifest None) -> external b' -> Gateway.b_name b' = Gateway.b_name demo_backend -> b' = demo_backend.
Proof. change (all_backends (demo_manifest None)) with [demo_internal; demo_backend]. rewrite !elem_of_cons, elem_of_nil. by intros [->|[->|[]]]. Qed.

Lemma registry_detail_witness :
  registry_handle (demo_manifest None) demo_base false (Some (js "art.agentic-research%2Fcloister%2Fmache%20lsp")) =
    jsonResponse (envelope_json (envelope_of (demo_manifest None) demo_backend demo_detail)).
Proof.
  refine (proj1 (registry_detail (demo_manifest None) demo_base demo_backend demo_detail (js "art.agentic-research%2Fcloister%2Fmache%20lsp") _ eq_refl demo_unique _)).
  - right. left.
  - vm_compute. reflexivity.
Defined.

(** Malformed escapes, names nobody has, and a backend inside the cluster look alike. *)
Example demo_not_found :
  map (fun raw => registry_handle (demo_manifest None) demo_base false (Some (js raw)))
    ["%G0"; "%"; "art.agentic-research/cloister/eve"; "art.agentic-research/cloister/beads"]%string = replicate 4 constantTime404.
Proof. vm_compute. reflexivity. Qed.

(** A namespace that is the registry's own key replaces the registry's entry. *)
Example namespace_may_hide_the_registry :
  buildMetaEnvelope (js "n") (deriveCapabilities (demo_manifest (Some META_REGISTRY_KEY))) (metaKey (demo_manifest (Some META_REGISTRY_KEY))) =
  [(META_REGISTRY_KEY, obj [fld "capabilities" (JArr [JStr (js "cloister/credential-isolation/v1")])])].
Proof. vm_compute. reflexivity. Qed.
End demo.

End McpRegistry.
